(* ===== verification/_CoqProject ===== *)
-Q . S2P
Prelude.v
GoStrings.v
Domain.v
Lifecycle.v
NodeFilter.v
Policy.v
Health.v
Risk.v
RiskEval.v
Services.v
Requests.v
Addresses.v
FetchPolicy.v
Fetch.v
Auth.v
Connections.v
InventoryStore.v
Refresh.v
InventoryService.v
InventorySamples.v
RefreshProperties.v
VersionProperties.v
SourceProperties.v
InventoryInvariant.v
Deletion.v
Periodic.v
PolicyStore.v
PolicyService.v
PolicySamples.v
PolicyInvariant.v
PolicyGraphProperties.v
RevisionProperties.v
RiskPolicies.v
Admission.v
Groups.v
ResolveGroups.v
Resolver.v
Prune.v
MihomoDocument.v
SingBoxDocument.v
Capabilities.v
Mihomo.v
Base64.v
SingBox.v
Surge.v
QuantumultX.v
Compiler.v
MihomoProperties.v
SingBoxProperties.v
Preflight.v
PolicyResolution.v
Publication.v
PublicationProperties.v
Server.v
ServerProperties.v
Scheduler.v
SchedulerInvariant.v
SchedulerWorld.v
SchedulerProperties.v
