(* ===== verification/Prelude.v ===== *)
(** * A verification of clash-sub-parser

    clash-sub-parser (CSP) collects proxy nodes from subscriptions, probes them, rates
    their exit addresses, resolves a policy (groups, rules, filters) over what is left,
    compiles the result for a proxy client and publishes it behind a token.  This
    library models the Go code under [src/internal] that decides what is published,
    to whom, and with whom the server talks on the way.

    ** The program and its model

    - The domain package ([internal/domain]): [Domain] has errors, enumerations and
      identifiers; [Lifecycle] the state machines of probe runs and batches, schedules
      and settings; [NodeFilter] nodes, observations and filter conditions; [Policy]
      groups, member sources, rules and the validation of their graph; [Health] the
      health of a node; [Risk] scores, bands, risk policies and decisions.
    - IP risk ([internal/application/iprisk], [internal/repository/sqlite/iprisk.go]):
      [RiskEval] evaluates nodes; [RiskPolicies] is the life cycle of risk policies over
      the tables, and the evaluation of the members of a group.
    - The resolver ([internal/resolver]): [Admission] decides which nodes may appear,
      [Groups] and [ResolveGroups] resolve the groups and rules, [Resolver] composes them
      to [Resolve], whose result is the snapshot.
    - The compiler ([internal/compiler]): [Prune] drops empty optional groups,
      [Capabilities] checks what a target can render, [Mihomo], [SingBox], [Surge] and
      [QuantumultX] are the renderers, [MihomoDocument] and [SingBoxDocument] the types of
      what they write, [Compiler] composes them to [Compile] and [FilterCompatibleSnapshot];
      [MihomoProperties] and [SingBoxProperties] say what the files contain.
    - The options of a sing-box core ([internal/probe/singbox]): [SingBox] also builds the
      options a probe runs with, with the encodings of [Base64].
    - Policy administration ([internal/application/policy], the policy tables of
      [internal/repository/sqlite]): [PolicyStore] has the tables and their statements,
      [PolicyService] the operations on groups, rules and configuration revisions,
      [PolicyInvariant] the invariant of the tables, [PolicyGraphProperties] that of
      the policy graph, [RevisionProperties] drafts, activation and rollback;
      [PolicyResolution] reads the tables as the repositories of [Preflight].
      [PolicySamples] are the concrete requests of the witnesses.
    - Publications ([internal/application/publication], the tables of
      [internal/repository/sqlite]): [Preflight] goes from the repositories to a snapshot
      and checks it, [Publication] has the operations of the service,
      [PublicationProperties] what they guarantee.
    - The HTTP control plane ([internal/transport/http]): [Auth] has the admin token, the
      auth switches and the sessions, [Server] the middleware and the handlers,
      [ServerProperties] what it takes to pass them.
    - Fetching subscriptions ([internal/fetch]): [Addresses] models what is used of Go's
      [net], [FetchPolicy] which addresses are allowed, [Fetch] the fetch itself.
    - The inventory ([internal/application/inventory], the node and subscription tables of
      [internal/repository/sqlite]): [Connections] has the comparison and the identities of
      connections, [InventoryStore] the tables and their statements, [Refresh] the refresh
      of a subscription, [InventoryService] edits of nodes and entries and the
      administration of subscriptions; [InventoryInvariant] is the invariant of the tables,
      [RefreshProperties], [SourceProperties], [VersionProperties] and [Deletion] what the
      operations guarantee, [InventorySamples] the concrete inventories of the witnesses.
    - Refreshes by hand and by the clock ([internal/application/subscription]): [Periodic]
      has the two slots of the service, the scans of the scheduler and their goroutines.
    - The probe scheduler ([internal/probe/queue]): [Scheduler] has its operations,
      [SchedulerInvariant] and [SchedulerWorld] its invariant over all goroutines,
      [SchedulerProperties] the theorems.
    - [Prelude] and [GoStrings] are the shared library; [Services] is the state and error
      monad of a request that runs alone, [Requests] has requests that interleave, and
      the rely-guarantee judgement [safe] to reason about them.

    A function of the source is a definition of the same name.  A method that changes
    state is a function from the state to the state and its result; a handler that
    issues several database statements is a [proc] of [Requests], whose statements
    interleave with those of other requests.  A Go error is an [Err] of [result]; the
    text of a message is left out, since no code branches on it.

    ** What the theorems show

    - Snapshots and groups ([Resolver], [ResolveGroups], [Admission], [Policy]): only
      admitted nodes appear, in the nodes the renderers read as in every list of
      identifiers, every reference is closed, every node is accounted for, the resolution
      terminates, and validation accepts acyclic graphs only.
    - Risk ([RiskEval], [Risk], [RiskPolicies], [Preflight]): a node is allowed on fresh
      sufficient evidence only, evaluation is total, what a snapshot exports passes
      the policy in force, and the preflight passes exactly when nothing forbids it.
    - Compilation ([Compiler], [Surge], [QuantumultX], [Prune]): what reaches a renderer
      has its references defined, text of a node cannot add lines to an export, pruning
      reaches a fixpoint, and the compatibility filter makes a snapshot compile and reports
      each node it leaves out.  A Mihomo file has the nodes, groups and rules of the
      snapshot, defines every name it uses and fetches rule sets over HTTPS, each from the
      provider its line names ([MihomoProperties]); a sing-box file has one entry per node
      under a tag of its own, with the server and the credentials of the node
      ([SingBoxProperties]).
    - Probe options ([SingBoxProperties]): the traffic of a probe leaves by the node under
      test, with certificates checked.
    - Policy administration: the tables keep their constraints under every
      interleaving of requests ([PolicyInvariant]), from any tables that satisfy them; a
      revision of before the snapshots of migration 000020 may lack one ([Historical]).  When requests do not race, the
      graph stays acyclic ([policy_served]) and the resolver accepts it
      ([PolicyResolution]); a rollback restores what was captured, an update needs the
      current version, pages are exact ([RevisionProperties]); and a race that stores
      a cycle.
    - Publication ([PublicationProperties]): rows are immutable, an export serves the
      previewed bytes, a revocation is final when requests do not race, and a race that
      undoes one.  The tables may start with rows of before migration 000011, which have no
      content ([Legacy]): those are the only ones an export compiles again.
    - Access ([ServerProperties]): what it takes to pass the gate of the administration
      API and of an export, rotation of the admin token, restart; and a race in which a
      session outlives the rotation.
    - Inventory: a refresh of one subscription leaves the nodes of others as they were and
      counts a revision exactly when a connection changes ([RefreshProperties]), replaces the
      sources of its subscription by what it imported, and changes nothing when it fails
      ([SourceProperties]); a deletion removes the data of its subscription and
      no other ([Deletion]); under every interleaving the references between the tables
      hold, and what a subscription was served stays its own: payloads, fetches, entries and
      sources agree on the subscription and on the fetch they come from, and a version has
      the fingerprint of its connection ([InventoryInvariant]).  Two flaws are
      theorems as well: a refresh never stores a version of a connection, and an edit can
      set a revision back ([VersionProperties]).
    - Periodic refreshes ([Periodic]): at most two at a time and one per subscription, only
      of subscriptions that are due when read, and all of them end and free their slots.
    - Fetch ([FetchPolicy], [Fetch]): the default policy is exactly a set of intervals of
      addresses, connections go to addresses of that policy, a body is returned whole and
      within the limit for what is received and the limit for what is unpacked.
    - Scheduler ([SchedulerProperties]): tasks are accounted for, counters exact, the
      order of dispatch, exclusion, cancellation, and that the scheduler drains.

    ** Parameters

    Code that is not part of the repository is an operation of a class, with its
    documented behaviour as laws; each class has an instance with which the witnesses
    evaluate: [GoText] (Unicode tables), [RegexEngine], [TextScanner], [Sha256], [Bcrypt],
    [Digests] (canonical JSON of snapshots under SHA-256), [Backend] (address and URL
    parsing, JSON decoding, the encoders of YAML and of sing-box options, and redaction by
    regular expressions), [Documents] (YAML and JSON),
    [ConfigJSON] (the JSON of a captured configuration), [ConnectionJSON] and
    [CredentialsJSON] (the JSON of connections and of credentials), [Parser] (the contents of
    a subscription), [Prefixes], [Cron], [Net], [Inflate].  The order of a Go map and of
    database rows are parameters ([MapOrder], [RowOrder], [TableOrder], [EntryScan]).  What a request takes from outside (clock, entropy, errors of the
    database, answers of repositories, the network) is in the records [Env], [PubEnv],
    [PolEnv], [InvEnv], [AuthEnv], [SrvEnv], [SnapshotRepos], [RiskService], [Fetcher] and
    [Internet].

    ** Bounds and fuel

    Recursion that is not structural has fuel, and a theorem that it suffices: the
    depth-first search of [Policy] has the number of groups, the resolution of groups
    the number of groups and one, the eviction of [Scheduler] the size of its map,
    [Prune] one round more than groups, trimming the length of the text, a fetch two
    more than its redirects.  Times and durations are [Z] in nanoseconds; 64-bit
    wrap-around is written out where the code can reach it ([wrap64]), and the one
    comparison of floating-point numbers ([Periodic]) uses the standard library's [SpecFloat].
    The order on the goroutines' positions that ends periodic refreshes needs no bound.  Counters that
    count elements of a list in memory are not bounded.

    ** Not modelled

    The digests are parameters.  Of the sing-box renderer, the functions for groups and rules,
    which have no caller.  Of policy
    administration, the two read-only reports [PreviewGroup] and [ValidateGraph].  Of the
    inventory, the parser of subscription contents (a parameter), the read views, and the
    commands that maintain and recover the history of sources.  The services around probe
    runs, the bodies of probes, the process start-up, the web assets and the migration tools are I/O and
    glue.  The manifest names each part with its status. *)

From stdpp Require Export sorting pretty numbers strings.
From stdpp Require Export base sets gmap list.
From Stdlib Require Ascii String.

#[export] Set Default Goal Selector "!".
Open Scope string_scope.
Open Scope list_scope.
Open Scope nat_scope.

(** ** Go results: a value or an error *)

Declare Scope go_scope.
Delimit Scope go_scope with go.

Inductive result (E A : Type) : Type :=
  | Ok (a : A)
  | Err (e : E).
Arguments Ok {E A} a.
Arguments Err {E A} e.

Definition is_ok {E A} (r : result E A) : bool :=
  match r with Ok _ => true | Err _ => false end.

(** [let? x := c in k]: run [c], return its error at once, else continue. *)
Notation "'let?' x := c 'in' k" :=
  (match c with Ok x => k | Err e => Err e end)
  (at level 10, x binder, c at level 200, k at level 200) : go_scope.
(** [c ;;? k]: [if err := c; err != nil { return err }], then [k]. *)
Notation "c ;;? k" := (match c with Ok _ => k | Err e => Err e end)
  (at level 100, k at level 200, right associativity) : go_scope.
(** [reject_if b e]: [if b { return e }]. *)
Definition reject_if {E} (b : bool) (e : E) : result E unit :=
  if b then Err e else Ok tt.

Open Scope go_scope.

Section Results.
Context {E A B : Type}.

(** A [for range] loop whose body may return an error. *)
Fixpoint for_each (f : A → result E unit) (l : list A) : result E unit :=
  match l with
  | [] => Ok tt
  | x :: l => f x ;;? for_each f l
  end.

(** The same with an accumulator threaded through the iterations. *)
Fixpoint fold_res (f : B → A → result E B) (b : B) (l : list A) : result E B :=
  match l with
  | [] => Ok b
  | x :: l => let? b' := f b x in fold_res f b' l
  end.

Lemma for_each_ok (f : A → result E unit) l :
  for_each f l = Ok tt ↔ ∀ x, x ∈ l → f x = Ok tt.
Proof.
  induction l as [|x l IH]; simpl.
  - split; [intros _ x Hx; by apply elem_of_nil in Hx | done].
  - destruct (f x) as [[]|e] eqn:Hx.
    + rewrite IH. setoid_rewrite elem_of_cons. naive_solver.
    + split; [done|]. intros H. specialize (H x). rewrite Hx in H.
      set_solver.
Qed.

Lemma for_each_err (f : A → result E unit) l e :
  for_each f l = Err e → ∃ x, x ∈ l ∧ f x = Err e.
Proof.
  induction l as [|x l IH]; simpl; [done|].
  destruct (f x) as [[]|e'] eqn:Hx; [intros ?%IH | intros [= <-]]; set_solver.
Qed.

Lemma fold_res_inv (P : B → Prop) (f : B → A → result E B) b l b' :
  P b → (∀ b x b', x ∈ l → P b → f b x = Ok b' → P b') →
  fold_res f b l = Ok b' → P b'.
Proof.
  revert b. induction l as [|x l IH]; intros b Hb Hstep; simpl; [by intros [= <-]|].
  destruct (f b x) as [b1|] eqn:E1; [|done]. apply IH.
  - eapply (Hstep b x b1); [set_solver|done|done].
  - intros b2 y b3 Hy. apply Hstep. set_solver.
Qed.

(** A loop that ends has run its body successfully on every element. *)
Lemma fold_res_visits (f : B → A → result E B) b l b' x :
  fold_res f b l = Ok b' → x ∈ l → ∃ b0 b1, f b0 x = Ok b1.
Proof.
  revert b. induction l as [|y l IH]; intros b; simpl; [by intros _ ?%elem_of_nil|].
  destruct (f b y) as [b1|] eqn:Hy; [|done]. intros Hf [->|Hx]%elem_of_cons; eauto.
Qed.

(** In a growing accumulator, what each iteration establishes still holds at
    the end. *)
Lemma fold_res_each (R : relation B) (Q : A → B → Prop) (f : B → A → result E B) b l b' :
  PreOrder R → (∀ b x b', f b x = Ok b' → R b b' ∧ Q x b') →
  (∀ x b b', R b b' → Q x b → Q x b') →
  fold_res f b l = Ok b' → R b b' ∧ ∀ x, x ∈ l → Q x b'.
Proof.
  intros HR Hstep Hup. revert b. induction l as [|x l IH]; intros b; simpl.
  - intros [= <-]. split; [reflexivity|]. set_solver.
  - destruct (f b x) as [b1|] eqn:E1; [|done]. intros Hf.
    apply Hstep in E1 as [HR1 HQ1]. destruct (IH b1 Hf) as [HR2 HQ2].
    split; [by transitivity b1|].
    intros y [->|Hy]%elem_of_cons; [by eapply Hup|auto].
Qed.

Lemma reject_if_ok (b : bool) (e : E) : reject_if b e = Ok tt ↔ b = false.
Proof. by destruct b. Qed.

Lemma let_ok (c : result E A) (k : A → result E B) y :
  (let? x := c in k x) = Ok y ↔ ∃ x, c = Ok x ∧ k x = Ok y.
Proof. destruct c as [x|e]; split; try done; [by exists x|by intros (? & [= <-] & ?)|by intros (? & ? & ?)]. Qed.

Lemma seq_ok (c : result E unit) (k : result E B) x :
  (c ;;? k) = Ok x ↔ c = Ok tt ∧ k = Ok x.
Proof. destruct c as [[]|]; split; try done; by intros [? ?]. Qed.
End Results.

(** Split a chain of checks that succeeded. *)
Ltac split_ok H :=
  repeat first [apply seq_ok in H as [? H] | apply let_ok in H as (? & ? & H)].

(** ** Machine integers

    A Go [int] or [int64] is a [Z]; where the source multiplies or subtracts
    without a bound the result is wrapped to 64 bits. *)

Definition int64_min : Z := -2^63.
Definition int64_max : Z := 2^63 - 1.
Definition wrap64 (z : Z) : Z := (z + 2^63) `mod` 2^64 - 2^63.

Lemma wrap64_small (z : Z) :
  (int64_min ≤ z ≤ int64_max)%Z → wrap64 z = z.
Proof.
  unfold wrap64, int64_min, int64_max. intros H.
  rewrite Z.mod_small; lia.
Qed.

Lemma wrap64_range (z : Z) : (int64_min ≤ wrap64 z ≤ int64_max)%Z.
Proof.
  unfold wrap64, int64_min, int64_max.
  pose proof (Z.mod_pos_bound (z + 2^63) (2^64) ltac:(lia)). lia.
Qed.

(** ** Stable sorting ([sort.SliceStable], [sort.Strings])

    [less] is the comparison closure of the source. *)

Class StrictWeak {A} (less : A → A → bool) : Prop := {
  sw_asym : ∀ a b, less a b = true → less b a = false;
  sw_negtrans : ∀ a b c, less a b = false → less b c = false → less a c = false
}.

Section StableSort.
Context {A : Type} (less : A → A → bool).

Fixpoint insert_stable (x : A) (l : list A) : list A :=
  match l with
  | [] => [x]
  | y :: l' => if less y x then y :: insert_stable x l' else x :: l
  end.

Fixpoint sort_stable (l : list A) : list A :=
  match l with
  | [] => []
  | x :: l => insert_stable x (sort_stable l)
  end.

Definition not_after (a b : A) : Prop := less b a = false.

Lemma insert_stable_perm x l : insert_stable x l ≡ₚ x :: l.
Proof.
  induction l as [|y l IH]; simpl; [done|].
  destruct (less y x); [|done].
  rewrite IH. apply Permutation_swap.
Qed.

Lemma sort_stable_perm l : sort_stable l ≡ₚ l.
Proof.
  induction l as [|x l IH]; simpl; [done|].
  by rewrite insert_stable_perm, IH.
Qed.

Lemma sort_stable_length l : length (sort_stable l) = length l.
Proof. by rewrite sort_stable_perm. Qed.

Lemma elem_of_sort_stable x l : x ∈ sort_stable l ↔ x ∈ l.
Proof. by rewrite sort_stable_perm. Qed.

Context `{SW : !StrictWeak less}.

Lemma insert_stable_sorted x l :
  StronglySorted not_after l → StronglySorted not_after (insert_stable x l).
Proof.
  induction 1 as [|y l Hl IH Hy]; simpl.
  - repeat constructor.
  - destruct (less y x) eqn:Hyx; constructor.
    + done.
    + rewrite insert_stable_perm. constructor; [|done].
      by apply sw_asym.
    + by constructor.
    + constructor; [done|].
      apply (Forall_impl _ _ _ Hy). unfold not_after. intros z Hz.
      by eapply sw_negtrans.
Qed.

Lemma sort_stable_sorted l : StronglySorted not_after (sort_stable l).
Proof.
  induction l as [|x l IH]; simpl; [constructor|].
  by apply insert_stable_sorted.
Qed.

(** Elements the comparison cannot tell apart keep their order. *)
Definition equiv_to (a b : A) : bool := negb (less a b) && negb (less b a).

Lemma insert_stable_filter k x l :
  StronglySorted not_after l →
  filter (λ y, equiv_to k y) (insert_stable x l) =
  filter (λ y, equiv_to k y) (x :: l).
Proof.
  induction 1 as [|y l Hl IH Hy]; simpl; [done|].
  destruct (less y x) eqn:Hyx; [|done].
  rewrite !filter_cons in *. rewrite IH.
  destruct (decide (equiv_to k x)) as [Hx|Hx], (decide (equiv_to k y)) as [Hy'|Hy'];
    try done.
  exfalso. unfold equiv_to in *.
  apply andb_prop_elim in Hx as [Hx1 Hx2]. apply andb_prop_elim in Hy' as [Hy1 Hy2].
  apply negb_prop_elim in Hx1, Hx2, Hy1, Hy2.
  assert (less y x = false); [|congruence].
  eapply (sw_negtrans _ k); [by destruct (less y k)|by destruct (less k x)].
Qed.

Lemma sort_stable_stable k l :
  filter (λ y, equiv_to k y) (sort_stable l) = filter (λ y, equiv_to k y) l.
Proof.
  induction l as [|x l IH]; simpl; [done|].
  rewrite insert_stable_filter by apply sort_stable_sorted.
  by rewrite !filter_cons, IH.
Qed.
End StableSort.

(** ** The byte order of Go strings *)

Definition str_less (a b : string) : bool :=
  match String.compare a b with Lt => true | _ => false end.

Section StringOrder.
Lemma str_compare_refl s : String.compare s s = Eq.
Proof.
  induction s as [|c s IH]; simpl; [done|].
  unfold Ascii.compare. by rewrite N.compare_refl.
Qed.

Lemma str_compare_ge_trans a b c :
  String.compare a b ≠ Lt → String.compare b c ≠ Lt → String.compare a c ≠ Lt.
Proof.
  revert b c. induction a as [|x a IH]; intros [|y b] [|z c]; simpl; try done.
  unfold Ascii.compare.
  destruct (N.compare_spec (Ascii.N_of_ascii x) (Ascii.N_of_ascii y)) as [Hxy|Hxy|Hxy],
    (N.compare_spec (Ascii.N_of_ascii y) (Ascii.N_of_ascii z)) as [Hyz|Hyz|Hyz],
    (N.compare_spec (Ascii.N_of_ascii x) (Ascii.N_of_ascii z)) as [Hxz|Hxz|Hxz];
    try done; try lia.
  apply IH.
Qed.

#[export] Instance str_less_weak : StrictWeak str_less.
Proof.
  split; unfold str_less.
  - intros a b. rewrite (String.compare_antisym b a).
    by destruct (String.compare a b).
  - intros a b c Hab Hbc. pose proof (str_compare_ge_trans a b c).
    destruct (String.compare a b), (String.compare b c), (String.compare a c); naive_solver.
Qed.

Lemma str_less_total a b : str_less a b = false → str_less b a = false → a = b.
Proof.
  unfold str_less. rewrite (String.compare_antisym b a). intros H1 H2.
  destruct (String.compare a b) eqn:E; simpl in *; try done.
  by apply String.compare_eq_iff.
Qed.

Lemma str_less_irrefl a : str_less a a = false.
Proof. unfold str_less. by rewrite str_compare_refl. Qed.
End StringOrder.

(** A change of the elements that the order does not see. *)
Lemma StronglySorted_imap {A} (R : relation A) (f : nat → A → A) l :
  StronglySorted R l → (∀ i j a b, R a b → R (f i a) (f j b)) → StronglySorted R (imap f l).
Proof.
  intros Hs. revert f. induction Hs as [|x l Hs IH Hx]; intros f Hf; simpl; constructor.
  - apply (IH (f ∘ S)). intros i j a b. apply Hf.
  - apply Forall_forall. intros y (i & z & -> & Hz)%elem_of_lookup_imap.
    rewrite Forall_forall in Hx. apply Hf, Hx. by eapply list_elem_of_lookup_2.
Qed.

Definition sort_strings : list string → list string := sort_stable str_less.

#[export] Instance str_not_after_antisymm : AntiSymm eq (not_after str_less).
Proof. intros a b H1 H2. by apply str_less_total. Qed.

Lemma sort_strings_sorted l : StronglySorted (not_after str_less) (sort_strings l).
Proof. apply sort_stable_sorted, _. Qed.

(** The sorted form does not depend on the order of the input: whatever order
    a Go map is iterated in, sorting its keys gives the same slice. *)
Lemma sort_strings_canonical l1 l2 : l1 ≡ₚ l2 → sort_strings l1 = sort_strings l2.
Proof.
  intros Hp. apply (StronglySorted_unique (not_after str_less)).
  - apply sort_strings_sorted.
  - apply sort_strings_sorted.
  - unfold sort_strings. by rewrite !sort_stable_perm.
Qed.

Lemma elem_of_sort_strings x l : x ∈ sort_strings l ↔ x ∈ l.
Proof. apply elem_of_sort_stable. Qed.

Lemma sort_strings_perm l : sort_strings l ≡ₚ l.
Proof. apply sort_stable_perm. Qed.

(** ** Comparison closures built from keys *)

Section KeyOrders.
Context {A : Type}.

Definition less_Z (key : A → Z) (a b : A) : bool := (key a <? key b)%Z.

Definition less_str (key : A → string) (a b : A) : bool := str_less (key a) (key b).

(** First [k1], then [less] among the elements that agree on it. *)
Definition less_then (k1 : A → string) (less : A → A → bool) (a b : A) : bool :=
  if String.eqb (k1 a) (k1 b) then less a b else str_less (k1 a) (k1 b).

#[export] Instance less_Z_weak key : StrictWeak (less_Z key).
Proof. unfold less_Z. split; intros *; rewrite ?Z.ltb_lt, ?Z.ltb_ge; lia. Qed.

#[export] Instance less_str_weak key : StrictWeak (less_str key).
Proof.
  unfold less_str. split; intros *; [apply sw_asym | apply sw_negtrans].
Qed.

#[export] Instance less_then_weak k1 less `{!StrictWeak less} :
  StrictWeak (less_then k1 less).
Proof.
  unfold less_then. split; intros *.
  - rewrite (String.eqb_sym (k1 b)).
    destruct (String.eqb_spec (k1 a) (k1 b)); apply sw_asym.
  - generalize (k1 a), (k1 b), (k1 c). intros x y z.
    destruct (String.eqb_spec x y) as [->|Hxy], (String.eqb_spec y z) as [<-|Hyz];
      rewrite ?String.eqb_refl; try done.
    + apply sw_negtrans.
    + by rewrite (proj2 (String.eqb_neq x y) Hxy).
    + intros H1 H2. destruct (String.eqb_spec x z) as [->|Hxz].
      * exfalso. by apply Hxy, str_less_total.
      * by eapply sw_negtrans.
Qed.
End KeyOrders.

(** ** Shared list operations *)

(** The first-occurrence-only copy of a slice guarded by a [seen] map. *)
Fixpoint nub `{EqDecision A} (l : list A) : list A :=
  match l with
  | [] => []
  | x :: l => x :: filter (λ y, y ≠ x) (nub l)
  end.

(** Numbering a list and forgetting the numbers. *)
Lemma imap_pair_snd {A} (l : list A) : map snd (imap pair l) = l.
Proof.
  change (map snd) with (fmap (M := list) (snd (A := nat) (B := A))).
  rewrite fmap_imap. apply list_eq. intros i. rewrite list_lookup_imap. by destruct (l !! i).
Qed.

Definition mem_str (x : string) (l : list string) : bool := existsb (String.eqb x) l.

Lemma mem_str_spec x l : mem_str x l = true ↔ x ∈ l.
Proof.
  unfold mem_str. rewrite existsb_exists. setoid_rewrite String.eqb_eq.
  setoid_rewrite <- list_elem_of_In. naive_solver.
Qed.

Lemma mem_str_false x l : mem_str x l = false ↔ x ∉ l.
Proof. rewrite <- mem_str_spec. by destruct (mem_str x l). Qed.

(** Adjacent duplicates dropped ([uniqueStrings] and the inline loop of
    [Resolve]); on a sorted slice this removes every duplicate. *)
Fixpoint drop_adjacent (prev : string) (l : list string) : list string :=
  match l with
  | [] => []
  | x :: l => if String.eqb x prev then drop_adjacent prev l else x :: drop_adjacent x l
  end.

Definition unique_adjacent (l : list string) : list string :=
  match l with [] => [] | x :: l => x :: drop_adjacent x l end.

Section UniqueAdjacent.
Lemma elem_of_drop_adjacent x p l : x ∈ p :: drop_adjacent p l ↔ x ∈ p :: l.
Proof.
  revert p. induction l as [|y l IH]; intros p; simpl; [done|].
  destruct (String.eqb_spec y p) as [->|Hne].
  - specialize (IH p). set_solver.
  - specialize (IH y). set_solver.
Qed.

Lemma elem_of_unique_adjacent x l : x ∈ unique_adjacent l ↔ x ∈ l.
Proof. destruct l; [done|]. apply elem_of_drop_adjacent. Qed.

Lemma drop_adjacent_nodup p l :
  StronglySorted (not_after str_less) (p :: l) → NoDup (p :: drop_adjacent p l).
Proof.
  revert p. induction l as [|y l IH]; intros p Hs; simpl; [repeat constructor; set_solver|].
  apply StronglySorted_inv in Hs as [Hs Hp]. apply Forall_cons in Hp as [Hpy Hp].
  destruct (String.eqb_spec y p) as [->|Hne].
  - apply IH. apply StronglySorted_inv in Hs as [??]; by constructor.
  - constructor; [|by apply IH].
    rewrite elem_of_drop_adjacent. intros [->|Hin]%elem_of_cons; [done|].
    apply StronglySorted_inv in Hs as [_ Hy].
    rewrite Forall_forall in Hy. specialize (Hy p Hin).
    by apply Hne, str_not_after_antisymm.
Qed.

Lemma unique_adjacent_nodup l :
  StronglySorted (not_after str_less) l → NoDup (unique_adjacent l).
Proof. destruct l; [constructor|]. apply drop_adjacent_nodup. Qed.

Lemma drop_adjacent_sorted R p l : StronglySorted R (p :: l) → StronglySorted R (p :: drop_adjacent p l).
Proof.
  revert p. induction l as [|y l IH]; intros p Hs; simpl; [done|].
  apply StronglySorted_inv in Hs as [Hs Hp]. apply Forall_cons in Hp as [Hpy Hp].
  destruct (String.eqb_spec y p) as [->|Hne].
  - apply IH. apply StronglySorted_inv in Hs as [??]; by constructor.
  - constructor; [by apply IH|]. apply Forall_forall. intros x Hx.
    rewrite elem_of_drop_adjacent in Hx. apply elem_of_cons in Hx as [->|Hx]; [done|].
    rewrite Forall_forall in Hp. by apply Hp.
Qed.

Lemma unique_adjacent_sorted R l : StronglySorted R l → StronglySorted R (unique_adjacent l).
Proof. destruct l; [done|]. apply drop_adjacent_sorted. Qed.
End UniqueAdjacent.

(** ** Automation *)

Create HintDb csp.
#[export] Hint Rewrite @elem_of_sort_stable @sort_stable_length
  elem_of_sort_strings elem_of_unique_adjacent : csp.
#[export] Hint Rewrite mem_str_spec mem_str_false @reject_if_ok : csp.
#[export] Hint Rewrite andb_true_iff orb_true_iff negb_true_iff negb_false_iff
  orb_false_iff andb_false_iff : csp.
#[export] Hint Resolve sort_strings_sorted unique_adjacent_nodup : csp.

(** A point below which a relation is well founded is on no cycle. *)
Lemma tc_last {A} (R : relation A) a x : tc R a x → ∃ y, R y x ∧ (a = y ∨ tc R a y).
Proof.
  induction 1 as [a x Hax|a b x Hab _ (y & Hy & [->|Hby])]; [by exists a; auto|exists y..].
  - split; [done|]. right. by constructor.
  - split; [done|]. right. by eapply tc_l.
Qed.

Lemma Acc_no_tc {A} (R : relation A) x : Acc R x → ¬ tc R x x.
Proof.
  induction 1 as [x _ IH]. intros (y & Hy & [<-|Hxy])%tc_last.
  - apply (IH x Hy). by constructor.
  - apply (IH y Hy). by eapply tc_l.
Qed.

(** Split every early return of a hypothesis [c ;;? k = Ok v]. *)
Ltac inv_ok :=
  repeat match goal with
  | H : (match ?c with Ok _ => _ | Err _ => _ end) = Ok _ |- _ =>
      let E := fresh "Hok" in destruct c eqn:E; [|discriminate H]
  | u : unit |- _ => destruct u
  | H : reject_if _ _ = Ok _ |- _ => apply reject_if_ok in H
  | H : Ok _ = Ok _ |- _ => injection H as H
  end.

(** [lia] with division and remainder by constants. *)
Ltac div_lia := Z.to_euclidean_division_equations; lia.

(** ** Maps

    The order in which Go ranges over a map. *)

Class MapOrder := {
  range : ∀ {A}, gmap string A → list (string * A);
  range_perm : ∀ A (m : gmap string A), range m ≡ₚ map_to_list m
}.

Definition key_order : MapOrder.
Proof. refine {| range := λ A m, map_to_list m |}. done. Defined.
