(* ===== verification/GoStrings.v ===== *)
(** * Go's string functions

    Strings are byte strings ([String.string] is a list of 8-bit characters),
    as in Go.  [TrimSpace], [Contains], [HasPrefix], [HasSuffix], [SplitN] and
    [ParseInt] are written out on bytes.  The functions whose result depends on
    the Unicode tables ([ToLower], [ToUpper], [EqualFold], and [Quote] for the
    [%q] verb) are the operations of the class [GoText], with their behaviour
    on ASCII text as laws; [ascii_text] is the instance used to evaluate the
    model on concrete inputs. *)

From S2P Require Import Prelude.

Definition byte_of (n : N) : Ascii.ascii := Ascii.ascii_of_N n.

Fixpoint bytes (l : list N) : string :=
  match l with [] => "" | n :: l => String (byte_of n) (bytes l) end.

Fixpoint str_rev_app (s acc : string) : string :=
  match s with "" => acc | String c s => str_rev_app s (String c acc) end.
Definition str_rev (s : string) : string := str_rev_app s "".

(** ** Prefixes and substrings *)

(** The rest of [s] after the prefix [p]. *)
Fixpoint strip_prefix (p s : string) : option string :=
  match p, s with
  | "", _ => Some s
  | String a p, String b s => if Ascii.eqb a b then strip_prefix p s else None
  | String _ _, "" => None
  end.

Definition HasPrefix (s p : string) : bool :=
  match strip_prefix p s with Some _ => true | None => false end.
Definition HasSuffix (s p : string) : bool := HasPrefix (str_rev s) (str_rev p).

(** [SplitN s sep 2] for a separator that occurs: the text before its first
    occurrence and the text after it. *)
Fixpoint cut (sep s : string) : option (string * string) :=
  match strip_prefix sep s with
  | Some rest => Some ("", rest)
  | None =>
      match s with
      | "" => None
      | String c s' =>
          match cut sep s' with
          | Some (a, b) => Some (String c a, b)
          | None => None
          end
      end
  end.

Definition Contains (s sub : string) : bool :=
  match cut sub s with Some _ => true | None => false end.

Section Prefixes.
Lemma strip_prefix_app p s r : strip_prefix p s = Some r → s = p +:+ r.
Proof.
  revert s. induction p as [|a p IH]; intros s; simpl; [by intros [= ->]|].
  destruct s as [|b s]; [done|].
  destruct (Ascii.eqb_spec a b) as [->|]; [|done].
  by intros ->%IH.
Qed.

Lemma strip_prefix_self p r : strip_prefix p (p +:+ r) = Some r.
Proof. induction p as [|a p IH]; simpl; [done|]. by rewrite Ascii.eqb_refl. Qed.

Lemma HasPrefix_spec s p : HasPrefix s p = true ↔ ∃ r, s = p +:+ r.
Proof.
  unfold HasPrefix. split.
  - destruct (strip_prefix p s) as [r|] eqn:E; [|done]. exists r.
    by apply strip_prefix_app.
  - intros [r ->]. by rewrite strip_prefix_self.
Qed.

Lemma cut_app sep s a b : cut sep s = Some (a, b) → s = a +:+ sep +:+ b.
Proof.
  revert a b. induction s as [|c s IH]; intros a b; simpl.
  - destruct (strip_prefix sep "") eqn:E; [|done].
    intros [= <- <-]. by apply strip_prefix_app in E.
  - destruct (strip_prefix sep (String c s)) eqn:E.
    + intros [= <- <-]. by apply strip_prefix_app in E.
    + destruct (cut sep s) as [[a' b']|]; [|done].
      intros [= <- <-]. simpl. by rewrite (IH a' b').
Qed.

Lemma Contains_spec s sub : Contains s sub = true ↔ ∃ a b, s = a +:+ sub +:+ b.
Proof.
  unfold Contains. split.
  - destruct (cut sub s) as [[a b]|] eqn:E; [|done]. exists a, b.
    by apply cut_app.
  - intros (a & b & ->). induction a as [|c a IH]; simpl.
    + destruct (sub +:+ b) eqn:E; simpl; rewrite <- E, strip_prefix_self; done.
    + destruct (strip_prefix sub _); [done|].
      destruct (cut sub (a +:+ sub +:+ b)) as [[]|]; done.
Qed.
End Prefixes.

(** ** [strings.TrimSpace]

    The UTF-8 encodings of the code points [unicode.IsSpace] accepts. *)

Definition space_seqs : list string :=
  [ bytes [9]; bytes [10]; bytes [11]; bytes [12]; bytes [13]; bytes [32];
    bytes [194; 133]; bytes [194; 160]; bytes [225; 154; 128];
    bytes [226; 128; 128]; bytes [226; 128; 129]; bytes [226; 128; 130];
    bytes [226; 128; 131]; bytes [226; 128; 132]; bytes [226; 128; 133];
    bytes [226; 128; 134]; bytes [226; 128; 135]; bytes [226; 128; 136];
    bytes [226; 128; 137]; bytes [226; 128; 138]; bytes [226; 128; 168];
    bytes [226; 128; 169]; bytes [226; 128; 175]; bytes [226; 129; 159];
    bytes [227; 128; 128] ]%N.

Fixpoint strip_one (seqs : list string) (s : string) : option string :=
  match seqs with
  | [] => None
  | p :: seqs =>
      match strip_prefix p s with Some r => Some r | None => strip_one seqs s end
  end.

(** Every space sequence is at least one byte long, so the length of the string
    is enough fuel. *)
Fixpoint strip_all (fuel : nat) (seqs : list string) (s : string) : string :=
  match fuel with
  | O => s
  | S fuel =>
      match strip_one seqs s with
      | Some r => strip_all fuel seqs r
      | None => s
      end
  end.

Definition trim_left (seqs : list string) (s : string) : string :=
  strip_all (String.length s) seqs s.

Definition TrimSpace (s : string) : string :=
  let l := trim_left space_seqs s in
  str_rev (trim_left (map str_rev space_seqs) (str_rev l)).

Section Trim.
Lemma str_length_app s t :
  String.length (s +:+ t) = String.length s + String.length t.
Proof. induction s as [|c s IH]; [done|]. simpl. by rewrite <- IH. Qed.

Lemma strip_one_shorter seqs s r :
  Forall (λ p, p ≠ "") seqs → strip_one seqs s = Some r →
  String.length r < String.length s.
Proof.
  induction 1 as [|p seqs Hp _ IH]; simpl; [done|].
  destruct (strip_prefix p s) as [r'|] eqn:E; [|done].
  intros [= <-]. apply strip_prefix_app in E as ->.
  rewrite str_length_app. destruct p; [done|]. simpl. lia.
Qed.

(** The fuel suffices: what is left starts with no space sequence. *)
Lemma strip_all_done fuel seqs s :
  Forall (λ p, p ≠ "") seqs → String.length s ≤ fuel →
  strip_one seqs (strip_all fuel seqs s) = None.
Proof.
  intros Hseqs. revert s. induction fuel as [|fuel IH]; intros s Hs; simpl.
  - destruct (strip_one seqs s) eqn:E; [|done].
    apply strip_one_shorter in E; [lia|done].
  - destruct (strip_one seqs s) as [r|] eqn:E; [|done].
    apply IH. apply strip_one_shorter in E; [lia|done].
Qed.

Lemma strip_all_none fuel seqs s : strip_one seqs s = None → strip_all fuel seqs s = s.
Proof. by destruct fuel; simpl; [|intros ->]. Qed.

Lemma space_seqs_nonempty : Forall (λ p, p ≠ "") space_seqs.
Proof. repeat constructor; done. Qed.
End Trim.

(** ** Unicode-dependent operations *)

Definition is_ascii_byte (c : Ascii.ascii) : bool := (Ascii.N_of_ascii c <? 128)%N.
Fixpoint is_ascii (s : string) : bool :=
  match s with "" => true | String c s => is_ascii_byte c && is_ascii s end.

Definition lower_byte (c : Ascii.ascii) : Ascii.ascii :=
  let n := Ascii.N_of_ascii c in
  if ((65 <=? n) && (n <=? 90))%N then Ascii.ascii_of_N (n + 32) else c.
Definition upper_byte (c : Ascii.ascii) : Ascii.ascii :=
  let n := Ascii.N_of_ascii c in
  if ((97 <=? n) && (n <=? 122))%N then Ascii.ascii_of_N (n - 32) else c.

Fixpoint map_bytes (f : Ascii.ascii → Ascii.ascii) (s : string) : string :=
  match s with "" => "" | String c s => String (f c) (map_bytes f s) end.

Definition ascii_lower : string → string := map_bytes lower_byte.
Definition ascii_upper : string → string := map_bytes upper_byte.

(** The operators of admission expressions; no letter, so unaffected by case. *)
Definition comparison_ops : list string := ["=="; "!="; "=~"; "~="].

Class GoText := {
  ToLower : string → string;
  ToUpper : string → string;
  EqualFold : string → string → bool;
  Quote : string → string;
  ToLower_ascii : ∀ s, is_ascii s = true → ToLower s = ascii_lower s;
  ToUpper_ascii : ∀ s, is_ascii s = true → ToUpper s = ascii_upper s;
  ToLower_ops : ∀ s op, op ∈ comparison_ops → Contains (ToLower s) op = Contains s op;
  EqualFold_refl : ∀ s, EqualFold s s = true;
  EqualFold_sym : ∀ s t, EqualFold s t = true → EqualFold t s = true;
  EqualFold_trans : ∀ s t u, EqualFold s t = true → EqualFold t u = true → EqualFold s u = true;
  EqualFold_ascii : ∀ s t, is_ascii s = true → is_ascii t = true →
    EqualFold s t = String.eqb (ascii_lower s) (ascii_lower t)
}.

Section LowerOps.
(** A byte that is its own lower case and that of no other byte. *)
Definition caseless (x : Ascii.ascii) : Prop := ∀ c, Ascii.eqb x (lower_byte c) = Ascii.eqb x c.
Definition caseless_op (a b : Ascii.ascii) : string := String a (String b "").

Lemma strip_prefix_lower a b s :
  caseless a → caseless b →
  strip_prefix (caseless_op a b) (ascii_lower s) =
  ascii_lower <$> strip_prefix (caseless_op a b) s.
Proof.
  intros Ha Hb. destruct s as [|c [|d s]]; simpl; [done|by destruct (Ascii.eqb a c); rewrite Ha; destruct (Ascii.eqb a c)|].
  rewrite Ha. destruct (Ascii.eqb a c); [|done]. rewrite Hb. by destruct (Ascii.eqb b d).
Qed.

Lemma Contains_lower a b s :
  caseless a → caseless b →
  Contains (ascii_lower s) (caseless_op a b) = Contains s (caseless_op a b).
Proof.
  intros Ha Hb. unfold Contains. induction s as [|c s IH]; [done|].
  pose proof (strip_prefix_lower a b (String c s) Ha Hb) as Hp.
  change (ascii_lower (String c s)) with (String (lower_byte c) (ascii_lower s)) in *.
  simpl cut. simpl strip_prefix in Hp |- *.
  destruct (Ascii.eqb a c) eqn:Hac; rewrite Ha, Hac in *; simpl in *.
  - destruct (match s with "" => None | String b' s' => _ end) as [r|]; rewrite Hp; simpl; [done|].
    by destruct (cut _ s) as [[]|], (cut _ (ascii_lower s)) as [[]|].
  - by destruct (cut _ s) as [[]|], (cut _ (ascii_lower s)) as [[]|].
Qed.

Lemma caseless_dec x :
  forallb (λ n, eqb (Ascii.eqb x (lower_byte (Ascii.ascii_of_nat n)))
                   (Ascii.eqb x (Ascii.ascii_of_nat n))) (seq 0 256) = true → caseless x.
Proof.
  intros Hf c. rewrite forallb_forall in Hf.
  specialize (Hf (Ascii.nat_of_ascii c)). rewrite Ascii.ascii_nat_embedding in Hf.
  apply eqb_prop, Hf, in_seq. pose proof (Ascii.nat_ascii_bounded c). lia.
Qed.

Lemma Contains_ascii_lower_ops s op :
  op ∈ comparison_ops → Contains (ascii_lower s) op = Contains s op.
Proof.
  unfold comparison_ops. rewrite !elem_of_cons, elem_of_nil.
  intros [->|[->|[->|[->|[]]]]]; apply Contains_lower; apply caseless_dec; vm_compute; reflexivity.
Qed.
End LowerOps.

(** The instance for evaluation: ASCII letters only, quotes without escapes. *)
#[local] Definition dquote : string := bytes [34%N].
Definition ascii_text : GoText.
Proof.
  refine {| ToLower := ascii_lower; ToUpper := ascii_upper;
            EqualFold := λ s t, String.eqb (ascii_lower s) (ascii_lower t);
            Quote := λ s, dquote +:+ s +:+ dquote |}; try done.
  - apply Contains_ascii_lower_ops.
  - intros s. apply String.eqb_refl.
  - intros s t. by rewrite !String.eqb_eq.
  - intros s t u. rewrite !String.eqb_eq. congruence.
Defined.

(** ** Decimal text *)

Definition digit_of (c : Ascii.ascii) : option Z :=
  let n := Ascii.N_of_ascii c in
  if ((48 <=? n) && (n <=? 57))%N then Some (Z.of_N n - 48)%Z else None.

Fixpoint parse_digits (acc : Z) (s : string) : option Z :=
  match s with
  | "" => Some acc
  | String c s =>
      match digit_of c with
      | Some d => parse_digits (10 * acc + d) s
      | None => None
      end
  end.

(** [strconv.ParseInt(s, 10, 64)]; [None] stands for both its syntax and its
    range error. *)
Definition ParseInt (s : string) : option Z :=
  let magnitude t := if String.eqb t "" then None else parse_digits 0 t in
  let signed :=
    match strip_prefix "-" s, strip_prefix "+" s with
    | Some t, _ => Z.opp <$> magnitude t
    | None, Some t => magnitude t
    | None, None => magnitude s
    end in
  match signed with
  | Some z => if ((int64_min <=? z) && (z <=? int64_max))%Z then Some z else None
  | None => None
  end.

(** The value that [strconv.Atoi] returns beside an error: 0 for text that is no number, the
    nearest bound for a number out of range. *)
Definition Atoi_value (s : string) : Z :=
  let magnitude t := if String.eqb t "" then None else parse_digits 0 t in
  let signed :=
    match strip_prefix "-" s, strip_prefix "+" s with
    | Some t, _ => Z.opp <$> magnitude t
    | None, Some t => magnitude t
    | None, None => magnitude s
    end in
  match signed with Some z => Z.max int64_min (Z.min int64_max z) | None => 0%Z end.

(** Width in bytes of the first rune of a text, as [utf8.DecodeRuneInString] has it: one
    byte for a byte that starts no valid sequence. *)
Definition rune_width (s : string) : nat :=
  let nth i := match String.get i s with Some c => Ascii.N_of_ascii c | None => 0%N end in
  let within lo hi i := ((lo <=? nth i) && (nth i <=? hi))%N in
  let tail := within 128%N 191%N in
  let first lo hi := within lo hi 0 in
  if first 194%N 223%N then if tail 1 then 2 else 1
  else if first 224%N 224%N then if within 160%N 191%N 1 && tail 2 then 3 else 1
  else if first 237%N 237%N then if within 128%N 159%N 1 && tail 2 then 3 else 1
  else if first 225%N 239%N then if tail 1 && tail 2 then 3 else 1
  else if first 240%N 240%N then if within 144%N 191%N 1 && tail 2 && tail 3 then 4 else 1
  else if first 241%N 243%N then if tail 1 && tail 2 && tail 3 then 4 else 1
  else if first 244%N 244%N then if within 128%N 143%N 1 && tail 2 && tail 3 then 4 else 1
  else 1.

(** [strings.Trim] with a set of ASCII characters. *)
Fixpoint trim_left_set (set : list N) (s : string) : string :=
  match s with
  | String c rest => if existsb (λ n, (n =? Ascii.N_of_ascii c)%N) set then trim_left_set set rest else s
  | "" => ""
  end.
Definition Trim (s : string) (set : list N) : string :=
  str_rev (trim_left_set set (str_rev (trim_left_set set s))).

Definition TrimSuffix (s suffix : string) : string :=
  match strip_prefix (str_rev suffix) (str_rev s) with Some r => str_rev r | None => s end.

(** The first of two values that is not empty, and a list without its blank entries. *)
Definition or_else (s t : string) : string := if String.eqb s "" then t else s.
Definition trimmed (l : list string) : list string :=
  List.filter (λ v, negb (String.eqb v "")) (map TrimSpace l).

(** [fmt.Sprintf("%d", z)] *)
Definition itoa (z : Z) : string := pretty z.

(** ** Fixed regular expressions

    The anchored expressions of the domain package are sequences of character
    classes, matched one byte each. *)

Definition in_range (lo hi : N) (c : Ascii.ascii) : bool :=
  let n := Ascii.N_of_ascii c in ((lo <=? n) && (n <=? hi))%N.
Definition is_hex (c : Ascii.ascii) : bool :=
  in_range 48 57 c || in_range 97 102 c || in_range 65 70 c.
Definition is_char (n : N) (c : Ascii.ascii) : bool := (n =? Ascii.N_of_ascii c)%N.

Fixpoint match_classes (cls : list (Ascii.ascii → bool)) (s : string) : bool :=
  match cls, s with
  | [], "" => true
  | f :: cls, String c s => f c && match_classes cls s
  | _, _ => false
  end.

Fixpoint all_bytes (f : Ascii.ascii → bool) (s : string) : bool :=
  match s with "" => true | String c s => f c && all_bytes f s end.

(** ** Text without spaces

    Trimming leaves a text of printable, non-space ASCII bytes alone. *)

Definition is_graphic (c : Ascii.ascii) : bool :=
  ((33 <=? Ascii.N_of_ascii c) && (Ascii.N_of_ascii c <=? 126))%N.

Section Graphic.
Lemma all_bytes_rev_app f s acc :
  all_bytes f (str_rev_app s acc) = all_bytes f s && all_bytes f acc.
Proof.
  revert acc. induction s as [|c s IH]; intros acc; simpl; [done|]. rewrite IH. simpl.
  rewrite andb_assoc. f_equal. apply andb_comm.
Qed.

Lemma str_rev_app_twice s t acc :
  str_rev_app (str_rev_app s t) acc = str_rev_app t (s +:+ acc).
Proof. revert t acc. induction s as [|c s IH]; intros t acc; simpl; [done|]. by rewrite IH. Qed.

Lemma str_app_nil s : s +:+ "" = s.
Proof. induction s as [|c s IH]; [done|]. by apply (f_equal (String c)) in IH. Qed.

Lemma str_rev_involutive s : str_rev (str_rev s) = s.
Proof. unfold str_rev. rewrite str_rev_app_twice. simpl. apply str_app_nil. Qed.

(** A text that starts with a graphic byte starts with no space. *)
Lemma strip_one_graphic seqs s :
  Forall (λ p, match p with String c _ => is_graphic c = false | "" => False end) seqs →
  all_bytes is_graphic s = true → strip_one seqs s = None.
Proof.
  intros Hf Hs. induction Hf as [|p seqs Hp _ IH]; simpl; [done|].
  destruct p as [|a p]; [done|]. destruct s as [|c s]; simpl in *; [done|].
  destruct (Ascii.eqb_spec a c) as [->|]; [|done]. by rewrite Hp in Hs.
Qed.

Lemma TrimSpace_graphic s : all_bytes is_graphic s = true → TrimSpace s = s.
Proof.
  intros Hs. unfold TrimSpace, trim_left.
  rewrite (strip_all_none _ space_seqs s)
    by (apply strip_one_graphic; [repeat constructor; done|done]).
  rewrite strip_all_none; [apply str_rev_involutive|].
  apply strip_one_graphic; [repeat constructor; done|].
  unfold str_rev. by rewrite all_bytes_rev_app, Hs.
Qed.

Lemma str_app_assoc s t u : (s +:+ t) +:+ u = s +:+ (t +:+ u).
Proof. induction s as [|c s IH]; [done|]. by apply (f_equal (String c)) in IH. Qed.

Lemma str_rev_app_acc s acc : str_rev_app s acc = str_rev s +:+ acc.
Proof.
  rewrite <- (str_rev_involutive s) at 1. unfold str_rev at 1. by rewrite str_rev_app_twice.
Qed.

(** What starts no text starts no prefix of it. *)
Lemma strip_one_prefix seqs u v : strip_one seqs (u +:+ v) = None → strip_one seqs u = None.
Proof.
  induction seqs as [|p seqs IH]; simpl; [done|].
  destruct (strip_prefix p u) as [r|] eqn:E.
  - apply strip_prefix_app in E as ->. by rewrite str_app_assoc, strip_prefix_self.
  - destruct (strip_prefix p (u +:+ v)); [done|]. apply IH.
Qed.

Lemma strip_all_suffix fuel seqs s : ∃ u, s = u +:+ strip_all fuel seqs s.
Proof.
  revert s. induction fuel as [|fuel IH]; intros s; simpl; [by exists ""|].
  destruct (strip_one seqs s) as [r|] eqn:E; [|by exists ""].
  assert (∃ p, s = p +:+ r) as [p ->].
  { clear IH. induction seqs as [|q seqs IH]; [done|]. simpl in E.
    destruct (strip_prefix q s) as [r'|] eqn:Hq; [|by apply IH].
    injection E as ->. exists q. by apply strip_prefix_app. }
  destruct (IH r) as [u Hu]. exists (p +:+ u). by rewrite str_app_assoc, <- Hu.
Qed.

Lemma str_rev_app_dist u v : str_rev (u +:+ v) = str_rev v +:+ str_rev u.
Proof.
  unfold str_rev at 1. assert (∀ w, str_rev_app (u +:+ v) w = str_rev_app v (str_rev_app u w)) as Hw.
  { induction u as [|c u IH]; intros w; simpl; [done|]. apply IH. }
  by rewrite Hw, str_rev_app_acc.
Qed.

Lemma TrimSpace_idemp s : TrimSpace (TrimSpace s) = TrimSpace s.
Proof.
  unfold TrimSpace at 2 3. set (l := trim_left space_seqs s).
  set (r := trim_left _ (str_rev l)).
  assert (strip_one space_seqs l = None) as Hl
    by (apply strip_all_done; [apply space_seqs_nonempty|done]).
  assert (strip_one (map str_rev space_seqs) r = None) as Hr
    by (apply strip_all_done; [repeat constructor; done|done]).
  assert (strip_one space_seqs (str_rev r) = None) as Hl2.
  { destruct (strip_all_suffix (String.length (str_rev l)) (map str_rev space_seqs) (str_rev l)) as [u Hu].
    fold (trim_left (map str_rev space_seqs) (str_rev l)) in Hu. fold r in Hu.
    apply (f_equal str_rev) in Hu. rewrite str_rev_involutive, str_rev_app_dist in Hu.
    rewrite Hu in Hl. by apply strip_one_prefix in Hl. }
  unfold TrimSpace, trim_left.
  rewrite (strip_all_none _ _ _ Hl2), str_rev_involutive. by rewrite strip_all_none.
Qed.

Lemma match_classes_all cls s f :
  Forall (λ g : Ascii.ascii → bool, ∀ c, g c = true → f c = true) cls →
  match_classes cls s = true → all_bytes f s = true.
Proof.
  intros Hf. revert s. induction Hf as [|g cls Hg _ IH]; intros [|c s]; simpl; try done.
  intros [Hc Hr]%andb_true_iff. by rewrite (Hg _ Hc), IH.
Qed.
End Graphic.

(** ** Joining and splitting *)

(** [strings.Join]. *)
Fixpoint Join (sep : string) (l : list string) : string :=
  match l with
  | [] => ""
  | [x] => x
  | x :: l => x +:+ sep +:+ Join sep l
  end.

(** [strings.Split] at a separator of one byte. *)
Fixpoint Split (sep : Ascii.ascii) (s : string) : list string :=
  match s with
  | "" => [""]
  | String c s =>
      if Ascii.eqb c sep then "" :: Split sep s
      else match Split sep s with
           | x :: l => String c x :: l
           | [] => [String c ""]
           end
  end.

(** [strings.ContainsAny] for a set of ASCII characters. *)
Definition one_of (set : list N) (c : Ascii.ascii) : bool :=
  existsb (N.eqb (Ascii.N_of_ascii c)) set.
Definition ContainsAny (s : string) (set : list N) : bool :=
  negb (all_bytes (λ c, negb (one_of set c)) s).

Section Splitting.
Context (sep : Ascii.ascii).

Definition lacks (s : string) : Prop := all_bytes (λ c, negb (Ascii.eqb c sep)) s = true.

Lemma lacks_app s t : lacks (s +:+ t) ↔ lacks s ∧ lacks t.
Proof.
  unfold lacks. induction s as [|c s IH]; simpl; [tauto|].
  change (String c s +:+ t) with (String c (s +:+ t)). simpl.
  rewrite !andb_true_iff, IH. tauto.
Qed.

Lemma Split_lacks s : lacks s → Split sep s = [s].
Proof.
  unfold lacks. induction s as [|c s IH]; simpl; [done|].
  intros [Hc%negb_true_iff Hs]%andb_true_iff. by rewrite Hc, IH.
Qed.

Lemma Split_app s t : lacks s → Split sep (s +:+ String sep t) = s :: Split sep t.
Proof.
  unfold lacks. induction s as [|c s IH]; simpl.
  { intros _. change ("" +:+ String sep t) with (String sep t). simpl. by rewrite Ascii.eqb_refl. }
  intros [Hc%negb_true_iff Hs]%andb_true_iff.
  change (String c s +:+ String sep t) with (String c (s +:+ String sep t)). simpl.
  by rewrite Hc, IH.
Qed.

Lemma Join_cons pad x y l :
  Join (String sep pad) (x :: y :: l) = x +:+ String sep (pad +:+ Join (String sep pad) (y :: l)).
Proof. done. Qed.

(** Fields without the separator come back from the joined text. *)
Lemma Split_Join_pre pre pad x l :
  lacks pre → lacks pad → Forall lacks (x :: l) →
  Split sep (pre +:+ Join (String sep pad) (x :: l)) = (pre +:+ x) :: map (λ y, pad +:+ y) l.
Proof.
  intros Hpre Hpad Hf. revert pre x Hpre Hf.
  induction l as [|y l IH]; intros pre x Hpre [Hx Hf]%Forall_cons.
  { simpl. by apply Split_lacks, lacks_app. }
  rewrite Join_cons, <- str_app_assoc, Split_app by (by apply lacks_app).
  by rewrite IH.
Qed.

Lemma Split_Join pad x l :
  lacks pad → Forall lacks (x :: l) →
  Split sep (Join (String sep pad) (x :: l)) = x :: map (λ y, pad +:+ y) l.
Proof. apply (Split_Join_pre "" pad x l). done. Qed.
End Splitting.

(** ** Clean fields

    A field of a line-oriented format: no line break and no comma. *)

Definition breaks : list N := [13; 10; 44]%N.
Definition clean (s : string) : Prop := all_bytes (λ c, negb (one_of breaks c)) s = true.

Create HintDb clean discriminated.

Section Clean.
Lemma all_bytes_mono (f g : Ascii.ascii → bool) s :
  (∀ c, f c = true → g c = true) → all_bytes f s = true → all_bytes g s = true.
Proof.
  intros Hfg. induction s as [|c s IH]; simpl; [done|].
  intros [Hc Hs]%andb_true_iff. by rewrite Hfg, IH.
Qed.

Lemma all_bytes_app f s t : all_bytes f (s +:+ t) = all_bytes f s && all_bytes f t.
Proof.
  induction s as [|c s IH]; [done|].
  change (String c s +:+ t) with (String c (s +:+ t)). simpl. by rewrite IH, andb_assoc.
Qed.

Lemma clean_app s t : clean s → clean t → clean (s +:+ t).
Proof. unfold clean. rewrite all_bytes_app. by intros -> ->. Qed.

Lemma clean_graphic s :
  all_bytes (λ c, is_graphic c && negb (Ascii.eqb c (byte_of 44))) s = true → clean s.
Proof. apply all_bytes_mono. intros c. by destruct c as [[] [] [] [] [] [] [] []]. Qed.

Lemma clean_contains s set :
  (∀ n, n ∈ breaks → n ∈ set) → ContainsAny s set = false → clean s.
Proof.
  intros Hsub. unfold ContainsAny. intros Hs%negb_false_iff. revert Hs. apply all_bytes_mono.
  intros c. rewrite !negb_true_iff, <- !not_true_iff_false. unfold one_of.
  rewrite !existsb_exists. intros Hn (n & Hin & Hc). apply Hn. exists n. split; [|done].
  apply list_elem_of_In, Hsub. by apply list_elem_of_In.
Qed.

Definition is_numeral (c : Ascii.ascii) : bool := in_range 48 57 c || is_char 45 c.

Lemma pretty_N_go_numeral x s :
  all_bytes is_numeral s = true → all_bytes is_numeral (pretty_N_go x s) = true.
Proof.
  revert s. induction (N.lt_wf_0 x) as [x _ IH]; intros s Hs.
  assert (x = 0 ∨ 0 < x)%N as [->|?] by lia; [by rewrite pretty_N_go_0|].
  rewrite pretty_N_go_step by done. apply IH; [by apply N.div_lt|]. cbn [all_bytes].
  rewrite Hs, andb_true_r. unfold pretty_N_char. by repeat case_match.
Qed.

Lemma itoa_numeral z : all_bytes is_numeral (itoa z) = true.
Proof.
  assert (∀ n : N, all_bytes is_numeral (pretty n) = true) as HN.
  { intros n. unfold pretty, pretty_N. case_decide; [done|]. by apply pretty_N_go_numeral. }
  unfold itoa, pretty, pretty_Z. destruct z as [|p|p]; [done|apply HN|].
  rewrite all_bytes_app. simpl. apply HN.
Qed.

Lemma clean_itoa z : clean (itoa z).
Proof.
  generalize (itoa_numeral z). apply all_bytes_mono.
  intros c. by destruct c as [[] [] [] [] [] [] [] []].
Qed.

Lemma clean_mem s l : mem_str s l = true → Forall clean l → clean s.
Proof. intros Hs%mem_str_spec Hl. rewrite Forall_forall in Hl. auto. Qed.

Lemma clean_lacks s : clean s → lacks (byte_of 44) s ∧ lacks (byte_of 10) s.
Proof.
  unfold clean, lacks. intros Hs. split; revert Hs; apply all_bytes_mono;
    intros c; by destruct c as [[] [] [] [] [] [] [] []].
Qed.
End Clean.
#[export] Hint Resolve clean_app clean_itoa : clean.
#[export] Hint Extern 5 (clean _) => (vm_compute; reflexivity) : clean.
