(* ===== verification/Domain.v ===== *)
(** * The domain package: errors, enumerations, identifiers

    [internal/domain/errors.go], [enums.go] and [id.go].

    A [DomainError] keeps its code, category, field and cycle path.  Its message
    (and the copy of it in [Details]) is text for the user that passes through
    the redaction expressions; no code branches on it and it is left out.  An
    error wrapped with [%w] is the wrapped error: [errors.As] sees through it. *)

From S2P Require Import Prelude.
From S2P Require Import GoStrings.

(** ** Errors *)

Inductive ErrorCategory : Type :=
  | CategoryValidation | CategoryNotFound | CategoryConflict | CategoryUnauthorized
  | CategoryForbidden | CategorySecurity | CategoryInternal.

#[export] Instance ErrorCategory_eq_dec : EqDecision ErrorCategory.
Proof. solve_decision. Defined.

Record DomainError : Type := {
  err_Code : string;
  err_Category : ErrorCategory;
  err_Field : string;
  err_CyclePath : list string
}.

#[export] Instance DomainError_eq_dec : EqDecision DomainError.
Proof. solve_decision. Defined.

Definition NewDomainError (code : string) (category : ErrorCategory) : DomainError :=
  {| err_Code := code; err_Category := category; err_Field := ""; err_CyclePath := [] |}.
Definition NewValidationError (code : string) : DomainError :=
  NewDomainError code CategoryValidation.
Definition NewNotFoundError (code : string) : DomainError :=
  NewDomainError code CategoryNotFound.
Definition NewConflictError (code : string) : DomainError :=
  NewDomainError code CategoryConflict.
Definition NewSecurityError (code : string) : DomainError :=
  NewDomainError code CategorySecurity.
Definition NewInternalError (code : string) : DomainError :=
  NewDomainError code CategoryInternal.

(** [err.Field = f] and [domErr.CyclePath = p] on a fresh error. *)
Definition with_field (f : string) (e : DomainError) : DomainError :=
  {| err_Code := err_Code e; err_Category := err_Category e; err_Field := f;
     err_CyclePath := err_CyclePath e |}.
Definition with_cycle (p : list string) (e : DomainError) : DomainError :=
  {| err_Code := err_Code e; err_Category := err_Category e; err_Field := err_Field e;
     err_CyclePath := p |}.

(** [check b code]: [if b { return NewValidationError(code, ...) }]. *)
Definition invalid_if (b : bool) (code : string) : result DomainError unit :=
  reject_if b (NewValidationError code).

Lemma invalid_if_ok b code : invalid_if b code = Ok tt ↔ b = false.
Proof. apply reject_if_ok. Qed.
#[export] Hint Rewrite invalid_if_ok : csp.

(** ** String enumerations

    Each enumeration is a Go string type with its list of constants, a
    [valid...] table and a parser; they differ in the constants and in the code
    of the error. *)

Record StrEnum : Type := { enum_values : list string; enum_code : string }.

Definition enum_valid (e : StrEnum) (s : string) : bool := mem_str s (enum_values e).

Definition enum_parse `{GoText} (e : StrEnum) (s : string) : result DomainError string :=
  let v := ToLower (TrimSpace s) in
  invalid_if (negb (enum_valid e v)) (enum_code e) ;;? Ok v.

Definition ProtocolSS := "ss".
Definition ProtocolVMess := "vmess".
Definition ProtocolVLESS := "vless".
Definition ProtocolTrojan := "trojan".
Definition ProtocolHysteria2 := "hysteria2".
Definition ProtocolWireGuard := "wireguard".
Definition ProtocolTUIC := "tuic".
Definition ProtocolHTTP := "http".
Definition ProtocolSocks5 := "socks5".
Definition ProtocolAnyTLS := "anytls".

Definition validProtocols : StrEnum :=
  {| enum_values := [ProtocolSS; ProtocolVMess; ProtocolVLESS; ProtocolTrojan;
       ProtocolHysteria2; ProtocolWireGuard; ProtocolTUIC; ProtocolHTTP;
       ProtocolSocks5; ProtocolAnyTLS];
     enum_code := "invalid_protocol" |}.

(** The one parser with an alias: ["socks"] is read as ["socks5"]. *)
Definition ParseProtocol `{GoText} (s : string) : result DomainError string :=
  let norm := ToLower (TrimSpace s) in
  let norm := if String.eqb norm "socks" then "socks5" else norm in
  invalid_if (negb (enum_valid validProtocols norm)) (enum_code validProtocols) ;;? Ok norm.

Definition VerdictAvailable := "available".
Definition VerdictRestricted := "restricted".
Definition VerdictUnknown := "unknown".
Definition VerdictError := "error".
Definition VerdictStale := "stale".

Definition validVerdicts : StrEnum :=
  {| enum_values := [VerdictAvailable; VerdictRestricted; VerdictUnknown;
       VerdictError; VerdictStale];
     enum_code := "invalid_probe_verdict" |}.
Definition ParseProbeVerdict `{GoText} := enum_parse validVerdicts.

Definition ProbeRunStateQueued := "queued".
Definition ProbeRunStateRunning := "running".
Definition ProbeRunStateSucceeded := "succeeded".
Definition ProbeRunStateFailed := "failed".
Definition ProbeRunStateCancelled := "cancelled".
Definition ProbeRunStateExpired := "expired".

Definition validProbeRunStates : StrEnum :=
  {| enum_values := [ProbeRunStateQueued; ProbeRunStateRunning; ProbeRunStateSucceeded;
       ProbeRunStateFailed; ProbeRunStateCancelled; ProbeRunStateExpired];
     enum_code := "invalid_probe_run_state" |}.

Definition ProbeRunState_IsTerminal (s : string) : bool :=
  String.eqb s ProbeRunStateSucceeded || String.eqb s ProbeRunStateFailed ||
  String.eqb s ProbeRunStateCancelled || String.eqb s ProbeRunStateExpired.
Definition ParseProbeRunState `{GoText} := enum_parse validProbeRunStates.

Definition ProbeKindBaseline := "baseline".
Definition ProbeKindGeo := "geo".
Definition ProbeKindStreaming := "streaming".
Definition ProbeKindAI := "ai".
Definition ProbeKindSpeed := "speed".
Definition ProbeKindIPRisk := "ip_risk".

Definition validProbeKinds : StrEnum :=
  {| enum_values := [ProbeKindBaseline; ProbeKindGeo; ProbeKindStreaming; ProbeKindAI;
       ProbeKindSpeed; ProbeKindIPRisk];
     enum_code := "invalid_probe_kind" |}.
Definition ParseProbeKind `{GoText} := enum_parse validProbeKinds.

Definition TargetMihomo := "mihomo".
Definition TargetSingBox := "singbox".
Definition TargetSurge := "surge".
Definition TargetQuantumultX := "qx".

Definition validCompilerTargets : StrEnum :=
  {| enum_values := [TargetMihomo; TargetSingBox; TargetSurge; TargetQuantumultX];
     enum_code := "invalid_compiler_target" |}.
Definition ParseCompilerTarget `{GoText} := enum_parse validCompilerTargets.

Definition validRevisionStates : StrEnum :=
  {| enum_values := ["draft"; "active"; "archived"];
     enum_code := "invalid_revision_state" |}.
Definition ParseRevisionState `{GoText} := enum_parse validRevisionStates.

Definition validPublicationStates : StrEnum :=
  {| enum_values := ["active"; "revoked"; "draft"];
     enum_code := "invalid_publication_state" |}.
Definition ParsePublicationState `{GoText} := enum_parse validPublicationStates.

Definition validFetchOutcomes : StrEnum :=
  {| enum_values := ["success"; "failed"; "partial"];
     enum_code := "invalid_fetch_outcome" |}.
Definition ParseFetchOutcome `{GoText} := enum_parse validFetchOutcomes.

Definition GroupTypeSelect := "select".
Definition GroupTypeURLTest := "urltest".
Definition GroupTypeFallback := "fallback".
Definition GroupTypeLoadBalance := "loadbalance".

Definition validGroupTypes : StrEnum :=
  {| enum_values := [GroupTypeSelect; GroupTypeURLTest; GroupTypeFallback;
       GroupTypeLoadBalance];
     enum_code := "invalid_group_type" |}.
Definition ParseGroupType `{GoText} := enum_parse validGroupTypes.

Definition RuleActionAllow := "allow".
Definition RuleActionReject := "reject".
Definition RuleActionQuarantine := "quarantine".

Definition validRuleActions : StrEnum :=
  {| enum_values := [RuleActionAllow; RuleActionReject; RuleActionQuarantine];
     enum_code := "invalid_rule_action" |}.
Definition ParseRuleAction `{GoText} := enum_parse validRuleActions.

Definition validActorKinds : StrEnum :=
  {| enum_values := ["admin"; "system"; "worker"; "anonymous"];
     enum_code := "invalid_actor_kind" |}.
Definition ParseActorKind `{GoText} := enum_parse validActorKinds.

Definition validAuditResults : StrEnum :=
  {| enum_values := ["success"; "failure"]; enum_code := "invalid_audit_result" |}.
Definition ParseAuditResult `{GoText} := enum_parse validAuditResults.

(** The enumerations of [enums.go] that use the plain parser. *)
Definition domain_enums : list StrEnum :=
  [validVerdicts; validProbeRunStates; validProbeKinds; validCompilerTargets;
   validRevisionStates; validPublicationStates; validFetchOutcomes; validGroupTypes;
   validRuleActions; validActorKinds; validAuditResults].

Section Enums.
Context `{GoText}.

(** A constant the normalisation leaves alone. *)
Definition canonical_text (v : string) : bool :=
  is_ascii v && String.eqb (TrimSpace v) v && String.eqb (ascii_lower v) v.

Lemma canonical_normal v : canonical_text v = true → ToLower (TrimSpace v) = v.
Proof.
  unfold canonical_text. rewrite !andb_true_iff, !String.eqb_eq.
  intros [[Ha Ht] Hl]. by rewrite Ht, ToLower_ascii.
Qed.

Lemma enum_parse_valid e s v :
  enum_parse e s = Ok v ↔ v = ToLower (TrimSpace s) ∧ v ∈ enum_values e.
Proof.
  unfold enum_parse, invalid_if, reject_if, enum_valid.
  destruct (mem_str _ _) eqn:Hm; simpl; autorewrite with csp in Hm.
  - split; [intros [= <-]; done | by intros [-> _]].
  - split; [done | by intros [-> ?]].
Qed.

Lemma enum_parse_canonical e v :
  v ∈ enum_values e → canonical_text v = true → enum_parse e v = Ok v.
Proof. intros Hv Hc. apply enum_parse_valid. by rewrite canonical_normal. Qed.

Lemma domain_enums_canonical e v :
  e ∈ domain_enums → v ∈ enum_values e → canonical_text v = true.
Proof.
  intros He Hv.
  assert (Forall (λ e, Forall (λ v, canonical_text v = true) (enum_values e)) domain_enums)
    as Hall by (repeat constructor).
  rewrite Forall_forall in Hall. specialize (Hall e He).
  rewrite Forall_forall in Hall. auto.
Qed.
End Enums.

(** ** Identifiers *)

Definition hex_run (n : nat) : list (Ascii.ascii → bool) := replicate n is_hex.

(** [^[0-9a-fA-F]{8}-[0-9a-fA-F]{4}-7[0-9a-fA-F]{3}-[89abAB][0-9a-fA-F]{3}-[0-9a-fA-F]{12}$] *)
Definition is_variant (c : Ascii.ascii) : bool :=
  in_range 56 57 c || in_range 97 98 c || in_range 65 66 c.
Definition uuidv7Regex : list (Ascii.ascii → bool) :=
  hex_run 8 ++ [is_char 45] ++ hex_run 4 ++ [is_char 45; is_char 55] ++ hex_run 3 ++
  [is_char 45; is_variant] ++ hex_run 3 ++ [is_char 45] ++ hex_run 12.

Definition IsValidUUIDv7 (s : string) : bool := match_classes uuidv7Regex s.

Lemma is_hex_graphic c : is_hex c = true → is_graphic c = true.
Proof. destruct c as [[] [] [] [] [] [] [] []]; done. Qed.

Lemma valid_uuid_graphic s : IsValidUUIDv7 s = true → all_bytes is_graphic s = true.
Proof.
  apply match_classes_all. unfold uuidv7Regex, hex_run.
  repeat (apply Forall_app; split); try (apply Forall_replicate; apply is_hex_graphic);
    repeat constructor; intros c; destruct c as [[] [] [] [] [] [] [] []]; done.
Qed.

Lemma valid_uuid_trimmed s : IsValidUUIDv7 s = true → TrimSpace s = s.
Proof. intros Hs. by apply TrimSpace_graphic, valid_uuid_graphic. Qed.

Definition ValidateUUIDv7 (s : string) : result DomainError unit :=
  invalid_if (negb (IsValidUUIDv7 s)) "invalid_uuidv7".

(** [^(node_)?[0-9a-fA-F]{16,64}$] *)
Definition IsValidLogicalID (s : string) : bool :=
  let hex := match strip_prefix "node_" s with Some r => r | None => s end in
  all_bytes is_hex hex && (16 <=? String.length hex) && (String.length hex <=? 64).

Definition hexdigit (n : Z) : Ascii.ascii :=
  Ascii.ascii_of_N (Z.to_N (if (n <? 10)%Z then 48 + n else 87 + n)).
Definition hexval (c : Ascii.ascii) : option Z :=
  let n := Z.of_N (Ascii.N_of_ascii c) in
  if in_range 48 57 c then Some (n - 48)%Z
  else if in_range 97 102 c then Some (n - 87)%Z
  else if in_range 65 70 c then Some (n - 55)%Z
  else None.

(** [fmt.Sprintf("%x", b)] of a byte slice *)
Fixpoint hex_bytes (l : list Z) : string :=
  match l with
  | [] => ""
  | b :: l => String (hexdigit (b / 16)) (String (hexdigit (b `mod` 16)) (hex_bytes l))
  end.

Fixpoint parse_hex (acc : Z) (s : string) : option Z :=
  match s with
  | "" => Some acc
  | String c s =>
      match hexval c with Some d => parse_hex (16 * acc + d) s | None => None end
  end.

(** Bytes 6 and 8 carry the version and the variant. *)
Definition uuid_stamp (raw : list Z) : list Z :=
  let raw := <[6%nat := Z.lor (Z.land (raw !!! 6%nat) 15) 112]> raw in
  <[8%nat := Z.lor (Z.land (raw !!! 8%nat) 63) 128]> raw.

Definition uuid_format (raw : list Z) : string :=
  hex_bytes (take 4 raw) +:+ "-" +:+ hex_bytes (take 2 (drop 4 raw)) +:+ "-" +:+
  hex_bytes (take 2 (drop 6 raw)) +:+ "-" +:+ hex_bytes (take 2 (drop 8 raw)) +:+ "-" +:+
  hex_bytes (take 6 (drop 10 raw)).

Definition low_byte (z : Z) : Z := Z.land z 255.

(** [raw] is what [rand.Read] put in the 16-byte buffer, [ms] the clock. *)
Definition NewUUIDv7 (raw : list Z) (ms : Z) : string :=
  let time := [low_byte (Z.shiftr ms 40); low_byte (Z.shiftr ms 32);
               low_byte (Z.shiftr ms 24); low_byte (Z.shiftr ms 16);
               low_byte (Z.shiftr ms 8); low_byte ms] in
  uuid_format (uuid_stamp (time ++ drop 6 raw)).

(** The Unix millisecond count of the result. *)
Definition ExtractTimeFromUUIDv7 (s : string) : result DomainError Z :=
  invalid_if (negb (IsValidUUIDv7 s)) "invalid_uuidv7" ;;?
  match parse_hex 0 (String.substring 0 8 s +:+ String.substring 9 4 s) with
  | Some ms => Ok ms
  | None => Err (NewValidationError "invalid_uuidv7_timestamp")
  end.

Definition is_byte (b : Z) : Prop := (0 ≤ b < 256)%Z.

Section Identifiers.
Ltac all_nibbles n H :=
  let Hn := fresh in
  assert (n = 0 ∨ n = 1 ∨ n = 2 ∨ n = 3 ∨ n = 4 ∨ n = 5 ∨ n = 6 ∨ n = 7 ∨ n = 8 ∨
    n = 9 ∨ n = 10 ∨ n = 11 ∨ n = 12 ∨ n = 13 ∨ n = 14 ∨ n = 15)%Z as Hn by lia;
  clear H; repeat (destruct Hn as [->|Hn]); try (rewrite Hn); vm_compute.

Lemma hexdigit_is_hex n : (0 ≤ n < 16)%Z → is_hex (hexdigit n) = true.
Proof. intros H. all_nibbles n H; done. Qed.

Lemma hexval_hexdigit n : (0 ≤ n < 16)%Z → hexval (hexdigit n) = Some n.
Proof. intros H. all_nibbles n H; done. Qed.

Lemma byte_nibbles b : is_byte b → (0 ≤ b / 16 < 16)%Z ∧ (0 ≤ b `mod` 16 < 16)%Z.
Proof. unfold is_byte. intros H. split; div_lia. Qed.

Lemma hex_bytes_hex l : Forall is_byte l → all_bytes is_hex (hex_bytes l) = true.
Proof.
  induction 1 as [|b l Hb _ IH]; [done|]. destruct (byte_nibbles b Hb).
  cbn -[hexdigit is_hex Z.div Z.modulo]. by rewrite !hexdigit_is_hex, IH.
Qed.

Lemma parse_hex_byte acc b s :
  is_byte b →
  parse_hex acc (String (hexdigit (b / 16)) (String (hexdigit (b `mod` 16)) s)) =
  parse_hex (256 * acc + b) s.
Proof.
  intros Hb. destruct (byte_nibbles b Hb). cbn -[hexdigit Z.mul Z.add Z.div Z.modulo].
  rewrite hexval_hexdigit by lia. cbn -[hexdigit Z.mul Z.add Z.div Z.modulo].
  rewrite hexval_hexdigit by lia.
  replace (16 * (16 * acc + b / 16) + b `mod` 16)%Z with (256 * acc + b)%Z; [done|].
  pose proof (Z.div_mod b 16). lia.
Qed.

Lemma low_byte_mod z : low_byte z = (z `mod` 256)%Z.
Proof. unfold low_byte. change 255%Z with (Z.ones 8). by rewrite Z.land_ones. Qed.

Lemma low_byte_is_byte z : is_byte (low_byte z).
Proof. rewrite low_byte_mod. unfold is_byte. pose proof (Z.mod_pos_bound z 256). lia. Qed.

(** Setting disjoint high bits is an addition. *)
Lemma stamp_bits r w v :
  (0 ≤ w)%Z → (v `mod` 2^w = 0)%Z →
  Z.lor (Z.land r (Z.ones w)) v = (r `mod` 2^w + v)%Z.
Proof.
  intros Hw Hv. rewrite Z.land_ones by done.
  rewrite <- Z.lxor_lor, Z.add_nocarry_lxor; try done;
    apply Z.bits_inj'; intros n Hn; rewrite Z.land_spec, Z.bits_0;
    (destruct (Z.lt_ge_cases n w) as [Hlt|Hge];
     [ apply andb_false_intro2; rewrite <- (Z.mod_pow2_bits_low v w n) by lia;
       rewrite Hv; apply Z.bits_0
     | apply andb_false_intro1; apply Z.mod_pow2_bits_high; lia ]).
Qed.

Lemma version_byte r : Z.lor (Z.land r 15) 112 = (r `mod` 16 + 112)%Z.
Proof. by apply (stamp_bits r 4 112). Qed.

Lemma variant_byte r : Z.lor (Z.land r 63) 128 = (r `mod` 64 + 128)%Z.
Proof. by apply (stamp_bits r 6 128). Qed.

Lemma time_bytes ms :
  (0 ≤ ms)%Z →
  (256 * (256 * (256 * (256 * (256 * (256 * 0 + low_byte (Z.shiftr ms 40)) +
    low_byte (Z.shiftr ms 32)) + low_byte (Z.shiftr ms 24)) +
    low_byte (Z.shiftr ms 16)) + low_byte (Z.shiftr ms 8)) + low_byte ms)%Z
  = (ms `mod` 2^48)%Z.
Proof.
  intros Hms. rewrite !low_byte_mod, !Z.shiftr_div_pow2 by lia.
  change (2^48)%Z with 281474976710656%Z. change (2^40)%Z with 1099511627776%Z.
  change (2^32)%Z with 4294967296%Z. change (2^24)%Z with 16777216%Z.
  change (2^16)%Z with 65536%Z. change (2^8)%Z with 256%Z. div_lia.
Qed.

Lemma variant_digit r : is_variant (hexdigit ((r `mod` 64 + 128) / 16)) = true.
Proof.
  assert (8 ≤ (r `mod` 64 + 128) / 16 < 12)%Z as H
    by (pose proof (Z.mod_pos_bound r 64); div_lia).
  generalize dependent ((r `mod` 64 + 128) / 16)%Z. intros n H.
  assert (n = 8 ∨ n = 9 ∨ n = 10 ∨ n = 11)%Z as Hn by lia.
  repeat (destruct Hn as [->|Hn]); try rewrite Hn; vm_compute; done.
Qed.

Lemma version_digit r : is_char 55 (hexdigit ((r `mod` 16 + 112) / 16)) = true.
Proof.
  assert ((r `mod` 16 + 112) / 16 = 7)%Z as ->
    by (pose proof (Z.mod_pos_bound r 16); div_lia).
  done.
Qed.

(** The 36 characters, one byte at a time. *)
Lemma uuid_format_valid r0 r1 r2 r3 r4 r5 r6 r7 r8 r9 r10 r11 r12 r13 r14 r15 :
  Forall is_byte [r0; r1; r2; r3; r4; r5; r6; r7; r8; r9; r10; r11; r12; r13; r14; r15] →
  IsValidUUIDv7 (uuid_format (uuid_stamp
    [r0; r1; r2; r3; r4; r5; r6; r7; r8; r9; r10; r11; r12; r13; r14; r15])) = true.
Proof.
  intros HF. unfold uuid_stamp. cbn [insert list_insert lookup_total list_lookup_total].
  rewrite version_byte, variant_byte. rewrite !Forall_cons in HF.
  assert (is_byte (r6 `mod` 16 + 112)) by (pose proof (Z.mod_pos_bound r6 16); red; lia).
  assert (is_byte (r8 `mod` 64 + 128)) by (pose proof (Z.mod_pos_bound r8 64); red; lia).
  lazy -[hexdigit is_hex is_variant is_char Z.div Z.modulo Z.add is_byte].
  rewrite version_digit, variant_digit.
  destruct_and!.
  repeat match goal with
  | H : is_byte ?b |- _ => apply byte_nibbles in H; destruct H
  end.
  rewrite !hexdigit_is_hex by done. done.
Qed.

Lemma uuid_format_time r0 r1 r2 r3 r4 r5 rest :
  Forall is_byte [r0; r1; r2; r3; r4; r5] → 10 ≤ length rest →
  let s := uuid_format (uuid_stamp (r0 :: r1 :: r2 :: r3 :: r4 :: r5 :: rest)) in
  parse_hex 0 (String.substring 0 8 s +:+ String.substring 9 4 s) =
  Some (256 * (256 * (256 * (256 * (256 * (256 * 0 + r0) + r1) + r2) + r3) + r4) + r5)%Z.
Proof.
  intros HF Hlen.
  do 10 (destruct rest as [|? rest]; [simpl in Hlen; lia|]).
  rewrite !Forall_cons in HF. destruct_and!.
  lazy -[hexdigit parse_hex Z.div Z.modulo Z.add Z.mul Z.lor Z.land is_byte Z.le Z.lt].
  rewrite !parse_hex_byte by done. done.
Qed.

Lemma NewUUIDv7_valid raw ms :
  length raw = 16 → Forall is_byte raw → IsValidUUIDv7 (NewUUIDv7 raw ms) = true.
Proof.
  intros Hlen HF. do 16 (destruct raw as [|? raw]; [done|]). destruct raw; [|done].
  unfold NewUUIDv7. cbn [drop app]. apply uuid_format_valid.
  rewrite !Forall_cons in HF. destruct_and!.
  repeat (apply Forall_cons; split; [first [apply low_byte_is_byte | done]|]).
  constructor.
Qed.
End Identifiers.

(** SHA-256 of the standard library. *)
Class Sha256 := {
  sha256_Sum256 : string → list Z;
  sha256_length : ∀ s, length (sha256_Sum256 s) = 32;
  sha256_bytes : ∀ s, Forall is_byte (sha256_Sum256 s)
}.

(** A stand-in with the right shape, to evaluate the model on concrete inputs. *)
Definition sample_sha : Sha256.
Proof.
  refine {| sha256_Sum256 := λ s, replicate 32 (Z.of_nat (String.length s) `mod` 256)%Z |}.
  - intros s. by rewrite length_replicate.
  - intros s. apply Forall_replicate. unfold is_byte. by apply Z.mod_pos_bound.
Defined.


(** The UUIDv7 generator always produces an identifier its own validator
    accepts, and the creation time read back from it is the low 48 bits of the
    millisecond clock it was made with, whatever the random bytes are. *)
Theorem uuidv7_roundtrip raw ms :
  length raw = 16 → Forall is_byte raw → (0 ≤ ms)%Z →
  IsValidUUIDv7 (NewUUIDv7 raw ms) = true ∧
  ExtractTimeFromUUIDv7 (NewUUIDv7 raw ms) = Ok (ms `mod` 2^48)%Z.
Proof.
  intros Hlen HF Hms. pose proof (NewUUIDv7_valid raw ms Hlen HF) as Hv.
  split; [done|]. unfold ExtractTimeFromUUIDv7. rewrite Hv.
  cbn [negb invalid_if reject_if]. unfold NewUUIDv7 at 1 2. cbn [app].
  rewrite uuid_format_time.
  - by rewrite time_bytes.
  - repeat (apply Forall_cons; split; [apply low_byte_is_byte|]). constructor.
  - rewrite length_drop. lia.
Qed.

Lemma uuidv7_roundtrip_witness :
  ExtractTimeFromUUIDv7 (NewUUIDv7 (replicate 16 171%Z) 1700000000123) = Ok 1700000000123%Z.
Proof.
  apply (uuidv7_roundtrip (replicate 16 171%Z) 1700000000123).
  - reflexivity.
  - repeat constructor; lia.
  - lia.
Defined.

(** For every plain enumeration of the domain package, parsing normalises: a
    successful parse returns one of the declared constants, parsing that
    constant again returns it unchanged, and every declared constant parses to
    itself; anything whose normal form is not declared is refused with the
    enumeration's own validation code. *)
Theorem domain_enum_parse_roundtrip `{GoText} (e : StrEnum) (s : string) :
  e ∈ domain_enums →
  (∀ v, enum_parse e s = Ok v → v ∈ enum_values e ∧ enum_parse e v = Ok v) ∧
  (s ∈ enum_values e → enum_parse e s = Ok s) ∧
  (ToLower (TrimSpace s) ∉ enum_values e →
   enum_parse e s = Err (NewValidationError (enum_code e))).
Proof.
  intros He. split_and!.
  - intros v [-> Hv]%enum_parse_valid. split; [done|].
    eauto using enum_parse_canonical, domain_enums_canonical.
  - eauto using enum_parse_canonical, domain_enums_canonical.
  - intros Hn. unfold enum_parse, enum_valid.
    by rewrite (proj2 (mem_str_false _ _) Hn).
Qed.

Lemma domain_enum_parse_roundtrip_witness :
  @enum_parse ascii_text validGroupTypes " URLTest " = Ok "urltest" ∧
  @enum_parse ascii_text validGroupTypes "urltest" = Ok "urltest".
Proof.
  assert (validGroupTypes ∈ domain_enums) as Hin.
  { unfold domain_enums. do 7 right. left. }
  split; [reflexivity|].
  apply (@domain_enum_parse_roundtrip ascii_text validGroupTypes " URLTest " Hin).
  reflexivity.
Defined.
