(* ===== verification/Lifecycle.v ===== *)
(** * Probe runs, probe batches, schedules and settings

    [internal/domain/probe.go] and [probe_schedule.go] (the two lifecycle state
    machines and the schedule bounds), [settings.go] and
    [subscription_fetch.go].  A [time.Time] is a [Z], nanoseconds since Go's
    zero time. *)

From S2P Require Import Prelude.
From S2P Require Import GoStrings.
From S2P Require Import Domain.

(** ** Time *)

Definition time := Z.
Bind Scope Z_scope with time.
Definition IsZero (t : time) : bool := (t =? 0)%Z.
Definition After (t u : time) : bool := (u <? t)%Z.
Definition Before (t u : time) : bool := (t <? u)%Z.

(** [t.Sub(u)] saturates at the bounds of a [time.Duration]. *)
Definition time_sub (t u : time) : Z := Z.max int64_min (Z.min int64_max (t - u)).
Definition second : Z := 1000000000.

Lemma time_sub_le t u d : (int64_min ≤ d < int64_max)%Z →
  (time_sub t u ≤ d ↔ t - u ≤ d)%Z.
Proof. unfold time_sub. lia. Qed.

(** ** Probe runs *)

Record ProbeRun : Type := {
  run_ID : string;
  run_State : string;
  run_UpdatedAt : time
}.

Definition ProbeRun_IsTerminal (r : ProbeRun) : bool :=
  ProbeRunState_IsTerminal (run_State r).

Definition ProbeRun_CanTransitionTo (r : ProbeRun) (target : string) : bool :=
  if negb (enum_valid validProbeRunStates target) then false
  else if ProbeRun_IsTerminal r then false
  else if String.eqb (run_State r) ProbeRunStateQueued then
    String.eqb target ProbeRunStateRunning || String.eqb target ProbeRunStateCancelled ||
    String.eqb target ProbeRunStateExpired
  else if String.eqb (run_State r) ProbeRunStateRunning then
    String.eqb target ProbeRunStateSucceeded || String.eqb target ProbeRunStateFailed ||
    String.eqb target ProbeRunStateCancelled || String.eqb target ProbeRunStateExpired
  else false.

Definition ProbeRun_TransitionTo (now : time) (r : ProbeRun) (target : string)
    : result DomainError ProbeRun :=
  reject_if (negb (ProbeRun_CanTransitionTo r target))
    (NewConflictError "invalid_state_transition") ;;?
  Ok {| run_ID := run_ID r; run_State := target; run_UpdatedAt := now |}.

(** ** Probe batches *)

Definition ProbeBatchStatePending := "pending".
Definition ProbeBatchStateRunning := "running".
Definition ProbeBatchStateSucceeded := "succeeded".
Definition ProbeBatchStateFailed := "failed".
Definition ProbeBatchStateCancelled := "cancelled".
Definition ProbeBatchStateExpired := "expired".

Definition validProbeBatchStates : StrEnum :=
  {| enum_values := [ProbeBatchStatePending; ProbeBatchStateRunning;
       ProbeBatchStateSucceeded; ProbeBatchStateFailed; ProbeBatchStateCancelled;
       ProbeBatchStateExpired];
     enum_code := "invalid_probe_batch_state" |}.

Definition ProbeBatchState_IsTerminal (s : string) : bool :=
  String.eqb s ProbeBatchStateSucceeded || String.eqb s ProbeBatchStateFailed ||
  String.eqb s ProbeBatchStateCancelled || String.eqb s ProbeBatchStateExpired.

Definition ParseProbeBatchState `{GoText} := enum_parse validProbeBatchStates.

Record ProbeBatch : Type := {
  batch_ID : string;
  batch_State : string;
  batch_UpdatedAt : time
}.

Definition ProbeBatch_CanTransitionTo (b : ProbeBatch) (target : string) : bool :=
  if negb (enum_valid validProbeBatchStates target) then false
  else if ProbeBatchState_IsTerminal (batch_State b) then false
  else if String.eqb (batch_State b) ProbeBatchStatePending then
    String.eqb target ProbeBatchStateRunning || String.eqb target ProbeBatchStateCancelled ||
    String.eqb target ProbeBatchStateExpired
  else if String.eqb (batch_State b) ProbeBatchStateRunning then
    String.eqb target ProbeBatchStateSucceeded || String.eqb target ProbeBatchStateFailed ||
    String.eqb target ProbeBatchStateCancelled || String.eqb target ProbeBatchStateExpired
  else false.

Definition ProbeBatch_TransitionTo (now : time) (b : ProbeBatch) (target : string)
    : result DomainError ProbeBatch :=
  reject_if (negb (ProbeBatch_CanTransitionTo b target))
    (NewConflictError "invalid_batch_state_transition") ;;?
  Ok {| batch_ID := batch_ID b; batch_State := target; batch_UpdatedAt := now |}.

(** ** Probe schedules *)

Record ProbeSchedule : Type := {
  sched_Enabled : bool;
  sched_IntervalSeconds : Z;
  sched_Kinds : list string;
  sched_Generation : Z
}.

(** One iteration of the loop over [s.Kinds], with the [seen] map as a set. *)
Definition schedule_kind_step (seen : gset string) (k : string)
    : result DomainError (gset string) :=
  invalid_if (negb (enum_valid validProbeKinds k)) "invalid_probe_kind" ;;?
  invalid_if (bool_decide (k ∈ seen)) "duplicate_probe_kind" ;;?
  Ok ({[k]} ∪ seen).

Definition ProbeSchedule_Validate (s : ProbeSchedule) : result DomainError unit :=
  invalid_if ((sched_IntervalSeconds s <? 60) || (604800 <? sched_IntervalSeconds s))%Z
    "invalid_probe_schedule_interval" ;;?
  invalid_if (length (sched_Kinds s) =? 0) "invalid_probe_schedule_kinds" ;;?
  (let? _ := fold_res schedule_kind_step ∅ (sched_Kinds s) in Ok tt).

(** ** Settings *)

Record Settings : Type := {
  set_ProbeConcurrencyWindow : Z;
  set_MaxConcurrentProbes : Z;
  set_ProbePerNodeTTLSeconds : Z;
  set_FetchTimeoutSeconds : Z;
  set_FetchMaxResponseBytes : Z;
  set_MaxPageSize : Z;
  set_DefaultPageSize : Z;
  set_AdminToken : string;
  set_AdminAuthEnabled : bool;
  set_ExportAuthEnabled : bool;
  set_SubscriptionFetchMode : string;
  set_SubscriptionFetchProxyURL : string
}.

Definition DefaultSettings : Settings :=
  {| set_ProbeConcurrencyWindow := 16; set_MaxConcurrentProbes := 16;
     set_ProbePerNodeTTLSeconds := 300; set_FetchTimeoutSeconds := 30;
     set_FetchMaxResponseBytes := 10 * 1024 * 1024; set_MaxPageSize := 100;
     set_DefaultPageSize := 50; set_AdminToken := ""; set_AdminAuthEnabled := true;
     set_ExportAuthEnabled := true; set_SubscriptionFetchMode := "environment";
     set_SubscriptionFetchProxyURL := "" |}%Z.

Definition ValidateSubscriptionFetchSettings (mode proxyURL : string)
    : result DomainError unit :=
  (if String.eqb mode "environment" || String.eqb mode "direct" then Ok tt
   else if String.eqb mode "proxy" then
     invalid_if (String.eqb (TrimSpace proxyURL) "") "invalid_subscription_fetch"
   else Err (NewValidationError "invalid_subscription_fetch")) ;;?
  invalid_if (4096 <? String.length proxyURL) "invalid_proxy_url" ;;?
  Ok tt.

Definition EffectiveSubscriptionFetchProxy (s : Settings) (environmentProxy : string)
    : string :=
  if String.eqb (set_SubscriptionFetchMode s) "direct" then ""
  else if String.eqb (set_SubscriptionFetchMode s) "proxy" then
    set_SubscriptionFetchProxyURL s
  else environmentProxy.

Definition Settings_Validate (s : Settings) : result DomainError unit :=
  ValidateSubscriptionFetchSettings (set_SubscriptionFetchMode s)
    (set_SubscriptionFetchProxyURL s) ;;?
  invalid_if ((set_ProbeConcurrencyWindow s <? 10) || (32 <? set_ProbeConcurrencyWindow s))%Z
    "invalid_probe_concurrency_window" ;;?
  invalid_if ((set_MaxPageSize s <? 1) || (100 <? set_MaxPageSize s))%Z
    "invalid_max_page_size" ;;?
  invalid_if ((set_DefaultPageSize s <? 1) || (set_MaxPageSize s <? set_DefaultPageSize s))%Z
    "invalid_default_page_size" ;;?
  invalid_if ((set_FetchTimeoutSeconds s <? 1) || (300 <? set_FetchTimeoutSeconds s))%Z
    "invalid_fetch_timeout" ;;?
  invalid_if (set_FetchMaxResponseBytes s <=? 0)%Z "invalid_fetch_max_bytes" ;;?
  Ok tt.

(** ** Lifecycle lemmas

    The number of transitions still possible from a state. *)

Definition run_rank (s : string) : nat :=
  if String.eqb s ProbeRunStateQueued then 2
  else if String.eqb s ProbeRunStateRunning then 1 else 0.
Definition batch_rank (s : string) : nat :=
  if String.eqb s ProbeBatchStatePending then 2
  else if String.eqb s ProbeBatchStateRunning then 1 else 0.

Section Lifecycle.
(** A state machine whose successful steps decrease a rank makes at most
    [rank] steps. *)
Lemma ranked_trace {S L} (step : S → L → result DomainError S) (rank : S → nat) s ls s' :
  (∀ s l s', step s l = Ok s' → rank s' < rank s) →
  fold_res step s ls = Ok s' → length ls ≤ rank s.
Proof.
  intros Hstep. revert s. induction ls as [|l ls IH]; intros s; simpl; [lia|].
  destruct (step s l) as [s1|] eqn:E; [|done].
  intros H%IH. apply Hstep in E. lia.
Qed.

Ltac all_eqb :=
  repeat match goal with
  | H : context [String.eqb ?a ?b] |- _ => destruct (String.eqb_spec a b)
  | |- context [String.eqb ?a ?b] => destruct (String.eqb_spec a b)
  end; subst; simpl in *; try discriminate; try congruence.

Lemma run_step_rank now r t r' :
  ProbeRun_TransitionTo now r t = Ok r' →
  run_rank (run_State r') < run_rank (run_State r) ∧ run_State r' = t ∧
  enum_valid validProbeRunStates t = true ∧ run_ID r' = run_ID r.
Proof.
  unfold ProbeRun_TransitionTo, ProbeRun_CanTransitionTo, ProbeRun_IsTerminal.
  destruct (enum_valid validProbeRunStates t) eqn:Hv; [|done].
  destruct (ProbeRunState_IsTerminal (run_State r)) eqn:Ht; [done|]. simpl.
  intros H. inv_ok. rewrite <- H. simpl. split_and!; try done.
  unfold run_rank. destruct r as [id st up]; simpl in *.
  all_eqb; lia.
Qed.

Lemma batch_step_rank now b t b' :
  ProbeBatch_TransitionTo now b t = Ok b' →
  batch_rank (batch_State b') < batch_rank (batch_State b) ∧ batch_State b' = t ∧
  enum_valid validProbeBatchStates t = true ∧ batch_ID b' = batch_ID b.
Proof.
  unfold ProbeBatch_TransitionTo, ProbeBatch_CanTransitionTo.
  destruct (enum_valid validProbeBatchStates t) eqn:Hv; [|done].
  destruct (ProbeBatchState_IsTerminal (batch_State b)) eqn:Ht; [done|]. simpl.
  intros H. inv_ok. rewrite <- H. simpl. split_and!; try done.
  unfold batch_rank. destruct b as [id st up]; simpl in *.
  all_eqb; lia.
Qed.

Lemma schedule_kinds_ok seen ks :
  is_ok (fold_res schedule_kind_step seen ks) = true ↔
  NoDup ks ∧ (∀ k, k ∈ ks → k ∉ seen ∧ enum_valid validProbeKinds k = true).
Proof.
  revert seen. induction ks as [|k ks IH]; intros seen; simpl.
  - split; [|done]. intros _. split; [constructor|]. set_solver.
  - unfold schedule_kind_step at 1, invalid_if, reject_if.
    rewrite NoDup_cons. destruct (enum_valid validProbeKinds k) eqn:Hv; simpl.
    + case_bool_decide as Hin; simpl.
      * split; [done|]. intros [_ H]. specialize (H k). set_solver.
      * rewrite IH. split.
        -- intros [Hnd H]. split_and!; [|done|].
           ++ intros Hk. specialize (H k Hk). set_solver.
           ++ intros k' [->|Hk']%elem_of_cons; [done|].
              specialize (H k' Hk'). set_solver.
        -- intros [[Hni Hnd] H]. split; [done|]. intros k' Hk'.
           specialize (H k'). set_solver.
    + split; [done|]. intros [_ H]. specialize (H k). rewrite Hv in H. set_solver.
Qed.
End Lifecycle.

(** A probe run changes state at most twice, whatever transitions are
    requested: every accepted sequence of targets has at most two elements and
    ends in a declared state; a run in a terminal state refuses every target
    with a conflict and so never changes again; and only [queued] and [running]
    runs accept anything. *)
Theorem probe_run_lifecycle (now : time) (r : ProbeRun) (targets : list string) :
  (∀ r', fold_res (ProbeRun_TransitionTo now) r targets = Ok r' →
     length targets ≤ 2 ∧ run_ID r' = run_ID r ∧
     (last targets = Some (run_State r') ∧ run_State r' ∈ enum_values validProbeRunStates
      ∨ targets = [] ∧ r' = r)) ∧
  (ProbeRun_IsTerminal r = true → ∀ t,
     ProbeRun_TransitionTo now r t = Err (NewConflictError "invalid_state_transition")) ∧
  (∀ t r', ProbeRun_TransitionTo now r t = Ok r' →
     run_State r = ProbeRunStateQueued ∨ run_State r = ProbeRunStateRunning).
Proof.
  split_and!.
  - intros r' H. split.
    { apply (ranked_trace _ (run_rank ∘ run_State)) in H.
      - revert H. unfold run_rank. simpl. repeat case_match; lia.
      - intros s l s' ?%run_step_rank. simpl. lia. }
    revert r H. induction targets as [|t ts IH]; intros r; simpl.
    { intros [= ->]. naive_solver. }
    destruct (ProbeRun_TransitionTo now r t) as [r1|] eqn:E; [|done].
    apply run_step_rank in E as (_ & Hst & Hv & Hid).
    intros H. destruct (IH _ H) as [Hid' [[Hl Hin]|[-> ->]]].
    + split; [congruence|]. left. split; [|done]. destruct ts; [done|exact Hl].
    + split; [congruence|]. left. rewrite Hst. split; [done|].
      by apply mem_str_spec.
  - intros Ht t. unfold ProbeRun_TransitionTo, ProbeRun_CanTransitionTo. rewrite Ht.
    by destruct (enum_valid validProbeRunStates t).
  - intros t r' (Hr & _)%run_step_rank. revert Hr. unfold run_rank.
    destruct (String.eqb_spec (run_State r) ProbeRunStateQueued); [by left|].
    destruct (String.eqb_spec (run_State r) ProbeRunStateRunning); [by right|].
    repeat case_match; lia.
Qed.

(** The same bound for periodic probe batches: at most two accepted
    transitions, and none out of a terminal state. *)
Theorem probe_batch_lifecycle (now : time) (b : ProbeBatch) (targets : list string) :
  (is_ok (fold_res (ProbeBatch_TransitionTo now) b targets) = true → length targets ≤ 2) ∧
  (ProbeBatchState_IsTerminal (batch_State b) = true → ∀ t,
     ProbeBatch_TransitionTo now b t =
     Err (NewConflictError "invalid_batch_state_transition")).
Proof.
  split.
  - destruct (fold_res _ b targets) as [b'|] eqn:H; [intros _|done].
    apply (ranked_trace _ (batch_rank ∘ batch_State)) in H.
    + revert H. unfold batch_rank. simpl. repeat case_match; lia.
    + intros s l s' ?%batch_step_rank. simpl. lia.
  - intros Ht t. unfold ProbeBatch_TransitionTo, ProbeBatch_CanTransitionTo. rewrite Ht.
    by destruct (enum_valid validProbeBatchStates t).
Qed.

(** A batch goes through both steps of the bound. *)
Lemma probe_batch_lifecycle_witness :
  let b := {| batch_ID := "b"; batch_State := "pending"; batch_UpdatedAt := 0%Z |} in
  is_ok (fold_res (ProbeBatch_TransitionTo 1) b ["running"; "succeeded"]) = true ∧
  length ["running"; "succeeded"] ≤ 2.
Proof.
  intros b. split; [reflexivity|].
  by apply (probe_batch_lifecycle 1 b ["running"; "succeeded"]).
Defined.

Lemma probe_run_lifecycle_witness :
  let r := {| run_ID := "r"; run_State := "queued"; run_UpdatedAt := 0%Z |} in
  let r' := {| run_ID := "r"; run_State := "failed"; run_UpdatedAt := 1%Z |} in
  fold_res (ProbeRun_TransitionTo 1) r ["running"; "failed"] = Ok r' ∧
  run_State r' ∈ enum_values validProbeRunStates.
Proof.
  intros r r'. split; [reflexivity|].
  destruct (proj1 (probe_run_lifecycle 1 r ["running"; "failed"]) r' eq_refl)
    as (_ & _ & [[_ H]|[H _]]); [exact H|discriminate].
Defined.

(** A probe schedule is accepted exactly when its interval is between one
    minute and seven days and its kinds are a non-empty, duplicate-free list of
    declared probe kinds. *)
Theorem probe_schedule_accepted (s : ProbeSchedule) :
  ProbeSchedule_Validate s = Ok tt ↔
  (60 ≤ sched_IntervalSeconds s ≤ 604800)%Z ∧ sched_Kinds s ≠ [] ∧
  NoDup (sched_Kinds s) ∧ (∀ k, k ∈ sched_Kinds s → k ∈ enum_values validProbeKinds).
Proof.
  unfold ProbeSchedule_Validate.
  pose proof (schedule_kinds_ok ∅ (sched_Kinds s)) as Hk.
  split.
  - intros H. inv_ok. autorewrite with csp in *. rewrite !Z.ltb_ge in *.
    apply Nat.eqb_neq in Hok0. destruct (proj1 Hk eq_refl) as [Hnd Hv].
    split_and!; try lia; [by intros Heq; rewrite Heq in Hok0 | done |].
    intros k Hin. by apply mem_str_spec, Hv.
  - intros (Hi & Hne & Hnd & Hv).
    rewrite (proj2 (invalid_if_ok _ _)) by (autorewrite with csp; rewrite !Z.ltb_ge; lia).
    rewrite (proj2 (invalid_if_ok _ _)) by (by destruct (sched_Kinds s)).
    destruct (fold_res _ _ _); [done|]. exfalso.
    assert (false = true); [|done]. apply Hk. split; [done|]. intros k Hin.
    split; [set_solver|]. by apply mem_str_spec, Hv.
Qed.

(** Settings are accepted exactly within the documented bounds of the code
    (concurrency window 10..32, page sizes 1..100 with the default below the
    maximum, fetch timeout 1..300 seconds, positive response size) and a
    well-formed subscription fetch mode; the default settings are accepted. *)
Theorem settings_accepted (s : Settings) :
  (Settings_Validate s = Ok tt ↔
   (10 ≤ set_ProbeConcurrencyWindow s ≤ 32 ∧ 1 ≤ set_DefaultPageSize s ∧
    set_DefaultPageSize s ≤ set_MaxPageSize s ≤ 100 ∧ 1 ≤ set_FetchTimeoutSeconds s ≤ 300 ∧
    0 < set_FetchMaxResponseBytes s)%Z ∧
   (set_SubscriptionFetchMode s = "environment" ∨ set_SubscriptionFetchMode s = "direct" ∨
    set_SubscriptionFetchMode s = "proxy" ∧
    TrimSpace (set_SubscriptionFetchProxyURL s) ≠ "") ∧
   String.length (set_SubscriptionFetchProxyURL s) ≤ 4096) ∧
  Settings_Validate DefaultSettings = Ok tt.
Proof.
  split; [|reflexivity].
  assert (ValidateSubscriptionFetchSettings (set_SubscriptionFetchMode s)
      (set_SubscriptionFetchProxyURL s) = Ok tt ↔
   (set_SubscriptionFetchMode s = "environment" ∨ set_SubscriptionFetchMode s = "direct" ∨
    set_SubscriptionFetchMode s = "proxy" ∧
    TrimSpace (set_SubscriptionFetchProxyURL s) ≠ "") ∧
   String.length (set_SubscriptionFetchProxyURL s) ≤ 4096) as Hfetch.
  { unfold ValidateSubscriptionFetchSettings, invalid_if, reject_if.
    destruct (Nat.ltb_spec 4096 (String.length (set_SubscriptionFetchProxyURL s)));
      repeat case_match; autorewrite with csp in *; rewrite ?String.eqb_eq, ?String.eqb_neq in *;
      split; try done; try lia; naive_solver lia. }
  unfold Settings_Validate. split.
  - intros H. inv_ok. unfold invalid_if in *. inv_ok. autorewrite with csp in *.
    rewrite ?Z.ltb_ge, ?Z.leb_gt in *. split; [lia|]. by apply Hfetch.
  - intros [Hb Hm]. rewrite (proj2 Hfetch Hm). clear Hfetch Hm.
    repeat (rewrite (proj2 (invalid_if_ok _ _));
      [|autorewrite with csp; rewrite ?Z.ltb_ge, ?Z.leb_gt; lia]).
    done.
Qed.
