(* ===== verification/NodeFilter.v ===== *)
(** * Nodes, observations and node filters

    [internal/domain/node.go], [node_credential.go], the observation record of
    [probe.go], and [node_filter.go]: the filter conditions, their validation
    and their evaluation against a node.

    The two regular-expression engines (Go's RE2 and the third-party
    [regexp2]) are the operations of the class [RegexEngine]; the LRU cache in
    front of them returns what compiling the same pattern again would, and is
    not part of the model. *)

From S2P Require Import Prelude.
From S2P Require Import GoStrings.
From S2P Require Import Domain.
From S2P Require Import Lifecycle.

(** ** Nodes *)

Record InboundProtocolCredential : Type := {
  cred_Password : string;
  cred_UUID : string;
  cred_Method : string;
  cred_AlterID : Z;
  cred_PrivateKey : string;
  cred_PublicKey : string;
  cred_PresharedKey : string;
  cred_PreSharedKey : string;
  cred_LocalAddress : list string;
  cred_Reserved : list Z;
  cred_MTU : Z;
  cred_DNS : list string;
  cred_CongestionControl : string;
  cred_UDPRelayMode : string;
  cred_ALPN : list string;
  cred_SNI : string;
  cred_DisableSNI : bool;
  cred_Username : string;
  cred_Transport : option (gmap string string)
}.

Definition no_credentials : InboundProtocolCredential :=
  {| cred_Password := ""; cred_UUID := ""; cred_Method := ""; cred_AlterID := 0;
     cred_PrivateKey := ""; cred_PublicKey := ""; cred_PresharedKey := "";
     cred_PreSharedKey := ""; cred_LocalAddress := []; cred_Reserved := [];
     cred_MTU := 0; cred_DNS := []; cred_CongestionControl := ""; cred_UDPRelayMode := "";
     cred_ALPN := []; cred_SNI := ""; cred_DisableSNI := false; cred_Username := "";
     cred_Transport := None |}%Z.

Record Node : Type := {
  node_LogicalID : string;
  node_Protocol : string;
  node_DisplayName : string;
  node_Server : string;
  node_Port : Z;
  node_Credentials : InboundProtocolCredential;
  node_Active : bool;
  node_ConnectionRevision : Z
}.

Record NodeSource : Type := {
  nsrc_NodeLogicalID : string;
  nsrc_SubscriptionID : string;
  nsrc_LastSeenFetchID : string
}.

(** The observation fields the program computes with; the evidence payload is
    carried as JSON and never inspected here. *)
Record ProbeObservation : Type := {
  obs_ID : string;
  obs_Kind : string;
  obs_Verdict : string;
  obs_ObservedAt : time;
  obs_LatencyMS : Z;
  obs_RedactedSummary : string;
  obs_ConnectionRevision : option Z
}.

(** ** Credential helpers *)

(** Reading a Go map: the zero value for a nil map or an absent key. *)
Definition map_get (m : option (gmap string string)) (k : string) : string :=
  match m with Some m => default "" (m !! k) | None => "" end.

Definition EffectivePreSharedKey (c : InboundProtocolCredential) : string :=
  let s := TrimSpace (cred_PreSharedKey c) in
  if negb (String.eqb s "") then s else TrimSpace (cred_PresharedKey c).

Definition IsTruthy `{GoText} (v : string) : bool :=
  let v := ToLower (TrimSpace v) in
  String.eqb v "true" || String.eqb v "1" || String.eqb v "yes" || String.eqb v "on".

(** The loop returns at the first entry that asks for it, in any order. *)
Definition HasInsecureTransport `{GoText} (m : option (gmap string string)) : bool :=
  match m with
  | None => false
  | Some m =>
      existsb (λ '(k, v),
        let kLower := ToLower (TrimSpace k) in
        (Contains kLower "insecure" || Contains kLower "skip_cert" ||
         Contains kLower "skip-cert" || Contains kLower "skipcert") && IsTruthy v)
        (map_to_list m)
  end.

Fixpoint first_nonempty (l : list string) : string :=
  match l with
  | [] => ""
  | s :: l => if negb (String.eqb s "") then s else first_nonempty l
  end.

Definition ExtractHy2Ports (m : option (gmap string string)) : string :=
  first_nonempty (map (λ k, TrimSpace (map_get m k)) ["ports"; "server_ports"; "hy2_ports"]).

Definition HasTUICDisableSNI `{GoText} (m : option (gmap string string)) : bool :=
  existsb (λ k, IsTruthy (map_get m k)) ["disable_sni"; "disable-sni"; "tuic_disable_sni"].

(** ** Filter expressions *)

Class RegexEngine := {
  regexp_Compile : string → option (string → bool);
  regexp2_Compile : string → result string (string → result string bool)
}.

Inductive filterRegex : Type :=
  | re2 (matches : string → bool)
  | backtracking (matches : string → result string bool).

Definition filterRegexInputLimit : nat := 4096.

Definition compileFilterRegex `{RegexEngine} (pattern : string) : result string filterRegex :=
  let pattern := TrimSpace pattern in
  if (String.length pattern =? 0) || (1024 <? String.length pattern) then
    Err "regex pattern must contain 1 to 1024 bytes"
  else
    let pat := if negb (HasPrefix pattern "(?i)") then "(?i)" +:+ pattern else pattern in
    match regexp_Compile pat with
    | Some re => Ok (re2 re)
    | None => let? re := regexp2_Compile pat in Ok (backtracking re)
    end.

Definition filterRegex_match (r : filterRegex) (input : string) : result string bool :=
  if filterRegexInputLimit <? String.length input then
    Err "regex input exceeds 4096 bytes"
  else
    match r with
    | re2 m => Ok (m input)
    | backtracking m => m input
    end.

Definition FilterFieldDisplayName := "display_name".
Definition FilterFieldProtocol := "protocol".
Definition FilterFieldSourceSubscriptions := "source_subscription_ids".
Definition FilterFieldProbeVerdict := "probe_verdict".
Definition FilterFieldProbeLatencyMS := "probe_latency_ms".

Definition validFilterFields : StrEnum :=
  {| enum_values := [FilterFieldDisplayName; FilterFieldProtocol;
       FilterFieldSourceSubscriptions; FilterFieldProbeVerdict; FilterFieldProbeLatencyMS];
     enum_code := "invalid_filter_field" |}.
Definition ParseFilterField `{GoText} := enum_parse validFilterFields.

Definition FilterOpContains := "contains".
Definition FilterOpNotContains := "not_contains".
Definition FilterOpRegex := "regex".
Definition FilterOpNotRegex := "not_regex".
Definition FilterOpEquals := "equals".
Definition FilterOpNotEquals := "not_equals".
Definition FilterOpLTE := "lte".

Definition validFilterOps : StrEnum :=
  {| enum_values := [FilterOpContains; FilterOpNotContains; FilterOpRegex;
       FilterOpNotRegex; FilterOpEquals; FilterOpNotEquals; FilterOpLTE];
     enum_code := "invalid_filter_op" |}.
Definition ParseFilterOp `{GoText} := enum_parse validFilterOps.

Record FilterCondition : Type := {
  cond_Field : string;
  cond_Op : string;
  cond_Value : string;
  cond_ProbeKind : option string;
  cond_FreshnessSeconds : option Z
}.

Record NodeFilterSpec : Type := { spec_Conditions : list FilterCondition }.

Section Filters.
Context `{GoText} `{RegexEngine}.

(** *** Validation *)

Definition op_in (op : string) (ops : list string) : bool := mem_str op ops.

Definition validate_display_name (c : FilterCondition) (op val : string)
    : result DomainError unit :=
  let is_regex := op_in op [FilterOpRegex; FilterOpNotRegex] in
  invalid_if (negb (op_in op [FilterOpContains; FilterOpNotContains; FilterOpRegex;
    FilterOpNotRegex])) "invalid_filter_op" ;;?
  invalid_if (String.eqb val "") "invalid_filter_value" ;;?
  (let maxLen := if is_regex then 1024 else 255 in
   invalid_if (maxLen <? String.length val) "invalid_filter_value") ;;?
  invalid_if (is_regex && negb (is_ok (compileFilterRegex val))) "invalid_filter_value" ;;?
  invalid_if (bool_decide (is_Some (cond_ProbeKind c))) "invalid_filter_field" ;;?
  invalid_if (bool_decide (is_Some (cond_FreshnessSeconds c))) "invalid_filter_field" ;;?
  Ok tt.

Definition has_probe_parameters (c : FilterCondition) : bool :=
  bool_decide (is_Some (cond_ProbeKind c)) || bool_decide (is_Some (cond_FreshnessSeconds c)).

(** The checks shared by the two probe fields. *)
Definition validate_probe_parameters (c : FilterCondition) : result DomainError unit :=
  invalid_if (match cond_ProbeKind c with
              | None => true
              | Some k => negb (enum_valid validProbeKinds k)
              end) "invalid_probe_kind" ;;?
  invalid_if (match cond_FreshnessSeconds c with
              | None => false
              | Some s => (s <? 1) || (604800 <? s)
              end)%Z "invalid_freshness_seconds" ;;?
  Ok tt.

Definition FilterCondition_Validate (c : FilterCondition) : result DomainError unit :=
  let? field := ParseFilterField (cond_Field c) in
  let? op := ParseFilterOp (cond_Op c) in
  let val := TrimSpace (cond_Value c) in
  if String.eqb field FilterFieldDisplayName then validate_display_name c op val
  else if String.eqb field FilterFieldProtocol then
    invalid_if (negb (op_in op [FilterOpEquals; FilterOpNotEquals])) "invalid_filter_op" ;;?
    invalid_if (negb (is_ok (ParseProtocol val))) "invalid_filter_value" ;;?
    invalid_if (has_probe_parameters c) "invalid_filter_field" ;;?
    Ok tt
  else if String.eqb field FilterFieldSourceSubscriptions then
    invalid_if (negb (op_in op [FilterOpContains; FilterOpNotContains]))
      "invalid_filter_op" ;;?
    invalid_if (String.eqb val "") "invalid_filter_value" ;;?
    invalid_if (negb (IsValidUUIDv7 val)) "invalid_filter_value" ;;?
    invalid_if (has_probe_parameters c) "invalid_filter_field" ;;?
    Ok tt
  else if String.eqb field FilterFieldProbeVerdict then
    invalid_if (negb (op_in op [FilterOpEquals; FilterOpNotEquals])) "invalid_filter_op" ;;?
    invalid_if (negb (is_ok (ParseProbeVerdict val))) "invalid_filter_value" ;;?
    validate_probe_parameters c
  else if String.eqb field FilterFieldProbeLatencyMS then
    invalid_if (negb (String.eqb op FilterOpLTE)) "invalid_filter_op" ;;?
    invalid_if (match ParseInt val with
                | None => true
                | Some latency => (latency <? 0) || (60000 <? latency)
                end)%Z "invalid_filter_value" ;;?
    validate_probe_parameters c
  else Err (NewValidationError "invalid_filter_field").

(** [spec] is a [*NodeFilterSpec]: [None] is the nil pointer. *)
Definition NodeFilterSpec_IsEmpty (spec : option NodeFilterSpec) : bool :=
  match spec with None => true | Some s => length (spec_Conditions s) =? 0 end.

Definition NodeFilterSpec_Validate (spec : option NodeFilterSpec)
    : result DomainError unit :=
  match spec with
  | None => Ok tt
  | Some s =>
      if length (spec_Conditions s) =? 0 then Ok tt
      else
        invalid_if (32 <? length (spec_Conditions s)) "too_many_conditions" ;;?
        for_each FilterCondition_Validate (spec_Conditions s)
  end.

(** *** Evaluation: [(true, "")] or [(false, reason)] *)

Definition matched : bool * string := (true, "").
Definition rejected (reason : string) : bool * string := (false, reason).

Definition match_display_name (op value : string) (node : Node) : bool * string :=
  if op_in op [FilterOpRegex; FilterOpNotRegex] then
    match compileFilterRegex value with
    | Err e => rejected ("invalid regex: " +:+ e)
    | Ok re =>
        match filterRegex_match re (node_DisplayName node) with
        | Err e => rejected ("regex match failed: " +:+ e)
        | Ok m =>
            if String.eqb op FilterOpRegex && negb m then
              rejected ("display_name does not match regex " +:+ Quote value)
            else if String.eqb op FilterOpNotRegex && m then
              rejected ("display_name matches excluded regex " +:+ Quote value)
            else matched
        end
    end
  else
    let m := Contains (ToLower (node_DisplayName node)) (ToLower value) in
    if String.eqb op FilterOpContains && negb m then
      rejected ("display_name does not contain " +:+ Quote value)
    else if String.eqb op FilterOpNotContains && m then
      rejected ("display_name contains " +:+ Quote value)
    else matched.

Definition match_protocol (op value : string) (node : Node) : bool * string :=
  let m := EqualFold (node_Protocol node) value in
  if String.eqb op FilterOpEquals && negb m then
    rejected ("protocol " +:+ node_Protocol node +:+ " != " +:+ value)
  else if String.eqb op FilterOpNotEquals && m then
    rejected ("protocol " +:+ node_Protocol node +:+ " == " +:+ value)
  else matched.

Definition match_source (op value : string) (sources : list NodeSource) : bool * string :=
  let hasSource := existsb (λ s, String.eqb (nsrc_SubscriptionID s) value) sources in
  if String.eqb op FilterOpContains && negb hasSource then
    rejected ("node not from subscription " +:+ value)
  else if String.eqb op FilterOpNotContains && hasSource then
    rejected ("node from excluded subscription " +:+ value)
  else matched.

(** The freshness window in nanoseconds; 24 hours unless a positive number of
    seconds is given. The product is a 64-bit one. *)
Definition freshness_seconds (c : FilterCondition) : Z :=
  match cond_FreshnessSeconds c with
  | Some s => if (0 <? s)%Z then s else 86400%Z
  | None => 86400%Z
  end.

Definition freshness_window (c : FilterCondition) : Z :=
  wrap64 (freshness_seconds c * second).

Definition match_verdict (op kind value : string) (obs : ProbeObservation) : bool * string :=
  let expected := ToLower (TrimSpace value) in
  let m := String.eqb (obs_Verdict obs) expected in
  if String.eqb op FilterOpEquals && negb m then
    rejected ("probe " +:+ kind +:+ " verdict " +:+ obs_Verdict obs +:+ " != " +:+ expected)
  else if String.eqb op FilterOpNotEquals && m then
    rejected ("probe " +:+ kind +:+ " verdict " +:+ obs_Verdict obs +:+ " == " +:+ expected)
  else matched.

Definition match_latency (kind value : string) (obs : ProbeObservation) : bool * string :=
  if negb (String.eqb (obs_Verdict obs) VerdictAvailable) then
    rejected ("probe " +:+ kind +:+ " verdict is " +:+ obs_Verdict obs +:+
      " (latency requires available)")
  else
    match ParseInt value with
    | None => rejected "invalid latency threshold"
    | Some maxLatency =>
        if (maxLatency <? obs_LatencyMS obs)%Z then
          rejected ("probe latency " +:+ itoa (obs_LatencyMS obs) +:+ "ms > threshold " +:+
            itoa maxLatency +:+ "ms")
        else matched
    end.

Definition MatchesCondition (c : FilterCondition) (node : Node) (sources : list NodeSource)
    (latestObs : gmap string ProbeObservation) (asOf : time) : bool * string :=
  let field := match ParseFilterField (cond_Field c) with Ok f => f | Err _ => "" end in
  let op := match ParseFilterOp (cond_Op c) with Ok o => o | Err _ => "" end in
  if String.eqb field FilterFieldDisplayName then
    match_display_name op (cond_Value c) node
  else if String.eqb field FilterFieldProtocol then match_protocol op (cond_Value c) node
  else if String.eqb field FilterFieldSourceSubscriptions then
    match_source op (cond_Value c) sources
  else if String.eqb field FilterFieldProbeVerdict ||
          String.eqb field FilterFieldProbeLatencyMS then
    match cond_ProbeKind c with
    | None => rejected "missing probe kind in filter condition"
    | Some kind =>
        match latestObs !! kind with
        | None => rejected ("no " +:+ kind +:+ " probe observation available")
        | Some obs =>
            if (freshness_window c <? time_sub asOf (obs_ObservedAt obs))%Z then
              rejected ("observation expired (freshness " +:+ itoa (freshness_seconds c) +:+
                "s exceeded)")
            else if String.eqb field FilterFieldProbeVerdict then
              match_verdict op kind (cond_Value c) obs
            else match_latency kind (cond_Value c) obs
        end
    end
  else rejected ("unknown filter field " +:+ field).

Fixpoint match_conditions (cs : list FilterCondition) (node : Node)
    (sources : list NodeSource) (latestObs : gmap string ProbeObservation) (asOf : time)
    : bool * string :=
  match cs with
  | [] => matched
  | c :: cs =>
      match MatchesCondition c node sources latestObs asOf with
      | (true, _) => match_conditions cs node sources latestObs asOf
      | (false, reason) => rejected reason
      end
  end.

Definition MatchesFilter (spec : option NodeFilterSpec) (node : Node)
    (sources : list NodeSource) (latestObs : gmap string ProbeObservation) (asOf : time)
    : bool * string :=
  match spec with
  | None => matched
  | Some s =>
      if NodeFilterSpec_IsEmpty (Some s) then matched
      else match_conditions (spec_Conditions s) node sources latestObs asOf
  end.
End Filters.

(** ** Lemmas on filters *)

Section FilterLemmas.
Context `{GoText} `{RegexEngine}.

Lemma field_canonical f : f ∈ enum_values validFilterFields → ParseFilterField f = Ok f.
Proof.
  intros Hf. apply enum_parse_canonical; [done|].
  assert (Forall (λ v, canonical_text v = true) (enum_values validFilterFields)) as Hall
    by (repeat constructor).
  rewrite Forall_forall in Hall. auto.
Qed.

Lemma op_canonical o : o ∈ enum_values validFilterOps → ParseFilterOp o = Ok o.
Proof.
  intros Hf. apply enum_parse_canonical; [done|].
  assert (Forall (λ v, canonical_text v = true) (enum_values validFilterOps)) as Hall
    by (repeat constructor).
  rewrite Forall_forall in Hall. auto.
Qed.

Lemma match_conditions_and cs node srcs obs now :
  fst (match_conditions cs node srcs obs now) = true ↔
  ∀ c, c ∈ cs → fst (MatchesCondition c node srcs obs now) = true.
Proof.
  induction cs as [|c cs IH]; simpl; [set_solver|].
  destruct (MatchesCondition c node srcs obs now) as [[] r] eqn:E; simpl.
  - rewrite IH. setoid_rewrite elem_of_cons. split; [|naive_solver].
    intros Hall c' [->|Hin]; [by rewrite E|auto].
  - split; [done|]. intros Hall. specialize (Hall c).
    rewrite E in Hall. apply Hall. set_solver.
Qed.

Lemma match_conditions_reason cs node srcs obs now r :
  match_conditions cs node srcs obs now = (false, r) →
  ∃ pre c post, cs = pre ++ c :: post ∧
    (∀ c', c' ∈ pre → fst (MatchesCondition c' node srcs obs now) = true) ∧
    MatchesCondition c node srcs obs now = (false, r).
Proof.
  induction cs as [|c cs IH]; simpl; [done|].
  destruct (MatchesCondition c node srcs obs now) as [[] r'] eqn:E.
  - intros (pre & c' & post & -> & Hpre & Hc)%IH. exists (c :: pre), c', post.
    split_and!; [done| |done].
    intros c'' [->|Hin]%elem_of_cons; [by rewrite E|auto].
  - intros [= <-]. exists [], c, cs. split_and!; [done| |done]. set_solver.
Qed.

(** The two probe fields reject unless a fresh observation of the condition's
    own kind is there. *)
Lemma probe_condition_inv c node srcs obs now f :
  ParseFilterField (cond_Field c) = Ok f →
  f = FilterFieldProbeVerdict ∨ f = FilterFieldProbeLatencyMS →
  fst (MatchesCondition c node srcs obs now) = true →
  ∃ kind o, cond_ProbeKind c = Some kind ∧ obs !! kind = Some o ∧
    (time_sub now (obs_ObservedAt o) ≤ freshness_window c)%Z ∧
    (f = FilterFieldProbeLatencyMS → fst (match_latency kind (cond_Value c) o) = true).
Proof.
  intros Hf Hor. unfold MatchesCondition. rewrite Hf.
  destruct (cond_ProbeKind c) as [kind|]; [|by destruct Hor as [->| ->]].
  destruct (obs !! kind) as [o|] eqn:Ho; [|by destruct Hor as [->| ->]].
  destruct (Z.ltb_spec (freshness_window c) (time_sub now (obs_ObservedAt o)));
    [by destruct Hor as [->| ->]|].
  intros Hm. exists kind, o. split_and!; try done.
  intros ->. exact Hm.
Qed.

Lemma match_latency_inv kind v o :
  fst (match_latency kind v o) = true →
  obs_Verdict o = VerdictAvailable ∧ ∃ m, ParseInt v = Some m ∧ (obs_LatencyMS o ≤ m)%Z.
Proof.
  unfold match_latency.
  destruct (String.eqb_spec (obs_Verdict o) VerdictAvailable) as [->|]; [|done]. simpl.
  destruct (ParseInt v) as [m|]; [|done].
  destruct (Z.ltb_spec m (obs_LatencyMS o)); [done|]. naive_solver.
Qed.

Lemma freshness_exact c :
  (∀ s, cond_FreshnessSeconds c = Some s → 1 ≤ s ≤ 604800)%Z →
  freshness_window c = (freshness_seconds c * second)%Z ∧
  (1 ≤ freshness_seconds c ≤ 604800)%Z.
Proof.
  unfold freshness_window, freshness_seconds, second. intros Hs.
  destruct (cond_FreshnessSeconds c) as [s|].
  - specialize (Hs s eq_refl). destruct (Z.ltb_spec 0 s); [|lia].
    rewrite wrap64_small; [lia|]. unfold int64_min, int64_max. lia.
  - rewrite wrap64_small; [lia|]. unfold int64_min, int64_max. lia.
Qed.

Lemma probe_parameters_ok c :
  validate_probe_parameters c = Ok tt →
  ∀ s, cond_FreshnessSeconds c = Some s → (1 ≤ s ≤ 604800)%Z.
Proof.
  unfold validate_probe_parameters. intros Hv s Hs. inv_ok. unfold invalid_if in *. inv_ok.
  rewrite Hs in Hok0. autorewrite with csp in Hok0. rewrite !Z.ltb_ge in Hok0. lia.
Qed.

Lemma validated_probe_parameters c f :
  FilterCondition_Validate c = Ok tt → ParseFilterField (cond_Field c) = Ok f →
  f = FilterFieldProbeVerdict ∨ f = FilterFieldProbeLatencyMS →
  validate_probe_parameters c = Ok tt.
Proof.
  unfold FilterCondition_Validate. intros Hv Hf Hor. rewrite Hf in Hv.
  destruct (ParseFilterOp (cond_Op c)); [|done].
  destruct Hor as [->| ->]; cbn [String.eqb] in Hv; simpl in Hv; by inv_ok.
Qed.
End FilterLemmas.

(** ** Properties *)

(** A node passes a filter exactly when it passes every condition of it, so
    the order of the conditions never changes which nodes pass; a nil or empty
    filter passes everything; and when a node is rejected, the reported reason
    is that of the first condition it fails. *)
Theorem matches_filter_is_conjunction `{GoText} `{RegexEngine}
    (spec : option NodeFilterSpec) (node : Node) (srcs : list NodeSource)
    (obs : gmap string ProbeObservation) (now : time) :
  (fst (MatchesFilter spec node srcs obs now) = true ↔
   ∀ s c, spec = Some s → c ∈ spec_Conditions s →
     fst (MatchesCondition c node srcs obs now) = true) ∧
  (∀ r, MatchesFilter spec node srcs obs now = (false, r) →
   ∃ s pre c post, spec = Some s ∧ spec_Conditions s = pre ++ c :: post ∧
     (∀ c', c' ∈ pre → fst (MatchesCondition c' node srcs obs now) = true) ∧
     MatchesCondition c node srcs obs now = (false, r)).
Proof.
  unfold MatchesFilter. destruct spec as [[cs]|]; simpl.
  2: { split; [split; [naive_solver|done]|done]. }
  destruct cs as [|c cs]; simpl.
  { split; [|done]. split; [|done]. intros _ s c [= <-]. set_solver. }
  change (match MatchesCondition c node srcs obs now with
    | (true, _) => match_conditions cs node srcs obs now
    | (false, reason) => rejected reason end)
    with (match_conditions (c :: cs) node srcs obs now).
  split.
  - rewrite match_conditions_and. naive_solver.
  - intros r (pre & c' & post & ? & ? & ?)%match_conditions_reason.
    exists {| spec_Conditions := c :: cs |}, pre, c', post. naive_solver.
Qed.

Definition witness_engine : RegexEngine :=
  {| regexp_Compile := λ p, Some (λ s, Contains s "HK"); regexp2_Compile := λ p, Err "no" |}.
Definition witness_node : Node :=
  {| node_LogicalID := "node_0123456789abcdef"; node_Protocol := "socks5";
     node_DisplayName := "HK 01"; node_Server := "h"; node_Port := 443;
     node_Credentials := no_credentials; node_Active := true; node_ConnectionRevision := 1 |}%Z.

(** Expression conditions fail closed: when the pattern does not compile or
    the match itself fails (input too long, time limit), neither [regex] nor
    [not_regex] lets the node pass; otherwise exactly one of the two does. *)
Theorem regex_conditions_fail_closed `{GoText} `{RegexEngine} (value : string) (node : Node) :
  let pos := fst (match_display_name FilterOpRegex value node) in
  let neg := fst (match_display_name FilterOpNotRegex value node) in
  match compileFilterRegex value with
  | Err _ => pos = false ∧ neg = false
  | Ok re =>
      match filterRegex_match re (node_DisplayName node) with
      | Err _ => pos = false ∧ neg = false
      | Ok m => pos = m ∧ neg = negb m
      end
  end.
Proof.
  unfold match_display_name, op_in. simpl.
  destruct (compileFilterRegex value) as [re|e]; [|done].
  by destruct (filterRegex_match re (node_DisplayName node)) as [[]|e].
Qed.

(** A validated probe condition only passes on evidence: there is an
    observation of the condition's own kind that is at most the requested
    number of seconds old (24 hours by default; the 64-bit product does not
    overflow), and for a latency condition it is an [available] one at or below
    the threshold. *)
Theorem probe_condition_needs_fresh_evidence `{GoText} `{RegexEngine}
    (c : FilterCondition) (node : Node) (srcs : list NodeSource)
    (obs : gmap string ProbeObservation) (now : time) (f : string) :
  FilterCondition_Validate c = Ok tt →
  ParseFilterField (cond_Field c) = Ok f →
  f = FilterFieldProbeVerdict ∨ f = FilterFieldProbeLatencyMS →
  fst (MatchesCondition c node srcs obs now) = true →
  ∃ kind o, cond_ProbeKind c = Some kind ∧ obs !! kind = Some o ∧
    (now - obs_ObservedAt o ≤ freshness_seconds c * 1000000000)%Z ∧
    (1 ≤ freshness_seconds c ≤ 604800)%Z ∧
    (f = FilterFieldProbeLatencyMS →
     obs_Verdict o = VerdictAvailable ∧
     ∃ m, ParseInt (cond_Value c) = Some m ∧ (obs_LatencyMS o ≤ m)%Z).
Proof.
  intros Hv Hf Hor Hm.
  destruct (probe_condition_inv c node srcs obs now f Hf Hor Hm)
    as (kind & o & Hk & Ho & Hage & Hlat).
  pose proof (validated_probe_parameters c f Hv Hf Hor) as Hp.
  destruct (freshness_exact c (probe_parameters_ok c Hp)) as [Hw Hr].
  exists kind, o. split_and!; try done; try lia.
  - rewrite Hw in Hage. apply time_sub_le in Hage; [done|].
    unfold int64_min, int64_max, second. lia.
  - intros Hl. by apply match_latency_inv with kind, Hlat.
Qed.

Lemma probe_condition_needs_fresh_evidence_witness :
  let c := {| cond_Field := "probe_latency_ms"; cond_Op := "lte"; cond_Value := "200";
              cond_ProbeKind := Some "baseline"; cond_FreshnessSeconds := Some 60%Z |} in
  let o := {| obs_ID := "o"; obs_Kind := "baseline"; obs_Verdict := "available";
              obs_ObservedAt := 5%Z; obs_LatencyMS := 120%Z; obs_RedactedSummary := "";
              obs_ConnectionRevision := None |} in
  ∃ kind o', cond_ProbeKind c = Some kind ∧
    ({["baseline" := o]} : gmap string ProbeObservation) !! kind = Some o' ∧
    (9 - obs_ObservedAt o' ≤ 60 * 1000000000)%Z.
Proof.
  intros c o.
  destruct (@probe_condition_needs_fresh_evidence ascii_text witness_engine c witness_node []
    {["baseline" := o]} 9%Z "probe_latency_ms") as (kind & o' & Hk & Ho & Hage & _).
  - vm_compute. reflexivity.
  - vm_compute. reflexivity.
  - right. reflexivity.
  - vm_compute. reflexivity.
  - exists kind, o'. auto.
Defined.

(** Validation and evaluation disagree on what the value of a condition is:
    validation trims it and knows protocol aliases, evaluation does neither.
    So the condition [probe_latency_ms lte " 100"] is accepted and then rejects
    every node whatever was observed, and [protocol equals "socks"] is accepted
    and then rejects every node of every supported protocol. *)
Theorem validated_conditions_that_never_match `{GoText} `{RegexEngine}
    (node : Node) (srcs : list NodeSource) (obs : gmap string ProbeObservation) (now : time) :
  let latency := {| cond_Field := "probe_latency_ms"; cond_Op := "lte"; cond_Value := " 100";
                    cond_ProbeKind := Some "baseline"; cond_FreshnessSeconds := None |} in
  let socks := {| cond_Field := "protocol"; cond_Op := "equals"; cond_Value := "socks";
                  cond_ProbeKind := None; cond_FreshnessSeconds := None |} in
  FilterCondition_Validate latency = Ok tt ∧ FilterCondition_Validate socks = Ok tt ∧
  fst (MatchesCondition latency node srcs obs now) = false ∧
  (node_Protocol node ∈ enum_values validProtocols →
   fst (MatchesCondition socks node srcs obs now) = false).
Proof.
  intros latency socks. subst latency socks.
  assert (ParseFilterField "probe_latency_ms" = Ok "probe_latency_ms") as Hf1
    by (apply field_canonical, mem_str_spec; reflexivity).
  assert (ParseFilterField "protocol" = Ok "protocol") as Hf2
    by (apply field_canonical, mem_str_spec; reflexivity).
  assert (ParseFilterOp "lte" = Ok "lte") as Ho1
    by (apply op_canonical, mem_str_spec; reflexivity).
  assert (ParseFilterOp "equals" = Ok "equals") as Ho2
    by (apply op_canonical, mem_str_spec; reflexivity).
  unfold FilterCondition_Validate, MatchesCondition.
  cbn [cond_Field cond_Op cond_Value cond_ProbeKind cond_FreshnessSeconds].
  rewrite Hf1, Hf2, Ho1, Ho2. split_and!.
  - vm_compute. reflexivity.
  - simpl. replace (ParseProtocol (TrimSpace "socks")) with (@Ok DomainError string "socks5").
    { reflexivity. }
    unfold ParseProtocol. rewrite ToLower_ascii by reflexivity. reflexivity.
  - simpl. destruct (obs !! "baseline"); [|done].
    destruct (_ <? _)%Z; [done|]. unfold match_latency.
    by destruct (negb _).
  - intros Hp. simpl. unfold match_protocol.
    rewrite EqualFold_ascii; [| |reflexivity].
    + unfold validProtocols in Hp. simpl in Hp.
      repeat (apply elem_of_cons in Hp as [->|Hp]; [reflexivity|]).
      by apply elem_of_nil in Hp.
    + repeat (apply elem_of_cons in Hp as [->|Hp]; [reflexivity|]).
      by apply elem_of_nil in Hp.
Qed.

(** The condition that is never met, on a node that should meet it. *)
Lemma validated_conditions_that_never_match_witness :
  let socks := {| cond_Field := "protocol"; cond_Op := "equals"; cond_Value := "socks";
                  cond_ProbeKind := None; cond_FreshnessSeconds := None |} in
  node_Protocol witness_node = "socks5" ∧
  fst (@MatchesCondition ascii_text witness_engine socks witness_node [] ∅ 0%Z) = false.
Proof.
  intros socks. split; [reflexivity|].
  apply (@validated_conditions_that_never_match ascii_text witness_engine witness_node [] ∅ 0%Z).
  apply mem_str_spec. reflexivity.
Defined.
