(* ===== verification/Policy.v ===== *)
(** * The policy graph: groups, member sources, rules and their validation

    [internal/domain/policy.go] and [policy_sources.go].  A Go [map] whose
    iteration order matters to the code (the legacy edges of
    [ValidatePolicyTopology]) is the list of its entries in the order of this
    execution; the theorems hold for every order. *)

From S2P Require Import Prelude.
From S2P Require Import GoStrings.
From S2P Require Import Domain.
From S2P Require Import Lifecycle.
From S2P Require Import NodeFilter.

(** ** Data *)

Definition OperationAdd := "add".
Definition OperationRemove := "remove".
Definition SourceOperation_Normalize (op : string) : string := op.
Definition SourceOperation_IsValid (op : string) : bool :=
  String.eqb op OperationAdd || String.eqb op OperationRemove.

Definition SourceKindManualNode := "manual_node".
Definition SourceKindGroupRef := "group_ref".
Definition SourceKindGroupNodes := "group_nodes".
Definition SourceKindRegex := "regex".
Definition SourceKindFilter := "filter".
Definition SourceKindTypedBuiltin := "typed_builtin".

Definition MemberSourceKind_Normalize (k : string) : string := k.
Definition MemberSourceKind_IsValid (k : string) : bool :=
  mem_str k [SourceKindManualNode; SourceKindGroupRef; SourceKindGroupNodes;
    SourceKindRegex; SourceKindFilter; SourceKindTypedBuiltin].

Record MemberSource : Type := {
  src_ID : string;
  src_GroupID : string;
  src_Operation : string;
  src_Kind : string;
  src_Position : Z;
  src_NodeLogicalID : option string;
  src_TargetGroupID : option string;
  src_Pattern : option string;
  src_FilterSpec : option NodeFilterSpec;
  src_BuiltinName : option string
}.

Record NodeGroup : Type := {
  grp_EmptyFallbackPass : bool;
  grp_ID : string;
  grp_Name : string;
  grp_GroupType : string;
  grp_Sources : list MemberSource;
  grp_NodeFilter : option NodeFilterSpec
}.

Record GroupEdge : Type := {
  edge_ID : string;
  edge_ParentGroupID : string;
  edge_ChildGroupID : option string;
  edge_NodeLogicalID : option string;
  edge_Position : Z
}.

Record AdmissionRule : Type := {
  adm_ID : string;
  adm_Name : string;
  adm_Expression : string;
  adm_Action : string;
  adm_Position : Z
}.

Record PolicyRule : Type := {
  rule_ID : string;
  rule_TargetGroupID : string;
  rule_Expression : string;
  rule_Position : Z
}.

(** The adjacency lists the validator builds. *)
Notation adjacency := (gmap string (list string)).

(** ** Member sources and edges *)

Section Validation.
Context `{GoText} `{RegexEngine}.

Definition is_nil {A} (o : option A) : bool := match o with None => true | _ => false end.
Definition blank_ptr (o : option string) : bool :=
  match o with None => true | Some s => String.eqb (TrimSpace s) "" end.
Definition deref (o : option string) : string := default "" o.

Definition entry_error_if (b : bool) (field : string) : result DomainError unit :=
  reject_if b (with_field field (NewValidationError "invalid_source_entry")).

Definition builtin_names : list string := ["PASS"; "DIRECT"; "REJECT"; "REJECT-DROP"].

Definition ValidateMemberSource (s : MemberSource) : result DomainError unit :=
  let entry := "sources[" +:+ itoa (src_Position s) +:+ "]" in
  invalid_if (negb (SourceOperation_IsValid (src_Operation s)))
    "invalid_source_operation" ;;?
  invalid_if (negb (MemberSourceKind_IsValid (src_Kind s))) "invalid_source_kind" ;;?
  invalid_if (src_Position s <? 0)%Z "invalid_position" ;;?
  let normKind := MemberSourceKind_Normalize (src_Kind s) in
  if String.eqb normKind SourceKindManualNode then
    entry_error_if (blank_ptr (src_NodeLogicalID s)) (entry +:+ ".node_logical_id") ;;?
    invalid_if (negb (IsValidLogicalID (deref (src_NodeLogicalID s))))
      "invalid_node_logical_id" ;;?
    entry_error_if (negb (is_nil (src_TargetGroupID s)) || negb (is_nil (src_BuiltinName s)))
      entry ;;?
    Ok tt
  else if String.eqb normKind SourceKindGroupRef then
    entry_error_if (blank_ptr (src_TargetGroupID s)) (entry +:+ ".target_group_id") ;;?
    invalid_if (negb (IsValidUUIDv7 (deref (src_TargetGroupID s))))
      "invalid_target_group_id" ;;?
    entry_error_if (negb (is_nil (src_NodeLogicalID s)) || negb (is_nil (src_BuiltinName s)) ||
      negb (blank_ptr (src_Pattern s))) (entry +:+ ".target_group_id") ;;?
    Ok tt
  else if String.eqb normKind SourceKindGroupNodes then
    entry_error_if (blank_ptr (src_TargetGroupID s)) (entry +:+ ".target_group_id") ;;?
    invalid_if (negb (IsValidUUIDv7 (deref (src_TargetGroupID s))))
      "invalid_target_group_id" ;;?
    entry_error_if (negb (is_nil (src_NodeLogicalID s)) || negb (is_nil (src_BuiltinName s)))
      entry ;;?
    invalid_if (negb (blank_ptr (src_Pattern s)) &&
      negb (is_ok (compileFilterRegex (deref (src_Pattern s))))) "invalid_regex" ;;?
    invalid_if (negb (is_nil (src_FilterSpec s)) &&
      negb (is_ok (NodeFilterSpec_Validate (src_FilterSpec s)))) "invalid_filter_spec" ;;?
    Ok tt
  else if String.eqb normKind SourceKindRegex then
    entry_error_if (blank_ptr (src_Pattern s)) (entry +:+ ".pattern") ;;?
    invalid_if (negb (is_ok (compileFilterRegex (deref (src_Pattern s)))))
      "invalid_regex" ;;?
    entry_error_if (negb (is_nil (src_NodeLogicalID s)) ||
      negb (is_nil (src_TargetGroupID s)) || negb (is_nil (src_BuiltinName s))) entry ;;?
    Ok tt
  else if String.eqb normKind SourceKindFilter then
    entry_error_if (is_nil (src_FilterSpec s)) (entry +:+ ".filter_spec") ;;?
    invalid_if (negb (is_ok (NodeFilterSpec_Validate (src_FilterSpec s))))
      "invalid_filter_spec" ;;?
    entry_error_if (negb (is_nil (src_NodeLogicalID s)) ||
      negb (is_nil (src_TargetGroupID s)) || negb (is_nil (src_BuiltinName s))) entry ;;?
    Ok tt
  else if String.eqb normKind SourceKindTypedBuiltin then
    entry_error_if (blank_ptr (src_BuiltinName s)) (entry +:+ ".builtin_name") ;;?
    (let name := ToUpper (TrimSpace (deref (src_BuiltinName s))) in
     entry_error_if (negb (mem_str name builtin_names)) (entry +:+ ".builtin_name")) ;;?
    entry_error_if (negb (is_nil (src_NodeLogicalID s)) ||
      negb (is_nil (src_TargetGroupID s)) || negb (is_nil (src_Pattern s)) ||
      negb (is_nil (src_FilterSpec s))) entry ;;?
    Ok tt
  else Ok tt.

(** A pointer that is set and not the empty string. *)
Definition has_ptr (o : option string) : bool := negb (String.eqb (deref o) "").

Definition ValidateGroupEdge (edge : GroupEdge) : result DomainError unit :=
  invalid_if (negb (IsValidUUIDv7 (edge_ParentGroupID edge)))
    "invalid_parent_group_id" ;;?
  let hasChild := has_ptr (edge_ChildGroupID edge) in
  let hasNode := has_ptr (edge_NodeLogicalID edge) in
  invalid_if (negb hasChild && negb hasNode) "empty_edge_target" ;;?
  invalid_if (hasChild && hasNode) "ambiguous_edge_target" ;;?
  invalid_if (hasChild && negb (IsValidUUIDv7 (deref (edge_ChildGroupID edge))))
    "invalid_child_group_id" ;;?
  invalid_if (hasChild && String.eqb (edge_ParentGroupID edge) (deref (edge_ChildGroupID edge)))
    "self_loop_forbidden" ;;?
  invalid_if (hasNode && negb (IsValidLogicalID (deref (edge_NodeLogicalID edge))))
    "invalid_node_logical_id" ;;?
  invalid_if (edge_Position edge <? 0)%Z "invalid_position" ;;?
  Ok tt.

Definition IsMatchRule (expr : string) : bool :=
  let norm := ToUpper (TrimSpace expr) in
  String.eqb norm "MATCH" || HasPrefix norm "MATCH," || HasPrefix norm "MATCH " ||
  String.eqb norm "FINAL" || HasPrefix norm "FINAL," || HasPrefix norm "FINAL ".

(** ** Rules *)

Definition sort_rules : list PolicyRule → list PolicyRule :=
  sort_stable (less_Z rule_Position).

Definition validate_rule (groupSet : gset string) (r : PolicyRule)
    : result DomainError unit :=
  invalid_if (String.eqb (TrimSpace (rule_Expression r)) "") "invalid_expression" ;;?
  invalid_if (rule_Position r <? 0)%Z "invalid_position" ;;?
  invalid_if (negb (bool_decide (groupSet = ∅)) &&
    negb (bool_decide (rule_TargetGroupID r ∈ groupSet))) "target_group_not_found" ;;?
  Ok tt.

(** Indices of the rules of [rs] that are MATCH/FINAL, counted from [i]. *)
Fixpoint match_indices (i : nat) (rs : list PolicyRule) : list nat :=
  match rs with
  | [] => []
  | r :: rs =>
      if IsMatchRule (rule_Expression r) then i :: match_indices (S i) rs
      else match_indices (S i) rs
  end.

Definition ValidatePolicyRules (rules : list PolicyRule) (groupSet : gset string)
    (requireTerminalMatch : bool) : result DomainError unit :=
  if length rules =? 0 then Ok tt
  else
    let sorted := sort_rules rules in
    for_each (validate_rule groupSet) sorted ;;?
    let matchIndices := match_indices 0 sorted in
    invalid_if (1 <? length matchIndices) "invalid_match_rule_ordering" ;;?
    match matchIndices with
    | [matchIdx] =>
        invalid_if (requireTerminalMatch && negb (matchIdx =? length sorted - 1))
          "invalid_match_rule_ordering"
    | _ => Ok tt
    end.

(** ** The graph *)

Definition validate_group (g : NodeGroup) : result DomainError unit :=
  invalid_if (negb (IsValidUUIDv7 (grp_ID g))) "invalid_group_id" ;;?
  invalid_if (String.eqb (TrimSpace (grp_Name g)) "") "invalid_group_name" ;;?
  invalid_if (negb (enum_valid validGroupTypes (grp_GroupType g))) "invalid_group_type" ;;?
  Ok tt.

Definition group_set (groups : list NodeGroup) : gset string :=
  list_to_set (map grp_ID groups).

Definition neighbors (adj : adjacency) (u : string) : list string := default [] (adj !! u).
Definition add_neighbor (adj : adjacency) (u v : string) : adjacency :=
  <[u := neighbors adj u ++ [v]]> adj.

(** The checks on one reference from [parent] to [child]. *)
Definition check_reference (groupSet : gset string) (parent child : string)
    : result DomainError unit :=
  invalid_if (String.eqb child parent) "self_loop_forbidden" ;;?
  invalid_if (negb (bool_decide (child ∈ groupSet))) "target_group_not_found" ;;?
  Ok tt.

Definition add_edge (groupSet : gset string) (parent : string) (adj : adjacency)
    (edge : GroupEdge) : result DomainError adjacency :=
  let edge := {| edge_ID := edge_ID edge; edge_ParentGroupID := parent;
                 edge_ChildGroupID := edge_ChildGroupID edge;
                 edge_NodeLogicalID := edge_NodeLogicalID edge;
                 edge_Position := edge_Position edge |} in
  ValidateGroupEdge edge ;;?
  if has_ptr (edge_ChildGroupID edge) then
    let childID := deref (edge_ChildGroupID edge) in
    check_reference groupSet parent childID ;;?
    Ok (add_neighbor adj parent childID)
  else Ok adj.

Definition add_edges (groupSet : gset string) (adj : adjacency)
    (entry : string * list GroupEdge) : result DomainError adjacency :=
  invalid_if (negb (bool_decide (entry.1 ∈ groupSet))) "parent_group_not_found" ;;?
  fold_res (add_edge groupSet entry.1) adj entry.2.

(** Does this source refer to another group? *)
Definition source_target (s : MemberSource) : option string :=
  let normKind := MemberSourceKind_Normalize (src_Kind s) in
  if (String.eqb normKind SourceKindGroupRef || String.eqb normKind SourceKindGroupNodes)
     && has_ptr (src_TargetGroupID s)
  then src_TargetGroupID s else None.

Definition add_source (groupSet : gset string) (gid : string) (adj : adjacency)
    (s : MemberSource) : result DomainError adjacency :=
  ValidateMemberSource s ;;?
  match source_target s with
  | Some childID => check_reference groupSet gid childID ;;? Ok (add_neighbor adj gid childID)
  | None => Ok adj
  end.

Definition add_sources (groupSet : gset string) (adj : adjacency) (g : NodeGroup)
    : result DomainError adjacency :=
  fold_res (add_source groupSet (grp_ID g)) adj (grp_Sources g).

(** Everything before the cycle search: the adjacency lists. *)
Definition build_adjacency (groups : list NodeGroup) (edges : list (string * list GroupEdge))
    : result DomainError adjacency :=
  for_each validate_group groups ;;?
  let groupSet := group_set groups in
  let? adj := fold_res (add_edges groupSet) ∅ edges in
  fold_res (add_sources groupSet) adj groups.
End Validation.

(** ** Depth-first cycle search

    The colours are those of the source: white 0 (absent), gray 1, black 2. *)

Record dfs_state : Type := { dfs_color : gmap string nat; dfs_stack : list string }.

Definition color_of (st : dfs_state) (v : string) : nat := default 0 (dfs_color st !! v).

Fixpoint index_of (v : string) (l : list string) : option nat :=
  match l with
  | [] => None
  | x :: l => if String.eqb x v then Some 0 else S <$> index_of v l
  end.

Definition cycle_error (u v : string) (stack : list string) : DomainError :=
  let cyclePath :=
    match index_of v stack with
    | Some idx => drop idx stack ++ [v]
    | None => [u; v; u]
    end in
  with_cycle cyclePath (NewValidationError "cycle_detected").

Section Search.
Context (adj : adjacency).

(** The loop over the neighbours of [u]; [rec] is the recursive call. *)
Fixpoint visit_neighbors
    (rec : string → dfs_state → option (result DomainError dfs_state))
    (u : string) (vs : list string) (st : dfs_state)
    : option (result DomainError dfs_state) :=
  match vs with
  | [] => Some (Ok st)
  | v :: vs =>
      if color_of st v =? 1 then Some (Err (cycle_error u v (dfs_stack st)))
      else if color_of st v =? 0 then
        match rec v st with
        | Some (Ok st') => visit_neighbors rec u vs st'
        | r => r
        end
      else visit_neighbors rec u vs st
  end.

(** [None]: out of fuel. *)
Fixpoint dfs (fuel : nat) (u : string) (st : dfs_state)
    : option (result DomainError dfs_state) :=
  match fuel with
  | O => None
  | S fuel =>
      let st := {| dfs_color := <[u := 1]> (dfs_color st); dfs_stack := dfs_stack st ++ [u] |} in
      match visit_neighbors (dfs fuel) u (sort_strings (neighbors adj u)) st with
      | Some (Ok st') =>
          Some (Ok {| dfs_color := <[u := 2]> (dfs_color st');
                      dfs_stack := take (length (dfs_stack st') - 1) (dfs_stack st') |})
      | r => r
      end
  end.

Fixpoint dfs_roots (fuel : nat) (ids : list string) (st : dfs_state)
    : option (result DomainError dfs_state) :=
  match ids with
  | [] => Some (Ok st)
  | id :: ids =>
      if color_of st id =? 0 then
        match dfs fuel id st with
        | Some (Ok st') => dfs_roots fuel ids st'
        | r => r
        end
      else dfs_roots fuel ids st
  end.
End Search.

(** One more than the number of groups is enough fuel: every nested call turns
    a white group gray. *)
Definition ValidatePolicyTopology `{GoText} `{RegexEngine} (groups : list NodeGroup)
    (edges : list (string * list GroupEdge)) (rules : list PolicyRule)
    (requireTerminalMatch : bool) : option (result DomainError unit) :=
  match build_adjacency groups edges with
  | Err e => Some (Err e)
  | Ok adj =>
      let groupIDs := sort_strings (map grp_ID groups) in
      match dfs_roots adj (S (length groups)) groupIDs
              {| dfs_color := ∅; dfs_stack := [] |} with
      | None => None
      | Some (Err e) => Some (Err e)
      | Some (Ok _) => Some (ValidatePolicyRules rules (group_set groups) requireTerminalMatch)
      end
  end.

(** ** Correctness of the search *)

(** [refers adj y x]: group [x] has [y] among its neighbours. *)
Definition refers (adj : adjacency) (y x : string) : Prop := y ∈ neighbors adj x.

(** [R y x] reads "[x] refers to [y]": every element refers to the next one. *)
Fixpoint is_path (R : string → string → Prop) (l : list string) : Prop :=
  match l with
  | x :: ((y :: _) as l') => R y x ∧ is_path R l'
  | _ => True
  end.

(** A closed walk of at least one step. *)
Definition is_cycle (R : string → string → Prop) (l : list string) : Prop :=
  is_path R l ∧ 2 ≤ length l ∧ head l = last l.

Section Paths.
Context (R : string → string → Prop).

Lemma is_path_snoc l u v : is_path R (l ++ [u]) → R v u → is_path R (l ++ [u; v]).
Proof.
  induction l as [|x l IH]; simpl; [done|].
  destruct l as [|y l]; simpl in *; naive_solver.
Qed.

Lemma is_path_drop i l : is_path R l → is_path R (drop i l).
Proof.
  revert l. induction i as [|i IH]; intros l Hl; [done|].
  destruct l as [|x l]; [done|]. simpl. apply IH. destruct l; simpl in *; naive_solver.
Qed.

Lemma is_path_mono (R' : string → string → Prop) l :
  (∀ x y, R y x → R' y x) → is_path R l → is_path R' l.
Proof.
  intros HR. induction l as [|x [|y l] IH]; simpl in *; [done..|].
  intros [H1 H2]. split; [by apply HR|by apply IH].
Qed.

(** A group below which every descent ends is on no cycle. *)
Lemma Acc_no_cycle x l : Acc R x → is_path R (x :: l) → last (x :: l) = Some x → l = [].
Proof.
  intros Hacc. revert l. induction Hacc as [x _ IH]. intros [|y l] Hp Hl; [done|].
  exfalso. destruct Hp as [Hyx Hp]. specialize (IH y Hyx (l ++ [y])).
  assert (is_path R (y :: l ++ [y])) as Hc.
  { apply last_Some in Hl as [t Ht]. destruct t as [|z t]; [done|].
    injection Ht as <- Ht.
    change (y :: l ++ [y]) with ((y :: l) ++ [y]). rewrite Ht.
    rewrite <- app_assoc. apply is_path_snoc; [|done]. by rewrite <- Ht. }
  specialize (IH Hc). change (y :: l ++ [y]) with ((y :: l) ++ [y]) in IH.
  rewrite last_snoc in IH. specialize (IH eq_refl). by apply app_nil in IH as [_ ?].
Qed.

Lemma cycle_not_Acc l x : is_cycle R l → head l = Some x → ¬ Acc R x.
Proof.
  intros (Hp & Hlen & Hhl) Hh Hacc. destruct l as [|x' l]; [done|].
  injection Hh as ->. simpl in Hhl. apply (Acc_no_cycle x l) in Hacc; [|done|].
  - subst l. simpl in Hlen. lia.
  - symmetry. exact Hhl.
Qed.
End Paths.

Section SearchCorrect.
Context (adj : adjacency) (nodes : list string).
Hypothesis closed : ∀ u v, u ∈ nodes → v ∈ neighbors adj u → v ∈ nodes.

Lemma index_of_drop v l i : index_of v l = Some i → ∃ t, drop i l = v :: t.
Proof.
  revert i. induction l as [|x l IH]; intros i; simpl; [done|].
  destruct (String.eqb_spec x v) as [->|]; [intros [= <-]; by exists l|].
  destruct (index_of v l) as [j|]; [|done]. intros [= <-]. by apply IH.
Qed.

Lemma index_of_Some v l : v ∈ l → is_Some (index_of v l).
Proof.
  induction l as [|x l IH]; simpl; [by intros ?%elem_of_nil|].
  destruct (String.eqb_spec x v) as [->|Hne]; [done|].
  intros [->|[j ->]%IH]%elem_of_cons; done.
Qed.

(** The reported path is a cycle of the graph. *)
Lemma cycle_error_real u v s :
  is_path (refers adj) (s ++ [u]) → v ∈ s ++ [u] → refers adj v u →
  is_cycle (refers adj) (err_CyclePath (cycle_error u v (s ++ [u]))).
Proof.
  intros Hp Hv Hr. destruct (index_of_Some v _ Hv) as [i Hi].
  unfold cycle_error. rewrite Hi. cbn [err_CyclePath with_cycle].
  destruct (index_of_drop v _ _ Hi) as [t Ht].
  assert (i ≤ length s) as Hle.
  { destruct (decide (i ≤ length s)); [done|].
    rewrite drop_ge in Ht; [done|]. rewrite length_app. simpl. lia. }
  apply (is_path_drop _ i) in Hp.
  rewrite drop_app_le in Ht, Hp by done. rewrite drop_app_le by done.
  rewrite <- app_assoc. split_and!.
  - by apply is_path_snoc.
  - rewrite !length_app. simpl. lia.
  - change ([u] ++ [v]) with ([u; v]). destruct (drop i s) as [|y d] eqn:E.
    + simpl in *. by injection Ht as -> <-.
    + simpl in *. injection Ht as -> _.
      change (v :: d ++ [u; v]) with ((v :: d) ++ [u] ++ [v]).
      by rewrite app_assoc, last_snoc.
Qed.

Definition whites (st : dfs_state) : nat :=
  length (filter (λ v, color_of st v = 0) nodes).

Record dfs_inv (st : dfs_state) : Prop := {
  inv_black : ∀ x, color_of st x = 2 → Acc (refers adj) x;
  inv_gray : ∀ x, color_of st x = 1 ↔ x ∈ dfs_stack st;
  inv_range : ∀ x, color_of st x ≤ 2;
  inv_path : is_path (refers adj) (dfs_stack st)
}.

(** What a successful call may change: white groups turn black. *)
Definition blackens (st st' : dfs_state) : Prop :=
  dfs_inv st' ∧ dfs_stack st' = dfs_stack st ∧
  ∀ x, color_of st x ≠ 0 → color_of st' x = color_of st x.

Definition dfs_post (st : dfs_state) (done : list string)
    (o : option (result DomainError dfs_state)) : Prop :=
  match o with
  | None => False
  | Some (Err e) => is_cycle (refers adj) (err_CyclePath e) ∧ err_Code e = "cycle_detected"
  | Some (Ok st') => blackens st st' ∧ ∀ v, v ∈ done → color_of st' v = 2
  end.

Lemma blackens_refl st : dfs_inv st → blackens st st.
Proof. intros Hi. split; [exact Hi | split; [done|] ]. done. Qed.

Lemma blackens_trans st1 st2 st3 : blackens st1 st2 → blackens st2 st3 → blackens st1 st3.
Proof.
  intros (_ & Hs & Hc) (Hi' & Hs' & Hc'). split_and!; [done|congruence|].
  intros x Hx. rewrite Hc'; rewrite Hc; done.
Qed.

Lemma blackens_whites st st' : blackens st st' → whites st' ≤ whites st.
Proof.
  intros (_ & _ & Hc). unfold whites. clear closed.
  induction nodes as [|x l IH]; [done|]. rewrite !filter_cons.
  specialize (Hc x).
  repeat case_decide; simpl; try lia.
Qed.

Lemma color_insert st s c u x :
  color_of {| dfs_color := <[u := c]> (dfs_color st); dfs_stack := s |} x =
  if decide (u = x) then c else color_of st x.
Proof. unfold color_of. simpl. rewrite lookup_insert. by case_decide. Qed.

Lemma gray_whites st s u :
  u ∈ nodes → color_of st u = 0 →
  S (whites {| dfs_color := <[u := 1]> (dfs_color st); dfs_stack := s |}) ≤ whites st.
Proof.
  intros Hu Hw. unfold whites. clear closed. induction nodes as [|x l IH].
  { by apply elem_of_nil in Hu. }
  rewrite !filter_cons, color_insert.
  assert (∀ l, length (filter (λ v, color_of
     {| dfs_color := <[u := 1]> (dfs_color st); dfs_stack := s |} v = 0) l) ≤
     length (filter (λ v, color_of st v = 0) l)) as Hmono.
  { clear. induction l as [|x l IH]; [done|]. rewrite !filter_cons, color_insert.
    repeat case_decide; simpl; subst; try lia; congruence. }
  apply elem_of_cons in Hu as [<-|Hu].
  - rewrite (decide_True _ _ (eq_refl u)).
    rewrite decide_False by lia. rewrite decide_True by done. simpl.
    specialize (Hmono l). lia.
  - specialize (IH Hu). repeat case_decide; simpl; subst; try lia; congruence.
Qed.

Lemma visit_correct rec fuel u s vs st :
  (∀ v st, v ∈ nodes → color_of st v = 0 → whites st ≤ fuel → dfs_inv st →
     (∀ t w, dfs_stack st = t ++ [w] → refers adj v w) → dfs_post st [v] (rec v st)) →
  u ∈ nodes → (∀ v, v ∈ vs → v ∈ neighbors adj u) →
  dfs_inv st → dfs_stack st = s ++ [u] → whites st ≤ fuel →
  dfs_post st vs (visit_neighbors rec u vs st).
Proof.
  intros Hrec Hu. revert st. induction vs as [|v vs IH]; intros st Hvs Hi Hst Hw; simpl.
  { split; [by apply blackens_refl|]. set_solver. }
  assert (refers adj v u) as Hr by (apply Hvs; set_solver).
  destruct (Nat.eqb_spec (color_of st v) 1) as [H1|H1].
  { rewrite Hst. simpl. split; [|done]. apply cycle_error_real; [| |done].
    - rewrite <- Hst. by apply inv_path.
    - rewrite <- Hst. by apply inv_gray. }
  destruct (Nat.eqb_spec (color_of st v) 0) as [H0|H0].
  - assert (v ∈ nodes) as Hvn by eauto.
    specialize (Hrec v st Hvn H0 Hw Hi).
    destruct (rec v st) as [[st'|e]|]; simpl in Hrec.
    + destruct Hrec as [Hb Hv].
      { intros t w Ht. rewrite Hst in Ht. apply app_inj_tail in Ht as [_ ->]. done. }
      pose proof (blackens_whites _ _ Hb) as Hw'. destruct Hb as (Hi' & Hs' & Hc').
      specialize (IH st' ltac:(set_solver) Hi' ltac:(congruence) ltac:(lia)).
      destruct (visit_neighbors rec u vs st') as [[st''|e]|]; simpl in *; [|done..].
      destruct IH as [Hb' Hvs']. split; [by eapply blackens_trans|].
      intros x [->|Hx]%elem_of_cons; [|auto].
      destruct Hb' as (_ & _ & Hc''). rewrite Hc''; rewrite (Hv v); set_solver.
    + apply Hrec. intros t w Ht. rewrite Hst in Ht. apply app_inj_tail in Ht as [_ ->]. done.
    + apply Hrec. intros t w Ht. rewrite Hst in Ht. apply app_inj_tail in Ht as [_ ->]. done.
  - specialize (IH st ltac:(set_solver) Hi Hst Hw).
    destruct (visit_neighbors rec u vs st) as [[st'|e]|]; simpl in *; [|done..].
    destruct IH as [Hb Hvs']. split; [done|].
    intros x [->|Hx]%elem_of_cons; [|auto].
    destruct Hb as (_ & _ & Hc). rewrite Hc by done. pose proof (inv_range _ Hi v). lia.
Qed.

Lemma gray_step_inv u st :
  dfs_inv st → color_of st u = 0 →
  (∀ t w, dfs_stack st = t ++ [w] → refers adj u w) →
  dfs_inv {| dfs_color := <[u := 1]> (dfs_color st); dfs_stack := dfs_stack st ++ [u] |}.
Proof.
  intros Hi Hw Hlast. split; cbn [dfs_stack].
  - intros x. rewrite color_insert. case_decide; [done|]. apply (inv_black _ Hi).
  - intros x. rewrite color_insert. rewrite elem_of_app, list_elem_of_singleton.
    rewrite <- (inv_gray _ Hi x). case_decide; naive_solver.
  - intros x. rewrite color_insert. case_decide; [lia|]. apply (inv_range _ Hi).
  - destruct (dfs_stack st) as [|w t] eqn:E using rev_ind; [done|].
    rewrite <- app_assoc. apply is_path_snoc; [|by eapply Hlast].
    rewrite <- E. apply (inv_path _ Hi).
Qed.

Lemma black_step u s st st' :
  u ∈ nodes → color_of st u = 0 → dfs_stack st = s →
  blackens {| dfs_color := <[u := 1]> (dfs_color st); dfs_stack := s ++ [u] |} st' →
  (∀ v, v ∈ neighbors adj u → color_of st' v = 2) → dfs_inv st →
  blackens st {| dfs_color := <[u := 2]> (dfs_color st');
                 dfs_stack := take (length (dfs_stack st') - 1) (dfs_stack st') |}.
Proof.
  intros Hu Hw Hst (Hi' & Hs' & Hc') Hn Hi. cbn [dfs_stack] in Hs'.
  assert (take (length (dfs_stack st') - 1) (dfs_stack st') = s) as Htake.
  { rewrite Hs', length_app. simpl. rewrite Nat.add_sub. apply take_app_length. }
  rewrite Htake.
  assert (Acc (refers adj) u) as Hacc.
  { constructor. intros v Hv. by apply (inv_black _ Hi'), Hn. }
  split_and!.
  - split; cbn [dfs_stack].
    + intros x. rewrite color_insert. case_decide; [by subst|]. apply (inv_black _ Hi').
    + intros x. rewrite color_insert. case_decide as Hx.
      * subst x. split; [done|]. rewrite <- Hst. intros Hin%(inv_gray _ Hi). lia.
      * rewrite (inv_gray _ Hi'), Hs', elem_of_app, list_elem_of_singleton. naive_solver.
    + intros x. rewrite color_insert. case_decide; [lia|]. apply (inv_range _ Hi').
    + rewrite <- Hst. apply (inv_path _ Hi).
  - done.
  - intros x Hx. rewrite color_insert. rewrite decide_False by (intros ->; lia).
    assert (u ≠ x) by (intros ->; lia).
    rewrite Hc'; rewrite color_insert, decide_False by done; done.
Qed.

(** One call: with as much fuel as there are white groups it returns, every
    group it finishes has no infinite descent, and an error is a real cycle. *)
Lemma dfs_correct fuel u st :
  u ∈ nodes → color_of st u = 0 → whites st ≤ fuel → dfs_inv st →
  (∀ t w, dfs_stack st = t ++ [w] → refers adj u w) →
  dfs_post st [u] (dfs adj fuel u st).
Proof.
  revert u st. induction fuel as [|fuel IH]; intros u st Hu Hw Hf Hi Hlast.
  { pose proof (gray_whites st [] u Hu Hw). lia. }
  simpl. set (st1 := {| dfs_color := _; dfs_stack := _ |}).
  pose proof (gray_whites st (dfs_stack st ++ [u]) u Hu Hw) as Hg.
  pose proof (visit_correct (dfs adj fuel) fuel u (dfs_stack st)
    (sort_strings (neighbors adj u)) st1 IH Hu) as Hv.
  specialize (Hv ltac:(by intros v; rewrite elem_of_sort_strings)
    (gray_step_inv u st Hi Hw Hlast) eq_refl ltac:(unfold st1; lia)).
  destruct (visit_neighbors _ _ _ _) as [[st'|e]|]; simpl in *; [|done..].
  destruct Hv as [Hb Hn]. split.
  - eapply black_step; try done. intros v Hv'. apply Hn. by rewrite elem_of_sort_strings.
  - intros v ->%list_elem_of_singleton. rewrite color_insert. by rewrite decide_True.
Qed.

Lemma dfs_roots_correct fuel ids st :
  (∀ id, id ∈ ids → id ∈ nodes) → whites st ≤ fuel → dfs_inv st → dfs_stack st = [] →
  dfs_post st ids (dfs_roots adj fuel ids st).
Proof.
  revert st. induction ids as [|id ids IH]; intros st Hids Hf Hi Hst; simpl.
  { split; [by apply blackens_refl|]. set_solver. }
  destruct (Nat.eqb_spec (color_of st id) 0) as [H0|H0].
  - pose proof (dfs_correct fuel id st ltac:(set_solver) H0 Hf Hi) as Hd.
    rewrite Hst in Hd. specialize (Hd ltac:(by intros [] ?)).
    destruct (dfs adj fuel id st) as [[st'|e]|]; simpl in Hd; [|done..].
    destruct Hd as [Hb Hid]. pose proof (blackens_whites _ _ Hb).
    destruct Hb as (Hi' & Hs' & Hc').
    specialize (IH st' ltac:(set_solver) ltac:(lia) Hi' ltac:(congruence)).
    destruct (dfs_roots adj fuel ids st') as [[st''|e]|]; simpl in *; [|done..].
    destruct IH as [Hb' Hids']. split; [by eapply blackens_trans|].
    intros x [->|Hx]%elem_of_cons; [|auto].
    destruct Hb' as (_ & _ & Hc''). rewrite Hc''; rewrite (Hid id); set_solver.
  - assert (color_of st id = 2).
    { pose proof (inv_range _ Hi id). destruct (decide (color_of st id = 1)) as [H1|H1]; [|lia].
      apply (inv_gray _ Hi) in H1. rewrite Hst in H1. by apply elem_of_nil in H1. }
    specialize (IH st ltac:(set_solver) Hf Hi Hst).
    destruct (dfs_roots adj fuel ids st) as [[st'|e]|]; simpl in *; [|done..].
    destruct IH as [Hb Hids']. split; [done|].
    intros x [->|Hx]%elem_of_cons; [|auto].
    destruct Hb as (_ & _ & Hc). by rewrite Hc.
Qed.
End SearchCorrect.

(** ** The references of a policy *)

(** [child_of groups edges y x]: group [x] refers to [y] through one of its
    sources or one of its legacy edges. *)
Definition child_of (groups : list NodeGroup) (edges : list (string * list GroupEdge))
    (y x : string) : Prop :=
  (∃ g s, g ∈ groups ∧ grp_ID g = x ∧ s ∈ grp_Sources g ∧ source_target s = Some y) ∨
  (∃ es e, (x, es) ∈ edges ∧ e ∈ es ∧ has_ptr (edge_ChildGroupID e) = true ∧
     y = deref (edge_ChildGroupID e)).

Section Adjacency.
Context `{GoText} `{RegexEngine}.

Lemma neighbors_add adj u v x :
  neighbors (add_neighbor adj u v) x =
  if decide (u = x) then neighbors adj u ++ [v] else neighbors adj x.
Proof. unfold neighbors, add_neighbor. rewrite lookup_insert. by case_decide. Qed.

Definition adj_le (a b : adjacency) : Prop := ∀ x y, y ∈ neighbors a x → y ∈ neighbors b x.
#[local] Instance adj_le_preorder : PreOrder adj_le.
Proof.
  split.
  - by intros a x y.
  - intros a b c Hab Hbc x y Hy. by apply Hbc, Hab.
Qed.

Lemma add_neighbor_le adj u v :
  adj_le adj (add_neighbor adj u v) ∧ v ∈ neighbors (add_neighbor adj u v) u.
Proof.
  split.
  - intros x y Hy. rewrite neighbors_add. case_decide; [subst; set_solver|done].
  - rewrite neighbors_add, decide_True by done. set_solver.
Qed.

Lemma check_reference_ok gs p c :
  check_reference gs p c = Ok tt ↔ c ≠ p ∧ c ∈ gs.
Proof.
  unfold check_reference, invalid_if, reject_if.
  destruct (String.eqb_spec c p); [naive_solver|]. case_bool_decide; naive_solver.
Qed.

(** What the accumulated lists contain is a checked reference. *)
Definition adj_sound (gs : gset string) (groups : list NodeGroup)
    (edges : list (string * list GroupEdge)) (adj : adjacency) : Prop :=
  ∀ x y, y ∈ neighbors adj x → x ∈ gs ∧ y ∈ gs ∧ y ≠ x ∧ child_of groups edges y x.

Lemma adj_sound_add gs groups edges adj u v :
  adj_sound gs groups edges adj → u ∈ gs → v ∈ gs → v ≠ u → child_of groups edges v u →
  adj_sound gs groups edges (add_neighbor adj u v).
Proof.
  intros Hs Hu Hv Hne Hc x y. rewrite neighbors_add. case_decide; [subst x|apply Hs].
  rewrite elem_of_app, list_elem_of_singleton. intros [Hy| ->]; [by apply Hs|done].
Qed.

Lemma add_edge_step gs p adj e adj' :
  add_edge gs p adj e = Ok adj' →
  adj' = adj ∧ has_ptr (edge_ChildGroupID e) = false ∨
  adj' = add_neighbor adj p (deref (edge_ChildGroupID e)) ∧
  has_ptr (edge_ChildGroupID e) = true ∧
  deref (edge_ChildGroupID e) ≠ p ∧ deref (edge_ChildGroupID e) ∈ gs.
Proof.
  unfold add_edge. cbn [edge_ChildGroupID]. intros Hk.
  destruct (ValidateGroupEdge _); [|done].
  destruct (has_ptr (edge_ChildGroupID e)).
  - right. destruct (check_reference _ _ _) as [[]|] eqn:Hc; [|done].
    apply check_reference_ok in Hc. by injection Hk as <-.
  - left. by injection Hk as <-.
Qed.

Lemma add_source_step gs gid adj s adj' :
  add_source gs gid adj s = Ok adj' →
  adj' = adj ∧ source_target s = None ∨
  ∃ c, source_target s = Some c ∧ adj' = add_neighbor adj gid c ∧ c ≠ gid ∧ c ∈ gs.
Proof.
  unfold add_source. destruct (ValidateMemberSource s); [|done].
  destruct (source_target s) as [c|]; [|intros [= <-]; by left].
  destruct (check_reference _ _ _) as [[]|] eqn:Hc; [|done].
  apply check_reference_ok in Hc. intros [= <-]. right. by exists c.
Qed.

Lemma build_adjacency_sound groups edges adj :
  build_adjacency groups edges = Ok adj →
  adj_sound (group_set groups) groups edges adj.
Proof.
  unfold build_adjacency. destruct (for_each _ _) as [[]|]; [|done].
  destruct (fold_res (add_edges _) ∅ edges) as [adj0|] eqn:He; [|done].
  assert (adj_sound (group_set groups) groups edges adj0) as Hs0.
  { revert He. apply fold_res_inv.
    - intros x y. unfold neighbors. rewrite lookup_empty. by intros ?%elem_of_nil.
    - intros a [p es] a' Hin Ha. unfold add_edges. simpl.
      unfold invalid_if, reject_if. case_bool_decide as Hp; simpl; [|done].
      apply fold_res_inv; [done|]. intros b e b' He Hb Hstep.
      apply add_edge_step in Hstep as [[-> _]|(-> & Hptr & Hne & Hc)]; [done|].
      apply adj_sound_add; try done. right. by exists es, e. }
  apply fold_res_inv; [done|]. intros a g a' Hg Ha.
  apply fold_res_inv; [done|]. intros b s b' Hsrc Hb Hstep.
  apply add_source_step in Hstep as [[-> _]|(c & Ht & -> & Hne & Hc)]; [done|].
  apply adj_sound_add; try done.
  - unfold group_set. apply elem_of_list_to_set, list_elem_of_fmap. by exists g.
  - left. by exists g, s.
Qed.

Lemma build_adjacency_complete groups edges adj x y :
  build_adjacency groups edges = Ok adj → child_of groups edges y x → refers adj y x.
Proof.
  unfold build_adjacency. destruct (for_each _ _) as [[]|]; [|done].
  destruct (fold_res (add_edges _) ∅ edges) as [adj0|] eqn:He; [|done]. intros Hs.
  apply (fold_res_each adj_le (λ entry a, ∀ e, e ∈ entry.2 →
    has_ptr (edge_ChildGroupID e) = true →
    refers a (deref (edge_ChildGroupID e)) entry.1)) in He as [_ He]; [|apply _| |].
  2: { intros a [p es] a'. unfold add_edges. simpl.
       destruct (invalid_if _ _) as [[]|]; [|done]. intros Hf.
       apply (fold_res_each adj_le (λ e a, has_ptr (edge_ChildGroupID e) = true →
         refers a (deref (edge_ChildGroupID e)) p)) in Hf; [done|apply _| |].
       - intros b e b' [[-> Hf']|(-> & _)]%add_edge_step; [|by split; intros; apply add_neighbor_le].
         split; [reflexivity|congruence].
       - unfold refers, adj_le. naive_solver. }
  2: { unfold refers, adj_le. naive_solver. }
  apply (fold_res_each adj_le (λ g a, ∀ s c, s ∈ grp_Sources g → source_target s = Some c →
    refers a c (grp_ID g))) in Hs as [Hle Hs]; [|apply _| |].
  2: { intros a g a' Hf.
       apply (fold_res_each adj_le (λ s a, ∀ c, source_target s = Some c →
         refers a c (grp_ID g))) in Hf as [? Hf]; [naive_solver|apply _| |].
       - intros b s b' [[-> Hn]|(c & Ht & -> & _)]%add_source_step.
         + split; [reflexivity|congruence].
         + split; [apply add_neighbor_le|]. rewrite Ht. intros ? [= <-]. apply add_neighbor_le.
       - unfold refers, adj_le. naive_solver. }
  2: { unfold refers, adj_le. naive_solver. }
  intros [(g & s & Hg & <- & Hin & Ht)|(es & e & Hin & He' & Hp & ->)].
  - by apply (Hs g Hg s).
  - apply Hle. by apply (He (x, es) Hin).
Qed.

(** Every source of every group has passed its own checks. *)
Lemma build_adjacency_sources groups edges adj g s :
  build_adjacency groups edges = Ok adj → g ∈ groups → s ∈ grp_Sources g →
  ValidateMemberSource s = Ok tt.
Proof.
  unfold build_adjacency. destruct (for_each _ _); [|done].
  destruct (fold_res _ ∅ edges) as [adj0|]; [|done]. intros Hf Hg Hs.
  destruct (fold_res_visits _ _ _ _ _ Hf Hg) as (a0 & a1 & Hg').
  destruct (fold_res_visits _ _ _ _ _ Hg' Hs) as (a2 & a3 & Hs').
  unfold add_source in Hs'. by destruct (ValidateMemberSource s) as [[]|].
Qed.

(** The outcome of the whole search on a well-formed graph. *)
Lemma search_outcome groups edges adj :
  build_adjacency groups edges = Ok adj →
  (∃ st, dfs_roots adj (S (length groups)) (sort_strings (map grp_ID groups))
      {| dfs_color := ∅; dfs_stack := [] |} = Some (Ok st) ∧
    ∀ g, g ∈ groups → Acc (refers adj) (grp_ID g)) ∨
  (∃ e, dfs_roots adj (S (length groups)) (sort_strings (map grp_ID groups))
      {| dfs_color := ∅; dfs_stack := [] |} = Some (Err e) ∧
    is_cycle (refers adj) (err_CyclePath e) ∧ err_Code e = "cycle_detected").
Proof.
  intros Hb. pose proof (build_adjacency_sound _ _ _ Hb) as Hs.
  pose proof (dfs_roots_correct adj (map grp_ID groups)) as Hd.
  set (st0 := {| dfs_color := ∅; dfs_stack := [] |}) in *.
  specialize (Hd ltac:(intros u v _ Hv; apply Hs in Hv as (_ & Hv & _);
    by apply elem_of_list_to_set in Hv)).
  specialize (Hd (S (length groups)) (sort_strings (map grp_ID groups)) st0).
  assert (∀ x, color_of st0 x = 0) as Hz
    by (intros x; unfold color_of, st0; simpl; by rewrite lookup_empty).
  specialize (Hd ltac:(by intros id; rewrite elem_of_sort_strings)).
  assert (whites (map grp_ID groups) st0 ≤ S (length groups)) as Hw.
  { unfold whites. etrans; [apply length_filter|]. rewrite length_map. lia. }
  assert (dfs_inv adj st0) as Hi.
  { split; try (intros x; rewrite Hz); try done; [|lia].
    split; [done|]. by intros ?%elem_of_nil. }
  specialize (Hd Hw Hi eq_refl).
  destruct (dfs_roots _ _ _ _) as [[st|e]|]; simpl in Hd; [left|right|done].
  - exists st. split; [done|]. intros g Hg. destruct Hd as [(Hi' & _ & _) Hd].
    apply (inv_black _ _ Hi'), Hd. rewrite elem_of_sort_strings.
    apply list_elem_of_fmap. by exists g.
  - by exists e.
Qed.
End Adjacency.

(** ** Properties of the validator *)

(** Validation always reaches a verdict: with one unit of fuel per group and
    one to spare, the depth-first search never runs out, on any groups, edges
    and rules. *)
Theorem topology_validation_terminates `{GoText} `{RegexEngine} (groups : list NodeGroup)
    (edges : list (string * list GroupEdge)) (rules : list PolicyRule) (req : bool) :
  is_Some (ValidatePolicyTopology groups edges rules req).
Proof.
  unfold ValidatePolicyTopology. destruct (build_adjacency groups edges) as [adj|e] eqn:Hb; [|done].
  by destruct (search_outcome _ _ _ Hb) as [(st & -> & _)|(e & -> & _)].
Qed.

(** What an accepted policy guarantees. *)
Lemma validated_topology `{GoText} `{RegexEngine} groups edges rules req :
  ValidatePolicyTopology groups edges rules req = Some (Ok tt) →
  ∃ adj, build_adjacency groups edges = Ok adj ∧
    (∀ g, g ∈ groups → Acc (child_of groups edges) (grp_ID g)) ∧
    (∀ x y, child_of groups edges y x →
       x ∈ group_set groups ∧ y ∈ group_set groups ∧ y ≠ x) ∧
    ValidatePolicyRules rules (group_set groups) req = Ok tt.
Proof.
  unfold ValidatePolicyTopology. destruct (build_adjacency groups edges) as [adj|e] eqn:Hb; [|done].
  pose proof (build_adjacency_sound _ _ _ Hb) as Hs.
  destruct (search_outcome _ _ _ Hb) as [(st & -> & Hacc)|(e & -> & _)]; [|done].
  intros [= Hr]. exists adj.
  assert (∀ x y, child_of groups edges y x → refers adj y x) as Hin
    by (intros x y; by apply build_adjacency_complete).
  assert (∀ x, Acc (refers adj) x → Acc (child_of groups edges) x) as Hmono.
  { induction 1 as [x _ IH]. constructor. intros y Hy. by apply IH, Hin. }
  split; [done|]. split; [by intros g Hg; apply Hmono, Hacc|]. split; [|done].
  intros x y Hc%Hin. apply Hs in Hc. naive_solver.
Qed.

(** C31. A policy graph that validation accepts has no cycles: from every group,
    following group references ends; every reference points to another group of
    the policy; and so no group is reachable from itself. *)
Theorem topology_validation_sound `{GoText} `{RegexEngine} (groups : list NodeGroup)
    (edges : list (string * list GroupEdge)) (rules : list PolicyRule) (req : bool) :
  ValidatePolicyTopology groups edges rules req = Some (Ok tt) →
  (∀ g, g ∈ groups → Acc (child_of groups edges) (grp_ID g)) ∧
  (∀ x y, child_of groups edges y x → x ∈ group_set groups ∧ y ∈ group_set groups ∧ y ≠ x) ∧
  (∀ l, ¬ is_cycle (child_of groups edges) l).
Proof.
  intros (adj & _ & Hacc & Hcheck & _)%validated_topology. split; [done|]. split; [done|].
  intros l Hl. destruct l as [|x [|y l]]; [by destruct Hl as (_ & ? & _); simpl in *; lia..|].
  assert (x ∈ group_set groups) as Hx
    by (destruct Hl as ((Hyx & _) & _); by destruct (Hcheck _ _ Hyx)).
  unfold group_set in Hx. apply elem_of_list_to_set, list_elem_of_fmap in Hx as (g & -> & Hg).
  by eapply (cycle_not_Acc _ _ _ Hl eq_refl), Hacc.
Qed.

(** A cycle is always reported, and what is reported is one: when the groups
    and their references are well formed but some closed walk of references
    exists, validation fails with [cycle_detected] and the path in the error is
    itself a closed walk of references of this policy. *)
Theorem topology_validation_reports_cycles `{GoText} `{RegexEngine} (groups : list NodeGroup)
    (edges : list (string * list GroupEdge)) (rules : list PolicyRule) (req : bool)
    (adj : adjacency) (l : list string) :
  build_adjacency groups edges = Ok adj → is_cycle (child_of groups edges) l →
  ∃ e, ValidatePolicyTopology groups edges rules req = Some (Err e) ∧
    err_Code e = "cycle_detected" ∧ is_cycle (child_of groups edges) (err_CyclePath e).
Proof.
  intros Hb Hl. unfold ValidatePolicyTopology. rewrite Hb.
  pose proof (build_adjacency_sound _ _ _ Hb) as Hs.
  assert (is_cycle (refers adj) l) as Hl'.
  { destruct Hl as (Hp & ? & ?). split_and!; [|done..]. revert Hp.
    apply is_path_mono. intros x y. by apply build_adjacency_complete. }
  destruct (search_outcome _ _ _ Hb) as [(st & -> & Hacc)|(e & -> & Hc & Hcode)].
  - exfalso. destruct l as [|x [|y l]]; [by destruct Hl as (_ & ? & _); simpl in *; lia..|].
    assert (x ∈ group_set groups) as Hx
      by (destruct Hl' as ((Hyx & _) & _); apply Hs in Hyx; naive_solver).
    unfold group_set in Hx. apply elem_of_list_to_set, list_elem_of_fmap in Hx as (g & -> & Hg).
    by eapply (cycle_not_Acc _ _ _ Hl' eq_refl), Hacc.
  - exists e. split; [done|]. split; [done|].
    destruct Hc as (Hp & ? & ?). split; [|by split]. revert Hp.
    apply is_path_mono. intros x y Hxy. by apply Hs in Hxy as (_ & _ & _ & ?).
Qed.

Section RuleLemmas.
Context `{GoText}.

Definition is_match (r : PolicyRule) : Prop := IsMatchRule (rule_Expression r) = true.
#[global] Instance is_match_dec r : Decision (is_match r).
Proof. unfold is_match. apply _. Defined.

Lemma match_indices_length i rs :
  length (match_indices i rs) = length (filter is_match rs).
Proof.
  revert i. induction rs as [|r rs IH]; intros i; [done|]. simpl.
  rewrite filter_cons. destruct (decide (is_match r)) as [Hm|Hm]; unfold is_match in Hm.
  - by rewrite Hm; simpl; rewrite IH.
  - by rewrite (not_true_is_false _ Hm).
Qed.

Lemma match_indices_elem i rs k :
  k ∈ match_indices i rs ↔ ∃ r, rs !! (k - i) = Some r ∧ i ≤ k ∧ is_match r.
Proof.
  revert i. induction rs as [|r rs IH]; intros i; simpl.
  - split; [by intros ?%elem_of_nil|]. rewrite lookup_nil. naive_solver.
  - assert ((∃ r', rs !! (k - S i) = Some r' ∧ S i ≤ k ∧ is_match r') ↔
      ∃ r', (r :: rs) !! (k - i) = Some r' ∧ i < k ∧ is_match r') as Hsh.
    { split; intros (r' & Hr & Hle & Hm); exists r'; split_and!; try done; try lia.
      - replace (k - i) with (S (k - S i)) by lia. done.
      - replace (k - i) with (S (k - S i)) in Hr by lia. done. }
    assert (i = k → (r :: rs) !! (k - i) = Some r) as Hz
      by (intros ->; by rewrite Nat.sub_diag).
    destruct (IsMatchRule (rule_Expression r)) eqn:Hm.
    + rewrite elem_of_cons, IH, Hsh. split.
      * intros [<-|(r' & ? & ? & ?)]; [exists r; auto with lia|exists r'; auto with lia].
      * intros (r' & Hr & Hle & Hm'). destruct (decide (k = i)) as [->|]; [by left|].
        right. exists r'. auto with lia.
    + rewrite IH, Hsh. split.
      * intros (r' & ? & ? & ?). exists r'. auto with lia.
      * intros (r' & Hr & Hle & Hm'). destruct (decide (i = k)) as [->|].
        -- rewrite Hz in Hr by done. injection Hr as ->. unfold is_match in Hm'. congruence.
        -- exists r'. auto with lia.
Qed.

Lemma validate_rule_ok gs r :
  validate_rule gs r = Ok tt ↔
  TrimSpace (rule_Expression r) ≠ "" ∧ (0 ≤ rule_Position r)%Z ∧
  (gs ≠ ∅ → rule_TargetGroupID r ∈ gs).
Proof.
  unfold validate_rule, invalid_if, reject_if.
  destruct (String.eqb_spec (TrimSpace (rule_Expression r)) ""); [naive_solver|].
  destruct (Z.ltb_spec (rule_Position r) 0); [naive_solver lia|].
  destruct (decide (gs = ∅)) as [->|Hne].
  { rewrite bool_decide_eq_true_2 by done. naive_solver. }
  rewrite (bool_decide_eq_false_2 (gs = ∅)) by done.
  case_bool_decide; naive_solver.
Qed.
End RuleLemmas.

(** The rule list is accepted exactly when every expression is non-blank,
    every position is non-negative, every target exists (if there are groups at
    all), at most one rule is a MATCH/FINAL rule and, when a terminal MATCH is
    required, that rule is the last one in position order. *)
Theorem policy_rules_accepted `{GoText} (rules : list PolicyRule) (gs : gset string)
    (req : bool) :
  ValidatePolicyRules rules gs req = Ok tt ↔
  (∀ r, r ∈ rules → TrimSpace (rule_Expression r) ≠ "" ∧ (0 ≤ rule_Position r)%Z ∧
     (gs ≠ ∅ → rule_TargetGroupID r ∈ gs)) ∧
  length (filter is_match rules) ≤ 1 ∧
  (req = true → ∀ r, r ∈ rules → is_match r →
     ∃ r', last (sort_rules rules) = Some r' ∧ is_match r').
Proof.
  unfold ValidatePolicyRules.
  destruct (Nat.eqb_spec (length rules) 0) as [Hnil|Hnil].
  { apply nil_length_inv in Hnil as ->. split; [|done]. intros _.
    split_and!; [set_solver|simpl; lia|set_solver]. }
  pose proof (for_each_ok (validate_rule gs) (sort_rules rules)) as Heach.
  setoid_rewrite validate_rule_ok in Heach. unfold sort_rules in Heach at 2.
  setoid_rewrite elem_of_sort_stable in Heach.
  assert (length (match_indices 0 (sort_rules rules)) = length (filter is_match rules)) as Hlen.
  { rewrite match_indices_length. unfold sort_rules. by rewrite sort_stable_perm. }
  pose proof (match_indices_elem 0 (sort_rules rules)) as Hidx.
  assert (∀ r, r ∈ rules → is_match r → ∃ k, k ∈ match_indices 0 (sort_rules rules)) as Hhas.
  { intros r Hr Hm. assert (r ∈ sort_rules rules) as Hr'
      by (unfold sort_rules; by rewrite elem_of_sort_stable).
    apply list_elem_of_lookup in Hr' as [k Hk]. exists k. apply Hidx. exists r.
    rewrite Nat.sub_0_r. auto with lia. }
  rewrite last_lookup, <- Nat.sub_1_r. rewrite <- Hlen, <- Heach. clear Heach Hlen.
  destruct (for_each _ _) as [[]|]; [|naive_solver].
  destruct (match_indices 0 (sort_rules rules)) as [|k [|k' ks]] eqn:Hm; simpl.
  - split; [|done]. intros _. split_and!; [done|lia|].
    intros _ r Hr Hmr. destruct (Hhas r Hr Hmr) as [k Hk]. by apply elem_of_nil in Hk.
  - rewrite invalid_if_ok. split.
    + intros Hreq. split_and!; [done|lia|]. intros -> r _ _. simpl in Hreq.
      apply negb_false_iff, Nat.eqb_eq in Hreq as ->.
      destruct (proj1 (Hidx (length (sort_rules rules) - 1))) as (r' & Hr' & _ & Hm');
        [set_solver|]. rewrite Nat.sub_0_r in Hr'. by exists r'.
    + intros (_ & _ & Hreq). destruct req; [simpl|done]. apply negb_false_iff, Nat.eqb_eq.
      destruct (proj1 (Hidx k)) as (r & Hr & _ & Hmr); [set_solver|].
      rewrite Nat.sub_0_r in Hr. assert (r ∈ rules) as Hin.
      { apply list_elem_of_lookup_2 in Hr. unfold sort_rules in Hr.
        by rewrite elem_of_sort_stable in Hr. }
      destruct (Hreq eq_refl r Hin Hmr) as (r' & Hr' & Hm').
      assert (length (sort_rules rules) - 1 ∈ [k]) as Hk
        by (apply Hidx; exists r'; rewrite Nat.sub_0_r; auto with lia).
      by apply list_elem_of_singleton in Hk.
  - split; [done|]. intros (_ & ? & _). lia.
Qed.

(** ** The legacy view of member sources

    [policy_sources.go]: old clients read a group's members as edges and write
    them back as edges plus one node filter. *)

Definition legacy_edge_kind (k : string) : bool :=
  String.eqb k SourceKindGroupRef || String.eqb k SourceKindManualNode.

Fixpoint ProjectSourceEdges (sources : list MemberSource) : list GroupEdge :=
  match sources with
  | [] => []
  | s :: sources =>
      if negb (String.eqb (src_Operation s) OperationAdd) then ProjectSourceEdges sources
      else if negb (legacy_edge_kind (src_Kind s)) then ProjectSourceEdges sources
      else
        {| edge_ID := src_ID s; edge_ParentGroupID := src_GroupID s;
           edge_ChildGroupID := src_TargetGroupID s;
           edge_NodeLogicalID := src_NodeLogicalID s; edge_Position := src_Position s |}
        :: ProjectSourceEdges sources
  end.

Definition with_filter (f : option NodeFilterSpec) (s : MemberSource) : MemberSource :=
  {| src_ID := src_ID s; src_GroupID := src_GroupID s; src_Operation := src_Operation s;
     src_Kind := src_Kind s; src_Position := src_Position s;
     src_NodeLogicalID := src_NodeLogicalID s; src_TargetGroupID := src_TargetGroupID s;
     src_Pattern := src_Pattern s; src_FilterSpec := f; src_BuiltinName := src_BuiltinName s |}.

(** The edge as the edit stores it: owned by the group, at its list index. *)
Definition place_edge (groupID : string) (i : nat) (e : GroupEdge) : GroupEdge :=
  {| edge_ID := edge_ID e; edge_ParentGroupID := groupID;
     edge_ChildGroupID := edge_ChildGroupID e; edge_NodeLogicalID := edge_NodeLogicalID e;
     edge_Position := Z.of_nat i |}.

Definition edge_source (groupID : string) (i : nat) (e : GroupEdge) : MemberSource :=
  {| src_ID := edge_ID e; src_GroupID := groupID; src_Operation := OperationAdd;
     src_Kind := if is_nil (edge_ChildGroupID e) then SourceKindManualNode
                 else SourceKindGroupRef;
     src_Position := Z.of_nat i; src_NodeLogicalID := edge_NodeLogicalID e;
     src_TargetGroupID := edge_ChildGroupID e; src_Pattern := None;
     src_FilterSpec := None; src_BuiltinName := None |}.

Definition legacy_representable (s : MemberSource) : bool :=
  String.eqb (src_Operation s) OperationAdd &&
  (legacy_edge_kind (src_Kind s) || String.eqb (src_Kind s) SourceKindFilter).

Section LegacyEdit.
Context `{GoText} `{RegexEngine}.

Fixpoint edges_to_sources (groupID : string) (i : nat) (edges : list GroupEdge)
    : result DomainError (list MemberSource) :=
  match edges with
  | [] => Ok []
  | e :: edges =>
      ValidateGroupEdge (place_edge groupID i e) ;;?
      let? out := edges_to_sources groupID (S i) edges in
      Ok (edge_source groupID i e :: out)
  end.

(** The [changeFilter] half of the edit. *)
Definition apply_filter (groupID : string) (filter : option NodeFilterSpec)
    (out : list MemberSource) : result DomainError (list MemberSource) :=
  NodeFilterSpec_Validate filter ;;?
  let spec := if NodeFilterSpec_IsEmpty filter then None else filter in
  let out := map (with_filter spec)
               (List.filter (λ s, negb (String.eqb (src_Kind s) SourceKindFilter)) out) in
  Ok (if (length out =? 0) && negb (NodeFilterSpec_IsEmpty filter) then
        [{| src_ID := ""; src_GroupID := groupID; src_Operation := OperationAdd;
            src_Kind := SourceKindFilter; src_Position := 0%Z; src_NodeLogicalID := None;
            src_TargetGroupID := None; src_Pattern := None; src_FilterSpec := filter;
            src_BuiltinName := None |}]
      else out).

Definition EditLegacySources (groupID : string) (current : list MemberSource)
    (edges : option (list GroupEdge)) (changeFilter : bool) (filter : option NodeFilterSpec)
    : result DomainError (list MemberSource) :=
  reject_if (negb (forallb legacy_representable current))
    (NewConflictError "sources_edit_required") ;;?
  match edges with
  | None => if changeFilter then apply_filter groupID filter current else Ok current
  | Some edges =>
      let? out := edges_to_sources groupID 0 edges in
      match current with
      | s :: _ =>
          if changeFilter then apply_filter groupID filter out
          else apply_filter groupID (src_FilterSpec s) out
      | [] => if changeFilter then apply_filter groupID filter out else Ok out
      end
  end.

Lemma project_with_filter f out :
  ProjectSourceEdges (map (with_filter f) out) = ProjectSourceEdges out.
Proof.
  induction out as [|s out IH]; simpl; [done|]. by destruct (negb _); [|destruct (negb _); rewrite IH].
Qed.

Lemma project_edges groupID i edges out :
  edges_to_sources groupID i edges = Ok out →
  ProjectSourceEdges out = imap (λ k, place_edge groupID (i + k)) edges ∧
  ∀ s, s ∈ out → src_Kind s ≠ SourceKindFilter.
Proof.
  revert i out. induction edges as [|e edges IH]; intros i out; simpl.
  { intros [= <-]. split; [done|]. by intros s ?%elem_of_nil. }
  destruct (ValidateGroupEdge _) as [[]|]; simpl; [|done].
  destruct (edges_to_sources _ _ _) as [out'|] eqn:He; [|done]. intros [= <-].
  destruct (IH _ _ He) as [Hp Hk]. split.
  - assert (legacy_edge_kind (src_Kind (edge_source groupID i e)) = true) as Hkind
      by (simpl; by destruct (is_nil _)).
    simpl in *. rewrite Hkind, Hp, Nat.add_0_r. simpl. f_equal. apply imap_ext.
    intros k x _. simpl. by rewrite Nat.add_succ_r.
  - intros s [->|Hs]%elem_of_cons; [simpl|by apply Hk]. by destruct (is_nil _).
Qed.

Lemma project_apply_filter groupID f out out' :
  (∀ s, s ∈ out → src_Kind s ≠ SourceKindFilter) →
  apply_filter groupID f out = Ok out' → ProjectSourceEdges out' = ProjectSourceEdges out.
Proof.
  intros Hk. unfold apply_filter. destruct (NodeFilterSpec_Validate f) as [[]|]; simpl; [|done].
  assert (List.filter (λ s, negb (String.eqb (src_Kind s) SourceKindFilter)) out = out) as ->.
  { induction out as [|s out IH]; [done|]. simpl.
    rewrite (proj2 (String.eqb_neq _ _)) by (apply Hk; set_solver). simpl.
    f_equal. apply IH. set_solver. }
  intros [= <-]. rewrite length_map. destruct out as [|s out].
  - simpl. by destruct (negb _).
  - simpl length. rewrite andb_false_l. apply project_with_filter.
Qed.
End LegacyEdit.

(** A legacy edit is lossless: whenever it is accepted, the group's sources
    were all representable as edges plus a filter, and reading the new sources
    back as edges gives exactly the edges that were written, owned by the group
    and numbered by their place in the list, whatever filter was kept or set. *)
Theorem legacy_edit_roundtrip `{GoText} `{RegexEngine} (groupID : string)
    (current : list MemberSource) (edges : list GroupEdge) (changeFilter : bool)
    (filter : option NodeFilterSpec) (out : list MemberSource) :
  EditLegacySources groupID current (Some edges) changeFilter filter = Ok out →
  ProjectSourceEdges out = imap (place_edge groupID) edges ∧
  Forall (λ s, legacy_representable s = true) current.
Proof.
  unfold EditLegacySources, reject_if.
  destruct (forallb legacy_representable current) eqn:Hcur; simpl; [|done].
  destruct (edges_to_sources groupID 0 edges) as [mid|] eqn:He; simpl; [|done]. intros Hout.
  apply project_edges in He as [Hp Hk]. simpl in Hp. split.
  - destruct current as [|s current]; [destruct changeFilter|destruct changeFilter];
      try (by etrans; [eapply project_apply_filter|]); by injection Hout as <-.
  - apply Forall_forall. intros s Hs. apply forallb_forall with (x := s) in Hcur; [done|].
    by apply list_elem_of_In.
Qed.

(** ** Concrete policies *)

Definition gid_a := "01890a5d-ac96-774b-bcce-b302099a8057".
Definition gid_b := "01890a5d-ac96-774b-bcce-b302099a8058".
Definition sample_source (gid : string) (op kind : string) (target : option string)
    : MemberSource :=
  {| src_ID := "s"; src_GroupID := gid; src_Operation := op; src_Kind := kind;
     src_Position := 0%Z; src_NodeLogicalID := None; src_TargetGroupID := target;
     src_Pattern := None; src_FilterSpec := None; src_BuiltinName := None |}.
Definition sample_group (gid : string) (sources : list MemberSource) : NodeGroup :=
  {| grp_EmptyFallbackPass := false; grp_ID := gid; grp_Name := "g" +:+ gid;
     grp_GroupType := "select"; grp_Sources := sources; grp_NodeFilter := None |}.

Lemma legacy_edit_roundtrip_witness :
  let e := {| edge_ID := "e"; edge_ParentGroupID := ""; edge_ChildGroupID := Some gid_b;
              edge_NodeLogicalID := None; edge_Position := 7%Z |} in
  ∃ out, @EditLegacySources ascii_text witness_engine gid_a [] (Some [e]) false None = Ok out ∧
    ProjectSourceEdges out = [place_edge gid_a 0 e].
Proof.
  intros e. eexists. split; [vm_compute; reflexivity|].
  eapply (@legacy_edit_roundtrip ascii_text witness_engine gid_a [] [e] false None).
  vm_compute. reflexivity.
Defined.

Lemma topology_validation_sound_witness :
  let gs := [sample_group gid_a [sample_source gid_a "add" "group_ref" (Some gid_b)];
             sample_group gid_b []] in
  @ValidatePolicyTopology ascii_text witness_engine gs [] [] false = Some (Ok tt) ∧
  ∀ l, ¬ is_cycle (child_of gs []) l.
Proof.
  intros gs. split; [vm_compute; reflexivity|].
  apply (@topology_validation_sound ascii_text witness_engine gs [] [] false).
  vm_compute. reflexivity.
Defined.

Definition cyclic_groups : list NodeGroup :=
  [sample_group gid_a [sample_source gid_a "add" "group_ref" (Some gid_b)];
   sample_group gid_b [sample_source gid_b "remove" "group_nodes" (Some gid_a)]].

Lemma cyclic_groups_well_formed :
  is_ok (@build_adjacency ascii_text witness_engine cyclic_groups []) = true.
Proof. vm_compute. reflexivity. Qed.

Lemma topology_validation_reports_cycles_witness :
  ∃ e, @ValidatePolicyTopology ascii_text witness_engine cyclic_groups [] [] false = Some (Err e) ∧
    err_Code e = "cycle_detected" ∧ is_cycle (child_of cyclic_groups []) (err_CyclePath e).
Proof.
  pose proof cyclic_groups_well_formed as Hok.
  destruct (@build_adjacency ascii_text witness_engine cyclic_groups []) as [adj|] eqn:Hb; [|done].
  apply (@topology_validation_reports_cycles ascii_text witness_engine cyclic_groups [] [] false
    adj [gid_a; gid_b; gid_a] Hb).
  split; [|split; [simpl; lia|reflexivity]]. split; [|split; [|done]]; left.
  - eexists _, _. split; [apply list_elem_of_here|]. split; [done|].
    split; [apply list_elem_of_here|]. vm_compute. reflexivity.
  - eexists _, _. split; [apply list_elem_of_further, list_elem_of_here|]. split; [done|].
    split; [apply list_elem_of_here|]. vm_compute. reflexivity.
Defined.
