(* ===== verification/Health.v ===== *)
(** * Observations: the latest one per key, and the health of a node

    [internal/domain/probe_health.go].  The rule for choosing the current
    observation (the later one, and among equally late ones the greater ID) is
    also used by the risk service, so it is stated once, for any record with a
    key, a time and an identifier. *)

From S2P Require Import Prelude.
From S2P Require Import GoStrings.
From S2P Require Import Domain.
From S2P Require Import Lifecycle.
From S2P Require Import NodeFilter.

(** ** The latest observation per key *)

Section Latest.
Context {A : Type} (key : A → string) (at_ : A → time) (id : A → string).

(** [o.ObservedAt.After(e.ObservedAt) || (Equal && o.ID > e.ID)] *)
Definition newer (o e : A) : bool :=
  After (at_ o) (at_ e) || ((at_ o =? at_ e)%Z && str_less (id e) (id o)).

Definition keep_latest (m : gmap string A) (o : A) : gmap string A :=
  match m !! key o with
  | None => <[key o := o]> m
  | Some e => if newer o e then <[key o := o]> m else m
  end.

Definition latest_by_key (l : list A) : gmap string A := fold_left keep_latest l ∅.

#[local] Instance newer_strict_weak : StrictWeak newer.
Proof.
  unfold newer, After. split.
  - intros a b Hab. apply orb_true_iff in Hab as [Hab|[He Hab]%andb_true_iff].
    + apply Z.ltb_lt in Hab. rewrite (proj2 (Z.ltb_ge _ _)) by lia.
      by rewrite (proj2 (Z.eqb_neq _ _)) by lia.
    + apply Z.eqb_eq in He as ->. rewrite Z.ltb_irrefl, (sw_asym _ _ Hab). by rewrite andb_false_r.
  - intros a b c [Hab Hab']%orb_false_iff [Hbc Hbc']%orb_false_iff.
    apply Z.ltb_ge in Hab, Hbc. apply orb_false_iff. rewrite Z.ltb_ge. split; [lia|].
    destruct (Z.eqb_spec (at_ a) (at_ c)) as [He|]; [simpl|done].
    rewrite (proj2 (Z.eqb_eq (at_ a) (at_ b))) in Hab' by lia.
    rewrite (proj2 (Z.eqb_eq (at_ b) (at_ c))) in Hbc' by lia.
    by eapply sw_negtrans.
Qed.

(** [m] holds, for every key of [l], an element of [l] that no other beats. *)
Definition latest_of (l : list A) (m : gmap string A) : Prop :=
  (∀ k o, m !! k = Some o → o ∈ l ∧ key o = k ∧
     ∀ o', o' ∈ l → key o' = k → newer o' o = false) ∧
  (∀ o, o ∈ l → is_Some (m !! key o)).

Lemma newer_irrefl o : newer o o = false.
Proof.
  unfold newer, After. by rewrite Z.ltb_irrefl, Z.eqb_refl, str_less_irrefl.
Qed.

Lemma keep_latest_of l m o : latest_of l m → latest_of (l ++ [o]) (keep_latest m o).
Proof.
  intros [Hm Hd]. unfold keep_latest.
  destruct (m !! key o) as [e|] eqn:He; [destruct (newer o e) eqn:Hn|].
  - split; intros k.
    + intros o'. rewrite lookup_insert. case_decide as Hk.
      * intros [= <-]. split_and!; [set_solver|done|]. intros o' Ho' Hk'.
        apply elem_of_app in Ho' as [Ho'|Ho'%list_elem_of_singleton]; [|subst; apply newer_irrefl].
        destruct (newer o' o) eqn:Ho; [|done]. exfalso.
        assert (newer o' e = false) as Hoe by (apply (Hm _ _ He); congruence).
        by rewrite (sw_negtrans _ _ _ Hoe (sw_asym _ _ Hn)) in Ho.
      * intros Ho'. destruct (Hm _ _ Ho') as (? & ? & Hmax). split_and!; [set_solver|done|].
        intros o'' [Ho''|Ho''%list_elem_of_singleton]%elem_of_app Hk''; [by apply Hmax|congruence].
    + intros Ho'. rewrite lookup_insert. case_decide; [done|].
      apply elem_of_app in Ho' as [?|?%list_elem_of_singleton]; [by apply Hd|by subst].
  - split.
    + intros k o' Ho'. destruct (Hm _ _ Ho') as (? & Hk & Hmax). split_and!; [set_solver|done|].
      intros o'' [Ho''|Ho''%list_elem_of_singleton]%elem_of_app Hk''; [by apply Hmax|].
      subst. rewrite <- Hk'' in Ho'. congruence.
    + intros o' [?|Ho'%list_elem_of_singleton]%elem_of_app; [by apply Hd|].
      subst. by rewrite He.
  - split; intros k.
    + intros o'. rewrite lookup_insert. case_decide as Hk.
      * intros [= <-]. split_and!; [set_solver|done|].
        intros o' [Ho'|Ho'%list_elem_of_singleton]%elem_of_app Hk'; [|subst; apply newer_irrefl].
        destruct (Hd _ Ho') as [x Hx]. rewrite Hk', <- Hk in Hx. congruence.
      * intros Ho'. destruct (Hm _ _ Ho') as (? & ? & Hmax). split_and!; [set_solver|done|].
        intros o'' [Ho''|Ho''%list_elem_of_singleton]%elem_of_app Hk''; [by apply Hmax|congruence].
    + intros Ho'. rewrite lookup_insert. case_decide; [done|].
      apply elem_of_app in Ho' as [?|?%list_elem_of_singleton]; [by apply Hd|by subst].
Qed.

Lemma latest_by_key_spec l : latest_of l (latest_by_key l).
Proof.
  unfold latest_by_key. induction l as [|o l IH] using rev_ind.
  - split; [|by intros o ?%elem_of_nil]. intros k o Hko. simpl in Hko.
    by rewrite lookup_empty in Hko.
  - rewrite fold_left_app. simpl. by apply keep_latest_of.
Qed.

(** The identifiers tell the elements of the list apart. *)
Definition ids_unique (l : list A) : Prop :=
  ∀ o o', o ∈ l → o' ∈ l → id o = id o' → o = o'.

Lemma newer_total l o o' :
  ids_unique l → o ∈ l → o' ∈ l → newer o o' = false → newer o' o = false → o = o'.
Proof.
  intros Hu Ho Ho' [H1 H1']%orb_false_iff [H2 H2']%orb_false_iff.
  unfold After in *. apply Z.ltb_ge in H1, H2.
  assert (at_ o = at_ o') as He by lia.
  rewrite He, Z.eqb_refl in H1'. rewrite He, Z.eqb_refl in H2'.
  apply Hu; [done..|]. by apply str_less_total.
Qed.

Lemma latest_of_unique l m m' :
  ids_unique l → latest_of l m → latest_of l m' → m = m'.
Proof.
  intros Hu [Hm Hd] [Hm' Hd']. apply map_eq. intros k.
  destruct (m !! k) as [o|] eqn:Ho, (m' !! k) as [o'|] eqn:Ho'; [|exfalso..|done].
  - destruct (Hm _ _ Ho) as (Hin & Hk & Hmax), (Hm' _ _ Ho') as (Hin' & Hk' & Hmax').
    f_equal. apply (newer_total l); auto.
  - destruct (Hm _ _ Ho) as (Hin & <- & _). destruct (Hd' _ Hin); congruence.
  - destruct (Hm' _ _ Ho') as (Hin & <- & _). destruct (Hd _ Hin); congruence.
Qed.

Lemma latest_of_perm l l' m : l ≡ₚ l' → latest_of l m → latest_of l' m.
Proof. intros Hp [Hm Hd]. split; setoid_rewrite <- Hp; done. Qed.

Lemma latest_by_key_perm l l' :
  l ≡ₚ l' → ids_unique l → latest_by_key l = latest_by_key l'.
Proof.
  intros Hp Hu. apply (latest_of_unique l); [done|apply latest_by_key_spec|].
  apply (latest_of_perm l'); [done|apply latest_by_key_spec].
Qed.
End Latest.

(** ** Health *)

Definition BaselineHealthy := "healthy".
Definition BaselineDegraded := "degraded".
Definition BaselineUnhealthy := "unhealthy".
Definition BaselineUnknown := "unknown".

Definition EvaluateBaselineHealth (obs : option ProbeObservation) (revision : Z)
    (now : time) (freshness : Z) : string * bool :=
  match obs with
  | None => (BaselineUnknown, false)
  | Some obs =>
      if negb (String.eqb (obs_Kind obs) ProbeKindBaseline) ||
         match obs_ConnectionRevision obs with
         | None => true
         | Some r => (revision <? 1)%Z || negb (r =? revision)%Z
         end ||
         (freshness <=? 0)%Z || After (obs_ObservedAt obs) now ||
         (freshness <=? time_sub now (obs_ObservedAt obs))%Z
      then (BaselineUnknown, false)
      else if String.eqb (obs_Verdict obs) VerdictAvailable then
        (BaselineHealthy, (0 <? obs_LatencyMS obs)%Z)
      else if String.eqb (obs_Verdict obs) VerdictRestricted then
        (BaselineDegraded, (0 <? obs_LatencyMS obs)%Z)
      else if String.eqb (obs_Verdict obs) VerdictError &&
              Contains (obs_RedactedSummary obs) "reason=node_connect_failed" then
        (BaselineUnhealthy, false)
      else (BaselineUnknown, false)
  end.

Definition HealthCategoryHealthy := "healthy".
Definition HealthCategoryDegraded := "degraded".
Definition HealthCategoryUnhealthy := "unhealthy".
Definition HealthCategoryUndetermined := "undetermined".
Definition HealthCategoryUntested := "untested".

Definition ClassifyNodeHealth (observations : gmap string ProbeObservation)
    (currentRevision : Z) (now : time) (freshness : Z) : string :=
  if size observations =? 0 then HealthCategoryUntested
  else
    let health := fst (EvaluateBaselineHealth (observations !! ProbeKindBaseline)
      currentRevision now freshness) in
    if String.eqb health BaselineHealthy then HealthCategoryHealthy
    else if String.eqb health BaselineDegraded then HealthCategoryDegraded
    else if String.eqb health BaselineUnhealthy then HealthCategoryUnhealthy
    else HealthCategoryUndetermined.

Definition ClassifyNodeHealthFromSlice (observations : list ProbeObservation)
    (currentRevision : Z) (now : time) (freshness : Z) : string :=
  if length observations =? 0 then HealthCategoryUntested
  else
    ClassifyNodeHealth (latest_by_key obs_Kind obs_ObservedAt obs_ID observations)
      currentRevision now freshness.

(** The observation certifies the current connection: a baseline probe of this
    revision, not from the future and younger than the freshness window. *)
Definition certifies (obs : ProbeObservation) (revision : Z) (now : time) (freshness : Z)
    : Prop :=
  obs_Kind obs = ProbeKindBaseline ∧ obs_ConnectionRevision obs = Some revision ∧
  (1 ≤ revision ∧ 0 < freshness ∧ obs_ObservedAt obs ≤ now ∧
   time_sub now (obs_ObservedAt obs) < freshness)%Z.

Lemma evaluate_certified obs revision now freshness h d :
  EvaluateBaselineHealth obs revision now freshness = (h, d) →
  h = BaselineUnknown ∨ ∃ o, obs = Some o ∧ certifies o revision now freshness ∧
    ((h = BaselineHealthy ∧ obs_Verdict o = VerdictAvailable) ∨
     (h = BaselineDegraded ∧ obs_Verdict o = VerdictRestricted) ∨
     (h = BaselineUnhealthy ∧ obs_Verdict o = VerdictError ∧
      Contains (obs_RedactedSummary o) "reason=node_connect_failed" = true)).
Proof.
  destruct obs as [o|]; simpl; [|by intros [= <- <-]; left].
  destruct (_ || _) eqn:Hg; [by intros [= <- <-]; left|].
  apply orb_false_iff in Hg as [Hg Hage]. apply orb_false_iff in Hg as [Hg Hfut].
  apply orb_false_iff in Hg as [Hg Hfr]. apply orb_false_iff in Hg as [Hk Hrev].
  apply negb_false_iff, String.eqb_eq in Hk.
  destruct (obs_ConnectionRevision o) as [r|] eqn:Hr; [|done].
  apply orb_false_iff in Hrev as [Hr1 Hr2]. apply negb_false_iff, Z.eqb_eq in Hr2 as ->.
  unfold After in Hfut. apply Z.ltb_ge in Hr1, Hfut. apply Z.leb_gt in Hfr, Hage.
  assert (certifies o revision now freshness) by (unfold certifies; naive_solver lia).
  destruct (String.eqb_spec (obs_Verdict o) VerdictAvailable); [intros [= <- <-]; naive_solver|].
  destruct (String.eqb_spec (obs_Verdict o) VerdictRestricted); [intros [= <- <-]; naive_solver|].
  destruct (String.eqb_spec (obs_Verdict o) VerdictError); simpl; [|intros [= <- <-]; by left].
  destruct (Contains _ _) eqn:Hc; intros [= <- <-]; [|by left]. right. exists o. naive_solver.
Qed.

(** The health shown for a node rests on evidence about the connection it has
    now: whatever the list of observations, [healthy], [degraded] and
    [unhealthy] are only reported when the newest baseline observation of the
    list certifies the current revision (same revision, not from the future,
    younger than the freshness window) and carries the corresponding verdict;
    with no observations the node is [untested]. *)
Theorem health_rests_on_evidence (l : list ProbeObservation) (revision : Z) (now : time)
    (freshness : Z) :
  let c := ClassifyNodeHealthFromSlice l revision now freshness in
  (c = HealthCategoryUntested ∧ l = []) ∨ (c = HealthCategoryUndetermined ∧ l ≠ []) ∨
  ∃ o, o ∈ l ∧ certifies o revision now freshness ∧
    (∀ o', o' ∈ l → obs_Kind o' = ProbeKindBaseline →
       newer obs_ObservedAt obs_ID o' o = false) ∧
    ((c = HealthCategoryHealthy ∧ obs_Verdict o = VerdictAvailable) ∨
     (c = HealthCategoryDegraded ∧ obs_Verdict o = VerdictRestricted) ∨
     (c = HealthCategoryUnhealthy ∧ obs_Verdict o = VerdictError ∧
      Contains (obs_RedactedSummary o) "reason=node_connect_failed" = true)).
Proof.
  unfold ClassifyNodeHealthFromSlice, ClassifyNodeHealth.
  destruct l as [|o0 l0] eqn:Hl; [by left|]. rewrite <- Hl. simpl length.
  pose proof (latest_by_key_spec obs_Kind obs_ObservedAt obs_ID l) as [Hm Hd].
  set (m := latest_by_key _ _ _ l) in *.
  assert (size m ≠ 0) as Hsz.
  { intros Hz%map_size_empty_iff. destruct (Hd o0) as [x Hx]; [subst; set_solver|].
    by rewrite Hz, lookup_empty in Hx. }
  assert (length l =? 0 = false) as -> by (by subst). rewrite (proj2 (Nat.eqb_neq _ _) Hsz).
  right. destruct (EvaluateBaselineHealth (m !! ProbeKindBaseline) revision now freshness)
    as [h d] eqn:He. simpl.
  destruct (evaluate_certified _ _ _ _ _ _ He) as [->|(o & Ho & Hc & Hv)]; [left|right].
  { split; [done|by subst]. }
  destruct (Hm _ _ Ho) as (Hin & _ & Hmax). exists o.
  destruct Hv as [[-> ?]|[[-> ?]|(-> & ? & ?)]]; auto 10.
Qed.

(** The order in which observations arrive does not matter: any two orderings
    of the same observations (with distinct identifiers) give a node the same
    health. *)
Theorem health_order_independent (l l' : list ProbeObservation) (revision : Z) (now : time)
    (freshness : Z) :
  l ≡ₚ l' → ids_unique obs_ID l →
  ClassifyNodeHealthFromSlice l revision now freshness =
  ClassifyNodeHealthFromSlice l' revision now freshness.
Proof.
  intros Hp Hu. unfold ClassifyNodeHealthFromSlice.
  by rewrite <- Hp, (latest_by_key_perm _ _ _ l l').
Qed.

Definition sample_observation (id kind verdict : string) (at_ : time) : ProbeObservation :=
  {| obs_ID := id; obs_Kind := kind; obs_Verdict := verdict; obs_ObservedAt := at_;
     obs_LatencyMS := 12; obs_RedactedSummary := ""; obs_ConnectionRevision := Some 1 |}%Z.

Lemma health_order_independent_witness :
  let a := sample_observation "a" ProbeKindBaseline VerdictError 5%Z in
  let b := sample_observation "b" ProbeKindBaseline VerdictAvailable 5%Z in
  ClassifyNodeHealthFromSlice [a; b] 1 6 60 = ClassifyNodeHealthFromSlice [b; a] 1 6 60.
Proof.
  intros a b. apply (health_order_independent [a; b] [b; a] 1 6 60).
  - apply Permutation_swap.
  - intros o o' Ho Ho'. rewrite !elem_of_cons, elem_of_nil in Ho, Ho'. naive_solver.
Defined.
