(* ===== verification/Risk.v ===== *)
(** * IP risk: observations, policies and decisions

    [internal/domain/iprisk.go].  The scanner for addresses and credentials in
    free text is built from regular expressions and [net.ParseIP]; it enters as
    the class [TextScanner]. *)

From S2P Require Import Prelude.
From S2P Require Import GoStrings.
From S2P Require Import Domain.
From S2P Require Import Lifecycle.

Class TextScanner := {
  containsIPAddress : string → bool;
  urlQueryRegex_MatchString : string → bool;
  querySecretRegex_MatchString : string → bool
}.

(** ** Enumerations *)

Definition RiskActionAllow := "allow".
Definition RiskActionReview := "review".
Definition RiskActionBlock := "block".
Definition RiskActionUnknown := "unknown".
Definition RiskAction_enum : StrEnum :=
  {| enum_values := [RiskActionAllow; RiskActionReview; RiskActionBlock; RiskActionUnknown];
     enum_code := "invalid_risk_action" |}.
Definition RiskAction_IsValid := enum_valid RiskAction_enum.
Definition ParseRiskAction `{GoText} := enum_parse RiskAction_enum.
Definition isPolicyAction (a : string) : bool :=
  String.eqb a RiskActionAllow || String.eqb a RiskActionReview || String.eqb a RiskActionBlock.

Definition RiskBandLow := "low".
Definition RiskBandMedium := "medium".
Definition RiskBandHigh := "high".
Definition RiskBandCritical := "critical".
Definition RiskBandUnknown := "unknown".
Definition RiskBand_enum : StrEnum :=
  {| enum_values := [RiskBandLow; RiskBandMedium; RiskBandHigh; RiskBandCritical;
       RiskBandUnknown];
     enum_code := "invalid_risk_band" |}.
Definition RiskBand_IsValid := enum_valid RiskBand_enum.
Definition ParseRiskBand `{GoText} := enum_parse RiskBand_enum.

Definition IPRiskStatusAvailable := "available".
Definition IPRiskStatusUnknown := "unknown".
Definition IPRiskStatusError := "error".
Definition IPRiskStatusStale := "stale".
Definition IPRiskStatus_enum : StrEnum :=
  {| enum_values := [IPRiskStatusAvailable; IPRiskStatusUnknown; IPRiskStatusError;
       IPRiskStatusStale];
     enum_code := "invalid_ip_risk_status" |}.
Definition IPRiskStatus_IsValid := enum_valid IPRiskStatus_enum.
Definition ParseIPRiskStatus `{GoText} := enum_parse IPRiskStatus_enum.

Definition NetworkClass_enum : StrEnum :=
  {| enum_values := ["residential"; "datacenter"; "mobile"; "business"; "unknown"];
     enum_code := "invalid_network_class" |}.
Definition NetworkClass_IsValid := enum_valid NetworkClass_enum.
Definition ParseNetworkClass `{GoText} := enum_parse NetworkClass_enum.

Definition TraitUnknown := "unknown".
Definition AnonymizerTrait_enum : StrEnum :=
  {| enum_values := ["proxy"; "vpn"; "tor"; "residential_proxy"; "hosting"; TraitUnknown];
     enum_code := "invalid_anonymizer_trait" |}.
Definition AnonymizerTrait_IsValid := enum_valid AnonymizerTrait_enum.
Definition ParseAnonymizerTrait `{GoText} := enum_parse AnonymizerTrait_enum.

Definition RiskFusionSingleProvider := "single_provider".
Definition RiskFusionAllMustAllow := "all_must_allow".
Definition RiskFusionHighestRisk := "highest_risk".
Definition RiskFusionMode_enum : StrEnum :=
  {| enum_values := [RiskFusionSingleProvider; RiskFusionAllMustAllow; RiskFusionHighestRisk];
     enum_code := "invalid_risk_fusion_mode" |}.
Definition RiskFusionMode_IsValid := enum_valid RiskFusionMode_enum.
Definition ParseRiskFusionMode `{GoText} := enum_parse RiskFusionMode_enum.

(** ** Records *)

Record ProviderRef : Type := { prov_Provider : string; prov_SchemaVersion : string }.
Record RiskProviderSelection : Type := { sel_Mode : string; sel_Providers : list ProviderRef }.
Record ScoreBand : Type := {
  band_Min : Z; band_Max : Z; band_Band : string; band_Action : string
}.
Record TraitRule : Type := { trait_Trait : string; trait_Action : string }.

Record ExitIdentity : Type := {
  exit_NodeLogicalID : string;
  exit_ObservedAt : time;
  exit_IdentityDigest : string;
  exit_CountryCode : string;
  exit_ASN : option Z
}.

Record IPRiskObservation : Type := {
  iro_ID : string;
  iro_NodeLogicalID : string;
  iro_ExitIdentityDigest : string;
  iro_Provider : string;
  iro_ProviderSchemaVersion : string;
  iro_ObservedAt : time;
  iro_ExpiresAt : time;
  iro_Status : string;
  iro_Score : option Z;
  iro_Confidence : option Z;
  iro_NetworkClass : string;
  iro_AnonymizerTraits : list string;
  iro_EvidenceDigest : string;
  iro_RedactedSummary : string
}.

Record RiskPolicy : Type := {
  pol_RevisionID : string;
  pol_ProviderSelection : RiskProviderSelection;
  pol_MaxObservationAge : Z;
  pol_MinimumConfidence : Z;
  pol_ScoreBands : list ScoreBand;
  pol_TraitRules : list TraitRule;
  pol_UnknownAction : string;
  pol_ConflictAction : string;
  pol_ReviewAction : string
}.

Record RiskDecision : Type := {
  dec_NodeLogicalID : string;
  dec_PolicyRevisionID : string;
  dec_Decision : string;
  dec_ReasonCode : string;
  dec_ObservationDigestSet : list string;
  dec_EvaluatedAt : time
}.

Record IPRiskSummary : Type := {
  sum_Decision : string;
  sum_RiskBand : string;
  sum_Provider : string;
  sum_ProviderSchemaVersion : string;
  sum_ObservedAt : time;
  sum_ExpiresAt : time;
  sum_Status : string;
  sum_ReasonCode : string;
  sum_PolicyRevisionID : option string
}.

Definition effective_action (a : string) : string :=
  if isPolicyAction a then a else RiskActionReview.
Definition EffectiveUnknownAction (p : RiskPolicy) : string :=
  effective_action (pol_UnknownAction p).
Definition EffectiveConflictAction (p : RiskPolicy) : string :=
  effective_action (pol_ConflictAction p).
Definition EffectiveReviewAction (p : RiskPolicy) : string :=
  effective_action (pol_ReviewAction p).

(** ** Field checks *)

Definition MaxIPRiskIdentifierLength : nat := 64.
Definition MaxIPRiskRedactedSummaryLength : nat := 512.

Fixpoint drop_bytes (n : nat) (s : string) : string :=
  match n, s with S n, String _ s => drop_bytes n s | _, _ => s end.

Definition validDigest (value : string) : bool :=
  HasPrefix value "sha256:" && (String.length value =? 7 + 64) &&
  all_bytes is_hex (drop_bytes 7 value).

Definition is_lower (c : Ascii.ascii) : bool := in_range 97 122 c.
Definition is_upper (c : Ascii.ascii) : bool := in_range 65 90 c.
Definition is_num (c : Ascii.ascii) : bool := in_range 48 57 c.
Definition is_mark (c : Ascii.ascii) : bool := is_char 95 c || is_char 46 c || is_char 45 c.

(** [^[A-Z]{2}$] *)
Definition isoCountryCodeRegex_MatchString : string → bool :=
  match_classes [is_upper; is_upper].

(** [^[a-z][a-z0-9_.-]*$] *)
Definition reasonCodeRegex_MatchString (s : string) : bool :=
  match s with
  | String c s => is_lower c && all_bytes (λ c, is_lower c || is_num c || is_mark c) s
  | "" => false
  end.

(** [^[a-zA-Z0-9][a-zA-Z0-9_.-]*$] *)
Definition ipRiskIdentifierRegex_MatchString (s : string) : bool :=
  match s with
  | String c s =>
      (is_lower c || is_upper c || is_num c) &&
      all_bytes (λ c, is_lower c || is_upper c || is_num c || is_mark c) s
  | "" => false
  end.

Definition validatePercent (name : string) (value : option Z) : result DomainError unit :=
  match value with
  | Some v => invalid_if ((v <? 0) || (100 <? v))%Z ("invalid_ip_risk_" +:+ name)
  | None => Ok tt
  end.

Section Checks.
Context `{GoText} `{TextScanner}.

Definition containsSensitiveIPRiskText (value : string) : bool :=
  let lower := ToLower value in
  containsIPAddress value || urlQueryRegex_MatchString value ||
  querySecretRegex_MatchString value ||
  Contains lower "api_key" || Contains lower "apikey" ||
  Contains lower "cookie" || Contains lower "raw_payload" ||
  Contains lower "raw json" || Contains lower "access_token" ||
  Contains lower "token=" || Contains lower "secret=" || Contains lower "password=".

Definition validateIPRiskIdentifier (field value : string) : result DomainError unit :=
  let trimmed := TrimSpace value in
  invalid_if (String.eqb trimmed "") ("missing_ip_risk_" +:+ field) ;;?
  invalid_if ((MaxIPRiskIdentifierLength <? String.length trimmed) ||
    negb (ipRiskIdentifierRegex_MatchString trimmed)) ("invalid_ip_risk_" +:+ field) ;;?
  reject_if (containsSensitiveIPRiskText trimmed)
    (NewSecurityError ("sensitive_ip_risk_" +:+ field)) ;;?
  Ok tt.

Definition validateRedactedSummary (summary : string) : result DomainError unit :=
  invalid_if (MaxIPRiskRedactedSummaryLength <? String.length summary)
    "invalid_ip_risk_summary_length" ;;?
  reject_if (Contains summary "{" || Contains summary "}" ||
             Contains summary "[" || Contains summary "]")
    (NewSecurityError "raw_json_ip_risk_summary") ;;?
  reject_if (containsSensitiveIPRiskText summary)
    (NewSecurityError "sensitive_ip_risk_summary") ;;?
  Ok tt.

Definition ExitIdentity_Validate (e : ExitIdentity) : result DomainError unit :=
  invalid_if (negb (IsValidLogicalID (exit_NodeLogicalID e)))
    "invalid_exit_node_logical_id" ;;?
  invalid_if (negb (validDigest (exit_IdentityDigest e))) "invalid_exit_identity_digest" ;;?
  invalid_if (IsZero (exit_ObservedAt e)) "missing_exit_observed_at" ;;?
  invalid_if (negb (String.eqb (exit_CountryCode e) "") &&
    negb (isoCountryCodeRegex_MatchString (exit_CountryCode e))) "invalid_exit_country_code" ;;?
  invalid_if (match exit_ASN e with Some n => (n <=? 0)%Z | None => false end)
    "invalid_exit_asn" ;;?
  Ok tt.

(** The loop over the traits, with the set of those seen so far. *)
Fixpoint check_traits (seen : gset string) (traits : list string)
    : result DomainError (gset string) :=
  match traits with
  | [] => Ok seen
  | t :: traits =>
      invalid_if (negb (AnonymizerTrait_IsValid t)) "invalid_ip_risk_trait" ;;?
      invalid_if (bool_decide (t ∈ seen)) "duplicate_ip_risk_trait" ;;?
      check_traits ({[t]} ∪ seen) traits
  end.

Definition IPRiskObservation_Validate (o : IPRiskObservation) : result DomainError unit :=
  invalid_if (negb (IsValidUUIDv7 (iro_ID o))) "invalid_ip_risk_observation_id" ;;?
  invalid_if (negb (IsValidLogicalID (iro_NodeLogicalID o)))
    "invalid_ip_risk_node_logical_id" ;;?
  invalid_if (negb (validDigest (iro_ExitIdentityDigest o)) ||
    negb (validDigest (iro_EvidenceDigest o))) "invalid_ip_risk_digest" ;;?
  validateIPRiskIdentifier "provider" (iro_Provider o) ;;?
  validateIPRiskIdentifier "schema_version" (iro_ProviderSchemaVersion o) ;;?
  invalid_if (IsZero (iro_ObservedAt o) || IsZero (iro_ExpiresAt o) ||
    negb (After (iro_ExpiresAt o) (iro_ObservedAt o))) "invalid_ip_risk_ttl" ;;?
  invalid_if (negb (IPRiskStatus_IsValid (iro_Status o)) ||
    negb (NetworkClass_IsValid (iro_NetworkClass o))) "invalid_ip_risk_status" ;;?
  validatePercent "score" (iro_Score o) ;;?
  validatePercent "confidence" (iro_Confidence o) ;;?
  let? seen := check_traits ∅ (iro_AnonymizerTraits o) in
  invalid_if (bool_decide (TraitUnknown ∈ seen) && negb (size seen =? 1))
    "ambiguous_ip_risk_traits" ;;?
  validateRedactedSummary (iro_RedactedSummary o) ;;?
  Ok tt.

(** ** Policies *)

Definition valid_band (b : ScoreBand) : bool :=
  negb ((band_Min b <? 0)%Z || (100 <? band_Max b)%Z || (band_Max b <? band_Min b)%Z ||
        negb (RiskBand_IsValid (band_Band b)) || String.eqb (band_Band b) RiskBandUnknown ||
        negb (isPolicyAction (band_Action b))).

(** The loop over the ordered bands; [prev] is [ordered[i-1]]. *)
Fixpoint check_bands (prev : option ScoreBand) (bands : list ScoreBand)
    : result DomainError unit :=
  match bands with
  | [] => Ok tt
  | b :: bands =>
      invalid_if (negb (valid_band b)) "invalid_risk_score_band" ;;?
      invalid_if (match prev with
                  | Some p => negb (band_Min b =? band_Max p + 1)%Z
                  | None => false
                  end) "overlapping_or_incomplete_risk_score_bands" ;;?
      check_bands (Some b) bands
  end.

(** [ordered] is what [sort.Slice] makes of a copy of [bands]; that sort is not
    stable, so it is any permutation of them in order of [Min]. *)
Definition validateScoreBands (bands ordered : list ScoreBand) : result DomainError unit :=
  invalid_if (length bands =? 0) "missing_risk_score_bands" ;;?
  invalid_if (match ordered with b :: _ => negb (band_Min b =? 0)%Z | [] => false end)
    "incomplete_risk_score_bands" ;;?
  check_bands None ordered ;;?
  invalid_if (match last ordered with Some b => negb (band_Max b =? 100)%Z | None => false end)
    "incomplete_risk_score_bands" ;;?
  Ok tt.

Definition provider_key (provider schema : string) : string :=
  provider +:+ String (Ascii.ascii_of_N 0) "" +:+ schema.

Fixpoint check_providers (seen : gset string) (ps : list ProviderRef)
    : result DomainError unit :=
  match ps with
  | [] => Ok tt
  | p :: ps =>
      invalid_if (negb (is_ok (validateIPRiskIdentifier "provider" (prov_Provider p))))
        "invalid_risk_provider_reference" ;;?
      invalid_if (negb (is_ok (validateIPRiskIdentifier "schema_version"
        (prov_SchemaVersion p)))) "invalid_risk_provider_reference" ;;?
      let key := provider_key (prov_Provider p) (prov_SchemaVersion p) in
      invalid_if (bool_decide (key ∈ seen)) "duplicate_risk_provider_reference" ;;?
      check_providers ({[key]} ∪ seen) ps
  end.

Fixpoint duplicate_traits (rs : list TraitRule) : bool :=
  match rs with
  | [] => false
  | r :: rs => existsb (λ r', String.eqb (trait_Trait r) (trait_Trait r')) rs ||
               duplicate_traits rs
  end.

(** The three optional actions come out of a Go map in any order; the order
    only chooses which of several errors is returned. *)
Definition RiskPolicy_Validate (ordered : list ScoreBand) (p : RiskPolicy)
    : result DomainError unit :=
  let providers := sel_Providers (pol_ProviderSelection p) in
  let mode := sel_Mode (pol_ProviderSelection p) in
  invalid_if (negb (IsValidUUIDv7 (pol_RevisionID p))) "invalid_risk_policy_revision_id" ;;?
  invalid_if (negb (RiskFusionMode_IsValid mode) || (length providers =? 0))
    "invalid_risk_provider_selection" ;;?
  invalid_if (String.eqb mode RiskFusionSingleProvider && negb (length providers =? 1))
    "invalid_risk_provider_selection" ;;?
  check_providers ∅ providers ;;?
  invalid_if ((pol_MaxObservationAge p <=? 0) || (pol_MinimumConfidence p <? 0) ||
    (100 <? pol_MinimumConfidence p))%Z "invalid_risk_policy_threshold" ;;?
  validateScoreBands (pol_ScoreBands p) ordered ;;?
  for_each (λ r,
    invalid_if (negb (AnonymizerTrait_IsValid (trait_Trait r)) ||
      String.eqb (trait_Trait r) TraitUnknown || negb (isPolicyAction (trait_Action r)))
      "invalid_risk_trait_rule") (pol_TraitRules p) ;;?
  invalid_if (duplicate_traits (pol_TraitRules p)) "duplicate_risk_trait_rule" ;;?
  for_each (λ '(name, action),
    invalid_if (negb (String.eqb action "") && negb (isPolicyAction action))
      ("invalid_" +:+ name))
    [("unknown_action", pol_UnknownAction p); ("conflict_action", pol_ConflictAction p);
     ("review_action", pol_ReviewAction p)] ;;?
  Ok tt.

(** ** Decisions and summaries *)

Fixpoint check_digests (seen : gset string) (ds : list string) : result DomainError unit :=
  match ds with
  | [] => Ok tt
  | d :: ds =>
      invalid_if (negb (validDigest d)) "invalid_risk_decision_digest" ;;?
      invalid_if (bool_decide (d ∈ seen)) "duplicate_risk_decision_digest" ;;?
      check_digests ({[d]} ∪ seen) ds
  end.

Definition RiskDecision_Validate (d : RiskDecision) : result DomainError unit :=
  invalid_if (negb (IsValidLogicalID (dec_NodeLogicalID d)) ||
    negb (IsValidUUIDv7 (dec_PolicyRevisionID d))) "invalid_risk_decision_reference" ;;?
  invalid_if (negb (RiskAction_IsValid (dec_Decision d)) ||
    negb (reasonCodeRegex_MatchString (dec_ReasonCode d)) ||
    containsSensitiveIPRiskText (dec_ReasonCode d) || IsZero (dec_EvaluatedAt d))
    "invalid_risk_decision" ;;?
  check_digests ∅ (dec_ObservationDigestSet d) ;;?
  Ok tt.

Definition IPRiskSummary_Validate (s : IPRiskSummary) : result DomainError unit :=
  invalid_if (negb (RiskAction_IsValid (sum_Decision s)) ||
    negb (RiskBand_IsValid (sum_RiskBand s)) || negb (IPRiskStatus_IsValid (sum_Status s)))
    "invalid_ip_risk_summary" ;;?
  validateIPRiskIdentifier "provider" (sum_Provider s) ;;?
  validateIPRiskIdentifier "schema_version" (sum_ProviderSchemaVersion s) ;;?
  invalid_if (IsZero (sum_ObservedAt s) || IsZero (sum_ExpiresAt s) ||
    negb (After (sum_ExpiresAt s) (sum_ObservedAt s))) "invalid_ip_risk_summary_ttl" ;;?
  invalid_if (negb (reasonCodeRegex_MatchString (sum_ReasonCode s)) ||
    containsSensitiveIPRiskText (sum_ReasonCode s)) "invalid_ip_risk_summary_reason" ;;?
  invalid_if (match sum_PolicyRevisionID s with
              | Some r => negb (IsValidUUIDv7 r) | None => false end)
    "invalid_ip_risk_summary_policy" ;;?
  Ok tt.
End Checks.

(** ** Score bands partition the scores *)

Definition in_band (s : Z) (b : ScoreBand) : Prop := (band_Min b ≤ s ≤ band_Max b)%Z.
#[export] Instance in_band_dec s b : Decision (in_band s b).
Proof. unfold in_band. apply _. Defined.

(** The bands that contain the score [s]. *)
Definition bands_of (s : Z) (bands : list ScoreBand) : list ScoreBand :=
  filter (in_band s) bands.

Section Bands.
(** The bands of [l] run from [lo] to 100 without a gap. *)
Fixpoint chain (lo : Z) (l : list ScoreBand) : Prop :=
  match l with
  | [] => lo = 101%Z
  | b :: l => band_Min b = lo ∧ chain (band_Max b + 1) l
  end.

Lemma valid_band_range b :
  valid_band b = true → (0 ≤ band_Min b ≤ band_Max b ∧ band_Max b ≤ 100)%Z.
Proof.
  unfold valid_band. rewrite negb_true_iff, !orb_false_iff, !Z.ltb_ge. lia.
Qed.

Lemma check_bands_ok prev l :
  check_bands prev l = Ok tt ∧
    match last l with Some b => band_Max b = 100%Z | None => True end ↔
  Forall (λ b, valid_band b = true) l ∧
  match prev, l with
  | None, b :: l => chain (band_Min b) (b :: l)
  | None, [] => True
  | Some _, [] => True
  | Some p, l => chain (band_Max p + 1) l
  end.
Proof.
  revert prev. induction l as [|b l IH]; intros prev; simpl.
  { destruct prev; split; auto. }
  unfold invalid_if, reject_if.
  destruct (valid_band b) eqn:Hv; simpl;
    [|split; [by intros [? _]|intros [HF _]; apply Forall_inv in HF; congruence]].
  rewrite Forall_cons.
  set (q := match prev with Some p => negb (band_Min b =? band_Max p + 1)%Z | None => false end).
  specialize (IH (Some b)).
  assert (check_bands (Some b) l = Ok tt ∧
      match last (b :: l) with Some b => band_Max b = 100%Z | None => True end ↔
      Forall (λ b, valid_band b = true) l ∧ chain (band_Max b + 1) l) as IH'.
  { destruct l as [|b' l]; [|exact IH]. simpl. split; intros [? ?]; split; auto; lia. }
  replace (match l with [] => Some b | _ :: _ => last l end) with (last (b :: l)) by done.
  destruct prev as [p|]; subst q; simpl; [destruct (Z.eqb_spec (band_Min b) (band_Max p + 1))|];
    simpl; try (rewrite IH'; naive_solver).
  naive_solver.
Qed.

Lemma chain_covers lo l :
  Forall (λ b, valid_band b = true) l → chain lo l →
  (lo ≤ 101)%Z ∧ (∀ b, b ∈ l → lo ≤ band_Min b)%Z ∧
  ∀ s, length (bands_of s l) = if decide (lo ≤ s ≤ 100)%Z then 1 else 0.
Proof.
  revert lo. induction l as [|b l IH]; intros lo; simpl.
  { intros _ ->. split_and!; [lia|set_solver|]. intros s. case_decide; [lia|done]. }
  rewrite Forall_cons. intros [Hv HF] [Hmin Hch]. apply valid_band_range in Hv.
  destruct (IH _ HF Hch) as (Hle & Hall & Hcov). split_and!; [lia| |].
  - intros b' [->|Hb']%elem_of_cons; [lia|]. apply Hall in Hb'. lia.
  - intros s. unfold bands_of in *. rewrite filter_cons. specialize (Hcov s).
    unfold in_band at 1. repeat case_decide; simpl; rewrite ?Hcov; try done; lia.
Qed.

Lemma covers_chain lo l :
  Forall (λ b, valid_band b = true) l →
  StronglySorted (not_after (less_Z band_Min)) l → (0 ≤ lo ≤ 101)%Z →
  (∀ b, b ∈ l → lo ≤ band_Min b)%Z →
  (∀ s, (lo ≤ s ≤ 100)%Z → length (bands_of s l) = 1) → chain lo l.
Proof.
  revert lo. induction l as [|b l IH]; intros lo HF Hs Hlo Hmin Hcov; simpl.
  { destruct (decide (lo = 101)%Z) as [|Hne]; [done|].
    specialize (Hcov lo ltac:(lia)). done. }
  apply Forall_cons in HF as [Hv HF]. apply valid_band_range in Hv.
  apply StronglySorted_inv in Hs as [Hs Hb]. rewrite Forall_forall in Hb.
  assert (∀ b', b' ∈ l → band_Min b ≤ band_Min b')%Z as Hb'.
  { intros b' Hin. specialize (Hb b' Hin). unfold not_after, less_Z in Hb.
    apply Z.ltb_ge in Hb. lia. }
  pose proof (Hmin b ltac:(set_solver)) as Hlob.
  assert (band_Min b = lo) as Hblo.
  { destruct (bands_of lo (b :: l)) as [|x xs] eqn:Hx;
      [specialize (Hcov lo ltac:(lia)); by rewrite Hx in Hcov|].
    assert (x ∈ bands_of lo (b :: l)) as Hxin by (rewrite Hx; set_solver).
    unfold bands_of in Hxin. apply list_elem_of_filter in Hxin as [Hxb Hxin].
    unfold in_band in Hxb. apply elem_of_cons in Hxin as [->|Hxin]; [lia|].
    apply Hb' in Hxin. lia. }
  split; [done|]. apply IH; [done..|lia| |].
  - intros b' Hin. pose proof (Hb' _ Hin). destruct (decide (band_Max b < band_Min b')%Z); [lia|].
    rewrite Forall_forall in HF. pose proof (valid_band_range _ (HF _ Hin)).
    specialize (Hcov (band_Min b') ltac:(lia)). exfalso.
    unfold bands_of in Hcov. rewrite filter_cons, decide_True in Hcov by (unfold in_band; lia).
    simpl in Hcov. injection Hcov as Hcov. apply nil_length_inv in Hcov.
    eapply (filter_nil_not_elem_of _ _ b') in Hcov; [|unfold in_band; lia]. done.
  - intros s Hsr. specialize (Hcov s ltac:(lia)). unfold bands_of in *.
    rewrite filter_cons, decide_False in Hcov by (unfold in_band; lia). done.
Qed.
End Bands.

Lemma bands_partition (bands ordered : list ScoreBand) :
  ordered ≡ₚ bands → StronglySorted (not_after (less_Z band_Min)) ordered →
  (validateScoreBands bands ordered = Ok tt ↔
   Forall (λ b, valid_band b = true) bands ∧
   ∀ s, (0 ≤ s ≤ 100)%Z → length (bands_of s bands) = 1).
Proof.
  intros Hp Hs.
  assert (∀ s, length (bands_of s bands) = length (bands_of s ordered)) as Hlen
    by (intros s; unfold bands_of; by rewrite Hp).
  setoid_rewrite Hlen. unfold validateScoreBands. rewrite <- Hp.
  destruct ordered as [|b l]; simpl length; cbn [Nat.eqb].
  { simpl. split; [done|]. intros [_ Hc]. by specialize (Hc 0%Z ltac:(lia)). }
  pose proof (check_bands_ok None (b :: l)) as Hcb.
  destruct (last (b :: l)) as [z|] eqn:Hz; [|by apply last_None in Hz].
  unfold invalid_if at 1 2 3, reject_if. split.
  - destruct (Z.eqb_spec (band_Min b) 0) as [H0|]; simpl negb; cbn iota; [|done].
    destruct (check_bands None (b :: l)) as [[]|]; [|done].
    destruct (Z.eqb_spec (band_Max z) 100); simpl; [|done]. intros _.
    destruct (proj1 Hcb) as [HF Hch]; [done|]. split; [done|].
    rewrite H0 in Hch. destruct (chain_covers _ _ HF Hch) as (_ & _ & Hcov).
    intros s ?. by rewrite Hcov, decide_True.
  - intros [HF Hcov].
    assert (chain 0 (b :: l)) as Hch.
    { apply covers_chain; [done..|lia| |done]. intros b' Hb'. rewrite Forall_forall in HF.
      apply HF, valid_band_range in Hb'. lia. }
    assert (band_Min b = 0)%Z as H0 by apply Hch.
    destruct (proj2 Hcb) as [-> ->]; [split; [done|by rewrite H0]|]. by rewrite H0.
Qed.

(** The score bands of an accepted policy are exactly a partition of the
    scores: validation succeeds if and only if every band is well formed and
    every score from 0 to 100 lies in one band and only one. This holds however
    the unstable sort arranges bands with equal lower bounds. *)
Theorem score_bands_partition (bands ordered : list ScoreBand) :
  ordered ≡ₚ bands → StronglySorted (not_after (less_Z band_Min)) ordered →
  (validateScoreBands bands ordered = Ok tt ↔
   Forall (λ b, valid_band b = true) bands ∧
   ∀ s, (0 ≤ s ≤ 100)%Z → length (bands_of s bands) = 1).
Proof. apply bands_partition. Qed.

Lemma score_bands_partition_witness :
  let low := {| band_Min := 0; band_Max := 59; band_Band := "low"; band_Action := "allow" |}%Z in
  let high := {| band_Min := 60; band_Max := 100; band_Band := "high"; band_Action := "block" |}%Z in
  validateScoreBands [high; low] [low; high] = Ok tt ∧
  ∀ s, (0 ≤ s ≤ 100)%Z → length (bands_of s [high; low]) = 1.
Proof.
  intros low high. split; [reflexivity|].
  apply (score_bands_partition [high; low] [low; high]).
  - apply Permutation_swap.
  - repeat constructor.
  - reflexivity.
Defined.
