(* ===== verification/RiskEval.v ===== *)
(** * Risk evaluation

    [internal/application/iprisk/service.go]: the evaluation of one node under a
    risk policy, provider by provider and fused, and the batch evaluation.  The
    repositories behind the service and the JSON encoding and hash of the digest
    are parameters of the functions that use them. *)

From S2P Require Import Prelude.
From S2P Require Import GoStrings.
From S2P Require Import Domain.
From S2P Require Import Lifecycle.
From S2P Require Import NodeFilter.
From S2P Require Import Health.
From S2P Require Import Risk.

(** ** Data *)

Record providerEvalResult : Type := {
  per_Ref : ProviderRef;
  per_Action : string;
  per_RiskBand : string;
  per_ReasonCode : string;
  per_ObservedAt : time;
  per_ExpiresAt : time;
  per_Status : string;
  per_EvidenceDigest : string;
  per_IsAvailable : bool
}.

(** The zero value, [var blockingRes providerEvalResult]. *)
Definition zero_eval : providerEvalResult :=
  {| per_Ref := {| prov_Provider := ""; prov_SchemaVersion := "" |}; per_Action := "";
     per_RiskBand := ""; per_ReasonCode := ""; per_ObservedAt := 0; per_ExpiresAt := 0;
     per_Status := ""; per_EvidenceDigest := ""; per_IsAvailable := false |}%Z.

Record NodeEvaluation : Type := {
  eval_Decision : RiskDecision;
  eval_Summary : IPRiskSummary;
  eval_RiskBand : string;
  eval_Action : string
}.

(** The four variables the fusion switch assigns. *)
Record fused : Type := {
  fused_Action : string;
  fused_Band : string;
  fused_Reason : string;
  fused_Chosen : providerEvalResult
}.

(** ** Ranks *)

Definition bandRank (b : string) : nat :=
  if String.eqb b RiskBandCritical then 4
  else if String.eqb b RiskBandHigh then 3
  else if String.eqb b RiskBandMedium then 2
  else if String.eqb b RiskBandLow then 1
  else 0.

Definition actionRank (a : string) : nat :=
  if String.eqb a RiskActionBlock then 3
  else if String.eqb a RiskActionReview then 2
  else if String.eqb a RiskActionAllow then 1
  else 0.

Definition maxBand (a b : string) : string := if bandRank b <=? bandRank a then a else b.

Definition maxBandAcross (results : list providerEvalResult) (fallback : string) : string :=
  fold_left (λ highest r,
    if negb (String.eqb (per_RiskBand r) RiskBandUnknown) &&
       (bandRank highest <? bandRank (per_RiskBand r))
    then per_RiskBand r else highest) results fallback.

Section Evaluation.
Context `{GoText} `{TextScanner}.

Definition underscore (from : N) (c : Ascii.ascii) : Ascii.ascii :=
  if is_char from c then byte_of 95 else c.

Definition normalizeReasonCode (reason : string) : string :=
  let reason := ToLower (TrimSpace reason) in
  let reason := map_bytes (underscore 32) reason in
  let reason := map_bytes (underscore 45) reason in
  if String.eqb reason "" then "risk_decision_evaluated" else reason.

(** ** One provider *)

(** A result that cannot be used, with its reason. *)
Definition unusable (ref : ProviderRef) (reason : string) (observedAt expiresAt : time)
    (status digest : string) : providerEvalResult :=
  {| per_Ref := ref; per_Action := RiskActionUnknown; per_RiskBand := RiskBandUnknown;
     per_ReasonCode := reason; per_ObservedAt := observedAt; per_ExpiresAt := expiresAt;
     per_Status := status; per_EvidenceDigest := digest; per_IsAvailable := false |}.

(** The strictest action of the trait rules that apply, and its reason. *)
Definition trait_step (trait : string) (acc : string * string) (rule : TraitRule)
    : string * string :=
  if String.eqb (trait_Trait rule) trait then
    if actionRank acc.1 <? actionRank (trait_Action rule)
    then (trait_Action rule, "trait_rule_" +:+ ToLower trait) else acc
  else acc.

Definition trait_action (rules : list TraitRule) (traits : list string) : string * string :=
  fold_left (λ acc trait, fold_left (trait_step trait) rules acc) traits ("", "").

Definition score_in (score : Z) (b : ScoreBand) : bool :=
  ((band_Min b <=? score) && (score <=? band_Max b))%Z.

(** Steps 6 and 7: traits and score. *)
Definition score_observation (policy : RiskPolicy) (ref : ProviderRef)
    (obs : IPRiskObservation) : providerEvalResult :=
  let '(traitAction, traitReason) :=
    trait_action (pol_TraitRules policy) (iro_AnonymizerTraits obs) in
  let usable action band reason :=
    {| per_Ref := ref; per_Action := action; per_RiskBand := band; per_ReasonCode := reason;
       per_ObservedAt := iro_ObservedAt obs; per_ExpiresAt := iro_ExpiresAt obs;
       per_Status := iro_Status obs; per_EvidenceDigest := iro_EvidenceDigest obs;
       per_IsAvailable := true |} in
  match iro_Score obs with
  | None =>
      if String.eqb traitAction RiskActionBlock
      then usable RiskActionBlock RiskBandCritical traitReason
      else unusable ref "missing_score" (iro_ObservedAt obs) (iro_ExpiresAt obs)
             (iro_Status obs) (iro_EvidenceDigest obs)
  | Some score =>
      let '(scoreBand, scoreAction, scoreReason) :=
        match List.find (score_in score) (pol_ScoreBands policy) with
        | Some b => (band_Band b, band_Action b, "score_band_" +:+ ToLower (band_Band b))
        | None => (RiskBandUnknown, RiskActionUnknown, "")
        end in
      if actionRank scoreAction <? actionRank traitAction then
        usable traitAction
          (if String.eqb traitAction RiskActionBlock then maxBand scoreBand RiskBandHigh
           else if String.eqb traitAction RiskActionReview
                then maxBand scoreBand RiskBandMedium
           else scoreBand) traitReason
      else usable scoreAction scoreBand scoreReason
  end.

Definition evaluateSingleProviderObservation (policy : RiskPolicy) (ref : ProviderRef)
    (obs : option IPRiskObservation) (expectedExitDigest : string) (evaluatedAt : time)
    : providerEvalResult :=
  let defaultTTL :=
    if (pol_MaxObservationAge policy <=? 0)%Z then (24 * 3600 * second)%Z
    else pol_MaxObservationAge policy in
  match obs with
  | None =>
      unusable ref "missing_observation" evaluatedAt (evaluatedAt + defaultTTL)%Z
        IPRiskStatusUnknown ""
  | Some obs =>
      let skip reason status digest :=
        unusable ref reason (iro_ObservedAt obs) (iro_ExpiresAt obs) status digest in
      if negb (String.eqb (iro_Status obs) IPRiskStatusAvailable) then
        skip ("observation_status_" +:+ ToLower (iro_Status obs)) (iro_Status obs) ""
      else if negb (String.eqb expectedExitDigest "") &&
              negb (String.eqb (iro_ExitIdentityDigest obs) expectedExitDigest) then
        skip "exit_identity_mismatch" IPRiskStatusUnknown ""
      else if negb (Before evaluatedAt (iro_ExpiresAt obs)) then
        skip "observation_expired" IPRiskStatusStale ""
      else if (0 <? pol_MaxObservationAge policy)%Z &&
              (pol_MaxObservationAge policy <?
               time_sub evaluatedAt (iro_ObservedAt obs))%Z then
        skip "observation_exceeded_max_age" IPRiskStatusStale ""
      else if (0 <? pol_MinimumConfidence policy)%Z then
        match iro_Confidence obs with
        | None => skip "missing_confidence" (iro_Status obs) (iro_EvidenceDigest obs)
        | Some c =>
            if (c <? pol_MinimumConfidence policy)%Z
            then skip "insufficient_confidence" (iro_Status obs) (iro_EvidenceDigest obs)
            else score_observation policy ref obs
        end
      else score_observation policy ref obs
  end.

(** ** Fusion *)

Definition is_action (a : string) (r : providerEvalResult) : bool :=
  String.eqb (per_Action r) a.
Definition is_unknown (r : providerEvalResult) : bool :=
  is_action RiskActionUnknown r || negb (per_IsAvailable r).

Definition mk_fused (a b reason : string) (chosen : providerEvalResult) : fused :=
  {| fused_Action := a; fused_Band := b; fused_Reason := reason; fused_Chosen := chosen |}.

(** [None]: the index expression [providerResults[0]] panics. *)
Definition fuse_single (policy : RiskPolicy) (results : list providerEvalResult)
    : option fused :=
  match results with
  | [] => None
  | res :: _ =>
      Some (if is_unknown res
            then mk_fused (EffectiveUnknownAction policy) RiskBandUnknown
                   (per_ReasonCode res) res
            else mk_fused (per_Action res) (per_RiskBand res) (per_ReasonCode res) res)
  end.

Definition fuse_all_must_allow (policy : RiskPolicy) (results : list providerEvalResult)
    : option fused :=
  match List.find (is_action RiskActionBlock) results with
  | Some r =>
      Some (mk_fused RiskActionBlock (maxBandAcross results RiskBandCritical)
              "all_must_allow_blocked" r)
  | None =>
      match List.find is_unknown results with
      | Some r =>
          Some (mk_fused (EffectiveUnknownAction policy) RiskBandUnknown
                  ("all_must_allow_" +:+ per_ReasonCode r) r)
      | None =>
          match List.find (is_action RiskActionReview) results with
          | Some r =>
              Some (mk_fused RiskActionReview (maxBandAcross results RiskBandMedium)
                      "all_must_allow_review" r)
          | None =>
              match results with
              | [] => None
              | r :: _ =>
                  Some (mk_fused RiskActionAllow (maxBandAcross results RiskBandLow)
                          "all_must_allow_passed" r)
              end
          end
      end
  end.

Definition better_result (best r : providerEvalResult) : providerEvalResult :=
  if bandRank (per_RiskBand best) <? bandRank (per_RiskBand r) then r
  else if (bandRank (per_RiskBand r) =? bandRank (per_RiskBand best)) &&
          (actionRank (per_Action best) <? actionRank (per_Action r)) then r
  else best.

Definition blocking_result (acc r : providerEvalResult) : providerEvalResult :=
  if is_action RiskActionBlock r &&
     (String.eqb (prov_Provider (per_Ref acc)) "" ||
      (bandRank (per_RiskBand acc) <? bandRank (per_RiskBand r)))
  then r else acc.

Definition fuse_highest_risk (policy : RiskPolicy) (results : list providerEvalResult)
    : option fused :=
  if existsb (is_action RiskActionBlock) results then
    Some (mk_fused RiskActionBlock (maxBandAcross results RiskBandCritical)
            "highest_risk_blocked" (fold_left blocking_result results zero_eval))
  else
    match List.find is_unknown results with
    | Some r =>
        match List.find (is_action RiskActionReview) results with
        | Some r' => Some (mk_fused RiskActionReview RiskBandMedium "highest_risk_review" r')
        | None =>
            Some (mk_fused (EffectiveUnknownAction policy) RiskBandUnknown
                    ("highest_risk_" +:+ per_ReasonCode r) r)
        end
    | None =>
        match results with
        | [] => None
        | r :: rs =>
            let best := fold_left better_result rs r in
            Some (mk_fused (per_Action best) (per_RiskBand best)
                    ("highest_risk_" +:+ per_Action best) best)
        end
    end.

(** The outer option is a panic, the inner result an unsupported mode. *)
Definition fuse (policy : RiskPolicy) (results : list providerEvalResult)
    : option (result DomainError fused) :=
  let mode := sel_Mode (pol_ProviderSelection policy) in
  if String.eqb mode RiskFusionSingleProvider then Ok <$> fuse_single policy results
  else if String.eqb mode RiskFusionAllMustAllow then Ok <$> fuse_all_must_allow policy results
  else if String.eqb mode RiskFusionHighestRisk then Ok <$> fuse_highest_risk policy results
  else Some (Err (NewValidationError "invalid_risk_fusion_mode")).

(** ** One node *)

Definition obs_key (o : IPRiskObservation) : string :=
  provider_key (iro_Provider o) (iro_ProviderSchemaVersion o).

Definition latestByProvider (nodeLogicalID : string) (observations : list IPRiskObservation)
    : gmap string IPRiskObservation :=
  latest_by_key obs_key iro_ObservedAt iro_ID
    (List.filter (λ o, String.eqb (iro_NodeLogicalID o) nodeLogicalID) observations).

Definition providerResults (policy : RiskPolicy) (latest : gmap string IPRiskObservation)
    (expectedExitDigest : string) (evaluatedAt : time) : list providerEvalResult :=
  map (λ ref, evaluateSingleProviderObservation policy ref
         (latest !! provider_key (prov_Provider ref) (prov_SchemaVersion ref))
         expectedExitDigest evaluatedAt)
    (sel_Providers (pol_ProviderSelection policy)).

Definition digest_set (results : list providerEvalResult) : list string :=
  sort_strings (elements (list_to_set
    (List.filter (λ d, negb (String.eqb d "")) (map per_EvidenceDigest results)) : gset string)).

Definition evaluateNodeCore (policy : RiskPolicy) (nodeLogicalID expectedExitDigest : string)
    (observations : list IPRiskObservation) (evaluatedAt : time)
    : option (result DomainError NodeEvaluation) :=
  let results := providerResults policy (latestByProvider nodeLogicalID observations)
                   expectedExitDigest evaluatedAt in
  match fuse policy results with
  | None => None
  | Some (Err e) => Some (Err e)
  | Some (Ok f) =>
      let finalReason := normalizeReasonCode (fused_Reason f) in
      let decision :=
        {| dec_NodeLogicalID := nodeLogicalID; dec_PolicyRevisionID := pol_RevisionID policy;
           dec_Decision := fused_Action f; dec_ReasonCode := finalReason;
           dec_ObservationDigestSet := digest_set results;
           dec_EvaluatedAt := evaluatedAt |} in
      let summary :=
        {| sum_Decision := fused_Action f; sum_RiskBand := fused_Band f;
           sum_Provider := prov_Provider (per_Ref (fused_Chosen f));
           sum_ProviderSchemaVersion := prov_SchemaVersion (per_Ref (fused_Chosen f));
           sum_ObservedAt := per_ObservedAt (fused_Chosen f);
           sum_ExpiresAt := per_ExpiresAt (fused_Chosen f);
           sum_Status := per_Status (fused_Chosen f);
           sum_ReasonCode := finalReason;
           sum_PolicyRevisionID := Some (pol_RevisionID policy) |} in
      Some (RiskDecision_Validate decision ;;?
            IPRiskSummary_Validate summary ;;?
            Ok {| eval_Decision := decision; eval_Summary := summary;
                  eval_RiskBand := fused_Band f; eval_Action := fused_Action f |})
  end.
End Evaluation.

(** ** What it takes to be allowed *)

(** The observation is usable evidence at [at_]: available, about the expected
    exit, unexpired, young and confident enough. *)
Definition usable (p : RiskPolicy) (digest : string) (at_ : time) (o : IPRiskObservation)
    : Prop :=
  iro_Status o = IPRiskStatusAvailable ∧
  (digest = "" ∨ iro_ExitIdentityDigest o = digest) ∧
  (at_ < iro_ExpiresAt o)%Z ∧
  (time_sub at_ (iro_ObservedAt o) ≤ pol_MaxObservationAge p)%Z ∧
  ((0 < pol_MinimumConfidence p)%Z →
   ∃ c, iro_Confidence o = Some c ∧ (pol_MinimumConfidence p ≤ c)%Z).

(** The score lies in a band whose action is allow, and no trait rule that
    applies asks for more than allow. *)
Definition allows (p : RiskPolicy) (o : IPRiskObservation) : Prop :=
  (∃ s b, iro_Score o = Some s ∧ b ∈ pol_ScoreBands p ∧ in_band s b ∧
     band_Action b = RiskActionAllow) ∧
  ∀ r, r ∈ pol_TraitRules p → trait_Trait r ∈ iro_AnonymizerTraits o →
    trait_Action r ≠ RiskActionBlock ∧ trait_Action r ≠ RiskActionReview.

Section Fusion.
Context `{GoText} `{TextScanner}.

Lemma actionRank_block a : actionRank a ≤ 1 → a ≠ RiskActionBlock ∧ a ≠ RiskActionReview.
Proof. intros Ha. split; intros ->; unfold actionRank in Ha; simpl in Ha; lia. Qed.

Lemma actionRank_policy a : isPolicyAction a = true → 1 ≤ actionRank a.
Proof.
  unfold isPolicyAction, actionRank. rewrite !orb_true_iff, !String.eqb_eq.
  intros [[->| ->]| ->]; simpl; lia.
Qed.

Lemma trait_step_le t acc r : actionRank acc.1 ≤ actionRank (trait_step t acc r).1.
Proof.
  unfold trait_step. destruct (String.eqb _ _); [|done].
  destruct (Nat.ltb_spec (actionRank acc.1) (actionRank (trait_Action r))); simpl; lia.
Qed.

Lemma trait_rules_le t rules acc :
  actionRank acc.1 ≤ actionRank (fold_left (trait_step t) rules acc).1.
Proof.
  revert acc. induction rules as [|r rules IH]; intros acc; simpl; [done|].
  etrans; [apply trait_step_le|apply IH].
Qed.

Lemma trait_rules_max t rules acc r :
  r ∈ rules → trait_Trait r = t →
  actionRank (trait_Action r) ≤ actionRank (fold_left (trait_step t) rules acc).1.
Proof.
  revert acc. induction rules as [|r' rules IH]; intros acc; simpl; [by intros ?%elem_of_nil|].
  intros [->|Hr]%elem_of_cons Ht; [|by apply IH].
  etrans; [|apply trait_rules_le]. unfold trait_step. rewrite (proj2 (String.eqb_eq _ _) Ht).
  destruct (Nat.ltb_spec (actionRank acc.1) (actionRank (trait_Action r'))); simpl; lia.
Qed.

Lemma trait_action_max rules traits r :
  r ∈ rules → trait_Trait r ∈ traits →
  actionRank (trait_Action r) ≤ actionRank (trait_action rules traits).1.
Proof.
  intros Hr. unfold trait_action. generalize ("", "") as acc.
  assert (∀ ts acc, actionRank acc.1 ≤ actionRank
    (fold_left (λ acc t, fold_left (trait_step t) rules acc) ts acc).1) as Hle.
  { induction ts as [|t ts IH]; intros acc; simpl; [done|].
    etrans; [apply trait_rules_le|apply IH]. }
  induction traits as [|t traits IH]; intros acc; simpl; [by intros ?%elem_of_nil|].
  intros [Ht|Ht]%elem_of_cons; [|by apply IH].
  etrans; [|apply Hle]. by apply trait_rules_max.
Qed.

(** An available result comes from a usable observation. *)
Lemma single_available p ref obs digest at_ :
  (0 < pol_MaxObservationAge p)%Z →
  let r := evaluateSingleProviderObservation p ref obs digest at_ in
  per_IsAvailable r = true →
  ∃ o, obs = Some o ∧ usable p digest at_ o ∧ r = score_observation p ref o.
Proof.
  intros Hage r. subst r. destruct obs as [o|]; simpl; [|done].
  destruct (String.eqb_spec (iro_Status o) IPRiskStatusAvailable) as [Hst|]; simpl; [|done].
  destruct (negb (digest =? "")%string && negb (iro_ExitIdentityDigest o =? digest)%string)
    eqn:Hd; [done|].
  unfold Before. destruct (Z.ltb_spec at_ (iro_ExpiresAt o)) as [Hex|]; simpl; [|done].
  rewrite (proj2 (Z.ltb_lt _ _) Hage). simpl.
  destruct (Z.ltb_spec (pol_MaxObservationAge p) (time_sub at_ (iro_ObservedAt o)))
    as [|Ha]; [done|].
  assert (digest = "" ∨ iro_ExitIdentityDigest o = digest) as Hdig.
  { destruct (String.eqb_spec digest ""); [by left|].
    destruct (String.eqb_spec (iro_ExitIdentityDigest o) digest); [by right|done]. }
  destruct (Z.ltb_spec 0 (pol_MinimumConfidence p)) as [Hc|Hc].
  - destruct (iro_Confidence o) as [c|] eqn:Hco; [|done].
    destruct (Z.ltb_spec c (pol_MinimumConfidence p)); [done|]. intros _.
    exists o. split; [done|]. split; [|done].
    split; [done|]. split; [done|]. split; [done|]. split; [done|]. by exists c.
  - intros _. exists o. split; [done|]. split; [|done].
    split; [done|]. split; [done|]. split; [done|]. split; [done|]. lia.
Qed.

(** Under a policy whose bands cover the score, allow means [allows]. *)
Lemma score_allow p ref o :
  (∀ s, iro_Score o = Some s → ∃ b, b ∈ pol_ScoreBands p ∧ in_band s b) →
  (∀ b, b ∈ pol_ScoreBands p → isPolicyAction (band_Action b) = true) →
  per_Action (score_observation p ref o) = RiskActionAllow → allows p o.
Proof.
  intros Hcov Hpol. unfold score_observation, allows.
  pose proof (trait_action_max (pol_TraitRules p) (iro_AnonymizerTraits o)) as Hmax.
  destruct (trait_action _ _) as [ta tr]. simpl in Hmax.
  destruct (iro_Score o) as [s|]; [|by destruct (String.eqb ta _)].
  destruct (List.find (score_in s) (pol_ScoreBands p)) as [b|] eqn:Hf.
  - apply find_some in Hf as [Hb Hs]. apply list_elem_of_In in Hb.
    unfold score_in in Hs. apply andb_true_iff in Hs as [Hs1 Hs2].
    apply Z.leb_le in Hs1, Hs2. pose proof (actionRank_policy _ (Hpol _ Hb)) as Hrk.
    destruct (Nat.ltb_spec (actionRank (band_Action b)) (actionRank ta)) as [Hlt|Hle]; simpl.
    + intros ->. unfold actionRank in Hlt at 2. simpl in Hlt. lia.
    + intros Ha. split; [by exists s, b|]. intros r Hr Ht. apply actionRank_block.
      specialize (Hmax r Hr Ht). rewrite Ha in Hle. unfold actionRank in Hle at 2. simpl in Hle. lia.
  - exfalso. destruct (Hcov s eq_refl) as (b & Hb & Hs). apply list_elem_of_In in Hb.
    apply (find_none _ _ Hf) in Hb. unfold score_in, in_band in *.
    apply andb_false_iff in Hb as [Hb|Hb]; apply Z.leb_gt in Hb; lia.
Qed.

(** What an allow says about the results that were fused. *)
Lemma fuse_allow p results f :
  fuse p results = Some (Ok f) → fused_Action f = RiskActionAllow →
  EffectiveUnknownAction p ≠ RiskActionAllow →
  (sel_Mode (pol_ProviderSelection p) = RiskFusionSingleProvider → length results = 1) →
  Forall (λ r, is_unknown r = false ∧ is_action RiskActionBlock r = false ∧
    (sel_Mode (pol_ProviderSelection p) ≠ RiskFusionHighestRisk →
     per_Action r ≠ RiskActionReview)) results.
Proof.
  unfold fuse. intros Hf Ha Hun Hone. apply Forall_forall. intros r Hr.
  destruct (String.eqb_spec (sel_Mode (pol_ProviderSelection p)) RiskFusionSingleProvider)
    as [He|Hn1].
  { specialize (Hone He). destruct results as [|r0 [|]]; [done| |done].
    apply list_elem_of_singleton in Hr as ->. simpl in Hf. injection Hf as <-.
    destruct (is_unknown r0); simpl in Ha; [done|]. unfold is_action. rewrite Ha. done. }
  destruct (String.eqb_spec (sel_Mode (pol_ProviderSelection p)) RiskFusionAllMustAllow) as [He|Hn2].
  { unfold fuse_all_must_allow in Hf.
    destruct (List.find (is_action RiskActionBlock) _) eqn:H1; [simpl in Hf; injection Hf as <-; done|].
    destruct (List.find is_unknown _) eqn:H2; [simpl in Hf; injection Hf as <-; done|].
    destruct (List.find (is_action RiskActionReview) _) eqn:H3;
      [simpl in Hf; injection Hf as <-; done|].
    rewrite list_elem_of_In in Hr. split; [by apply (find_none _ _ H2)|].
    split; [by apply (find_none _ _ H1)|]. intros _ Hrev.
    apply (find_none _ _ H3) in Hr. unfold is_action in Hr. by rewrite Hrev in Hr. }
  destruct (String.eqb_spec (sel_Mode (pol_ProviderSelection p)) RiskFusionHighestRisk)
    as [He|]; [|done].
  unfold fuse_highest_risk in Hf.
  destruct (existsb _ _) eqn:H1; [simpl in Hf; injection Hf as <-; done|].
  destruct (List.find is_unknown _) eqn:H2.
  { destruct (List.find (is_action RiskActionReview) _); simpl in Hf; injection Hf as <-; done. }
  rewrite list_elem_of_In in Hr. split; [by apply (find_none _ _ H2)|]. split; [|done].
  destruct (is_action RiskActionBlock r) eqn:Hb; [|done].
  rewrite (proj2 (existsb_exists _ _)) in H1; [done|]. by exists r.
Qed.

Lemma score_observation_action p ref o :
  (∀ b, b ∈ pol_ScoreBands p → isPolicyAction (band_Action b) = true) →
  (∀ r, r ∈ pol_TraitRules p → isPolicyAction (trait_Action r) = true) →
  is_unknown (score_observation p ref o) = false →
  isPolicyAction (per_Action (score_observation p ref o)) = true.
Proof.
  intros Hb Hr. unfold score_observation.
  assert (∀ a, a = (trait_action (pol_TraitRules p) (iro_AnonymizerTraits o)).1 →
    a = "" ∨ isPolicyAction a = true) as Hta.
  { intros a ->. unfold trait_action.
    assert (∀ t rules acc, (∀ r, r ∈ rules → isPolicyAction (trait_Action r) = true) →
      acc.1 = "" ∨ isPolicyAction acc.1 = true →
      (fold_left (trait_step t) rules acc).1 = "" ∨
      isPolicyAction (fold_left (trait_step t) rules acc).1 = true) as Hin.
    { intros t rules. induction rules as [|r rules IH]; intros acc Hrs Hacc; simpl; [done|].
      apply IH; [set_solver|]. unfold trait_step. destruct (String.eqb _ _); [|done].
      destruct (_ <? _); [|done]. right. apply Hrs. set_solver. }
    generalize (iro_AnonymizerTraits o) as ts. intros ts.
    assert (("", "").1 = "" ∨ isPolicyAction ("", "").1 = true) as Hacc by (by left).
    revert Hacc. generalize ("", "") as acc.
    induction ts as [|t ts IH]; intros acc Hacc; simpl; [done|]. apply IH. by apply Hin. }
  destruct (trait_action _ _) as [ta tr]. specialize (Hta ta eq_refl).
  destruct (iro_Score o) as [s|]; [|by destruct (String.eqb ta _)].
  destruct (List.find _ _) as [b|] eqn:Hf.
  - apply find_some in Hf as [Hin _]. apply list_elem_of_In, Hb in Hin.
    destruct (Nat.ltb_spec (actionRank (band_Action b)) (actionRank ta)) as [Hlt|]; simpl; [|done].
    destruct Hta as [->|]; [|done]. unfold actionRank in Hlt at 2. simpl in Hlt. lia.
  - destruct (Nat.ltb_spec (actionRank RiskActionUnknown) (actionRank ta)) as [Hlt|]; simpl; [|done].
    destruct Hta as [->|]; [|done]. unfold actionRank in Hlt. simpl in Hlt. lia.
Qed.
End Fusion.

(** What the evaluation relies on in an accepted policy. *)
Record sound_policy (p : RiskPolicy) : Prop := {
  sound_age : (0 < pol_MaxObservationAge p)%Z;
  sound_bands : ∀ s, (0 ≤ s ≤ 100)%Z → length (bands_of s (pol_ScoreBands p)) = 1;
  sound_band_actions : ∀ b, b ∈ pol_ScoreBands p → isPolicyAction (band_Action b) = true;
  sound_trait_actions : ∀ r, r ∈ pol_TraitRules p → isPolicyAction (trait_Action r) = true;
  sound_mode : RiskFusionMode_IsValid (sel_Mode (pol_ProviderSelection p)) = true;
  sound_providers : sel_Providers (pol_ProviderSelection p) ≠ [];
  sound_single : sel_Mode (pol_ProviderSelection p) = RiskFusionSingleProvider →
    length (sel_Providers (pol_ProviderSelection p)) = 1
}.

Lemma validated_policy_sound `{GoText} `{TextScanner} ordered p :
  ordered ≡ₚ pol_ScoreBands p → StronglySorted (not_after (less_Z band_Min)) ordered →
  RiskPolicy_Validate ordered p = Ok tt → sound_policy p.
Proof.
  intros Hp Hs. unfold RiskPolicy_Validate. unfold invalid_if, reject_if at 1 2 3.
  destruct (negb (IsValidUUIDv7 _)); [done|]. unfold reject_if at 1.
  destruct (_ || (length _ =? 0)) eqn:Hm; [done|]. unfold reject_if at 1.
  destruct (_ && _) eqn:Hsingle; [done|].
  destruct (check_providers _ _) as [[]|]; [|done].
  destruct ((pol_MaxObservationAge p <=? 0)%Z || _ || _) eqn:Hage; [done|].
  destruct (validateScoreBands _ _) as [[]|] eqn:Hb; [|done]. simpl reject_if.
  destruct (for_each _ (pol_TraitRules p)) as [[]|] eqn:Ht; [|done]. intros _.
  apply bands_partition in Hb as [HF Hcov]; [|done..]. rewrite Forall_forall in HF.
  rewrite for_each_ok in Ht. rewrite !orb_false_iff, Z.leb_gt in Hage.
  apply orb_false_iff in Hm as [Hmode Hprov]. apply negb_false_iff in Hmode.
  apply Nat.eqb_neq in Hprov. split; try done.
  - lia.
  - intros b Hin. apply HF in Hin. unfold valid_band in Hin.
    rewrite negb_true_iff, !orb_false_iff, !negb_false_iff in Hin. by destruct Hin as [_ ?].
  - intros r Hr. specialize (Ht r Hr). simpl in Ht. destruct (isPolicyAction _); [done|].
    by rewrite orb_true_r in Ht.
  - intros Hnil. by rewrite Hnil in Hprov.
  - intros He. rewrite (proj2 (String.eqb_eq _ _) He) in Hsingle. simpl in Hsingle.
    by apply negb_false_iff, Nat.eqb_eq in Hsingle.
Qed.

(** C35. A node is only allowed on evidence. When an accepted policy (whose answer
    to missing data is not itself "allow") decides to allow a node, then for
    every provider the policy names there is an observation of that node from
    that provider that is available, about the expected exit identity, unexpired,
    within the maximum age and confident enough, and that provider does not
    block the node; unless the fusion mode is "highest risk", each of these
    observations has its score in a band whose action is allow and no trait of
    it falls under a stricter rule. *)
Theorem risk_allow_needs_evidence `{GoText} `{TextScanner} (ordered : list ScoreBand)
    (p : RiskPolicy) (node digest : string) (obs : list IPRiskObservation) (at_ : time)
    (e : NodeEvaluation) :
  ordered ≡ₚ pol_ScoreBands p → StronglySorted (not_after (less_Z band_Min)) ordered →
  RiskPolicy_Validate ordered p = Ok tt →
  (∀ o, o ∈ obs → validatePercent "score" (iro_Score o) = Ok tt) →
  EffectiveUnknownAction p ≠ RiskActionAllow →
  evaluateNodeCore p node digest obs at_ = Some (Ok e) →
  dec_Decision (eval_Decision e) = RiskActionAllow →
  ∀ ref, ref ∈ sel_Providers (pol_ProviderSelection p) →
    ∃ o, o ∈ obs ∧ iro_NodeLogicalID o = node ∧
      obs_key o = provider_key (prov_Provider ref) (prov_SchemaVersion ref) ∧
      usable p digest at_ o ∧
      per_Action (score_observation p ref o) ≠ RiskActionBlock ∧
      (sel_Mode (pol_ProviderSelection p) ≠ RiskFusionHighestRisk → allows p o).
Proof.
  intros Hp Hs Hv Hobs Hun. apply validated_policy_sound in Hv as Hsp; [|done..].
  unfold evaluateNodeCore. destruct (fuse _ _) as [[f|]|] eqn:Hf; [|done..].
  destruct (RiskDecision_Validate _) as [[]|]; [|done].
  destruct (IPRiskSummary_Validate _) as [[]|]; [|done]. intros [= <-]. simpl. intros Ha ref Href.
  apply fuse_allow in Hf; [|done..|intros He; unfold providerResults; rewrite length_map;
    by apply (sound_single _ Hsp)].
  rewrite Forall_forall in Hf.
  destruct (Hf (evaluateSingleProviderObservation p ref
    (latestByProvider node obs !! provider_key (prov_Provider ref) (prov_SchemaVersion ref))
    digest at_)) as (Hk & Hblk & Hrev).
  { unfold providerResults. apply list_elem_of_fmap. by exists ref. }
  destruct (single_available p ref (latestByProvider node obs !!
    provider_key (prov_Provider ref) (prov_SchemaVersion ref)) digest at_) as (o & Ho & Hu & Heq).
  { apply (sound_age _ Hsp). }
  { unfold is_unknown in Hk. apply orb_false_iff in Hk as [_ Hk]. by apply negb_false_iff in Hk. }
  rewrite Heq in *. clear Heq Hf.
  destruct (latest_by_key_spec obs_key iro_ObservedAt iro_ID
    (List.filter (λ o, String.eqb (iro_NodeLogicalID o) node) obs)) as [Hm _].
  destruct (Hm _ _ Ho) as (Hin & Hkey & _).
  apply list_elem_of_In, filter_In in Hin as [Hin Hnode]. apply list_elem_of_In in Hin.
  apply String.eqb_eq in Hnode. exists o. split; [done|]. split; [done|]. split; [done|].
  split; [done|]. unfold is_action in Hblk. apply String.eqb_neq in Hblk. split; [done|].
  intros Hmode. apply (score_allow p ref).
  - intros s Hsc. specialize (Hobs _ Hin). rewrite Hsc in Hobs. simpl in Hobs.
    apply invalid_if_ok, orb_false_iff in Hobs as [H1 H2]. apply Z.ltb_ge in H1, H2.
    pose proof (sound_bands _ Hsp s ltac:(lia)) as Hc.
    destruct (bands_of s (pol_ScoreBands p)) as [|b bs] eqn:Hbs; [done|].
    exists b. assert (b ∈ bands_of s (pol_ScoreBands p)) as Hb by (rewrite Hbs; set_solver).
    unfold bands_of in Hb. apply list_elem_of_filter in Hb as [? ?]. by split.
  - apply (sound_band_actions _ Hsp).
  - pose proof (score_observation_action p ref o (sound_band_actions _ Hsp)
      (sound_trait_actions _ Hsp) Hk) as Hpa.
    unfold isPolicyAction in Hpa. rewrite !orb_true_iff, !String.eqb_eq in Hpa.
    specialize (Hrev Hmode). naive_solver.
Qed.

Lemma evaluation_returns `{GoText} `{TextScanner} (ordered : list ScoreBand)
    (p : RiskPolicy) (node digest : string) (obs : list IPRiskObservation) (at_ : time) :
  ordered ≡ₚ pol_ScoreBands p → StronglySorted (not_after (less_Z band_Min)) ordered →
  RiskPolicy_Validate ordered p = Ok tt →
  is_Some (evaluateNodeCore p node digest obs at_).
Proof.
  intros Hp Hs Hv. apply validated_policy_sound in Hv as Hsp; [|done..].
  unfold evaluateNodeCore. set (rs := providerResults _ _ _ _).
  assert (rs ≠ []) as Hne.
  { subst rs. unfold providerResults. pose proof (sound_providers _ Hsp).
    by destruct (sel_Providers _). }
  assert (is_Some (fuse p rs)) as [[f|e] ->]; [|done..].
  unfold fuse. destruct rs as [|r rs]; [done|].
  repeat (destruct (String.eqb _ _)); [done| | |done]; apply fmap_is_Some.
  - unfold fuse_all_must_allow.
    by destruct (List.find _ _); [|destruct (List.find _ _); [|destruct (List.find _ _)]].
  - unfold fuse_highest_risk. destruct (existsb _ _); [done|].
    destruct (List.find is_unknown _); [|done]. by destruct (List.find _ _).
Qed.

(** Evaluation never panics under an accepted policy: the index expressions on
    the provider results are always in range, whatever the observations. *)
Theorem risk_evaluation_total `{GoText} `{TextScanner} (ordered : list ScoreBand)
    (p : RiskPolicy) (node digest : string) (obs : list IPRiskObservation) (at_ : time) :
  ordered ≡ₚ pol_ScoreBands p → StronglySorted (not_after (less_Z band_Min)) ordered →
  RiskPolicy_Validate ordered p = Ok tt →
  is_Some (evaluateNodeCore p node digest obs at_).
Proof. apply evaluation_returns. Qed.

(** The order in which observations are stored does not change a decision: two
    orderings of the same observations (with distinct identifiers) evaluate to
    the same result, panics and errors included. *)
Theorem risk_evaluation_order_independent `{GoText} `{TextScanner} (p : RiskPolicy)
    (node digest : string) (obs obs' : list IPRiskObservation) (at_ : time) :
  obs ≡ₚ obs' → ids_unique iro_ID obs →
  evaluateNodeCore p node digest obs at_ = evaluateNodeCore p node digest obs' at_.
Proof.
  intros Hp Hu. unfold evaluateNodeCore.
  assert (latestByProvider node obs = latestByProvider node obs') as ->; [|done].
  unfold latestByProvider. apply latest_by_key_perm.
  - clear Hu. induction Hp as [|o l l' _ IH|o o' l|]; simpl; [done| | |by etrans].
    + destruct (String.eqb _ _); [by apply perm_skip|done].
    + do 2 destruct (String.eqb _ _); first [done|apply perm_swap].
  - intros o o' Ho Ho'. rewrite list_elem_of_In in Ho, Ho'.
    apply filter_In in Ho as [Ho _], Ho' as [Ho' _]. by apply Hu; apply list_elem_of_In.
Qed.

(** In "all must allow" mode a provider without data takes precedence over a
    provider that asks for review: when missing data is configured to allow, the
    node is allowed although an available provider answered "review" (in
    "highest risk" mode the same results give "review"). *)
Theorem missing_provider_hides_review `{GoText} `{TextScanner} (p : RiskPolicy)
    (results : list providerEvalResult) (r u : providerEvalResult) :
  sel_Mode (pol_ProviderSelection p) = RiskFusionAllMustAllow →
  EffectiveUnknownAction p = RiskActionAllow →
  Forall (λ r, is_action RiskActionBlock r = false) results →
  r ∈ results → is_action RiskActionReview r = true →
  u ∈ results → is_unknown u = true →
  (∃ f, fuse p results = Some (Ok f) ∧ fused_Action f = RiskActionAllow) ∧
  (∃ f, fuse_highest_risk p results = Some f ∧ fused_Action f = RiskActionReview).
Proof.
  intros Hmode Hun HF Hr Hrev Hu Hunk. rewrite Forall_forall in HF.
  rewrite list_elem_of_In in Hr, Hu.
  assert (List.find (is_action RiskActionBlock) results = None) as Hnb.
  { destruct (List.find _ _) as [b|] eqn:Hb; [|done]. apply find_some in Hb as [Hb Hb'].
    rewrite HF in Hb'; [done|by apply list_elem_of_In]. }
  destruct (List.find is_unknown results) as [x|] eqn:Hx;
    [|by rewrite (find_none _ _ Hx _ Hu) in Hunk].
  destruct (List.find (is_action RiskActionReview) results) as [y|] eqn:Hy;
    [|by rewrite (find_none _ _ Hy _ Hr) in Hrev]. split.
  - unfold fuse. rewrite Hmode. simpl. unfold fuse_all_must_allow. rewrite Hnb, Hx. simpl.
    eexists. by split.
  - unfold fuse_highest_risk.
    assert (existsb (is_action RiskActionBlock) results = false) as ->.
    { apply not_true_is_false. intros (z & Hz & Hz')%existsb_exists.
      rewrite (find_none _ _ Hnb z Hz) in Hz'. done. }
    rewrite Hx, Hy. eexists. by split.
Qed.

(** ** The service *)

(** What the service reads from its repositories. *)
Record RiskRepositories : Type := {
  repo_List : option (string → result DomainError (list IPRiskObservation));
  repo_Policies : option ((string → result DomainError RiskPolicy) * result DomainError RiskPolicy)
}.

Definition resolvePolicy (repos : RiskRepositories) (explicit : option RiskPolicy)
    (revisionID : string) : result DomainError RiskPolicy :=
  match explicit with
  | Some p => Ok p
  | None =>
      match repo_Policies repos with
      | None => Err (NewValidationError "missing_risk_policy")
      | Some (getByID, getActive) =>
          if negb (String.eqb revisionID "") then getByID revisionID else getActive
      end
  end.

(** Observations given with the request, or else those of the repository. *)
Definition fetch_observations (repos : RiskRepositories) (given : list IPRiskObservation)
    (node : string) : result DomainError (list IPRiskObservation) :=
  match repo_List repos with
  | Some list => if length given =? 0 then list node else Ok given
  | None => Ok given
  end.

Record BatchResult : Type := {
  batch_Decisions : list RiskDecision;
  batch_DecisionMap : gmap string RiskDecision;
  batch_Summaries : list IPRiskSummary;
  batch_AdmittedNodeIDs : list string;
  batch_ExcludedNodeIDs : list string
}.

Definition empty_batch : BatchResult :=
  {| batch_Decisions := []; batch_DecisionMap := ∅; batch_Summaries := [];
     batch_AdmittedNodeIDs := []; batch_ExcludedNodeIDs := [] |}.

(** Does this decision admit the node? *)
Definition decision_admits (p : RiskPolicy) (decision : string) : bool :=
  String.eqb decision RiskActionAllow ||
  (String.eqb decision RiskActionReview && String.eqb (EffectiveReviewAction p) RiskActionAllow).

Section Service.
Context `{GoText} `{TextScanner}.
Context (now : time) (sort_bands : list ScoreBand → list ScoreBand) (repos : RiskRepositories).

Definition EvaluateNode (node digest : string) (explicit : option RiskPolicy)
    (revisionID : string) (at_ : time) (given : list IPRiskObservation)
    : option (result DomainError NodeEvaluation) :=
  match
    (invalid_if (negb (IsValidLogicalID node)) "invalid_node_logical_id" ;;?
     let? p := resolvePolicy repos explicit revisionID in
     RiskPolicy_Validate (sort_bands (pol_ScoreBands p)) p ;;?
     let? obs := fetch_observations repos given node in
     Ok (p, obs))
  with
  | Err e => Some (Err e)
  | Ok (p, obs) => evaluateNodeCore p node digest obs (if IsZero at_ then now else at_)
  end.

(** The deduplicated, sorted node IDs. *)
Fixpoint unique_nodes (seen : gset string) (ids : list string)
    : result DomainError (list string) :=
  match ids with
  | [] => Ok []
  | id :: ids =>
      invalid_if (negb (IsValidLogicalID id)) "invalid_node_logical_id" ;;?
      if bool_decide (id ∈ seen) then unique_nodes seen ids
      else let? rest := unique_nodes ({[id]} ∪ seen) ids in Ok (id :: rest)
  end.

Definition evaluate_one (p : RiskPolicy) (digests : gmap string string)
    (given : list IPRiskObservation) (at_ : time) (node : string)
    : option (result DomainError NodeEvaluation) :=
  match fetch_observations repos
          (List.filter (λ o, String.eqb (iro_NodeLogicalID o) node) given) node with
  | Err e => Some (Err e)
  | Ok obs => evaluateNodeCore p node (default "" (digests !! node)) obs at_
  end.

Definition record_evaluation (p : RiskPolicy) (node : string) (e : NodeEvaluation)
    (res : BatchResult) : BatchResult :=
  let admits := decision_admits p (dec_Decision (eval_Decision e)) in
  {| batch_Decisions := batch_Decisions res ++ [eval_Decision e];
     batch_DecisionMap := <[node := eval_Decision e]> (batch_DecisionMap res);
     batch_Summaries := batch_Summaries res ++ [eval_Summary e];
     batch_AdmittedNodeIDs :=
       if admits then batch_AdmittedNodeIDs res ++ [node] else batch_AdmittedNodeIDs res;
     batch_ExcludedNodeIDs :=
       if admits then batch_ExcludedNodeIDs res else batch_ExcludedNodeIDs res ++ [node] |}.

Fixpoint evaluate_nodes (p : RiskPolicy) (digests : gmap string string)
    (given : list IPRiskObservation) (at_ : time) (ids : list string) (res : BatchResult)
    : option (result DomainError BatchResult) :=
  match ids with
  | [] => Some (Ok res)
  | node :: ids =>
      match evaluate_one p digests given at_ node with
      | None => None
      | Some (Err e) => Some (Err e)
      | Some (Ok e) =>
          evaluate_nodes p digests given at_ ids (record_evaluation p node e res)
      end
  end.

(** The decision digest of the result is a function of the fields kept here. *)
Definition EvaluateBatch (ids : list string) (digests : gmap string string)
    (explicit : option RiskPolicy) (revisionID : string) (at_ : time)
    (given : list IPRiskObservation) : option (result DomainError BatchResult) :=
  match
    (let? p := resolvePolicy repos explicit revisionID in
     RiskPolicy_Validate (sort_bands (pol_ScoreBands p)) p ;;?
     let? unique := unique_nodes ∅ ids in
     Ok (p, sort_strings unique))
  with
  | Err e => Some (Err e)
  | Ok (p, unique) =>
      match evaluate_nodes p digests given (if IsZero at_ then now else at_) unique empty_batch with
      | Some (Ok res) =>
          Some (Ok {| batch_Decisions := batch_Decisions res;
                      batch_DecisionMap := batch_DecisionMap res;
                      batch_Summaries := batch_Summaries res;
                      batch_AdmittedNodeIDs := sort_strings (batch_AdmittedNodeIDs res);
                      batch_ExcludedNodeIDs := sort_strings (batch_ExcludedNodeIDs res) |})
      | r => r
      end
  end.

Lemma unique_nodes_spec seen ids l :
  unique_nodes seen ids = Ok l →
  NoDup l ∧ ∀ x, x ∈ l ↔ x ∈ ids ∧ x ∉ seen.
Proof.
  revert seen l. induction ids as [|id ids IH]; intros seen l; simpl.
  { intros [= <-]. split; [constructor|set_solver]. }
  unfold invalid_if, reject_if. destruct (negb _); [done|].
  case_bool_decide as Hin.
  - intros Hl. destruct (IH _ _ Hl) as [Hnd Hx]. split; [done|]. intros x. rewrite Hx. set_solver.
  - destruct (unique_nodes _ ids) as [rest|] eqn:Hr; [|done]. intros [= <-].
    destruct (IH _ _ Hr) as [Hnd Hx]. split; [constructor; [rewrite Hx; set_solver|done]|].
    intros x. rewrite elem_of_cons, Hx. destruct (decide (x = id)); set_solver.
Qed.

(** The bookkeeping after the nodes [done_] have been recorded. *)
Definition batch_ok (p : RiskPolicy) (done_ : list string) (res : BatchResult) : Prop :=
  batch_AdmittedNodeIDs res ++ batch_ExcludedNodeIDs res ≡ₚ done_ ∧
  (∀ x, x ∈ done_ → ∃ d, batch_DecisionMap res !! x = Some d ∧ dec_NodeLogicalID d = x ∧
     (x ∈ batch_AdmittedNodeIDs res ↔ decision_admits p (dec_Decision d) = true)) ∧
  map dec_NodeLogicalID (batch_Decisions res) = done_.

Lemma evaluateNodeCore_node p node digest obs at_ e :
  evaluateNodeCore p node digest obs at_ = Some (Ok e) →
  dec_NodeLogicalID (eval_Decision e) = node ∧
  dec_PolicyRevisionID (eval_Decision e) = pol_RevisionID p.
Proof.
  unfold evaluateNodeCore. destruct (fuse _ _) as [[f|]|]; [|done..].
  destruct (RiskDecision_Validate _) as [[]|]; [|done].
  destruct (IPRiskSummary_Validate _) as [[]|]; [|done]. by intros [= <-].
Qed.

Lemma evaluate_one_node p digests given at_ node e :
  evaluate_one p digests given at_ node = Some (Ok e) →
  dec_NodeLogicalID (eval_Decision e) = node ∧
  dec_PolicyRevisionID (eval_Decision e) = pol_RevisionID p.
Proof.
  unfold evaluate_one. destruct (fetch_observations _ _ _); [|done]. apply evaluateNodeCore_node.
Qed.

(** The decisions of a batch, in the order of its nodes. *)
Lemma evaluate_nodes_decisions p digests given at_ ids res res' :
  evaluate_nodes p digests given at_ ids res = Some (Ok res') →
  ∃ ds, batch_Decisions res' = batch_Decisions res ++ ds ∧ map dec_NodeLogicalID ds = ids ∧
    Forall (λ d, dec_PolicyRevisionID d = pol_RevisionID p) ds.
Proof.
  revert res. induction ids as [|node ids IH]; intros res; simpl.
  { intros [= <-]. exists []. by rewrite app_nil_r. }
  destruct (evaluate_one _ _ _ _ node) as [[e|]|] eqn:He; [|done..].
  apply evaluate_one_node in He as [Hn Hr]. intros (ds & -> & Hd & Hf)%IH. simpl.
  exists (eval_Decision e :: ds). rewrite <- app_assoc. simpl. rewrite Hn, Hd.
  split; [done|]. split; [done|]. by constructor.
Qed.

Lemma record_evaluation_ok p done_ node e res :
  node ∉ done_ → dec_NodeLogicalID (eval_Decision e) = node →
  batch_ok p done_ res → batch_ok p (done_ ++ [node]) (record_evaluation p node e res).
Proof.
  intros Hn He (Hp & Hd & Hl). unfold batch_ok, record_evaluation. simpl.
  assert (∀ x, x ∈ batch_AdmittedNodeIDs res → x ∈ done_) as Hsub
    by (intros x Hx; rewrite <- Hp; set_solver).
  split_and!.
  - destruct (decision_admits _ _); rewrite <- Hp; solve_Permutation.
  - intros x Hx. destruct (decide (x = node)) as [->|Hne].
    + exists (eval_Decision e). rewrite lookup_insert_eq. split_and!; [done..|].
      destruct (decision_admits _ _); [set_solver|]. split; [|done]. intros Hx'%Hsub. done.
    + destruct (Hd x) as (d & ? & ? & Had); [set_solver|]. exists d.
      rewrite lookup_insert_ne by done. split_and!; [done..|].
      rewrite <- Had. destruct (decision_admits p (dec_Decision (eval_Decision e))); set_solver.
  - by rewrite map_app, Hl, <- He.
Qed.

Lemma evaluate_nodes_ok p digests given at_ ids done_ res res' :
  NoDup (done_ ++ ids) → batch_ok p done_ res →
  evaluate_nodes p digests given at_ ids res = Some (Ok res') →
  batch_ok p (done_ ++ ids) res'.
Proof.
  revert done_ res. induction ids as [|node ids IH]; intros done_ res Hnd Hok; simpl.
  { intros [= <-]. by rewrite app_nil_r. }
  destruct (evaluate_one _ _ _ _ node) as [[e|]|] eqn:He; [|done..].
  intros Hr. rewrite (app_assoc done_ [node] ids : done_ ++ node :: ids = _).
  apply (IH _ (record_evaluation p node e res)); [|apply record_evaluation_ok|]; try done.
  - by rewrite <- app_assoc.
  - apply NoDup_app in Hnd as (_ & Hnd & _). intros Hx. apply (Hnd _ Hx). set_solver.
  - by eapply evaluate_one_node.
Qed.
End Service.

Lemma batch_partition `{GoText} `{TextScanner} (now : time)
    (sort_bands : list ScoreBand → list ScoreBand) (repos : RiskRepositories)
    (ids : list string) (digests : gmap string string) (p : RiskPolicy) (rev : string)
    (at_ : time) (given : list IPRiskObservation) (res : BatchResult) :
  EvaluateBatch now sort_bands repos ids digests (Some p) rev at_ given = Some (Ok res) →
  (∀ x, x ∈ ids ↔ x ∈ batch_AdmittedNodeIDs res ++ batch_ExcludedNodeIDs res) ∧
  NoDup (batch_AdmittedNodeIDs res ++ batch_ExcludedNodeIDs res) ∧
  StronglySorted (not_after str_less) (map dec_NodeLogicalID (batch_Decisions res)) ∧
  ∀ x, x ∈ ids → ∃ d, batch_DecisionMap res !! x = Some d ∧ dec_NodeLogicalID d = x ∧
    (x ∈ batch_AdmittedNodeIDs res ↔ decision_admits p (dec_Decision d) = true).
Proof.
  unfold EvaluateBatch. simpl.
  destruct (RiskPolicy_Validate _ _) as [[]|]; [|done].
  destruct (unique_nodes ∅ ids) as [unique|] eqn:Hu; [|done].
  destruct (evaluate_nodes _ _ _ _ _ _ _) as [[r|]|] eqn:Hr; [|done..]. intros [= <-]. simpl.
  apply unique_nodes_spec in Hu as [Hnd Hx].
  apply (evaluate_nodes_ok _ _ _ _ _ _ []) in Hr as (Hp & Hd & Hl).
  - simpl in *. setoid_rewrite elem_of_sort_strings in Hd.
    assert (sort_strings (batch_AdmittedNodeIDs r) ++ sort_strings (batch_ExcludedNodeIDs r)
      ≡ₚ unique) as Hp' by (by rewrite !sort_strings_perm, Hp, sort_strings_perm).
    split_and!.
    + intros x. rewrite Hp', Hx. set_solver.
    + by rewrite Hp'.
    + rewrite Hl. apply sort_strings_sorted.
    + intros x Hin. setoid_rewrite elem_of_sort_strings. apply Hd, Hx. set_solver.
  - simpl. by rewrite sort_strings_perm.
  - by split_and!; [|intros x ?%elem_of_nil|].
Qed.

(** A batch never panics: it validates the policy before it evaluates. *)
Lemma batch_returns `{GoText} `{TextScanner} (now : time)
    (sort_bands : list ScoreBand → list ScoreBand) (repos : RiskRepositories)
    (ids : list string) (digests : gmap string string) (explicit : option RiskPolicy)
    (rev : string) (at_ : time) (given : list IPRiskObservation) :
  (∀ l, sort_bands l ≡ₚ l ∧ StronglySorted (not_after (less_Z band_Min)) (sort_bands l)) →
  is_Some (EvaluateBatch now sort_bands repos ids digests explicit rev at_ given).
Proof.
  intros Hsort. unfold EvaluateBatch.
  destruct (resolvePolicy _ _ _) as [p|]; [|done].
  destruct (RiskPolicy_Validate _ p) as [[]|] eqn:Hv; [|done].
  destruct (unique_nodes ∅ ids) as [unique|]; [|done].
  destruct (Hsort (pol_ScoreBands p)) as [Hp Hs].
  assert (∀ nodes at_ res, is_Some (evaluate_nodes repos p digests given at_ nodes res)) as Hall.
  { induction nodes as [|node nodes IH]; intros t res; simpl; [done|]. unfold evaluate_one.
    destruct (fetch_observations _ _ _) as [obs|]; [|done].
    destruct (evaluation_returns _ p node (default "" (digests !! node)) obs t Hp Hs Hv)
      as [[e|e] ->]; [apply IH|done]. }
  destruct (Hall (sort_strings unique) (if IsZero at_ then now else at_) empty_batch)
    as [[res|err] ->]; done.
Qed.

(** Every requested node gets a decision of the policy the batch ran under. *)
Lemma batch_decides `{GoText} `{TextScanner} (now : time)
    (sort_bands : list ScoreBand → list ScoreBand) (repos : RiskRepositories)
    (ids : list string) (digests : gmap string string) (p : RiskPolicy) (rev : string)
    (at_ : time) (given : list IPRiskObservation) (res : BatchResult) :
  EvaluateBatch now sort_bands repos ids digests (Some p) rev at_ given = Some (Ok res) →
  (∀ x, x ∈ ids ↔ ∃ d, d ∈ batch_Decisions res ∧ dec_NodeLogicalID d = x) ∧
  ∀ d, d ∈ batch_Decisions res → dec_PolicyRevisionID d = pol_RevisionID p.
Proof.
  unfold EvaluateBatch. simpl. destruct (RiskPolicy_Validate _ _) as [[]|]; [|done].
  destruct (unique_nodes ∅ ids) as [unique|] eqn:Hu; [|done].
  destruct (evaluate_nodes _ _ _ _ _ _ _) as [[r|]|] eqn:Hr; [|done..]. intros [= <-]. simpl.
  apply unique_nodes_spec in Hu as [_ Hx].
  apply evaluate_nodes_decisions in Hr as (ds & -> & Hd & Hf). simpl. split.
  - intros x. transitivity (x ∈ map dec_NodeLogicalID ds).
    + rewrite Hd, elem_of_sort_strings, Hx. set_solver.
    + rewrite list_elem_of_fmap. naive_solver.
  - by apply Forall_forall.
Qed.

(** A batch decides every requested node exactly once: when it succeeds, the
    admitted and excluded lists are sorted and together are a permutation of the
    distinct requested IDs, the decisions are in node order, and a node is
    admitted exactly when its own decision is "allow", or "review" under a
    policy whose review action is allow. *)
Theorem risk_batch_partition `{GoText} `{TextScanner} (now : time)
    (sort_bands : list ScoreBand → list ScoreBand) (repos : RiskRepositories)
    (ids : list string) (digests : gmap string string) (p : RiskPolicy) (rev : string)
    (at_ : time) (given : list IPRiskObservation) (res : BatchResult) :
  EvaluateBatch now sort_bands repos ids digests (Some p) rev at_ given = Some (Ok res) →
  (∀ x, x ∈ ids ↔ x ∈ batch_AdmittedNodeIDs res ++ batch_ExcludedNodeIDs res) ∧
  NoDup (batch_AdmittedNodeIDs res ++ batch_ExcludedNodeIDs res) ∧
  StronglySorted (not_after str_less) (map dec_NodeLogicalID (batch_Decisions res)) ∧
  ∀ x, x ∈ ids → ∃ d, batch_DecisionMap res !! x = Some d ∧ dec_NodeLogicalID d = x ∧
    (x ∈ batch_AdmittedNodeIDs res ↔ decision_admits p (dec_Decision d) = true).
Proof. apply batch_partition. Qed.

(** ** A concrete policy *)

Definition sample_scanner : TextScanner :=
  {| containsIPAddress := λ _, false; urlQueryRegex_MatchString := λ _, false;
     querySecretRegex_MatchString := λ s, Contains s "secret=" |}.
Definition sample_provider : ProviderRef :=
  {| prov_Provider := "ipapi"; prov_SchemaVersion := "v1" |}.
Definition sample_bands : list ScoreBand :=
  [{| band_Min := 0; band_Max := 49; band_Band := "low"; band_Action := "allow" |};
   {| band_Min := 50; band_Max := 100; band_Band := "high"; band_Action := "block" |}]%Z.
Definition sample_risk_policy (mode unknown : string) (providers : list ProviderRef)
    : RiskPolicy :=
  {| pol_RevisionID := "01890a5d-ac96-774b-bcce-b302099a8057";
     pol_ProviderSelection := {| sel_Mode := mode; sel_Providers := providers |};
     pol_MaxObservationAge := 1000; pol_MinimumConfidence := 50;
     pol_ScoreBands := sample_bands; pol_TraitRules := []; pol_UnknownAction := unknown;
     pol_ConflictAction := ""; pol_ReviewAction := "" |}%Z.
Definition sample_node := "node_0123456789abcdef".
Definition sample_digest :=
  "sha256:0123456789abcdef0123456789abcdef0123456789abcdef0123456789abcdef".
Definition sample_risk_observation (id : string) (at_ : time) (score : Z) : IPRiskObservation :=
  {| iro_ID := id; iro_NodeLogicalID := sample_node; iro_ExitIdentityDigest := sample_digest;
     iro_Provider := "ipapi"; iro_ProviderSchemaVersion := "v1"; iro_ObservedAt := at_;
     iro_ExpiresAt := at_ + 500; iro_Status := "available"; iro_Score := Some score;
     iro_Confidence := Some 90; iro_NetworkClass := "residential"; iro_AnonymizerTraits := [];
     iro_EvidenceDigest := sample_digest; iro_RedactedSummary := "" |}%Z.

Lemma sample_bands_sorted : StronglySorted (not_after (less_Z band_Min)) sample_bands.
Proof. repeat constructor. Qed.

Lemma risk_allow_needs_evidence_witness :
  let p := sample_risk_policy "single_provider" "" [sample_provider] in
  let o := sample_risk_observation "a" 10%Z 7%Z in
  ∃ o', o' ∈ [o] ∧ usable p sample_digest 20%Z o' ∧ allows p o'.
Proof.
  intros p o.
  assert (∃ e, @evaluateNodeCore ascii_text sample_scanner p sample_node sample_digest [o] 20%Z
    = Some (Ok e) ∧ dec_Decision (eval_Decision e) = "allow") as (e & He & Ha).
  { eexists. split; vm_compute; reflexivity. }
  destruct (@risk_allow_needs_evidence ascii_text sample_scanner sample_bands p sample_node
    sample_digest [o] 20%Z e (Permutation_refl _) sample_bands_sorted
    ltac:(vm_compute; reflexivity)
    ltac:(intros o' Ho'; apply list_elem_of_singleton in Ho' as ->; reflexivity)
    ltac:(vm_compute; discriminate) He Ha sample_provider ltac:(apply list_elem_of_here))
    as (o' & ? & _ & _ & ? & _ & Hall).
  exists o'. split; [done|]. split; [done|]. apply Hall. vm_compute. discriminate.
Defined.

Lemma risk_evaluation_total_witness :
  let p := sample_risk_policy "all_must_allow" "block" [sample_provider] in
  is_Some (@evaluateNodeCore ascii_text sample_scanner p sample_node "" [] 20%Z).
Proof.
  intros p. apply (@risk_evaluation_total ascii_text sample_scanner sample_bands p).
  - apply Permutation_refl.
  - apply sample_bands_sorted.
  - vm_compute. reflexivity.
Defined.

Lemma risk_evaluation_order_independent_witness :
  let p := sample_risk_policy "highest_risk" "" [sample_provider] in
  let a := sample_risk_observation "a" 10%Z 7%Z in
  let b := sample_risk_observation "b" 10%Z 70%Z in
  @evaluateNodeCore ascii_text sample_scanner p sample_node "" [a; b] 20%Z =
  @evaluateNodeCore ascii_text sample_scanner p sample_node "" [b; a] 20%Z.
Proof.
  intros p a b. apply (@risk_evaluation_order_independent ascii_text sample_scanner p sample_node ""
    [a; b] [b; a] 20%Z).
  - apply Permutation_swap.
  - intros o o' Ho Ho'. rewrite !elem_of_cons, elem_of_nil in Ho, Ho'. naive_solver.
Defined.

Lemma missing_provider_hides_review_witness :
  let p := sample_risk_policy "all_must_allow" "allow" [sample_provider; sample_provider] in
  let result a av := {| per_Ref := sample_provider; per_Action := a; per_RiskBand := "medium";
    per_ReasonCode := "r"; per_ObservedAt := 0; per_ExpiresAt := 1; per_Status := "available";
    per_EvidenceDigest := ""; per_IsAvailable := av |}%Z in
  ∃ f, @fuse p [result "review" true; result "unknown" false] = Some (Ok f) ∧
    fused_Action f = "allow".
Proof.
  intros p result.
  apply (@missing_provider_hides_review ascii_text sample_scanner p _ (result "review" true)
    (result "unknown" false)).
  - reflexivity.
  - reflexivity.
  - repeat constructor.
  - apply list_elem_of_here.
  - reflexivity.
  - apply list_elem_of_further, list_elem_of_here.
  - reflexivity.
Defined.

Lemma risk_batch_partition_witness :
  let p := sample_risk_policy "single_provider" "" [sample_provider] in
  let o := sample_risk_observation "a" 10%Z 7%Z in
  let repos := {| repo_List := None; repo_Policies := None |} in
  ∃ res, @EvaluateBatch ascii_text sample_scanner 20%Z (λ l, l) repos
      [sample_node; "node_aaaaaaaaaaaaaaaa"; sample_node] ∅ (Some p) "" 0%Z [o] = Some (Ok res) ∧
    batch_AdmittedNodeIDs res = [sample_node] ∧
    NoDup (batch_AdmittedNodeIDs res ++ batch_ExcludedNodeIDs res).
Proof.
  intros p o repos.
  assert (∃ res, @EvaluateBatch ascii_text sample_scanner 20%Z (λ l, l) repos
      [sample_node; "node_aaaaaaaaaaaaaaaa"; sample_node] ∅ (Some p) "" 0%Z [o] = Some (Ok res) ∧
    batch_AdmittedNodeIDs res = [sample_node]) as (res & Hres & Ha).
  { eexists. split; vm_compute; reflexivity. }
  exists res. split; [done|]. split; [done|].
  exact (proj1 (proj2 (@risk_batch_partition ascii_text sample_scanner 20%Z (λ l, l) repos _ _ _ _ _
    _ _ Hres))).
Defined.
