(* ===== verification/Services.v ===== *)
(** * Application services over a database

    What the services of [internal/application] share.  A request reads and
    writes the tables of the database; each SQL statement or transaction is
    atomic and either takes effect or, on any error, changes nothing
    ([WithTx] in [internal/repository/sqlite/db.go] rolls back).  What a request
    takes from outside (the clock, fresh identifiers, failures of the database
    driver) is its [Env]. *)

From S2P Require Import Prelude.
From S2P Require Import GoStrings.
From S2P Require Import Domain.
From S2P Require Import Lifecycle.

(** An error is a [*DomainError], possibly wrapped, or any other error. *)
Inductive error : Type :=
  | domain_error (e : DomainError)
  | driver_error (message : string).

#[export] Instance error_eq_dec : EqDecision error.
Proof. solve_decision. Defined.

(** [errors.As(err, &de) && de.Category == CategoryNotFound] *)
Definition is_not_found (e : error) : bool :=
  match e with
  | domain_error d => bool_decide (err_Category d = CategoryNotFound)
  | driver_error _ => false
  end.

(** A time after [Format(time.RFC3339)] and [time.Parse]: whole seconds. *)
Definition rfc3339 (t : time) : time := (t / second * second)%Z.

(** What one request takes from outside: the clock, the identifier that
    [NewUUIDv7] yields ([None]: no entropy), and for each kind of statement the
    error the driver answers with, if any. *)
Record Env : Type := {
  env_now : time;
  env_uuid : option string;
  env_io : string → option string
}.

(** ** Requests: state and error *)

Definition M (S A : Type) : Type := S → result error A * S.

Definition ret {S A} (a : A) : M S A := λ s, (Ok a, s).
Definition fail {S A} (e : error) : M S A := λ s, (Err e, s).
Definition bind {S A B} (c : M S A) (k : A → M S B) : M S B := λ s,
  match c s with (Ok a, s') => k a s' | (Err e, s') => (Err e, s') end.

Notation "'let!' x := c 'in' k" := (bind c (λ x, k))
  (at level 10, x binder, c at level 200, k at level 200) : go_scope.
Notation "c ;;! k" := (bind c (λ _, k))
  (at level 100, k at level 200, right associativity) : go_scope.

Definition lift {S A} (r : result DomainError A) : M S A := λ s,
  match r with Ok a => (Ok a, s) | Err e => (Err (domain_error e), s) end.
Definition fail_when {S} (b : bool) (e : DomainError) : M S unit :=
  if b then fail (domain_error e) else ret tt.

(** A [SELECT], and a statement or transaction that writes. *)
Definition query {S A} (env : Env) (label : string) (f : S → result error A) : M S A := λ s,
  match env_io env label with Some m => (Err (driver_error m), s) | None => (f s, s) end.
Definition statement {S A} (env : Env) (label : string) (f : S → result error (A * S))
    : M S A := λ s,
  match env_io env label with
  | Some m => (Err (driver_error m), s)
  | None => match f s with Ok (a, s') => (Ok a, s') | Err e => (Err e, s) end
  end.

(** A statement that violates a constraint of the schema. *)
Definition constraint_failed (what : string) : error := driver_error (what +:+ " constraint failed").

(** ** The audit trail *)

Record AuditEvent : Type := { ev_Action : string; ev_Success : bool }.

(** A state with an audit trail. *)
Class Audited (S : Type) := {
  trail : S → list AuditEvent;
  with_trail : list AuditEvent → S → S
}.

Section Audit.
Context {S : Type} `{!Audited S}.

(** [recordAudit]: a failure to record is ignored. *)
Definition recordAudit (env : Env) (op : string) (ok : bool) : M S unit := λ s,
  match env_io env "audit" with
  | Some _ => (Ok tt, s)
  | None => (Ok tt, with_trail (trail s ++ [{| ev_Action := op; ev_Success := ok |}]) s)
  end.

(** Run [c]; when it fails, record the failure and return its error. *)
Definition audited {A} (env : Env) (op : string) (c : M S A) : M S A := λ s,
  match c s with
  | (Ok a, s') => (Ok a, s')
  | (Err e, s') => (recordAudit env op false ;;! fail e) s'
  end.
End Audit.

(** ** Inversion of a run *)

Section Runs.
Context {S A B : Type}.

Lemma bind_ok (c : M S A) (k : A → M S B) s b s' :
  bind c k s = (Ok b, s') ↔ ∃ a s1, c s = (Ok a, s1) ∧ k a s1 = (Ok b, s').
Proof.
  unfold bind. destruct (c s) as [[a|e] s1]; split.
  - intros ?. by exists a, s1.
  - by intros (? & ? & [= <- <-] & ?).
  - done.
  - by intros (? & ? & [= ] & _).
Qed.

Lemma bind_run (c : M S A) (k : A → M S B) s a s1 :
  c s = (Ok a, s1) → bind c k s = k a s1.
Proof. unfold bind. by intros ->. Qed.

Lemma query_ok env label (f : S → result error A) s a s' :
  query env label f s = (Ok a, s') ↔ s' = s ∧ env_io env label = None ∧ f s = Ok a.
Proof.
  unfold query. destruct (env_io env label); split; try (intros [= -> ->]; done);
    intros (-> & ? & ?); try done. by f_equal.
Qed.

Lemma query_state env label (f : S → result error A) s :
  (query env label f s).2 = s.
Proof. unfold query. by destruct (env_io env label). Qed.

Lemma statement_ok env label (f : S → result error (A * S)) s a s' :
  statement env label f s = (Ok a, s') ↔ env_io env label = None ∧ f s = Ok (a, s').
Proof.
  unfold statement. destruct (env_io env label) as [m|]; [split; [done|by intros [? _]]|].
  destruct (f s) as [[a1 s1]|e]; split; try (intros [= -> ->]; done); intros [_ [= -> ->]]; done.
Qed.

Lemma statement_err env label (f : S → result error (A * S)) s e s' :
  statement env label f s = (Err e, s') → s' = s.
Proof.
  unfold statement. destruct (env_io env label) as [m|]; [by intros [= _ <-]|].
  destruct (f s) as [[a1 s1]|e1]; [done|]. by intros [= _ <-].
Qed.

Lemma lift_state (r : result DomainError A) (s : S) : (lift r s).2 = s.
Proof. by destruct r. Qed.

Lemma fail_when_state b e (s : S) : (fail_when b e s).2 = s.
Proof. by destruct b. Qed.

Lemma lift_ok (r : result DomainError A) (s s' : S) a :
  lift r s = (Ok a, s') ↔ s' = s ∧ r = Ok a.
Proof. unfold lift. destruct r; split; try (intros [= -> ->]; done); intros [-> [= ->]]; done. Qed.

Lemma fail_when_ok b e (s s' : S) u : fail_when b e s = (Ok u, s') ↔ s' = s ∧ b = false.
Proof.
  unfold fail_when, fail, ret. destruct u, b; split; try (intros [= ->]; done);
    intros [-> ?]; done.
Qed.
End Runs.

Lemma audited_ok {S : Type} `{!Audited S} {A} env op (c : M S A) s a s' :
  audited env op c s = (Ok a, s') ↔ c s = (Ok a, s').
Proof.
  unfold audited. destruct (c s) as [[a1|e] s1]; [done|]. split; [|done].
  unfold bind, recordAudit, fail. by destruct (env_io env "audit").
Qed.

(** ** Weakest preconditions

    [wp c Φ s]: running [c] from [s] ends with a result and a state that satisfy
    [Φ].  Recording an audit event may or may not change the trail, so [Φ] has to
    hold for every trail. *)

Definition wp {S A} (c : M S A) (Φ : result error A → S → Prop) (s : S) : Prop :=
  Φ (c s).1 (c s).2.

Section Wp.
Context {S A B : Type} `{!Audited S}.

Lemma wp_run (c : M S A) Φ s r s' : wp c Φ s → c s = (r, s') → Φ r s'.
Proof. unfold wp. by intros ? Hc; rewrite Hc in *. Qed.

Lemma wp_mono (c : M S A) (Φ Ψ : result error A → S → Prop) s :
  wp c Φ s → (∀ r s', Φ r s' → Ψ r s') → wp c Ψ s.
Proof. unfold wp. auto. Qed.

Lemma wp_ret (a : A) (Φ : result error A → S → Prop) s : Φ (Ok a) s → wp (ret a) Φ s.
Proof. done. Qed.

Lemma wp_bind (c : M S A) (k : A → M S B) (Φ : result error B → S → Prop) s :
  wp c (λ r s1, match r with Ok a => wp (k a) Φ s1 | Err e => Φ (Err e) s1 end) s →
  wp (bind c k) Φ s.
Proof. unfold wp, bind. by destruct (c s) as [[a|e] s1]. Qed.

Lemma wp_assoc {C} (c : M S A) (k : A → M S B) (k' : B → M S C)
    (Φ : result error C → S → Prop) s :
  wp (bind c (λ a, bind (k a) k')) Φ s → wp (bind (bind c k) k') Φ s.
Proof. unfold wp, bind. by destruct (c s) as [[a|e] s1]. Qed.

Lemma wp_fail_when (b : bool) e (Φ : result error unit → S → Prop) s :
  (if b then Φ (Err (domain_error e)) s else Φ (Ok tt) s) → wp (fail_when b e) Φ s.
Proof. by destruct b. Qed.

Lemma wp_lift (r : result DomainError A) (Φ : result error A → S → Prop) s :
  match r with Ok a => Φ (Ok a) s | Err e => Φ (Err (domain_error e)) s end → wp (lift r) Φ s.
Proof. by destruct r. Qed.

Lemma wp_query env label (f : S → result error A) (Φ : result error A → S → Prop) s :
  (∀ m, env_io env label = Some m → Φ (Err (driver_error m)) s) →
  (env_io env label = None → Φ (f s) s) → wp (query env label f) Φ s.
Proof. unfold wp, query. destruct (env_io env label); simpl; auto. Qed.

Lemma wp_statement env label (f : S → result error (A * S)) (Φ : result error A → S → Prop) s :
  (∀ m, env_io env label = Some m → Φ (Err (driver_error m)) s) →
  (env_io env label = None →
   match f s with Ok (a, s') => Φ (Ok a) s' | Err e => Φ (Err e) s end) →
  wp (statement env label f) Φ s.
Proof.
  unfold wp, statement. destruct (env_io env label); simpl; [auto|].
  intros _ Hf. specialize (Hf eq_refl). by destruct (f s) as [[a s']|e].
Qed.

Lemma wp_record env op ok (Φ : result error unit → S → Prop) s :
  Φ (Ok tt) s → (∀ t, Φ (Ok tt) (with_trail t s)) → wp (recordAudit env op ok) Φ s.
Proof. unfold wp, recordAudit. destruct (env_io env "audit"); simpl; auto. Qed.

Lemma wp_audited env op (c : M S A) (Φ : result error A → S → Prop) s :
  wp c (λ r s1, match r with
                | Ok a => Φ (Ok a) s1
                | Err e => Φ (Err e) s1 ∧ ∀ t, Φ (Err e) (with_trail t s1)
                end) s →
  wp (audited env op c) Φ s.
Proof.
  unfold wp, audited. destruct (c s) as [[a|e] s1]; simpl; [done|].
  unfold bind, recordAudit, fail. intros [? ?]. destruct (env_io env "audit"); simpl; auto.
Qed.
End Wp.

(** One rule, chosen by the program. *)
Ltac wp_step :=
  lazymatch goal with
  | |- wp (bind _ _) _ _ => apply wp_bind
  | |- wp (audited _ _ _) _ _ => apply wp_audited
  | |- wp (fail_when _ _) _ _ => apply wp_fail_when
  | |- wp (lift _) _ _ => apply wp_lift
  | |- wp (query _ _ _) _ _ => apply wp_query; [intros ? ?|intros ?]
  | |- wp (statement _ _ _) _ _ => apply wp_statement; [intros ? ?|intros ?]
  | |- wp (recordAudit _ _ _) _ _ => apply wp_record; [|intros ?]
  | |- wp (ret _) _ _ => apply wp_ret
  end.
