(* ===== verification/Requests.v ===== *)
(** * Requests that run concurrently

    [Services] runs a request to its end.  Requests of the HTTP server run
    concurrently: each is a sequence of statements, every statement is atomic, and
    between two statements of one request any statements of others can run.  A
    request is a [proc]; [run] executes it alone, a [system] executes any number of
    them in any interleaving.

    [safe] is a rely-guarantee judgement: every statement of the request keeps the
    invariant [Inv] and moves the store along the preorder [R], provided the other
    requests do the same in between.  [system_safe] is its soundness. *)

From S2P Require Import Prelude.
From S2P Require Import Domain.
From S2P Require Import Services.

(** A statement maps the store it finds to the store it leaves and to the rest of
    the request. *)
Inductive proc (S A : Type) : Type :=
  | Done (r : result error A)
  | Atomic (next : S → proc S A) (upd : S → S).
Arguments Done {S A} r.
Arguments Atomic {S A} next upd.

Section Proc.
Context {S : Type}.

Fixpoint pbind {A B} (p : proc S A) (k : A → proc S B) : proc S B :=
  match p with
  | Done (Ok a) => k a
  | Done (Err e) => Done (Err e)
  | Atomic next upd => Atomic (λ s, pbind (next s) k) upd
  end.

(** One statement. *)
Definition step {A} (c : M S A) : proc S A := Atomic (λ s, Done (c s).1) (λ s, (c s).2).

(** The outcome as a value: [if err := ...; err != nil]. *)
Fixpoint attempt {A} (p : proc S A) : proc S (result error A) :=
  match p with
  | Done r => Done (Ok r)
  | Atomic next upd => Atomic (λ s, attempt (next s)) upd
  end.

Definition stop {A} (e : error) : proc S A := Done (Err e).
Definition reject {A} (e : DomainError) : proc S A := stop (domain_error e).
Definition give {A} (a : A) : proc S A := Done (Ok a).
Definition refuse_if (b : bool) (e : DomainError) : proc S unit :=
  if b then reject e else give tt.

(** The request alone. *)
Fixpoint run {A} (p : proc S A) : M S A := λ s,
  match p with
  | Done r => (r, s)
  | Atomic next upd => run (next s) (upd s)
  end.
End Proc.

Notation "'let@' x := p 'in' k" := (pbind p (λ x, k))
  (at level 10, x binder, p at level 200, k at level 200) : go_scope.
Notation "p ;;@ k" := (pbind p (λ _, k))
  (at level 100, k at level 200, right associativity) : go_scope.

(** ** Systems of requests *)

Record system (S A : Type) : Type := { store : S; threads : list (proc S A) }.
Arguments store {S A} _.
Arguments threads {S A} _.

Section System.
Context {S A : Type} (start : proc S A → Prop).

(** A request arrives, or the next statement of some request runs. *)
Inductive sys_step : system S A → system S A → Prop :=
  | sys_spawn s ts p :
      start p → sys_step {| store := s; threads := ts |} {| store := s; threads := ts ++ [p] |}
  | sys_run s ts i next upd :
      ts !! i = Some (Atomic next upd) →
      sys_step {| store := s; threads := ts |}
        {| store := upd s; threads := <[i := next s]> ts |}.

Definition sys_steps : system S A → system S A → Prop := rtc sys_step.

(** The next statements of the requests of a list, in that order. *)
Definition advance (σ : system S A) (i : nat) : system S A :=
  match threads σ !! i with
  | Some (Atomic next upd) =>
      {| store := upd (store σ); threads := <[i := next (store σ)]> (threads σ) |}
  | _ => σ
  end.
Definition schedule (l : list nat) (σ : system S A) : system S A := fold_left advance l σ.

Lemma advance_steps σ i : sys_steps σ (advance σ i).
Proof.
  destruct σ as [s ts]. unfold advance. simpl. destruct (ts !! i) as [[r|next upd]|] eqn:Hi;
    [apply rtc_refl| |apply rtc_refl]. apply rtc_once. by apply sys_run.
Qed.

Lemma schedule_steps l σ : sys_steps σ (schedule l σ).
Proof.
  revert σ. induction l as [|i l IH]; intros σ; [apply rtc_refl|].
  etrans; [apply advance_steps|apply IH].
Qed.
End System.

(** ** Rely and guarantee *)

Section Safe.
Context {S : Type} (Inv : S → Prop) (R : S → S → Prop) `{!PreOrder R}.

Fixpoint safe {A} (p : proc S A) (Q : result error A → S → Prop) (s : S) : Prop :=
  match p with
  | Done r => ∀ s', R s s' → Inv s' → Q r s'
  | Atomic next upd => ∀ s', R s s' → Inv s' →
      Inv (upd s') ∧ R s' (upd s') ∧ safe (next s') Q (upd s')
  end.

Lemma safe_later {A} (p : proc S A) Q s s' : safe p Q s → R s s' → safe p Q s'.
Proof. destruct p; simpl; intros Hs HR s1 H1; apply Hs; by etrans. Qed.

Lemma safe_impl {A} (p : proc S A) (Q Q' : result error A → S → Prop) s :
  safe p Q s → (∀ r s', Inv s' → Q r s' → Q' r s') → safe p Q' s.
Proof.
  intros Hs Hq. revert s Hs. induction p as [r|next IH upd]; simpl; intros s Hs s' HR Hi; [auto|].
  destruct (Hs s' HR Hi) as (? & ? & ?). auto.
Qed.

Lemma safe_done {A} (r : result error A) (Q : result error A → S → Prop) s :
  (∀ s', R s s' → Inv s' → Q r s') → safe (Done r) Q s.
Proof. done. Qed.

Lemma safe_step {A} (c : M S A) (Q : result error A → S → Prop) s :
  (∀ s', R s s' → Inv s' → Inv (c s').2 ∧ R s' (c s').2 ∧
     ∀ s'', R (c s').2 s'' → Inv s'' → Q (c s').1 s'') →
  safe (step c) Q s.
Proof. done. Qed.

Lemma safe_bind {A B} (p : proc S A) (k : A → proc S B) Q Q' s :
  Inv s → safe p Q s →
  (∀ a s', R s s' → Inv s' → Q (Ok a) s' → safe (k a) Q' s') →
  (∀ e s', R s s' → Inv s' → Q (Err e) s' → Q' (Err e) s') →
  safe (pbind p k) Q' s.
Proof.
  revert s. induction p as [[a|e]|next IH upd]; simpl; intros s Hi Hs Hk He.
  - apply Hk; [done..|]. by apply Hs.
  - intros s' HR Hi'. apply He; auto.
  - intros s' HR Hi'. destruct (Hs s' HR Hi') as (Hi2 & HR2 & Hs2). split; [done|]. split; [done|].
    apply IH; [done..| |].
    + intros a s3 HR3. apply Hk. etrans; [done|]. by etrans.
    + intros e s3 HR3. apply He. etrans; [done|]. by etrans.
Qed.

Lemma safe_attempt {A} (p : proc S A) Q Q' s :
  safe p Q s → (∀ r s', R s s' → Inv s' → Q r s' → Q' (Ok r) s') → safe (attempt p) Q' s.
Proof.
  revert s. induction p as [r|next IH upd]; simpl; intros s Hs Hq.
  - intros s' HR Hi. apply Hq; auto.
  - intros s' HR Hi. destruct (Hs s' HR Hi) as (Hi2 & HR2 & Hs2). split; [done|]. split; [done|].
    apply IH; [done|]. intros r s3 HR3. apply Hq. etrans; [done|]. by etrans.
Qed.

(** A safe request, run alone. *)
Lemma safe_run {A} (p : proc S A) Q s :
  Inv s → safe p Q s → Inv (run p s).2 ∧ R s (run p s).2 ∧ Q (run p s).1 (run p s).2.
Proof.
  revert s. induction p as [r|next IH upd]; simpl; intros s Hi Hs.
  { split; [done|]. split; [done|]. by apply Hs. }
  destruct (Hs s) as (Hi2 & HR2 & Hs2); [done..|]. destruct (IH s _ Hi2 Hs2) as (? & ? & ?).
  split; [done|]. split; [by etrans|done].
Qed.

(** Safe requests, in any interleaving. *)
Definition system_ok {A} (Q : result error A → S → Prop) (σ : system S A) : Prop :=
  Inv (store σ) ∧ Forall (λ p, safe p Q (store σ)) (threads σ).

Theorem system_safe {A} (start : proc S A → Prop) Q σ σ' :
  (∀ p s, start p → Inv s → safe p Q s) →
  sys_steps start σ σ' → system_ok Q σ → system_ok Q σ' ∧ R (store σ) (store σ').
Proof.
  intros Hstart. induction 1 as [σ|σ σ1 σ2 Hstep _ IH]; [done|]. intros [Hi Hts].
  assert (system_ok Q σ1 ∧ R (store σ) (store σ1)) as [Hok HR].
  { destruct Hstep as [s ts p Hp|s ts i next upd Hl]; simpl in *.
    - split; [|done]. split; [done|]. apply Forall_app. split; [done|].
      constructor; [by apply Hstart|done].
    - pose proof (Forall_lookup_1 _ _ _ _ Hts Hl) as Hs.
      destruct (Hs s) as (Hi2 & HR2 & Hs2); [done..|]. split; [|done]. split; [done|]. simpl.
      apply Forall_insert; [|done]. eapply Forall_impl; [done|].
      intros p Hp. exact (safe_later p Q s _ Hp HR2). }
  destruct (IH Hok) as [Hok' HR']. split; [done|]. by etrans.
Qed.
End Safe.

Section RunLemmas.
Context {S : Type}.

Lemma run_bind {A B} (p : proc S A) (k : A → proc S B) s :
  run (pbind p k) s =
  match run p s with (Ok a, s') => run (k a) s' | (Err e, s') => (Err e, s') end.
Proof. revert s. induction p as [[a|e]|next IH upd]; intros s; simpl; auto. Qed.

Lemma run_bind_ok {A B} (p : proc S A) (k : A → proc S B) s b s' :
  run (pbind p k) s = (Ok b, s') ↔ ∃ a s1, run p s = (Ok a, s1) ∧ run (k a) s1 = (Ok b, s').
Proof.
  rewrite run_bind. destruct (run p s) as [[a|e] s1]; split.
  - intros ?. by exists a, s1.
  - by intros (? & ? & [= <- <-] & ?).
  - done.
  - by intros (? & ? & [=] & _).
Qed.

Lemma run_step {A} (c : M S A) s : run (step c) s = c s.
Proof. simpl. by destruct (c s). Qed.

Lemma run_attempt {A} (p : proc S A) s : run (attempt p) s = (Ok (run p s).1, (run p s).2).
Proof. revert s. induction p as [r|next IH upd]; intros s; simpl; auto. Qed.

(** A request that runs alone, as steps of a system. *)
Lemma run_steps {A} (start : proc S A → Prop) p s ts :
  start p →
  sys_steps start {| store := s; threads := ts |}
    {| store := (run p s).2; threads := ts ++ [Done (run p s).1] |}.
Proof.
  intros Hp. eapply rtc_l; [by apply sys_spawn|]. clear Hp. revert s.
  induction p as [r|next IH upd]; intros s; [apply rtc_refl|]. eapply rtc_l.
  - apply (sys_run _ s (ts ++ [Atomic next upd]) (length ts) next upd).
    by rewrite lookup_app_r, Nat.sub_diag by lia.
  - rewrite insert_app_r_alt, Nat.sub_diag by lia. apply IH.
Qed.

Lemma run_refuse b e (s s' : S) u : run (refuse_if b e) s = (Ok u, s') ↔ s' = s ∧ b = false.
Proof.
  unfold refuse_if. destruct u, b; simpl; split; try (intros [= ->]; done); by intros [-> ?].
Qed.
End RunLemmas.
