(* ===== verification/Addresses.v ===== *)
(** * Network addresses

    What [internal/fetch/policy.go] uses of Go's [net] package: addresses as byte
    slices of four or sixteen bytes, the predicates on them, and networks with
    their masks.  The reference for them is arithmetic: an address is a number, a
    network the interval of numbers that share its prefix ([contains_prefix]). *)

From S2P Require Import Prelude.
From S2P Require Import GoStrings.
From S2P Require Import Domain.

(** ** Addresses *)

Definition IP := list Z.

Definition v4InV6Prefix : list Z := [0; 0; 0; 0; 0; 0; 0; 0; 0; 0; 255; 255]%Z.

(** [ip.To4()]; [None] for nil. *)
Definition To4 (ip : IP) : option IP :=
  if length ip =? 4 then Some ip
  else if (length ip =? 16) && bool_decide (take 12 ip = v4InV6Prefix) then Some (drop 12 ip)
  else None.

Definition byte_at (ip : IP) (i : nat) : Z := List.nth i ip 0%Z.
Definition byte_is (ip : IP) (i : nat) (b : Z) : bool := (byte_at ip i =? b)%Z.
Definition bits_are (ip : IP) (i : nat) (mask b : Z) : bool := (Z.land (byte_at ip i) mask =? b)%Z.

Definition IPv6loopback : IP := replicate 15 0%Z ++ [1%Z].
Definition IPv6unspecified : IP := replicate 16 0%Z.

(** A test on the four-byte form, and one on sixteen bytes. *)
Definition by_family (v4 v6 : IP → bool) (ip : IP) : bool :=
  match To4 ip with Some ip4 => v4 ip4 | None => (length ip =? 16) && v6 ip end.

Definition IsLoopback : IP → bool :=
  by_family (λ ip, byte_is ip 0 127) (λ ip, bool_decide (ip = IPv6loopback)).
Definition IsPrivate : IP → bool :=
  by_family (λ ip, byte_is ip 0 10 || (byte_is ip 0 172 && bits_are ip 1 240 16) ||
                   (byte_is ip 0 192 && byte_is ip 1 168))
            (λ ip, bits_are ip 0 254 252).
Definition IsLinkLocalUnicast : IP → bool :=
  by_family (λ ip, byte_is ip 0 169 && byte_is ip 1 254)
            (λ ip, byte_is ip 0 254 && bits_are ip 1 192 128).
Definition IsLinkLocalMulticast : IP → bool :=
  by_family (λ ip, byte_is ip 0 224 && byte_is ip 1 0 && byte_is ip 2 0)
            (λ ip, byte_is ip 0 255 && bits_are ip 1 15 2).
Definition IsMulticast : IP → bool :=
  by_family (λ ip, bits_are ip 0 240 224) (λ ip, byte_is ip 0 255).
Definition IsUnspecified : IP → bool :=
  by_family (λ ip, bool_decide (ip = [0; 0; 0; 0]%Z)) (λ ip, bool_decide (ip = IPv6unspecified)).

(** ** Networks *)

Record IPNet : Type := { net_IP : IP; net_Mask : list Z }.

(** [CIDRMask(ones, 8 * len)] *)
Fixpoint CIDRMask (ones : Z) (len : nat) : list Z :=
  match len with
  | O => []
  | S len =>
      if (8 <=? ones)%Z then 255%Z :: CIDRMask (ones - 8) len
      else (255 - Z.shiftr 255 ones)%Z :: CIDRMask 0 len
  end.

Definition mask_bytes (ip mask : list Z) : list Z := zip_with Z.land ip mask.

(** The networks that [ParseCIDR] yields for [a.b.c.d/ones] and [x:x:.../ones]. *)
Definition cidr4 (ip : IP) (ones : Z) : IPNet :=
  let mask := CIDRMask ones 4 in {| net_IP := mask_bytes ip mask; net_Mask := mask |}.
Definition cidr6 (ip : IP) (ones : Z) : IPNet :=
  let mask := CIDRMask ones 16 in {| net_IP := mask_bytes ip mask; net_Mask := mask |}.

(** [networkNumberAndMask] *)
Definition networkNumberAndMask (n : IPNet) : option (IP * list Z) :=
  let number := match To4 (net_IP n) with
                | Some ip => Some ip
                | None => if length (net_IP n) =? 16 then Some (net_IP n) else None
                end in
  match number with
  | None => None
  | Some ip =>
      if length (net_Mask n) =? 4 then
        if length ip =? 4 then Some (ip, net_Mask n) else None
      else if length (net_Mask n) =? 16 then
        if length ip =? 4 then Some (ip, drop 12 (net_Mask n)) else Some (ip, net_Mask n)
      else None
  end.

Definition Contains_IP (n : IPNet) (ip : IP) : bool :=
  let ip := match To4 ip with Some ip4 => ip4 | None => ip end in
  match networkNumberAndMask n with
  | Some (nn, m) =>
      (length ip =? length nn) && bool_decide (mask_bytes nn m = mask_bytes ip m)
  | None => false
  end.

(** The second result of [Mask.Size()] for the masks of [CIDRMask]. *)
Definition mask_bits (n : IPNet) : Z := (8 * Z.of_nat (length (net_Mask n)))%Z.

(** ** Addresses as numbers *)

Section Numbers.
Open Scope Z_scope.

Fixpoint be_value (l : list Z) : Z :=
  match l with [] => 0 | b :: l => b * 2 ^ (8 * Z.of_nat (length l)) + be_value l end.

Definition valid_IP (ip : IP) : Prop := (length ip = 4%nat ∨ length ip = 16%nat) ∧ Forall is_byte ip.

Lemma be_value_bound l : Forall is_byte l → 0 ≤ be_value l < 2 ^ (8 * Z.of_nat (length l)).
Proof.
  induction 1 as [|b l Hb _ IH]; [done|]. cbn [be_value length].
  replace (8 * Z.of_nat (S (length l))) with (8 * Z.of_nat (length l) + 8) by lia.
  rewrite Z.pow_add_r by lia. unfold is_byte in Hb. nia.
Qed.

(** A property of one byte, by trying all of them. *)
Lemma byte_forall (f : Z → bool) :
  forallb f (map Z.of_nat (seq 0 256)) = true → ∀ b, is_byte b → f b = true.
Proof.
  intros Hall b Hb. rewrite forallb_forall in Hall. apply Hall. apply in_map_iff.
  exists (Z.to_nat b). unfold is_byte in Hb. split; [lia|]. apply in_seq. lia.
Qed.

(** The mask of the byte that holds the end of the prefix. *)
Lemma land_byte_mask a ones :
  is_byte a → 0 ≤ ones < 8 →
  Z.land a (255 - Z.shiftr 255 ones) = a / 2 ^ (8 - ones) * 2 ^ (8 - ones).
Proof.
  intros Ha Ho. apply Z.eqb_eq.
  assert (ones = 0 ∨ ones = 1 ∨ ones = 2 ∨ ones = 3 ∨ ones = 4 ∨ ones = 5 ∨ ones = 6 ∨ ones = 7)
    as Hc by lia.
  repeat destruct Hc as [->|Hc]; [..|subst ones]; revert a Ha; apply byte_forall; vm_compute; reflexivity.
Qed.

Lemma land_byte_ones a : is_byte a → Z.land a 255 = a.
Proof. intros Ha. change 255 with (Z.ones 8). rewrite Z.land_ones by lia. by apply Z.mod_small. Qed.

Lemma div_same_mul a b k : 0 < k → a / k * k = b / k * k ↔ a / k = b / k.
Proof. intros Hk. split; [|by intros ->]. intros Heq. nia. Qed.

Lemma CIDRMask_0 len : CIDRMask 0 len = replicate len 0.
Proof. induction len as [|len IH]; [done|]. simpl. by rewrite IH. Qed.

Lemma mask_zeros l : mask_bytes l (replicate (length l) 0) = replicate (length l) 0.
Proof. induction l as [|b l IH]; [done|]. simpl. by rewrite Z.land_0_r, IH. Qed.

(** Two addresses agree under a mask exactly when their numbers share the prefix. *)
Lemma mask_prefix l1 l2 ones :
  length l1 = length l2 → Forall is_byte l1 → Forall is_byte l2 →
  0 ≤ ones ≤ 8 * Z.of_nat (length l1) →
  mask_bytes l1 (CIDRMask ones (length l1)) = mask_bytes l2 (CIDRMask ones (length l1)) ↔
  be_value l1 / 2 ^ (8 * Z.of_nat (length l1) - ones) =
  be_value l2 / 2 ^ (8 * Z.of_nat (length l1) - ones).
Proof.
  revert l2 ones. induction l1 as [|a l1 IH]; intros [|b l2] ones Hlen H1 H2 Hones; try done.
  simpl in Hlen. injection Hlen as Hlen. apply Forall_cons in H1 as [Ha H1].
  apply Forall_cons in H2 as [Hb H2]. pose proof (be_value_bound l1 H1) as Hv1.
  pose proof (be_value_bound l2 H2) as Hv2. rewrite <- Hlen in Hv2.
  cbn [length be_value CIDRMask]. rewrite <- Hlen. set (n := 8 * Z.of_nat (length l1)) in *.
  assert (8 * Z.of_nat (S (length l1)) = n + 8) as Hn by (subst n; lia).
  cbn [length] in Hones. rewrite Hn in *. destruct (Z.leb_spec 8 ones) as [Hge|Hlt].
  - set (m := ones - 8). assert (0 ≤ m ≤ n) as Hm by (subst m; lia).
    assert (∀ x v, 0 ≤ v < 2 ^ n → (x * 2 ^ n + v) / 2 ^ (n + 8 - ones) =
      x * 2 ^ m + v / 2 ^ (n - m)) as Hdiv.
    { intros x v _. replace (n + 8 - ones) with (n - m) by (subst m; lia).
      replace (2 ^ n) with (2 ^ m * 2 ^ (n - m)) by (rewrite <- Z.pow_add_r by lia; f_equal; lia).
      rewrite Z.mul_assoc, Z.div_add_l by (apply Z.pow_nonzero; lia). done. }
    rewrite !Hdiv by done. cbn [mask_bytes zip_with]. rewrite !land_byte_ones by done.
    specialize (IH l2 m Hlen H1 H2 Hm).
    assert (∀ v, 0 ≤ v < 2 ^ n → 0 ≤ v / 2 ^ (n - m) < 2 ^ m) as Hq.
    { intros v Hv. split; [apply Z.div_pos; [lia|apply Z.pow_pos_nonneg; lia]|].
      apply Z.div_lt_upper_bound; [apply Z.pow_pos_nonneg; lia|].
      rewrite <- Z.pow_add_r by lia. replace (n - m + m) with n by lia. apply Hv. }
    pose proof (Hq _ Hv1). pose proof (Hq _ Hv2). split.
    + intros [= -> Hrest]. apply IH in Hrest. by rewrite Hrest.
    + intros Heq. assert (a = b) as ->.
      { set (q1 := be_value l1 / _) in *. set (q2 := be_value l2 / _) in *.
        destruct (Z.lt_trichotomy a b) as [Hab|[Hab|Hab]]; [|done|]; nia. }
      f_equal. apply IH. lia.
  - cbn [mask_bytes zip_with]. rewrite CIDRMask_0.
    rewrite !land_byte_mask by (done || lia).
    assert (0 < 2 ^ (8 - ones)) as Hp by (apply Z.pow_pos_nonneg; lia).
    assert (∀ x v, 0 ≤ v < 2 ^ n → (x * 2 ^ n + v) / 2 ^ (n + 8 - ones) = x / 2 ^ (8 - ones)) as Hdiv.
    { intros x v Hv. replace (n + 8 - ones) with (n + (8 - ones)) by lia.
      rewrite Z.pow_add_r, <- Z.div_div by (try apply Z.pow_nonzero; try apply Z.pow_pos_nonneg; lia).
      rewrite Z.div_add_l, (Z.div_small v) by (try apply Z.pow_nonzero; lia). by rewrite Z.add_0_r. }
    rewrite !Hdiv by done. rewrite <- div_same_mul by done.
    pose proof (mask_zeros l1) as Hz1. pose proof (mask_zeros l2) as Hz2. rewrite <- Hlen in Hz2.
    unfold mask_bytes in Hz1, Hz2. rewrite Hz1, Hz2. split; [by intros [= ->]|by intros ->].
Qed.

(** The interval of a prefix. *)
Lemma prefix_interval v base k :
  0 ≤ k → base / 2 ^ k * 2 ^ k = base → (base / 2 ^ k = v / 2 ^ k ↔ base ≤ v < base + 2 ^ k).
Proof.
  intros Hk Hbase. assert (0 < 2 ^ k) as Hp by (apply Z.pow_pos_nonneg; lia).
  pose proof (Z.div_mod v (2 ^ k) ltac:(lia)). pose proof (Z.mod_pos_bound v (2 ^ k) Hp). split.
  - intros Heq. nia.
  - intros Hr. rewrite <- Hbase in Hr. nia.
Qed.

(** The number of an address, in its own family. *)
Definition family (ip : IP) : IP := match To4 ip with Some ip4 => ip4 | None => ip end.

Lemma To4_valid ip ip4 : valid_IP ip → To4 ip = Some ip4 → length ip4 = 4%nat ∧ Forall is_byte ip4.
Proof.
  intros [Hl Hb] Ht. unfold To4 in Ht. destruct (Nat.eqb_spec (length ip) 4).
  { by injection Ht as <-. }
  destruct (Nat.eqb_spec (length ip) 16); [|done]. simpl in Ht. destruct (bool_decide _); [|done].
  injection Ht as <-. rewrite length_drop. split; [lia|]. by apply Forall_drop.
Qed.

Lemma To4_none ip : valid_IP ip → To4 ip = None → length ip = 16%nat.
Proof. intros [[Hl|Hl] _] Ht; [|done]. unfold To4 in Ht. by rewrite Hl in Ht. Qed.

(** A network of a list of prefixes, and the addresses in it. *)
Definition within (base : IP) (ones : Z) (v : Z) : Prop :=
  be_value base ≤ v < be_value base + 2 ^ (8 * Z.of_nat (length base) - ones).
#[global] Instance within_dec base ones v : Decision (within base ones v).
Proof. unfold within. apply _. Defined.

Record prefix_ok (len : nat) (base : IP) (ones : Z) : Prop := {
  prefix_length : length base = len;
  prefix_bytes : Forall is_byte base;
  prefix_ones : 0 ≤ ones ≤ 8 * Z.of_nat len;
  prefix_masked : be_value base / 2 ^ (8 * Z.of_nat len - ones) * 2 ^ (8 * Z.of_nat len - ones) =
                  be_value base
}.

Lemma CIDRMask_length ones len : length (CIDRMask ones len) = len.
Proof.
  revert ones. induction len as [|len IH]; intros ones; [done|]. simpl.
  case_match; simpl; by rewrite IH.
Qed.

Lemma mask_length l m : length l = length m → length (mask_bytes l m) = length l.
Proof. intros Hl. unfold mask_bytes. rewrite length_zip_with. lia. Qed.

Lemma mask_twice l m : mask_bytes (mask_bytes l m) m = mask_bytes l m.
Proof.
  revert m. induction l as [|a l IH]; intros [|b m]; try done. simpl. f_equal; [|apply IH].
  by rewrite <- Z.land_assoc, Z.land_diag.
Qed.

Lemma prefix_contains len base ones x :
  prefix_ok len base ones → length x = len → Forall is_byte x →
  mask_bytes (mask_bytes base (CIDRMask ones len)) (CIDRMask ones len) =
    mask_bytes x (CIDRMask ones len) ↔ within base ones (be_value x).
Proof.
  intros [<- Hb Ho Hm] Hl Hx. rewrite mask_twice. rewrite mask_prefix by done.
  unfold within. rewrite prefix_interval by (done || lia). done.
Qed.

(** ** Membership in a network, by arithmetic *)

Definition number_in (nn m x : IP) : bool :=
  (length x =? length nn)%nat && bool_decide (mask_bytes nn m = mask_bytes x m).

Lemma contains_number4 nn m x :
  length nn = 4%nat → length m = 4%nat →
  Contains_IP {| net_IP := nn; net_Mask := m |} x = number_in nn m (family x).
Proof.
  intros Hn Hm. assert (To4 nn = Some nn) as Ht by (unfold To4; by rewrite Hn).
  unfold Contains_IP, networkNumberAndMask, number_in, family. simpl. rewrite Ht, Hm, Hn. simpl.
  by rewrite Hn.
Qed.

Lemma contains_number6 nn m x :
  length nn = 16%nat → length m = 16%nat →
  Contains_IP {| net_IP := nn; net_Mask := m |} x =
    match To4 nn with
    | Some n4 => number_in n4 (drop 12 m) (family x)
    | None => number_in nn m (family x)
    end.
Proof.
  intros Hn Hm. unfold Contains_IP, networkNumberAndMask, number_in, family. simpl.
  rewrite Hm. simpl. destruct (To4 nn) as [n4|] eqn:Ht; [|by rewrite Hn; simpl; rewrite Hn; simpl; rewrite ?Hn].
  assert (length n4 = 4%nat) as Hl4; [|by rewrite Hl4; simpl; rewrite ?Hl4].
  unfold To4 in Ht. rewrite Hn in Ht. simpl in Ht. destruct (bool_decide _); [|done].
  injection Ht as <-. by rewrite length_drop, Hn.
Qed.

Lemma network_length len base ones :
  prefix_ok len base ones → length (mask_bytes base (CIDRMask ones len)) = len.
Proof.
  intros Hp. pose proof (prefix_length _ _ _ Hp) as Hl.
  rewrite mask_length; rewrite Hl; [done|]. by rewrite CIDRMask_length.
Qed.

Lemma number_in_spec len base ones x :
  prefix_ok len base ones → length x = len → Forall is_byte x →
  number_in (mask_bytes base (CIDRMask ones len)) (CIDRMask ones len) x =
    bool_decide (within base ones (be_value x)).
Proof.
  intros Hp Hl Hx. unfold number_in. rewrite (network_length _ _ _ Hp), Hl, Nat.eqb_refl.
  apply bool_decide_ext. by apply prefix_contains.
Qed.

Lemma contains4 base ones x :
  prefix_ok 4 base ones → valid_IP x → is_Some (To4 x) →
  Contains_IP (cidr4 base ones) x = bool_decide (within base ones (be_value (family x))).
Proof.
  intros Hp Hx [x4 Ht]. destruct (To4_valid x x4 Hx Ht) as [Hl4 Hb4]. unfold cidr4.
  rewrite contains_number4 by (apply network_length || apply CIDRMask_length; done).
  unfold family. rewrite Ht. by apply number_in_spec.
Qed.

Lemma contains4_other base ones x :
  prefix_ok 4 base ones → valid_IP x → To4 x = None → Contains_IP (cidr4 base ones) x = false.
Proof.
  intros Hp Hx Ht. unfold cidr4.
  rewrite contains_number4 by (apply network_length || apply CIDRMask_length; done).
  unfold number_in, family. rewrite Ht, (To4_none x Hx Ht), network_length by done. done.
Qed.

Lemma contains6 base ones x :
  prefix_ok 16 base ones → valid_IP x → To4 x = None →
  Contains_IP (cidr6 base ones) x =
    bool_decide (To4 (net_IP (cidr6 base ones)) = None) && bool_decide (within base ones (be_value x)).
Proof.
  intros Hp Hx Ht. pose proof (To4_none x Hx Ht) as Hlx. destruct Hx as [_ Hbx]. unfold cidr6.
  rewrite contains_number6 by (apply network_length || apply CIDRMask_length; done). cbn [net_IP].
  unfold family. rewrite Ht. destruct (To4 (mask_bytes _ _)) as [n4|] eqn:Hn.
  - rewrite bool_decide_eq_false_2 by done. unfold number_in. rewrite Hlx.
    assert (length n4 = 4%nat) as ->; [|done]. unfold To4 in Hn.
    rewrite (network_length _ _ _ Hp) in Hn. destruct (bool_decide _); [|done].
    apply (inj Some) in Hn as <-. rewrite length_drop, network_length by done. done.
  - rewrite bool_decide_eq_true_2 by done. by apply number_in_spec.
Qed.
End Numbers.
