(* ===== verification/FetchPolicy.v ===== *)
(** * Which addresses a subscription fetch may talk to

    [internal/fetch/policy.go].  Name resolution and connections go to an
    [Internet] that may answer anything, and anything else the next time: what a
    name resolves to is a function of everything that happened before.  The trace
    of events is the state of the functions that use the network.

    [net.ParseIP], [IP.String] and [net/url] are operations of the class [Net]. *)

From S2P Require Import Prelude.
From S2P Require Import GoStrings.
From S2P Require Import Domain.
From S2P Require Import Services.
From S2P Require Import Addresses.

(** ** URLs and the network *)

Record Userinfo : Type := { ui_Username : string; ui_Password : string; ui_String : string }.

(** The fields and methods of a [url.URL] that the package reads. *)
Record URL : Type := {
  u_Scheme : string;
  u_Host : string;
  u_Hostname : string;
  u_Port : string;
  u_Path : string;
  u_RawQuery : string;
  u_ForceQuery : bool;
  u_Fragment : string;
  u_User : option Userinfo
}.

Class Net := {
  net_ParseIP : string → option IP;
  net_ParseIP_valid : ∀ s ip, net_ParseIP s = Some ip → valid_IP ip;
  IP_String : IP → string;
  net_url_Parse : string → option URL;
  url_String : URL → string;
  url_Reference : URL → string → option URL;
  NewRequest_ok : URL → bool
}.

(** What is dialled: an address, or a name that is resolved while dialling. *)
Inductive dial : Type :=
  | DialIP (ip : IP) (port : string)
  | DialName (host port : string).

Record hop : Type := { hop_URL : URL; hop_Proxy : option URL; hop_Dial : dial }.

Inductive event : Type :=
  | Looked (host : string)
  | Connected (h : hop).

(** The answer of a server, as far as it is read: status, headers, the announced
    length (-1 if there is none), the bytes of the body and whether reading ends in
    an error instead of the end of the stream. *)
Record http_response : Type := {
  resp_Status : Z;
  resp_Location : string;
  resp_ContentEncoding : string;
  resp_ContentType : string;
  resp_ETag : string;
  resp_LastModified : string;
  resp_ContentLength : Z;
  resp_Body : string;
  resp_Broken : bool
}.

(** Why a request got no answer: the deadline, a [DomainError], anything else. *)
Inductive request_failure : Type :=
  | timed_out
  | refused_with (e : DomainError)
  | network_error.

Record Internet : Type := {
  lookup_names : list event → string → option (list IP);
  lookup_valid : ∀ h host ips, lookup_names h host = Some ips → Forall valid_IP ips;
  answer : list event → hop → result request_failure http_response
}.

(** ** The policy *)

Record Policy : Type := {
  fp_AllowedSchemes : list string;
  fp_MaxRedirects : Z;
  fp_BlockedCIDRs : list IPNet;
  fp_AllowedHosts : list string;
  fp_AllowedProxyHosts : list string;
  fp_AllowPrivate : bool
}.

Definition blocked4 : list (IP * Z) :=
  [ ([0; 0; 0; 0], 8); ([10; 0; 0; 0], 8); ([100; 64; 0; 0], 10); ([127; 0; 0; 0], 8);
    ([169; 254; 0; 0], 16); ([172; 16; 0; 0], 12); ([192; 0; 0; 0], 24); ([192; 0; 2; 0], 24);
    ([192; 88; 99; 0], 24); ([192; 168; 0; 0], 16); ([198; 18; 0; 0], 15);
    ([198; 51; 100; 0], 24); ([203; 0; 113; 0], 24); ([224; 0; 0; 0], 4); ([240; 0; 0; 0], 4);
    ([255; 255; 255; 255], 32) ]%Z.

(** An IPv6 address from its first groups of sixteen bits, the last one [low]. *)
Definition hextets (l : list Z) : list Z := flat_map (λ h, [Z.shiftr h 8; Z.land h 255]) l.
Definition addr6 (l low : list Z) : IP :=
  hextets l ++ replicate (16 - 2 * length l - 2 * length low) 0%Z ++ hextets low.

Definition blocked6 : list (IP * Z) :=
  [ (addr6 [] [], 128); (addr6 [] [1], 128); (addr6 [] [0xffff; 0; 0], 96);
    (addr6 [0x64; 0xff9b] [], 96); (addr6 [0x100] [], 64); (addr6 [0x2001] [], 23);
    (addr6 [0x2001; 0xdb8] [], 32); (addr6 [0x2002] [], 16); (addr6 [0xfc00] [], 7);
    (addr6 [0xfe80] [], 10); (addr6 [0xff00] [], 8) ]%Z.

(** What [net.ParseCIDR] makes of the table [defaultBlockedCIDRs]. *)
Definition defaultBlockedCIDRs : list IPNet :=
  map (λ p, cidr4 p.1 p.2) blocked4 ++ map (λ p, cidr6 p.1 p.2) blocked6.

Definition DefaultPolicy : Policy :=
  {| fp_AllowedSchemes := ["http"; "https"]; fp_MaxRedirects := 5;
     fp_BlockedCIDRs := defaultBlockedCIDRs; fp_AllowedHosts := []; fp_AllowedProxyHosts := [];
     fp_AllowPrivate := false |}.

(** ** Suspicious spellings of addresses *)

(** [strconv.ParseUint(s, base, 64)] without an error, for the bases 10 and 16. *)
Definition uint_text (parse : Z → string → option Z) (s : string) : bool :=
  negb (String.eqb s "") &&
  match parse 0%Z s with Some z => (z <? 2 ^ 64)%Z | None => false end.
Definition decimal_text : string → bool := uint_text parse_digits.
Definition hex_text : string → bool := uint_text parse_hex.

Definition drop2 (s : string) : string := String.substring 2 (String.length s - 2) s.

Section Spelling.
Context `{GoText}.

Definition numeric_part (part : string) : bool :=
  let p := ToLower (TrimSpace part) in
  negb (String.eqb p "") &&
  (if HasPrefix p "0x" then hex_text (drop2 p) else decimal_text p).

Definition octal_or_hex (part : string) : bool :=
  let p := ToLower (TrimSpace part) in
  HasPrefix p "0x" || ((1 <? String.length p) && HasPrefix p "0").

Definition isObfuscatedIP (host : string) : bool :=
  let clean := TrimSuffix (TrimSpace host) "." in
  if String.eqb clean "" then false
  else if decimal_text clean then true
  else if HasPrefix (ToLower clean) "0x" && hex_text (drop2 clean) then true
  else if Contains clean "." then
    let parts := Split (byte_of 46) clean in
    forallb numeric_part parts &&
    (if (1 <=? length parts) && (length parts <=? 3) then true
     else (length parts =? 4) && existsb octal_or_hex parts)
  else false.

Definition mapped_text (host : string) : bool :=
  Contains (ToLower host) "::ffff:" || Contains (ToLower host) ":ffff:".
End Spelling.

(** ** Proxies *)

Section Proxies.
Context `{GoText} `{Net}.

Definition invalid_proxy {A} : result DomainError A := Err (NewValidationError "invalid_proxy_url").
Definition proxy_blocked {A} : result DomainError A := Err (NewSecurityError "proxy_ssrf_blocked").

Definition canonical_host (rawHost : string) : string :=
  match net_ParseIP rawHost with
  | Some ip => match To4 ip with
               | Some ip4 => IP_String ip4
               | None => "[" +:+ IP_String ip +:+ "]"
               end
  | None => ToLower rawHost
  end.

(** An IPv4 address that is written with a colon. *)
Definition mapped_literal (host : string) : bool :=
  match net_ParseIP host with
  | Some ip => match To4 ip with Some _ => Contains host ":" | None => false end
  | None => false
  end.

Definition canonical_port (port : string) : result DomainError Z :=
  if String.eqb port "" then invalid_proxy
  else if (1 <? String.length port) && HasPrefix port "0" then invalid_proxy
  else match ParseInt port with
       | Some n => if ((n <? 1) || (65535 <? n))%Z then invalid_proxy else Ok n
       | None => invalid_proxy
       end.

Definition parseCanonicalProxyURL (raw : string) : result DomainError string :=
  let clean := TrimSpace raw in
  if String.eqb clean "" then invalid_proxy
  else if negb (HasPrefix (ToLower clean) "http://") && negb (HasPrefix (ToLower clean) "https://")
  then invalid_proxy
  else
    match net_url_Parse clean with
    | None => invalid_proxy
    | Some u =>
        let rawHost := u_Hostname u in
        if negb (mem_str (ToLower (u_Scheme u)) ["http"; "https"]) then invalid_proxy
        else if negb (mem_str (u_Path u) [""; "/"]) then invalid_proxy
        else if negb (String.eqb (u_RawQuery u) "") || u_ForceQuery u ||
                negb (String.eqb (u_Fragment u) "") || Contains clean "#" then invalid_proxy
        else if String.eqb rawHost "" then invalid_proxy
        else if HasSuffix rawHost "." then invalid_proxy
        else if Contains rawHost "%" then invalid_proxy
        else if isObfuscatedIP rawHost then proxy_blocked
        else if mapped_text rawHost then proxy_blocked
        else if mapped_literal rawHost then proxy_blocked
        else
          let? port := canonical_port (u_Port u) in
          Ok (ToLower (u_Scheme u) +:+ "://" +:+ canonical_host rawHost +:+ ":" +:+ itoa port)
    end.

Definition with_user (u : URL) (user : option Userinfo) : URL :=
  {| u_Scheme := u_Scheme u; u_Host := u_Host u; u_Hostname := u_Hostname u; u_Port := u_Port u;
     u_Path := u_Path u; u_RawQuery := u_RawQuery u; u_ForceQuery := u_ForceQuery u;
     u_Fragment := u_Fragment u; u_User := user |}.

Definition masked_user (ui : Userinfo) : bool :=
  Contains (ui_Username ui) "***" || Contains (ui_Password ui) "***" ||
  Contains (ui_String ui) (bytes [226; 128; 162]%N).

(** The results of [url.Parse] that the source does not check are those of texts that
    were parsed before, or of a canonical one. *)
Definition parsed_user (raw : string) : option Userinfo :=
  match net_url_Parse (TrimSpace raw) with Some u => u_User u | None => None end.

Definition NormalizeProxyURL (raw : string) : result DomainError string :=
  let? canonical := parseCanonicalProxyURL raw in
  reject_if (match parsed_user raw with Some ui => masked_user ui | None => false end)
    (NewValidationError "invalid_proxy_url") ;;?
  match net_url_Parse canonical with
  | Some u => Ok (url_String (with_user u (parsed_user raw)))
  | None => Err (NewInternalError "panic: nil URL")
  end.

Definition ProxyEndpoint (raw : string) : string * bool :=
  match parseCanonicalProxyURL raw with
  | Err _ => ("", false)
  | Ok canonical => (canonical, match parsed_user raw with Some _ => true | None => false end)
  end.

Definition with_proxies (l : list string) (p : Policy) : Policy :=
  {| fp_AllowedSchemes := fp_AllowedSchemes p; fp_MaxRedirects := fp_MaxRedirects p;
     fp_BlockedCIDRs := fp_BlockedCIDRs p; fp_AllowedHosts := fp_AllowedHosts p;
     fp_AllowedProxyHosts := l; fp_AllowPrivate := fp_AllowPrivate p |}.

Definition AddAllowedProxy (p : Policy) (raw : string) : result DomainError Policy :=
  let? canonical := parseCanonicalProxyURL raw in
  Ok (if mem_str canonical (fp_AllowedProxyHosts p) then p
      else with_proxies (fp_AllowedProxyHosts p ++ [canonical]) p).

Definition IsHostAllowed (p : Policy) (target : string) : bool :=
  fp_AllowPrivate p ||
  existsb (λ allowed, EqualFold (ToLower (TrimSpace target)) (ToLower (TrimSpace allowed)))
    (fp_AllowedHosts p).

Definition IsProxyHostAllowed (p : Policy) (target : string) : bool :=
  fp_AllowPrivate p ||
  (let clean := TrimSpace target in
   negb (String.eqb clean "") &&
   match parseCanonicalProxyURL clean with
   | Ok canonical => mem_str canonical (fp_AllowedProxyHosts p)
   | Err _ => false
   end).
End Proxies.

(** ** Addresses *)

Definition ssrf_blocked {A} : result DomainError A := Err (NewSecurityError "ssrf_blocked").

Definition special_purpose (ip : IP) : bool :=
  IsLoopback ip || IsPrivate ip || IsLinkLocalUnicast ip || IsLinkLocalMulticast ip ||
  IsMulticast ip || IsUnspecified ip.

Definition in_block (ip checkIP : IP) (block : IPNet) : bool :=
  match To4 checkIP with
  | Some _ => (mask_bits block =? 32)%Z && Contains_IP block checkIP
  | None => Contains_IP block checkIP || Contains_IP block ip
  end.

Definition ValidateIP (p : Policy) (ip : IP) : result DomainError unit :=
  if length ip =? 0 then Err (NewSecurityError "invalid_ip")
  else
    let checkIP := match To4 ip with Some ip4 => ip4 | None => ip end in
    if special_purpose checkIP then ssrf_blocked
    else if existsb (in_block ip checkIP) (fp_BlockedCIDRs p) then ssrf_blocked
    else Ok tt.

(** ** Targets *)

Section Targets.
Context `{GoText} `{Net} (web : Internet).

(** [resolver.LookupIPAddr] *)
Definition LookupIPAddr (host : string) : M (list event) (option (list IP)) := λ h,
  (Ok (lookup_names web h host), h ++ [Looked host]).

(** Resolve a name; no address at all is an error, too. *)
Definition resolve_all (host code : string) : M (list event) (list IP) :=
  let! answer := LookupIPAddr host in
  match answer with
  | Some (ip :: ips) => ret (ip :: ips)
  | _ => fail (domain_error (NewSecurityError code))
  end.

Definition ValidateProxy (p : Policy) (u : URL) : M (list event) unit :=
  let! canonical := lift (parseCanonicalProxyURL (url_String u)) in
  if IsProxyHostAllowed p canonical then ret tt
  else
    match net_url_Parse canonical with
    | None => lift invalid_proxy
    | Some parsed =>
        let host := u_Hostname parsed in
        match net_ParseIP host with
        | Some ip => if is_ok (ValidateIP p ip) then ret tt else lift proxy_blocked
        | None =>
            let! ips := resolve_all host "proxy_dns_resolution_failed" in
            if forallb (λ ip, is_ok (ValidateIP p ip)) ips then ret tt else lift proxy_blocked
        end
    end.

Definition ValidateTarget (p : Policy) (u : URL) : M (list event) unit :=
  let scheme := ToLower (u_Scheme u) in
  let host := TrimSpace (u_Hostname u) in
  fail_when (String.eqb scheme "") (NewValidationError "missing_scheme") ;;!
  fail_when (negb (existsb (EqualFold scheme) (fp_AllowedSchemes p)))
    (NewSecurityError "unsupported_scheme") ;;!
  fail_when (String.eqb host "") (NewValidationError "invalid_url") ;;!
  fail_when (HasSuffix host ".") (NewValidationError "invalid_url") ;;!
  fail_when (isObfuscatedIP host) (NewSecurityError "ssrf_blocked") ;;!
  fail_when (mapped_text host) (NewSecurityError "ssrf_blocked") ;;!
  if IsHostAllowed p host || IsHostAllowed p (u_Host u) then ret tt
  else
    match net_ParseIP host with
    | Some ip => lift (ValidateIP p ip)
    | None =>
        let! ips := resolve_all host "dns_resolution_failed" in
        lift (for_each (ValidateIP p) ips)
    end.
End Targets.

(** ** The default policy, by arithmetic *)

(** The number of the address lies in none of the blocked intervals. *)
Definition in_table (table : list (IP * Z)) (v : Z) : Prop :=
  ∃ base ones, (base, ones) ∈ table ∧ within base ones v.
Definition public_address (ip : IP) : Prop :=
  match To4 ip with
  | Some ip4 => ¬ in_table blocked4 (be_value ip4)
  | None => ¬ in_table blocked6 (be_value ip)
  end.

Section Default.
Lemma blocked4_ok base ones : (base, ones) ∈ blocked4 → prefix_ok 4 base ones.
Proof.
  intros Hin. apply list_elem_of_In in Hin.
  repeat destruct Hin as [[= <- <-]|Hin]; try done;
    (split; [done| |done|reflexivity]; repeat constructor; done).
Qed.

Lemma blocked6_ok base ones : (base, ones) ∈ blocked6 → prefix_ok 16 base ones.
Proof.
  intros Hin. apply list_elem_of_In in Hin.
  repeat destruct Hin as [[= <- <-]|Hin]; try done;
    (split; [done| |done|reflexivity]; repeat constructor; done).
Qed.

Lemma valid4 ip : length ip = 4 → Forall is_byte ip → valid_IP ip.
Proof. intros. split; [by left|done]. Qed.

Lemma To4_4 ip : length ip = 4 → To4 ip = Some ip.
Proof. intros Hl. unfold To4. by rewrite Hl. Qed.

Lemma blocks4 ip : length ip = 4 → Forall is_byte ip →
  existsb (in_block ip ip) defaultBlockedCIDRs = true ↔ in_table blocked4 (be_value ip).
Proof.
  intros Hl Hb. unfold defaultBlockedCIDRs. rewrite existsb_app, orb_true_iff.
  assert (existsb (in_block ip ip) (map (λ p, cidr6 p.1 p.2) blocked6) = false) as ->.
  { apply not_true_iff_false. rewrite existsb_exists.
    intros (n & (p & <- & _)%in_map_iff & Hn). revert Hn. unfold in_block. rewrite To4_4 by done.
    unfold mask_bits, cidr6. cbn [net_Mask]. by rewrite CIDRMask_length. }
  rewrite existsb_exists. split.
  - intros [(n & ([base ones] & <- & Hin%list_elem_of_In)%in_map_iff & Hn)|]; [|done].
    unfold in_block in Hn. rewrite To4_4 in Hn by done.
    apply andb_true_iff in Hn as [_ Hn]. cbn [fst snd] in Hn.
    rewrite contains4 in Hn by (try apply blocked4_ok; try apply valid4; try rewrite To4_4; done).
    unfold family in Hn. rewrite To4_4 in Hn by done. apply bool_decide_eq_true in Hn.
    by exists base, ones.
  - intros (base & ones & Hin & Hw). left. exists (cidr4 base ones). split.
    { apply in_map_iff. exists (base, ones). by rewrite <- list_elem_of_In. }
    unfold in_block. rewrite To4_4 by done. unfold mask_bits.
    cbn [cidr4 net_Mask]. rewrite CIDRMask_length.
    rewrite contains4 by (try apply blocked4_ok; try apply valid4; try rewrite To4_4; done).
    unfold family. rewrite To4_4 by done. by rewrite bool_decide_eq_true_2.
Qed.

(** No IPv6 address proper lies in the network of the mapped ones. *)
Lemma mapped_outside ip base ones :
  valid_IP ip → To4 ip = None → (base, ones) ∈ blocked6 → within base ones (be_value ip) →
  To4 (net_IP (cidr6 base ones)) = None.
Proof.
  intros Hv Ht Hin Hw. pose proof (To4_none ip Hv Ht) as Hl.
  pose proof (blocked6_ok _ _ Hin) as Hp. apply (prefix_contains 16) in Hw; [|done|done|apply Hv].
  apply list_elem_of_In in Hin. repeat destruct Hin as [[= <- <-]|Hin]; try done. exfalso.
  destruct Hv as [_ Hb]. do 17 (destruct ip as [|? ip]; try done).
  repeat (apply Forall_cons in Hb as [? Hb]).
  change (CIDRMask 96 16) with (replicate 12 255%Z ++ replicate 4 0%Z) in Hw. simpl in Hw.
  repeat match goal with h : is_byte ?z |- _ => rewrite ?(land_byte_ones z h) in Hw; clear h end.
  injection Hw as <- <- <- <- <- <- <- <- <- <- <- <-.
  by vm_compute in Ht.
Qed.

Lemma blocks6 ip : valid_IP ip → To4 ip = None →
  existsb (in_block ip ip) defaultBlockedCIDRs = true ↔ in_table blocked6 (be_value ip).
Proof.
  intros Hv Ht. unfold defaultBlockedCIDRs. rewrite existsb_app, orb_true_iff.
  assert (existsb (in_block ip ip) (map (λ p, cidr4 p.1 p.2) blocked4) = false) as ->.
  { apply not_true_iff_false. rewrite existsb_exists.
    intros (n & ([base ones] & <- & Hin%list_elem_of_In)%in_map_iff & Hn). revert Hn. unfold in_block.
    rewrite Ht. cbn [fst snd]. rewrite contains4_other by (try apply blocked4_ok; done). done. }
  rewrite existsb_exists. split.
  - intros [|(n & ([base ones] & <- & Hin%list_elem_of_In)%in_map_iff & Hn)]; [done|].
    unfold in_block in Hn. rewrite Ht in Hn. cbn [fst snd] in Hn. rewrite orb_diag in Hn.
    rewrite contains6 in Hn by (try apply blocked6_ok; done).
    apply andb_true_iff in Hn as [_ Hn%bool_decide_eq_true]. by exists base, ones.
  - intros (base & ones & Hin & Hw). right. exists (cidr6 base ones). split.
    { apply in_map_iff. exists (base, ones). by rewrite <- list_elem_of_In. }
    unfold in_block. rewrite Ht, orb_diag, contains6 by (try apply blocked6_ok; done).
    rewrite !bool_decide_eq_true_2; [done|done|by eapply mapped_outside].
Qed.

Lemma in_table_1 table v base ones : (base, ones) ∈ table → within base ones v → in_table table v.
Proof. intros. by exists base, ones. Qed.

Lemma high_bits b mask v lo hi :
  is_byte b → (Z.land b mask =? v)%Z = true →
  forallb (λ x, implb (Z.land x mask =? v)%Z ((lo <=? x) && (x <? hi))%Z) (map Z.of_nat (seq 0 256)) = true →
  (lo ≤ b < hi)%Z.
Proof.
  intros Hb Hm Hall. pose proof (byte_forall _ Hall b Hb) as Hi. simpl in Hi. rewrite Hm in Hi.
  simpl in Hi. lia.
Qed.

(** Every special-purpose address is in the table. *)
Lemma special4 ip : length ip = 4 → Forall is_byte ip → special_purpose ip = true →
  in_table blocked4 (be_value ip).
Proof.
  intros Hl Hb. destruct ip as [|a [|b [|c [|d [|]]]]]; try done.
  repeat (apply Forall_cons in Hb as [? Hb]).
  unfold special_purpose, IsLoopback, IsPrivate, IsLinkLocalUnicast, IsLinkLocalMulticast, IsMulticast,
    IsUnspecified, by_family, byte_is, bits_are. rewrite To4_4 by done. cbn [byte_at List.nth].
  rewrite !orb_true_iff, !andb_true_iff, bool_decide_eq_true.
  unfold is_byte in *. cbn [be_value length]. intros Hs. destruct_or!; destruct_and?;
    repeat match goal with
           | h : (Z.land ?x 240 =? 16)%Z = true |- _ =>
               apply (high_bits x 240 16 16 32) in h; [|done|vm_compute; reflexivity]
           | h : (Z.land ?x 240 =? 224)%Z = true |- _ =>
               apply (high_bits x 240 224 224 240) in h; [|done|vm_compute; reflexivity]
           | h : (_ =? _)%Z = true |- _ => apply Z.eqb_eq in h
           end.
  - apply (in_table_1 _ _ [127; 0; 0; 0]%Z 8); [set_solver|unfold within; simpl; lia].
  - apply (in_table_1 _ _ [10; 0; 0; 0]%Z 8); [set_solver|unfold within; simpl; lia].
  - apply (in_table_1 _ _ [172; 16; 0; 0]%Z 12); [set_solver|unfold within; simpl; lia].
  - apply (in_table_1 _ _ [192; 168; 0; 0]%Z 16); [set_solver|unfold within; simpl; lia].
  - apply (in_table_1 _ _ [169; 254; 0; 0]%Z 16); [set_solver|unfold within; simpl; lia].
  - apply (in_table_1 _ _ [224; 0; 0; 0]%Z 4); [set_solver|unfold within; simpl; lia].
  - apply (in_table_1 _ _ [224; 0; 0; 0]%Z 4); [set_solver|unfold within; simpl; lia].
  - apply (in_table_1 _ _ [0; 0; 0; 0]%Z 8); [set_solver|unfold within; simpl; simplify_eq; lia].
Qed.

Lemma special6 ip : valid_IP ip → To4 ip = None → special_purpose ip = true →
  in_table blocked6 (be_value ip).
Proof.
  intros Hv Ht. pose proof (To4_none ip Hv Ht) as Hl. destruct Hv as [_ Hb].
  unfold special_purpose, IsLoopback, IsPrivate, IsLinkLocalUnicast, IsLinkLocalMulticast, IsMulticast,
    IsUnspecified, by_family, byte_is, bits_are. rewrite Ht, Hl. simpl Nat.eqb. cbn [andb].
  rewrite !orb_true_iff, !andb_true_iff, !bool_decide_eq_true. intros Hs.
  destruct (decide (ip = IPv6loopback)) as [->|].
  { apply (in_table_1 _ _ (addr6 [] [1%Z]) 128); [set_solver|by vm_compute]. }
  destruct (decide (ip = IPv6unspecified)) as [->|].
  { apply (in_table_1 _ _ (addr6 [] []) 128); [set_solver|by vm_compute]. }
  destruct ip as [|a [|b ip]]; try done. simpl in Hl. cbn [byte_at List.nth] in Hs.
  repeat (apply Forall_cons in Hb as [? Hb]). pose proof (be_value_bound ip Hb) as Hr.
  assert (length ip = 14) as Hl' by lia. cbn [be_value length]. rewrite Hl' in *.
  unfold is_byte in *. destruct_or!; destruct_and?; try done;
    repeat match goal with
           | h : (Z.land ?x 254 =? 252)%Z = true |- _ =>
               apply (high_bits x 254 252 252 254) in h; [|done|vm_compute; reflexivity]
           | h : (Z.land ?x 192 =? 128)%Z = true |- _ =>
               apply (high_bits x 192 128 128 192) in h; [|done|vm_compute; reflexivity]
           | h : (_ =? _)%Z = true |- _ => apply Z.eqb_eq in h
           end.
  - apply (in_table_1 _ _ (addr6 [0xfc00%Z] []) 7); [set_solver|].
    unfold within. change (be_value (addr6 [0xfc00%Z] [])) with (252 * 2 ^ 120)%Z.
    change (8 * Z.of_nat (length (addr6 [0xfc00%Z] [])) - 7)%Z with 121%Z. simpl in *. lia.
  - apply (in_table_1 _ _ (addr6 [0xfe80%Z] []) 10); [set_solver|].
    unfold within. change (be_value (addr6 [0xfe80%Z] [])) with (254 * 2 ^ 120 + 128 * 2 ^ 112)%Z.
    change (8 * Z.of_nat (length (addr6 [0xfe80%Z] [])) - 10)%Z with 118%Z. simpl in *. lia.
  - apply (in_table_1 _ _ (addr6 [0xff00%Z] []) 8); [set_solver|].
    unfold within. change (be_value (addr6 [0xff00%Z] [])) with (255 * 2 ^ 120)%Z.
    change (8 * Z.of_nat (length (addr6 [0xff00%Z] [])) - 8)%Z with 120%Z. simpl in *. lia.
  - apply (in_table_1 _ _ (addr6 [0xff00%Z] []) 8); [set_solver|].
    unfold within. change (be_value (addr6 [0xff00%Z] [])) with (255 * 2 ^ 120)%Z.
    change (8 * Z.of_nat (length (addr6 [0xff00%Z] [])) - 8)%Z with 120%Z. simpl in *. lia.
Qed.

Lemma valid_not_empty ip : valid_IP ip → (length ip =? 0) = false.
Proof. by intros [[-> | ->] _]. Qed.

Lemma default_blocks p ip :
  fp_BlockedCIDRs p = defaultBlockedCIDRs → valid_IP ip →
  ValidateIP p ip = Ok tt ↔ public_address ip.
Proof.
  intros Hd Hv. unfold ValidateIP, public_address. rewrite valid_not_empty, Hd by done.
  destruct (To4 ip) as [ip4|] eqn:Ht.
  - destruct (To4_valid ip ip4 Hv Ht) as [Hl Hb].
    assert (existsb (in_block ip ip4) defaultBlockedCIDRs = existsb (in_block ip4 ip4) defaultBlockedCIDRs)
      as -> by (unfold in_block; by rewrite To4_4).
    pose proof (blocks4 ip4 Hl Hb) as Hblk. pose proof (special4 ip4 Hl Hb) as Hsp.
    destruct (special_purpose ip4), (existsb _ _); unfold ssrf_blocked; naive_solver.
  - pose proof (blocks6 ip Hv Ht) as Hblk. pose proof (special6 ip Hv Ht) as Hsp.
    destruct (special_purpose ip), (existsb _ _); unfold ssrf_blocked; naive_solver.
Qed.
End Default.

(** C30. The default policy lets an address pass exactly when, read as a number in its
    own family (an IPv4-mapped IPv6 address is its IPv4 address), it lies in none of
    the listed special-purpose intervals: the byte-wise masks, the predicates of the
    standard library and the handling of mapped addresses together amount to
    interval membership. *)
Theorem default_policy_exact ip :
  valid_IP ip → ValidateIP DefaultPolicy ip = Ok tt ↔ public_address ip.
Proof. by apply default_blocks. Qed.

Definition mapped (ip4 : IP) : IP := v4InV6Prefix ++ ip4.

Lemma default_policy_exact_witness :
  ValidateIP DefaultPolicy [93; 184; 216; 34]%Z = Ok tt ∧ public_address [93; 184; 216; 34]%Z ∧
  ValidateIP DefaultPolicy (mapped [127; 0; 0; 1]%Z) = Err (NewSecurityError "ssrf_blocked") ∧
  ValidateIP DefaultPolicy (addr6 [0x2606; 0x4700]%Z [0x1111]%Z) = Ok tt.
Proof.
  split; [vm_compute; reflexivity|]. split.
  - apply default_policy_exact; [|vm_compute; reflexivity].
    split; [by left|]. repeat constructor; done.
  - split; vm_compute; reflexivity.
Defined.
