(* ===== verification/Fetch.v ===== *)
(** * Fetching a subscription

    [internal/fetch/fetch.go].  [Fetch] follows redirects itself: every hop is
    checked against the policy, a direct connection goes to the address that was
    checked, and the body is read within its limits.

    The three decompressors are operations of the class [Inflate]: each yields the
    bytes of the stream and whether it ends in an error, gzip and zlib also fail on
    a bad header.  Timeouts and connection errors come from the [Internet]. *)

From S2P Require Import Prelude.
From S2P Require Import GoStrings.
From S2P Require Import Domain.
From S2P Require Import Services.
From S2P Require Import Addresses.
From S2P Require Import FetchPolicy.

Definition DefaultTimeoutSeconds : Z := 30.
Definition DefaultMaxResponseBytes : Z := 10 * 1024 * 1024.
Definition DefaultMaxRedirects : Z := 5.
Definition DefaultUserAgent := "clash-verge/v2.5.6".

Record RefreshPolicy : Type := {
  rp_IntervalSeconds : Z;
  rp_UserAgentPolicy : string;
  rp_FetchProxyRef : string;
  rp_TimeoutSeconds : Z;
  rp_MaxResponseBytes : Z
}.

Record Options : Type := {
  opt_URL : string;
  opt_UserAgent : string;
  opt_FetchProxyURL : string;
  opt_Timeout : Z;
  opt_MaxResponseBytes : Z;
  opt_MaxDecompressedBytes : Z;
  opt_MaxRedirects : Z;
  opt_Policy : option Policy
}.

Record Response : Type := {
  rsp_StatusCode : Z;
  rsp_Body : string;
  rsp_ContentDigest : string;
  rsp_ContentType : string;
  rsp_ETag : string;
  rsp_LastModified : string
}.

(** A stream: its bytes, and whether it breaks off in an error. *)
Class Inflate := {
  gzip_stream : string → option (string * bool);
  zlib_stream : string → option (string * bool);
  flate_stream : string → string * bool
}.

(** [time.Duration(s) * time.Second] *)
Definition seconds (s : Z) : Z := wrap64 (s * 1000000000).

Definition OptionsFromPolicy (rawURL : string) (ref : RefreshPolicy) (proxy : string) : Options :=
  let timeout := seconds (rp_TimeoutSeconds ref) in
  let maxBytes := rp_MaxResponseBytes ref in
  let maxBytes := if (maxBytes <=? 0)%Z then DefaultMaxResponseBytes else maxBytes in
  {| opt_URL := rawURL; opt_UserAgent := rp_UserAgentPolicy ref; opt_FetchProxyURL := proxy;
     opt_Timeout := if (timeout <=? 0)%Z then seconds DefaultTimeoutSeconds else timeout;
     opt_MaxResponseBytes := maxBytes; opt_MaxDecompressedBytes := maxBytes;
     opt_MaxRedirects := DefaultMaxRedirects; opt_Policy := None |}.

Section Fetching.
Context `{GoText} `{Sha256} `{Net} `{Inflate}.

(** [Client.PolicyForProxy] *)
Definition PolicyForProxy (base : Policy) (configuredProxy : string) : result DomainError Policy :=
  let policy := with_proxies [] base in
  if String.eqb configuredProxy "" then Ok policy else AddAllowedProxy policy configuredProxy.

(** ** One hop *)

Definition target_port (u : URL) (scheme : string) : string :=
  if String.eqb (u_Port u) "" then if String.eqb scheme "https" then "443" else "80"
  else u_Port u.

(** The first IPv4 address, or else the first one. *)
Definition preferred (ip : IP) (ips : list IP) : IP :=
  match List.find (λ ip, match To4 ip with Some _ => true | None => false end) (ip :: ips) with
  | Some ip4 => ip4
  | None => ip
  end.

Section Hop.
Context (web : Internet) (policy : Policy).

(** The address that a hop to [host] is pinned to. *)
Definition pin (u : URL) (host : string) : M (list event) IP :=
  if fp_AllowPrivate policy || IsHostAllowed policy host || IsHostAllowed policy (u_Host u) then
    match net_ParseIP host with
    | Some ip => ret ip
    | None =>
        let! ips := resolve_all web host "dns_resolution_failed" in
        match ips with ip :: _ => ret ip | [] => ret [] end
    end
  else
    match net_ParseIP host with
    | Some ip =>
        fail_when (mapped_literal host) (NewSecurityError "ssrf_blocked") ;;!
        lift (ValidateIP policy ip) ;;!
        ret ip
    | None =>
        let! ips := resolve_all web host "dns_resolution_failed" in
        lift (for_each (ValidateIP policy) ips) ;;!
        match ips with ip :: rest => ret (preferred ip rest) | [] => ret [] end
    end.

Definition failed_request (f : request_failure) : DomainError :=
  match f with
  | timed_out => NewInternalError "fetch_timeout"
  | refused_with e => e
  | network_error => NewInternalError "fetch_failed"
  end.

(** [hopClient.Do]: the connection is an event, whatever the answer is. *)
Definition Do (h : hop) : M (list event) http_response := λ t,
  (match answer web t h with
   | Ok r => Ok r
   | Err f => Err (domain_error (failed_request f))
   end, t ++ [Connected h]).

Definition fetch_hop (proxy : option URL) (current : string) : M (list event) (URL * http_response) :=
  match net_url_Parse current with
  | None => fail (domain_error (NewValidationError "invalid_url"))
  | Some u =>
      let scheme := ToLower (u_Scheme u) in
      let host := TrimSpace (u_Hostname u) in
      fail_when (negb (mem_str scheme ["http"; "https"])) (NewSecurityError "unsupported_scheme") ;;!
      fail_when (String.eqb host "") (NewValidationError "invalid_url") ;;!
      fail_when (HasSuffix host ".") (NewValidationError "invalid_url") ;;!
      fail_when (isObfuscatedIP host) (NewSecurityError "ssrf_blocked") ;;!
      fail_when (mapped_text host) (NewSecurityError "ssrf_blocked") ;;!
      let! ip := pin u host in
      fail_when (negb (NewRequest_ok u)) (NewValidationError "invalid_request") ;;!
      let! r := Do {| hop_URL := u; hop_Proxy := proxy;
                      hop_Dial := match proxy with
                                  | Some p => DialName (u_Hostname p) (u_Port p)
                                  | None => DialIP ip (target_port u scheme)
                                  end |} in
      ret (u, r)
  end.

Definition is_redirect (status : Z) : bool := existsb (Z.eqb status) [301; 302; 303; 307; 308]%Z.

(** ** The redirects *)

Definition out_of_fuel : error := driver_error "out of fuel".

Fixpoint fetch_hops (fuel : nat) (proxy : option URL) (maxRedirects hop : Z) (current : string)
    : M (list event) http_response :=
  match fuel with
  | O => fail out_of_fuel
  | S fuel =>
      fail_when (maxRedirects <? hop)%Z (NewSecurityError "too_many_redirects") ;;!
      let! ur := fetch_hop proxy current in
      let '(u, r) := ur in
      if is_redirect (resp_Status r) then
        fail_when (String.eqb (resp_Location r) "") (NewInternalError "http_error") ;;!
        match url_Reference u (resp_Location r) with
        | None => fail (domain_error (NewValidationError "invalid_redirect"))
        | Some next => fetch_hops fuel proxy maxRedirects (hop + 1) (url_String next)
        end
      else ret r
  end.
End Hop.

(** ** The body *)

(** [io.ReadAll(io.LimitReader(r, limit+1))]; a limit that overflowed reads nothing. *)
Definition read_limited (stream : string * bool) (limit : Z) (code : string)
    : result DomainError string :=
  let n := wrap64 (limit + 1) in
  if (n <=? 0)%Z then Ok ""
  else if (n <=? Z.of_nat (String.length stream.1))%Z
  then Ok (String.substring 0 (Z.to_nat n) stream.1)
  else if stream.2 then Err (NewInternalError code) else Ok stream.1.

Definition too_long (s : string) (limit : Z) : bool := (limit <? Z.of_nat (String.length s))%Z.

Definition inflate (stream : string * bool) (limit : Z) : result DomainError string :=
  let? b := read_limited stream limit "decompression_failed" in
  reject_if (too_long b limit) (NewSecurityError "decompression_limit_exceeded") ;;?
  Ok b.

Definition gzip_magic : string := bytes [31; 139]%N.

Definition decoded (encoding raw : string) (limit : Z) : result DomainError string :=
  let encoding := ToLower (TrimSpace encoding) in
  if String.eqb encoding "gzip" || HasPrefix raw gzip_magic then
    match gzip_stream raw with
    | None => Err (NewValidationError "invalid_gzip")
    | Some s => inflate s limit
    end
  else if String.eqb encoding "deflate" then
    inflate (match zlib_stream raw with Some s => s | None => flate_stream raw end) limit
  else Ok raw.

Definition or_default (v d : Z) : Z := if (v <=? 0)%Z then d else v.

Definition read_response (opts : Options) (r : http_response) : result DomainError Response :=
  let maxBytes := or_default (opt_MaxResponseBytes opts) DefaultMaxResponseBytes in
  let maxInflated := or_default (opt_MaxDecompressedBytes opts) maxBytes in
  reject_if ((resp_Status r <? 200) || (300 <=? resp_Status r))%Z (NewInternalError "http_error") ;;?
  reject_if (maxBytes <? resp_ContentLength r)%Z (NewSecurityError "response_too_large") ;;?
  let? raw := read_limited (resp_Body r, resp_Broken r) maxBytes "read_error" in
  reject_if (too_long raw maxBytes) (NewSecurityError "response_too_large") ;;?
  let? body := decoded (resp_ContentEncoding r) raw maxInflated in
  Ok {| rsp_StatusCode := resp_Status r; rsp_Body := body;
        rsp_ContentDigest := hex_bytes (sha256_Sum256 body);
        rsp_ContentType := resp_ContentType r; rsp_ETag := resp_ETag r;
        rsp_LastModified := resp_LastModified r |}.

(** ** [Client.Fetch] *)

Definition fetch_proxy (web : Internet) (policy : Policy) (opts : Options)
    : M (list event) (option URL) :=
  if String.eqb (opt_FetchProxyURL opts) "" then ret None
  else
    match net_url_Parse (opt_FetchProxyURL opts) with
    | None => fail (domain_error (NewValidationError "invalid_proxy_url"))
    | Some u => ValidateProxy web policy u ;;! ret (Some u)
    end.

Definition effective_policy (client : Policy) (opts : Options) : Policy :=
  match opt_Policy opts with Some p => p | None => client end.
Definition effective_redirects (policy : Policy) (opts : Options) : Z :=
  or_default (opt_MaxRedirects opts) (or_default (fp_MaxRedirects policy) DefaultMaxRedirects).

(** The hops are numbered from zero and the one after the last is refused, so two
    more steps than redirects are enough. *)
Definition Fetch (web : Internet) (client : Policy) (opts : Options) : M (list event) Response :=
  let policy := effective_policy client opts in
  let! proxy := fetch_proxy web policy opts in
  let maxRedirects := effective_redirects policy opts in
  let! r := fetch_hops web policy (Z.to_nat maxRedirects + 2) proxy maxRedirects 0 (opt_URL opts) in
  lift (read_response opts r).
End Fetching.

(** ** What a request adds to the trace *)

Definition is_connected (e : event) : bool := match e with Connected _ => true | Looked _ => false end.
Definition connections (l : list event) : nat := length (List.filter is_connected l).

Lemma connections_app l1 l2 : connections (l1 ++ l2) = connections l1 + connections l2.
Proof. unfold connections. by rewrite List.filter_app, length_app. Qed.

Lemma no_connections l : Forall (λ e, is_connected e = false) l → connections l = 0.
Proof.
  unfold connections. induction 1 as [|e l Hx _ IH]; [done|]. cbn [List.filter]. by rewrite Hx.
Qed.

(** [c] only appends events that satisfy [P], at most [n] of them connections, and a
    failure of it is a domain error. *)
Definition adds {A} (P : event → Prop) (n : Z) (c : M (list event) A) : Prop :=
  ∀ t, (∃ evs, (c t).2 = t ++ evs ∧ Forall P evs ∧ (Z.of_nat (connections evs) ≤ n)%Z) ∧
    ∀ e, (c t).1 = Err e → ∃ d, e = domain_error d.

Section Adds.
Context (P : event → Prop).

Lemma adds_ret {A} (a : A) n : (0 ≤ n)%Z → adds P n (ret a).
Proof. intros Hn t. split; [|done]. exists []. by rewrite app_nil_r. Qed.

Lemma adds_fail {A} d n : (0 ≤ n)%Z → adds P n (fail (A := A) (domain_error d)).
Proof.
  intros Hn t. split; [|intros e [= <-]; by eexists]. exists []. by rewrite app_nil_r.
Qed.

Lemma adds_lift {A} (r : result DomainError A) n : (0 ≤ n)%Z → adds P n (lift r).
Proof. intros Hn. destruct r; [by apply (adds_ret a)|by apply adds_fail]. Qed.

Lemma adds_fail_when b d n : (0 ≤ n)%Z → adds P n (fail_when b d).
Proof. intros Hn. destruct b; [by apply adds_fail|by apply adds_ret]. Qed.

Lemma adds_bind {A B} (c : M (list event) A) (k : A → M (list event) B) n1 n2 n :
  (0 ≤ n2)%Z → (n1 + n2 ≤ n)%Z →
  adds P n1 c → (∀ a t t', c t = (Ok a, t') → adds P n2 (k a)) → adds P n (bind c k).
Proof.
  intros H2 Hn Hc Hk t. destruct (Hc t) as [(evs & Ht & Hp & Hcon) He]. unfold bind.
  destruct (c t) as [[a|e] t'] eqn:Hct; simpl in *.
  - subst t'. destruct (Hk a t _ Hct (t ++ evs)) as [(evs' & Ht' & Hp' & Hcon') He'].
    split; [|done]. exists (evs ++ evs'). rewrite app_assoc. split; [done|].
    split; [by apply Forall_app|]. rewrite connections_app. lia.
  - split; [|intros e' [= <-]; by apply He]. exists evs. split; [done|]. split; [done|lia].
Qed.

Lemma adds_seq {A B} (c : M (list event) A) (k : A → M (list event) B) n :
  (0 ≤ n)%Z → adds P 0 c → (∀ a, adds P n (k a)) → adds P n (bind c k).
Proof. intros Hn Hc Hk. eapply (adds_bind _ _ 0 n); [done|lia|done|by intros]. Qed.
End Adds.

Section Guarantees.
Context `{GoText} `{Sha256} `{Net} `{Inflate}.

(** A policy that blocks what the default one does. *)
Class DefaultBlocks (p : Policy) : Prop := default_cidrs : fp_BlockedCIDRs p = defaultBlockedCIDRs.

Definition exempted (policy : Policy) (u : URL) : bool :=
  fp_AllowPrivate policy || IsHostAllowed policy (TrimSpace (u_Hostname u)) ||
  IsHostAllowed policy (u_Host u).

(** The connections a fetch may open. *)
Definition permitted (policy : Policy) (proxy : option URL) (h : hop) : Prop :=
  hop_Proxy h = proxy ∧
  match proxy with
  | Some p => hop_Dial h = DialName (u_Hostname p) (u_Port p)
  | None => ∃ ip port, hop_Dial h = DialIP ip port ∧
      (exempted policy (hop_URL h) = true ∨ valid_IP ip ∧ ValidateIP policy ip = Ok tt)
  end.
Definition permitted_event (policy : Policy) (proxy : option URL) (e : event) : Prop :=
  match e with Looked _ => True | Connected h => permitted policy proxy h end.

Section Hops.
Context (web : Internet) (policy : Policy).

Lemma adds_resolve (P : event → Prop) host code :
  (∀ host, P (Looked host)) → adds P 0 (resolve_all web host code).
Proof.
  intros HP. unfold resolve_all. apply adds_seq; [done| |].
  - intros t. split; [|done]. exists [Looked host]. split; [done|]. split; [|done].
    by constructor.
  - intros [[|ip ips]|]; [by apply adds_fail|by apply adds_ret|by apply adds_fail].
Qed.

Lemma resolve_ok host code t ips t' :
  resolve_all web host code t = (Ok ips, t') → Forall valid_IP ips ∧ ips ≠ [].
Proof.
  unfold resolve_all, bind, LookupIPAddr. destruct (lookup_names web t host) as [l|] eqn:Hl; [|done].
  pose proof (lookup_valid web _ _ _ Hl) as Hv. destruct l as [|ip l]; [done|]. by intros [= <- _].
Qed.

Lemma adds_pin (P : event → Prop) u host :
  (∀ host, P (Looked host)) → adds P 0 (pin web policy u host).
Proof.
  intros HP. unfold pin. destruct (_ || _).
  - destruct (net_ParseIP host); [by apply adds_ret|].
    apply adds_seq; [done|by apply adds_resolve|]. intros [|ip ips]; by apply adds_ret.
  - destruct (net_ParseIP host).
    + apply adds_seq; [done|by apply adds_fail_when|intros _].
      apply adds_seq; [done|by apply adds_lift|intros _]. by apply adds_ret.
    + apply adds_seq; [done|by apply adds_resolve|]. intros ips.
      apply adds_seq; [done|by apply adds_lift|intros _]. destruct ips; by apply adds_ret.
Qed.

Lemma preferred_in ip ips : preferred ip ips ∈ ip :: ips.
Proof.
  unfold preferred. destruct (List.find _ _) as [x|] eqn:Hf; [|set_solver].
  apply List.find_some in Hf as [Hin _]. by apply list_elem_of_In.
Qed.

(** The pinned address passed the check, unless the host is exempted. *)
Lemma pin_ok u host t ip t' :
  pin web policy u host t = (Ok ip, t') →
  fp_AllowPrivate policy || IsHostAllowed policy host || IsHostAllowed policy (u_Host u) = true ∨
  valid_IP ip ∧ ValidateIP policy ip = Ok tt.
Proof.
  unfold pin. destruct (_ || _) eqn:Hex; [by left|]. intros Hpin. right.
  destruct (net_ParseIP host) as [ip'|] eqn:Hparse.
  - apply bind_ok in Hpin as (? & ? & _ & Hpin). apply bind_ok in Hpin as ([] & ? & Hv & Hpin).
    apply lift_ok in Hv as [_ Hv]. injection Hpin as <- _. split; [|done].
    by eapply net_ParseIP_valid.
  - apply bind_ok in Hpin as (ips & ? & Hr & Hpin). apply bind_ok in Hpin as ([] & ? & Hv & Hpin).
    apply lift_ok in Hv as [_ Hv]. apply resolve_ok in Hr as [Hvalid Hne].
    destruct ips as [|ip0 ips]; [done|]. injection Hpin as <- _.
    pose proof (preferred_in ip0 ips) as Hin. split; [by eapply Forall_forall|].
    rewrite for_each_ok in Hv. by apply Hv.
Qed.
End Hops.

Lemma adds_hop web policy proxy current :
  adds (permitted_event policy proxy) 1 (fetch_hop web policy proxy current).
Proof.
  unfold fetch_hop. destruct (net_url_Parse current) as [u|]; [|by apply adds_fail].
  do 5 (apply adds_seq; [done|by apply adds_fail_when|intros _]).
  apply (adds_bind _ _ _ 0 1 1); [done..|by apply adds_pin|]. intros ip t t' Hpin.
  apply adds_seq; [done|by apply adds_fail_when|intros _].
  apply (adds_bind _ _ _ 1 0 1); [done..| |intros; by apply adds_ret].
  intros t2. split; [|unfold Do; simpl; destruct (answer _ _ _) as [?|f]; [done|]; intros e [= <-]; by eexists].
  eexists. split; [reflexivity|]. split; [|done]. constructor; [|done].
  split; [done|]. destruct proxy as [p|]; [done|]. simpl. eexists _, _. split; [reflexivity|].
  exact (pin_ok web policy u _ _ _ _ Hpin).
Qed.

Lemma adds_hops web policy proxy maxRedirects fuel hop current :
  (maxRedirects - hop + 2 ≤ Z.of_nat fuel)%Z → (0 < Z.of_nat fuel)%Z → (hop ≤ maxRedirects + 1)%Z →
  adds (permitted_event policy proxy) (maxRedirects + 1 - hop)
    (fetch_hops web policy fuel proxy maxRedirects hop current).
Proof.
  revert hop current. induction fuel as [|fuel IH]; intros hop current Hf Hpos Hle; [done|].
  cbn [fetch_hops]. set (P := permitted_event policy proxy).
  destruct (Z.ltb_spec maxRedirects hop) as [Hgt|Hin].
  { assert (0 ≤ maxRedirects + 1 - hop)%Z as Hn by lia. intros t.
    exact (adds_fail P (NewSecurityError "too_many_redirects") _ Hn t). }
  apply adds_seq; [lia|apply adds_ret; lia|intros _].
  apply (adds_bind P _ _ 1 (maxRedirects - hop)); [lia|lia|apply adds_hop|]. intros [u r] _ _ _.
  destruct (is_redirect _); [|apply adds_ret; lia].
  apply adds_seq; [lia|by apply adds_fail_when|intros _].
  destruct (url_Reference u _) as [next|]; [|apply adds_fail; lia].
  replace (maxRedirects - hop)%Z with (maxRedirects + 1 - (hop + 1))%Z by lia. apply IH; lia.
Qed.

Lemma adds_validate_proxy web policy P u :
  (∀ host, P (Looked host)) → adds P 0 (ValidateProxy web policy u).
Proof.
  intros HP. unfold ValidateProxy. apply adds_seq; [done|by apply adds_lift|]. intros canonical.
  destruct (IsProxyHostAllowed _ _); [by apply adds_ret|].
  destruct (net_url_Parse canonical) as [parsed|]; [|by apply adds_lift].
  destruct (net_ParseIP _); [destruct (is_ok _); [by apply adds_ret|by apply adds_lift]|].
  apply adds_seq; [done|by apply adds_resolve|]. intros ips.
  destruct (forallb _ _); [by apply adds_ret|by apply adds_lift].
Qed.

Lemma effective_redirects_pos policy opts : (0 < effective_redirects policy opts)%Z.
Proof. unfold effective_redirects, or_default, DefaultMaxRedirects. repeat case_match; lia. Qed.

Lemma fetch_proxy_ok web policy opts t proxy t' :
  fetch_proxy web policy opts t = (Ok proxy, t') →
  match proxy with
  | None => opt_FetchProxyURL opts = ""
  | Some p => net_url_Parse (opt_FetchProxyURL opts) = Some p ∧
      (ValidateProxy web policy p t).1 = Ok tt
  end.
Proof.
  unfold fetch_proxy. destruct (String.eqb_spec (opt_FetchProxyURL opts) "") as [He|Hne].
  { by intros [= <- _]. }
  destruct (net_url_Parse _) as [u|]; [|done]. intros Hb. apply bind_ok in Hb as ([] & t1 & Hv & Hb).
  injection Hb as <- _. by rewrite Hv.
Qed.

Lemma adds_fetch_proxy web policy P opts :
  (∀ host, P (Looked host)) → adds P 0 (fetch_proxy web policy opts).
Proof.
  intros HP. unfold fetch_proxy. destruct (String.eqb _ _); [by apply adds_ret|].
  destruct (net_url_Parse _); [|by apply adds_fail].
  apply adds_seq; [done|by apply adds_validate_proxy|intros _]. by apply adds_ret.
Qed.

(** The trace of a whole fetch. *)
Lemma adds_fetch web client opts t :
  let policy := effective_policy client opts in
  ∃ proxy evs, (Fetch web client opts t).2 = t ++ evs ∧
    Forall (λ e, match e with
                 | Looked _ => True
                 | Connected h => permitted policy proxy h ∧
                     match proxy with
                     | None => opt_FetchProxyURL opts = ""
                     | Some p => net_url_Parse (opt_FetchProxyURL opts) = Some p ∧
                         (ValidateProxy web policy p t).1 = Ok tt
                     end
                 end) evs ∧
    (Z.of_nat (connections evs) ≤ effective_redirects policy opts + 1)%Z ∧
    ∀ e, (Fetch web client opts t).1 = Err e → ∃ d, e = domain_error d.
Proof.
  intros policy. unfold Fetch. fold policy. pose proof (effective_redirects_pos policy opts) as Hpos.
  set (mr := effective_redirects policy opts) in *.
  destruct (adds_fetch_proxy web policy (λ e, is_connected e = false) opts ltac:(done) t)
    as [(evs & Ht & Hl & _) He]. unfold bind at 1 3.
  pose proof (no_connections _ Hl) as Hc0.
  destruct (fetch_proxy web policy opts t) as [[proxy|e] t1] eqn:Hp; simpl in *; subst t1.
  - pose proof (fetch_proxy_ok _ _ _ _ _ _ Hp) as Hproxy.
    assert (adds (permitted_event policy proxy) (mr + 1)
      (let! r := fetch_hops web policy (Z.to_nat mr + 2) proxy mr 0 (opt_URL opts) in
       lift (read_response opts r))) as Hadds.
    { apply (adds_bind _ _ _ (mr + 1) 0); [lia|lia| |intros; by apply adds_lift].
      replace (mr + 1)%Z with (mr + 1 - 0)%Z by lia. apply adds_hops; lia. }
    destruct (Hadds (t ++ evs)) as [(evs' & Ht' & Hl' & Hc') He']. exists proxy, (evs ++ evs').
    split; [by rewrite app_assoc|]. split; [|split; [rewrite connections_app; lia|done]].
    apply Forall_app. split; [eapply Forall_impl; [done|]; by intros []|].
    eapply Forall_impl; [done|]. intros [|h] Hh; [done|]. split; [done|]. exact Hproxy.
  - exists None, evs. split; [done|]. split; [eapply Forall_impl; [done|]; by intros []|].
    split; [lia|]. intros e' [= <-]. by apply He.
Qed.

(** C28. A subscription fetch reaches public addresses only.  Whatever the names resolve
    to, now or later, and whatever the servers answer, redirects included: every
    direct connection goes to an address outside all blocked intervals, unless the
    policy exempts the host by name; with a proxy every connection goes to the
    configured proxy, which was validated first; and at most one connection more
    than the allowed redirects is opened. *)
Theorem fetch_connects_to_public_addresses web client opts t :
  DefaultBlocks (effective_policy client opts) →
  ∃ evs, (Fetch web client opts t).2 = t ++ evs ∧
    (Z.of_nat (connections evs) ≤ effective_redirects (effective_policy client opts) opts + 1)%Z ∧
    ∀ h, Connected h ∈ evs →
      match hop_Proxy h with
      | None => opt_FetchProxyURL opts = "" ∧
          ∃ ip port, hop_Dial h = DialIP ip port ∧
            (exempted (effective_policy client opts) (hop_URL h) = true ∨ public_address ip)
      | Some p => net_url_Parse (opt_FetchProxyURL opts) = Some p ∧
          hop_Dial h = DialName (u_Hostname p) (u_Port p) ∧
          (ValidateProxy web (effective_policy client opts) p t).1 = Ok tt
      end.
Proof.
  intros Hd. destruct (adds_fetch web client opts t) as (proxy & evs & Ht & Hl & Hc & _).
  exists evs. split; [done|]. split; [done|]. intros h Hh.
  rewrite Forall_forall in Hl. destruct (Hl _ Hh) as [[Hp Hdial] Hproxy]. rewrite Hp.
  destruct proxy as [p|].
  - by destruct Hproxy.
  - split; [done|]. destruct Hdial as (ip & port & Hdial & Hok). exists ip, port.
    split; [done|]. destruct Hok as [|[Hv Hok]]; [by left|right].
    by apply (default_blocks (effective_policy client opts)).
Qed.

(** ** The body *)

Lemma too_long_false s limit :
  too_long s limit = false → (Z.of_nat (String.length s) ≤ limit)%Z.
Proof. unfold too_long. lia. Qed.

Lemma length_prefix n s : n ≤ String.length s → String.length (String.substring 0 n s) = n.
Proof.
  revert s. induction n as [|n IH]; intros [|c s] Hn; simpl in *; [done..|lia|].
  rewrite IH; lia.
Qed.

(** A stream read without exceeding its limit has been read to its end. *)
Lemma read_whole stream limit code b :
  (0 < limit < int64_max)%Z → read_limited stream limit code = Ok b →
  too_long b limit = false → stream = (b, false).
Proof.
  intros Hl. unfold read_limited. rewrite wrap64_small by (unfold int64_min in *; lia).
  replace (limit + 1 <=? 0)%Z with false by lia.
  destruct (limit + 1 <=? Z.of_nat (String.length stream.1))%Z eqn:Hn.
  - intros [= <-] Ht%too_long_false. rewrite length_prefix in Ht; lia.
  - destruct stream as [s []]; simpl; [done|]. by intros [= ->].
Qed.

Lemma inflate_ok s limit b :
  inflate s limit = Ok b →
  (Z.of_nat (String.length b) ≤ limit)%Z ∧ ((0 < limit < int64_max)%Z → s = (b, false)).
Proof.
  unfold inflate. destruct (read_limited _ _ _) as [b'|] eqn:Hr; [|done].
  destruct (too_long b' limit) eqn:Hl; [done|]. intros [= <-].
  split; [by apply too_long_false|]. intros Hlim. by eapply read_whole.
Qed.

(** The compression of a body, by its header or by its first two bytes, and the
    stream it unpacks to; the second component marks a stream that breaks off. *)
Definition compressed (encoding raw : string) : bool :=
  let encoding := ToLower (TrimSpace encoding) in
  String.eqb encoding "gzip" || HasPrefix raw gzip_magic || String.eqb encoding "deflate".

Definition unpacked (encoding raw : string) : option (string * bool) :=
  if String.eqb (ToLower (TrimSpace encoding)) "gzip" || HasPrefix raw gzip_magic
  then gzip_stream raw
  else Some (match zlib_stream raw with Some s => s | None => flate_stream raw end).

Lemma decoded_ok encoding raw limit b :
  decoded encoding raw limit = Ok b →
  if compressed encoding raw
  then (Z.of_nat (String.length b) ≤ limit)%Z ∧
       ((0 < limit < int64_max)%Z → unpacked encoding raw = Some (b, false))
  else b = raw.
Proof.
  unfold decoded, compressed, unpacked. destruct (_ || _); simpl.
  - destruct (gzip_stream raw); [|done]. intros [? Hw]%inflate_ok. split; [done|].
    intros ?. by rewrite Hw.
  - destruct (String.eqb _ _); [|by intros [= <-]]. intros [? Hw]%inflate_ok. split; [done|].
    intros ?. by rewrite Hw.
Qed.

Lemma or_default_pos v d : (0 < d)%Z → (0 < or_default v d)%Z.
Proof. unfold or_default. case_match; lia. Qed.

(** The reply that ends the redirects of a fetch. *)
Definition replied web client opts t (r : http_response) : Prop :=
  let policy := effective_policy client opts in
  let redirects := effective_redirects policy opts in
  ∃ proxy t1 t2,
    fetch_proxy web policy opts t = (Ok proxy, t1) ∧
    fetch_hops web policy (Z.to_nat redirects + 2) proxy redirects 0 (opt_URL opts) t1 =
      (Ok r, t2).

(** What [read_response] makes of a reply, for a limit on the bytes received and
    one on the bytes unpacked. *)
Definition faithful_body (limit expansion : Z) (r : http_response) (resp : Response) : Prop :=
  rsp_StatusCode resp = resp_Status r ∧ (200 ≤ resp_Status r < 300)%Z ∧
  rsp_ContentDigest resp = hex_bytes (sha256_Sum256 (rsp_Body resp)) ∧
  ∃ raw,
    (Z.of_nat (String.length raw) ≤ limit)%Z ∧
    ((limit < int64_max)%Z → raw = resp_Body r ∧ resp_Broken r = false) ∧
    if compressed (resp_ContentEncoding r) raw
    then (Z.of_nat (String.length (rsp_Body resp)) ≤ expansion)%Z ∧
         ((expansion < int64_max)%Z →
          unpacked (resp_ContentEncoding r) raw = Some (rsp_Body resp, false))
    else rsp_Body resp = raw.

Lemma read_response_faithful opts r resp :
  let limit := or_default (opt_MaxResponseBytes opts) DefaultMaxResponseBytes in
  read_response opts r = Ok resp →
  faithful_body limit (or_default (opt_MaxDecompressedBytes opts) limit) r resp.
Proof.
  intros limit. assert (0 < limit)%Z as Hpos by by apply or_default_pos.
  pose proof (or_default_pos (opt_MaxDecompressedBytes opts) limit Hpos) as Hpos'.
  unfold read_response. fold limit.
  destruct ((resp_Status r <? 200) || (300 <=? resp_Status r))%Z eqn:Hst; [done|]. simpl.
  destruct (limit <? resp_ContentLength r)%Z; [done|]. simpl.
  destruct (read_limited _ _ _) as [raw|] eqn:Hr; [|done].
  destruct (too_long raw limit) eqn:Hl; [done|]. simpl.
  destruct (decoded _ _ _) as [body|] eqn:Hd; [|done]. intros [= <-].
  apply orb_false_iff in Hst as [? ?]. split; [done|]. split; [lia|]. split; [done|].
  exists raw. split; [by apply too_long_false|]. split.
  - intros Hlim. apply read_whole in Hr; [|lia|done]. by injection Hr as ? ?.
  - apply decoded_ok in Hd. simpl. destruct (compressed _ _); [|done].
    destruct Hd as [? Hw]. split; [done|]. intros ?. apply Hw. lia.
Qed.

(** C29. A fetch always comes to an end, with a typed error or with the body of the
    reply that ended the redirects, within its limits: the status is a success;
    the bytes received are at most the response limit; a body that is not
    compressed is returned as received; a compressed one is returned unpacked and
    is at most the expansion limit long.  When the limits are below the largest
    64-bit integer nothing is cut off: the bytes received are the whole body of
    the reply, and the bytes returned the whole of what it unpacks to.  The digest
    is the SHA-256 of the bytes returned. *)
Theorem fetch_returns_bounded_body web client opts t :
  let limit := or_default (opt_MaxResponseBytes opts) DefaultMaxResponseBytes in
  let expansion := or_default (opt_MaxDecompressedBytes opts) limit in
  match (Fetch web client opts t).1 with
  | Ok resp => ∃ r, replied web client opts t r ∧ faithful_body limit expansion r resp
  | Err e => ∃ d, e = domain_error d
  end.
Proof.
  intros limit expansion. destruct (adds_fetch web client opts t) as (_ & _ & _ & _ & _ & Herr).
  destruct (Fetch web client opts t) as [[resp|e] t'] eqn:Hf; simpl in *; [|by apply Herr].
  unfold Fetch in Hf. apply bind_ok in Hf as (proxy & t1 & Hp & Hf).
  apply bind_ok in Hf as (r & t2 & Hr & Hf). apply lift_ok in Hf as [_ Hf].
  exists r. split; [by exists proxy, t1, t2|]. by apply read_response_faithful.
Qed.
End Guarantees.

(** ** Instances *)

#[local] Existing Instance ascii_text.
#[local] Existing Instance sample_sha.

Definition plain_url (scheme host port : string) : URL :=
  {| u_Scheme := scheme; u_Host := host; u_Hostname := host; u_Port := port; u_Path := "";
     u_RawQuery := ""; u_ForceQuery := false; u_Fragment := ""; u_User := None |}.
Definition known_urls : list (string * URL) :=
  [ ("https://sub.example", plain_url "https" "sub.example" "");
    ("http://hop.example", plain_url "http" "hop.example" "");
    ("http://relay.example:8080", plain_url "http" "relay.example" "8080") ].
Definition text_of_url (u : URL) : string :=
  u_Scheme u +:+ "://" +:+ u_Hostname u +:+
  if String.eqb (u_Port u) "" then "" else ":" +:+ u_Port u.

(** Texts of a fixed list are URLs, and no host is a literal address. *)
Definition sample_net : Net.
Proof.
  refine {| net_ParseIP := λ _, None; IP_String := λ _, "";
            net_url_Parse := λ s, snd <$> List.find (λ p, String.eqb p.1 s) known_urls;
            url_String := text_of_url;
            url_Reference := λ _ s, snd <$> List.find (λ p, String.eqb p.1 s) known_urls;
            NewRequest_ok := λ _, true |}.
  done.
Defined.
#[local] Existing Instance sample_net.
Definition sample_inflate : Inflate :=
  {| gzip_stream := λ s, Some (s, false); zlib_stream := λ s, None; flate_stream := λ s, (s, false) |}.
#[local] Existing Instance sample_inflate.

Definition reply (status : Z) (location body : string) : http_response :=
  {| resp_Status := status; resp_Location := location; resp_ContentEncoding := "";
     resp_ContentType := "text/plain"; resp_ETag := ""; resp_LastModified := "";
     resp_ContentLength := -1; resp_Body := body; resp_Broken := false |}.

Definition public_ip : IP := [93; 184; 216; 34]%Z.
Definition loopback_ip : IP := [127; 0; 0; 1]%Z.
Lemma sample_ips_valid : Forall valid_IP [public_ip] ∧ Forall valid_IP [loopback_ip].
Proof. split; (constructor; [|done]; split; [by left|]; repeat constructor; done). Qed.

(** The first name asked for is public, every later one resolves to the local host;
    the first server redirects. *)
Definition rebinding_web : Internet.
Proof.
  refine {| lookup_names := λ t _, Some (if length t =? 0 then [public_ip] else [loopback_ip]);
            answer := λ t h, Ok (if (length t =? 1) && String.eqb (u_Scheme (hop_URL h)) "https"
                                 then reply 302 "http://hop.example" ""
                                 else reply 200 "" "payload") |}.
  intros t host ips [= <-]. destruct (_ =? 0); apply sample_ips_valid.
Defined.

Definition direct_options : Options :=
  {| opt_URL := "https://sub.example"; opt_UserAgent := ""; opt_FetchProxyURL := "";
     opt_Timeout := 0; opt_MaxResponseBytes := 0; opt_MaxDecompressedBytes := 0;
     opt_MaxRedirects := 0; opt_Policy := None |}.

(** The redirect to a name that resolves to the local host is refused. *)
Lemma fetch_connects_to_public_addresses_witness :
  (Fetch rebinding_web DefaultPolicy direct_options []).1 =
    Err (domain_error (NewSecurityError "ssrf_blocked")) ∧
  ∃ evs, (Fetch rebinding_web DefaultPolicy direct_options []).2 = evs ∧ connections evs = 1 ∧
    ∀ h, Connected h ∈ evs → ∃ ip port, hop_Dial h = DialIP ip port ∧ public_address ip.
Proof.
  split; [vm_compute; reflexivity|]. eexists. split; [reflexivity|]. split; [vm_compute; reflexivity|].
  intros h Hh. destruct (fetch_connects_to_public_addresses rebinding_web DefaultPolicy direct_options []
    eq_refl) as (evs & Ht & _ & Hall). rewrite Ht in Hh. specialize (Hall h Hh).
  assert (hop_Proxy h = None ∧ exempted DefaultPolicy (hop_URL h) = false) as [Hp Hx].
  { rewrite <- Ht in Hh. vm_compute in Hh. apply list_elem_of_In in Hh.
    destruct Hh as [Hh|[Hh|[Hh|Hh]]]; try discriminate Hh; [|destruct Hh].
    injection Hh as <-. split; vm_compute; reflexivity. }
  rewrite Hp in Hall. destruct Hall as (_ & ip & port & Hd & Hok). exists ip, port.
  split; [exact Hd|]. destruct Hok as [Hok|Hok]; [|exact Hok].
  change (effective_policy DefaultPolicy direct_options) with DefaultPolicy in Hok.
  rewrite Hx in Hok. discriminate Hok.
Defined.

(** ** What the code does not guarantee *)

Definition proxied_options : Options :=
  {| opt_URL := "http://hop.example"; opt_UserAgent := "";
     opt_FetchProxyURL := "http://relay.example:8080";
     opt_Timeout := 0; opt_MaxResponseBytes := 0; opt_MaxDecompressedBytes := 0;
     opt_MaxRedirects := 0; opt_Policy := None |}.

(** The host of the subscription stays public, the proxy moves. *)
Definition moving_proxy_web : Internet.
Proof.
  refine {| lookup_names := λ t host,
              Some (if String.eqb host "relay.example" && negb (length t =? 0)
                    then [loopback_ip] else [public_ip]);
            answer := λ t h, Ok (reply 200 "" "payload") |}.
  intros t host ips [= <-]. destruct (_ && _); apply sample_ips_valid.
Defined.

(** A proxy that is not configured as trusted is resolved and checked, but dialled by
    name: the connection resolves the name again, and reaches the local host. *)
Theorem proxy_name_resolved_again :
  ∃ before h, (Fetch moving_proxy_web DefaultPolicy proxied_options []).2 = before ++ [Connected h] ∧
    hop_Dial h = DialName "relay.example" "8080" ∧
    lookup_names moving_proxy_web before "relay.example" = Some [loopback_ip] ∧
    ValidateIP DefaultPolicy loopback_ip = Err (NewSecurityError "ssrf_blocked") ∧
    is_ok (Fetch moving_proxy_web DefaultPolicy proxied_options []).1 = true.
Proof.
  eexists [Looked "relay.example"; Looked "hop.example"], _. split; [vm_compute; reflexivity|].
  split; [reflexivity|]. split; [reflexivity|]. split; vm_compute; reflexivity.
Qed.

(** The largest limit is none at all: one more than it overflows, nothing is read,
    and an empty body is a success. *)
Theorem largest_limit_reads_nothing opts r :
  opt_MaxResponseBytes opts = int64_max → (200 ≤ resp_Status r < 300)%Z →
  (resp_ContentLength r ≤ int64_max)%Z → resp_ContentEncoding r = "" →
  ∃ resp, read_response opts r = Ok resp ∧ rsp_Body resp = "".
Proof.
  intros Hm Hs Hc He. unfold read_response. rewrite Hm, He.
  change (or_default int64_max DefaultMaxResponseBytes) with int64_max.
  replace ((resp_Status r <? 200) || (300 <=? resp_Status r))%Z with false by lia. simpl reject_if.
  replace (int64_max <? resp_ContentLength r)%Z with false by lia.
  eexists. split; [reflexivity|]. reflexivity.
Qed.
