(* ===== verification/Auth.v ===== *)
(** * The admin token, the auth switches and the sessions

    [internal/transport/http/token.go] and [session.go], over the settings row of
    [internal/repository/sqlite/settings.go], as [cmd/csp/main.go] wires them: the
    holder has a settings repository and a session store.  The holder's mutex makes
    each of its methods one step; what a method computes before it takes the mutex
    (the bcrypt hash) does not touch the state.

    bcrypt enters as the class [Bcrypt].  A verifier is whatever text is stored. *)

From S2P Require Import Prelude.
From S2P Require Import GoStrings.
From S2P Require Import Domain.
From S2P Require Import Lifecycle.
From S2P Require Import Services.

(** [golang.org/x/crypto/bcrypt]: the hash of a password under a random salt, [None] on
    error, and the comparison. *)
Class Bcrypt := {
  bcrypt_Generate : string → string → Z → option string;
  bcrypt_Compare : string → string → bool;
  bcrypt_complete : ∀ salt pw cost h, bcrypt_Generate salt pw cost = Some h → bcrypt_Compare h pw = true;
  bcrypt_trimmed : ∀ salt pw cost h, bcrypt_Generate salt pw cost = Some h → TrimSpace h = h ∧ h ≠ ""
}.

Definition DefaultHashCost : Z := 10.

(** ** State *)

Record SessionInfo : Type := { se_SessionID : string; se_Subject : string; se_CSRFToken : string }.

(** The auth columns of the settings row; a missing row reads as the defaults. *)
Record AuthRow : Type := { row_Token : string; row_Admin : bool; row_Export : bool }.

Record AuthState : Type := {
  au_verifier : string;
  au_admin : bool;
  au_export : bool;
  au_sessions : gmap string (SessionInfo * time);
  au_row : AuthRow
}.

Definition with_sessions (m : gmap string (SessionInfo * time)) (s : AuthState) : AuthState :=
  {| au_verifier := au_verifier s; au_admin := au_admin s; au_export := au_export s;
     au_sessions := m; au_row := au_row s |}.

(** What a request takes from outside: besides [Env], the salt of bcrypt, the life time
    of sessions, and the random bytes of a session and of its CSRF token. *)
Record AuthEnv : Type := {
  ae_env : Env;
  ae_salt : string;
  ae_cost : Z;
  ae_ttl : Z;
  ae_session : option (list Z);
  ae_csrf : option (list Z)
}.

Definition SecurityModeOpen := "open".
Definition SecurityModeProtected := "protected".

(** ** Verifiers *)

Section Tokens.
Context `{Sha256} `{Bcrypt}.

Fixpoint raw_bytes (l : list Z) : string :=
  match l with [] => "" | b :: l => String (Ascii.ascii_of_N (Z.to_N b)) (raw_bytes l) end.

Definition digest_of (token : string) : string := raw_bytes (sha256_Sum256 token).

Definition HashTokenWithCost (salt token : string) (cost : Z) : option string :=
  bcrypt_Generate salt (digest_of token) (if (cost <=? 0)%Z then DefaultHashCost else cost).

Definition VerifyToken (verifier candidate : string) : bool :=
  if String.eqb verifier "" || String.eqb candidate "" then false
  else if bcrypt_Compare verifier (digest_of candidate) then true
  else (String.length candidate <=? 72) && bcrypt_Compare verifier candidate.

Definition isBcryptHash (s : string) : bool :=
  (HasPrefix s "$2a$" || HasPrefix s "$2b$" || HasPrefix s "$2y$") && (String.length s =? 60).

(** ** The holder *)

Record TokenHolderConfig : Type := {
  thc_InitialToken : string;
  thc_InitialVerifier : string;
  thc_HashCost : Z;
  thc_AdminAuthEnabled : option bool;
  thc_ExportAuthEnabled : option bool
}.

(** The holder over a settings row, with no sessions yet. *)
Definition NewDynamicTokenHolder (salt : string) (cfg : TokenHolderConfig) (row : AuthRow)
    : AuthState :=
  let cost := if (thc_HashCost cfg <=? 0)%Z then DefaultHashCost else thc_HashCost cfg in
  let verifier := TrimSpace (thc_InitialVerifier cfg) in
  let token := TrimSpace (thc_InitialToken cfg) in
  {| au_verifier :=
       if negb (String.eqb verifier "") then verifier
       else if String.eqb token "" then ""
       else if isBcryptHash token then token
       else match HashTokenWithCost salt token cost with Some h => h | None => "" end;
     au_admin := match thc_AdminAuthEnabled cfg with Some b => b | None => true end;
     au_export := match thc_ExportAuthEnabled cfg with Some b => b | None => true end;
     au_sessions := ∅; au_row := row |}.

Definition AdminMode (s : AuthState) : string :=
  if negb (au_admin s) || String.eqb (au_verifier s) "" then SecurityModeOpen
  else SecurityModeProtected.
Definition IsExportAuthRequired (s : AuthState) : bool := au_export s.
Definition ExportMode (s : AuthState) : string :=
  if IsExportAuthRequired s then SecurityModeProtected else SecurityModeOpen.
Definition CurrentVerifier (s : AuthState) : string := au_verifier s.

Definition Verify (s : AuthState) (candidate : string) : bool :=
  let trimmed := TrimSpace candidate in
  if String.eqb (au_verifier s) "" || String.eqb trimmed "" then false
  else VerifyToken (au_verifier s) trimmed.

Definition VerifyExportToken (s : AuthState) (candidate pubTokenHash : string) : bool :=
  if negb (au_export s) then true
  else if String.eqb candidate "" then false
  else if (String.length pubTokenHash =? 64) &&
          String.eqb (hex_bytes (sha256_Sum256 candidate)) pubTokenHash then true
  else negb (String.eqb (au_verifier s) "") && VerifyToken (au_verifier s) candidate.

Definition SetVerifier (verifier : string) (s : AuthState) : AuthState :=
  {| au_verifier := TrimSpace verifier; au_admin := au_admin s; au_export := au_export s;
     au_sessions := au_sessions s; au_row := au_row s |}.
Definition SetAuthSwitches (admin export : bool) (s : AuthState) : AuthState :=
  {| au_verifier := au_verifier s; au_admin := admin; au_export := export;
     au_sessions := au_sessions s; au_row := au_row s |}.

(** The verifier of a new token; the empty token clears it. *)
Definition new_verifier (env : AuthEnv) (token : string) : result error string :=
  let trimmed := TrimSpace token in
  if String.eqb trimmed "" then Ok ""
  else match HashTokenWithCost (ae_salt env) trimmed (ae_cost env) with
       | Some h => Ok h
       | None => Err (driver_error "failed to hash admin token")
       end.

(** [settingsRepo.UpdateAdminToken] and [UpdateAuthSettings] *)
Definition settings_UpdateAdminToken (verifier : string) (row : AuthRow) : AuthRow :=
  {| row_Token := verifier; row_Admin := row_Admin row; row_Export := row_Export row |}.
Definition settings_UpdateAuthSettings (admin export : bool) (verifier : option string)
    (row : AuthRow) : AuthRow :=
  {| row_Token := match verifier with Some v => v | None => row_Token row end;
     row_Admin := admin; row_Export := export |}.

(** Persist, then publish, then end all sessions: one critical section. *)
Definition UpdateToken (env : AuthEnv) (token : string) : M AuthState unit := λ s,
  match new_verifier env token with
  | Err e => (Err e, s)
  | Ok v =>
      statement (ae_env env) "settings.UpdateAdminToken" (λ s,
        Ok (tt, {| au_verifier := v; au_admin := au_admin s; au_export := au_export s;
                   au_sessions := ∅; au_row := settings_UpdateAdminToken v (au_row s) |})) s
  end.

Definition UpdateAuthSettings (env : AuthEnv) (admin export : bool) (token : option string)
    : M AuthState unit := λ s,
  match (match token with
         | None => Ok None
         | Some t => match new_verifier env t with Ok v => Ok (Some v) | Err e => Err e end
         end) with
  | Err e => (Err e, s)
  | Ok v =>
      statement (ae_env env) "settings.UpdateAuthSettings" (λ s,
        Ok (tt, {| au_verifier := match v with Some v => v | None => au_verifier s end;
                   au_admin := admin; au_export := export;
                   au_sessions := match v with Some _ => ∅ | None => au_sessions s end;
                   au_row := settings_UpdateAuthSettings admin export v (au_row s) |})) s
  end.

(** ** Sessions *)

Definition sessions_Create (env : AuthEnv) (subject : string) : M AuthState SessionInfo := λ s,
  match ae_session env, ae_csrf env with
  | Some id, Some csrf =>
      let info := {| se_SessionID := hex_bytes id; se_Subject := subject;
                     se_CSRFToken := hex_bytes csrf |} in
      (Ok info,
       with_sessions (<[hex_bytes id := (info, env_now (ae_env env) + ae_ttl env)%Z]> (au_sessions s)) s)
  | _, _ => (Err (driver_error "failed to generate session"), s)
  end.

Definition sessions_Revoke (id : string) (s : AuthState) : AuthState :=
  with_sessions (delete id (au_sessions s)) s.
Definition sessions_RevokeAll (s : AuthState) : AuthState := with_sessions ∅ s.

(** An expired session is removed. *)
Definition sessions_Get (env : AuthEnv) (id : string) : M AuthState (option SessionInfo) := λ s,
  if String.eqb id "" then (Ok None, s)
  else match au_sessions s !! id with
       | None => (Ok None, s)
       | Some (info, expires) =>
           if (expires <? env_now (ae_env env))%Z then (Ok None, sessions_Revoke id s)
           else (Ok (Some info), s)
       end.

(** ** Memory and database agree *)

(** What the holder has in memory is what a restart would load, and every session is
    stored under its own identifier. *)
Record auth_inv (s : AuthState) : Prop := {
  inv_verifier : au_verifier s = row_Token (au_row s);
  inv_admin : au_admin s = row_Admin (au_row s);
  inv_export : au_export s = row_Export (au_row s);
  inv_trimmed : TrimSpace (au_verifier s) = au_verifier s;
  inv_sessions : map_Forall (λ id it, se_SessionID it.1 = id) (au_sessions s)
}.

(** The state after a restart: [cmd/csp/main.go] reads the row and builds the holder; no
    bootstrap token is given. *)
Definition restarted (s : AuthState) : AuthState :=
  NewDynamicTokenHolder ""
    {| thc_InitialToken := ""; thc_InitialVerifier := row_Token (au_row s);
       thc_HashCost := DefaultHashCost; thc_AdminAuthEnabled := Some (row_Admin (au_row s));
       thc_ExportAuthEnabled := Some (row_Export (au_row s)) |} (au_row s).

Lemma new_verifier_trimmed env token v : new_verifier env token = Ok v → TrimSpace v = v.
Proof.
  unfold new_verifier, HashTokenWithCost. destruct (String.eqb _ _); [by intros [= <-]|].
  destruct (bcrypt_Generate _ _ _) as [h|] eqn:Hg; [|done]. intros [= <-].
  by apply (bcrypt_trimmed _ _ _ _ Hg).
Qed.

Lemma update_token_inv env token s : auth_inv s → auth_inv (UpdateToken env token s).2.
Proof.
  intros Hi. unfold UpdateToken. destruct (new_verifier env token) as [v|] eqn:Hv; [|done].
  unfold statement. destruct (env_io _ _); simpl; [done|]. destruct Hi.
  split; simpl; try done. by eapply new_verifier_trimmed.
Qed.

Lemma update_settings_inv env admin export token s :
  auth_inv s → auth_inv (UpdateAuthSettings env admin export token s).2.
Proof.
  intros Hi. unfold UpdateAuthSettings. destruct token as [t|].
  - destruct (new_verifier env t) as [v|] eqn:Hv; [|done].
    unfold statement. destruct (env_io _ _); simpl; [done|]. destruct Hi.
    split; simpl; try done. by eapply new_verifier_trimmed.
  - unfold statement. destruct (env_io _ _); simpl; [done|]. by destruct Hi.
Qed.

Lemma sessions_inv m s :
  map_Forall (λ id (it : SessionInfo * time), se_SessionID it.1 = id) m → auth_inv s →
  auth_inv (with_sessions m s).
Proof. by intros Hm []. Qed.

Lemma session_create_inv env subject s : auth_inv s → auth_inv (sessions_Create env subject s).2.
Proof.
  intros Hi. unfold sessions_Create. destruct (ae_session env), (ae_csrf env); try done.
  apply sessions_inv; [|done]. apply map_Forall_insert_2; [done|]. apply Hi.
Qed.

Lemma session_revoke_inv id s : auth_inv s → auth_inv (sessions_Revoke id s).
Proof. intros Hi. apply sessions_inv; [|done]. apply map_Forall_delete, Hi. Qed.

Lemma session_get_inv env id s : auth_inv s → auth_inv (sessions_Get env id s).2.
Proof.
  intros Hi. unfold sessions_Get. destruct (String.eqb id ""); [done|].
  destruct (au_sessions s !! id) as [[info expires]|]; [|done].
  destruct (_ <? _)%Z; [by apply session_revoke_inv|done].
Qed.

Lemma restarted_same s :
  auth_inv s → au_verifier (restarted s) = au_verifier s ∧ au_admin (restarted s) = au_admin s ∧
    au_export (restarted s) = au_export s ∧ auth_inv (restarted s).
Proof.
  intros [Hv Ha He Ht Hs].
  assert (au_verifier (restarted s) = au_verifier s) as Hver.
  { unfold restarted, NewDynamicTokenHolder. simpl. rewrite <- Hv, Ht.
    by destruct (String.eqb_spec (au_verifier s) ""). }
  split; [done|]. split; [done|]. split; [done|].
  split; [by rewrite Hver|done|done|by rewrite Hver|apply map_Forall_empty].
Qed.
End Tokens.

(** A stand-in for bcrypt with its laws: the hexadecimal of the password. *)
Definition byte_values (s : string) : list Z :=
  map (λ c, Z.of_N (Ascii.N_of_ascii c)) (String.list_ascii_of_string s).

Lemma byte_values_bytes s : Forall is_byte (byte_values s).
Proof.
  unfold byte_values. apply Forall_map, Forall_true. intros c. unfold is_byte. simpl.
  pose proof (Ascii.N_ascii_bounded c). lia.
Qed.

Definition sample_bcrypt : Bcrypt.
Proof.
  refine {| bcrypt_Generate := λ _ pw _, Some ("$" +:+ hex_bytes (byte_values pw));
            bcrypt_Compare := λ h pw, String.eqb h ("$" +:+ hex_bytes (byte_values pw)) |}.
  - intros salt pw cost h [= <-]. apply String.eqb_refl.
  - intros salt pw cost h [= <-]. split; [|done]. apply TrimSpace_graphic. simpl.
    eapply all_bytes_mono; [apply is_hex_graphic|]. apply hex_bytes_hex, byte_values_bytes.
Defined.
