(* ===== verification/Connections.v ===== *)
(** * Connection parameters and their identity

    [internal/application/inventory/reconcile_helper.go], the logical IDs of
    [internal/domain/id.go], and the classification and the fingerprint of
    [internal/domain/dataflow.go]: when two connections are the same, and how an entry
    of a subscription is named.

    The JSON text under a digest is an operation of the class [ConnectionJSON]. *)

From S2P Require Import Prelude.
From S2P Require Import GoStrings.
From S2P Require Import Domain.
From S2P Require Import Lifecycle.
From S2P Require Import NodeFilter.

(** ** Equality of connections *)

(** Go compares a nil map and an empty one as equal: both have no entries. *)
Definition entries (m : option (gmap string string)) : gmap string string := default ∅ m.

(** [len(a) == len(b)], and every key of [a] has the same value in [b]. *)
Definition same_transport (a b : option (gmap string string)) : bool :=
  (size (entries a) =? size (entries b)) &&
  forallb (λ kv, bool_decide (entries b !! kv.1 = Some kv.2)) (map_to_list (entries a)).

Definition areInboundCredentialsEqual (a b : InboundProtocolCredential) : bool :=
  String.eqb (cred_Password a) (cred_Password b) &&
  String.eqb (cred_UUID a) (cred_UUID b) &&
  String.eqb (cred_Method a) (cred_Method b) &&
  (cred_AlterID a =? cred_AlterID b)%Z &&
  String.eqb (cred_PrivateKey a) (cred_PrivateKey b) &&
  String.eqb (cred_PublicKey a) (cred_PublicKey b) &&
  String.eqb (EffectivePreSharedKey a) (EffectivePreSharedKey b) &&
  (cred_MTU a =? cred_MTU b)%Z &&
  String.eqb (cred_CongestionControl a) (cred_CongestionControl b) &&
  String.eqb (cred_UDPRelayMode a) (cred_UDPRelayMode b) &&
  String.eqb (cred_SNI a) (cred_SNI b) &&
  eqb (cred_DisableSNI a) (cred_DisableSNI b) &&
  String.eqb (cred_Username a) (cred_Username b) &&
  bool_decide (cred_LocalAddress a = cred_LocalAddress b) &&
  bool_decide (cred_Reserved a = cred_Reserved b) &&
  bool_decide (cred_DNS a = cred_DNS b) &&
  bool_decide (cred_ALPN a = cred_ALPN b) &&
  same_transport (cred_Transport a) (cred_Transport b).

(** The connection of a node: what [areConnectionParametersEqual] compares. *)
Record Connection : Type := {
  cn_Protocol : string;
  cn_Server : string;
  cn_Port : Z;
  cn_Credentials : InboundProtocolCredential
}.

Definition connection_of (n : Node) : Connection :=
  {| cn_Protocol := node_Protocol n; cn_Server := node_Server n; cn_Port := node_Port n;
     cn_Credentials := node_Credentials n |}.

Definition areConnectionParametersEqual `{GoText} (a b : Connection) : bool :=
  String.eqb (cn_Protocol a) (cn_Protocol b) &&
  EqualFold (TrimSpace (cn_Server a)) (TrimSpace (cn_Server b)) &&
  (cn_Port a =? cn_Port b)%Z &&
  areInboundCredentialsEqual (cn_Credentials a) (cn_Credentials b).

(** ** Identity *)

(** The record under the digest of [ComputeConnectionLogicalID]; [ci_Auth] is its
    [canonicalAuth]. *)
Record canonicalAuth : Type := {
  ca_Username : string;
  ca_Password : string;
  ca_UUID : string;
  ca_Method : string;
  ca_AlterID : Z;
  ca_PrivateKey : string;
  ca_PublicKey : string;
  ca_PreSharedKey : string;
  ca_LocalAddress : list string;
  ca_Reserved : list Z;
  ca_MTU : Z;
  ca_DNS : list string;
  ca_CongestionControl : string;
  ca_UDPRelayMode : string;
  ca_ALPN : list string;
  ca_SNI : string;
  ca_DisableSNI : bool;
  ca_ObfsPassword : string
}.

Record canonicalConnectionIdentity : Type := {
  ci_Protocol : string;
  ci_Server : string;
  ci_Port : Z;
  ci_Transport : gmap string string;
  ci_Auth : canonicalAuth
}.

(** [encoding/json] on the two records that are digested. *)
Class ConnectionJSON := {
  identity_json : canonicalConnectionIdentity → string;
  parameters_json : string → Z → InboundProtocolCredential → string
}.

Section Identity.
Context `{GoText} `{Sha256} `{MapOrder}.

Definition node_id (canonical : string) : string :=
  "node_" +:+ hex_bytes (take 16 (sha256_Sum256 canonical)).

Definition sensitiveKeys : list string :=
  ["password"; "secret"; "token"; "key"; "private_key"; "private-key"; "public_key"; "public-key";
   "preshared_key"; "pre_shared_key"; "pre-shared-key"; "psk"; "obfs-password"; "obfs_password";
   "uuid"; "auth"; "username"; "user"].

(** The keys in lower case; the value is looked up under the lower-case key. *)
Definition public_keys (params : gmap string string) : list string :=
  sort_stable str_less
    (List.filter (λ k, negb (mem_str k sensitiveKeys))
       (map (λ kv, ToLower (TrimSpace kv.1)) (range params))).

Definition ComputeNodeLogicalID (protocol server : string) (port : Z)
    (transportParams : option (gmap string string)) : string :=
  let params := entries transportParams in
  let parts := map (λ k, k +:+ "=" +:+ TrimSpace (default "" (params !! k))) (public_keys params) in
  node_id (ToLower (TrimSpace protocol) +:+ "|" +:+ ToLower (TrimSpace server) +:+ "|" +:+
           itoa port +:+ "|" +:+ Join "&" parts).

Definition computeScopedLogicalID (subscriptionID baseLogicalID : string) : string :=
  node_id (subscriptionID +:+ "|" +:+ baseLogicalID).

(** Lower-case keys and trimmed values, without the obfuscation password; of two keys
    that become equal the one that the loop meets last wins. *)
Definition normalize_transport (m : gmap string string) : gmap string string :=
  fold_left (λ acc kv,
    let k := ToLower (TrimSpace kv.1) in
    let v := TrimSpace kv.2 in
    if String.eqb k "" || String.eqb v "" || String.eqb k "obfs-password" ||
       String.eqb k "obfs_password" then acc
    else <[k := v]> acc) (range m) ∅.

Definition obfs_password (m : option (gmap string string)) : string :=
  match entries m !! "obfs-password" with
  | Some p => p
  | None => default "" (entries m !! "obfs_password")
  end.

Definition canonical_auth (c : InboundProtocolCredential) : canonicalAuth :=
  let fold s := ToLower (TrimSpace s) in
  {| ca_Username := TrimSpace (cred_Username c); ca_Password := cred_Password c;
     ca_UUID := fold (cred_UUID c); ca_Method := fold (cred_Method c);
     ca_AlterID := cred_AlterID c; ca_PrivateKey := TrimSpace (cred_PrivateKey c);
     ca_PublicKey := TrimSpace (cred_PublicKey c);
     ca_PreSharedKey := TrimSpace (EffectivePreSharedKey c);
     ca_LocalAddress := sort_stable str_less (cred_LocalAddress c);
     ca_Reserved := cred_Reserved c; ca_MTU := cred_MTU c;
     ca_DNS := sort_stable str_less (cred_DNS c);
     ca_CongestionControl := fold (cred_CongestionControl c);
     ca_UDPRelayMode := fold (cred_UDPRelayMode c); ca_ALPN := cred_ALPN c;
     ca_SNI := fold (cred_SNI c); ca_DisableSNI := cred_DisableSNI c;
     ca_ObfsPassword := obfs_password (cred_Transport c) |}.

Definition connection_identity (c : Connection) (transportParams : option (gmap string string))
    : canonicalConnectionIdentity :=
  let params := if decide (entries transportParams = ∅) then cred_Transport (cn_Credentials c)
                else transportParams in
  {| ci_Protocol := ToLower (TrimSpace (cn_Protocol c));
     ci_Server := ToLower (TrimSpace (cn_Server c)); ci_Port := cn_Port c;
     ci_Transport := normalize_transport (entries params);
     ci_Auth := canonical_auth (cn_Credentials c) |}.

Context `{ConnectionJSON}.

Definition ComputeConnectionLogicalID (c : Connection) (transportParams : option (gmap string string))
    : string := node_id (identity_json (connection_identity c transportParams)).

Definition ComputeConnectionFingerprint (server : string) (port : Z) (c : InboundProtocolCredential)
    : string :=
  "sha256:" +:+ hex_bytes (sha256_Sum256 (parameters_json (ToLower (TrimSpace server)) port c)).
End Identity.

(** ** Notices *)

Definition EntryKindProxy := "proxy".
Definition EntryKindNotice := "notice".
Definition EntryKindUnknown := "unknown".

Definition EntryKind_IsValid (k : string) : bool :=
  String.eqb k EntryKindProxy || String.eqb k EntryKindNotice || String.eqb k EntryKindUnknown.

Definition zero_uuid : string := "00000000-0000-4000-8000-000000000000".

Definition notice_keywords : list string := ["剩余流量"; "套餐到期"; "新域名"; "公告"; "通知"].

Definition exactComboMatch `{GoText} (server : string) (port : Z) (c : InboundProtocolCredential)
    (rawName : string) : bool :=
  mem_str (ToLower (TrimSpace server)) ["127.0.0.1"; "localhost"; "0.0.0.0"] &&
  (port =? 1)%Z &&
  (String.eqb (TrimSpace (cred_UUID c)) zero_uuid || String.eqb (TrimSpace (cred_Password c)) zero_uuid) &&
  existsb (Contains rawName) notice_keywords.

(** The kind of an entry and the reason. *)
Definition ClassifySubscriptionEntry `{GoText} (isVerifiedSource : bool) (server : string) (port : Z)
    (c : InboundProtocolCredential) (rawName : string) : string * string :=
  if exactComboMatch server port c rawName then
    if isVerifiedSource then (EntryKindNotice, "Verified source notice combo rule match")
    else (EntryKindUnknown, "Matches notice pattern but source lacks verified rule gate")
  else (EntryKindProxy, "Normal proxy").

(** ** The comparison is an equivalence *)

(** What the comparison of credentials looks at. *)
Definition compared (c : InboundProtocolCredential) :=
  ((cred_Password c, cred_UUID c, cred_Method c, cred_AlterID c, cred_PrivateKey c, cred_PublicKey c,
    EffectivePreSharedKey c, cred_MTU c, cred_CongestionControl c),
   (cred_UDPRelayMode c, cred_SNI c, cred_DisableSNI c, cred_Username c, cred_LocalAddress c,
    cred_Reserved c, cred_DNS c, cred_ALPN c, entries (cred_Transport c))).

Lemma same_transport_spec a b : same_transport a b = true ↔ entries a = entries b.
Proof.
  unfold same_transport. rewrite andb_true_iff, Nat.eqb_eq, forallb_forall. split.
  - intros [Hsize Hsub]. apply map_subseteq_size_eq; [|lia]. apply map_subseteq_spec.
    intros k v Hk. specialize (Hsub (k, v)). simpl in Hsub. eapply bool_decide_eq_true, Hsub.
    by apply list_elem_of_In, elem_of_map_to_list.
  - intros ->. split; [done|]. intros [k v] Hk. apply bool_decide_eq_true.
    by apply list_elem_of_In, elem_of_map_to_list in Hk.
Qed.

Lemma areInboundCredentialsEqual_spec a b :
  areInboundCredentialsEqual a b = true ↔ compared a = compared b.
Proof.
  unfold areInboundCredentialsEqual, compared.
  rewrite !andb_true_iff, !bool_decide_eq_true, !String.eqb_eq, !Z.eqb_eq, eqb_true_iff,
    same_transport_spec. split; [intuition congruence|]. intros [=]. tauto.
Qed.

Section Equivalence.
Context `{GoText}.

Definition same_connection (a b : Connection) : Prop := areConnectionParametersEqual a b = true.

Lemma same_connection_spec a b :
  same_connection a b ↔
  cn_Protocol a = cn_Protocol b ∧
  EqualFold (TrimSpace (cn_Server a)) (TrimSpace (cn_Server b)) = true ∧
  cn_Port a = cn_Port b ∧ compared (cn_Credentials a) = compared (cn_Credentials b).
Proof.
  unfold same_connection, areConnectionParametersEqual.
  rewrite !andb_true_iff, String.eqb_eq, Z.eqb_eq, areInboundCredentialsEqual_spec. tauto.
Qed.

#[export] Instance same_connection_equiv : Equivalence same_connection.
Proof.
  split.
  - intros a. apply same_connection_spec. eauto using EqualFold_refl.
  - intros a b. rewrite !same_connection_spec. intros (? & ? & ? & ?). eauto using EqualFold_sym.
  - intros a b c. rewrite !same_connection_spec. intros (? & ? & ? & ?) (? & ? & ? & ?).
    repeat split; [congruence|by eapply EqualFold_trans|congruence|congruence].
Qed.

#[export] Instance same_connection_dec a b : Decision (same_connection a b).
Proof. unfold same_connection. apply _. Defined.
End Equivalence.
