(* ===== verification/InventoryStore.v ===== *)
(** * The tables of the inventory

    Nodes, the subscriptions they come from, the payloads and entries of each refresh,
    and the versions of a node's connection: the part of [internal/repository/sqlite]
    ([nodes.go], [node_names.go], [subscriptions.go], [dataflow.go]) that writes them, over the
    schema of [migrations].  Primary keys, foreign keys (which the connection string
    turns on, and which are checked at the end of each statement) and checks are tested
    as the database tests them.

    The JSON of credentials is text, encoded and decoded by the class [CredentialsJSON].
    The effective configuration of a version is the object all its writers build: server,
    port and the text of the credentials.  Of the times of rows, only those that a query
    reads are kept; entries are in the order of their row numbers. *)

From S2P Require Import Prelude.
From S2P Require Import GoStrings.
From S2P Require Import Domain.
From S2P Require Import Lifecycle.
From S2P Require Import NodeFilter.
From S2P Require Import Services.
From S2P Require Import Fetch.
From S2P Require Import Connections.

(** ** Rows *)

Record RenameRule : Type := { rr_Pattern : string; rr_Replace : string }.
Record FilterRule : Type := { fr_Type : string; fr_Pattern : string }.

Record SubscriptionConfig : Type := {
  sc_CronSchedule : string;
  sc_AutoTest : bool;
  sc_RenameRules : list RenameRule;
  sc_FilterRules : list FilterRule;
  sc_TargetGroups : list string
}.

Record Subscription : Type := {
  sub_ID : string;
  sub_Name : string;
  sub_SourceURLSecretRef : string;
  sub_Enabled : bool;
  sub_Prefix : string;
  sub_RefreshPolicy : RefreshPolicy;
  sub_Config : SubscriptionConfig;
  sub_Revision : string;
  sub_CreatedAt : time;
  sub_UpdatedAt : time
}.

Definition FetchOutcomeSuccess := "success".
Definition FetchOutcomePartial := "partial".
Definition FetchOutcomeFailed := "failed".

Record SubscriptionFetch : Type := {
  sf_SubscriptionID : string;
  sf_StartedAt : time;
  sf_FinishedAt : option time;
  sf_Outcome : string;
  sf_ContentDigest : string;
  sf_NodesParsed : Z;
  sf_NodesValid : Z
}.

Record SubscriptionPayload : Type := {
  py_SubscriptionID : string;
  py_FetchID : string;
  py_ContentDigest : string;
  py_Body : string;
  py_HTTPStatus : Z
}.

(** [en_Conflict] is the warning of the entry, or empty. *)
Record SubscriptionEntry : Type := {
  en_ID : string;
  en_PayloadID : string;
  en_SubscriptionID : string;
  en_Ordinal : Z;
  en_SourceKey : string;
  en_RawName : string;
  en_Protocol : string;
  en_Server : string;
  en_Port : Z;
  en_EntryKind : string;
  en_ClassificationReason : string;
  en_UserKindOverride : option string;
  en_OverrideAnchor : string;
  en_OverrideReason : string;
  en_OverrideAt : option time;
  en_ActorRef : string;
  en_Conflict : string;
  en_NodeLogicalID : option string;
  en_CreatedAt : time
}.

Record NodeRow : Type := {
  nr_Protocol : string;
  nr_DisplayName : string;
  nr_Server : string;
  nr_Port : Z;
  nr_ConfigJSON : string;
  nr_Active : bool;
  nr_Revision : Z
}.

(** A row of [node_source_history], whose key is the node and the evidence. *)
Record HistoryRow : Type := {
  hr_SubscriptionID : option string;
  hr_SourceLabel : string;
  hr_Revision : Z;
  hr_RelationState : string;
  hr_Cause : string;
  hr_FirstObservedAt : option time;
  hr_LastObservedAt : time;
  hr_EvidenceKind : string
}.

Definition RelationStateVerified := "verified".
Definition CauseRefreshRemoved := "refresh_removed".
Definition CauseSubscriptionDeleted := "subscription_deleted".
Definition CauseManualConfirmed := "manual_confirmed".

Record EffectiveConfig : Type := { ec_Server : string; ec_Port : Z; ec_Credentials : string }.
Record VersionRow : Type := {
  vr_Config : EffectiveConfig;
  vr_Fingerprint : string;
  vr_SourceEntryID : option string
}.

(** A JSON scalar of [node_overrides]; [JOther] decodes neither as text nor as an integer. *)
Inductive json : Type :=
  | JString (s : string)
  | JNumber (z : Z)
  | JNull
  | JOther.

(** [json.Unmarshal] into a variable that holds [old]: null leaves it as it is. *)
Definition unmarshal_string (old : string) (v : json) : option string :=
  match v with JString s => Some s | JNull => Some old | _ => None end.
Definition unmarshal_int (old : Z) (v : json) : option Z :=
  match v with JNumber z => Some z | JNull => Some old | _ => None end.

(** [encoding/json] on credentials: the text, and what the struct holds after decoding a
    text, with whether decoding succeeded. *)
Class CredentialsJSON := {
  marshal_creds : InboundProtocolCredential → string;
  unmarshal_creds : string → InboundProtocolCredential * bool;
  marshal_nonempty : ∀ c, marshal_creds c ≠ ""
}.

(** ** State

    A source is a node, a subscription and the last fetch that had the node; the owners
    of a node are its sources by subscription.  [iv_pins] are the payloads that
    publications refer to. *)
Record Inventory : Type := {
  iv_subs : gmap string Subscription;
  iv_fetches : gmap string SubscriptionFetch;
  iv_payloads : gmap string SubscriptionPayload;
  iv_pins : gset string;
  iv_entries : list SubscriptionEntry;
  iv_nodes : gmap string NodeRow;
  iv_sources : gmap string (gmap string string);
  iv_history : gmap (string * string) HistoryRow;
  iv_versions : gmap (string * Z) VersionRow;
  iv_heads : gmap string Z;
  iv_overrides : gmap string (gmap string json);
  iv_trail : list AuditEvent
}.

Definition empty_inventory : Inventory :=
  {| iv_subs := ∅; iv_fetches := ∅; iv_payloads := ∅; iv_pins := ∅; iv_entries := []; iv_nodes := ∅;
     iv_sources := ∅; iv_history := ∅; iv_versions := ∅; iv_heads := ∅; iv_overrides := ∅;
     iv_trail := [] |}.

(** The node tables and the subscription tables of [s], updated. *)
Definition with_ledger nodes sources history versions heads (s : Inventory) : Inventory :=
  {| iv_subs := iv_subs s; iv_fetches := iv_fetches s; iv_payloads := iv_payloads s;
     iv_pins := iv_pins s; iv_entries := iv_entries s; iv_nodes := nodes; iv_sources := sources;
     iv_history := history; iv_versions := versions; iv_heads := heads;
     iv_overrides := iv_overrides s; iv_trail := iv_trail s |}.
Definition with_feed subs fetches payloads entries (s : Inventory) : Inventory :=
  {| iv_subs := subs; iv_fetches := fetches; iv_payloads := payloads; iv_pins := iv_pins s;
     iv_entries := entries; iv_nodes := iv_nodes s; iv_sources := iv_sources s;
     iv_history := iv_history s; iv_versions := iv_versions s; iv_heads := iv_heads s;
     iv_overrides := iv_overrides s; iv_trail := iv_trail s |}.
Definition with_nodes nodes s :=
  with_ledger nodes (iv_sources s) (iv_history s) (iv_versions s) (iv_heads s) s.
Definition with_sources sources s :=
  with_ledger (iv_nodes s) sources (iv_history s) (iv_versions s) (iv_heads s) s.
Definition with_history history s :=
  with_ledger (iv_nodes s) (iv_sources s) history (iv_versions s) (iv_heads s) s.
Definition with_versions versions heads s :=
  with_ledger (iv_nodes s) (iv_sources s) (iv_history s) versions heads s.
Definition with_fetches fetches s :=
  with_feed (iv_subs s) fetches (iv_payloads s) (iv_entries s) s.
Definition with_payloads payloads s :=
  with_feed (iv_subs s) (iv_fetches s) payloads (iv_entries s) s.
Definition with_entries entries s :=
  with_feed (iv_subs s) (iv_fetches s) (iv_payloads s) entries s.
Definition with_subs subs s :=
  with_feed subs (iv_fetches s) (iv_payloads s) (iv_entries s) s.
Definition with_overrides (o : gmap string (gmap string json)) (s : Inventory) : Inventory :=
  {| iv_subs := iv_subs s; iv_fetches := iv_fetches s; iv_payloads := iv_payloads s;
     iv_pins := iv_pins s; iv_entries := iv_entries s; iv_nodes := iv_nodes s;
     iv_sources := iv_sources s; iv_history := iv_history s; iv_versions := iv_versions s;
     iv_heads := iv_heads s; iv_overrides := o; iv_trail := iv_trail s |}.

#[export] Instance inventory_audited : Audited Inventory := {
  trail := iv_trail;
  with_trail t s :=
    {| iv_subs := iv_subs s; iv_fetches := iv_fetches s; iv_payloads := iv_payloads s;
       iv_pins := iv_pins s; iv_entries := iv_entries s; iv_nodes := iv_nodes s;
       iv_sources := iv_sources s; iv_history := iv_history s; iv_versions := iv_versions s;
       iv_heads := iv_heads s; iv_overrides := iv_overrides s; iv_trail := t |}
}.

(** What a request takes from outside: the error of a statement, by kind and index, the
    identifiers of [MustNewUUIDv7], by purpose and index, and the clock when the
    request starts, when the fetch ends and when it writes. *)
Record InvEnv : Type := {
  ie_io : string → nat → option string;
  ie_uuid : string → nat → string;
  ie_started : time;
  ie_finished : time;
  ie_now : time
}.

(** A statement, and one whose error the code ignores. *)
Definition exec (env : InvEnv) (label : string) (i : nat) (f : Inventory → result error Inventory)
    (s : Inventory) : result error Inventory :=
  match ie_io env label i with Some m => Err (driver_error m) | None => f s end.
Definition exec_ignored (env : InvEnv) (label : string) (i : nat)
    (f : Inventory → result error Inventory) (s : Inventory) : Inventory :=
  match exec env label i f s with Ok s' => s' | Err _ => s end.
(** A query whose error the code takes for an empty answer. *)
Definition answered (env : InvEnv) (label : string) (i : nat) : bool :=
  match ie_io env label i with Some _ => false | None => true end.

(** [WithTx]: the body, or nothing. *)
Definition transaction {A} (env : InvEnv) (label : string) (body : Inventory → result error (A * Inventory))
    : M Inventory A := λ s,
  match ie_io env label 0 with
  | Some m => (Err (driver_error m), s)
  | None => match body s with
            | Ok (a, s') => match ie_io env label 1 with
                            | Some m => (Err (driver_error m), s)
                            | None => (Ok a, s')
                            end
            | Err e => (Err e, s)
            end
  end.

(** ** Statements *)

Definition fk_failed : error := constraint_failed "FOREIGN KEY".
Definition stored {A} (m : gmap string A) (id : string) : bool := bool_decide (is_Some (m !! id)).

Definition insert_fetch (id : string) (f : SubscriptionFetch) (s : Inventory) : result error Inventory :=
  if stored (iv_fetches s) id then Err (constraint_failed "UNIQUE")
  else if negb (stored (iv_subs s) (sf_SubscriptionID f)) then Err fk_failed
  else Ok (with_fetches (<[id := f]> (iv_fetches s)) s).

Definition insert_payload (id : string) (p : SubscriptionPayload) (s : Inventory)
    : result error Inventory :=
  if stored (iv_payloads s) id then Err (constraint_failed "UNIQUE")
  else if negb (stored (iv_subs s) (py_SubscriptionID p) && stored (iv_fetches s) (py_FetchID p))
  then Err fk_failed
  else Ok (with_payloads (<[id := p]> (iv_payloads s)) s).

Definition upsert_node (id : string) (row : NodeRow) (s : Inventory) : result error Inventory :=
  if (nr_Revision row <=? 0)%Z then Err (constraint_failed "CHECK")
  else Ok (with_nodes (<[id := row]> (iv_nodes s)) s).

Definition owners (s : Inventory) (node : string) : gmap string string :=
  default ∅ (iv_sources s !! node).
(** The nodes of a subscription, with their last fetch. *)
Definition linked (s : Inventory) (sub : string) : gmap string string :=
  omap (λ m : gmap string string, m !! sub) (iv_sources s).

Definition upsert_source (node sub fetch : string) (s : Inventory) : result error Inventory :=
  if negb (stored (iv_nodes s) node && stored (iv_subs s) sub) then Err fk_failed
  else Ok (with_sources (<[node := <[sub := fetch]> (owners s node)]> (iv_sources s)) s).
Definition delete_source (node sub : string) (s : Inventory) : result error Inventory :=
  Ok (with_sources (<[node := delete sub (owners s node)]> (iv_sources s)) s).

Definition upsert_history (node key : string) (row : HistoryRow) (s : Inventory)
    : result error Inventory :=
  if negb (stored (iv_nodes s) node &&
           match hr_SubscriptionID row with Some sub => stored (iv_subs s) sub | None => true end)
  then Err fk_failed
  else Ok (with_history
    (<[(node, key) :=
       match iv_history s !! (node, key) with
       | Some old =>
           {| hr_SubscriptionID := hr_SubscriptionID old; hr_SourceLabel := hr_SourceLabel old;
              hr_Revision := hr_Revision old; hr_RelationState := hr_RelationState old;
              hr_Cause := hr_Cause old; hr_FirstObservedAt := hr_FirstObservedAt old;
              hr_LastObservedAt := hr_LastObservedAt row; hr_EvidenceKind := hr_EvidenceKind old |}
       | None => row
       end]> (iv_history s)) s).

Definition entry_ids (s : Inventory) : list string := map en_ID (iv_entries s).

(** The upsert of a version; [keep] is how an existing row's entry combines with the new
    one: the refresh sets it if it is NULL, an edit leaves it. *)
Definition upsert_version (keep : option string → option string → option string) (node : string)
    (rev : Z) (row : VersionRow) (s : Inventory) : result error Inventory :=
  let row :=
    match iv_versions s !! (node, rev) with
    | Some old => {| vr_Config := vr_Config row; vr_Fingerprint := vr_Fingerprint row;
                     vr_SourceEntryID := keep (vr_SourceEntryID old) (vr_SourceEntryID row) |}
    | None => row
    end in
  if negb (stored (iv_nodes s) node &&
           match vr_SourceEntryID row with Some e => mem_str e (entry_ids s) | None => true end)
  then Err fk_failed
  else Ok (with_versions (<[(node, rev) := row]> (iv_versions s)) (iv_heads s) s).
Definition coalesce (old new : option string) : option string :=
  match old with Some _ => old | None => new end.
Definition keep_old (old new : option string) : option string := old.

(** [INSERT OR IGNORE]: an existing row stays. *)
Definition insert_version (node : string) (rev : Z) (row : VersionRow) (s : Inventory)
    : result error Inventory :=
  match iv_versions s !! (node, rev) with
  | Some _ => Ok s
  | None => upsert_version keep_old node rev row s
  end.

Definition upsert_head (node : string) (rev : Z) (s : Inventory) : result error Inventory :=
  if negb (stored (iv_nodes s) node && bool_decide (is_Some (iv_versions s !! (node, rev))))
  then Err fk_failed
  else Ok (with_versions (iv_versions s) (<[node := rev]> (iv_heads s)) s).

Definition field_overrides (s : Inventory) (node : string) : gmap string json :=
  default ∅ (iv_overrides s !! node).
Definition upsert_override (node field : string) (v : json) (s : Inventory) : result error Inventory :=
  if negb (stored (iv_nodes s) node) then Err fk_failed
  else Ok (with_overrides (<[node := <[field := v]> (field_overrides s node)]> (iv_overrides s)) s).

Definition valid_entry_kind (e : SubscriptionEntry) : bool :=
  EntryKind_IsValid (en_EntryKind e) &&
  match en_UserKindOverride e with Some k => EntryKind_IsValid k | None => true end.

(** Entries of one payload and ordinal are one row, which keeps its ID, its time and its
    parser version. *)
Definition insert_entry (e : SubscriptionEntry) (s : Inventory) : result error Inventory :=
  let same o := String.eqb (en_PayloadID o) (en_PayloadID e) && (en_Ordinal o =? en_Ordinal e)%Z in
  if mem_str (en_ID e) (entry_ids s) then Err (constraint_failed "UNIQUE")
  else if negb (valid_entry_kind e) then Err (constraint_failed "CHECK")
  else if negb (stored (iv_payloads s) (en_PayloadID e) && stored (iv_subs s) (en_SubscriptionID e) &&
                match en_NodeLogicalID e with Some n => stored (iv_nodes s) n | None => true end)
  then Err fk_failed
  else if existsb same (iv_entries s) then
    Ok (with_entries (map (λ o, if same o then
      {| en_ID := en_ID o; en_PayloadID := en_PayloadID o; en_SubscriptionID := en_SubscriptionID o;
         en_Ordinal := en_Ordinal o; en_SourceKey := en_SourceKey e; en_RawName := en_RawName e;
         en_Protocol := en_Protocol e; en_Server := en_Server e; en_Port := en_Port e;
         en_EntryKind := en_EntryKind e; en_ClassificationReason := en_ClassificationReason e;
         en_UserKindOverride := en_UserKindOverride e; en_OverrideAnchor := en_OverrideAnchor e;
         en_OverrideReason := en_OverrideReason e; en_OverrideAt := en_OverrideAt e;
         en_ActorRef := en_ActorRef e; en_Conflict := en_Conflict e;
         en_NodeLogicalID := en_NodeLogicalID e; en_CreatedAt := en_CreatedAt o |}
      else o) (iv_entries s)) s)
  else Ok (with_entries (iv_entries s ++ [e]) s).

(** ** Display names *)

(** [ORDER BY created_at DESC, rowid DESC LIMIT 1] *)
Definition latest_entry (l : list SubscriptionEntry) : option SubscriptionEntry :=
  fold_left (λ best e,
    match best with
    | Some b => if (en_CreatedAt e <? en_CreatedAt b)%Z then best else Some e
    | None => Some e
    end) l None.
Definition latest_raw_name (s : Inventory) (sub node : string) : option string :=
  en_RawName <$> latest_entry (List.filter (λ e,
    String.eqb (en_SubscriptionID e) sub && bool_decide (en_NodeLogicalID e = Some node))
    (iv_entries s)).

Definition TrimPrefix (s p : string) : string := default s (strip_prefix p s).

(** The texts that are not empty, each where it first appears. *)
Definition distinct_labels (l : list string) : list string :=
  fold_left (λ acc p, if String.eqb p "" || mem_str p acc then acc else acc ++ [p]) l [].

(** The sources of a node with their subscriptions, in the order of the subscription. *)
Definition source_rows (s : Inventory) (node : string) : list (string * Subscription) :=
  omap (λ kf, pair kf.1 <$> iv_subs s !! kf.1)
    (sort_stable (less_str fst) (map_to_list (owners s node))).

(** The name that a node with sources gets. *)
Definition source_name (s : Inventory) (node current : string) (prior : gmap string string)
    (rows : list (string * Subscription)) : string :=
  let prefixes := distinct_labels (map (λ r, sub_Prefix r.2) rows) in
  let base := match rows with r :: _ => latest_raw_name s r.1 node | [] => None end in
  let '(name, strip) :=
    match base, rows with
    | Some raw, r :: _ =>
        if String.eqb raw "" then (current, None) else (raw, Some [sub_Prefix r.2])
    | _, _ => (current, None)
    end in
  let strip :=
    match strip with
    | Some l => l
    | None =>
        let previous := prior ∪ list_to_map (map (λ r, (r.1, sub_Prefix r.2)) rows) in
        distinct_labels (map snd (sort_stable (less_str fst) (map_to_list previous)))
    end in
  Join "" prefixes +:+
  fold_left (λ n p, if String.eqb p "" then n else TrimPrefix n p) strip name.

Definition set_display_name (name : string) (r : NodeRow) : NodeRow :=
  {| nr_Protocol := nr_Protocol r; nr_DisplayName := name; nr_Server := nr_Server r;
     nr_Port := nr_Port r; nr_ConfigJSON := nr_ConfigJSON r; nr_Active := nr_Active r;
     nr_Revision := nr_Revision r |}.

Definition no_rows : error := driver_error "sql: no rows in result set".

(** The name of one node; [None] if it stays. *)
Definition display_name (s : Inventory) (prior : gmap string string) (node : string)
    : result error (option string) :=
  match iv_nodes s !! node with
  | None => Err no_rows
  | Some row =>
      match field_overrides s node !! "display_name" with
      | Some v => match unmarshal_string (nr_DisplayName row) v with
                  | Some name => Ok (Some name)
                  | None => Err (driver_error "invalid display name override")
                  end
      | None =>
          match source_rows s node with
          | [] => Ok None
          | rows => Ok (Some (source_name s node (nr_DisplayName row) prior rows))
          end
      end
  end.

Definition recompute_name (prior : gmap string string) (s : Inventory) (node : string)
    : result error Inventory :=
  let? name := display_name s prior node in
  Ok (match name with
      | Some name => with_nodes (alter (set_display_name name) node (iv_nodes s)) s
      | None => s
      end).

(** [RecomputeNodeDisplayNames]: a repeated ID is skipped. *)
Definition RecomputeNodeDisplayNames (ids : list string) (prior : gmap string string) (s : Inventory)
    : result error Inventory :=
  let? r := fold_res (λ acc id,
    if mem_str id acc.1 then Ok acc
    else let? s := recompute_name prior acc.2 id in Ok (id :: acc.1, s)) ([], s) ids in
  Ok r.2.

(** ** Nodes *)

Section Nodes.
Context `{GoText} `{Sha256} `{ConnectionJSON} `{CredentialsJSON}.

Definition node_not_found : error := domain_error (NewNotFoundError "node_not_found").

Definition marshalNodeCredentials (c : InboundProtocolCredential) : string :=
  let raw := marshal_creds c in if String.eqb raw "" then "{}" else raw.

Definition unmarshalNodeCredentials (configJSON : string) : result error InboundProtocolCredential :=
  let trimmed := TrimSpace configJSON in
  if String.eqb trimmed "" || String.eqb trimmed "{}" || String.eqb trimmed "null"
  then Ok no_credentials
  else let '(c, ok) := unmarshal_creds trimmed in
       if ok then Ok c else Err (driver_error "failed to unmarshal node credentials").

(** The version that the head of a node points to. *)
Definition head_version (s : Inventory) (id : string) : option (Z * VersionRow) :=
  match iv_heads s !! id with
  | Some rev => pair rev <$> iv_versions s !! (id, rev)
  | None => None
  end.

(** What the query of [GetByLogicalID] and of the lists selects: server, port,
    credentials and revision come from the head, if there is one. *)
Definition read_node (s : Inventory) (id : string) (row : NodeRow) : result error Node :=
  let '(server, port, config) :=
    match head_version s id with
    | Some (_, v) => (ec_Server (vr_Config v), ec_Port (vr_Config v), ec_Credentials (vr_Config v))
    | None => (nr_Server row, nr_Port row, nr_ConfigJSON row)
    end in
  let? creds := unmarshalNodeCredentials config in
  Ok {| node_LogicalID := id; node_Protocol := nr_Protocol row; node_DisplayName := nr_DisplayName row;
        node_Server := server; node_Port := port; node_Credentials := creds;
        node_Active := nr_Active row;
        node_ConnectionRevision := default (nr_Revision row) (iv_heads s !! id) |}.

Definition GetByLogicalID (s : Inventory) (id : string) : result error Node :=
  match iv_nodes s !! id with Some row => read_node s id row | None => Err node_not_found end.

Definition row_of (n : Node) (rev : Z) : NodeRow :=
  {| nr_Protocol := node_Protocol n; nr_DisplayName := node_DisplayName n; nr_Server := node_Server n;
     nr_Port := node_Port n; nr_ConfigJSON := marshalNodeCredentials (node_Credentials n);
     nr_Active := node_Active n; nr_Revision := rev |}.

(** The columns that [UpsertBatch] and [UpdateNode] compare as they are stored. *)
Definition same_columns (a b : NodeRow) : bool :=
  String.eqb (nr_Server a) (nr_Server b) && (nr_Port a =? nr_Port b)%Z &&
  String.eqb (nr_ConfigJSON a) (nr_ConfigJSON b).

Definition upserted_revision (old : option NodeRow) (new : NodeRow) : Z :=
  match old with
  | None => 1
  | Some r =>
      if String.eqb (nr_Protocol r) (nr_Protocol new) && same_columns r new &&
         negb (negb (nr_Active r) && nr_Active new)
      then nr_Revision r else nr_Revision r + 1
  end%Z.

Definition version_of (row : NodeRow) (c : InboundProtocolCredential) : VersionRow :=
  {| vr_Config := {| ec_Server := nr_Server row; ec_Port := nr_Port row;
                     ec_Credentials := nr_ConfigJSON row |};
     vr_Fingerprint := ComputeConnectionFingerprint (nr_Server row) (nr_Port row) c;
     vr_SourceEntryID := None |}.

(** The version and the head of a row that was just written. *)
Definition maintain_head (env : InvEnv) (i : nat) (id : string) (row : NodeRow)
    (c : InboundProtocolCredential) (s : Inventory) : Inventory :=
  let s := exec_ignored env "insert version" i (insert_version id (nr_Revision row) (version_of row c)) s in
  exec_ignored env "upsert head" i (upsert_head id (nr_Revision row)) s.

Definition upsert_one (env : InvEnv) (i : nat) (s : Inventory) (n : Node) : result error Inventory :=
  let id := node_LogicalID n in
  let row := row_of n (upserted_revision (iv_nodes s !! id) (row_of n 1)) in
  let? s := exec env "upsert node" i (upsert_node id row) s in
  Ok (if answered env "select node" i then maintain_head env i id row (node_Credentials n) s else s).

Fixpoint upsert_all (env : InvEnv) (i : nat) (s : Inventory) (l : list Node) : result error Inventory :=
  match l with
  | [] => Ok s
  | n :: l => let? s := upsert_one env i s n in upsert_all env (S i) s l
  end.

Definition UpsertBatch (env : InvEnv) (l : list Node) : M Inventory unit :=
  match l with
  | [] => ret tt
  | _ => transaction env "nodes.UpsertBatch" (λ s, let? s' := upsert_all env 0 s l in Ok (tt, s'))
  end.
End Nodes.

(** ** Subscriptions *)

Section Subscriptions.
Context (env : InvEnv).

Definition subscription_not_found : error := domain_error (NewNotFoundError "subscription_not_found").

(** The latest finished fetch: [ORDER BY started_at DESC, id DESC]. *)
Definition later_fetch (a b : string * SubscriptionFetch) : bool :=
  if (sf_StartedAt a.2 =? sf_StartedAt b.2)%Z then str_less b.1 a.1
  else (sf_StartedAt b.2 <? sf_StartedAt a.2)%Z.
Definition latest_fetch (s : Inventory) (id : string) : option SubscriptionFetch :=
  snd <$> head (sort_stable later_fetch (List.filter (λ kf,
    String.eqb (sf_SubscriptionID kf.2) id && bool_decide (is_Some (sf_FinishedAt kf.2)))
    (map_to_list (iv_fetches s)))).

(** The subscription, and when it was last refreshed. *)
Definition subscriptions_GetByID (s : Inventory) (id : string)
    : result error (Subscription * option time) :=
  match iv_subs s !! id with
  | Some sub => Ok (sub, latest_fetch s id ≫= sf_FinishedAt)
  | None => Err subscription_not_found
  end.

Definition set_times (created updated : time) (sub : Subscription) : Subscription :=
  {| sub_ID := sub_ID sub; sub_Name := sub_Name sub; sub_SourceURLSecretRef := sub_SourceURLSecretRef sub;
     sub_Enabled := sub_Enabled sub; sub_Prefix := sub_Prefix sub;
     sub_RefreshPolicy := sub_RefreshPolicy sub; sub_Config := sub_Config sub;
     sub_Revision := sub_Revision sub; sub_CreatedAt := created; sub_UpdatedAt := updated |}.

Definition or_now (t : time) : time := rfc3339 (if IsZero t then ie_now env else t).

Definition subscriptions_Create (sub : Subscription) : M Inventory unit := λ s,
  match exec env "subscriptions.Create" 0 (λ s,
    if stored (iv_subs s) (sub_ID sub) then Err (constraint_failed "UNIQUE")
    else Ok (with_subs (<[sub_ID sub :=
           set_times (or_now (sub_CreatedAt sub)) (or_now (sub_UpdatedAt sub)) sub]> (iv_subs s)) s)) s with
  | Ok s' => (Ok tt, s')
  | Err e => (Err e, s)
  end.

Definition subscriptions_Update (sub : Subscription) : M Inventory unit :=
  transaction env "subscriptions.Update" (λ s,
    match iv_subs s !! sub_ID sub with
    | None => Err subscription_not_found
    | Some old =>
        let row := set_times (sub_CreatedAt old) (rfc3339 (ie_now env)) sub in
        let s := with_subs (<[sub_ID sub := row]> (iv_subs s)) s in
        if String.eqb (sub_Prefix old) (sub_Prefix sub) then Ok (tt, s)
        else
          let ids := map fst (map_to_list (linked s (sub_ID sub))) in
          let? s := RecomputeNodeDisplayNames ids {[sub_ID sub := sub_Prefix old]} s in
          Ok (tt, s)
    end).

(** A source of a subscription that goes away, as a row of its history. *)
Definition snapshot_row (s : Inventory) (sub : string) (label cause kind : string) (now : time)
    (node fetch : string) : HistoryRow :=
  {| hr_SubscriptionID := Some sub; hr_SourceLabel := label;
     hr_Revision := match iv_nodes s !! node with Some r => nr_Revision r | None => 1 end;
     hr_RelationState := RelationStateVerified; hr_Cause := cause;
     hr_FirstObservedAt := sf_StartedAt <$> iv_fetches s !! fetch; hr_LastObservedAt := now;
     hr_EvidenceKind := kind |}.

(** Snapshots of the sources in [rows], under the key that [key] gives each. *)
Fixpoint archive (label cause kind sub : string) (key : string → string → string)
    (i : nat) (rows : list (string * string)) (s : Inventory) : result error Inventory :=
  match rows with
  | [] => Ok s
  | (node, fetch) :: rows =>
      let? s := exec env "archive" i (upsert_history node (key node fetch)
                  (snapshot_row s sub label cause kind (rfc3339 (ie_now env)) node fetch)) s in
      archive label cause kind sub key (S i) rows s
  end.

Definition manually_confirmed (s : Inventory) (node : string) : bool :=
  existsb (λ kh, String.eqb kh.1.1 node && String.eqb (hr_Cause kh.2) CauseManualConfirmed)
    (map_to_list (iv_history s)).

Definition set_active (b : bool) (r : NodeRow) : NodeRow :=
  {| nr_Protocol := nr_Protocol r; nr_DisplayName := nr_DisplayName r; nr_Server := nr_Server r;
     nr_Port := nr_Port r; nr_ConfigJSON := nr_ConfigJSON r; nr_Active := b;
     nr_Revision := nr_Revision r |}.

(** Nodes that only this subscription has, and nobody confirmed, become inactive. *)
Definition deactivate_orphans (sub : string) (s : Inventory) : Inventory :=
  with_nodes (map_imap (λ node row, Some (
    if bool_decide (is_Some (owners s node !! sub)) && negb (manually_confirmed s node) &&
       bool_decide (delete sub (owners s node) = ∅)
    then set_active false row else row)) (iv_nodes s)) s.

Definition forget_subscription (sub : string) (h : HistoryRow) : HistoryRow :=
  {| hr_SubscriptionID := if decide (hr_SubscriptionID h = Some sub) then None else hr_SubscriptionID h;
     hr_SourceLabel := hr_SourceLabel h; hr_Revision := hr_Revision h;
     hr_RelationState := hr_RelationState h; hr_Cause := hr_Cause h;
     hr_FirstObservedAt := hr_FirstObservedAt h; hr_LastObservedAt := hr_LastObservedAt h;
     hr_EvidenceKind := hr_EvidenceKind h |}.
Definition forget_entry (gone : string → bool) (v : VersionRow) : VersionRow :=
  {| vr_Config := vr_Config v; vr_Fingerprint := vr_Fingerprint v;
     vr_SourceEntryID := match vr_SourceEntryID v with
                         | Some e => if gone e then None else Some e
                         | None => None
                         end |}.

(** [DELETE FROM subscriptions] with what it cascades to: fetches, payloads, entries and
    sources go, histories and versions forget them; a pinned payload forbids it. *)
Definition fetch_gone (sub : string) (f : SubscriptionFetch) : bool :=
  String.eqb (sf_SubscriptionID f) sub.
Definition payload_gone (s : Inventory) (sub : string) (p : SubscriptionPayload) : bool :=
  String.eqb (py_SubscriptionID p) sub ||
  match iv_fetches s !! py_FetchID p with Some f => fetch_gone sub f | None => false end.
Definition entry_gone (s : Inventory) (sub : string) (e : SubscriptionEntry) : bool :=
  String.eqb (en_SubscriptionID e) sub ||
  match iv_payloads s !! en_PayloadID e with Some p => payload_gone s sub p | None => false end.

Definition delete_subscription (sub : string) (s : Inventory) : result error Inventory :=
  let gone_ids := map en_ID (List.filter (entry_gone s sub) (iv_entries s)) in
  if existsb (λ kp, payload_gone s sub kp.2 && bool_decide (kp.1 ∈ iv_pins s))
       (map_to_list (iv_payloads s))
  then Err fk_failed
  else Ok
    (with_ledger (iv_nodes s) (delete sub <$> iv_sources s)
       (forget_subscription sub <$> iv_history s)
       (forget_entry (λ e, mem_str e gone_ids) <$> iv_versions s) (iv_heads s)
       (with_feed (delete sub (iv_subs s))
          (filter (λ kf, fetch_gone sub kf.2 = false) (iv_fetches s))
          (filter (λ kp, payload_gone s sub kp.2 = false) (iv_payloads s))
          (List.filter (λ e, negb (entry_gone s sub e)) (iv_entries s)) s)).

(** [node_sources] joined with [nodes]. *)
Definition joined (s : Inventory) (rows : list (string * string)) : list (string * string) :=
  List.filter (λ nf, stored (iv_nodes s) nf.1) rows.

Definition subscriptions_Delete `{MapOrder} (id : string) : M Inventory unit :=
  transaction env "subscriptions.Delete" (λ s,
    match iv_subs s !! id with
    | None => Err subscription_not_found
    | Some sub =>
        let rows := range (linked s id) in
        let key node fetch := "subscription_deleted:" +:+ id +:+ ":" +:+ node in
        let? s := (if answered env "history table" 0 && answered env "select sources" 0 &&
                      answered env "prepare history" 0
                   then archive (sub_Name sub) CauseSubscriptionDeleted "subscription_delete_snapshot"
                          id key 0 (joined s rows) s
                   else Ok s) in
        let s := deactivate_orphans id s in
        let? s := delete_subscription id s in
        let? s := RecomputeNodeDisplayNames (map fst rows) {[id := sub_Prefix sub]} s in
        Ok (tt, s)
    end).

Definition fetches_Create (id : string) (f : SubscriptionFetch) : M Inventory unit := λ s,
  match exec env "fetches.Create" 0 (insert_fetch id f) s with
  | Ok s' => (Ok tt, s')
  | Err e => (Err e, s)
  end.
End Subscriptions.
