(* ===== verification/Refresh.v ===== *)
(** * The refresh of a subscription

    [ReconcileSubscription] of [internal/application/inventory/service.go]: fetch the
    subscription, parse what came back, and bring nodes, sources, entries and history
    in line with it in one transaction.

    The parser ([internal/parser]) is an argument of the model, the class [Parser].  The
    rows of [subscription_entries] that carry an override are scanned in the order of the
    class [EntryScan]. *)

From S2P Require Import Prelude.
From S2P Require Import GoStrings.
From S2P Require Import Domain.
From S2P Require Import Lifecycle.
From S2P Require Import NodeFilter.
From S2P Require Import Services.
From S2P Require Import Requests.
From S2P Require Import FetchPolicy.
From S2P Require Import Fetch.
From S2P Require Import Connections.
From S2P Require Import InventoryStore.

(** An item of the payload: the normalized node and its transport. *)
Record ParsedNode : Type := { it_Node : Node; it_Transport : option (gmap string string) }.
Record ExtractResult : Type := { ex_Items : list ParsedNode; ex_Rejected : Z }.

Class Parser := { ExtractWithCredentials : string → result error ExtractResult }.

Class EntryScan := {
  scan : list SubscriptionEntry → list SubscriptionEntry;
  scan_perm : ∀ l, scan l ≡ₚ l
}.

(** ** What the transaction reads first *)

Record existingNodeRow : Type := {
  xn_LogicalID : string;
  xn_DisplayName : string;
  xn_Connection : Connection;
  xn_Active : bool;
  xn_Revision : Z
}.

Record prevOverride : Type := {
  pv_kind : string;
  pv_anchor : string;
  pv_reason : string;
  pv_at : option time;
  pv_actor : string
}.

Record prevOverrides : Type := {
  pv_byAnchor : gmap string prevOverride;
  pv_byName : gmap string prevOverride;
  pv_ambiguous : gset string
}.

(** A key that two overrides of different kinds claim is ambiguous. *)
Definition note_override (k : string) (po : prevOverride) (m : gmap string prevOverride)
    (ambiguous : gset string) : gmap string prevOverride * gset string :=
  match m !! k with
  | Some e => if String.eqb (pv_kind e) (pv_kind po) then (<[k := po]> m, ambiguous)
              else (m, ambiguous ∪ {[k]})
  | None => (<[k := po]> m, ambiguous)
  end.

Definition load_override (acc : prevOverrides) (e : SubscriptionEntry) : prevOverrides :=
  match en_UserKindOverride e with
  | None => acc
  | Some k =>
      let po := {| pv_kind := k; pv_anchor := en_OverrideAnchor e; pv_reason := en_OverrideReason e;
                   pv_at := en_OverrideAt e; pv_actor := en_ActorRef e |} in
      let '(byAnchor, amb) := note_override (en_OverrideAnchor e) po (pv_byAnchor acc) (pv_ambiguous acc) in
      let '(byAnchor, amb) := if String.eqb (en_SourceKey e) "" then (byAnchor, amb)
                              else note_override (en_SourceKey e) po byAnchor amb in
      let '(byName, amb) := if String.eqb (en_RawName e) "" then (pv_byName acc, amb)
                            else note_override (en_RawName e) po (pv_byName acc) amb in
      {| pv_byAnchor := byAnchor; pv_byName := byName; pv_ambiguous := amb |}
  end.

Definition no_overrides : prevOverrides :=
  {| pv_byAnchor := ∅; pv_byName := ∅; pv_ambiguous := ∅ |}.

Definition load_overrides `{EntryScan} (sub : string) (s : Inventory) : prevOverrides :=
  fold_left load_override
    (scan (List.filter (λ e, String.eqb (en_SubscriptionID e) sub) (iv_entries s))) no_overrides.

Section Existing.
Context `{CredentialsJSON}.

Definition row_connection (r : NodeRow) : Connection :=
  {| cn_Protocol := nr_Protocol r; cn_Server := nr_Server r; cn_Port := nr_Port r;
     cn_Credentials := (unmarshal_creds (nr_ConfigJSON r)).1 |}.

Definition in_history (s : Inventory) (sub node : string) : bool :=
  existsb (λ kh, String.eqb kh.1.1 node && bool_decide (hr_SubscriptionID kh.2 = Some sub))
    (map_to_list (iv_history s)).

(** The nodes of the subscription, now or in its history; under the name of their latest
    entry. *)
Definition existing_nodes (s : Inventory) (sub : string) (history : bool) : gmap string existingNodeRow :=
  map_imap (λ node r,
    if bool_decide (is_Some (owners s node !! sub)) || (history && in_history s sub node)
    then Some {| xn_LogicalID := node;
                 xn_DisplayName := if history then default (nr_DisplayName r) (latest_raw_name s sub node)
                                   else nr_DisplayName r;
                 xn_Connection := row_connection r; xn_Active := nr_Active r;
                 xn_Revision := nr_Revision r |}
    else None) (iv_nodes s).
End Existing.

Definition npKey (name protocol : string) : string := name +:+ "|" +:+ protocol.

(** [existingByNameProto[key]]; the code only looks at it when it has one row, so that
    the order of the rows does not matter. *)
Definition by_name_proto (existing : gmap string existingNodeRow) (key : string) : list existingNodeRow :=
  List.filter (λ x, String.eqb (npKey (xn_DisplayName x) (cn_Protocol (xn_Connection x))) key)
    (map snd (map_to_list existing)).
Definition unique_by_name (existing : gmap string existingNodeRow) (key : string)
    : option existingNodeRow :=
  match by_name_proto existing key with [x] => Some x | _ => None end.

Definition item_key (it : ParsedNode) : string :=
  npKey (node_DisplayName (it_Node it)) (node_Protocol (it_Node it)).
Definition incomingByNameProto (items : list ParsedNode) (key : string) : nat :=
  length (List.filter (λ it, String.eqb (item_key it) key) items).

(** ** Overrides of fields *)

Definition set_connection (server : string) (port : Z) (c : InboundProtocolCredential) (n : Node) : Node :=
  {| node_LogicalID := node_LogicalID n; node_Protocol := node_Protocol n;
     node_DisplayName := node_DisplayName n; node_Server := server; node_Port := port;
     node_Credentials := c; node_Active := node_Active n;
     node_ConnectionRevision := node_ConnectionRevision n |}.

Definition set_secrets (sni password uuid : string) (c : InboundProtocolCredential)
    : InboundProtocolCredential :=
  {| cred_Password := password; cred_UUID := uuid; cred_Method := cred_Method c;
     cred_AlterID := cred_AlterID c; cred_PrivateKey := cred_PrivateKey c;
     cred_PublicKey := cred_PublicKey c; cred_PresharedKey := cred_PresharedKey c;
     cred_PreSharedKey := cred_PreSharedKey c; cred_LocalAddress := cred_LocalAddress c;
     cred_Reserved := cred_Reserved c; cred_MTU := cred_MTU c; cred_DNS := cred_DNS c;
     cred_CongestionControl := cred_CongestionControl c; cred_UDPRelayMode := cred_UDPRelayMode c;
     cred_ALPN := cred_ALPN c; cred_SNI := sni; cred_DisableSNI := cred_DisableSNI c;
     cred_Username := cred_Username c; cred_Transport := cred_Transport c |}.

Definition applyFieldOverride `{GoText} (n : Node) (fieldPath : string) (v : json) : Node :=
  let field := ToLower fieldPath in
  let c := node_Credentials n in
  let with_creds c := set_connection (node_Server n) (node_Port n) c n in
  if String.eqb field "server" then
    match unmarshal_string "" v with
    | Some text => if String.eqb text "" then n else set_connection text (node_Port n) c n
    | None => n
    end
  else if String.eqb field "port" then
    match unmarshal_int 0 v with
    | Some p => if (0 <? p)%Z then set_connection (node_Server n) p c n else n
    | None => n
    end
  else
    match unmarshal_string "" v with
    | None => n
    | Some text =>
        if String.eqb field "sni" then with_creds (set_secrets text (cred_Password c) (cred_UUID c) c)
        else if String.eqb field "password" then with_creds (set_secrets (cred_SNI c) text (cred_UUID c) c)
        else if String.eqb field "uuid" then with_creds (set_secrets (cred_SNI c) (cred_Password c) text c)
        else n
    end.

Definition apply_overrides `{GoText} `{MapOrder} (fields : gmap string json) (n : Node) : Node :=
  fold_left (λ n kv, applyFieldOverride n kv.1 kv.2) (range fields) n.

(** ** One item *)

Section Refresh.
Context `{GoText} `{Sha256} `{MapOrder} `{ConnectionJSON} `{CredentialsJSON} `{EntryScan}.
Context (env : InvEnv).

(** What the loop over the items knows: the subscription, the fetch and its outcome, what
    was read before the loop, and the items. *)
Record refresh : Type := {
  rf_sub : Subscription;
  rf_fetchID : string;
  rf_payloadID : string;
  rf_outcome : string;
  rf_existing : gmap string existingNodeRow;
  rf_overrides : prevOverrides;
  rf_fields : gmap string (gmap string json);
  rf_items : list ParsedNode
}.

(** Where an item goes. *)
Record target : Type := { tg_ID : string; tg_Revision : Z; tg_Active : bool }.

Definition now : time := rfc3339 (ie_now env).

Definition candidate_id (it : ParsedNode) : string :=
  let n := it_Node it in
  if String.eqb (node_LogicalID n) ""
  then ComputeNodeLogicalID (node_Protocol n) (node_Server n) (node_Port n) (it_Transport it)
  else node_LogicalID n.

Definition by_logical_id (existing : gmap string existingNodeRow) (id : string) : option existingNodeRow :=
  if String.eqb id "" then None else existing !! id.

(** The node of this subscription that an item continues: of the same ID, of a name that is
    unique on both sides, or of the ID that the item would get. *)
Definition match_existing (r : refresh) (it : ParsedNode) : option existingNodeRow :=
  let cand := candidate_id it in
  match by_logical_id (rf_existing r) (node_LogicalID (it_Node it)) with
  | Some x => Some x
  | None =>
      match (if incomingByNameProto (rf_items r) (item_key it) =? 1
             then unique_by_name (rf_existing r) (item_key it) else None) with
      | Some x => Some x
      | None =>
          match rf_existing r !! computeScopedLogicalID (sub_ID (rf_sub r)) cand with
          | Some x => Some x
          | None => rf_existing r !! cand
          end
      end
  end.

Definition effective (n : Node) : EffectiveConfig :=
  {| ec_Server := node_Server n; ec_Port := node_Port n;
     ec_Credentials := marshal_creds (node_Credentials n) |}.

Definition write_version (i : nat) (entry id : string) (rev : Z) (n : Node) (s : Inventory) : Inventory :=
  if answered env "prepare version" 0 then
    exec_ignored env "version" i (upsert_version coalesce id rev
      {| vr_Config := effective n;
         vr_Fingerprint := ComputeConnectionFingerprint (node_Server n) (node_Port n) (node_Credentials n);
         vr_SourceEntryID := Some entry |}) s
  else s.
Definition write_version_head (i : nat) (entry id : string) (rev : Z) (n : Node) (s : Inventory)
    : Inventory :=
  if answered env "prepare version" 0 && answered env "prepare head" 0
  then exec_ignored env "head" i (upsert_head id rev) (write_version i entry id rev n s)
  else s.

Definition others_own (s : Inventory) (sub node : string) : bool :=
  negb (bool_decide (delete sub (owners s node) = ∅)).

(** Leave a node that other subscriptions share. *)
Definition unlink (r : refresh) (i : nat) (x : existingNodeRow) (s : Inventory) : result error Inventory :=
  let sub := sub_ID (rf_sub r) in
  let? s := (if answered env "history table" (S i) then
               exec env "cow history" i (upsert_history (xn_LogicalID x)
                 ("cow_unlinked:" +:+ xn_LogicalID x +:+ ":" +:+ sub)
                 {| hr_SubscriptionID := Some sub; hr_SourceLabel := sub_Name (rf_sub r);
                    hr_Revision := xn_Revision x; hr_RelationState := RelationStateVerified;
                    hr_Cause := CauseRefreshRemoved; hr_FirstObservedAt := Some now;
                    hr_LastObservedAt := now; hr_EvidenceKind := "cow_unlinked" |}) s
             else Ok s) in
  if String.eqb (rf_outcome r) FetchOutcomeSuccess
  then exec env "unlink" i (delete_source (xn_LogicalID x) sub) s else Ok s.

(** An item that continues [x]; [n] is its node with the overrides of fields applied. *)
Definition place_matched (r : refresh) (i : nat) (entry : string) (it : ParsedNode) (x : existingNodeRow)
    (n : Node) (s : Inventory) : result error (target * Inventory) :=
  let id := xn_LogicalID x in
  if areConnectionParametersEqual (xn_Connection x) (connection_of n) then
    Ok ({| tg_ID := id; tg_Revision := xn_Revision x; tg_Active := xn_Active x |},
        write_version i entry id (xn_Revision x) n s)
  else
    match ie_io env "count owners" i with
    | Some m => Err (driver_error m)
    | None =>
        let rev := (xn_Revision x + 1)%Z in
        let? ts := (if others_own s (sub_ID (rf_sub r)) id then
                      let? s := unlink r i x s in
                      Ok (computeScopedLogicalID (sub_ID (rf_sub r)) (candidate_id it), s)
                    else Ok (id, s)) in
        Ok ({| tg_ID := ts.1; tg_Revision := rev; tg_Active := xn_Active x |},
            write_version_head i entry ts.1 rev n ts.2)
    end.

(** The row of the scoped ID, if there is one. *)
Definition place_scoped (i : nat) (scoped : string) (n : Node) (active : bool) (s : Inventory) : target :=
  match (if answered env "scoped" i then iv_nodes s !! scoped else None) with
  | Some row =>
      {| tg_ID := scoped;
         tg_Revision := if areConnectionParametersEqual (row_connection row) (connection_of n)
                        then nr_Revision row else nr_Revision row + 1;
         tg_Active := active && nr_Active row |}
  | None => {| tg_ID := scoped; tg_Revision := 1; tg_Active := true |}
  end%Z.

(** An item that continues no node of this subscription. *)
Definition unmatched_target (r : refresh) (i : nat) (it : ParsedNode) (s : Inventory)
    : result error target :=
  let sub := sub_ID (rf_sub r) in
  let cand := candidate_id it in
  let scoped := computeScopedLogicalID sub cand in
  let n := it_Node it in
  match ie_io env "candidate" i with
  | Some m => Err (driver_error m)
  | None =>
      match iv_nodes s !! cand with
      | None => Ok {| tg_ID := cand; tg_Revision := 1; tg_Active := true |}
      | Some row =>
          let sameSub := answered env "same sub" i && bool_decide (is_Some (owners s cand !! sub)) in
          let otherSub := answered env "other sub" i && others_own s sub cand in
          let keep active := {| tg_ID := cand; tg_Revision := nr_Revision row; tg_Active := active |} in
          let t :=
            if sameSub then keep (nr_Active row)
            else if areConnectionParametersEqual (row_connection row) (connection_of n)
            then keep (if otherSub then nr_Active row else true)
            else {| tg_ID := scoped; tg_Revision := 1; tg_Active := true |} in
          Ok (if String.eqb (tg_ID t) scoped then place_scoped i scoped n (tg_Active t) s else t)
      end
  end%Z.

Definition place_unmatched (r : refresh) (i : nat) (entry : string) (it : ParsedNode) (s : Inventory)
    : result error (target * Inventory) :=
  let? t := unmatched_target r i it s in
  Ok (t, write_version_head i entry (tg_ID t) (tg_Revision t) (it_Node it) s).

(** Target, node with overrides, and the state so far. *)
Definition place (r : refresh) (i : nat) (entry : string) (it : ParsedNode) (s : Inventory)
    : result error (target * Node * Inventory) :=
  match match_existing r it with
  | Some x =>
      let n := apply_overrides (default ∅ (rf_fields r !! xn_LogicalID x)) (it_Node it) in
      let? ts := place_matched r i entry it x n s in Ok (ts.1, n, ts.2)
  | None => let? ts := place_unmatched r i entry it s in Ok (ts.1, it_Node it, ts.2)
  end.

(** ** Entries *)

Definition sourceKey (n : Node) : string :=
  node_Protocol n +:+ "|" +:+ node_Server n +:+ "|" +:+ itoa (node_Port n) +:+ "|" +:+ node_DisplayName n.

Definition isVerifiedSource (sub : Subscription) : bool :=
  String.eqb (sub_ID sub) "01a0b9af-c116-7967-bc7f-197aa43a2e49" ||
  Contains (ToLower (sub_Name sub)) "dogegg" ||
  Contains (ToLower (sub_SourceURLSecretRef sub)) "dogegg".

(** The user's override of the kind of an item, or the conflict that prevents it. *)
Definition user_override (p : prevOverrides) (n : Node) : option prevOverride * string :=
  match pv_byAnchor p !! sourceKey n with
  | Some po => if bool_decide (sourceKey n ∈ pv_ambiguous p) then (None, "ambiguous_anchor_override")
               else (Some po, "")
  | None =>
      match pv_byName p !! node_DisplayName n with
      | Some po => if bool_decide (node_DisplayName n ∈ pv_ambiguous p)
                   then (None, "ambiguous_name_override") else (Some po, "")
      | None => (None, "")
      end
  end.

Definition classify (r : refresh) (n : Node) : string * string :=
  ClassifySubscriptionEntry (isVerifiedSource (rf_sub r)) (node_Server n) (node_Port n)
    (node_Credentials n) (node_DisplayName n).

Definition effectiveKind (r : refresh) (n : Node) : string :=
  match (user_override (rf_overrides r) n).1 with
  | Some po => if EntryKind_IsValid (pv_kind po) then pv_kind po else (classify r n).1
  | None => (classify r n).1
  end.

(** The node a notice is linked to. *)
Definition notice_target (r : refresh) (it : ParsedNode) : option string :=
  xn_LogicalID <$>
  match by_logical_id (rf_existing r) (node_LogicalID (it_Node it)) with
  | Some x => Some x
  | None => unique_by_name (rf_existing r) (item_key it)
  end.

Definition nonempty (id : string) : option string := if String.eqb id "" then None else Some id.

(** The entry of the [i]-th item; [n] is its node after overrides. *)
Definition entry_of (r : refresh) (i : nat) (entry : string) (it : ParsedNode) (n : Node)
    (node : option string) : SubscriptionEntry :=
  let raw := it_Node it in
  let '(po, conflict) := user_override (rf_overrides r) raw in
  {| en_ID := entry; en_PayloadID := rf_payloadID r; en_SubscriptionID := sub_ID (rf_sub r);
     en_Ordinal := Z.of_nat i; en_SourceKey := sourceKey raw; en_RawName := node_DisplayName raw;
     en_Protocol := node_Protocol n; en_Server := node_Server n; en_Port := node_Port n;
     en_EntryKind := (classify r raw).1; en_ClassificationReason := (classify r raw).2;
     en_UserKindOverride := pv_kind <$> po;
     en_OverrideAnchor := match po with Some p => pv_anchor p | None => "" end;
     en_OverrideReason := match po with Some p => pv_reason p | None => "" end;
     en_OverrideAt := match po with Some p => rfc3339 <$> pv_at p | None => None end;
     en_ActorRef := match po with Some p => pv_actor p | None => "" end;
     en_Conflict := conflict; en_NodeLogicalID := node ≫= nonempty; en_CreatedAt := now |}.

Definition write_entry (i : nat) (e : SubscriptionEntry) (s : Inventory) : result error Inventory :=
  if answered env "prepare entry" 0 then exec env "entry" i (insert_entry e) s else Ok s.

(** The loop keeps the IDs it has seen. *)
Definition progress : Type := gmap string bool * Inventory.

Definition write_node (r : refresh) (i : nat) (t : target) (n : Node) (acc : progress)
    : result error progress :=
  let row := {| nr_Protocol := node_Protocol n; nr_DisplayName := node_DisplayName n;
                nr_Server := node_Server n; nr_Port := node_Port n;
                nr_ConfigJSON := marshalNodeCredentials (node_Credentials n);
                nr_Active := tg_Active t; nr_Revision := tg_Revision t |} in
  let? s := exec env "node" i (upsert_node (tg_ID t) row) acc.2 in
  if bool_decide (is_Some (acc.1 !! tg_ID t)) then Ok (acc.1, s)
  else
    let? s := exec env "source" i (upsert_source (tg_ID t) (sub_ID (rf_sub r)) (rf_fetchID r)) s in
    Ok (<[tg_ID t := true]> acc.1, s).

Definition reconcile_item (r : refresh) (acc : progress) (item : nat * ParsedNode)
    : result error progress :=
  let '(i, it) := item in
  let entry := "entry_" +:+ ie_uuid env "entry" i in
  if String.eqb (effectiveKind r (it_Node it)) EntryKindNotice then
    let? s := write_entry i (entry_of r i entry it (it_Node it) (notice_target r it)) acc.2 in
    Ok (acc.1, s)
  else
    let? tns := place r i entry it acc.2 in
    let '(t, n, s) := tns in
    let? acc := write_node r i t n (acc.1, s) in
    let? s := write_entry i (entry_of r i entry it n (Some (tg_ID t))) acc.2 in
    Ok (acc.1, s).

(** ** The transaction *)

(** Sources that this fetch did not see go to the history and away. *)
Definition stale_sources (s : Inventory) (sub fetch : string) : gmap string string :=
  filter (λ nf, nf.2 ≠ fetch) (linked s sub).
Definition prune_sources (sub fetch : string) (s : Inventory) : result error Inventory :=
  Ok (with_sources ((λ m : gmap string string,
    match m !! sub with
    | Some f => if String.eqb f fetch then m else delete sub m
    | None => m
    end) <$> iv_sources s) s).

Definition prune (r : refresh) (s : Inventory) : result error Inventory :=
  let sub := sub_ID (rf_sub r) in
  if negb (String.eqb (rf_outcome r) FetchOutcomeSuccess) then Ok s
  else
    let rows := joined s (range (stale_sources s sub (rf_fetchID r))) in
    let key node fetch := "refresh_removed:" +:+ sub +:+ ":" +:+ fetch in
    let? s := (if answered env "history table" 0 && answered env "select stale" 0 &&
                  answered env "prepare history" 0
               then archive env (sub_Name (rf_sub r)) CauseRefreshRemoved "subscription_refresh_prune"
                      sub key 0 rows s
               else Ok s) in
    exec env "prune" 0 (prune_sources sub (rf_fetchID r)) s.

(** Keys of the map from IDs to indices, so that the loop is a fold. *)
Definition indexed {A} (l : list A) : list (nat * A) := imap pair l.

(** The state when the loop starts, and what it knows.  A payload that cannot be written is an
    error; the source goes on where the driver reports that the table of payloads is missing,
    which the migrations create. *)
Definition start_refresh (sub : Subscription) (resp : Response) (ext : ExtractResult) (outcome : string)
    (s : Inventory) : result error (refresh * Inventory) :=
  let fetchID := ie_uuid env "fetch" 0 in
  let payloadID := "payload_" +:+ ie_uuid env "payload" 0 in
  let? s := exec env "fetch" 0 (insert_fetch fetchID
    {| sf_SubscriptionID := sub_ID sub; sf_StartedAt := rfc3339 (ie_started env);
       sf_FinishedAt := Some (rfc3339 (ie_finished env)); sf_Outcome := outcome;
       sf_ContentDigest := rsp_ContentDigest resp;
       sf_NodesParsed := Z.of_nat (length (ex_Items ext)) + ex_Rejected ext;
       sf_NodesValid := Z.of_nat (length (ex_Items ext)) |}) s in
  let? s := exec env "payload" 0 (insert_payload payloadID
    {| py_SubscriptionID := sub_ID sub; py_FetchID := fetchID;
       py_ContentDigest := rsp_ContentDigest resp; py_Body := rsp_Body resp;
       py_HTTPStatus := if (rsp_StatusCode resp <=? 0)%Z then 200 else rsp_StatusCode resp |}) s in
  let? s := exec env "select existing" 0 Ok s in
  let? s := exec env "prepare" 0 Ok s in
  Ok ({| rf_sub := sub; rf_fetchID := fetchID; rf_payloadID := payloadID; rf_outcome := outcome;
         rf_existing := existing_nodes s (sub_ID sub) (answered env "history table pre" 0);
         rf_overrides := if answered env "overrides" 0 then load_overrides (sub_ID sub) s
                         else no_overrides;
         rf_fields := if answered env "field overrides" 0 then iv_overrides s else ∅;
         rf_items := ex_Items ext |}, s)%Z.

Definition refresh_body (sub : Subscription) (resp : Response) (ext : ExtractResult) (outcome : string)
    (s : Inventory) : result error (unit * Inventory) :=
  let? rs := start_refresh sub resp ext outcome s in
  let '(r, s) := rs in
  let? acc := fold_res (reconcile_item r) (∅, s) (indexed (ex_Items ext)) in
  let? s := prune r acc.2 in
  let? s := RecomputeNodeDisplayNames (map fst (range (rf_existing r)) ++ map fst (range acc.1)) ∅ s in
  Ok (tt, s).
End Refresh.

(** ** The request *)

Record ReconcileResult : Type := {
  rc_FetchID : string;
  rc_SubscriptionID : string;
  rc_Outcome : string;
  rc_ContentDigest : string;
  rc_NodesParsed : Z;
  rc_NodesValid : Z
}.

(** The [fetch.Fetcher] of the service; a [*fetch.Client] has a base policy. *)
Record Fetcher : Type := {
  ft_client : option Policy;
  ft_Fetch : Options → result error Response
}.

Definition client_fetcher `{GoText} `{Sha256} `{Net} `{Inflate} (web : Internet) (base : Policy) : Fetcher :=
  {| ft_client := Some base; ft_Fetch := λ opts, (Fetch web base opts []).1 |}.

(** A query, a statement, and the audit trail, under the errors of [env]. *)
Definition ask {A} (env : InvEnv) (label : string) (f : Inventory → result error A) : M Inventory A := λ s,
  (match ie_io env label 0 with Some m => Err (driver_error m) | None => f s end, s).
Definition ignoring {A} (c : M Inventory A) : M Inventory unit := λ s, (Ok tt, (c s).2).
Definition auditRepo_Record (env : InvEnv) (i : nat) (action : string) (ok : bool) : M Inventory unit := λ s,
  match ie_io env "audit" i with
  | Some m => (Err (driver_error m), s)
  | None => (Ok tt, with_trail (trail s ++ [{| ev_Action := action; ev_Success := ok |}]) s)
  end.

Section Reconcile.
Context `{GoText} `{Sha256} `{Net} `{MapOrder} `{ConnectionJSON} `{CredentialsJSON} `{EntryScan} `{Parser}.
(** [settings] is what the settings repository answers, if there is one. *)
Context (env : InvEnv) (defaultFetchProxy : string) (settings : option (result error Settings))
  (fetcher : Fetcher).

Definition fetch_settings_failed : error := domain_error (NewInternalError "fetch_settings_failed").

(** The proxy in force. *)
Definition configuredProxy : result error string :=
  match settings with
  | None => Ok defaultFetchProxy
  | Some (Ok st) => Ok (EffectiveSubscriptionFetchProxy st defaultFetchProxy)
  | Some (Err _) => Err fetch_settings_failed
  end.

Definition fetch_subscription (sub : Subscription) : result error Response :=
  let? configured := configuredProxy in
  let ref := rp_FetchProxyRef (sub_RefreshPolicy sub) in
  let opts := OptionsFromPolicy (sub_SourceURLSecretRef sub) (sub_RefreshPolicy sub)
                (if String.eqb ref "" then configured else ref) in
  let? opts := match settings, ft_client fetcher with
               | Some _, Some base =>
                   match PolicyForProxy base configured with
                   | Ok policy => Ok {| opt_URL := opt_URL opts; opt_UserAgent := opt_UserAgent opts;
                       opt_FetchProxyURL := opt_FetchProxyURL opts; opt_Timeout := opt_Timeout opts;
                       opt_MaxResponseBytes := opt_MaxResponseBytes opts;
                       opt_MaxDecompressedBytes := opt_MaxDecompressedBytes opts;
                       opt_MaxRedirects := opt_MaxRedirects opts; opt_Policy := Some policy |}
                   | Err e => Err (domain_error e)
                   end
               | _, _ => Ok opts
               end in
  ft_Fetch fetcher opts.

(** A refresh that does not reach the inventory: the fetch and the audit event are
    recorded, as far as possible, and the caller gets a result with the error. *)
Definition failed_refresh (sub : Subscription) (action digest : string) (parsed : Z) (e : error)
    : proc Inventory (ReconcileResult * option error) :=
  let fetchID := ie_uuid env "fetch" 0 in
  let@ _ := step (ignoring (fetches_Create env fetchID
    {| sf_SubscriptionID := sub_ID sub; sf_StartedAt := rfc3339 (ie_started env);
       sf_FinishedAt := Some (rfc3339 (ie_finished env)); sf_Outcome := FetchOutcomeFailed;
       sf_ContentDigest := digest; sf_NodesParsed := parsed; sf_NodesValid := 0%Z |})) in
  let@ _ := step (ignoring (auditRepo_Record env 0 action false)) in
  give ({| rc_FetchID := fetchID; rc_SubscriptionID := sub_ID sub; rc_Outcome := FetchOutcomeFailed;
           rc_ContentDigest := digest; rc_NodesParsed := parsed; rc_NodesValid := 0%Z |}, Some e).

Definition empty_subscription : error := driver_error "failed to reconcile subscription".

Definition outcome_of (ext : ExtractResult) : string :=
  if (0 <? ex_Rejected ext)%Z then FetchOutcomePartial else FetchOutcomeSuccess.

Definition ReconcileSubscription (subID : string) : proc Inventory (ReconcileResult * option error) :=
  let@ sub := step (ask env "subscriptions.GetByID" (λ s, subscriptions_GetByID s subID)) in
  let sub := sub.1 in
  match fetch_subscription sub with
  | Err e => failed_refresh sub "subscription.fetch.failed" "" 0 e
  | Ok resp =>
      let digest := rsp_ContentDigest resp in
      match ExtractWithCredentials (rsp_Body resp) with
      | Err e => failed_refresh sub "subscription.parse.failed" digest 0 e
      | Ok ext =>
          if bool_decide (ex_Items ext = []) then
            failed_refresh sub "subscription.extract.empty" digest (ex_Rejected ext) empty_subscription
          else
            let@ _ := step (transaction env "reconcile" (refresh_body env sub resp ext (outcome_of ext))) in
            give ({| rc_FetchID := ie_uuid env "fetch" 0; rc_SubscriptionID := sub_ID sub;
                     rc_Outcome := outcome_of ext; rc_ContentDigest := digest;
                     rc_NodesParsed := Z.of_nat (length (ex_Items ext)) + ex_Rejected ext;
                     rc_NodesValid := Z.of_nat (length (ex_Items ext)) |}, None)
      end
  end%Z.
End Reconcile.
