(* ===== verification/InventoryService.v ===== *)
(** * Edits of the inventory

    [UpdateNodeConnection] and [OverrideEntryKind] of
    [internal/application/inventory/service.go], and the commands of
    [internal/application/subscription/service.go].  Each statement or transaction is a step
    of a request.

    [netip.ParsePrefix] and the cron parser are operations of classes.  A command returns
    the row it wrote; the views built from it are left out. *)

From S2P Require Import Prelude.
From S2P Require Import GoStrings.
From S2P Require Import Domain.
From S2P Require Import Lifecycle.
From S2P Require Import NodeFilter.
From S2P Require Import Services.
From S2P Require Import Requests.
From S2P Require Import Fetch.
From S2P Require Import Connections.
From S2P Require Import InventoryStore.
From S2P Require Import Refresh.

(** ** The patch of a node *)

Record NodePatchRequest : Type := {
  pt_DisplayName : option string;
  pt_Server : option string;
  pt_Port : option Z;
  pt_Credentials : option InboundProtocolCredential;
  pt_LocalAddress : option (list string);
  pt_PublicKey : option string;
  pt_PrivateKey : option string;
  pt_PreSharedKey : option string;
  pt_PresharedKey : option string;
  pt_Reserved : option (list Z);
  pt_MTU : option Z;
  pt_DNS : option (list string);
  pt_UUID : option string;
  pt_Password : option string;
  pt_Method : option string;
  pt_AlterID : option Z;
  pt_CongestionControl : option string;
  pt_UDPRelayMode : option string;
  pt_ALPN : option (list string);
  pt_SNI : option string;
  pt_DisableSNI : option bool;
  pt_Username : option string;
  pt_Transport : option (gmap string string)
}.

(** [netip.ParsePrefix], with the text of the prefix it returns. *)
Class Prefixes := { ParsePrefix : string → option string }.

Section Patch.
Context `{Prefixes}.

(** A field that is set: trimmed, refused if [bad], and else the new value. *)
Definition patch_text (bad : string → bool) (code : string) (old : string) (p : option string)
    : result DomainError string :=
  match p with
  | None => Ok old
  | Some v => let v := TrimSpace v in
              if bad v then Err (NewValidationError code) else Ok v
  end.
Definition patch_plain (old : string) (p : option string) : string :=
  match p with Some v => TrimSpace v | None => old end.
Definition is_empty (v : string) : bool := String.eqb v "".
Definition trimmed_texts (l : list string) : list string :=
  List.filter (λ v, negb (is_empty v)) (map TrimSpace l).

Fixpoint parse_prefixes (l : list string) : result DomainError (list string) :=
  match l with
  | [] => Ok []
  | v :: l => match ParsePrefix v with
              | None => Err (NewValidationError "invalid_local_address")
              | Some p => let? ps := parse_prefixes l in Ok (p :: ps)
              end
  end.

Definition patch_local_address (wireguard : bool) (old : list string) (p : option (list string))
    : result DomainError (list string) :=
  match p with
  | None => Ok old
  | Some l =>
      let? addrs := parse_prefixes (trimmed_texts l) in
      if wireguard && bool_decide (addrs = []) then Err (NewValidationError "invalid_local_address")
      else Ok addrs
  end.

Definition patch_reserved (old : list Z) (p : option (list Z)) : result DomainError (list Z) :=
  match p with
  | None => Ok old
  | Some l => if (0 <? length l) && negb (length l =? 3) then Err (NewValidationError "invalid_reserved")
              else Ok l
  end.

Definition patch_mtu (old : Z) (p : option Z) : result DomainError Z :=
  match p with
  | None => Ok old
  | Some m => if negb (m =? 0) && ((m <? 576) || (9000 <? m)) then Err (NewValidationError "invalid_mtu")
              else Ok m
  end%Z.

Definition patch_credentials (protocol : string) (p : NodePatchRequest) (old : InboundProtocolCredential)
    : result DomainError InboundProtocolCredential :=
  let among l := mem_str protocol l in
  let wireguard := among [ProtocolWireGuard] in
  let c := default old (pt_Credentials p) in
  let required l v := among l && is_empty v in
  let tuic allowed v := among [ProtocolTUIC] && negb (is_empty v) && negb (mem_str v allowed) in
  let psk := match pt_PresharedKey p with Some v => Some v | None => pt_PreSharedKey p end in
  let? local := patch_local_address wireguard (cred_LocalAddress c) (pt_LocalAddress p) in
  let? public := patch_text (required [ProtocolWireGuard]) "invalid_public_key" (cred_PublicKey c) (pt_PublicKey p) in
  let? private := patch_text (required [ProtocolWireGuard]) "invalid_private_key" (cred_PrivateKey c) (pt_PrivateKey p) in
  let? reserved := patch_reserved (cred_Reserved c) (pt_Reserved p) in
  let? mtu := patch_mtu (cred_MTU c) (pt_MTU p) in
  let? uuid := patch_text (required [ProtocolTUIC; ProtocolVMess; ProtocolVLESS]) "invalid_uuid" (cred_UUID c) (pt_UUID p) in
  let? password := patch_text (required [ProtocolTUIC; ProtocolSS; ProtocolTrojan; ProtocolHysteria2])
                     "invalid_password" (cred_Password c) (pt_Password p) in
  let? method := patch_text (required [ProtocolSS]) "invalid_method" (cred_Method c) (pt_Method p) in
  let? congestion := patch_text (tuic ["bbr"; "cubic"; "new_reno"]) "invalid_congestion_control"
                       (cred_CongestionControl c) (pt_CongestionControl p) in
  let? relay := patch_text (tuic ["native"; "quic"]) "invalid_udp_relay_mode"
                  (cred_UDPRelayMode c) (pt_UDPRelayMode p) in
  Ok {| cred_Password := password; cred_UUID := uuid; cred_Method := method;
        cred_AlterID := default (cred_AlterID c) (pt_AlterID p); cred_PrivateKey := private;
        cred_PublicKey := public; cred_PresharedKey := patch_plain (cred_PresharedKey c) psk;
        cred_PreSharedKey := patch_plain (cred_PreSharedKey c) psk; cred_LocalAddress := local;
        cred_Reserved := reserved; cred_MTU := mtu;
        cred_DNS := match pt_DNS p with Some l => trimmed_texts l | None => cred_DNS c end;
        cred_CongestionControl := congestion; cred_UDPRelayMode := relay;
        cred_ALPN := match pt_ALPN p with Some l => trimmed_texts l | None => cred_ALPN c end;
        cred_SNI := patch_plain (cred_SNI c) (pt_SNI p);
        cred_DisableSNI := default (cred_DisableSNI c) (pt_DisableSNI p);
        cred_Username := patch_plain (cred_Username c) (pt_Username p);
        cred_Transport := match pt_Transport p with Some m => Some m | None => cred_Transport c end |}.

Definition patch_port (old : Z) (p : option Z) : result DomainError Z :=
  match p with
  | None => Ok old
  | Some v => if (v <=? 0) || (65535 <? v) then Err (NewValidationError "invalid_port") else Ok v
  end%Z.

Definition apply_patch (p : NodePatchRequest) (n : Node) : result DomainError Node :=
  let? name := patch_text is_empty "invalid_display_name" (node_DisplayName n) (pt_DisplayName p) in
  let? server := patch_text is_empty "invalid_server" (node_Server n) (pt_Server p) in
  let? port := patch_port (node_Port n) (pt_Port p) in
  let? creds := patch_credentials (node_Protocol n) p (node_Credentials n) in
  Ok {| node_LogicalID := node_LogicalID n; node_Protocol := node_Protocol n; node_DisplayName := name;
        node_Server := server; node_Port := port; node_Credentials := creds;
        node_Active := node_Active n; node_ConnectionRevision := node_ConnectionRevision n |}.
End Patch.

(** ** [UpdateNodeConnection] *)

Section Edit.
Context `{GoText} `{Sha256} `{ConnectionJSON} `{CredentialsJSON} `{Prefixes}.
Context (env : InvEnv).

Definition set_revision (rev : Z) (n : Node) : Node :=
  {| node_LogicalID := node_LogicalID n; node_Protocol := node_Protocol n;
     node_DisplayName := node_DisplayName n; node_Server := node_Server n; node_Port := node_Port n;
     node_Credentials := node_Credentials n; node_Active := node_Active n;
     node_ConnectionRevision := rev |}.

(** The revision after the current one: that of the head; [var currentRev int64 = 1] if
    there is no head or the query fails. *)
Definition edit_revision (node : Node) (head : option Z) : Z := (
  let cur := default 1 head in
  let cur := if cur <=? 0
             then if node_ConnectionRevision node <=? 0 then 1 else node_ConnectionRevision node
             else cur in
  cur + 1)%Z.

Definition save_override (i : nat) (id field : string) (v : option json) (s : Inventory) : Inventory :=
  match v with
  | Some v => exec_ignored env "override" i (upsert_override id field v) s
  | None => s
  end.

Definition update_row (id : string) (n : Node) (rev : Z) (s : Inventory) : result error Inventory :=
  match iv_nodes s !! id with
  | None => Ok s
  | Some r =>
      upsert_node id {| nr_Protocol := nr_Protocol r; nr_DisplayName := node_DisplayName n;
                        nr_Server := node_Server n; nr_Port := node_Port n;
                        nr_ConfigJSON := marshal_creds (node_Credentials n); nr_Active := nr_Active r;
                        nr_Revision := rev |} s
  end.

(** The body of the edit's transaction; every error in it is ignored. *)
Definition edit_body (id : string) (p : NodePatchRequest) (n : Node) (rev : Z) (s : Inventory) : Inventory :=
  let s := save_override 0 id "server" (JString <$> pt_Server p) s in
  let s := save_override 1 id "port" (JNumber <$> pt_Port p) s in
  let s := save_override 2 id "sni" (JString <$> pt_SNI p) s in
  let s := exec_ignored env "version" 0 (upsert_version keep_old id rev
             {| vr_Config := {| ec_Server := node_Server n; ec_Port := node_Port n;
                                ec_Credentials := marshal_creds (node_Credentials n) |};
                vr_Fingerprint := ComputeConnectionFingerprint (node_Server n) (node_Port n) (node_Credentials n);
                vr_SourceEntryID := None |}) s in
  let s := exec_ignored env "head" 0 (upsert_head id rev) s in
  exec_ignored env "update node" 0 (update_row id n rev) s.

Definition audit_then {A} (i : nat) (action : string) (ok : bool) (k : proc Inventory A) : proc Inventory A :=
  let@ _ := step (ignoring (auditRepo_Record env i action ok)) in k.

Definition UpdateNodeConnection (logicalID : string) (patch : NodePatchRequest) : proc Inventory Node :=
  let id := TrimSpace logicalID in
  let@ _ := refuse_if (is_empty id) (NewValidationError "missing_logical_id") in
  let@ node := attempt (step (ask env "nodes.GetByLogicalID" (λ s, GetByLogicalID s id))) in
  match node with
  | Err e => audit_then 0 "node.connection.update" false (stop e)
  | Ok node =>
      match apply_patch patch node with
      | Err e => reject e
      | Ok updated =>
          let@ updated :=
            (if areConnectionParametersEqual (connection_of node) (connection_of updated)
             then give (set_revision (node_ConnectionRevision node) updated)
             else
               let@ head := step (λ s, (Ok (if answered env "select head" 0 then iv_heads s !! id else None), s)) in
               let rev := edit_revision node head in
               let@ _ := step (ignoring (transaction env "edit" (λ s,
                           Ok (tt, edit_body id patch updated rev s)))) in
               give (set_revision rev updated)) in
          let@ done := attempt (step (UpsertBatch env [updated])) in
          match done with
          | Err e => audit_then 0 "node.connection.update" false (stop e)
          | Ok _ => audit_then 0 "node.connection.update" true
                      (step (ask env "nodes.Detail" (λ s, GetByLogicalID s id)))
          end
      end
  end.

(** ** [OverrideEntryKind] *)

Definition entry_not_found : error := domain_error (NewNotFoundError "entry_not_found").

Definition entries_GetByID (s : Inventory) (id : string) : result error SubscriptionEntry :=
  match List.find (λ e, String.eqb (en_ID e) id) (iv_entries s) with
  | Some e => Ok e
  | None => Err entry_not_found
  end.

Definition override_entry (kind : option string) (anchor reason actor : string) (at_ : time)
    (e : SubscriptionEntry) : SubscriptionEntry :=
  {| en_ID := en_ID e; en_PayloadID := en_PayloadID e; en_SubscriptionID := en_SubscriptionID e;
     en_Ordinal := en_Ordinal e; en_SourceKey := en_SourceKey e; en_RawName := en_RawName e;
     en_Protocol := en_Protocol e; en_Server := en_Server e; en_Port := en_Port e;
     en_EntryKind := en_EntryKind e; en_ClassificationReason := en_ClassificationReason e;
     en_UserKindOverride := kind; en_OverrideAnchor := anchor; en_OverrideReason := reason;
     en_OverrideAt := Some at_; en_ActorRef := actor; en_Conflict := en_Conflict e;
     en_NodeLogicalID := en_NodeLogicalID e; en_CreatedAt := en_CreatedAt e |}.

Definition SetUserOverride (id : string) (kind : option string) (anchor reason actor : string)
    : M Inventory unit := λ s,
  match exec env "entries.SetUserOverride" 0 (λ s,
    if negb (mem_str id (entry_ids s)) then Err entry_not_found
    else if match kind with Some k => negb (EntryKind_IsValid k) | None => false end
    then Err (constraint_failed "CHECK")
    else Ok (with_entries (map (λ e, if String.eqb (en_ID e) id
               then override_entry kind anchor reason actor (rfc3339 (ie_now env)) e else e)
               (iv_entries s)) s)) s with
  | Ok s' => (Ok tt, s')
  | Err e => (Err e, s)
  end.

Definition entry_anchor (e : SubscriptionEntry) : string :=
  if is_empty (en_SourceKey e)
  then en_Protocol e +:+ "|" +:+ en_Server e +:+ "|" +:+ itoa (en_Port e) +:+ "|" +:+ en_RawName e
  else en_SourceKey e.

Definition OverrideEntryKind (id : string) (kind : option string) (reason actor : string)
    : proc Inventory SubscriptionEntry :=
  let@ entry := step (ask env "entries.GetByID" (λ s, entries_GetByID s id)) in
  let@ _ := step (SetUserOverride id kind (entry_anchor entry) reason actor) in
  step (ask env "entries.GetByID again" (λ s, entries_GetByID s id)).
End Edit.

(** ** Subscriptions *)

(** [cron.Parser.Parse], with [Schedule.Next] in the time zone of the server. *)
Class Cron := { cron_parse : string → option (time → time) }.

(** [len(strings.Fields(s))]; [skip] bytes belong to a space that was met. *)
Fixpoint field_count (skip : nat) (inside : bool) (s : string) : nat :=
  match s with
  | "" => 0
  | String _ rest =>
      match skip with
      | S skip => field_count skip false rest
      | O =>
          match strip_one space_seqs s with
          | Some after => field_count (String.length s - String.length after - 1) false rest
          | None => (if inside then 0 else 1) + field_count 0 true rest
          end
      end
  end.

Record CreateSubscriptionCommand : Type := {
  cs_Name : string;
  cs_SourceURLSecretRef : string;
  cs_Enabled : bool;
  cs_Prefix : string;
  cs_RefreshPolicy : RefreshPolicy;
  cs_Config : SubscriptionConfig
}.

Record UpdateSubscriptionCommand : Type := {
  us_ID : string;
  us_Revision : string;
  us_Name : option string;
  us_SourceURLSecretRef : option string;
  us_Enabled : option bool;
  us_Prefix : option string;
  us_RefreshPolicy : option RefreshPolicy;
  us_Config : option SubscriptionConfig
}.

Definition normalizedPolicy (p : RefreshPolicy) : RefreshPolicy :=
  {| rp_IntervalSeconds := or_default (rp_IntervalSeconds p) 86400;
     rp_UserAgentPolicy := rp_UserAgentPolicy p; rp_FetchProxyRef := rp_FetchProxyRef p;
     rp_TimeoutSeconds := or_default (rp_TimeoutSeconds p) 30;
     rp_MaxResponseBytes := or_default (rp_MaxResponseBytes p) (10 * 1024 * 1024) |}%Z.

Section Subscriptions.
Context `{Cron} `{MapOrder}.
Context (env : InvEnv).

Definition validateSchedule (c : SubscriptionConfig) : result DomainError unit :=
  let expression := TrimSpace (sc_CronSchedule c) in
  if is_empty expression then Ok tt
  else if negb (field_count 0 false expression =? 5) then Err (NewValidationError "invalid_cron_schedule")
  else match cron_parse expression with
       | Some _ => Ok tt
       | None => Err (NewValidationError "invalid_cron_schedule")
       end.

Definition validateCreate (c : CreateSubscriptionCommand) : result DomainError unit :=
  reject_if (is_empty (TrimSpace (cs_Name c))) (NewValidationError "invalid_subscription_name") ;;?
  reject_if (is_empty (TrimSpace (cs_SourceURLSecretRef c)))
    (NewValidationError "invalid_source_url_secret_ref").

(** A failure is recorded if possible; a success that cannot be recorded is an error,
    although it took effect. *)
Definition record_failure {A} (action : string) (e : error) : proc Inventory A :=
  let@ _ := step (ignoring (auditRepo_Record env 0 action false)) in stop e.
Definition record_success {A} (action : string) (a : A) : proc Inventory A :=
  let@ _ := step (auditRepo_Record env 0 action true) in give a.
Definition or_record {A B} (action : string) (c : proc Inventory A) (k : A → proc Inventory B)
    : proc Inventory B :=
  let@ r := attempt c in
  match r with Ok a => k a | Err e => record_failure action e end.

Definition Create (c : CreateSubscriptionCommand) : proc Inventory Subscription :=
  match validateSchedule (cs_Config c) with
  | Err e => reject e
  | Ok _ =>
      match validateCreate c with
      | Err e => record_failure "subscription.create" (domain_error e)
      | Ok _ =>
          let sub := {| sub_ID := ie_uuid env "subscription" 0; sub_Name := TrimSpace (cs_Name c);
                        sub_SourceURLSecretRef := TrimSpace (cs_SourceURLSecretRef c);
                        sub_Enabled := cs_Enabled c; sub_Prefix := cs_Prefix c;
                        sub_RefreshPolicy := normalizedPolicy (cs_RefreshPolicy c);
                        sub_Config := cs_Config c; sub_Revision := ie_uuid env "revision" 0;
                        sub_CreatedAt := ie_now env; sub_UpdatedAt := ie_now env |} in
          or_record "subscription.create" (step (subscriptions_Create env sub)) (λ _,
            record_success "subscription.create" sub)
      end
  end.

Definition updated_subscription (c : UpdateSubscriptionCommand) (sub : Subscription) : Subscription :=
  {| sub_ID := sub_ID sub;
     sub_Name := match us_Name c with Some v => TrimSpace v | None => sub_Name sub end;
     sub_SourceURLSecretRef := match us_SourceURLSecretRef c with
                               | Some v => TrimSpace v
                               | None => sub_SourceURLSecretRef sub
                               end;
     sub_Enabled := default (sub_Enabled sub) (us_Enabled c);
     sub_Prefix := default (sub_Prefix sub) (us_Prefix c);
     sub_RefreshPolicy := match us_RefreshPolicy c with
                          | Some p => normalizedPolicy p
                          | None => sub_RefreshPolicy sub
                          end;
     sub_Config := default (sub_Config sub) (us_Config c); sub_Revision := ie_uuid env "revision" 0;
     sub_CreatedAt := sub_CreatedAt sub; sub_UpdatedAt := ie_now env |}.

Definition blank (v : option string) : bool :=
  match v with Some v => is_empty (TrimSpace v) | None => false end.

(** The checks of an update; the last one records no failure. *)
Definition update_checks (c : UpdateSubscriptionCommand) (sub : Subscription) : result error unit :=
  if is_empty (TrimSpace (us_Revision c)) || negb (String.eqb (us_Revision c) (sub_Revision sub))
  then Err (domain_error (NewConflictError "revision_conflict"))
  else if blank (us_Name c) then Err (domain_error (NewValidationError "invalid_subscription_name"))
  else if blank (us_SourceURLSecretRef c)
  then Err (domain_error (NewValidationError "invalid_source_url_secret_ref"))
  else Ok tt.

Definition Update (c : UpdateSubscriptionCommand) : proc Inventory Subscription :=
  or_record "subscription.update"
    (step (ask env "subscriptions.GetByID" (λ s, subscriptions_GetByID s (us_ID c)))) (λ found,
  let sub := found.1 in
  match update_checks c sub with
  | Err e => record_failure "subscription.update" e
  | Ok _ =>
      match match us_Config c with Some cfg => validateSchedule cfg | None => Ok tt end with
      | Err e => reject e
      | Ok _ =>
          let sub := updated_subscription c sub in
          or_record "subscription.update" (step (subscriptions_Update env sub)) (λ _,
            record_success "subscription.update" sub)
      end
  end).

Definition Toggle (id revision : string) (enabled : bool) : proc Inventory Subscription :=
  Update {| us_ID := id; us_Revision := revision; us_Name := None; us_SourceURLSecretRef := None;
            us_Enabled := Some enabled; us_Prefix := None; us_RefreshPolicy := None; us_Config := None |}.

Definition Delete (id : string) : proc Inventory unit :=
  or_record "subscription.delete" (step (subscriptions_Delete env id)) (λ _,
    record_success "subscription.delete" tt).
End Subscriptions.
