(* ===== verification/InventorySamples.v ===== *)
(** * Concrete inventories for the witnesses *)

From S2P Require Import Prelude.
From S2P Require Import GoStrings.
From S2P Require Import Domain.
From S2P Require Import Lifecycle.
From S2P Require Import NodeFilter.
From S2P Require Import Services.
From S2P Require Import Requests.
From S2P Require Import Fetch.
From S2P Require Import Connections.
From S2P Require Import InventoryStore.
From S2P Require Import Refresh.
From S2P Require Import InventoryService.

#[local] Existing Instance ascii_text.
#[local] Existing Instance sample_sha.

(** Credentials with a password and nothing else, as JSON. *)
Definition sample_creds (password : string) : InboundProtocolCredential :=
  set_secrets "" password "" no_credentials.

Definition sample_codec : CredentialsJSON.
Proof.
  refine {| marshal_creds := λ c, "password:" +:+ cred_Password c;
            unmarshal_creds := λ t, match strip_prefix "password:" t with
                                    | Some p => (sample_creds p, true)
                                    | None => (no_credentials, false)
                                    end |}.
  done.
Defined.

Definition sample_connection_json : ConnectionJSON :=
  {| identity_json := λ i, ci_Server i; parameters_json := λ server _ c, server +:+ cred_Password c |}.

Definition sample_scan : EntryScan.
Proof. refine {| scan := λ l, l |}. done. Defined.

#[local] Existing Instance sample_codec.
#[local] Existing Instance sample_connection_json.
#[local] Existing Instance sample_scan.
#[local] Existing Instance key_order.

(** Everything answers; identifiers carry the tag of the request. *)
Definition sample_inv_env (tag : string) (at_ : time) : InvEnv :=
  {| ie_io := λ _ _, None; ie_uuid := λ what i, tag +:+ "-" +:+ what +:+ itoa (Z.of_nat i);
     ie_started := at_; ie_finished := at_; ie_now := at_ |}.

Definition sample_policy : RefreshPolicy :=
  {| rp_IntervalSeconds := 3600; rp_UserAgentPolicy := ""; rp_FetchProxyRef := "";
     rp_TimeoutSeconds := 30; rp_MaxResponseBytes := 1048576 |}%Z.
Definition sample_config : SubscriptionConfig :=
  {| sc_CronSchedule := ""; sc_AutoTest := false; sc_RenameRules := []; sc_FilterRules := [];
     sc_TargetGroups := [] |}.
Definition sample_subscription (id prefix : string) : Subscription :=
  {| sub_ID := id; sub_Name := id; sub_SourceURLSecretRef := "https://example.com/" +:+ id;
     sub_Enabled := true; sub_Prefix := prefix; sub_RefreshPolicy := sample_policy;
     sub_Config := sample_config; sub_Revision := "r1"; sub_CreatedAt := 0; sub_UpdatedAt := 0 |}%Z.

Definition sample_item (id name server password : string) : ParsedNode :=
  {| it_Node := {| node_LogicalID := id; node_Protocol := ProtocolTrojan; node_DisplayName := name;
                   node_Server := server; node_Port := 443; node_Credentials := sample_creds password;
                   node_Active := true; node_ConnectionRevision := 0 |};
     it_Transport := None |}%Z.

Definition sample_response : Response :=
  {| rsp_StatusCode := 200; rsp_Body := "body"; rsp_ContentDigest := "digest"; rsp_ContentType := "";
     rsp_ETag := ""; rsp_LastModified := "" |}%Z.

Definition sample_payload (items : list ParsedNode) : ExtractResult :=
  {| ex_Items := items; ex_Rejected := 0 |}.

(** The state after a refresh of [sub] with these items. *)
Definition refreshed (tag : string) (at_ : time) (sub : Subscription) (items : list ParsedNode)
    (s : Inventory) : Inventory :=
  (transaction (sample_inv_env tag at_) "reconcile"
     (refresh_body (sample_inv_env tag at_) sub sample_response (sample_payload items)
        FetchOutcomeSuccess) s).2.

Definition sub_a := sample_subscription "a" "[A] ".
Definition sub_b := sample_subscription "b" "".

(** Two subscriptions, and what they have imported: [b] shares "x" and has "y". *)
Definition two_subs : Inventory :=
  with_subs (<[ "b" := sub_b ]> {[ "a" := sub_a ]}) empty_inventory.
Definition shared_inventory : Inventory :=
  refreshed "t2" (2 * second) sub_b
    [sample_item "x" "X" "x.example" "p"; sample_item "y" "Y" "y.example" "q"]
    (refreshed "t1" (1 * second) sub_a [sample_item "x" "X" "x.example" "p"] two_subs).
