(* ===== verification/RefreshProperties.v ===== *)
(** * What a refresh guarantees

    The loop of [Refresh] writes one node per item.  [tracked] nodes are those that the
    subscription has or had, and those that other subscriptions have; the loop keeps
    [kept] for each of them: it stays, its flag stays, and its revision moves exactly
    when its connection does, which for a shared node is never. *)

From S2P Require Import Prelude.
From S2P Require Import GoStrings.
From S2P Require Import Domain.
From S2P Require Import Lifecycle.
From S2P Require Import NodeFilter.
From S2P Require Import Services.
From S2P Require Import Requests.
From S2P Require Import Fetch.
From S2P Require Import Connections.
From S2P Require Import InventoryStore.
From S2P Require Import Refresh.
From S2P Require Import InventoryService.
From S2P Require Import InventorySamples.

(** ** Statements *)

Lemma exec_answers env label i f s s' : exec env label i f s = Ok s' → f s = Ok s'.
Proof. unfold exec. by destruct (ie_io env label i). Qed.

(** An ignored statement has run, or not. *)
Lemma exec_ignored_cases env label i f s :
  exec_ignored env label i f s = s ∨ f s = Ok (exec_ignored env label i f s).
Proof.
  unfold exec_ignored. destruct (exec env label i f s) as [s'|e] eqn:He; [right|by left].
  by eapply exec_answers.
Qed.

Lemma transaction_ok {A} env label (body : Inventory → result error (A * Inventory)) s a s' :
  transaction env label body s = (Ok a, s') → body s = Ok (a, s').
Proof.
  unfold transaction. destruct (ie_io env label 0); [done|].
  destruct (body s) as [[b s1]|e]; [|done]. destruct (ie_io env label 1); [done|].
  by intros [= -> ->].
Qed.

Lemma transaction_err {A} env label (body : Inventory → result error (A * Inventory)) s e s' :
  transaction env label body s = (Err e, s') → s' = s.
Proof.
  unfold transaction. destruct (ie_io env label 0); [by intros [= _ <-]|].
  destruct (body s) as [[b s1]|e1]; [|by intros [= _ <-]].
  destruct (ie_io env label 1); [by intros [= _ <-]|done].
Qed.

(** What the statements on versions leave alone. *)
Definition ledger (s : Inventory) :=
  (iv_subs s, iv_fetches s, iv_payloads s, iv_entries s, iv_nodes s, iv_sources s, iv_history s,
   iv_overrides s).

Lemma upsert_version_ledger keep id rev row s s' :
  upsert_version keep id rev row s = Ok s' → ledger s' = ledger s ∧ iv_heads s' = iv_heads s.
Proof. unfold upsert_version. case_match; [done|]. by intros [= <-]. Qed.

Lemma upsert_head_ledger id rev s s' :
  upsert_head id rev s = Ok s' → ledger s' = ledger s ∧ iv_versions s' = iv_versions s.
Proof. unfold upsert_head. case_match; [done|]. by intros [= <-]. Qed.

Section Frames.
Context `{GoText} `{Sha256} `{MapOrder} `{ConnectionJSON} `{CredentialsJSON} `{EntryScan}.
Context (env : InvEnv).

Lemma write_version_ledger i entry id rev n s :
  ledger (write_version env i entry id rev n s) = ledger s.
Proof.
  unfold write_version. case_match; [|done].
  match goal with |- context [exec_ignored ?e ?l ?i ?f ?s] =>
    destruct (exec_ignored_cases e l i f s) as [->|Hu] end; [done|].
  by apply upsert_version_ledger in Hu as [? _].
Qed.

Lemma write_version_head_ledger i entry id rev n s :
  ledger (write_version_head env i entry id rev n s) = ledger s.
Proof.
  unfold write_version_head. case_match; [|done].
  match goal with |- context [exec_ignored ?e ?l ?i ?f ?s] =>
    destruct (exec_ignored_cases e l i f s) as [->|Hu] end; [apply write_version_ledger|].
  apply upsert_head_ledger in Hu as [-> _]. apply write_version_ledger.
Qed.

(** Sources, as a function. *)
Lemma owners_insert src s n m o :
  owners (with_sources (<[n := o]> src) s) m = if decide (m = n) then o else default ∅ (src !! m).
Proof.
  unfold owners. simpl. destruct (decide (m = n)) as [->|Hm].
  - by rewrite lookup_insert_eq.
  - by rewrite lookup_insert_ne by done.
Qed.

Lemma owners_ledger s s' : ledger s' = ledger s → owners s' = owners s.
Proof. intros [= _ _ _ _ _ Hs _ _]. unfold owners. by rewrite Hs. Qed.

Lemma nodes_ledger s s' : ledger s' = ledger s → iv_nodes s' = iv_nodes s.
Proof. by intros [=]. Qed.

(** Nodes the same, and sources except that of [sub] the same. *)
Definition only_sub (sub : string) (s s' : Inventory) : Prop :=
  iv_nodes s' = iv_nodes s ∧ (∀ m k, k ≠ sub → owners s' m !! k = owners s m !! k) ∧
  ∀ m, owners s' m !! sub = owners s m !! sub ∨ owners s' m !! sub = None.

Lemma only_sub_refl sub s : only_sub sub s s.
Proof. split; [done|]. eauto. Qed.

Lemma only_sub_ledger sub s1 s2 s3 : ledger s3 = ledger s2 → only_sub sub s1 s2 → only_sub sub s1 s3.
Proof.
  intros Hl. unfold only_sub. by rewrite (owners_ledger _ _ Hl), (nodes_ledger _ _ Hl).
Qed.

Lemma unlink_only_sub r i x s s' :
  unlink env r i x s = Ok s' → only_sub (sub_ID (rf_sub r)) s s'.
Proof.
  unfold unlink. intros Hu. apply let_ok in Hu as (s1 & Ha1 & Ha2).
  assert (iv_nodes s1 = iv_nodes s ∧ iv_sources s1 = iv_sources s) as [Hn Hs].
  { destruct (answered env "history table" (S i)); [|by injection Ha1 as <-].
    apply exec_answers in Ha1. unfold upsert_history in Ha1.
    destruct (negb _); [done|]. by injection Ha1 as <-. }
  assert (owners s1 = owners s) as Ho by (unfold owners; by rewrite Hs).
  destruct (String.eqb _ FetchOutcomeSuccess); [|injection Ha2 as <-].
  - apply exec_answers in Ha2. unfold delete_source in Ha2. injection Ha2 as <-. simpl. split; [done|].
    split; intros m; [intros k Hk|]; rewrite owners_insert; destruct (decide (m = _)) as [->|];
      rewrite ?lookup_delete_ne, ?lookup_delete_eq, ?Ho by done; unfold owners; rewrite ?Hs; auto.
  - unfold only_sub. rewrite Ho. eauto.
Qed.

Lemma place_matched_only_sub r i entry it x n s t s' :
  place_matched env r i entry it x n s = Ok (t, s') → only_sub (sub_ID (rf_sub r)) s s'.
Proof.
  unfold place_matched. destruct (areConnectionParametersEqual _ _).
  { intros [= _ <-]. eapply only_sub_ledger; [apply write_version_ledger|apply only_sub_refl]. }
  destruct (ie_io _ _ _); [done|]. intros Hp. apply let_ok in Hp as ([id s1] & Ha1 & [= _ <-]).
  eapply only_sub_ledger; [apply write_version_head_ledger|]. simpl.
  destruct (others_own _ _ _); [|injection Ha1 as _ <-; apply only_sub_refl].
  apply let_ok in Ha1 as (s2 & Ha1 & [= _ <-]). by eapply unlink_only_sub.
Qed.

Lemma place_only_sub r i entry it s t n s' :
  place env r i entry it s = Ok (t, n, s') → only_sub (sub_ID (rf_sub r)) s s'.
Proof.
  unfold place. destruct (match_existing r it) as [x|].
  - intros Hp. apply let_ok in Hp as ([t1 s1] & Hp & [= <- <- <-]).
    by eapply place_matched_only_sub.
  - unfold place_unmatched. intros Hp. apply let_ok in Hp as ([t1 s1] & Hp & [= <- <- <-]).
    apply let_ok in Hp as (t2 & _ & [= <- <-]).
    eapply only_sub_ledger; [apply write_version_head_ledger|apply only_sub_refl].
Qed.
End Frames.

(** ** What the transaction knows of the subscription's nodes *)

Section Matching.
Context `{GoText} `{Sha256} `{MapOrder} `{ConnectionJSON} `{CredentialsJSON} `{EntryScan}.
Context (r : refresh) (s1 : Inventory) (history : bool).
Context (Hex : rf_existing r = existing_nodes s1 (sub_ID (rf_sub r)) history).

Lemma existing_spec m x :
  rf_existing r !! m = Some x →
  ∃ row, iv_nodes s1 !! m = Some row ∧ xn_LogicalID x = m ∧ xn_Connection x = row_connection row ∧
    xn_Active x = nr_Active row ∧ xn_Revision x = nr_Revision row.
Proof.
  rewrite Hex. unfold existing_nodes. rewrite map_lookup_imap.
  destruct (iv_nodes s1 !! m) as [row|]; [|done]. simpl. case_match; [|done].
  intros [= <-]. by exists row.
Qed.

Lemma unique_by_name_existing key x :
  unique_by_name (rf_existing r) key = Some x → rf_existing r !! xn_LogicalID x = Some x.
Proof.
  unfold unique_by_name. intros Hu.
  assert (x ∈ by_name_proto (rf_existing r) key) as Hx.
  { destruct (by_name_proto _ _) as [|y [|]]; simplify_eq; set_solver. }
  unfold by_name_proto in Hx. apply list_elem_of_In, filter_In, proj1, list_elem_of_In in Hx.
  apply list_elem_of_fmap in Hx as ([m y] & -> & Hy). simpl. apply elem_of_map_to_list in Hy.
  by destruct (existing_spec _ _ Hy) as (? & _ & -> & _).
Qed.

Lemma match_existing_some it x :
  match_existing r it = Some x → rf_existing r !! xn_LogicalID x = Some x.
Proof.
  unfold match_existing, by_logical_id.
  assert (∀ m, rf_existing r !! m = Some x → rf_existing r !! xn_LogicalID x = Some x) as Hkey.
  { intros m Hm. by destruct (existing_spec _ _ Hm) as (? & _ & -> & _). }
  intros Hx.
  destruct (if String.eqb (node_LogicalID (it_Node it)) "" then None
            else rf_existing r !! node_LogicalID (it_Node it)) as [y|] eqn:H1x.
  { injection Hx as ->. destruct (String.eqb _ _); [done|]. by eapply Hkey. }
  destruct (if incomingByNameProto _ _ =? 1 then _ else None) as [y|] eqn:H2x.
  { injection Hx as ->. destruct (_ =? 1); [|done]. by eapply unique_by_name_existing. }
  destruct (rf_existing r !! computeScopedLogicalID _ _) as [y|] eqn:H3x; [injection Hx as ->|];
    by eapply Hkey.
Qed.

Lemma match_existing_none it :
  match_existing r it = None →
  rf_existing r !! candidate_id it = None.
Proof.
  unfold match_existing. destruct (by_logical_id _ _); [done|].
  destruct (if _ =? 1 then _ else None); [done|]. by destruct (rf_existing r !! computeScopedLogicalID _ _).
Qed.

End Matching.

(** ** The loop over the items *)

Section Loop.
Context `{GoText} `{Sha256} `{MapOrder} `{ConnectionJSON} `{CredentialsJSON} `{EntryScan}.
Context (env : InvEnv) (r : refresh) (s1 : Inventory) (history : bool).

Notation sub := (sub_ID (rf_sub r)).

(** The row of [n] has the connection of [n]: JSON keeps what the comparison looks at. *)
Definition stored_faithfully (n : Node) : Prop :=
  ∀ rev, same_connection (row_connection (row_of n rev)) (connection_of n).

(** The items survive storage, with and without overrides, and an ID determines a
    connection; the queries for other owners are answered. *)
Record well_fed : Prop := {
  wf_existing : rf_existing r = existing_nodes s1 sub history;
  wf_answers : ∀ i, answered env "other sub" i = true;
  wf_stored : ∀ it, it ∈ rf_items r → stored_faithfully (it_Node it);
  wf_overridden : ∀ it x, it ∈ rf_items r →
    stored_faithfully (apply_overrides (default ∅ (rf_fields r !! x)) (it_Node it));
  wf_ids : ∀ it it', it ∈ rf_items r → it' ∈ rf_items r → candidate_id it = candidate_id it' →
    same_connection (connection_of (it_Node it)) (connection_of (it_Node it'))
}.
Context (Hfed : well_fed).

Definition shared (m : string) : Prop := ∃ k, k ≠ sub ∧ is_Some (owners s1 m !! k).
Definition scoped_id (m : string) : Prop :=
  ∃ it, it ∈ rf_items r ∧ m = computeScopedLogicalID sub (candidate_id it).
Definition tracked (m : string) (row : NodeRow) : Prop :=
  iv_nodes s1 !! m = Some row ∧ ¬ scoped_id m ∧ (shared m ∨ is_Some (rf_existing r !! m)).

(** The revision and the connection [c] of a row, against those of the row before. *)
Definition moved (m : string) (row0 : NodeRow) (rev : Z) (c : Connection) : Prop :=
  (rev = nr_Revision row0 ∧ same_connection c (row_connection row0)) ∨
  (¬ shared m ∧ rev = (nr_Revision row0 + 1)%Z ∧ ¬ same_connection c (row_connection row0)).
Definition kept (m : string) (row0 : NodeRow) (s : Inventory) : Prop :=
  ∃ row, iv_nodes s !! m = Some row ∧ nr_Active row = nr_Active row0 ∧
    moved m row0 (nr_Revision row) (row_connection row).

(** A shared node that this loop has linked has the connection of the item of its ID. *)
Definition newly_linked (m : string) (s : Inventory) : Prop :=
  is_Some (owners s m !! sub) → ∃ it row, it ∈ rf_items r ∧ candidate_id it = m ∧
    iv_nodes s !! m = Some row ∧ same_connection (row_connection row) (connection_of (it_Node it)).

Record loop_ok (s : Inventory) : Prop := {
  lo_owners : ∀ m k, k ≠ sub → owners s m !! k = owners s1 m !! k;
  lo_kept : ∀ m row0, tracked m row0 → kept m row0 s;
  lo_linked : ∀ m row0, tracked m row0 → rf_existing r !! m = None → newly_linked m s
}.

Lemma linked_existing m row :
  iv_nodes s1 !! m = Some row → is_Some (owners s1 m !! sub) → is_Some (rf_existing r !! m).
Proof.
  intros Hm Ho. rewrite (wf_existing Hfed). unfold existing_nodes. rewrite map_lookup_imap, Hm. simpl.
  by rewrite bool_decide_eq_true_2.
Qed.

(** Other owners cannot go away. *)
Lemma shared_others_own s m : loop_ok s → shared m → others_own s sub m = true.
Proof.
  intros Hl (k & Hk & [f Hf]). unfold others_own. rewrite bool_decide_eq_false_2; [done|].
  intros He. assert (delete sub (owners s m) !! k = None) as Hn by (by rewrite He).
  rewrite lookup_delete_ne, (lo_owners _ Hl) in Hn by done. congruence.
Qed.

(** Where a tracked node becomes a target. *)
Definition placed (m : string) (row0 : NodeRow) (it : ParsedNode) (t : target) (n : Node) : Prop :=
  tg_Active t = nr_Active row0 ∧ moved m row0 (tg_Revision t) (connection_of n) ∧
  (rf_existing r !! m = None → candidate_id it = m ∧ n = it_Node it).

Lemma place_matched_placed i entry it x n s t s' m row0 :
  loop_ok s → it ∈ rf_items r → rf_existing r !! xn_LogicalID x = Some x →
  place_matched env r i entry it x n s = Ok (t, s') → tracked m row0 → tg_ID t = m →
  placed m row0 it t n.
Proof.
  intros Hl Hit Hx Hp (Hm & Hsc & Htr) <-.
  destruct (existing_spec _ _ _ (wf_existing Hfed) _ _ Hx) as (row & Hrow & _ & Hc & Ha & Hr).
  unfold place_matched in Hp. destruct (areConnectionParametersEqual _ _) eqn:Heq.
  { injection Hp as <- _. simpl in *. simplify_eq. split; [done|]. split; [|by rewrite Hx].
    left. split; [done|]. symmetry. by rewrite <- Hc. }
  destruct (ie_io _ _ _); [done|]. apply let_ok in Hp as ([id s2] & Hi & [= <- _]). simpl in *.
  destruct (others_own s sub (xn_LogicalID x)) eqn:Ho.
  { apply let_ok in Hi as (s3 & _ & [= <- _]). exfalso. apply Hsc. by exists it. }
  injection Hi as <- _. simplify_eq. split; [done|]. split; [|by rewrite Hx]. right. split.
  - intros Hsh. pose proof (shared_others_own s _ Hl Hsh). congruence.
  - split; [simpl; congruence|]. intros Hs. symmetry in Hs.
    unfold same_connection in Hs. rewrite <- Hc in Hs. congruence.
Qed.

Lemma unmatched_target_placed i it s t m row0 :
  loop_ok s → it ∈ rf_items r → match_existing r it = None →
  unmatched_target env r i it s = Ok t → tracked m row0 → tg_ID t = m → placed m row0 it t (it_Node it).
Proof.
  intros Hl Hit Hnone Hp Htr <-. pose proof (match_existing_none r it Hnone) as Hex.
  assert (tg_ID t ≠ computeScopedLogicalID sub (candidate_id it)) as Hns.
  { intros Heq. destruct Htr as (_ & Hsc & _). apply Hsc. by exists it. }
  unfold unmatched_target in Hp. destruct (ie_io _ _ _); [done|].
  destruct (iv_nodes s !! candidate_id it) as [row|] eqn:Hrow.
  2: { injection Hp as <-. simpl in *. by destruct (lo_kept _ Hl _ _ Htr) as (row & ? & _); congruence. }
  match type of Hp with Ok (if String.eqb (tg_ID ?t0) _ then _ else _) = _ => set (t1 := t0) in Hp end.
  destruct (String.eqb (tg_ID t1) _) eqn:Hsc1.
  { exfalso. apply Hns. injection Hp as <-. unfold place_scoped. by case_match. }
  apply String.eqb_neq in Hsc1. injection Hp as <-.
  assert (tg_ID t1 = candidate_id it) as Hid.
  { unfold t1 in *. repeat case_match; done. }
  rewrite Hid in Htr. destruct Htr as (Hm & Hsc & Hor).
  assert (shared (candidate_id it)) as Hsh. { destruct Hor as [|[? Hsome]]; [done|congruence]. }
  destruct (lo_kept s Hl (candidate_id it) row0) as (row' & Hrow' & Hact & Hmv); [done|].
  assert (row' = row) as -> by congruence.
  destruct Hmv as [[Hrev Hconn]|(? & _)]; [|done].
  assert (tg_Active t1 = nr_Active row0 ∧ tg_Revision t1 = nr_Revision row0 ∧
    same_connection (connection_of (it_Node it)) (row_connection row0)) as (? & ? & ?).
  { revert Hid Hsc1. unfold t1. destruct (_ && bool_decide _) eqn:Hsame; intros _ Hsc1.
    - apply andb_true_iff in Hsame as [_ Hsame%bool_decide_eq_true].
      destruct (lo_linked s Hl _ row0 ltac:(done) Hex Hsame) as (it' & row' & Hit' & Hc' & Hr' & Hs').
      simpl. split; [done|]. split; [done|]. assert (row' = row) as -> by congruence.
      transitivity (connection_of (it_Node it')); [by apply (wf_ids Hfed)|].
      transitivity (row_connection row); [by symmetry|done].
    - rewrite (shared_others_own s _ Hl Hsh), (wf_answers Hfed) in *. simpl in *.
      destruct (areConnectionParametersEqual _ _) eqn:Heq; simpl in *; [|done].
      split; [done|]. split; [done|]. transitivity (row_connection row); [|done]. by symmetry. }
  rewrite Hid. split; [done|]. split; [by left|done].
Qed.

Lemma place_placed i entry it s t n s' m row0 :
  loop_ok s → it ∈ rf_items r → place env r i entry it s = Ok (t, n, s') → tracked m row0 →
  tg_ID t = m → placed m row0 it t n.
Proof.
  intros Hl Hit. unfold place. destruct (match_existing r it) as [x|] eqn:Hm; intros Hp.
  - apply let_ok in Hp as ([t1 s2] & Hp & [= <- <- <-]).
    eapply place_matched_placed; [done|done| |done]. eapply match_existing_some; [apply Hfed|done].
  - apply let_ok in Hp as ([t1 s2] & Hp & [= <- <- <-]).
    apply let_ok in Hp as (t2 & Hp & [= <- <-]). by eapply unmatched_target_placed.
Qed.

(** The node an item ends with is stored faithfully. *)
Lemma place_faithful i entry it s t n s' :
  it ∈ rf_items r → place env r i entry it s = Ok (t, n, s') → stored_faithfully n.
Proof.
  intros Hit. unfold place. destruct (match_existing r it) as [x|]; intros Hp;
    apply let_ok in Hp as ([t1 s2] & _ & [= <- <- <-]); [by apply (wf_overridden Hfed)|by apply (wf_stored Hfed)].
Qed.

Lemma loop_ok_only_sub s s' : loop_ok s → only_sub sub s s' → loop_ok s'.
Proof.
  intros Hl (Hn & Ho & Hs). split.
  - intros m k Hk. rewrite Ho by done. by apply (lo_owners _ Hl).
  - intros m row0 Ht. unfold kept. rewrite Hn. by apply (lo_kept _ Hl).
  - intros m row0 Ht Hex Hlink. rewrite Hn. destruct (Hs m) as [Heq|Heq].
    + rewrite Heq in Hlink. by apply (lo_linked _ Hl m row0).
    + rewrite Heq in Hlink. by destruct Hlink.
Qed.

Definition target_row (t : target) (n : Node) : NodeRow :=
  set_active (tg_Active t) (row_of n (tg_Revision t)).

Lemma write_node_effect i t n acc acc' :
  write_node env r i t n acc = Ok acc' →
  iv_nodes acc'.2 = <[tg_ID t := target_row t n]> (iv_nodes acc.2) ∧
  (∀ m k, k ≠ sub → owners acc'.2 m !! k = owners acc.2 m !! k) ∧
  (∀ m, m ≠ tg_ID t → owners acc'.2 m = owners acc.2 m).
Proof.
  unfold write_node. intros Hw. apply let_ok in Hw as (s2 & Hu%exec_answers & Hw).
  unfold upsert_node in Hu. destruct (_ <=? 0)%Z; [done|]. injection Hu as <-.
  destruct (bool_decide _); [injection Hw as <-; by simpl|].
  apply let_ok in Hw as (s3 & Hu%exec_answers & [= <-]). unfold upsert_source in Hu.
  destruct (negb _); [done|]. injection Hu as <-. split; [done|]. cbn [snd].
  assert (∀ m, owners (with_nodes (<[tg_ID t := target_row t n]> (iv_nodes acc.2)) acc.2) m =
               owners acc.2 m) as Hsame by done.
  split; intros m; [intros k Hk|intros Hm]; rewrite owners_insert; case_decide; subst; try done;
    by rewrite lookup_insert_ne by done.
Qed.

Lemma write_entry_ledger i e s s' :
  write_entry env i e s = Ok s' →
  iv_nodes s' = iv_nodes s ∧ iv_sources s' = iv_sources s ∧ iv_history s' = iv_history s.
Proof.
  unfold write_entry. destruct (answered _ _ _); [|by intros [= <-]]. intros He%exec_answers.
  unfold insert_entry in He. destruct (mem_str _ _); [done|]. destruct (negb (valid_entry_kind _)); [done|].
  destruct (negb _); [done|]. by destruct (existsb _ _); injection He as <-.
Qed.

Lemma write_entry_only_sub i e s s' : write_entry env i e s = Ok s' → only_sub sub s s'.
Proof.
  intros (Hn & Hs & _)%write_entry_ledger. unfold only_sub, owners. rewrite Hn, Hs. eauto.
Qed.

(** A faithful write of a target at which every tracked node is [placed]. *)
Lemma write_node_ok i it t n acc acc' :
  loop_ok acc.2 → it ∈ rf_items r → stored_faithfully n →
  (∀ m row0, tracked m row0 → tg_ID t = m → placed m row0 it t n) →
  write_node env r i t n acc = Ok acc' → loop_ok acc'.2.
Proof.
  intros Hl Hit Hf Hp Hw. apply write_node_effect in Hw as (Hn & Ho & Hm).
  assert (same_connection (row_connection (target_row t n)) (connection_of n)) as Hc by apply Hf.
  split.
  - intros m k Hk. rewrite Ho by done. by apply (lo_owners _ Hl).
  - intros m row0 Ht. unfold kept. rewrite Hn. destruct (decide (m = tg_ID t)) as [->|Hne].
    + rewrite lookup_insert_eq. exists (target_row t n). split; [done|].
      destruct (Hp _ _ Ht eq_refl) as (Ha & Hmv & _). split; [done|]. simpl.
      destruct Hmv as [[Hr Hs]|(Hsh & Hr & Hs)]; [left|right]; (split; [done|]).
      * by etrans.
      * split; [done|]. intros Hx. apply Hs. etrans; [by symmetry|done].
    + rewrite lookup_insert_ne by done. by apply (lo_kept _ Hl).
  - intros m row0 Ht Hex Hlink. rewrite Hn. destruct (decide (m = tg_ID t)) as [->|Hne].
    + destruct (Hp _ _ Ht eq_refl) as (_ & _ & Hcand). destruct (Hcand Hex) as [Hid ->].
      exists it, (target_row t (it_Node it)). by rewrite lookup_insert_eq.
    + rewrite lookup_insert_ne by done. rewrite Hm in Hlink by done. by apply (lo_linked _ Hl m row0).
Qed.

Lemma reconcile_item_ok acc item acc' :
  loop_ok acc.2 → item.2 ∈ rf_items r → reconcile_item env r acc item = Ok acc' → loop_ok acc'.2.
Proof.
  destruct item as [i it]. intros Hl Hit. unfold reconcile_item. destruct (String.eqb _ _).
  { intros Hr. apply let_ok in Hr as (s & Hw & [= <-]). simpl.
    eapply loop_ok_only_sub; [done|]. by eapply write_entry_only_sub. }
  intros Hr. apply let_ok in Hr as ([[t n] s] & Hp & Hr). apply let_ok in Hr as (acc2 & Hw & Hr).
  apply let_ok in Hr as (s3 & He & [= <-]). simpl in *.
  eapply loop_ok_only_sub; [|by eapply write_entry_only_sub].
  eapply (write_node_ok i it t n (acc.1, s)); [| done | by eapply place_faithful | | done].
  - simpl. eapply loop_ok_only_sub; [done|]. by eapply place_only_sub.
  - intros m row0 Ht Hid. by eapply place_placed.
Qed.

Lemma loop_start : loop_ok s1.
Proof.
  split; [done| |].
  - intros m row0 Ht. exists row0. split; [apply Ht|]. split; [done|]. by left.
  - intros m row0 (Hm & _) Hex Hlink. destruct (linked_existing m row0 Hm Hlink). congruence.
Qed.

Lemma loop_end acc :
  fold_res (reconcile_item env r) (∅, s1) (indexed (rf_items r)) = Ok acc → loop_ok acc.2.
Proof.
  intros Hf. eapply (fold_res_inv (λ acc : progress, loop_ok acc.2) (reconcile_item env r) (∅, s1));
    [apply loop_start| |exact Hf].
  intros acc1 [i it] acc2 Hin Hl Hr. eapply (reconcile_item_ok acc1 (i, it)); [done| |done]. simpl.
  unfold indexed in Hin. apply elem_of_lookup_imap in Hin as (j & x & [= -> ->] & Hj).
  by eapply list_elem_of_lookup_2.
Qed.
End Loop.

(** ** Around the loop *)

(** Only names change. *)
Definition renamed (s s' : Inventory) : Prop :=
  iv_sources s' = iv_sources s ∧ iv_heads s' = iv_heads s ∧ iv_versions s' = iv_versions s ∧
  iv_entries s' = iv_entries s ∧ iv_history s' = iv_history s ∧ iv_subs s' = iv_subs s ∧
  iv_fetches s' = iv_fetches s ∧ iv_payloads s' = iv_payloads s ∧ iv_overrides s' = iv_overrides s ∧
  ∀ m, ∃ f, iv_nodes s' !! m = f <$> iv_nodes s !! m ∧ ∀ row, ∃ name, f row = set_display_name name row.

Lemma set_display_name_id row : set_display_name (nr_DisplayName row) row = row.
Proof. by destruct row. Qed.

#[export] Instance renamed_preorder : PreOrder renamed.
Proof.
  split.
  - intros s. repeat (split; [done|]). intros m. exists id. split; [by rewrite option_fmap_id|].
    intros row. exists (nr_DisplayName row). by rewrite set_display_name_id.
  - intros s1 s2 s3 (?&?&?&?&?&?&?&?&?&Hn1) (?&?&?&?&?&?&?&?&?&Hn2).
    repeat (split; [congruence|]). intros m. destruct (Hn1 m) as (f & Hf & Hff), (Hn2 m) as (g & Hg & Hgg).
    exists (g ∘ f). split; [by rewrite Hg, Hf, option_fmap_compose|]. intros row. simpl.
    destruct (Hff row) as [a ->]. destruct (Hgg (set_display_name a row)) as [b ->]. by exists b.
Qed.

Lemma recompute_name_renamed prior s node s' : recompute_name prior s node = Ok s' → renamed s s'.
Proof.
  unfold recompute_name. intros Hr. apply let_ok in Hr as (name & _ & [= <-]).
  destruct name as [name|]; [|reflexivity]. repeat (split; [done|]). intros m. simpl.
  destruct (decide (m = node)) as [->|Hm].
  - exists (set_display_name name). rewrite lookup_alter_eq. eauto.
  - exists id. rewrite lookup_alter_ne, option_fmap_id by done. split; [done|]. intros row.
    exists (nr_DisplayName row). by rewrite set_display_name_id.
Qed.

Lemma names_renamed ids prior s s' : RecomputeNodeDisplayNames ids prior s = Ok s' → renamed s s'.
Proof.
  unfold RecomputeNodeDisplayNames. intros Hr. apply let_ok in Hr as ([seen s2] & Hf & [= <-]).
  eapply (fold_res_inv (λ acc : list string * Inventory, renamed s acc.2)) in Hf; [done|reflexivity|].
  intros [seen1 s3] id acc' _ Hs. simpl in *. destruct (mem_str id seen1); [by intros [= <-]|].
  intros Hn. apply let_ok in Hn as (s4 & Hn & [= <-]). simpl. etrans; [done|].
  by eapply recompute_name_renamed.
Qed.

(** Only the history changes. *)
Lemma archive_history env label cause kind sub key i rows s s' :
  archive env label cause kind sub key i rows s = Ok s' →
  iv_nodes s' = iv_nodes s ∧ iv_sources s' = iv_sources s ∧ iv_heads s' = iv_heads s ∧
  iv_versions s' = iv_versions s ∧ iv_entries s' = iv_entries s ∧ iv_subs s' = iv_subs s ∧
  iv_fetches s' = iv_fetches s ∧ iv_payloads s' = iv_payloads s ∧ iv_overrides s' = iv_overrides s.
Proof.
  revert i s. induction rows as [|[n f] rows IH]; intros i s; simpl; [by intros [= <-]|].
  intros Ha. apply let_ok in Ha as (s2 & Hu%exec_answers & Ha). apply IH in Ha.
  unfold upsert_history in Hu. destruct (negb _); [done|]. by injection Hu as <-.
Qed.

Section Body.
Context `{GoText} `{Sha256} `{MapOrder} `{ConnectionJSON} `{CredentialsJSON} `{EntryScan}.
Context (env : InvEnv).

Lemma prune_effect r s s' :
  prune env r s = Ok s' →
  iv_nodes s' = iv_nodes s ∧ iv_heads s' = iv_heads s ∧ iv_versions s' = iv_versions s ∧
  iv_entries s' = iv_entries s ∧
  ∀ m, owners s' m = if String.eqb (rf_outcome r) FetchOutcomeSuccess then
         match owners s m !! sub_ID (rf_sub r) with
         | Some f => if String.eqb f (rf_fetchID r) then owners s m else delete (sub_ID (rf_sub r)) (owners s m)
         | None => owners s m
         end else owners s m.
Proof.
  unfold prune. destruct (String.eqb (rf_outcome r) _); simpl; [|by intros [= <-]].
  intros Hp. apply let_ok in Hp as (s2 & Ha & Hp%exec_answers). injection Hp as <-.
  assert (iv_nodes s2 = iv_nodes s ∧ iv_sources s2 = iv_sources s ∧ iv_heads s2 = iv_heads s ∧
          iv_versions s2 = iv_versions s ∧ iv_entries s2 = iv_entries s) as (? & Hs & ? & ? & ?).
  { destruct (answered _ _ _ && _ && _); [|by injection Ha as <-].
    apply archive_history in Ha. tauto. }
  repeat (split; [done|]). intros m. unfold owners. simpl. rewrite lookup_fmap, Hs.
  destruct (iv_sources s !! m) as [o|]; simpl; [|done]. destruct (o !! _); [|done].
  by destruct (String.eqb _ _).
Qed.

(** [start_refresh] adds a fetch and a payload. *)
Lemma start_refresh_effect sub resp ext outcome s r s1 :
  start_refresh env sub resp ext outcome s = Ok (r, s1) →
  (iv_nodes s1 = iv_nodes s ∧ iv_sources s1 = iv_sources s ∧ iv_history s1 = iv_history s ∧
   iv_entries s1 = iv_entries s ∧ iv_heads s1 = iv_heads s ∧ iv_versions s1 = iv_versions s ∧
   iv_overrides s1 = iv_overrides s) ∧
  rf_sub r = sub ∧ rf_items r = ex_Items ext ∧ rf_outcome r = outcome ∧
  rf_fetchID r = ie_uuid env "fetch" 0 ∧ rf_payloadID r = "payload_" +:+ ie_uuid env "payload" 0 ∧
  rf_existing r = existing_nodes s1 (sub_ID sub) (answered env "history table pre" 0) ∧
  rf_fields r = (if answered env "field overrides" 0 then iv_overrides s else ∅).
Proof.
  unfold start_refresh. intros Hr. apply let_ok in Hr as (s2 & Hf%exec_answers & Hr).
  apply let_ok in Hr as (s3 & Hp%exec_answers & Hr). apply let_ok in Hr as (s4 & He%exec_answers & Hr).
  apply let_ok in Hr as (s5 & Hq%exec_answers & [= <- <-]). injection He as <-. injection Hq as <-.
  unfold insert_fetch in Hf. destruct (stored _ _); [done|]. destruct (negb _); [done|].
  injection Hf as <-. unfold insert_payload in Hp. destruct (stored _ _); [done|].
  destruct (negb _); [done|]. by injection Hp as <-.
Qed.

(** What the guarantee of [refresh_body] needs of its input. *)
Record safe_payload (sub : Subscription) (ext : ExtractResult) (s : Inventory) : Prop := {
  sp_answers : ∀ i, answered env "other sub" i = true;
  sp_stored : ∀ it, it ∈ ex_Items ext → stored_faithfully (it_Node it);
  sp_overridden : ∀ it x, it ∈ ex_Items ext →
    stored_faithfully (apply_overrides (field_overrides s x) (it_Node it));
  sp_ids : ∀ it it', it ∈ ex_Items ext → it' ∈ ex_Items ext → candidate_id it = candidate_id it' →
    same_connection (connection_of (it_Node it)) (connection_of (it_Node it'))
}.

Lemma apply_no_overrides n : apply_overrides ∅ n = n.
Proof.
  unfold apply_overrides. pose proof (range_perm json ∅) as Hp. rewrite map_to_list_empty in Hp.
  apply Permutation_nil_r in Hp. by rewrite Hp.
Qed.

Lemma safe_payload_fed sub resp ext outcome s r s1 :
  safe_payload sub ext s → start_refresh env sub resp ext outcome s = Ok (r, s1) →
  well_fed env r s1 (answered env "history table pre" 0).
Proof.
  intros Hsp Hr.
  apply start_refresh_effect in Hr as ((_&_&_&_&_&_&Ho) & Hsub & Hit & _ & _ & _ & Hex & Hfl).
  split; rewrite ?Hit, ?Hsub; try apply Hsp; [done|]. intros it x Hin. rewrite Hfl.
  destruct (answered env "field overrides" 0).
  - by apply (sp_overridden _ _ _ Hsp).
  - rewrite lookup_empty. simpl. rewrite apply_no_overrides. by apply (sp_stored _ _ _ Hsp).
Qed.

(** The parts of a refresh that succeeds. *)
Lemma refresh_body_run sub resp ext outcome s s' :
  refresh_body env sub resp ext outcome s = Ok (tt, s') →
  ∃ r s1 acc s2, start_refresh env sub resp ext outcome s = Ok (r, s1) ∧
    fold_res (reconcile_item env r) (∅, s1) (indexed (ex_Items ext)) = Ok acc ∧
    prune env r acc.2 = Ok s2 ∧ renamed s2 s'.
Proof.
  unfold refresh_body. intros Hb. apply let_ok in Hb as ([r s1] & Hst & Hb).
  apply let_ok in Hb as (acc & Hf & Hb). apply let_ok in Hb as (s2 & Hp & Hb).
  apply let_ok in Hb as (s3 & Hn%names_renamed & [= <-]). by exists r, s1, acc, s2.
Qed.

Definition scoped_of (sub : Subscription) (ext : ExtractResult) (m : string) : Prop :=
  ∃ it, it ∈ ex_Items ext ∧ m = computeScopedLogicalID (sub_ID sub) (candidate_id it).

(** Every node that the subscription or another one has, at the end of the refresh. *)
Lemma refresh_body_kept sub resp ext outcome s s' m row :
  refresh_body env sub resp ext outcome s = Ok (tt, s') → safe_payload sub ext s →
  iv_nodes s !! m = Some row → ¬ scoped_of sub ext m → owners s m ≠ ∅ →
  (∀ k, k ≠ sub_ID sub → owners s' m !! k = owners s m !! k) ∧
  ∃ row', iv_nodes s' !! m = Some row' ∧ nr_Active row' = nr_Active row ∧
    ((nr_Revision row' = nr_Revision row ∧ same_connection (row_connection row') (row_connection row)) ∨
     ((∀ k, k ≠ sub_ID sub → owners s m !! k = None) ∧ nr_Revision row' = (nr_Revision row + 1)%Z ∧
      ¬ same_connection (row_connection row') (row_connection row))).
Proof.
  intros Hb Hsp Hm Hsc Hown. apply refresh_body_run in Hb as (r & s1 & acc & s2 & Hst & Hf & Hp & Hren).
  pose proof (safe_payload_fed _ _ _ _ _ _ _ Hsp Hst) as Hfed.
  apply start_refresh_effect in Hst as ((Hn1 & Hs1 & _) & Hsub & Hit & _ & _ & _ & Hex & _).
  rewrite <- Hit in Hf. pose proof (loop_end env r s1 _ Hfed acc Hf) as Hl.
  apply prune_effect in Hp as (Hn2 & _ & _ & _ & Ho2). destruct Hren as (Hs3 & _&_&_&_&_&_&_&_ & Hn3).
  assert (owners s1 = owners s) as Ho1 by (unfold owners; by rewrite Hs1).
  assert (tracked r s1 m row) as Ht.
  { split; [by rewrite Hn1|]. split; [unfold scoped_id; rewrite Hit, Hsub; done|].
    destruct (map_choose _ Hown) as (k & f & Hk). destruct (decide (k = sub_ID sub)) as [->|Hne].
    - right. eapply linked_existing; [done|by rewrite Hn1|rewrite Hsub, Ho1; eauto].
    - left. exists k. rewrite Hsub, Ho1. eauto. }
  split.
  - intros k Hk. assert (owners s' m = owners s2 m) as -> by (unfold owners; by rewrite Hs3).
    rewrite Ho2, Hsub. rewrite <- Ho1, <- (lo_owners _ _ _ Hl) by (by rewrite Hsub).
    by repeat case_match; rewrite ?lookup_delete_ne by done.
  - destruct (lo_kept _ _ _ Hl m row Ht) as (row2 & Hr2 & Ha & Hmv). destruct (Hn3 m) as (g & Hg & Hgg).
    rewrite Hn2, Hr2 in Hg. simpl in Hg. destruct (Hgg row2) as [name Hname]. rewrite Hname in Hg.
    exists (set_display_name name row2). split; [done|]. split; [done|].
    destruct Hmv as [?|(Hsh & Hrev & Hc)]; [by left|right]. split; [|done]. intros k Hk.
    destruct (owners s m !! k) eqn:Hok; [|done]. exfalso. apply Hsh. exists k.
    rewrite Hsub, Ho1. eauto.
Qed.


(** C18. A refresh moves the connection revision of a node that its subscription had before
    exactly when it moves the connection: the revision is the old one and the connection the
    same (up to the comparison the code uses), or the revision is the next one, the connection
    another, and no other subscription has the node.  The node stays, disabled if it was
    disabled and active if it was active.  Two conditions limit this.  The node's ID is not the
    scoped ID of an item of the payload: a scoped row that exists already is written by
    copy-on-write with the revision and the flag of the row that the item continued, so that
    its own may be lost.  And the payload is safe: JSON stores its connections faithfully, with
    and without overrides, no ID stands for two connections, and the query for other owners
    is answered. *)
Theorem refresh_revises_on_change sub resp ext outcome s s' m row f :
  transaction env "reconcile" (refresh_body env sub resp ext outcome) s = (Ok tt, s') →
  safe_payload sub ext s → ¬ scoped_of sub ext m →
  iv_nodes s !! m = Some row → owners s m !! sub_ID sub = Some f →
  ∃ row', iv_nodes s' !! m = Some row' ∧ nr_Active row' = nr_Active row ∧
    ((nr_Revision row' = nr_Revision row ∧ same_connection (row_connection row') (row_connection row)) ∨
     (nr_Revision row' = (nr_Revision row + 1)%Z ∧
      ¬ same_connection (row_connection row') (row_connection row) ∧
      ∀ k, k ≠ sub_ID sub → owners s m !! k = None)).
Proof.
  intros Hb%transaction_ok Hsp Hsc Hm Ho.
  assert (owners s m ≠ ∅) as Hown by (intros He; by rewrite He in Ho).
  destruct (refresh_body_kept _ _ _ _ _ _ _ _ Hb Hsp Hm Hsc Hown) as [_ (row' & Hr & Ha & Hmv)].
  exists row'. tauto.
Qed.
End Body.

(** ** Witnesses *)

Section Witness.
#[local] Existing Instance ascii_text.
#[local] Existing Instance sample_sha.
#[local] Existing Instance sample_codec.
#[local] Existing Instance sample_connection_json.
#[local] Existing Instance sample_scan.
#[local] Existing Instance key_order.

(** Subscription [a] renames what it shares with [b] to another server, and has a node of
    its own. *)
Definition moved_items : list ParsedNode := [sample_item "x2" "X" "x2.example" "p"].
Definition moved_env : InvEnv := sample_inv_env "t3" (3 * second).
Definition moved_inventory : Inventory := refreshed "t3" (3 * second) sub_a moved_items shared_inventory.

Lemma sample_safe_payload env sub items s :
  (∀ i, answered env "other sub" i = true) → iv_overrides s = ∅ →
  Forall (λ it, ∃ id name server password, it = sample_item id name server password) items →
  (∀ it it', it ∈ items → it' ∈ items → candidate_id it = candidate_id it' → it = it') →
  safe_payload env sub (sample_payload items) s.
Proof.
  intros Ha Ho Hitems Hids. rewrite Forall_forall in Hitems.
  assert (∀ it, it ∈ items → stored_faithfully (it_Node it)) as Hst.
  { intros it Hin rev. destruct (Hitems it Hin) as (id & name & server & password & ->).
    apply same_connection_spec. split; [done|]. split; [apply EqualFold_refl|]. by split. }
  split; simpl; [done|done| |].
  - intros it x Hin. unfold field_overrides. rewrite Ho, lookup_empty. simpl.
    rewrite apply_no_overrides. by apply Hst.
  - intros it it' Hin Hin' Hc. by rewrite (Hids it it').
Qed.

Lemma moved_safe : safe_payload moved_env sub_a (sample_payload moved_items) shared_inventory.
Proof.
  apply sample_safe_payload; [done|vm_compute; reflexivity| |].
  - constructor; [|constructor]. by eexists _, _, _, _.
  - intros it it' ->%list_elem_of_singleton ->%list_elem_of_singleton. done.
Qed.

Lemma moved_scoped m : m ≠ "node_04040404040404040404040404040404" →
  ¬ scoped_of sub_a (sample_payload moved_items) m.
Proof. intros Hm (it & ->%list_elem_of_singleton & ->). apply Hm. vm_compute. reflexivity. Qed.

Definition x_row : NodeRow :=
  {| nr_Protocol := "trojan"; nr_DisplayName := "[A] X"; nr_Server := "x.example"; nr_Port := 443;
     nr_ConfigJSON := "password:p"; nr_Active := true; nr_Revision := 1 |}.
Definition y_row : NodeRow :=
  {| nr_Protocol := "trojan"; nr_DisplayName := "Y"; nr_Server := "y.example"; nr_Port := 443;
     nr_ConfigJSON := "password:q"; nr_Active := true; nr_Revision := 1 |}.


(** [b] moves its own node [y] to another server. *)
Definition revised_items : list ParsedNode :=
  [sample_item "x" "X" "x.example" "p"; sample_item "y2" "Y" "y2.example" "q"].
Definition revised_inventory : Inventory :=
  refreshed "t3" (3 * second) sub_b revised_items shared_inventory.

Lemma refresh_revises_on_change_witness :
  ∃ row', iv_nodes revised_inventory !! "y" = Some row' ∧ nr_Active row' = nr_Active y_row ∧
    ((nr_Revision row' = nr_Revision y_row ∧
      same_connection (row_connection row') (row_connection y_row)) ∨
     (nr_Revision row' = (nr_Revision y_row + 1)%Z ∧
      ¬ same_connection (row_connection row') (row_connection y_row) ∧
      ∀ k, k ≠ sub_ID sub_b → owners shared_inventory "y" !! k = None)).
Proof.
  apply (refresh_revises_on_change moved_env sub_b sample_response (sample_payload revised_items)
    FetchOutcomeSuccess shared_inventory revised_inventory "y" y_row "t2-fetch0").
  - vm_compute. reflexivity.
  - apply sample_safe_payload; [done|vm_compute; reflexivity| |].
    + repeat constructor; by eexists _, _, _, _.
    + intros it it' Hin Hin'. unfold revised_items in *. rewrite !elem_of_cons, elem_of_nil in *.
      by destruct Hin as [->|[->|[]]], Hin' as [->|[->|[]]].
  - intros (it & Hin & Heq). unfold revised_items in *. simpl in Hin.
    rewrite !elem_of_cons, elem_of_nil in Hin. by destruct Hin as [->|[->|[]]].
  - vm_compute. reflexivity.
  - vm_compute. reflexivity.
Defined.
End Witness.
