(* ===== verification/VersionProperties.v ===== *)
(** * Versions of a connection

    A refresh means to write a version of every connection it imports, and to point the
    head of the node to it.  The version names the entry it came from, which is
    inserted only later in the same transaction, so that the foreign key of the statement
    fails and the code ignores the error.  [held] is the consequence: a refresh writes no
    versions, and readers, who prefer the head, keep seeing the connection that was there.

    Edits do write versions; [edit_restarts_revisions] is what they do to the revision of a
    node that has no head yet. *)

From S2P Require Import Prelude.
From S2P Require Import GoStrings.
From S2P Require Import Domain.
From S2P Require Import Lifecycle.
From S2P Require Import NodeFilter.
From S2P Require Import Services.
From S2P Require Import Requests.
From S2P Require Import Fetch.
From S2P Require Import Connections.
From S2P Require Import InventoryStore.
From S2P Require Import Refresh.
From S2P Require Import InventoryService.
From S2P Require Import InventorySamples.
From S2P Require Import RefreshProperties.

(** An induction over an indexed loop. *)
Lemma fold_res_indexed {E A B} (P : nat → B → Prop) (f : B → nat * A → result E B) b l b' :
  P 0 b → (∀ i x b b', l !! i = Some x → P i b → f b (i, x) = Ok b' → P (S i) b') →
  fold_res f b (indexed l) = Ok b' → P (length l) b'.
Proof.
  unfold indexed. intros Hb Hstep.
  assert (∀ k l' b1, (∀ i, l' !! i = l !! (k + i)) → P k b1 →
            fold_res f b1 (imap (λ i x, (k + i, x)) l') = Ok b' → P (k + length l') b') as Hgen.
  { intros k l'. revert k. induction l' as [|x l' IH]; intros k b1 Hl Hk; simpl.
    - intros [= <-]. by rewrite Nat.add_0_r.
    - rewrite Nat.add_0_r. destruct (f b1 (k, x)) as [b2|] eqn:Hf; [|done]. intros Hfold.
      rewrite <- Nat.add_succ_comm. apply (IH (S k) b2).
      + intros i. specialize (Hl (S i)). simpl in Hl. rewrite Hl. f_equal. lia.
      + eapply (Hstep k x b1); [|done|done]. specialize (Hl 0). by rewrite Nat.add_0_r in Hl.
      + erewrite imap_ext; [exact Hfold|]. intros i y _. simpl. f_equal. lia. }
  intros Hf. apply (Hgen 0 l b); [done|done|]. by erewrite imap_ext; [exact Hf|].
Qed.

Section Versions.
Context `{GoText} `{Sha256} `{MapOrder} `{ConnectionJSON} `{CredentialsJSON} `{EntryScan}.
Context (env : InvEnv).

(** The only version of a node is its head, and it names no entry. *)
Definition headed (s : Inventory) (id : string) (rv : Z) (v : VersionRow) : Prop :=
  iv_heads s !! id = Some rv ∧ iv_versions s !! (id, rv) = Some v ∧ vr_SourceEntryID v = None ∧
  ∀ rev, is_Some (iv_versions s !! (id, rev)) → rev = rv.

(** No version is added or removed, and heads of this kind stay. *)
Definition held (s0 s : Inventory) : Prop :=
  (∀ key, is_Some (iv_versions s !! key) ↔ is_Some (iv_versions s0 !! key)) ∧
  ∀ id rv v, headed s0 id rv v → iv_heads s !! id = Some rv ∧ iv_versions s !! (id, rv) = Some v.

Lemma held_refl s : held s s.
Proof. split; [done|]. by intros id rv v (? & ? & _). Qed.

Lemma held_same s0 s s' :
  held s0 s → iv_versions s' = iv_versions s → iv_heads s' = iv_heads s → held s0 s'.
Proof. unfold held. by intros ? -> ->. Qed.

Lemma upsert_version_held s0 s s' id rev row e :
  held s0 s → vr_SourceEntryID row = Some e → e ∉ entry_ids s →
  upsert_version coalesce id rev row s = Ok s' → held s0 s'.
Proof.
  intros [Hdom Hhead] Hrow Hfresh%mem_str_false. unfold upsert_version.
  destruct (iv_versions s !! (id, rev)) as [old|] eqn:Hold; simpl; rewrite Hrow.
  2: { by rewrite Hfresh, andb_false_r. }
  destruct (vr_SourceEntryID old) as [e0|] eqn:He0; simpl; [|by rewrite Hfresh, andb_false_r].
  destruct (negb _); [done|]. intros [= <-]. split; simpl.
  - intros key. rewrite <- Hdom. destruct (decide (key = (id, rev))) as [->|Hne].
    + rewrite lookup_insert_eq, Hold. by split; eauto.
    + by rewrite lookup_insert_ne by done.
  - intros id' rv v Hh. destruct (Hhead _ _ _ Hh) as [Hh1 Hv]. split; [done|].
    rewrite lookup_insert_ne; [done|]. intros [= -> ->]. destruct Hh as (_ & _ & Hn & _). congruence.
Qed.

Lemma upsert_head_held s0 s s' id rev : held s0 s → upsert_head id rev s = Ok s' → held s0 s'.
Proof.
  intros [Hdom Hhead]. unfold upsert_head.
  destruct (stored _ _ && bool_decide _) eqn:Hfk; [|done]. intros [= <-]. split; [done|]. simpl.
  intros id' rv v Hh. destruct (Hhead _ _ _ Hh) as [Hh1 Hv]. split; [|done].
  destruct (decide (id' = id)) as [->|Hne]; [|by rewrite lookup_insert_ne by done].
  rewrite lookup_insert_eq. f_equal. apply andb_true_iff, proj2, bool_decide_eq_true in Hfk.
  destruct Hh as (_ & _ & _ & Honly). by apply Honly, Hdom.
Qed.

(** A step that writes a version of a fresh entry. *)
Definition steps_to (s0 s s' : Inventory) : Prop := held s0 s' ∧ entry_ids s' = entry_ids s.

Lemma ledger_entries s s' : ledger s' = ledger s → entry_ids s' = entry_ids s.
Proof. intros [= _ _ _ He _ _ _ _]. unfold entry_ids. by rewrite He. Qed.

Lemma write_version_steps s0 s i entry id rev n :
  held s0 s → entry ∉ entry_ids s → steps_to s0 s (write_version env i entry id rev n s).
Proof.
  intros Hh Hf. split; [|apply ledger_entries, write_version_ledger].
  unfold write_version. destruct (answered _ _ _); [|done].
  match goal with |- context [exec_ignored ?e ?l ?i ?f ?s] =>
    destruct (exec_ignored_cases e l i f s) as [->|Hu] end; [done|].
  eapply upsert_version_held; [exact Hh| |exact Hf|exact Hu]. done.
Qed.

Lemma write_version_head_steps s0 s i entry id rev n :
  held s0 s → entry ∉ entry_ids s → steps_to s0 s (write_version_head env i entry id rev n s).
Proof.
  intros Hh Hf. split; [|apply ledger_entries, write_version_head_ledger].
  unfold write_version_head. destruct (_ && _); [|done].
  match goal with |- context [exec_ignored ?e ?l ?i ?f ?s] =>
    destruct (exec_ignored_cases e l i f s) as [->|Hu] end; [by apply write_version_steps|].
  eapply upsert_head_held; [by apply write_version_steps|done].
Qed.

(** Unlinking, nodes and entries leave versions and heads alone. *)
Lemma unlink_versions r i x s s' :
  unlink env r i x s = Ok s' →
  iv_versions s' = iv_versions s ∧ iv_heads s' = iv_heads s ∧ iv_entries s' = iv_entries s.
Proof.
  unfold unlink. intros Hu. apply let_ok in Hu as (s2 & Ha & Hb).
  assert (iv_versions s2 = iv_versions s ∧ iv_heads s2 = iv_heads s ∧ iv_entries s2 = iv_entries s)
    as (? & ? & ?).
  { destruct (answered _ _ _); [|by injection Ha as <-]. apply exec_answers in Ha.
    unfold upsert_history in Ha. destruct (negb _); [done|]. by injection Ha as <-. }
  destruct (String.eqb _ _); [|by injection Hb as <-]. apply exec_answers in Hb. by injection Hb as <-.
Qed.

Lemma write_node_versions r i t n acc acc' :
  write_node env r i t n acc = Ok acc' →
  iv_versions acc'.2 = iv_versions acc.2 ∧ iv_heads acc'.2 = iv_heads acc.2 ∧
  iv_entries acc'.2 = iv_entries acc.2.
Proof.
  unfold write_node. intros Hw. apply let_ok in Hw as (s2 & Hu%exec_answers & Hw).
  unfold upsert_node in Hu. destruct (_ <=? 0)%Z; [done|]. injection Hu as <-.
  destruct (bool_decide _); [by injection Hw as <-|].
  apply let_ok in Hw as (s3 & Hu%exec_answers & [= <-]). unfold upsert_source in Hu.
  destruct (negb _); [done|]. by injection Hu as <-.
Qed.

Lemma write_entry_versions i e s s' :
  write_entry env i e s = Ok s' →
  iv_versions s' = iv_versions s ∧ iv_heads s' = iv_heads s ∧
  (entry_ids s' = entry_ids s ∨ entry_ids s' = entry_ids s ++ [en_ID e]).
Proof.
  unfold write_entry. destruct (answered _ _ _); [|intros [= <-]; auto]. intros He%exec_answers.
  unfold insert_entry in He. destruct (mem_str _ _); [done|]. destruct (negb (valid_entry_kind _)); [done|].
  destruct (negb _); [done|]. destruct (existsb _ _); injection He as <-; (split; [done|]); (split; [done|]).
  - left. unfold entry_ids. simpl. rewrite map_map. apply map_ext. intros o. by case_match.
  - right. unfold entry_ids. simpl. by rewrite map_app.
Qed.

Lemma place_steps s0 r i entry it s t n s' :
  held s0 s → entry ∉ entry_ids s → place env r i entry it s = Ok (t, n, s') → steps_to s0 s s'.
Proof.
  intros Hh Hf Hp. unfold place in Hp. destruct (match_existing r it) as [x|];
    apply let_ok in Hp as ([t1 s2] & Hp & [= <- <- <-]); simpl.
  - unfold place_matched in Hp. destruct (areConnectionParametersEqual _ _).
    { injection Hp as _ <-. by apply write_version_steps. }
    destruct (ie_io _ _ _); [done|]. apply let_ok in Hp as ([id s3] & Hi & [= _ <-]). simpl.
    destruct (others_own _ _ _); [|injection Hi as _ <-; by apply write_version_head_steps].
    apply let_ok in Hi as (s4 & (Hv & Hd & He)%unlink_versions & [= _ <-]).
    assert (entry_ids s4 = entry_ids s) as Hids by (unfold entry_ids; by rewrite He).
    unfold steps_to. rewrite <- Hids. apply write_version_head_steps; [by eapply held_same|].
    by rewrite Hids.
  - apply let_ok in Hp as (t2 & _ & [= _ <-]). by apply write_version_head_steps.
Qed.

(** The identifiers of the entries are new, and distinct. *)
Definition entry_id (i : nat) : string := "entry_" +:+ ie_uuid env "entry" i.
Definition fresh_entries (s : Inventory) : Prop :=
  (∀ i, entry_id i ∉ entry_ids s) ∧ ∀ i j, entry_id i = entry_id j → i = j.

(** Before the [i]-th item. *)
Definition before (s0 : Inventory) (i : nat) (s : Inventory) : Prop :=
  held s0 s ∧ (∀ e, e ∈ entry_ids s → e ∈ entry_ids s0 ∨ ∃ j, j < i ∧ e = entry_id j) ∧
  ∀ m, is_Some (iv_nodes s0 !! m) → is_Some (iv_nodes s !! m).

Lemma before_fresh s0 i s : fresh_entries s0 → before s0 i s → entry_id i ∉ entry_ids s.
Proof.
  intros [Hnew Hinj] (_ & Hids & _) Hin. destruct (Hids _ Hin) as [?|(j & Hj & Heq)].
  - by eapply Hnew.
  - apply Hinj in Heq. lia.
Qed.

Lemma write_entry_before s0 i e s s' :
  before s0 i s → en_ID e = entry_id i → write_entry env i e s = Ok s' → before s0 (S i) s'.
Proof.
  intros (Hh & Hids & Hn) Hid Hw. pose proof (write_entry_ledger env i e s s' Hw) as (Hn' & _).
  apply write_entry_versions in Hw as (Hv & Hd & He). split; [by eapply held_same|]. split.
  - intros e' Hin. assert (e' ∈ entry_ids s ∨ e' = entry_id i) as [?| ->].
    { destruct He as [He|He]; rewrite He in Hin; [by left|]. rewrite Hid in Hin.
      apply elem_of_app in Hin as [?|?%list_elem_of_singleton]; auto. }
    + destruct (Hids e') as [?|(j & ? & ?)]; [done|by left|right]. exists j. split; [lia|done].
    + right. exists i. split; [lia|done].
  - intros m Hm. rewrite Hn'. auto.
Qed.

Lemma reconcile_item_before s0 r i it acc acc' :
  fresh_entries s0 → before s0 i acc.2 → reconcile_item env r acc (i, it) = Ok acc' →
  before s0 (S i) acc'.2.
Proof.
  intros Hf Hb. pose proof (before_fresh _ _ _ Hf Hb) as Hnew. unfold reconcile_item.
  assert (∀ it n node, en_ID (entry_of env r i (entry_id i) it n node) = entry_id i) as Hid.
  { intros ? ? ?. unfold entry_of. by destruct (user_override _ _). }
  destruct (String.eqb _ _); intros Hr.
  { apply let_ok in Hr as (s & Hw & [= <-]). simpl. by eapply write_entry_before. }
  apply let_ok in Hr as ([[t n] s] & Hp & Hr). apply let_ok in Hr as (acc2 & Hw & Hr).
  apply let_ok in Hr as (s3 & He & [= <-]). simpl. eapply write_entry_before; [|apply Hid|done].
  destruct Hb as (Hh & Hids & Hn). destruct (place_steps s0 r i _ it _ t n s Hh Hnew Hp) as [Hh2 He2].
  apply place_only_sub in Hp as (Hn2 & _).
  pose proof (write_node_effect env r i t n _ _ Hw) as (Hn3 & _).
  apply write_node_versions in Hw as (Hv & Hd & He3). simpl in *. split; [by eapply held_same|]. split.
  - unfold entry_ids in *. rewrite He3, He2. done.
  - intros m Hm. rewrite Hn3, Hn2. destruct (decide (m = tg_ID t)) as [->|Hne].
    + rewrite lookup_insert_eq. eauto.
    + rewrite lookup_insert_ne by done. auto.
Qed.

Lemma refresh_body_held sub resp ext outcome s s' :
  fresh_entries s → refresh_body env sub resp ext outcome s = Ok (tt, s') →
  held s s' ∧ ∀ m, is_Some (iv_nodes s !! m) → is_Some (iv_nodes s' !! m).
Proof.
  intros Hf Hb. apply refresh_body_run in Hb as (r & s1 & acc & s2 & Hst & Hfold & Hp & Hren).
  apply start_refresh_effect in Hst as ((Hn1 & _ & _ & He1 & Hh1 & Hv1 & _) & _).
  assert (before s (length (ex_Items ext)) acc.2) as (Hh & _ & Hn).
  { eapply (fold_res_indexed (λ i (a : progress), before s i a.2)); [| |exact Hfold].
    - cbn [snd]. split; [by eapply held_same; [apply held_refl|..]|]. unfold entry_ids.
      rewrite He1, Hn1. auto.
    - intros i it a a' _ Ha Hr. by eapply reconcile_item_before. }
  apply prune_effect in Hp as (Hn2 & Hh2 & Hv2 & _). destruct Hren as (_ & Hh3 & Hv3 & _ & _ & _ & _ & _ & _ & Hn3).
  split; [eapply held_same; [exact Hh|congruence..]|]. intros m Hm. destruct (Hn3 m) as (g & -> & _).
  rewrite fmap_is_Some, Hn2. auto.
Qed.

(** C25. A refresh never writes a version of a connection, although it tries for every
    item: no version is added or removed.  Whoever reads a node whose only version is its
    head (every node that the migration versioned, and every node edited once) gets the
    server, the port, the credentials and the revision of before the refresh, whatever
    the provider sent and whatever the refresh wrote to the node's row. *)
Theorem refresh_never_versions sub resp ext outcome s s' :
  transaction env "reconcile" (refresh_body env sub resp ext outcome) s = (Ok tt, s') →
  fresh_entries s →
  (∀ key, is_Some (iv_versions s' !! key) ↔ is_Some (iv_versions s !! key)) ∧
  ∀ id rv v n, headed s id rv v → GetByLogicalID s id = Ok n →
    ∃ n', GetByLogicalID s' id = Ok n' ∧ node_Server n' = node_Server n ∧ node_Port n' = node_Port n ∧
      node_Credentials n' = node_Credentials n ∧ node_ConnectionRevision n' = node_ConnectionRevision n.
Proof.
  intros Hb%transaction_ok Hf. destruct (refresh_body_held _ _ _ _ _ _ Hf Hb) as [[Hdom Hhead] Hn].
  split; [done|]. intros id rv v n Hh Hget. destruct (Hhead _ _ _ Hh) as [Hh' Hv'].
  destruct Hh as (Hh & Hv & _). unfold GetByLogicalID in *.
  destruct (iv_nodes s !! id) as [row|] eqn:Hrow; [|done].
  destruct (Hn id) as [row' ->]; [by rewrite Hrow|]. unfold read_node, head_version in *.
  rewrite Hh, Hv in Hget. rewrite Hh', Hv'. simpl in *.
  apply let_ok in Hget as (c & -> & [= <-]). eexists. split; [done|]. by simpl.
Qed.
End Versions.

(** ** Edits *)

Section Edits.
Context `{GoText} `{Sha256} `{ConnectionJSON} `{CredentialsJSON} `{Prefixes}.
Context (env : InvEnv) (Hio : ∀ label i, ie_io env label i = None).

Lemma exec_io label i f s : exec env label i f s = f s.
Proof. unfold exec. by rewrite Hio. Qed.

Lemma exec_ignored_ok label i f s s' : f s = Ok s' → exec_ignored env label i f s = s'.
Proof. unfold exec_ignored. rewrite exec_io. by intros ->. Qed.

Lemma answered_io label i : answered env label i = true.
Proof. unfold answered. by rewrite Hio. Qed.

Lemma ask_io {A} label (f : Inventory → result error A) s : ask env label f s = (f s, s).
Proof. unfold ask. by rewrite Hio. Qed.

(** Overrides are beside nodes, versions and heads. *)
Definition beside (s s' : Inventory) : Prop :=
  iv_nodes s' = iv_nodes s ∧ iv_versions s' = iv_versions s ∧ iv_heads s' = iv_heads s.

Lemma save_override_beside i id field v s : beside s (save_override env i id field v s).
Proof.
  unfold save_override. destruct v as [v|]; [|done].
  destruct (exec_ignored_cases env "override" i (upsert_override id field v) s) as [->|Hu]; [done|].
  remember (exec_ignored _ _ _ _ _) as s' eqn:Hs'. clear Hs'.
  unfold upsert_override in Hu. destruct (negb _); [done|]. by injection Hu as <-.
Qed.

Lemma stored_some {A} (m : gmap string A) id x : m !! id = Some x → stored m id = true.
Proof. intros Hm. unfold stored. apply bool_decide_eq_true. by rewrite Hm. Qed.

(** A new version of a stored node, and the head on it. *)
Lemma new_version_head keep id rev row v s :
  iv_nodes s !! id = Some row → iv_versions s !! (id, rev) = None → vr_SourceEntryID v = None →
  upsert_version keep id rev v s = Ok (with_versions (<[(id, rev) := v]> (iv_versions s)) (iv_heads s) s).
Proof.
  intros Hn Hv He. unfold upsert_version. by rewrite Hv, He, (stored_some _ _ _ Hn).
Qed.

Lemma head_on_version id rev row s :
  iv_nodes s !! id = Some row → is_Some (iv_versions s !! (id, rev)) →
  upsert_head id rev s = Ok (with_versions (iv_versions s) (<[id := rev]> (iv_heads s)) s).
Proof.
  intros Hn Hv. unfold upsert_head. by rewrite (stored_some _ _ _ Hn), bool_decide_eq_true_2.
Qed.

Lemma edit_body_effect id p n rev row s :
  (0 < rev)%Z → iv_nodes s !! id = Some row → iv_versions s !! (id, rev) = None →
  let s' := edit_body env id p n rev s in
  iv_heads s' !! id = Some rev ∧ is_Some (iv_versions s' !! (id, rev)) ∧
  iv_nodes s' !! id = Some {| nr_Protocol := nr_Protocol row; nr_DisplayName := node_DisplayName n;
    nr_Server := node_Server n; nr_Port := node_Port n;
    nr_ConfigJSON := marshal_creds (node_Credentials n); nr_Active := nr_Active row; nr_Revision := rev |}.
Proof.
  intros Hrev Hn Hv. unfold edit_body.
  set (s1 := save_override env 0 id "server" _ s). set (s2 := save_override env 1 id "port" _ s1).
  set (s3 := save_override env 2 id "sni" _ s2).
  assert (beside s s3) as (Hn3 & Hv3 & Hh3).
  { destruct (save_override_beside 0 id "server" (JString <$> pt_Server p) s) as (?&?&?),
      (save_override_beside 1 id "port" (JNumber <$> pt_Port p) s1) as (?&?&?),
      (save_override_beside 2 id "sni" (JString <$> pt_SNI p) s2) as (?&?&?).
    unfold s3, s2, s1 in *. repeat split; congruence. }
  erewrite (exec_ignored_ok "version" 0); [|eapply new_version_head; [by rewrite Hn3|by rewrite Hv3|done]].
  erewrite (exec_ignored_ok "head" 0); [|eapply head_on_version; [simpl; by rewrite Hn3|]].
  2: { simpl. rewrite lookup_insert_eq. eauto. }
  erewrite (exec_ignored_ok "update node" 0).
  2: { unfold update_row. simpl. rewrite Hn3, Hn. unfold upsert_node. simpl.
       rewrite (proj2 (Z.leb_gt _ _)) by done. reflexivity. }
  simpl. rewrite !lookup_insert_eq. eauto.
Qed.

(** Writing a node as it is stored changes neither row nor revision. *)
Lemma upsert_same id rev row n s :
  iv_nodes s !! id = Some row → (0 < rev)%Z → nr_Revision row = rev → node_LogicalID n = id →
  row_of n rev = row → is_Some (iv_versions s !! (id, rev)) →
  let s' := (UpsertBatch env [n] s).2 in
  (UpsertBatch env [n] s).1 = Ok tt ∧ iv_heads s' !! id = Some rev ∧ iv_nodes s' !! id = Some row.
Proof.
  intros Hn Hpos Hrev Hid Hrow Hv. unfold UpsertBatch, transaction. rewrite Hio. simpl.
  unfold upsert_one. rewrite Hid, Hn.
  assert (upserted_revision (Some row) (row_of n 1) = rev) as ->.
  { rewrite <- Hrow in *. simpl. unfold same_columns. simpl.
    rewrite !String.eqb_refl, Z.eqb_refl. by destruct (node_Active n). }
  rewrite exec_io. unfold upsert_node. simpl. rewrite (proj2 (Z.leb_gt _ _)) by done.
  rewrite answered_io. unfold maintain_head. simpl.
  erewrite (exec_ignored_ok "insert version" 0).
  2: { unfold insert_version. simpl. destruct Hv as [v ->]. reflexivity. }
  erewrite (exec_ignored_ok "upsert head" 0).
  2: { eapply head_on_version; simpl; [by rewrite lookup_insert_eq|done]. }
  rewrite Hio. simpl. rewrite !lookup_insert_eq, Hrow. done.
Qed.

Lemma GetByLogicalID_row s id n row :
  iv_nodes s !! id = Some row → GetByLogicalID s id = Ok n →
  node_LogicalID n = id ∧ node_Protocol n = nr_Protocol row ∧ node_Active n = nr_Active row.
Proof.
  unfold GetByLogicalID. intros ->. unfold read_node. destruct (head_version s id) as [[? ?]|];
    intros Hr; by apply let_ok in Hr as (c & _ & [= <-]).
Qed.

Lemma apply_patch_keeps p n n' :
  apply_patch p n = Ok n' →
  node_LogicalID n' = node_LogicalID n ∧ node_Protocol n' = node_Protocol n ∧ node_Active n' = node_Active n.
Proof. unfold apply_patch. intros Hp. split_ok Hp. by injection Hp as <-. Qed.

(** An edit that changes the connection of a node without a head gives the node the
    connection revision 2, whatever its revision was: the new head and the row have
    revision 2.  Nodes that refreshes imported have no head, and their revision grows with
    every change, so that the revision goes back to one that an earlier connection of
    the node had; observations of that connection count as observations of the new one. *)
Theorem edit_restarts_revisions logicalID patch s row node updated :
  let id := TrimSpace logicalID in
  let s' := (run (UpdateNodeConnection env logicalID patch) s).2 in
  id ≠ "" → iv_nodes s !! id = Some row → iv_heads s !! id = None →
  iv_versions s !! (id, 2%Z) = None → GetByLogicalID s id = Ok node →
  apply_patch patch node = Ok updated → ¬ same_connection (connection_of node) (connection_of updated) →
  iv_heads s' !! id = Some 2%Z ∧ ∃ row', iv_nodes s' !! id = Some row' ∧ nr_Revision row' = 2%Z.
Proof.
  intros id s' Hid Hn Hh Hv Hget Hp Hne. unfold s'. clear s'.
  destruct (run _ s) as [res s'] eqn:Hrun. cbn [snd]. revert Hrun.
  unfold UpdateNodeConnection. fold id. unfold is_empty. rewrite (proj2 (String.eqb_neq _ _)) by done.
  cbn [refuse_if give pbind]. rewrite run_bind, run_attempt, run_step, ask_io, Hget. cbn [fst snd].
  rewrite Hp. destruct (areConnectionParametersEqual _ _) eqn:Heq; [done|].
  rewrite run_bind, run_bind, run_step. cbv beta. rewrite answered_io, Hh.
  rewrite run_bind, run_step. unfold ignoring at 1, transaction at 1. rewrite !Hio. cbn [fst snd].
  unfold give at 1. cbn [run]. change (edit_revision node None) with 2%Z.
  destruct (edit_body_effect id patch updated 2 row s) as (Hh2 & Hv2 & Hn2); [done..|].
  destruct (GetByLogicalID_row _ _ _ _ Hn Hget) as (Hi & Hpr & Hac).
  destruct (apply_patch_keeps _ _ _ Hp) as (Hi' & Hpr' & Hac').
  destruct (upsert_same id 2 _ (set_revision 2 updated) _ Hn2) as (Hok & Hh3 & Hn3); try done.
  { simpl. congruence. }
  { unfold row_of, marshalNodeCredentials. simpl. rewrite (proj2 (String.eqb_neq _ _)) by apply marshal_nonempty.
    by rewrite Hpr', Hpr, Hac', Hac. }
  rewrite run_bind, run_attempt, run_step. cbn [fst snd]. rewrite Hok. unfold audit_then.
  rewrite run_bind, run_step. unfold ignoring, auditRepo_Record. rewrite Hio. cbn [fst snd].
  rewrite run_step, ask_io. intros [= _ <-]. simpl. split; [done|]. eauto.
Qed.
End Edits.

(** ** Witnesses *)

Section Witness.
#[local] Existing Instance ascii_text.
#[local] Existing Instance sample_sha.
#[local] Existing Instance sample_codec.
#[local] Existing Instance sample_connection_json.
#[local] Existing Instance sample_scan.
#[local] Existing Instance key_order.
#[local] Instance no_prefixes : Prefixes := {| ParsePrefix := λ _, None |}.

Definition password_patch (password : string) : NodePatchRequest :=
  {| pt_DisplayName := None; pt_Server := None; pt_Port := None; pt_Credentials := None;
     pt_LocalAddress := None; pt_PublicKey := None; pt_PrivateKey := None; pt_PreSharedKey := None;
     pt_PresharedKey := None; pt_Reserved := None; pt_MTU := None; pt_DNS := None; pt_UUID := None;
     pt_Password := Some password; pt_Method := None; pt_AlterID := None; pt_CongestionControl := None;
     pt_UDPRelayMode := None; pt_ALPN := None; pt_SNI := None; pt_DisableSNI := None;
     pt_Username := None; pt_Transport := None |}.

(** The password of "y" is edited; then the provider sends the old one again. *)
Definition edit_env : InvEnv := sample_inv_env "e1" (3 * second).
Definition edited_inventory : Inventory :=
  (run (UpdateNodeConnection edit_env "y" (password_patch "q2")) shared_inventory).2.
Definition late_env : InvEnv := sample_inv_env "t4" (4 * second).
Definition late_items : list ParsedNode :=
  [sample_item "x" "X" "x.example" "p"; sample_item "y" "Y" "y3.example" "q3"].
Definition late_inventory : Inventory :=
  refreshed "t4" (4 * second) sub_b late_items edited_inventory.

Definition y_version : VersionRow :=
  {| vr_Config := {| ec_Server := "y.example"; ec_Port := 443; ec_Credentials := "password:q2" |};
     vr_Fingerprint := ComputeConnectionFingerprint "y.example" 443 (sample_creds "q2");
     vr_SourceEntryID := None |}.
Definition y_edited : Node :=
  {| node_LogicalID := "y"; node_Protocol := "trojan"; node_DisplayName := "Y";
     node_Server := "y.example"; node_Port := 443; node_Credentials := sample_creds "q2";
     node_Active := true; node_ConnectionRevision := 2 |}.

Lemma sample_entries_fresh tag at_ s :
  (∀ e, e ∈ entry_ids s → ¬ String.prefix ("entry_" +:+ tag) e) → fresh_entries (sample_inv_env tag at_) s.
Proof.
  intros Hs. split.
  - intros i Hin. apply (Hs _ Hin). unfold entry_id. cbn [ie_uuid sample_inv_env].
    assert (∀ a b, String.prefix a (a +:+ b)) as Hpre.
    { intros a b. induction a as [|c a IH]; simpl; [by destruct b|]. by destruct (Ascii.ascii_dec c c). }
    rewrite <- (str_app_assoc "entry_" tag). apply Hpre.
  - unfold entry_id. cbn [ie_uuid sample_inv_env]. intros i j Heq.
    do 4 apply (inj (String.append _)) in Heq. apply (inj pretty) in Heq. lia.
Qed.

Lemma edited_entries :
  entry_ids edited_inventory = ["entry_t1-entry0"; "entry_t2-entry0"; "entry_t2-entry1"].
Proof. vm_compute. reflexivity. Qed.

Lemma late_fresh : fresh_entries late_env edited_inventory.
Proof.
  apply sample_entries_fresh. intros e. rewrite edited_entries, !elem_of_cons, elem_of_nil.
  intros [->|[->|[->|[]]]]; vm_compute; tauto.
Qed.

Lemma edited_versions : iv_versions edited_inventory = {[("y", 2%Z) := y_version]}.
Proof. vm_compute. reflexivity. Qed.

Lemma edited_headed : headed edited_inventory "y" 2 y_version.
Proof.
  unfold headed. rewrite edited_versions. split; [vm_compute; reflexivity|].
  split; [apply lookup_singleton_eq|]. split; [reflexivity|].
  intros rev [v [[= ->] _]%lookup_singleton_Some]. reflexivity.
Qed.

Lemma edited_read : GetByLogicalID edited_inventory "y" = Ok y_edited.
Proof. vm_compute. reflexivity. Qed.

Lemma refresh_never_versions_witness :
  (∀ key, is_Some (iv_versions late_inventory !! key) ↔ is_Some (iv_versions edited_inventory !! key)) ∧
  nr_Server <$> iv_nodes late_inventory !! "y" = Some "y3.example" ∧
  ∃ n', GetByLogicalID late_inventory "y" = Ok n' ∧ node_Server n' = node_Server y_edited ∧
    node_Port n' = node_Port y_edited ∧ node_Credentials n' = node_Credentials y_edited ∧
    node_ConnectionRevision n' = node_ConnectionRevision y_edited.
Proof.
  assert (transaction late_env "reconcile" (refresh_body late_env sub_b sample_response
    (sample_payload late_items) FetchOutcomeSuccess) edited_inventory = (Ok tt, late_inventory)) as Hrun
    by (vm_compute; reflexivity).
  destruct (refresh_never_versions late_env sub_b sample_response (sample_payload late_items)
    FetchOutcomeSuccess edited_inventory late_inventory Hrun late_fresh) as [Hdom Hserved].
  split; [exact Hdom|]. split; [vm_compute; reflexivity|].
  apply (Hserved "y" 2%Z y_version y_edited); [exact edited_headed|exact edited_read].
Defined.

(** "y" moves twice, so that its revision is 3, and is then edited. *)
Definition twice_moved : Inventory :=
  refreshed "t6" (6 * second) sub_b [sample_item "y5" "Y" "y5.example" "q"]
    (refreshed "t5" (5 * second) sub_b [sample_item "y4" "Y" "y4.example" "q"] shared_inventory).
Definition third_row : NodeRow :=
  {| nr_Protocol := "trojan"; nr_DisplayName := "Y"; nr_Server := "y5.example"; nr_Port := 443;
     nr_ConfigJSON := "password:q"; nr_Active := true; nr_Revision := 3 |}.

Definition third_node : Node :=
  {| node_LogicalID := "y"; node_Protocol := "trojan"; node_DisplayName := "Y";
     node_Server := "y5.example"; node_Port := 443; node_Credentials := sample_creds "q";
     node_Active := true; node_ConnectionRevision := 3 |}.
Definition third_edited : Node :=
  {| node_LogicalID := "y"; node_Protocol := "trojan"; node_DisplayName := "Y";
     node_Server := "y5.example"; node_Port := 443; node_Credentials := sample_creds "q2";
     node_Active := true; node_ConnectionRevision := 3 |}.

Lemma edit_restarts_revisions_witness :
  iv_nodes twice_moved !! "y" = Some third_row ∧
  iv_heads (run (UpdateNodeConnection edit_env "y" (password_patch "q2")) twice_moved).2 !! "y" = Some 2%Z ∧
  ∃ row', iv_nodes (run (UpdateNodeConnection edit_env "y" (password_patch "q2")) twice_moved).2 !! "y" =
    Some row' ∧ nr_Revision row' = 2%Z.
Proof.
  split; [vm_compute; reflexivity|].
  apply (edit_restarts_revisions edit_env (λ _ _, eq_refl) "y" (password_patch "q2") twice_moved
    third_row third_node third_edited).
  - vm_compute. congruence.
  - vm_compute. reflexivity.
  - vm_compute. reflexivity.
  - vm_compute. reflexivity.
  - vm_compute. reflexivity.
  - vm_compute. reflexivity.
  - vm_compute. congruence.
Defined.
End Witness.
