(* ===== verification/SourceProperties.v ===== *)
(** * Which nodes a subscription has

    After a full refresh a subscription has exactly the nodes of the entries of that
    refresh; other subscriptions keep theirs; a partial refresh takes none away; a refresh
    that fails leaves the inventory alone. *)

From S2P Require Import Prelude.
From S2P Require Import GoStrings.
From S2P Require Import Domain.
From S2P Require Import Lifecycle.
From S2P Require Import NodeFilter.
From S2P Require Import Services.
From S2P Require Import Requests.
From S2P Require Import FetchPolicy.
From S2P Require Import Fetch.
From S2P Require Import Connections.
From S2P Require Import InventoryStore.
From S2P Require Import Refresh.
From S2P Require Import InventoryService.
From S2P Require Import InventorySamples.
From S2P Require Import RefreshProperties.
From S2P Require Import VersionProperties.

(** [EffectiveKind] of [internal/domain/dataflow.go]. *)
Definition EffectiveKind (e : SubscriptionEntry) : string :=
  match en_UserKindOverride e with
  | Some k => if EntryKind_IsValid k then k else en_EntryKind e
  | None => en_EntryKind e
  end.

Section Sources.
Context `{GoText} `{Sha256} `{MapOrder} `{ConnectionJSON} `{CredentialsJSON} `{EntryScan}.
Context (env : InvEnv).

(** A source of [sub] goes away, or none does. *)
Definition dropped (sub : string) (x : option string) (s s' : Inventory) : Prop :=
  ∀ m, owners s' m = if decide (x = Some m) then delete sub (owners s m) else owners s m.

Lemma dropped_none sub s s' : owners s' = owners s → dropped sub None s s'.
Proof. intros Ho m. by rewrite Ho. Qed.

(** The three ways to a target, and what each does to the sources. *)
Inductive routed (r : refresh) (it : ParsedNode) (s : Inventory) (t : target) : option string → Prop :=
  | routed_match x : match_existing r it = Some x → tg_ID t = xn_LogicalID x → routed r it s t None
  | routed_cow x gone :
      match_existing r it = Some x → others_own s (sub_ID (rf_sub r)) (xn_LogicalID x) = true →
      tg_ID t = computeScopedLogicalID (sub_ID (rf_sub r)) (candidate_id it) →
      (gone = if String.eqb (rf_outcome r) FetchOutcomeSuccess then Some (xn_LogicalID x) else None) →
      routed r it s t gone
  | routed_new :
      match_existing r it = None →
      tg_ID t = candidate_id it ∨ tg_ID t = computeScopedLogicalID (sub_ID (rf_sub r)) (candidate_id it) →
      routed r it s t None.

Lemma unlink_dropped r i x s s' :
  unlink env r i x s = Ok s' →
  dropped (sub_ID (rf_sub r))
    (if String.eqb (rf_outcome r) FetchOutcomeSuccess then Some (xn_LogicalID x) else None) s s'.
Proof.
  unfold unlink. intros Hu. apply let_ok in Hu as (s2 & Ha & Hb).
  assert (iv_sources s2 = iv_sources s) as Hs.
  { destruct (answered _ _ _); [|by injection Ha as <-]. apply exec_answers in Ha.
    unfold upsert_history in Ha. destruct (negb _); [done|]. by injection Ha as <-. }
  destruct (String.eqb _ _).
  - apply exec_answers in Hb. unfold delete_source in Hb. injection Hb as <-. intros m.
    rewrite owners_insert. unfold owners. rewrite Hs.
    repeat case_decide; simplify_eq; congruence.
  - injection Hb as <-. apply dropped_none. unfold owners. by rewrite Hs.
Qed.

Lemma unmatched_target_id r i it s t :
  unmatched_target env r i it s = Ok t →
  tg_ID t = candidate_id it ∨ tg_ID t = computeScopedLogicalID (sub_ID (rf_sub r)) (candidate_id it).
Proof.
  unfold unmatched_target. destruct (ie_io _ _ _); [done|].
  destruct (iv_nodes s !! candidate_id it) as [row|]; [|intros [= <-]; by left].
  match goal with |- Ok (if String.eqb (tg_ID ?t0) _ then _ else _) = _ → _ => set (t1 := t0) end.
  destruct (String.eqb (tg_ID t1) _) eqn:Hsc; intros [= <-].
  - right. unfold place_scoped. by case_match.
  - unfold t1. repeat case_match; auto.
Qed.

Lemma place_routed r i entry it s t n s' :
  place env r i entry it s = Ok (t, n, s') →
  ∃ gone, routed r it s t gone ∧ dropped (sub_ID (rf_sub r)) gone s s'.
Proof.
  intros Hp. unfold place in Hp. destruct (match_existing r it) as [x|] eqn:Hm;
    apply let_ok in Hp as ([t1 s2] & Hp & [= <- <- <-]); simpl.
  - unfold place_matched in Hp. destruct (areConnectionParametersEqual _ _).
    { injection Hp as <- <-. exists None. split; [by eapply routed_match|].
      apply dropped_none, owners_ledger, write_version_ledger. }
    destruct (ie_io _ _ _); [done|]. apply let_ok in Hp as ([id s3] & Hi & [= <- <-]). simpl.
    destruct (others_own _ _ _) eqn:Ho.
    + apply let_ok in Hi as (s4 & Hu & [= <- <-]). eexists. split; [by eapply routed_cow|].
      intros m. rewrite (owners_ledger _ _ (write_version_head_ledger env _ _ _ _ _ _)).
      by eapply unlink_dropped.
    + injection Hi as <- <-. exists None. split; [by eapply routed_match|].
      apply dropped_none, owners_ledger, write_version_head_ledger.
  - apply let_ok in Hp as (t2 & Ht & [= <- <-]). exists None. split.
    + apply routed_new; [done|]. by eapply unmatched_target_id.
    + apply dropped_none, owners_ledger, write_version_head_ledger.
Qed.

Lemma ledger_rows s s' : ledger s' = ledger s → iv_entries s' = iv_entries s.
Proof. by intros [=]. Qed.

Lemma place_entries r i entry it s t n s' :
  place env r i entry it s = Ok (t, n, s') → iv_entries s' = iv_entries s.
Proof.
  intros Hp. unfold place in Hp. destruct (match_existing r it) as [x|];
    apply let_ok in Hp as ([t1 s2] & Hp & [= <- <- <-]); simpl.
  - unfold place_matched in Hp. destruct (areConnectionParametersEqual _ _).
    { injection Hp as <- <-. apply ledger_rows, write_version_ledger. }
    destruct (ie_io _ _ _); [done|]. apply let_ok in Hp as ([id s3] & Hi & [= <- <-]). simpl.
    rewrite (ledger_rows _ _ (write_version_head_ledger env _ _ _ _ _ _)).
    destruct (others_own _ _ _); [|by injection Hi as _ <-].
    by apply let_ok in Hi as (s4 & (_ & _ & He)%unlink_versions & [= _ <-]).
  - apply let_ok in Hp as (t2 & _ & [= _ <-]). apply ledger_rows, write_version_head_ledger.
Qed.

(** The source of a target is written once. *)
Lemma write_node_sources r i t n acc acc' :
  write_node env r i t n acc = Ok acc' →
  let sub := sub_ID (rf_sub r) in
  (∀ m, is_Some (acc'.1 !! m) ↔ m = tg_ID t ∨ is_Some (acc.1 !! m)) ∧
  ∀ m k, owners acc'.2 m !! k =
    if decide (m = tg_ID t ∧ k = sub ∧ acc.1 !! m = None) then Some (rf_fetchID r) else owners acc.2 m !! k.
Proof.
  unfold write_node. intros Hw. apply let_ok in Hw as (s2 & Hu%exec_answers & Hw). simpl.
  unfold upsert_node in Hu. destruct (_ <=? 0)%Z; [done|]. injection Hu as <-.
  destruct (bool_decide _) eqn:Hseen.
  - apply bool_decide_eq_true in Hseen. injection Hw as <-. split.
    + intros m. split; [by right|]. by intros [->|].
    + intros m k. cbn [fst snd]. case_decide as Hd; [|done]. destruct Hd as (-> & _ & Hn).
      rewrite Hn in Hseen. by destruct Hseen.
  - apply bool_decide_eq_false, eq_None_not_Some in Hseen.
    apply let_ok in Hw as (s3 & Hu%exec_answers & [= <-]). unfold upsert_source in Hu.
    destruct (negb _); [done|]. injection Hu as <-. cbn [fst snd]. split.
    + intros m. destruct (decide (m = tg_ID t)) as [->|Hm].
      * rewrite lookup_insert_eq. split; [by left|eauto].
      * rewrite lookup_insert_ne by done. split; [by right|]. by intros [|].
    + intros m k. rewrite owners_insert. unfold owners. simpl.
      destruct (decide (m = tg_ID t)) as [->|Hm].
      * destruct (decide (k = sub_ID (rf_sub r))) as [->|Hk].
        -- rewrite lookup_insert_eq. by rewrite decide_True by done.
        -- rewrite lookup_insert_ne by done. rewrite decide_False; [done|]. by intros (_ & ? & _).
      * rewrite decide_False; [done|]. by intros (? & _).
Qed.
End Sources.

(** ** The loop *)

Section SourceLoop.
Context `{GoText} `{Sha256} `{MapOrder} `{ConnectionJSON} `{CredentialsJSON} `{EntryScan}.
Context (env : InvEnv) (r : refresh) (s1 : Inventory) (history : bool).

Notation sub := (sub_ID (rf_sub r)).

(** An item that is a node, not a notice. *)
Definition imports (it : ParsedNode) : Prop := effectiveKind r (it_Node it) ≠ EntryKindNotice.

(** This fetch and this payload are new, entries are written, no two items continue the
    same node, and no other subscription has a node with a scoped ID of this one. *)
Record well_sourced : Prop := {
  ws_existing : rf_existing r = existing_nodes s1 sub history;
  ws_entries : answered env "prepare entry" 0 = true;
  ws_fetch : ∀ m, owners s1 m !! sub ≠ Some (rf_fetchID r);
  ws_payload : ∀ e, e ∈ iv_entries s1 → en_PayloadID e ≠ rf_payloadID r;
  ws_once : ∀ i j it it' x, rf_items r !! i = Some it → rf_items r !! j = Some it' →
    imports it → imports it' → match_existing r it = Some x → match_existing r it' = Some x → i = j;
  ws_private : ∀ it k, it ∈ rf_items r → k ≠ sub →
    owners s1 (computeScopedLogicalID sub (candidate_id it)) !! k = None
}.
Context (Hws : well_sourced).

(** An entry of this refresh that imports the node [m]. *)
Definition imported (s : Inventory) (m : string) : Prop :=
  ∃ e, e ∈ iv_entries s ∧ en_PayloadID e = rf_payloadID r ∧ EffectiveKind e ≠ EntryKindNotice ∧
    en_NodeLogicalID e = Some m.

(** How a node of the subscription was seen. *)
Definition seen_by (i : nat) (m : string) : Prop :=
  is_Some (rf_existing r !! m) → scoped_id r m ∨
  ∃ j it x, j < i ∧ rf_items r !! j = Some it ∧ imports it ∧ match_existing r it = Some x ∧
    xn_LogicalID x = m.

Record sources_ok (i : nat) (acc : progress) : Prop := {
  so_others : ∀ m k, k ≠ sub → owners acc.2 m !! k = owners s1 m !! k;
  so_seen : ∀ m, is_Some (acc.1 !! m) ↔ owners acc.2 m !! sub = Some (rf_fetchID r);
  so_by : ∀ m, is_Some (acc.1 !! m) → seen_by i m;
  so_imported : ∀ m, m ≠ "" → is_Some (acc.1 !! m) ↔ imported acc.2 m;
  so_ordinal : ∀ e, e ∈ iv_entries acc.2 → en_PayloadID e = rf_payloadID r → (en_Ordinal e < Z.of_nat i)%Z;
  so_partial : rf_outcome r ≠ FetchOutcomeSuccess →
    ∀ m, is_Some (owners s1 m !! sub) → is_Some (owners acc.2 m !! sub)
}.

Lemma entry_of_kind i entry it n node :
  EffectiveKind (entry_of env r i entry it n node) = effectiveKind r (it_Node it).
Proof.
  unfold entry_of, EffectiveKind, effectiveKind. destruct (user_override _ _) as [[po|] c]; done.
Qed.

Lemma entry_of_fields i entry it n node :
  let e := entry_of env r i entry it n node in
  en_PayloadID e = rf_payloadID r ∧ en_Ordinal e = Z.of_nat i ∧ en_NodeLogicalID e = node ≫= nonempty.
Proof. unfold entry_of. by destruct (user_override _ _). Qed.

(** The entry of an item is a new row. *)
Lemma write_entry_appends i e s s' :
  (∀ o, o ∈ iv_entries s → en_PayloadID o = en_PayloadID e → en_Ordinal o ≠ en_Ordinal e) →
  write_entry env i e s = Ok s' →
  iv_entries s' = iv_entries s ++ [e] ∧ iv_nodes s' = iv_nodes s ∧ iv_sources s' = iv_sources s.
Proof.
  intros Hnew Hw. pose proof (write_entry_ledger env i e s s' Hw) as (Hn & Hs & _).
  split; [|done]. revert Hw. unfold write_entry. rewrite (ws_entries Hws). intros He%exec_answers.
  unfold insert_entry in He. destruct (mem_str _ _); [done|]. destruct (negb (valid_entry_kind _)); [done|].
  destruct (negb _); [done|]. destruct (existsb _ _) eqn:Hex; [|by injection He as <-].
  apply existsb_exists in Hex as (o & Ho%list_elem_of_In & Hs').
  apply andb_true_iff in Hs' as [Hp%String.eqb_eq Hq%Z.eqb_eq]. by destruct (Hnew o).
Qed.

(** The entry of the [i]-th item, for the part of the invariant that reads entries. *)
Lemma imported_snoc s s' e m :
  iv_entries s' = iv_entries s ++ [e] → en_PayloadID e = rf_payloadID r →
  imported s' m ↔ imported s m ∨ (EffectiveKind e ≠ EntryKindNotice ∧ en_NodeLogicalID e = Some m).
Proof.
  intros He Hp. unfold imported. rewrite He. setoid_rewrite elem_of_app.
  setoid_rewrite list_elem_of_singleton. split.
  - intros (e' & [?| ->] & ? & ? & ?); [left; eauto|by right].
  - intros [(e' & ? & ? & ? & ?)|[? ?]]; [exists e'|exists e]; auto.
Qed.

Lemma owners_of s s' : iv_sources s' = iv_sources s → owners s' = owners s.
Proof. intros Hs. unfold owners. by rewrite Hs. Qed.

(** A notice. *)
Lemma notice_sources i it acc acc' :
  sources_ok i acc → rf_items r !! i = Some it → ¬ imports it →
  reconcile_item env r acc (i, it) = Ok acc' → sources_ok (S i) acc'.
Proof.
  intros [Hot Hse Hby Him Hor Hpa] Hit Hno. unfold reconcile_item.
  fold (entry_id env i).
  destruct (String.eqb _ _) eqn:Hk; [|by apply String.eqb_neq in Hk].
  intros Hr. apply let_ok in Hr as (s & Hw & [= <-]).
  destruct (entry_of_fields i (entry_id env i) it (it_Node it) (notice_target r it)) as (Hp & Hord & _).
  apply write_entry_appends in Hw as (He & _ & Hs).
  2: { intros o Ho Hpo. rewrite Hord. rewrite Hp in Hpo. specialize (Hor o Ho Hpo). lia. }
  split; cbn [fst snd]; rewrite ?(owners_of _ _ Hs); try done.
  - intros m Hm Hx. destruct (Hby m Hm Hx) as [?|(j & a & x & ? & ?)]; [by left|right].
    exists j, a, x. split; [lia|done].
  - intros m Hm. rewrite Him, (imported_snoc _ _ _ _ He Hp) by done. rewrite entry_of_kind.
    split; [by left|]. intros [?|[Hc _]]; [done|]. by destruct Hno.
  - intros e. rewrite He, elem_of_app, list_elem_of_singleton. intros [He'| ->] Hpe; [|rewrite Hord; lia].
    specialize (Hor e He' Hpe). lia.
Qed.

(** A node that loses this subscription has not been seen. *)
Lemma dropped_not_seen i it acc t x :
  sources_ok i acc → rf_items r !! i = Some it → imports it →
  routed r it acc.2 t (Some x) → acc.1 !! x = None.
Proof.
  intros Hso Hit Himp Hrt. inversion Hrt as [|y gone Hm Ho Hid Hg|]; subst.
  destruct (String.eqb _ _); [|done]. injection Hg as ->.
  destruct (acc.1 !! xn_LogicalID y) eqn:Hseen; [|done]. exfalso.
  pose proof (match_existing_some r s1 history (ws_existing Hws) it y Hm) as Hex.
  destruct (so_by i acc Hso (xn_LogicalID y)) as [(it' & Hin & Hsc)|(j & it' & x & Hj & Hit' & Hi' & Hm' & Hx)];
    [by rewrite Hseen|by rewrite Hex| |].
  - unfold others_own in Ho. apply negb_true_iff, bool_decide_eq_false in Ho. apply Ho.
    apply map_eq. intros k. rewrite lookup_empty. destruct (decide (k = sub)) as [->|Hk].
    + by rewrite lookup_delete_eq.
    + rewrite lookup_delete_ne, (so_others i acc Hso), Hsc by done. by apply (ws_private Hws).
  - pose proof (match_existing_some r s1 history (ws_existing Hws) it' x Hm') as Hex'.
    rewrite Hx in Hex'. assert (x = y) as -> by congruence.
    pose proof (ws_once Hws i j it it' y Hit Hit' Himp Hi' Hm Hm'). lia.
Qed.

Lemma routed_seen_by i it s t gone :
  rf_items r !! i = Some it → imports it → routed r it s t gone → seen_by (S i) (tg_ID t).
Proof.
  intros Hit Himp Hrt Hx. pose proof (list_elem_of_lookup_2 _ _ _ Hit) as Hin.
  destruct Hrt as [x Hm Hid|x gone Hm _ Hid _|Hm [Hid|Hid]].
  - right. exists i, it, x. auto with lia.
  - left. by exists it.
  - rewrite Hid, (match_existing_none r it Hm) in Hx. by destruct Hx.
  - left. by exists it.
Qed.

Lemma routed_partial it s t gone :
  rf_outcome r ≠ FetchOutcomeSuccess → routed r it s t gone → gone = None.
Proof.
  intros Ho Hrt. destruct Hrt as [| x gone _ _ _ ->|]; [done| |done].
  by rewrite (proj2 (String.eqb_neq _ _)).
Qed.

(** The sources after a node was placed and written. *)
Lemma placed_sources i it acc s t n gone acc2 :
  sources_ok i acc → rf_items r !! i = Some it → imports it →
  routed r it acc.2 t gone → dropped sub gone acc.2 s → write_node env r i t n (acc.1, s) = Ok acc2 →
  (∀ m k, k ≠ sub → owners acc2.2 m !! k = owners s1 m !! k) ∧
  (∀ m, is_Some (acc2.1 !! m) ↔ owners acc2.2 m !! sub = Some (rf_fetchID r)) ∧
  (∀ m, is_Some (acc2.1 !! m) → seen_by (S i) m) ∧
  (rf_outcome r ≠ FetchOutcomeSuccess →
     ∀ m, is_Some (owners s1 m !! sub) → is_Some (owners acc2.2 m !! sub)).
Proof.
  intros Hso Hit Himp Hrt Hdr Hw. pose proof Hso as [Hot Hse Hby _ _ Hpa].
  assert (∀ m, is_Some (acc.1 !! m) → owners s m = owners acc.2 m) as Hkeep.
  { intros m Hm. rewrite Hdr. case_decide; [subst|done].
    rewrite (dropped_not_seen i it acc t m Hso Hit Himp Hrt) in Hm. by destruct Hm. }
  apply write_node_sources in Hw as [Hs2 Ho2]. cbn [fst snd] in *. repeat split.
  - intros m k Hk. rewrite Ho2, decide_False by (by intros (_ & ? & _)). rewrite <- Hot, Hdr by done.
    case_decide; [by rewrite lookup_delete_ne by done|done].
  - intros [->|Hm]%Hs2; rewrite Ho2; (case_decide as Hd; [done|]).
    + destruct (acc.1 !! tg_ID t) eqn:Hseen; [|by destruct Hd].
      rewrite Hkeep by (by rewrite Hseen). apply Hse. by rewrite Hseen.
    + rewrite Hkeep by done. by apply Hse.
  - rewrite Ho2. intros Hf. apply Hs2. case_decide as Hd; [by left; destruct Hd|right]. apply Hse.
    rewrite Hdr in Hf. case_decide; [by rewrite lookup_delete_eq in Hf|done].
  - intros m [->|Hm]%Hs2 Hx; [by eapply routed_seen_by|].
    destruct (Hby m Hm Hx) as [?|(j & a & x & ? & ?)]; [by left|right]. exists j, a, x. split; [lia|done].
  - intros Hout m Hm. rewrite Ho2. case_decide; [eauto|]. rewrite Hdr.
    rewrite (routed_partial _ _ _ _ Hout Hrt), decide_False by done. auto.
Qed.

Lemma import_sources i it acc acc' :
  sources_ok i acc → rf_items r !! i = Some it → imports it →
  reconcile_item env r acc (i, it) = Ok acc' → sources_ok (S i) acc'.
Proof.
  intros Hso Hit Himp Hr. pose proof Hso as [_ _ _ Him Hor _]. unfold reconcile_item in Hr.
  fold (entry_id env i) in Hr.
  destruct (String.eqb _ _) eqn:Hk; [by apply String.eqb_eq in Hk|].
  apply let_ok in Hr as ([[t n] s] & Hp & Hr). apply let_ok in Hr as (acc2 & Hw & Hr).
  apply let_ok in Hr as (s3 & He & [= <-]). pose proof (place_entries env _ _ _ _ _ _ _ _ Hp) as Hes.
  apply place_routed in Hp as (gone & Hrt & Hdr).
  destruct (placed_sources i it acc s t n gone acc2 Hso Hit Himp Hrt Hdr Hw) as (Ha & Hb & Hc & Hd).
  pose proof (write_node_sources env r i t n _ _ Hw) as [Hs2 _].
  apply write_node_versions in Hw as (_ & _ & He2). cbn [fst snd] in *. rewrite Hes in He2.
  destruct (entry_of_fields i (entry_id env i) it n (Some (tg_ID t))) as (Hp & Hord & Hnode).
  apply write_entry_appends in He as (He & _ & Hs).
  2: { intros o Ho Hpo. rewrite Hord. rewrite He2 in Ho. rewrite Hp in Hpo. specialize (Hor o Ho Hpo). lia. }
  split; cbn [fst snd]; rewrite ?(owners_of _ _ Hs); try done.
  - intros m Hm. rewrite Hs2, (imported_snoc _ _ _ _ He Hp), (Him m Hm), entry_of_kind, Hnode.
    assert (imported acc2.2 m ↔ imported acc.2 m) as -> by (unfold imported; by rewrite He2).
    simpl. unfold nonempty. destruct (String.eqb (tg_ID t) "") eqn:Hemp.
    + apply String.eqb_eq in Hemp. split; [intros [->|?]; [done|by left]|intros [?|[_ ?]]; [by right|done]].
    + split; [intros [->|?]; [by right|by left]|intros [?|[_ [= ->]]]; auto].
  - intros e. rewrite He, He2, elem_of_app, list_elem_of_singleton.
    intros [He'| ->] Hpe; [|rewrite Hord; lia]. specialize (Hor e He' Hpe). lia.
Qed.

Lemma source_loop acc :
  fold_res (reconcile_item env r) (∅, s1) (indexed (rf_items r)) = Ok acc →
  sources_ok (length (rf_items r)) acc.
Proof.
  intros Hf. eapply (fold_res_indexed sources_ok); [| |exact Hf].
  - split; cbn [fst snd]; [done| | | | |done].
    + intros m. rewrite lookup_empty. split; [by intros []|]. intros Hm. by destruct (ws_fetch Hws m).
    + intros m. rewrite lookup_empty. by intros [].
    + intros m _. rewrite lookup_empty. split; [by intros []|]. intros (e & He & Hp & _).
      by destruct (ws_payload Hws e He).
    + intros e He Hp. by destruct (ws_payload Hws e He).
  - intros i it a a' Hit Ha Hr. destruct (decide (effectiveKind r (it_Node it) = EntryKindNotice)) as [Hn|Hn].
    + eapply notice_sources; [done|done| |done]. by intros Hi.
    + by eapply import_sources.
Qed.
End SourceLoop.

Section Guarantee.
Context `{GoText} `{Sha256} `{MapOrder} `{ConnectionJSON} `{CredentialsJSON} `{EntryScan}.
Context (env : InvEnv).

(** What the loop knows, from the state before the transaction. *)
Definition refresh_of (sub : Subscription) (ext : ExtractResult) (outcome : string) (s : Inventory) : refresh :=
  {| rf_sub := sub; rf_fetchID := ie_uuid env "fetch" 0;
     rf_payloadID := "payload_" +:+ ie_uuid env "payload" 0; rf_outcome := outcome;
     rf_existing := existing_nodes s (sub_ID sub) (answered env "history table pre" 0);
     rf_overrides := if answered env "overrides" 0 then load_overrides (sub_ID sub) s else no_overrides;
     rf_fields := if answered env "field overrides" 0 then iv_overrides s else ∅;
     rf_items := ex_Items ext |}.

Lemma start_refresh_of sub resp ext outcome s r s1 :
  start_refresh env sub resp ext outcome s = Ok (r, s1) →
  r = refresh_of sub ext outcome s ∧ iv_sources s1 = iv_sources s ∧ iv_entries s1 = iv_entries s ∧
  rf_existing r = existing_nodes s1 (sub_ID sub) (answered env "history table pre" 0).
Proof.
  unfold start_refresh. intros Hr. apply let_ok in Hr as (s2 & Hf%exec_answers & Hr).
  apply let_ok in Hr as (s3 & Hp%exec_answers & Hr). apply let_ok in Hr as (s4 & He%exec_answers & Hr).
  apply let_ok in Hr as (s5 & Hq%exec_answers & [= <- <-]). injection He as <-. injection Hq as <-.
  unfold insert_fetch in Hf. destruct (stored _ _); [done|]. destruct (negb _); [done|].
  injection Hf as <-. unfold insert_payload in Hp. destruct (stored _ _); [done|].
  destruct (negb _); [done|]. by injection Hp as <-.
Qed.

End Guarantee.

(** ** Refreshes that fail *)

Section Failure.
Context `{GoText} `{Sha256} `{Net} `{MapOrder} `{ConnectionJSON} `{CredentialsJSON} `{EntryScan} `{Parser}.
Context (env : InvEnv) (defaultFetchProxy : string) (settings : option (result error Settings))
  (fetcher : Fetcher).

(** Everything but the fetches and the audit trail. *)
Definition contents (s : Inventory) :=
  (iv_subs s, iv_payloads s, iv_pins s, iv_entries s, iv_nodes s, iv_sources s, iv_history s,
   iv_versions s, iv_heads s, iv_overrides s).

(** The fetch of a failed refresh, if it could be recorded. *)
Definition failure_recorded (sub : string) (s s' : Inventory) : Prop :=
  iv_fetches s' = iv_fetches s ∨
  ∃ id f, iv_fetches s !! id = None ∧ iv_fetches s' = <[id := f]> (iv_fetches s) ∧
    sf_SubscriptionID f = sub ∧ sf_Outcome f = FetchOutcomeFailed ∧ sf_NodesValid f = 0%Z.

Lemma failed_refresh_run sub action digest parsed e s :
  ∃ res s', run (failed_refresh env sub action digest parsed e) s = (Ok (res, Some e), s') ∧
    contents s' = contents s ∧ failure_recorded (sub_ID sub) s s'.
Proof.
  unfold failed_refresh. rewrite run_bind, run_step. unfold ignoring at 1. cbn [fst snd].
  set (s1 := (fetches_Create _ _ _ s).2).
  assert (contents s1 = contents s ∧ failure_recorded (sub_ID sub) s s1) as [Hc Hr].
  { unfold s1, fetches_Create. destruct (exec _ _ _ _ _) as [s2|] eqn:He; cbn [fst snd]; [|by split; [|left]].
    apply exec_answers in He. unfold insert_fetch in He. destruct (stored _ _) eqn:Hs; [done|].
    destruct (negb _); [done|]. injection He as <-. split; [done|]. right. eexists _, _.
    split; [|done]. unfold stored in Hs. by apply bool_decide_eq_false, eq_None_not_Some in Hs. }
  rewrite run_bind, run_step. unfold ignoring, auditRepo_Record. cbn [fst snd].
  destruct (ie_io env "audit" 0); cbn [fst snd]; eexists _, _; (split; [done|]); done.
Qed.

(** C20. A refresh that does not succeed leaves the inventory as it was: when the fetch, the
    parser, an empty payload or the database stops it, at any statement of its
    transaction, no subscription, payload, entry, node, source, history, version, head or
    override has changed.  At most a fetch is recorded, as failed. *)
Theorem failed_refresh_keeps_inventory subID s out s' :
  run (ReconcileSubscription env defaultFetchProxy settings fetcher subID) s = (out, s') →
  (∀ res, out ≠ Ok (res, None)) →
  contents s' = contents s ∧ ∃ sub, failure_recorded sub s s'.
Proof.
  unfold ReconcileSubscription. rewrite run_bind, run_step. intros Hrun Hout.
  assert (contents s = contents s ∧ ∃ sub, failure_recorded sub s s) as Hsame.
  { split; [done|]. exists "". by left. }
  unfold ask at 1 in Hrun.
  destruct (match ie_io env "subscriptions.GetByID" 0 with Some m => _ | None => _ end) as [[sub at_]|e];
    [|by injection Hrun as _ <-].
  cbn [fst snd] in Hrun.
  assert (∀ action digest parsed e, run (failed_refresh env sub action digest parsed e) s = (out, s') →
    contents s' = contents s ∧ ∃ sub, failure_recorded sub s s') as Hfail.
  { intros action digest parsed e Hr. destruct (failed_refresh_run sub action digest parsed e s)
      as (res & s2 & Hr2 & Hc & Hrec). rewrite Hr2 in Hr. injection Hr as _ <-. eauto. }
  destruct (fetch_subscription _ _ _ sub) as [resp|e]; [|by eapply Hfail].
  destruct (ExtractWithCredentials _) as [ext|e]; [|by eapply Hfail].
  destruct (bool_decide _); [by eapply Hfail|].
  rewrite run_bind, run_step in Hrun.
  destruct (transaction _ _ _ s) as [[[]|e] s2] eqn:Htx.
  - injection Hrun as <- _. exfalso. by eapply Hout.
  - injection Hrun as _ <-. by apply transaction_err in Htx as ->.
Qed.
End Failure.

(** ** Witnesses *)

Section Witness.
#[local] Existing Instance ascii_text.
#[local] Existing Instance sample_sha.
#[local] Existing Instance sample_codec.
#[local] Existing Instance sample_connection_json.
#[local] Existing Instance sample_scan.
#[local] Existing Instance sample_net.
#[local] Existing Instance key_order.

(** [b] loses "y" and gets "z". *)
Definition replaced_items : list ParsedNode :=
  [sample_item "x" "X" "x.example" "p"; sample_item "z" "Z" "z.example" "q"].
Definition replaced_inventory : Inventory :=
  refreshed "t3" (3 * second) sub_b replaced_items shared_inventory.
Definition replaced : refresh :=
  refresh_of moved_env sub_b (sample_payload replaced_items) FetchOutcomeSuccess shared_inventory.

Lemma shared_sources : iv_sources shared_inventory =
  <["x" := <["a" := "t1-fetch0"]> {["b" := "t2-fetch0"]}]> {["y" := {["b" := "t2-fetch0"]}]}.
Proof. vm_compute. reflexivity. Qed.

Lemma replaced_matches : map (λ it, xn_LogicalID <$> match_existing replaced it) replaced_items = [Some "x"; None].
Proof. vm_compute. reflexivity. Qed.

Lemma replaced_sourced : well_sourced moved_env replaced shared_inventory true.
Proof.
  split.
  - reflexivity.
  - reflexivity.
  - intros m. unfold owners. rewrite shared_sources, !lookup_insert, lookup_singleton.
    repeat case_decide; vm_compute; congruence.
  - intros e He. assert (Forall (λ e, en_PayloadID e ≠ rf_payloadID replaced) (iv_entries shared_inventory))
      as Hall by (vm_compute; repeat constructor; congruence).
    rewrite Forall_forall in Hall. by apply Hall.
  - intros i j it it' x Hi Hj _ _ Hm Hm'.
    assert (∀ k t, replaced_items !! k = Some t → match_existing replaced t = Some x → k = 0) as Hone.
    { intros k t Hk Ht. apply (f_equal (fmap (λ it, xn_LogicalID <$> match_existing replaced it))) in Hk.
      rewrite <- list_lookup_fmap in Hk. change (fmap ?f replaced_items) with (map f replaced_items) in Hk.
      rewrite replaced_matches in Hk. simpl in Hk. rewrite Ht in Hk.
      destruct k as [|[|k]]; [done|discriminate|discriminate]. }
    by rewrite (Hone i it Hi Hm), (Hone j it' Hj Hm').
  - intros it k Hin Hk. unfold owners. rewrite shared_sources. change (rf_items replaced) with replaced_items in Hin.
    unfold replaced_items in Hin. rewrite !elem_of_cons, elem_of_nil in Hin.
    destruct Hin as [->|[->|[]]]; rewrite !lookup_insert_ne, lookup_singleton_ne by (vm_compute; congruence);
      reflexivity.
Qed.


(** A fetch that fails. *)
Definition broken_fetcher : Fetcher :=
  {| ft_client := None; ft_Fetch := λ _, Err (driver_error "no route") |}.
#[local] Instance empty_parser : Parser :=
  {| ExtractWithCredentials := λ _, Ok (sample_payload []) |}.
Definition failed_run :=
  run (ReconcileSubscription moved_env "" None broken_fetcher "b") shared_inventory.

Lemma failed_refresh_keeps_inventory_witness :
  contents failed_run.2 = contents shared_inventory ∧
  ∃ sub, failure_recorded sub shared_inventory failed_run.2.
Proof.
  apply (failed_refresh_keeps_inventory moved_env "" None broken_fetcher "b" shared_inventory
    failed_run.1 failed_run.2).
  - reflexivity.
  - intros res. vm_compute. congruence.
Defined.
End Witness.
