(* ===== verification/InventoryInvariant.v ===== *)
(** * The invariant of the inventory tables

    [tables_ok] is what the schema of [migrations] promises of the tables of
    [InventoryStore]: every reference is to a row that exists, keys are unique, kinds and
    revisions are in range.  [feed_ok] is what only the services promise: where a payload, an
    entry and a source come from, and what a version stores.  The class [Kept] says of an
    invariant that the statements keep it; every operation of the services keeps such an
    invariant, and so does every interleaving of requests. *)

From S2P Require Import Prelude.
From S2P Require Import GoStrings.
From S2P Require Import Domain.
From S2P Require Import Lifecycle.
From S2P Require Import NodeFilter.
From S2P Require Import Services.
From S2P Require Import Requests.
From S2P Require Import Addresses.
From S2P Require Import FetchPolicy.
From S2P Require Import Fetch.
From S2P Require Import Connections.
From S2P Require Import InventoryStore.
From S2P Require Import Refresh.
From S2P Require Import InventoryService.
From S2P Require Import InventorySamples.
From S2P Require Import RefreshProperties.

Definition has {A} (m : gmap string A) (id : string) : Prop := is_Some (m !! id).
Definition has_opt {A} (m : gmap string A) (id : option string) : Prop :=
  match id with Some id => has m id | None => True end.

Record entry_ok (s : Inventory) (e : SubscriptionEntry) : Prop := {
  eo_sub : has (iv_subs s) (en_SubscriptionID e);
  eo_payload : has (iv_payloads s) (en_PayloadID e);
  eo_node : has_opt (iv_nodes s) (en_NodeLogicalID e);
  eo_kind : valid_entry_kind e = true
}.

Record tables_ok (s : Inventory) : Prop := {
  to_sources : ∀ m k f, owners s m !! k = Some f → has (iv_nodes s) m ∧ has (iv_subs s) k;
  to_fetches : ∀ k f, iv_fetches s !! k = Some f → has (iv_subs s) (sf_SubscriptionID f);
  to_payloads : ∀ k p, iv_payloads s !! k = Some p →
    has (iv_subs s) (py_SubscriptionID p) ∧ has (iv_fetches s) (py_FetchID p);
  to_pins : ∀ k, k ∈ iv_pins s → has (iv_payloads s) k;
  to_entries : ∀ e, e ∈ iv_entries s → entry_ok s e;
  to_entry_ids : NoDup (entry_ids s);
  to_history : ∀ n k h, iv_history s !! (n, k) = Some h →
    has (iv_nodes s) n ∧ has_opt (iv_subs s) (hr_SubscriptionID h);
  to_versions : ∀ n r v, iv_versions s !! (n, r) = Some v →
    has (iv_nodes s) n ∧ (∀ e, vr_SourceEntryID v = Some e → e ∈ entry_ids s);
  to_heads : ∀ n r, iv_heads s !! n = Some r → has (iv_nodes s) n ∧ is_Some (iv_versions s !! (n, r));
  to_overrides : ∀ n o, iv_overrides s !! n = Some o → has (iv_nodes s) n;
  to_revisions : ∀ n row, iv_nodes s !! n = Some row → (0 < nr_Revision row)%Z
}.

(** A statement that keeps the invariant whenever it succeeds. *)
Definition keeps (I : Inventory → Prop) (f : Inventory → result error Inventory) : Prop :=
  ∀ s s', I s → f s = Ok s' → I s'.

Create HintDb tables.
#[local] Hint Resolve to_sources to_fetches to_payloads to_pins to_entries to_entry_ids to_history to_versions
  to_heads to_overrides to_revisions : tables.

Lemma has_insert {A} (m : gmap string A) i x k : has m k → has (<[i := x]> m) k.
Proof. unfold has. rewrite lookup_insert_is_Some. destruct (decide (i = k)); auto. Qed.
Lemma has_inserted {A} (m : gmap string A) i x : has (<[i := x]> m) i.
Proof. unfold has. rewrite lookup_insert_eq. by eexists. Qed.
Lemma has_opt_insert {A} (m : gmap string A) i x k : has_opt m k → has_opt (<[i := x]> m) k.
Proof. destruct k; [apply has_insert|done]. Qed.
Lemma stored_has {A} (m : gmap string A) id : stored m id = true ↔ has m id.
Proof. unfold stored, has. apply bool_decide_eq_true. Qed.
Lemma stored_opt {A} (m : gmap string A) (o : option string) :
  match o with Some id => stored m id | None => true end = true ↔ has_opt m o.
Proof. destruct o; simpl; [apply stored_has|done]. Qed.
#[local] Hint Resolve has_insert has_inserted has_opt_insert : tables.

(** Tables that grow keep references to them. *)
Definition grows {A} (m m' : gmap string A) : Prop := ∀ k, has m k → has m' k.
Lemma grows_insert {A} (m : gmap string A) i x : grows m (<[i := x]> m).
Proof. intros k. apply has_insert. Qed.
Lemma grows_opt {A} (m m' : gmap string A) o : grows m m' → has_opt m o → has_opt m' o.
Proof. destruct o; simpl; auto. Qed.
Lemma grows_refl {A} (m : gmap string A) : grows m m.
Proof. by intros k. Qed.
#[local] Hint Resolve grows_insert grows_opt grows_refl : tables.

(** A statement on one table. *)
Lemma entry_ok_grows s s' e :
  grows (iv_subs s) (iv_subs s') → grows (iv_payloads s) (iv_payloads s') →
  grows (iv_nodes s) (iv_nodes s') → entry_ok s e → entry_ok s' e.
Proof. intros ? ? ? [? ? ? ?]. split; eauto using grows_opt. Qed.

Lemma keeps_exec I env label i f : keeps I f → keeps I (exec env label i f).
Proof. intros Hf s s' Hok He. eapply Hf; [done|]. by eapply exec_answers. Qed.

Lemma keeps_ignored I env label i f s : keeps I f → I s → I (exec_ignored env label i f s).
Proof.
  intros Hf Hok. destruct (exec_ignored_cases env label i f s) as [->|Hs]; [done|]. by eapply Hf.
Qed.

Lemma keeps_and (I J : Inventory → Prop) f : keeps I f → keeps J f → keeps (λ s, I s ∧ J s) f.
Proof. intros HI HJ s s' [? ?] Hf. split; [by eapply HI|by eapply HJ]. Qed.

Lemma keeps_when I (b : bool) f : keeps I f → keeps I (λ s, if b then f s else Ok s).
Proof. intros Hf s s' Hok. destruct b; [by apply Hf|by intros [= <-]]. Qed.

(** Nodes that change without a name going away. *)
Lemma nodes_ok nodes s :
  tables_ok s → grows (iv_nodes s) nodes → (∀ n row, nodes !! n = Some row → (0 < nr_Revision row)%Z) →
  tables_ok (with_nodes nodes s).
Proof.
  intros [] Hg Hr. split; simpl; eauto.
  - intros m k f Hf. destruct (to_sources0 m k f Hf). auto.
  - intros e He. eapply entry_ok_grows; [..|by apply to_entries0]; by eauto using grows_refl.
  - intros n k h Hh. destruct (to_history0 n k h Hh). auto.
  - intros n r v Hv. destruct (to_versions0 n r v Hv). auto.
  - intros n r Hh. destruct (to_heads0 n r Hh). auto.
Qed.

Lemma keeps_upsert_node id row : keeps tables_ok (upsert_node id row).
Proof.
  intros s s' Hok. unfold upsert_node. destruct (_ <=? _)%Z eqn:E; [done|]. intros [= <-].
  apply nodes_ok; [done|apply grows_insert|]. intros n r. rewrite lookup_insert_Some.
  intros [[-> <-]|[_ Hn]]; [lia|by eapply to_revisions].
Qed.

Lemma owners_with sources s m : owners (with_sources sources s) m = default ∅ (sources !! m).
Proof. done. Qed.

Lemma sources_ok sources s :
  tables_ok s → (∀ m k f, default ∅ (sources !! m) !! k = Some f → has (iv_nodes s) m ∧ has (iv_subs s) k) →
  tables_ok (with_sources sources s).
Proof.
  intros [] Hs. split; simpl; eauto. intros e He. destruct (to_entries0 e He). by split.
Qed.

Lemma keeps_upsert_source n sub f : keeps tables_ok (upsert_source n sub f).
Proof.
  intros s s' Hok. unfold upsert_source. destruct (stored (iv_nodes s) n) eqn:E1; [|done].
  destruct (stored (iv_subs s) sub) eqn:E2; [|done]. intros [= <-]. apply stored_has in E1, E2.
  apply sources_ok; [done|]. intros m k f'. destruct (decide (n = m)) as [->|Hm].
  - rewrite lookup_insert_eq. simpl. rewrite lookup_insert_Some.
    intros [[<- _]|[_ Hk]]; [done|by eapply to_sources].
  - rewrite lookup_insert_ne by done. by apply to_sources.
Qed.

Lemma keeps_delete_source n sub : keeps tables_ok (delete_source n sub).
Proof.
  intros s s' Hok. unfold delete_source. intros [= <-]. apply sources_ok; [done|]. intros m k f'.
  destruct (decide (n = m)) as [->|Hm].
  - rewrite lookup_insert_eq. simpl. rewrite lookup_delete_Some. intros [_ Hk]. by eapply to_sources.
  - rewrite lookup_insert_ne by done. by apply to_sources.
Qed.

Lemma keeps_upsert_history n key row : keeps tables_ok (upsert_history n key row).
Proof.
  intros s s' Hok. unfold upsert_history. destruct (stored (iv_nodes s) n) eqn:E1; [|done].
  destruct (match hr_SubscriptionID row with Some _ => _ | None => _ end) eqn:E2; [|done]. intros [= <-].
  apply stored_has in E1. apply stored_opt in E2. destruct Hok. split; simpl; eauto.
  - intros e He. destruct (to_entries0 e He). by split.
  - intros n' k h. rewrite lookup_insert_Some. intros [[[= <- <-] <-]|[_ Hh]]; [|by eapply to_history0].
    split; [done|]. destruct (iv_history s !! (n, key)) as [old|] eqn:Eo; [|done].
    simpl. by eapply to_history0.
Qed.

Lemma keeps_upsert_version keep n rev row : keeps tables_ok (upsert_version keep n rev row).
Proof.
  intros s s' Hok. unfold upsert_version.
  set (row' := match iv_versions s !! (n, rev) with Some _ => _ | None => _ end).
  destruct (stored (iv_nodes s) n) eqn:E1; [|done].
  destruct (match vr_SourceEntryID row' with Some _ => _ | None => _ end) eqn:E2; [|done]. intros [= <-].
  apply stored_has in E1. destruct Hok. split; simpl; eauto.
  - intros e He. destruct (to_entries0 e He). by split.
  - intros n' r v. rewrite lookup_insert_Some. intros [[[= <- <-] <-]|[_ Hv]]; [|by eapply to_versions0].
    split; [done|]. intros e He. rewrite He in E2. by apply mem_str_spec.
  - intros n' r Hh. destruct (to_heads0 n' r Hh) as [? Hv]. split; [done|].
    rewrite lookup_insert_is_Some. destruct (decide ((n, rev) = (n', r))); auto.
Qed.

Lemma keeps_upsert_head n rev : keeps tables_ok (upsert_head n rev).
Proof.
  intros s s' Hok. unfold upsert_head. destruct (stored (iv_nodes s) n) eqn:E1; [|done].
  simpl. case_bool_decide as E2; [|done]. intros [= <-]. apply stored_has in E1.
  destruct Hok. split; simpl; eauto.
  - intros e He. destruct (to_entries0 e He). by split.
  - intros n' r. rewrite lookup_insert_Some. intros [[<- <-]|[_ Hh]]; [done|by eapply to_heads0].
Qed.

Lemma keeps_upsert_override n field v : keeps tables_ok (upsert_override n field v).
Proof.
  intros s s' Hok. unfold upsert_override. destruct (stored (iv_nodes s) n) eqn:E1; [|done].
  intros [= <-]. apply stored_has in E1. destruct Hok. split; simpl; eauto.
  - intros e He. destruct (to_entries0 e He). by split.
  - intros n' o. rewrite lookup_insert_Some. intros [[<- _]|[_ Hh]]; [done|by eapply to_overrides0].
Qed.

Lemma keeps_insert_fetch id f : keeps tables_ok (insert_fetch id f).
Proof.
  intros s s' Hok. unfold insert_fetch. destruct (stored (iv_fetches s) id); [done|].
  destruct (stored (iv_subs s) _) eqn:E; [|done]. intros [= <-]. apply stored_has in E.
  destruct Hok. split; simpl; eauto.
  - intros k f'. rewrite lookup_insert_Some. intros [[_ <-]|[_ Hf]]; [done|by eapply to_fetches0].
  - intros k p Hp. destruct (to_payloads0 k p Hp). split; [done|by apply has_insert].
  - intros e He. destruct (to_entries0 e He). by split.
Qed.

Lemma keeps_insert_payload id p : keeps tables_ok (insert_payload id p).
Proof.
  intros s s' Hok. unfold insert_payload. destruct (stored (iv_payloads s) id); [done|].
  destruct (stored (iv_subs s) _) eqn:E1; [|done]. destruct (stored (iv_fetches s) _) eqn:E2; [|done].
  intros [= <-]. apply stored_has in E1, E2. destruct Hok. split; simpl; eauto.
  - intros k p'. rewrite lookup_insert_Some. intros [[_ <-]|[_ Hf]]; [done|by eapply to_payloads0].
  - intros k Hk. apply has_insert. by apply to_pins0.
  - intros e He. destruct (to_entries0 e He). split; simpl; [done|by apply has_insert|done..].
Qed.

(** The entries change, and keep their identifiers. *)
Lemma entries_ok entries s :
  tables_ok s → (∀ e, e ∈ entries → entry_ok s e) → NoDup (map en_ID entries) →
  (∀ id, id ∈ entry_ids s → id ∈ map en_ID entries) → tables_ok (with_entries entries s).
Proof.
  intros [] He Hn Hid. split; simpl; eauto.
  - intros e Hin. destruct (He e Hin). by split.
  - intros n r v Hv. destruct (to_versions0 n r v Hv) as [? Hs]. split; [done|]. intros e Hve.
    apply Hid, Hs, Hve.
Qed.

Lemma keeps_insert_entry e : keeps tables_ok (insert_entry e).
Proof.
  intros s s' Hok. unfold insert_entry. destruct (mem_str _ _) eqn:Em; [done|].
  destruct (valid_entry_kind e) eqn:Ek; [|done]. simpl.
  destruct (stored (iv_payloads s) _) eqn:E1; [|done]. destruct (stored (iv_subs s) _) eqn:E2; [|done].
  destruct (match en_NodeLogicalID e with Some _ => _ | None => _ end) eqn:E3; [|done]. simpl.
  apply mem_str_false in Em. apply stored_has in E1, E2. apply stored_opt in E3.
  assert (entry_ok s e) as Hnew by (by split). pose proof (to_entries s Hok) as Hold.
  destruct (existsb _ _); intros [= <-].
  - match goal with |- tables_ok (with_entries (map ?f _) _) => set (g := f) end.
    assert (map en_ID (map g (iv_entries s)) = entry_ids s) as Eids.
    { rewrite map_map. apply map_ext. intros o. unfold g. by destruct (_ && _). }
    apply entries_ok; rewrite ?Eids; [done| |by apply to_entry_ids|done].
    intros o (o' & -> & Ho)%list_elem_of_fmap. destruct (Hold o' Ho). unfold g.
    destruct (_ && _); [|by split]. split; simpl; try done.
  - apply entries_ok; [done| | |].
    + intros o [Ho| ->%list_elem_of_singleton]%elem_of_app; auto.
    + rewrite map_app. apply NoDup_app. split; [by apply to_entry_ids|]. split.
      * intros x Hx ->%list_elem_of_singleton. done.
      * by apply NoDup_singleton.
    + intros x Hx. rewrite map_app. apply elem_of_app. by left.
Qed.

Lemma keeps_recompute_name prior n : keeps tables_ok (λ s, recompute_name prior s n).
Proof.
  intros s s' Hok. unfold recompute_name. intros Hr. apply let_ok in Hr as (name & _ & [= <-]).
  destruct name as [name|]; [|done]. apply nodes_ok; [done| |].
  - intros k. unfold has. by rewrite lookup_alter_is_Some.
  - intros k row. rewrite lookup_alter_Some. intros [(-> & r & Hr & ->)|[_ Hr]];
      exact (to_revisions _ Hok _ _ Hr).
Qed.

Lemma keeps_prune_sources sub f : keeps tables_ok (prune_sources sub f).
Proof.
  intros s s' Hok. unfold prune_sources. intros [= <-]. apply sources_ok; [done|]. intros m k g.
  rewrite lookup_fmap. intros Hg. apply (to_sources s Hok m k g). unfold owners.
  destruct (iv_sources s !! m) as [o|]; simpl in *; [|done]. destruct (o !! sub); [|done].
  destruct (String.eqb _ _); [done|]. by apply lookup_delete_Some in Hg as [_ ?].
Qed.

(** The statement of [SetUserOverride]. *)
Definition set_override (env : InvEnv) (id : string) (kind : option string) (anchor reason actor : string)
    (s : Inventory) : result error Inventory :=
  if negb (mem_str id (entry_ids s)) then Err entry_not_found
  else if match kind with Some k => negb (EntryKind_IsValid k) | None => false end
  then Err (constraint_failed "CHECK")
  else Ok (with_entries (map (λ e, if String.eqb (en_ID e) id
             then override_entry kind anchor reason actor (rfc3339 (ie_now env)) e else e)
             (iv_entries s)) s).

Lemma keeps_set_override env id kind anchor reason actor :
  keeps tables_ok (set_override env id kind anchor reason actor).
Proof.
  intros s s' Hok. unfold set_override. destruct (negb _); [done|].
  destruct (match kind with Some _ => _ | None => _ end) eqn:Ek; [done|]. intros [= <-].
  match goal with |- tables_ok (with_entries (map ?f _) _) => set (g := f) end.
  assert (map en_ID (map g (iv_entries s)) = entry_ids s) as Eids.
  { rewrite map_map. apply map_ext. intros o. unfold g. by destruct (String.eqb _ _). }
  apply entries_ok; rewrite ?Eids; [done| |by apply to_entry_ids|done].
  intros o (o' & -> & Ho)%list_elem_of_fmap. destruct (to_entries s Hok o' Ho). unfold g.
  destruct (String.eqb _ _); [|by split]. split; simpl; try done. unfold valid_entry_kind in *. simpl.
  apply andb_true_iff in eo_kind0 as [-> _]. destruct kind; [|done]. by apply negb_false_iff in Ek.
Qed.

Lemma trail_keeps t s : tables_ok s → tables_ok (with_trail t s).
Proof. intros []. split; simpl; eauto. intros e He. destruct (to_entries0 e He). by split. Qed.

Lemma subs_ok subs s : tables_ok s → grows (iv_subs s) subs → tables_ok (with_subs subs s).
Proof.
  intros [] Hg. split; simpl; eauto.
  - intros m k f Hf. destruct (to_sources0 m k f Hf). auto.
  - intros k p Hp. destruct (to_payloads0 k p Hp). auto.
  - intros e He. eapply entry_ok_grows; [..|by apply to_entries0]; by eauto using grows_refl.
  - intros n k h Hh. destruct (to_history0 n k h Hh). eauto using grows_opt.
Qed.

Lemma deactivate_orphans_keeps id s : tables_ok s → tables_ok (deactivate_orphans id s).
Proof.
  intros Hok. unfold deactivate_orphans. apply nodes_ok; [done| |].
  - intros k [row Hr]. unfold has. rewrite map_lookup_imap, Hr. by eexists.
  - intros n row. rewrite map_lookup_imap. destruct (iv_nodes s !! n) as [r|] eqn:Hr; simpl; [|done].
    intros [= <-]. pose proof (to_revisions s Hok n r Hr). by destruct (_ && _ && _).
Qed.
Lemma NoDup_map_filter {A B} (f : A → B) (P : A → bool) l :
  NoDup (map f l) → NoDup (map f (List.filter P l)).
Proof.
  induction l as [|x l IH]; simpl; [done|]. intros [Hx Hl]%NoDup_cons. destruct (P x); [|auto].
  simpl. apply NoDup_cons. split; [|auto]. intros (y & E & Hy)%list_elem_of_fmap. apply Hx.
  apply list_elem_of_fmap. exists y. split; [done|]. apply list_elem_of_In, filter_In in Hy as [Hy _].
  by apply list_elem_of_In.
Qed.

Lemma has_delete {A} (m : gmap string A) id k : has m k → k ≠ id → has (delete id m) k.
Proof. intros Hk Hne. unfold has. by rewrite lookup_delete_ne. Qed.

Section TablesDeletion.
Context (id : string) (s s' : Inventory) (Hok : tables_ok s).
Context (Hpins : ∀ k p, iv_payloads s !! k = Some p → k ∈ iv_pins s → payload_gone s id p = false).
Context (Hdel : delete_subscription id s = Ok s').

Lemma kept_fetch k f : iv_fetches s !! k = Some f → fetch_gone id f = false → has (iv_fetches s') k.
Proof.
  intros Hf Hg. unfold delete_subscription in Hdel. destruct (existsb _ _); [done|].
  injection Hdel as <-. exists f. simpl. by apply map_lookup_filter_Some.
Qed.

Lemma kept_payload k p : iv_payloads s !! k = Some p → payload_gone s id p = false → has (iv_payloads s') k.
Proof.
  intros Hf Hg. unfold delete_subscription in Hdel. destruct (existsb _ _); [done|].
  injection Hdel as <-. exists p. simpl. by apply map_lookup_filter_Some.
Qed.

Lemma kept_sub k : has (iv_subs s) k → k ≠ id → has (iv_subs s') k.
Proof.
  unfold delete_subscription in Hdel. destruct (existsb _ _); [done|]. injection Hdel as <-. apply has_delete.
Qed.

Lemma kept_entry e : e ∈ iv_entries s → entry_gone s id e = false → entry_ok s' e.
Proof.
  intros He Hg. destruct (to_entries s Hok e He) as [Es Ep En Ek]. unfold entry_gone in Hg.
  apply orb_false_iff in Hg as [Hs%String.eqb_neq Hp]. destruct Ep as [p Hpl]. rewrite Hpl in Hp. split.
  - by apply kept_sub.
  - by eapply kept_payload.
  - unfold delete_subscription in Hdel. destruct (existsb _ _); [done|]. by injection Hdel as <-.
  - done.
Qed.

Lemma deletion_keeps : tables_ok s'.
Proof.
  pose proof kept_entry as Hentry. pose proof kept_payload as Hpayload. pose proof kept_fetch as Hfetch.
  pose proof kept_sub as Hsub. unfold delete_subscription in Hdel. destruct (existsb _ _); [done|].
  injection Hdel as Es'. destruct Hok. split; rewrite <- Es' in *; simpl in *.
  - intros m k f. unfold owners. simpl. rewrite lookup_fmap. intros Hf.
    destruct (iv_sources s !! m) as [o|] eqn:Eo; simpl in Hf; [|done].
    apply lookup_delete_Some in Hf as [Hne Hf].
    destruct (to_sources0 m k f) as [? ?]; [unfold owners; by rewrite Eo|]. auto.
  - intros k f [Hf Hg%String.eqb_neq]%map_lookup_filter_Some. simpl in Hg. eauto.
  - intros k p [Hp Hg]%map_lookup_filter_Some. simpl in Hg. destruct (to_payloads0 k p Hp) as [? [f Hf]].
    unfold payload_gone in Hg. apply orb_false_iff in Hg as [Hs%String.eqb_neq Hg]. rewrite Hf in Hg. eauto.
  - intros k Hk. destruct (to_pins0 k Hk) as [p Hp]. eauto.
  - intros e He. apply list_elem_of_In, filter_In in He as [He Hg]. apply negb_true_iff in Hg.
    apply Hentry; [by apply list_elem_of_In|done].
  - by apply NoDup_map_filter.
  - intros n k h. rewrite lookup_fmap, fmap_Some. intros (h0 & Hh & ->). destruct (to_history0 n k h0 Hh).
    split; [done|]. simpl. destruct (decide _) as [|Hne]; [done|]. destruct (hr_SubscriptionID h0); [|done].
    simpl in *. apply Hsub; [done|]. by intros ->.
  - intros n r v. rewrite lookup_fmap, fmap_Some. intros (v0 & Hv & ->). destruct (to_versions0 n r v0 Hv) as [? Hin].
    split; [done|]. intros e. simpl. destruct (vr_SourceEntryID v0) as [e0|]; [|done].
    destruct (mem_str e0 _) eqn:Eg; [done|]. intros [= ->]. apply mem_str_false in Eg.
    specialize (Hin e eq_refl). apply list_elem_of_fmap in Hin as (x & -> & Hx). apply list_elem_of_fmap.
    exists x. split; [done|]. apply list_elem_of_In, filter_In. split; [by apply list_elem_of_In|].
    apply negb_true_iff. destruct (entry_gone s id x) eqn:Ex; [|done]. destruct Eg. apply list_elem_of_fmap.
    exists x. split; [done|]. apply list_elem_of_In, filter_In. split; [by apply list_elem_of_In|done].
  - intros n r Hh. destruct (to_heads0 n r Hh) as [? [v Hv]]. split; [done|]. rewrite lookup_fmap, Hv. by eexists.
  - done.
  - done.
Qed.
End TablesDeletion.

Lemma keeps_delete_subscription id : keeps tables_ok (delete_subscription id).
Proof.
  intros s s' Hok Hd. eapply deletion_keeps; [done| |done]. intros k p Hp Hk.
  unfold delete_subscription in Hd. destruct (existsb _ _) eqn:Ex; [done|].
  destruct (payload_gone s id p) eqn:Eg; [|done]. apply not_true_iff_false in Ex. destruct Ex.
  apply existsb_exists. exists (k, p). split; [by apply list_elem_of_In, elem_of_map_to_list|].
  simpl. by rewrite Eg, bool_decide_eq_true_2.
Qed.

(** ** Where rows come from *)

Section Feed.
Context `{GoText} `{Sha256} `{ConnectionJSON} `{CredentialsJSON}.

(** A stored fetch of the subscription that did not fail. *)
Definition fetched (s : Inventory) (sub fetch : string) : Prop :=
  ∃ f, iv_fetches s !! fetch = Some f ∧ sf_SubscriptionID f = sub ∧ sf_Outcome f ≠ FetchOutcomeFailed.

(** A stored payload of the subscription. *)
Definition received (s : Inventory) (sub payload : string) : Prop :=
  ∃ p, iv_payloads s !! payload = Some p ∧ py_SubscriptionID p = sub.

(** A payload is what its fetch brought. *)
Definition brought (s : Inventory) (p : SubscriptionPayload) : Prop :=
  ∃ f, iv_fetches s !! py_FetchID p = Some f ∧ sf_SubscriptionID f = py_SubscriptionID p ∧
    sf_Outcome f ≠ FetchOutcomeFailed ∧ sf_ContentDigest f = py_ContentDigest p.

(** The fingerprint of a version is that of the connection it stores. *)
Definition version_ok (v : VersionRow) : Prop :=
  ∃ server port c,
    vr_Config v = {| ec_Server := server; ec_Port := port; ec_Credentials := marshal_creds c |} ∧
    vr_Fingerprint v = ComputeConnectionFingerprint server port c.

Record feed_ok (s : Inventory) : Prop := {
  fd_payloads : ∀ k p, iv_payloads s !! k = Some p → brought s p;
  fd_entries : ∀ e, e ∈ iv_entries s → received s (en_SubscriptionID e) (en_PayloadID e);
  fd_sources : ∀ m k f, owners s m !! k = Some f → fetched s k f;
  fd_versions : ∀ n r v, iv_versions s !! (n, r) = Some v → version_ok v
}.

(** The fetch and the payload of a refresh that runs. *)
Definition running (fetch payload sub : string) (s : Inventory) : Prop :=
  fetched s sub fetch ∧ received s sub payload.

(** Statements on other tables. *)
Lemma feed_frame s s' :
  iv_fetches s' = iv_fetches s → iv_payloads s' = iv_payloads s → iv_entries s' = iv_entries s →
  iv_sources s' = iv_sources s → iv_versions s' = iv_versions s → feed_ok s → feed_ok s'.
Proof.
  intros Ef Ep Ee Es Ev []. split; unfold brought, received, fetched, owners in *; rewrite ?Ef, ?Ep, ?Ee, ?Es, ?Ev; done.
Qed.

Lemma running_frame fetch payload sub s s' :
  iv_fetches s' = iv_fetches s → iv_payloads s' = iv_payloads s → running fetch payload sub s →
  running fetch payload sub s'.
Proof. intros Ef Ep. unfold running, fetched, received. by rewrite Ef, Ep. Qed.

Lemma feed_insert_fetch id f : keeps feed_ok (insert_fetch id f).
Proof.
  intros s s' []. unfold insert_fetch. destruct (stored (iv_fetches s) id) eqn:Hid; [done|].
  destruct (negb _); [done|]. intros [= <-].
  assert (∀ k g, iv_fetches s !! k = Some g → <[id := f]> (iv_fetches s) !! k = Some g) as Hkeep.
  { intros k g Hk. rewrite lookup_insert_ne; [done|]. intros ->.
    apply not_true_iff_false in Hid. apply Hid. unfold stored. apply bool_decide_eq_true. by eexists. }
  split; simpl; [| |intros m k g Hg|done].
  - intros k p (g & Hg & ?)%fd_payloads0. exists g. split; [by apply Hkeep|done].
  - done.
  - destruct (fd_sources0 m k g Hg) as (g' & ? & ?). exists g'. split; [by apply Hkeep|done].
Qed.

Lemma feed_insert_payload id p s s' :
  feed_ok s → brought s p → insert_payload id p s = Ok s' →
  feed_ok s' ∧ received s' (py_SubscriptionID p) id ∧ iv_fetches s' = iv_fetches s.
Proof.
  intros [] Hp. unfold insert_payload. destruct (stored (iv_payloads s) id) eqn:Hid; [done|].
  destruct (negb _); [done|]. intros [= <-]. split; [|split; [|done]].
  - split; simpl; [|intros e He|done..].
    + intros k q. rewrite lookup_insert_Some. intros [[_ <-]|[_ Hq]]; [done|by eapply fd_payloads0].
    + destruct (fd_entries0 e He) as (q & Hq & ?). exists q. split; [|done].
      simpl. rewrite lookup_insert_ne; [done|]. intros ->.
      apply not_true_iff_false in Hid. apply Hid. unfold stored. apply bool_decide_eq_true. by eexists.
  - exists p. simpl. by rewrite lookup_insert_eq.
Qed.

Lemma feed_entries entries s :
  feed_ok s → (∀ e, e ∈ entries → received s (en_SubscriptionID e) (en_PayloadID e)) →
  feed_ok (with_entries entries s).
Proof. intros [] He. by split. Qed.

Lemma feed_insert_entry e s s' :
  feed_ok s → received s (en_SubscriptionID e) (en_PayloadID e) → insert_entry e s = Ok s' → feed_ok s'.
Proof.
  intros Hok He. unfold insert_entry. destruct (mem_str _ _); [done|]. destruct (negb _); [done|].
  destruct (negb _); [done|]. pose proof (fd_entries s Hok) as Hold.
  destruct (existsb _ _); intros [= <-]; apply feed_entries; try done.
  - intros o (o' & -> & Ho)%list_elem_of_fmap. destruct (_ && _); [|by apply Hold]. simpl. by apply Hold.
  - intros o [Ho| ->%list_elem_of_singleton]%elem_of_app; auto.
Qed.

Lemma feed_sources sources s :
  feed_ok s → (∀ m k f, default ∅ (sources !! m) !! k = Some f → fetched s k f) →
  feed_ok (with_sources sources s).
Proof. intros [] Hs. by split. Qed.

Lemma feed_upsert_source n sub f s s' :
  feed_ok s → fetched s sub f → upsert_source n sub f s = Ok s' → feed_ok s'.
Proof.
  intros Hok Hf. unfold upsert_source. destruct (negb _); [done|]. intros [= <-].
  apply feed_sources; [done|]. intros m k g. destruct (decide (n = m)) as [->|Hm].
  - rewrite lookup_insert_eq. simpl. rewrite lookup_insert_Some.
    intros [[<- <-]|[_ Hk]]; [done|by eapply fd_sources].
  - rewrite lookup_insert_ne by done. by apply fd_sources.
Qed.

Lemma feed_delete_source n sub : keeps feed_ok (delete_source n sub).
Proof.
  intros s s' Hok. unfold delete_source. intros [= <-]. apply feed_sources; [done|]. intros m k g.
  destruct (decide (n = m)) as [->|Hm].
  - rewrite lookup_insert_eq. simpl. rewrite lookup_delete_Some. intros [_ Hk]. by eapply fd_sources.
  - rewrite lookup_insert_ne by done. by apply fd_sources.
Qed.

Lemma feed_prune_sources sub f : keeps feed_ok (prune_sources sub f).
Proof.
  intros s s' Hok. unfold prune_sources. intros [= <-]. apply feed_sources; [done|]. intros m k g.
  rewrite lookup_fmap. intros Hg. apply (fd_sources s Hok m k g). unfold owners.
  destruct (iv_sources s !! m) as [o|]; simpl in *; [|done]. destruct (o !! sub); [|done].
  destruct (String.eqb _ _); [done|]. by apply lookup_delete_Some in Hg as [_ ?].
Qed.

Lemma feed_upsert_version keep n rev row : version_ok row → keeps feed_ok (upsert_version keep n rev row).
Proof.
  intros Hrow s s' []. unfold upsert_version.
  set (row' := match iv_versions s !! (n, rev) with Some _ => _ | None => _ end).
  assert (version_ok row') as Hrow' by (unfold row'; by destruct (iv_versions s !! (n, rev))).
  destruct (negb _); [done|]. intros [= <-]. split; simpl; try done.
  intros n' r v. rewrite lookup_insert_Some. intros [[_ <-]|[_ Hv]]; [done|by eapply fd_versions0].
Qed.

Lemma feed_delete_subscription id : keeps feed_ok (delete_subscription id).
Proof.
  intros s s' []. unfold delete_subscription. destruct (existsb _ _); [done|]. intros [= <-].
  split; unfold brought, received, fetched, owners; simpl.
  - intros k p [Hp Hg]%map_lookup_filter_Some. simpl in Hg.
    destruct (fd_payloads0 k p Hp) as (f & Hf & ?). exists f. split; [|done].
    apply map_lookup_filter_Some. split; [done|]. unfold payload_gone in Hg. rewrite Hf in Hg.
    by apply orb_false_iff in Hg as [_ ?].
  - intros e He. apply list_elem_of_In, filter_In in He as [He Hg]. apply negb_true_iff in Hg.
    destruct (fd_entries0 e) as (p & Hp & ?); [by apply list_elem_of_In|]. exists p. split; [|done].
    apply map_lookup_filter_Some. split; [done|]. unfold entry_gone in Hg. rewrite Hp in Hg.
    by apply orb_false_iff in Hg as [_ ?].
  - intros m k f. rewrite lookup_fmap. intros Hf.
    destruct (iv_sources s !! m) as [o|] eqn:Eo; simpl in Hf; [|done].
    apply lookup_delete_Some in Hf as [Hne Hf].
    destruct (fd_sources0 m k f) as (g & Hg & ? & ?); [unfold owners; by rewrite Eo|]. exists g.
    split; [|done]. apply map_lookup_filter_Some. split; [done|]. simpl. unfold fetch_gone.
    apply String.eqb_neq. congruence.
  - intros n r v. rewrite lookup_fmap, fmap_Some. intros (v0 & Hv & ->).
    exact (fd_versions0 n r v0 Hv).
Qed.

(** ** Invariants that the statements keep *)

(** The statements of the refresh and of the edits, whatever the subscription. *)
Class Kept (I : Inventory → Prop) : Prop := {
  kept_node id row : keeps I (upsert_node id row);
  kept_unsource n sub : keeps I (delete_source n sub);
  kept_prune sub f : keeps I (prune_sources sub f);
  kept_history n key row : keeps I (upsert_history n key row);
  kept_version keep n rev row : version_ok row → keeps I (upsert_version keep n rev row);
  kept_head n rev : keeps I (upsert_head n rev);
  kept_override n field v : keeps I (upsert_override n field v);
  kept_name prior n : keeps I (λ s, recompute_name prior s n)
}.

(** The statements of the refresh that name its subscription, its fetch and its payload. *)
Class KeptBy (I : Inventory → Prop) (r : refresh) : Prop := {
  kept_source n : keeps I (upsert_source n (sub_ID (rf_sub r)) (rf_fetchID r));
  kept_line e : en_SubscriptionID e = sub_ID (rf_sub r) → en_PayloadID e = rf_payloadID r →
    keeps I (insert_entry e)
}.

(** The statements of the other requests. *)
Class KeptByAll (I : Inventory → Prop) : Prop := {
  kept_new_fetch id f : keeps I (insert_fetch id f);
  kept_user_kind env id kind anchor reason actor : keeps I (set_override env id kind anchor reason actor);
  kept_trail t s : I s → I (with_trail t s);
  kept_subs subs s : I s → grows (iv_subs s) subs → I (with_subs subs s);
  kept_orphans id s : I s → I (deactivate_orphans id s);
  kept_deletion id : keeps I (delete_subscription id)
}.

#[export] Instance tables_kept : Kept tables_ok.
Proof.
  split; intros.
  - apply keeps_upsert_node.
  - apply keeps_delete_source.
  - apply keeps_prune_sources.
  - apply keeps_upsert_history.
  - apply keeps_upsert_version.
  - apply keeps_upsert_head.
  - apply keeps_upsert_override.
  - apply keeps_recompute_name.
Qed.

#[export] Instance tables_kept_by r : KeptBy tables_ok r.
Proof. split; intros; [apply keeps_upsert_source|apply keeps_insert_entry]. Qed.

#[export] Instance tables_kept_by_all : KeptByAll tables_ok.
Proof.
  split; intros.
  - apply keeps_insert_fetch.
  - apply keeps_set_override.
  - by apply trail_keeps.
  - by apply subs_ok.
  - by apply deactivate_orphans_keeps.
  - apply keeps_delete_subscription.
Qed.

(** A statement that leaves the tables of the feed alone. *)
Ltac other_tables :=
  intros s s' Hs Hf; revert Hs; revert Hf; unfold upsert_node, upsert_history, upsert_head, upsert_override;
  try (destruct (negb _); [done|]); try (destruct (_ <=? _)%Z; [done|]);
  intros [= <-]; by first [apply feed_frame | apply running_frame].

#[export] Instance feed_kept : Kept feed_ok.
Proof.
  split; intros.
  - other_tables.
  - apply feed_delete_source.
  - apply feed_prune_sources.
  - other_tables.
  - by apply feed_upsert_version.
  - other_tables.
  - other_tables.
  - intros s s' Hs. unfold recompute_name. intros Hr. apply let_ok in Hr as (name & _ & [= <-]).
    destruct name as [name|]; [|done]. by eapply feed_frame, Hs.
Qed.

#[export] Instance running_kept fetch payload sub : Kept (running fetch payload sub).
Proof.
  split; intros.
  - other_tables.
  - intros s s' Hs. unfold delete_source. intros [= <-]. done.
  - intros s s' Hs. unfold prune_sources. intros [= <-]. done.
  - other_tables.
  - intros s s' Hs. unfold upsert_version. destruct (negb _); [done|]. intros [= <-]. done.
  - other_tables.
  - other_tables.
  - intros s s' Hs. unfold recompute_name. intros Hr. apply let_ok in Hr as (name & _ & [= <-]).
    by destruct name.
Qed.

#[export] Instance feed_kept_by_all : KeptByAll feed_ok.
Proof.
  split; intros.
  - apply feed_insert_fetch.
  - intros s s' Hok. unfold set_override. destruct (negb _); [done|].
    destruct (match kind with Some _ => _ | None => _ end); [done|]. intros [= <-].
    apply feed_entries; [done|]. intros o (o' & -> & Ho)%list_elem_of_fmap.
    pose proof (fd_entries s Hok o' Ho). by destruct (String.eqb _ _).
  - by apply (feed_frame s).
  - by apply (feed_frame s).
  - by apply (feed_frame s).
  - apply feed_delete_subscription.
Qed.

#[export] Instance and_kept I J : Kept I → Kept J → Kept (λ s, I s ∧ J s).
Proof. intros [] []. split; intros; apply keeps_and; auto. Qed.

#[export] Instance and_kept_by_all I J : KeptByAll I → KeptByAll J → KeptByAll (λ s, I s ∧ J s).
Proof.
  intros [] []. split; intros; try (apply keeps_and; auto);
    match goal with E : _ ∧ _ |- _ => destruct E end; auto.
Qed.
End Feed.

(** ** The refresh *)

Lemma keeps_names_of I ids prior :
  (∀ n, keeps I (λ s, recompute_name prior s n)) → keeps I (RecomputeNodeDisplayNames ids prior).
Proof.
  intros Hk s s' Hok. unfold RecomputeNodeDisplayNames. intros Hr. apply let_ok in Hr as ([seen s2] & Hf & [= <-]).
  eapply (fold_res_inv (λ acc : list string * Inventory, I acc.2)) in Hf; [done|done|].
  intros [seen1 s3] id acc' _ Hs. simpl in *. destruct (mem_str id seen1); [by intros [= <-]|].
  intros Hn. apply let_ok in Hn as (s4 & Hn & [= <-]). simpl. by eapply Hk.
Qed.

(** A transaction. *)
Lemma transaction_keeps {A} (I : Inventory → Prop) env label (body : Inventory → result error (A * Inventory)) s :
  (∀ a s', body s = Ok (a, s') → I s') → I s → I (transaction env label body s).2.
Proof.
  intros Hb Hok. destruct (transaction env label body s) as [[a|e] s'] eqn:E; simpl.
  - eapply Hb. by eapply transaction_ok.
  - by apply transaction_err in E as ->.
Qed.

Section RefreshKeeps.
Context `{GoText} `{Sha256} `{MapOrder} `{ConnectionJSON} `{CredentialsJSON} `{EntryScan}.
Context (env : InvEnv).

Section Statements.
Context (I : Inventory → Prop) `{!Kept I}.

Lemma keeps_names ids prior : keeps I (RecomputeNodeDisplayNames ids prior).
Proof. apply keeps_names_of, kept_name. Qed.

Lemma keeps_archive label cause kind sub key i rows : keeps I (archive env label cause kind sub key i rows).
Proof.
  revert i. induction rows as [|[n f] rows IH]; intros i s s' Hok; simpl; [by intros [= <-]|].
  intros Ha. apply let_ok in Ha as (s2 & Hu & Ha). eapply IH; [|done].
  eapply keeps_exec; [apply kept_history|done|done].
Qed.

Lemma effective_version_ok n entry :
  version_ok {| vr_Config := effective n;
    vr_Fingerprint := ComputeConnectionFingerprint (node_Server n) (node_Port n) (node_Credentials n);
    vr_SourceEntryID := entry |}.
Proof. by exists (node_Server n), (node_Port n), (node_Credentials n). Qed.

Lemma write_version_keeps i entry id rev n s : I s → I (write_version env i entry id rev n s).
Proof.
  intros. unfold write_version. destruct (answered _ _ _); [|done].
  apply keeps_ignored; [apply kept_version, effective_version_ok|done].
Qed.

Lemma write_version_head_keeps i entry id rev n s : I s → I (write_version_head env i entry id rev n s).
Proof.
  intros. unfold write_version_head. destruct (_ && _); [|done]. apply keeps_ignored; [apply kept_head|].
  by apply write_version_keeps.
Qed.

Section OneRefresh.
Context (r : refresh) `{!KeptBy I r}.

Lemma keeps_unlink i x : keeps I (unlink env r i x).
Proof.
  intros s s' Hok Hu. unfold unlink in Hu. apply let_ok in Hu as (s2 & Hh & Hu).
  assert (I s2).
  { destruct (answered _ _ _); [|by injection Hh as <-]. eapply keeps_exec; [apply kept_history|done|done]. }
  destruct (String.eqb _ _); [|by injection Hu as <-]. eapply keeps_exec; [apply kept_unsource|done|done].
Qed.

Lemma place_matched_keeps i entry it x n s t s' :
  I s → place_matched env r i entry it x n s = Ok (t, s') → I s'.
Proof.
  intros Hok. unfold place_matched. destruct (areConnectionParametersEqual _ _).
  - intros [= _ <-]. by apply write_version_keeps.
  - destruct (ie_io env _ _); [done|]. intros Hp. apply let_ok in Hp as ([id s2] & Ht & [= _ <-]).
    apply write_version_head_keeps. simpl. destruct (others_own _ _ _); [|by injection Ht as _ <-].
    apply let_ok in Ht as (s3 & Hu & [= _ <-]). by eapply keeps_unlink.
Qed.

Lemma place_keeps i entry it s t n s' : I s → place env r i entry it s = Ok (t, n, s') → I s'.
Proof.
  intros Hok. unfold place. destruct (match_existing r it); intros Hp.
  - apply let_ok in Hp as ([t' s2] & Hp & [= _ _ <-]). by eapply place_matched_keeps.
  - apply let_ok in Hp as ([t' s2] & Hp & [= _ _ <-]). unfold place_unmatched in Hp.
    apply let_ok in Hp as (t2 & _ & [= _ <-]). by apply write_version_head_keeps.
Qed.

(** The entries of a refresh are of its subscription and its payload. *)
Lemma keeps_write_entry i j entry it n node : keeps I (write_entry env i (entry_of env r j entry it n node)).
Proof.
  apply keeps_when, keeps_exec. unfold entry_of. destruct (user_override _ _) as [po conflict].
  by apply kept_line.
Qed.

Lemma write_node_keeps i t n acc acc' : I acc.2 → write_node env r i t n acc = Ok acc' → I acc'.2.
Proof.
  intros Hok. unfold write_node. intros Hw. apply let_ok in Hw as (s1 & Hn & Hw).
  eapply (keeps_exec I) in Hn; [|apply kept_node|done].
  case_bool_decide; [by injection Hw as <-|]. apply let_ok in Hw as (s2 & Hs & [= <-]).
  eapply keeps_exec; [apply kept_source|done|done].
Qed.

Lemma reconcile_item_keeps acc item acc' : I acc.2 → reconcile_item env r acc item = Ok acc' → I acc'.2.
Proof.
  intros Hok. destruct item as [i it]. unfold reconcile_item. destruct (String.eqb _ _); intros Hr.
  - apply let_ok in Hr as (s2 & Hw & [= <-]). by eapply keeps_write_entry.
  - apply let_ok in Hr as ([[t n] s2] & Hp & Hr). apply place_keeps in Hp; [|done].
    apply let_ok in Hr as (acc2 & Hw & Hr). apply write_node_keeps in Hw; [|done].
    apply let_ok in Hr as (s3 & He & [= <-]). by eapply keeps_write_entry.
Qed.

Lemma keeps_prune : keeps I (prune env r).
Proof.
  intros s s' Hok. unfold prune. destruct (negb _); [by intros [= <-]|]. intros Hp.
  apply let_ok in Hp as (s2 & Ha & Hp). eapply keeps_exec; [apply kept_prune| |done].
  destruct (_ && _ && _); [|by injection Ha as <-]. by eapply keeps_archive.
Qed.
End OneRefresh.

Lemma refresh_body_keeps sub resp ext outcome s a s' :
  (∀ r s1, start_refresh env sub resp ext outcome s = Ok (r, s1) → KeptBy I r ∧ I s1) →
  refresh_body env sub resp ext outcome s = Ok (a, s') → I s'.
Proof.
  intros Hstart Hb. unfold refresh_body in Hb. apply let_ok in Hb as ([r s1] & Hs & Hb).
  apply Hstart in Hs as [? Hok].
  apply let_ok in Hb as (acc & Hf & Hb). apply let_ok in Hb as (s2 & Hp & Hb).
  apply let_ok in Hb as (s3 & Hn & [= _ <-]). eapply keeps_names; [|done]. eapply (keeps_prune r); [|done].
  eapply (fold_res_inv (λ acc : progress, I acc.2)); [| |exact Hf]; [done|].
  intros acc1 item acc2 _. by apply reconcile_item_keeps.
Qed.
End Statements.

(** The tables of a refresh, and where its rows come from. *)
Definition refreshing (r : refresh) (s : Inventory) : Prop :=
  feed_ok s ∧ running (rf_fetchID r) (rf_payloadID r) (sub_ID (rf_sub r)) s.

#[local] Instance refreshing_kept r : Kept (refreshing r).
Proof. apply _. Qed.

#[local] Instance refreshing_kept_by r : KeptBy (refreshing r) r.
Proof.
  split.
  - intros n s s' [Hok [Hf Hp]] Hu. split; [by eapply feed_upsert_source|].
    unfold upsert_source in Hu. destruct (negb _); [done|]. by injection Hu as <-.
  - intros e Es Ep s s' [Hok [Hf Hp]] He. split; [eapply feed_insert_entry; [done| |done]; by rewrite Es, Ep|].
    unfold insert_entry in He. destruct (mem_str _ _); [done|]. destruct (negb _); [done|].
    destruct (negb _); [done|]. destruct (existsb _ _); by injection He as <-.
Qed.

Lemma start_refresh_tables sub resp ext outcome s r s1 :
  tables_ok s → start_refresh env sub resp ext outcome s = Ok (r, s1) → tables_ok s1.
Proof.
  intros Hok Hs. unfold start_refresh in Hs. apply let_ok in Hs as (s4 & Ha1 & Hs).
  apply let_ok in Hs as (s5 & Ha2 & Hs). apply let_ok in Hs as (s6 & Ha3 & Hs).
  apply let_ok in Hs as (s7 & Ha4 & [= _ <-]). apply exec_answers in Ha3, Ha4. injection Ha3 as <-.
  injection Ha4 as <-. eapply keeps_exec; [apply keeps_insert_payload| |done].
  eapply keeps_exec; [apply keeps_insert_fetch|done|done].
Qed.

Lemma start_refresh_running sub resp ext outcome s r s1 :
  outcome ≠ FetchOutcomeFailed → feed_ok s → start_refresh env sub resp ext outcome s = Ok (r, s1) →
  refreshing r s1.
Proof.
  intros Hout Hok Hs. unfold start_refresh in Hs. apply let_ok in Hs as (s4 & Ha1%exec_answers & Hs).
  apply let_ok in Hs as (s5 & Ha2%exec_answers & Hs). apply let_ok in Hs as (s6 & Ha3%exec_answers & Hs).
  apply let_ok in Hs as (s7 & Ha4%exec_answers & [= <- <-]). injection Ha3 as <-. injection Ha4 as <-.
  pose proof (feed_insert_fetch _ _ _ _ Hok Ha1) as Hok4.
  assert (∃ f, iv_fetches s4 !! ie_uuid env "fetch" 0 = Some f ∧ sf_SubscriptionID f = sub_ID sub ∧
    sf_Outcome f ≠ FetchOutcomeFailed ∧ sf_ContentDigest f = rsp_ContentDigest resp) as Hnew.
  { unfold insert_fetch in Ha1. destruct (stored _ _); [done|]. destruct (negb _); [done|].
    injection Ha1 as <-. simpl. rewrite lookup_insert_eq. by eexists. }
  apply feed_insert_payload in Ha2 as (Hok5 & Hrec & Ef); [|done|exact Hnew].
  destruct Hnew as (f & Hf & ? & ? & _). split; [done|]. split; [|done].
  exists f. simpl. by rewrite Ef.
Qed.

Lemma refresh_keeps sub resp ext outcome s a s' :
  outcome ≠ FetchOutcomeFailed → tables_ok s → feed_ok s →
  refresh_body env sub resp ext outcome s = Ok (a, s') → tables_ok s' ∧ feed_ok s'.
Proof.
  intros Hout Ht Hf Hb. split.
  - eapply (refresh_body_keeps tables_ok); [|done]. intros r s1 Hs. split; [apply _|].
    by eapply start_refresh_tables.
  - unfold refresh_body in Hb. apply let_ok in Hb as ([r s1] & Hs & Hb).
    assert (refresh_body env sub resp ext outcome s = Ok (a, s')) as Hb'
      by (unfold refresh_body; rewrite Hs; exact Hb).
    eapply (refresh_body_keeps (refreshing r)) in Hb' as [? _]; [done|].
    intros r' s1' Hs'. rewrite Hs in Hs'. injection Hs' as <- <-. split; [apply _|].
    by eapply start_refresh_running.
Qed.
End RefreshKeeps.

(** ** The other operations *)

(** What the tables are: references that hold, and rows that say where they come from. *)
Definition consistent `{GoText} `{Sha256} `{ConnectionJSON} `{CredentialsJSON} (s : Inventory) : Prop :=
  tables_ok s ∧ feed_ok s.

#[export] Instance consistent_kept `{GoText} `{Sha256} `{ConnectionJSON} `{CredentialsJSON} : Kept consistent.
Proof. apply and_kept; apply _. Qed.
#[export] Instance consistent_kept_by_all `{GoText} `{Sha256} `{ConnectionJSON} `{CredentialsJSON} :
  KeptByAll consistent.
Proof. apply and_kept_by_all; apply _. Qed.

Section ServicesKeep.
Context `{GoText} `{Sha256} `{MapOrder} `{ConnectionJSON} `{CredentialsJSON} `{Prefixes}.
Context (env : InvEnv) (I : Inventory → Prop) `{!Kept I} `{!KeptByAll I}.

Lemma maintain_head_keeps i id n rev s : I s → I (maintain_head env i id (row_of n rev) (node_Credentials n) s).
Proof.
  intros. unfold maintain_head. apply keeps_ignored; [apply kept_head|]. apply keeps_ignored; [|done].
  intros s1 s2 Hs. unfold insert_version. destruct (iv_versions s1 !! _); [by intros [= <-]|].
  apply kept_version; [|done]. exists (node_Server n), (node_Port n), (node_Credentials n).
  split; [|done]. unfold version_of, row_of, marshalNodeCredentials. simpl.
  by rewrite (proj2 (String.eqb_neq _ _)) by apply marshal_nonempty.
Qed.

Lemma upsert_all_keeps i l s s' : I s → upsert_all env i s l = Ok s' → I s'.
Proof.
  revert i s. induction l as [|n l IH]; intros i s Hok; simpl; [by intros [= <-]|]. intros Hu.
  apply let_ok in Hu as (s2 & H2' & Hu). eapply IH; [|done]. unfold upsert_one in H2'.
  apply let_ok in H2' as (s3 & Hn & [= <-]). eapply (keeps_exec I) in Hn; [|apply kept_node|done].
  destruct (answered _ _ _); [by apply maintain_head_keeps|done].
Qed.

Lemma UpsertBatch_keeps l s : I s → I (UpsertBatch env l s).2.
Proof.
  intros Hok. unfold UpsertBatch. destruct l as [|n l]; [done|]. apply transaction_keeps; [|done].
  intros a s' Hb. apply let_ok in Hb as (s2 & Hu & [= _ <-]). by eapply upsert_all_keeps.
Qed.

Lemma save_override_keeps i id field v s : I s → I (save_override env i id field v s).
Proof. intros. destruct v; simpl; [|done]. apply keeps_ignored; [apply kept_override|done]. Qed.

Lemma keeps_update_row id n rev : keeps I (update_row id n rev).
Proof.
  intros s s' Hok. unfold update_row. destruct (iv_nodes s !! id); [|by intros [= <-]].
  by apply kept_node.
Qed.

Lemma edit_body_keeps id p n rev s : I s → I (edit_body env id p n rev s).
Proof.
  intros. unfold edit_body. apply keeps_ignored; [apply keeps_update_row|].
  apply keeps_ignored; [apply kept_head|]. apply keeps_ignored; [apply kept_version, (effective_version_ok n)|].
  by repeat apply save_override_keeps.
Qed.

Lemma audit_keeps i action ok s : I s → I (auditRepo_Record env i action ok s).2.
Proof. intros. unfold auditRepo_Record. destruct (ie_io _ _ _); [done|]. by apply kept_trail. Qed.

Lemma SetUserOverride_keeps id kind anchor reason actor s :
  I s → I (SetUserOverride env id kind anchor reason actor s).2.
Proof.
  intros Hok. unfold SetUserOverride. fold (set_override env id kind anchor reason actor).
  destruct (exec _ _ _ _ s) as [s'|e] eqn:E; [|done]. eapply keeps_exec; [apply kept_user_kind|done|done].
Qed.

Lemma fetches_Create_keeps id f s : I s → I (fetches_Create env id f s).2.
Proof.
  intros Hok. unfold fetches_Create. destruct (exec _ _ _ _ s) as [s'|e] eqn:E; [|done].
  eapply keeps_exec; [apply kept_new_fetch|done|done].
Qed.

(** ** Subscriptions *)

Lemma subscriptions_Create_keeps sub s : I s → I (subscriptions_Create env sub s).2.
Proof.
  intros Hok. unfold subscriptions_Create. destruct (exec _ _ _ _ s) as [s'|e] eqn:E; [|done].
  apply exec_answers in E. destruct (stored _ _); [done|]. injection E as <-. apply kept_subs; [done|].
  apply grows_insert.
Qed.

Lemma subscriptions_Update_keeps sub s : I s → I (subscriptions_Update env sub s).2.
Proof.
  intros Hok. unfold subscriptions_Update. apply transaction_keeps; [|done]. intros a s' Hb.
  destruct (iv_subs s !! sub_ID sub) as [old|]; [|done].
  set (s1 := with_subs _ s) in Hb. assert (I s1) by (apply kept_subs; [done|apply grows_insert]).
  destruct (String.eqb _ _); [by injection Hb as _ <-|].
  apply let_ok in Hb as (s2 & Hn & [= _ <-]). by eapply keeps_names.
Qed.

Lemma subscriptions_Delete_keeps id s : I s → I (subscriptions_Delete env id s).2.
Proof.
  intros Hok. unfold subscriptions_Delete. apply transaction_keeps; [|done]. intros a s' Hb.
  destruct (iv_subs s !! id) as [sub|]; [|done]. apply let_ok in Hb as (s1 & Ha & Hb).
  apply let_ok in Hb as (s2 & Hd & Hb). apply let_ok in Hb as (s3 & Hn & [= _ <-]).
  eapply (keeps_names I); [|done]. eapply (kept_deletion id); [|done]. apply kept_orphans.
  destruct (_ && _ && _); [|by injection Ha as <-]. by eapply (keeps_archive env I).
Qed.
End ServicesKeep.

(** ** Requests *)

Section Requests.
Context `{GoText} `{Sha256} `{ConnectionJSON} `{CredentialsJSON}.

Definition anyhow (s s' : Inventory) : Prop := True.
#[export] Instance anyhow_preorder : PreOrder anyhow.
Proof. by split. Qed.

(** Every statement of the request keeps the invariant. *)
Definition guarded {A} (p : proc Inventory A) : Prop :=
  ∀ s, consistent s → safe consistent anyhow p (λ _ _, True) s.

Lemma guarded_done {A} (r : result error A) : guarded (Done r).
Proof. by intros s Hok. Qed.
Lemma guarded_step {A} (c : M Inventory A) : (∀ s, consistent s → consistent (c s).2) → guarded (step c).
Proof. intros Hc s _. apply safe_step. intros s' _ Hok. split; [by apply Hc|done]. Qed.
Lemma guarded_bind {A B} (p : proc Inventory A) (k : A → proc Inventory B) :
  guarded p → (∀ a, guarded (k a)) → guarded (pbind p k).
Proof.
  intros Hp Hk s Hok. eapply safe_bind; [apply _|done|by apply Hp| |done].
  intros a s' _ Hok' _. by apply Hk.
Qed.
Lemma guarded_attempt {A} (p : proc Inventory A) : guarded p → guarded (attempt p).
Proof. intros Hp s Hok. eapply safe_attempt; [apply _|by apply Hp|done]. Qed.
Lemma guarded_ask {A} env label (f : Inventory → result error A) : guarded (step (ask env label f)).
Proof. by apply guarded_step. Qed.
Lemma guarded_ignoring {A} (c : M Inventory A) :
  (∀ s, consistent s → consistent (c s).2) → guarded (step (ignoring c)).
Proof. intros Hc. by apply guarded_step. Qed.
Lemma guarded_refuse b e : guarded (refuse_if b e).
Proof. unfold refuse_if, reject, stop, give. destruct b; apply guarded_done. Qed.

End Requests.

(** A statement of a request. *)
Ltac statement :=
  let Hok := fresh in intros ? Hok;
  first [ exact Hok | apply (audit_keeps _ consistent) | apply (fetches_Create_keeps _ consistent)
        | apply (SetUserOverride_keeps _ consistent) | apply (subscriptions_Create_keeps _ consistent)
        | apply (subscriptions_Update_keeps _ consistent) | apply (subscriptions_Delete_keeps _ consistent)
        | apply (UpsertBatch_keeps _ consistent) ]; try exact Hok.

(** One rule for the head of a request. *)
Ltac follow :=
  repeat first
    [ progress (unfold reject, stop, give, audit_then, or_record, record_failure, record_success)
    | apply guarded_done
    | apply guarded_refuse
    | apply guarded_bind; [|intros ?]
    | apply guarded_attempt
    | apply guarded_ask
    | apply guarded_ignoring; [solve [statement]]
    | apply guarded_step; [solve [statement]]
    | case_match ].

Section RequestsKeep.
Context `{GoText} `{Sha256} `{Net} `{MapOrder} `{ConnectionJSON} `{CredentialsJSON} `{EntryScan} `{Parser}
  `{Prefixes} `{Cron}.

Lemma ReconcileSubscription_guarded env proxy settings fetcher id :
  guarded (ReconcileSubscription env proxy settings fetcher id).
Proof.
  unfold ReconcileSubscription, failed_refresh. follow. apply guarded_step. intros s [Ht Hf].
  apply (transaction_keeps consistent); [|done]. intros u s' Hb. eapply refresh_keeps; [|done..|exact Hb].
  unfold outcome_of. by destruct (0 <? _)%Z.
Qed.

Lemma UpdateNodeConnection_guarded env id patch : guarded (UpdateNodeConnection env id patch).
Proof.
  unfold UpdateNodeConnection. follow. apply guarded_ignoring. intros s Hok.
  apply (transaction_keeps consistent); [|done]. intros u s' [= _ <-]. by apply (edit_body_keeps _ consistent).
Qed.

Lemma OverrideEntryKind_guarded env id kind reason actor : guarded (OverrideEntryKind env id kind reason actor).
Proof. unfold OverrideEntryKind. follow. Qed.
Lemma Create_guarded env c : guarded (Create env c).
Proof. unfold Create. follow. Qed.
Lemma Update_guarded env c : guarded (Update env c).
Proof. unfold Update. follow. Qed.
Lemma Delete_guarded env id : guarded (Delete env id).
Proof. unfold Delete. follow. Qed.

(** The requests of the services, their answers left out. *)
Definition answerless {A} (p : proc Inventory A) : proc Inventory unit := let@ _ := p in give tt.

Inductive inventory_request : proc Inventory unit → Prop :=
  | rq_refresh env proxy settings fetcher id :
      inventory_request (answerless (ReconcileSubscription env proxy settings fetcher id))
  | rq_edit env id patch : inventory_request (answerless (UpdateNodeConnection env id patch))
  | rq_override env id kind reason actor :
      inventory_request (answerless (OverrideEntryKind env id kind reason actor))
  | rq_create env c : inventory_request (answerless (Create env c))
  | rq_update env c : inventory_request (answerless (Update env c))
  | rq_toggle env id revision enabled : inventory_request (answerless (Toggle env id revision enabled))
  | rq_delete env id : inventory_request (answerless (Delete env id)).

Lemma requests_guarded p : inventory_request p → guarded p.
Proof.
  intros Hp. destruct Hp; (apply guarded_bind; [|intros; apply guarded_done]).
  - apply ReconcileSubscription_guarded.
  - apply UpdateNodeConnection_guarded.
  - apply OverrideEntryKind_guarded.
  - apply Create_guarded.
  - apply Update_guarded.
  - apply Update_guarded.
  - apply Delete_guarded.
Qed.

(** C21. However refreshes, edits of nodes, overrides of entries and changes of subscriptions
    interleave, and whichever of their statements the database refuses, tables that are
    consistent stay so.  Beyond what the schema enforces (references to rows that exist, pinned
    payloads kept, unique identifiers, kinds and revisions in range), every row says where it
    comes from: a payload belongs to the subscription of the fetch that brought it, with that
    fetch's digest; an entry belongs to the subscription of its payload; the last fetch of a
    source is a stored fetch of that very subscription, and neither payloads nor sources come
    from a fetch that failed; and the fingerprint of a stored version is the fingerprint of
    the server, port and credentials that the version stores. *)
Theorem inventory_tables_consistent s σ :
  consistent s → sys_steps inventory_request {| store := s; threads := [] |} σ → consistent (store σ).
Proof.
  intros Hok Hst. eapply (system_safe consistent anyhow inventory_request (λ _ _, True)) in Hst as [[Hi _] _].
  - exact Hi.
  - intros p s1 Hp. by apply requests_guarded.
  - by split.
Qed.
End RequestsKeep.

Lemma empty_consistent `{GoText} `{Sha256} `{ConnectionJSON} `{CredentialsJSON} : consistent empty_inventory.
Proof.
  split; split; simpl; try (intros; set_solver). apply NoDup_nil_2.
Qed.

(** ** Samples *)

Section Samples.
#[local] Existing Instance ascii_text.
#[local] Existing Instance sample_sha.
#[local] Existing Instance sample_net.
#[local] Existing Instance sample_codec.
#[local] Existing Instance sample_connection_json.
#[local] Existing Instance sample_scan.
#[local] Existing Instance key_order.

Definition sample_prefixes : Prefixes := {| ParsePrefix := Some |}.
Definition sample_cron : Cron := {| cron_parse := λ _, None |}.
Definition sample_parser : Parser :=
  {| ExtractWithCredentials := λ _, Ok (sample_payload [sample_item "x" "X" "x.example" "p"]) |}.
#[local] Existing Instance sample_prefixes.
#[local] Existing Instance sample_cron.
#[local] Existing Instance sample_parser.

(** A provider that answers; the subscription is created and refreshed. *)
Definition answering_fetcher : Fetcher := {| ft_client := None; ft_Fetch := λ _, Ok sample_response |}.
Definition creation : proc Inventory unit :=
  answerless (Create (sample_inv_env "c" (1 * second))
    {| cs_Name := "new"; cs_SourceURLSecretRef := "https://example.com/new"; cs_Enabled := true;
       cs_Prefix := ""; cs_RefreshPolicy := sample_policy; cs_Config := sample_config |}).
Definition first_refresh : proc Inventory unit :=
  answerless (ReconcileSubscription (sample_inv_env "r" (2 * second)) "" None answering_fetcher
    "c-subscription0").
Definition created_inventory : Inventory := (run creation empty_inventory).2.
Definition first_inventory : Inventory := (run first_refresh created_inventory).2.

Lemma first_steps :
  sys_steps inventory_request {| store := empty_inventory; threads := [] |}
    {| store := first_inventory;
       threads := [Done (run creation empty_inventory).1; Done (run first_refresh created_inventory).1] |}.
Proof.
  etrans; [apply (run_steps inventory_request creation empty_inventory []); apply rq_create|].
  apply (run_steps inventory_request first_refresh created_inventory
    [Done (run creation empty_inventory).1]). apply rq_refresh.
Qed.

Lemma first_inventory_sources : iv_sources first_inventory = {["x" := {["c-subscription0" := "r-fetch0"]}]}.
Proof. vm_compute. reflexivity. Qed.

Lemma inventory_tables_consistent_witness :
  iv_sources first_inventory = {["x" := {["c-subscription0" := "r-fetch0"]}]} ∧ consistent first_inventory.
Proof.
  split; [exact first_inventory_sources|].
  exact (inventory_tables_consistent empty_inventory _ empty_consistent first_steps).
Defined.
End Samples.
