(* ===== verification/Deletion.v ===== *)
(** * What the deletion of a subscription guarantees

    [Delete] of [internal/repository/sqlite/subscriptions.go] archives the sources of the
    subscription, deactivates the nodes that nothing else has, deletes the subscription with
    what cascades from it, and names the remaining nodes anew. *)

From S2P Require Import Prelude.
From S2P Require Import GoStrings.
From S2P Require Import Domain.
From S2P Require Import Lifecycle.
From S2P Require Import NodeFilter.
From S2P Require Import Services.
From S2P Require Import Requests.
From S2P Require Import InventoryStore.
From S2P Require Import Refresh.
From S2P Require Import InventoryService.
From S2P Require Import InventorySamples.
From S2P Require Import Connections.
From S2P Require Import RefreshProperties.
From S2P Require Import InventoryInvariant.

Section Deletion.
Context `{GoText} `{Sha256} `{MapOrder} `{ConnectionJSON} `{CredentialsJSON}.
Context (env : InvEnv).

(** ** Histories *)

Definition confirmed (s : Inventory) (node : string) : Prop :=
  ∃ key h, iv_history s !! (node, key) = Some h ∧ hr_Cause h = CauseManualConfirmed.

Lemma manually_confirmed_spec s node : manually_confirmed s node = true ↔ confirmed s node.
Proof.
  unfold manually_confirmed, confirmed. rewrite existsb_exists. split.
  - intros ([[n key] h] & Hin & Hb). simpl in Hb. apply andb_true_iff in Hb as [Hn Hc].
    apply String.eqb_eq in Hn, Hc. simpl in Hn. subst n. exists key, h. split; [|done].
    apply list_elem_of_In in Hin. by apply elem_of_map_to_list.
  - intros (key & h & Hh & Hc). exists ((node, key), h). split.
    + apply list_elem_of_In. by apply elem_of_map_to_list.
    + simpl. by rewrite String.eqb_refl, Hc.
Qed.

Lemma upsert_history_confirmed node key row s s' :
  hr_Cause row ≠ CauseManualConfirmed → upsert_history node key row s = Ok s' →
  (∀ m, confirmed s' m ↔ confirmed s m) ∧
  (∀ k, is_Some (iv_history s !! k) → is_Some (iv_history s' !! k)) ∧
  is_Some (iv_history s' !! (node, key)).
Proof.
  intros Hr. unfold upsert_history. destruct (negb _); [done|]. intros [= <-]. simpl. split; [|split].
  - intros m. unfold confirmed. simpl. split.
    + intros (k & h & Hk & Hc). destruct (decide ((m, k) = (node, key))) as [[= -> ->]|Hne].
      * rewrite lookup_insert_eq in Hk. injection Hk as <-.
        destruct (iv_history s !! (node, key)) as [old|] eqn:Ho; [|done]. by exists key, old.
      * rewrite lookup_insert_ne in Hk by done. by exists k, h.
    + intros (k & h & Hk & Hc). destruct (decide ((m, k) = (node, key))) as [[= -> ->]|Hne].
      * eexists key, _. rewrite lookup_insert_eq, Hk. by split.
      * exists k, h. by rewrite lookup_insert_ne by done.
  - intros k [h Hk]. destruct (decide (k = (node, key))) as [->|Hne].
    + rewrite lookup_insert_eq. by eexists.
    + rewrite lookup_insert_ne by done. by eexists.
  - rewrite lookup_insert_eq. by eexists.
Qed.

Lemma archive_confirmed label cause kind sub key i rows s s' :
  cause ≠ CauseManualConfirmed → archive env label cause kind sub key i rows s = Ok s' →
  (∀ m, confirmed s' m ↔ confirmed s m) ∧
  (∀ k, is_Some (iv_history s !! k) → is_Some (iv_history s' !! k)) ∧
  (∀ n f, (n, f) ∈ rows → is_Some (iv_history s' !! (n, key n f))).
Proof.
  intros Hc. revert i s. induction rows as [|[n f] rows IH]; intros i s; simpl.
  - intros [= <-]. split; [done|]. split; [done|]. by intros ? ? ?%elem_of_nil.
  - intros Ha. apply let_ok in Ha as (s2 & Hu%exec_answers & Ha).
    apply upsert_history_confirmed in Hu as (Hu1 & Hu2 & Hu3); [|done].
    apply IH in Ha as (Ha1 & Ha2 & Ha3). split; [|split].
    + intros m. by rewrite Ha1, Hu1.
    + auto.
    + intros n' f' [[= -> ->]|?]%elem_of_cons; auto.
Qed.

(** Rows of history under other keys stay. *)
Lemma archive_other label cause kind sub key i rows s s' k :
  archive env label cause kind sub key i rows s = Ok s' → (∀ n f, k ≠ (n, key n f)) →
  iv_history s' !! k = iv_history s !! k.
Proof.
  intros Ha Hk. revert i s Ha. induction rows as [|[n f] rows IH]; intros i s; simpl; [by intros [= <-]|].
  intros Ha. apply let_ok in Ha as (s2 & Hu%exec_answers & Ha). rewrite (IH _ _ Ha).
  unfold upsert_history in Hu. destruct (negb _); [done|]. injection Hu as <-. simpl.
  by rewrite lookup_insert_ne by (intros E; by apply (Hk n f)).
Qed.

(** ** Names *)

Lemma recompute_name_other prior s node s' m :
  recompute_name prior s node = Ok s' → m ≠ node → iv_nodes s' !! m = iv_nodes s !! m.
Proof.
  unfold recompute_name. intros Hr Hm. apply let_ok in Hr as (name & _ & [= <-]).
  destruct name; [|done]. simpl. by rewrite lookup_alter_ne.
Qed.

Lemma names_other ids prior s s' m :
  RecomputeNodeDisplayNames ids prior s = Ok s' → m ∉ ids → iv_nodes s' !! m = iv_nodes s !! m.
Proof.
  unfold RecomputeNodeDisplayNames. intros Hr Hm. apply let_ok in Hr as ([seen s2] & Hf & [= <-]).
  eapply (fold_res_inv (λ acc : list string * Inventory, iv_nodes acc.2 !! m = iv_nodes s !! m)) in Hf;
    [done|done|].
  intros [seen1 s3] id acc' Hin Hs. simpl in *. destruct (mem_str id seen1); [by intros [= <-]|].
  intros Hn. apply let_ok in Hn as (s4 & Hn & [= <-]). simpl. rewrite <- Hs.
  eapply recompute_name_other; [done|]. by intros ->.
Qed.
(** ** The theorem *)

(** The subscription has the node, nobody else does, and nobody confirmed it by hand. *)
Definition orphaned (s : Inventory) (id node : string) : bool :=
  bool_decide (is_Some (owners s node !! id)) && negb (manually_confirmed s node) &&
  bool_decide (delete id (owners s node) = ∅).

Lemma orphaned_same id s s1 m :
  iv_sources s1 = iv_sources s → (∀ m, confirmed s1 m ↔ confirmed s m) →
  orphaned s1 id m = orphaned s id m.
Proof.
  intros Es Hconf. unfold orphaned, owners. rewrite Es.
  assert (manually_confirmed s1 m = manually_confirmed s m) as ->; [|done].
  apply eq_bool_prop_intro. rewrite !Is_true_true, !manually_confirmed_spec. apply Hconf.
Qed.

Lemma deactivate_orphans_rows id s m :
  iv_nodes (deactivate_orphans id s) !! m =
  (λ row, if orphaned s id m then set_active false row else row) <$> iv_nodes s !! m.
Proof.
  unfold deactivate_orphans. simpl. rewrite map_lookup_imap.
  by destruct (iv_nodes s !! m) as [row|].
Qed.

Lemma owners_deleted id s m :
  default ∅ ((delete id <$> iv_sources s) !! m) = delete id (owners s m).
Proof.
  unfold owners. rewrite lookup_fmap. destruct (iv_sources s !! m) as [o|]; simpl; [done|].
  by rewrite delete_empty.
Qed.

Lemma linked_rows s id m f : (m, f) ∈ range (linked s id) ↔ owners s m !! id = Some f.
Proof.
  rewrite (range_perm _ (linked s id)), elem_of_map_to_list. unfold linked, owners.
  rewrite lookup_omap. destruct (iv_sources s !! m) as [o|]; simpl; [done|].
  by rewrite lookup_empty.
Qed.

Lemma set_active_same row b : b = nr_Active row → set_active b row = row.
Proof. intros ->. by destruct row. Qed.

(** What a deletion leaves of the feed, the versions and the history. *)
Record feed_left (id : string) (s s' : Inventory) : Prop := {
  fl_subs : iv_subs s' = delete id (iv_subs s);
  fl_owners : ∀ m, owners s' m = delete id (owners s m);
  fl_fetches : ∀ k f, iv_fetches s' !! k = Some f ↔ iv_fetches s !! k = Some f ∧ sf_SubscriptionID f ≠ id;
  fl_payloads : feed_ok s → ∀ k p,
    iv_payloads s' !! k = Some p ↔ iv_payloads s !! k = Some p ∧ py_SubscriptionID p ≠ id;
  fl_entries : feed_ok s →
    iv_entries s' = List.filter (λ e, negb (String.eqb (en_SubscriptionID e) id)) (iv_entries s);
  fl_heads : iv_heads s' = iv_heads s;
  fl_versions : ∀ k, (λ v, (vr_Config v, vr_Fingerprint v)) <$> iv_versions s' !! k =
                     (λ v, (vr_Config v, vr_Fingerprint v)) <$> iv_versions s !! k;
  fl_overrides : iv_overrides s' = iv_overrides s
}.

(** In a consistent feed only what names the subscription goes with it. *)
Lemma payload_gone_own id s k p :
  feed_ok s → iv_payloads s !! k = Some p → payload_gone s id p = String.eqb (py_SubscriptionID p) id.
Proof.
  intros Hok Hp. destruct (fd_payloads s Hok k p Hp) as (f & Hf & Es & _).
  unfold payload_gone, fetch_gone. rewrite Hf, Es. apply orb_diag.
Qed.

Lemma entry_gone_own id s e :
  feed_ok s → e ∈ iv_entries s → entry_gone s id e = String.eqb (en_SubscriptionID e) id.
Proof.
  intros Hok He. destruct (fd_entries s Hok e He) as (p & Hp & Es).
  unfold entry_gone. rewrite Hp, (payload_gone_own id s _ p Hok Hp), Es. apply orb_diag.
Qed.

(** [DELETE] with its cascades. *)
Lemma delete_subscription_effect id s s' :
  delete_subscription id s = Ok s' →
  feed_left id s s' ∧ iv_nodes s' = iv_nodes s ∧ iv_history s' = forget_subscription id <$> iv_history s.
Proof.
  unfold delete_subscription. destruct (existsb _ _); [done|]. intros [= <-].
  split; [|done]. split; simpl; try done.
  - intros m. exact (owners_deleted id s m).
  - intros k f. rewrite map_lookup_filter_Some. unfold fetch_gone. simpl. by rewrite String.eqb_neq.
  - intros Hok k p. rewrite map_lookup_filter_Some. simpl. split; intros [Hp Hg]; (split; [done|]).
    + rewrite (payload_gone_own id s k p) in Hg by done. by apply String.eqb_neq.
    + rewrite (payload_gone_own id s k p) by done. by apply String.eqb_neq.
  - intros Hok. apply List.filter_ext_in. intros e He.
    by rewrite (entry_gone_own id s e) by (done || by apply list_elem_of_In).
  - intros k. rewrite lookup_fmap. by destruct (iv_versions s !! k).
Qed.

(** The archive, the orphans and the names leave the feed alone. *)
Lemma feed_left_between id s s1 s2 s' :
  iv_subs s1 = iv_subs s → iv_sources s1 = iv_sources s → iv_fetches s1 = iv_fetches s →
  iv_payloads s1 = iv_payloads s → iv_entries s1 = iv_entries s → iv_heads s1 = iv_heads s →
  iv_versions s1 = iv_versions s → iv_overrides s1 = iv_overrides s →
  feed_left id s1 s2 → renamed s2 s' → feed_left id s s'.
Proof.
  intros Esub Es Ef Ep Ee Eh Ev Eo [D1 D2 D3 D4 D5 D6 D7 D8] (Rs & Rh & Rv & Re & _ & Rsub & Rf & Rp & Ro & _).
  assert (feed_ok s → feed_ok s1) as Hfeed by (by apply feed_frame).
  split; unfold owners in *; rewrite ?Rs, ?Rsub, ?Rf, ?Rp, ?Re, ?Rh, ?Rv, ?Ro, <- ?Esub, <- ?Es, <- ?Ef,
    <- ?Ep, <- ?Ee, <- ?Eh, <- ?Ev, <- ?Eo; auto.
Qed.

(** The parts of the deletion, in order. *)
Definition deletion_key (id m : string) : string * string :=
  (m, "subscription_deleted:" +:+ id +:+ ":" +:+ m).

Lemma delete_run id s s' :
  subscriptions_Delete env id s = (Ok tt, s') →
  ∃ sub s1 s2, iv_subs s !! id = Some sub ∧
    ((∀ label i, answered env label i = true) →
       ∀ n f, (n, f) ∈ joined s (range (linked s id)) → is_Some (iv_history s1 !! deletion_key id n)) ∧
    (∀ k, (∀ m, k ≠ deletion_key id m) → iv_history s1 !! k = iv_history s !! k) ∧
    (∀ m, confirmed s1 m ↔ confirmed s m) ∧ iv_nodes s1 = iv_nodes s ∧ iv_sources s1 = iv_sources s ∧
    (feed_left id (deactivate_orphans id s1) s2 → renamed s2 s' → feed_left id s s') ∧
    delete_subscription id (deactivate_orphans id s1) = Ok s2 ∧
    RecomputeNodeDisplayNames (map fst (range (linked s id))) {[id := sub_Prefix sub]} s2 = Ok s'.
Proof.
  unfold subscriptions_Delete. intros Ht%transaction_ok.
  destruct (iv_subs s !! id) as [sub|] eqn:Hsub; [|done].
  apply let_ok in Ht as (s1 & Ha & Ht). apply let_ok in Ht as (s2 & Hd & Ht).
  apply let_ok in Ht as (s3 & Hn & [= <-]). exists sub, s1, s2. split; [done|].
  destruct (answered env "history table" 0 && _ && _) eqn:Eans.
  - pose proof (archive_history _ _ _ _ _ _ _ _ _ _ Ha) as (? & ? & ? & ? & ? & ? & ? & ? & ?).
    pose proof (λ k, archive_other _ _ _ _ _ _ _ _ _ k Ha) as Hother.
    apply archive_confirmed in Ha as (Hc & _ & Hk); [|done].
    split; [intros _; exact Hk|]. split; [intros k Hne; apply Hother; intros n f; apply Hne|].
    split; [done|]. split; [done|]. split; [done|]. split; [by apply feed_left_between|done].
  - injection Ha as <-. split; [intros Hall; by rewrite !Hall in Eans|]. split; [done|]. split; [done|].
    split; [done|]. split; [done|]. split; [by apply feed_left_between|done].
Qed.

(** C22. Deleting a subscription removes it with its fetches, its payloads, its entries and its
    place among the sources of every node, and nothing of another subscription: the other
    subscriptions, their fetches and their sources are exactly those there were, and, where
    payloads and entries name the subscription of their fetch ([feed_ok], which the services
    keep), so are their payloads and their entries, in their order; the heads and overrides
    of nodes stay, versions keep their configuration, and history is only added to, the rows
    of the subscription no longer naming it.  No node is lost: each keeps its protocol,
    server, port, credentials and revision; a node becomes inactive exactly when the deleted
    subscription was its only source and nobody confirmed it by hand; a node the subscription
    did not have keeps its name as well; and if the database answers, every node it had has a
    row of history that says so. *)
Theorem deletion_is_local id s s' :
  subscriptions_Delete env id s = (Ok tt, s') →
  feed_left id s s' ∧
  (∀ k, (∀ m, k ≠ deletion_key id m) →
     iv_history s' !! k = forget_subscription id <$> iv_history s !! k) ∧
  (∀ m, iv_nodes s !! m = None → iv_nodes s' !! m = None) ∧
  ∀ m row, iv_nodes s !! m = Some row →
    (∃ name, iv_nodes s' !! m =
       Some (set_display_name name (set_active (nr_Active row && negb (orphaned s id m)) row)) ∧
       (owners s m !! id = None → name = nr_DisplayName row)) ∧
    ((∀ label i, answered env label i = true) → is_Some (owners s m !! id) →
       is_Some (iv_history s' !! deletion_key id m)).
Proof.
  intros Hd. apply delete_run in Hd
    as (sub & s1 & s2 & Hsub & Hhist & Hother & Hconf & En & Es & Hleft & Hdel & Hnames).
  pose proof (names_renamed _ _ _ _ Hnames) as Hren. pose proof Hren as (_ & _ & _ & _ & Rh & _ & _ & _ & _ & Rn).
  pose proof (λ m, orphaned_same id s s1 m Es Hconf) as Horph.
  apply delete_subscription_effect in Hdel as (Dfeed & Dn & Dh).
  change (iv_history (deactivate_orphans id s1)) with (iv_history s1) in Dh.
  split; [by apply Hleft|]. split; [|split].
  - intros k Hk. by rewrite Rh, Dh, lookup_fmap, Hother.
  - intros m Hm. destruct (Rn m) as (g & -> & _). by rewrite Dn, deactivate_orphans_rows, En, Hm.
  - intros m row Hrow.
    assert (iv_nodes (deactivate_orphans id s1) !! m =
      Some (if orphaned s id m then set_active false row else row)) as Hm
      by (by rewrite deactivate_orphans_rows, Horph, En, Hrow). split.
    + destruct (orphaned s id m) eqn:Eo; simpl.
      * rewrite andb_false_r. destruct (Rn m) as (g & Hg & Hgg). rewrite Dn, Hm in Hg. simpl in Hg.
        destruct (Hgg (set_active false row)) as [name Hname]. exists name. rewrite Hg, Hname.
        split; [done|]. intros Hnone. unfold orphaned in Eo. rewrite Hnone in Eo.
        by rewrite bool_decide_eq_false_2 in Eo by (by intros []).
      * rewrite andb_true_r, set_active_same by done.
        destruct (owners s m !! id) as [f|] eqn:Hown.
        -- destruct (Rn m) as (g & Hg & Hgg). rewrite Dn, Hm in Hg. simpl in Hg.
           destruct (Hgg row) as [name Hname]. exists name. by rewrite Hg, Hname.
        -- exists (nr_DisplayName row). rewrite set_display_name_id. split; [|done].
           rewrite (names_other _ _ _ _ m Hnames), Dn; [done|].
           intros ([n f] & E & Hin)%list_elem_of_fmap. simpl in E. subst n.
           apply linked_rows in Hin. congruence.
    + intros Hall [f Hf]. rewrite Rh, Dh, lookup_fmap. apply fmap_is_Some. apply (Hhist Hall m f).
      unfold joined. rewrite list_elem_of_In, filter_In, <- list_elem_of_In, linked_rows. split; [done|].
      unfold stored. apply bool_decide_eq_true_2. simpl. by rewrite Hrow.
Qed.
End Deletion.

(** ** Samples *)

Section Samples.
#[local] Existing Instance ascii_text.
#[local] Existing Instance sample_sha.
#[local] Existing Instance key_order.
#[local] Existing Instance sample_codec.
#[local] Existing Instance sample_connection_json.
#[local] Existing Instance sample_scan.

(** The second of two subscriptions goes: the node they share stays active, its own does not. *)
Definition deletion_env : InvEnv := sample_inv_env "d" (9 * second).
Definition without_b : Inventory := (subscriptions_Delete deletion_env "b" shared_inventory).2.
Definition row_of_x : NodeRow := default (row_of (it_Node (sample_item "" "" "" "")) 1) (iv_nodes shared_inventory !! "x").
Definition row_of_y : NodeRow := default row_of_x (iv_nodes shared_inventory !! "y").

Lemma without_b_run : subscriptions_Delete deletion_env "b" shared_inventory = (Ok tt, without_b).
Proof. vm_compute. reflexivity. Qed.
Lemma row_of_y_stored : iv_nodes shared_inventory !! "y" = Some row_of_y.
Proof. vm_compute. reflexivity. Qed.
Lemma y_orphaned : orphaned shared_inventory "b" "y" = true ∧ nr_Active row_of_y = true.
Proof. vm_compute. done. Qed.


Lemma refreshed_feed tag at_ sub items s :
  consistent s → consistent (refreshed tag at_ sub items s).
Proof.
  intros [Ht Hf]. apply (transaction_keeps consistent); [|done]. intros a s' Hb.
  by eapply refresh_keeps; [..|exact Hb].
Qed.

Lemma shared_inventory_feed : feed_ok shared_inventory.
Proof.
  apply refreshed_feed, refreshed_feed. split; split; simpl; try (intros; set_solver). apply NoDup_nil_2.
Qed.

Lemma deletion_is_local_witness :
  orphaned shared_inventory "b" "x" = false ∧
  (∃ name, iv_nodes without_b !! "y" = Some (set_display_name name (set_active false row_of_y))) ∧
  map en_SubscriptionID (iv_entries without_b) = ["a"].
Proof.
  split; [vm_compute; reflexivity|].
  destruct (deletion_is_local deletion_env "b" shared_inventory without_b without_b_run)
    as (Hleft & _ & _ & Hrows). split.
  - destruct (Hrows "y" row_of_y row_of_y_stored) as [(name & Hn & _) _].
    exists name. rewrite Hn. destruct y_orphaned as [-> ->]. reflexivity.
  - rewrite (fl_entries _ _ _ Hleft shared_inventory_feed). vm_compute. reflexivity.
Defined.
End Samples.
