(* ===== verification/Periodic.v ===== *)
(** * Refreshes by hand and by the clock

    [Refresh] of the subscription service and the scheduler of
    [internal/application/subscription] ([service.go], [scheduler.go]).  A refresh is a
    goroutine: it takes one of the two slots of the service, reads the subscription, calls
    the reconciler and gives the slot back.  A scan of the scheduler starts such goroutines
    for the subscriptions that are due; each books what it did when it is back.

    A [worker] is a goroutine with its position in the code; a [RefreshWorld] has the workers, the
    maps that the two mutexes guard, and the tables.  [world_step] is one critical section
    or one statement of one goroutine.  The scheduler's mutex is held from the start of a
    scan to its end, so that a worker books between scans only. *)

From S2P Require Import Prelude.
From S2P Require Import GoStrings.
From S2P Require Import Domain.
From S2P Require Import Lifecycle.
From S2P Require Import Services.
From S2P Require Import Requests.
From S2P Require Import Fetch.
From S2P Require Import InventoryStore.
From S2P Require Import Refresh.
From S2P Require Import InventoryService.
From S2P Require Import InventorySamples.
From Stdlib Require SpecFloat.

(** ** When a subscription is due *)

(** A [float64], and [Duration.Seconds]. *)
Definition float64 (z : Z) : SpecFloat.spec_float := SpecFloat.binary_normalize 53 1024 z 0 false.
Definition Seconds (d : Z) : SpecFloat.spec_float :=
  SpecFloat.SFadd 53 1024 (float64 (Z.quot d second))
    (SpecFloat.SFdiv 53 1024 (float64 (Z.rem d second)) (float64 1000000000)).

Definition refreshDue `{Cron} (sub : Subscription) (lastRefreshedAt : option time)
    (now lastAttempt : time) : bool :=
  if negb (sub_Enabled sub) then false
  else
    let base := default (sub_CreatedAt sub) lastRefreshedAt in
    let base := if After lastAttempt base then lastAttempt else base in
    let expression := TrimSpace (sc_CronSchedule (sub_Config sub)) in
    if is_empty expression then
      SpecFloat.SFleb (float64 (rp_IntervalSeconds (normalizedPolicy (sub_RefreshPolicy sub))))
        (Seconds (time_sub now base))
    else
      match validateSchedule (sub_Config sub), cron_parse expression with
      | Ok _, Some next => negb (IsZero (next base)) && negb (Before now (next base))
      | _, _ => false
      end.

(** ** The list of subscriptions *)

Definition newest_subscription (a b : string * Subscription) : bool :=
  (sub_CreatedAt b.2 <? sub_CreatedAt a.2)%Z.
Definition enabled_rows `{MapOrder} (s : Inventory) : list (string * Subscription) :=
  List.filter (λ ks, sub_Enabled ks.2) (range (iv_subs s)).

(** [List] with [EnabledOnly] and no search text: count, page, then the latest fetches. *)
Definition subscriptions_ListEnabled `{MapOrder} (env : InvEnv) (page : nat)
    : proc Inventory (list (Subscription * option time) * nat) :=
  let@ total := step (ask env "subscriptions.count" (λ s, Ok (length (enabled_rows s)))) in
  let@ rows := step (ask env "subscriptions.page" (λ s,
    Ok (take 100 (drop ((page - 1) * 100) (sort_stable newest_subscription (enabled_rows s)))))) in
  let@ items := step (ask env "subscriptions.metadata" (λ s,
    Ok (map (λ ks, (ks.2, latest_fetch s ks.1 ≫= sf_FinishedAt)) rows))) in
  give (items, total).

(** ** A refresh *)

Record ReconcileSummary : Type := {
  sm_FetchID : string;
  sm_SubscriptionID : string;
  sm_Outcome : string;
  sm_NodesParsed : Z;
  sm_NodesValid : Z
}.

(** What [refresh] returns: a summary or nil, an error or nil. *)
Definition outcome : Type := option ReconcileSummary * option error.

Definition refresh_in_progress : error :=
  domain_error (NewConflictError "subscription_refresh_in_progress").
Definition refresh_busy : error := domain_error (NewConflictError "subscription_refresh_busy").
Definition reconciler_unavailable : error :=
  domain_error (NewInternalError "subscription_reconciler_unavailable").
Definition context_error : error := driver_error "context canceled".

Definition summary_of (r : ReconcileResult) : ReconcileSummary :=
  {| sm_FetchID := rc_FetchID r; sm_SubscriptionID := rc_SubscriptionID r; sm_Outcome := rc_Outcome r;
     sm_NodesParsed := rc_NodesParsed r; sm_NodesValid := rc_NodesValid r |}.
(** Of a call that failed, with what it returned beside the error. *)
Definition failed_summary (id : string) (r : option ReconcileResult) : ReconcileSummary :=
  match r with
  | None => {| sm_FetchID := ""; sm_SubscriptionID := id; sm_Outcome := "failed";
               sm_NodesParsed := 0; sm_NodesValid := 0 |}%Z
  | Some r => {| sm_FetchID := rc_FetchID r; sm_SubscriptionID := id; sm_Outcome := rc_Outcome r;
                 sm_NodesParsed := rc_NodesParsed r; sm_NodesValid := rc_NodesValid r |}
  end.

(** The reconciler of the service, for what it takes from outside. *)
Definition Reconciler : Type := InvEnv → string → proc Inventory (ReconcileResult * option error).

Section Call.
Context (env : InvEnv) (reconciler : option Reconciler).

Definition recordFailure (o : outcome) : proc Inventory outcome :=
  let@ _ := step (ignoring (auditRepo_Record env 1 "subscription.refresh" false)) in give o.

(** From the call of the reconciler to the return. *)
Definition reconcile (sub : Subscription) (id : string) : proc Inventory outcome :=
  match reconciler with
  | None => recordFailure (None, Some reconciler_unavailable)
  | Some call =>
      let@ r := attempt (call env id) in
      match r with
      | Err e => recordFailure (Some (failed_summary (sub_ID sub) None), Some e)
      | Ok (res, Some e) => recordFailure (Some (failed_summary (sub_ID sub) (Some res)), Some e)
      | Ok (res, None) =>
          let@ recorded := attempt (step (auditRepo_Record env 1 "subscription.refresh" true)) in
          give (Some (summary_of res), match recorded with Ok _ => None | Err e => Some e end)
      end
  end.
End Call.

(** ** Goroutines *)

(** What a scan gives to the goroutine it starts: the time of the scan, the last attempt,
    and the last refresh it saw. *)
Record Scan : Type := { sa_Now : time; sa_Last : time; sa_Refreshed : option time }.
Record Job : Type := { job_ID : string; job_Scan : option Scan }.

(** Where a goroutine is: before the slot, with the slot and before its first read, in the
    rest of the call, behind it, before it books, gone. *)
Inductive call_phase : Type :=
  | Entering
  | Reading
  | Calling (rest : proc Inventory outcome)
  | Settling (o : outcome)
  | Booking (attempted fallback : bool)
  | Gone.

Definition worker : Type := Job * call_phase.

(** A scan: reading a page, or going through its items; [len] is their number. *)
Inductive scanning : Type :=
  | Listing (now : time) (page : nat) (rest : proc Inventory (list (Subscription * option time) * nat))
  | Starting (now : time) (page len : nat) (items : list (Subscription * option time)) (total : nat).

Record RefreshWorld : Type := {
  wo_tables : Inventory;
  wo_refreshing : gset string;
  wo_running : gset string;
  wo_attempted : gmap string time;
  wo_cancelled : bool;
  wo_stopped : bool;
  wo_scan : option scanning;
  wo_workers : list worker
}.

Definition with_tables t w :=
  {| wo_tables := t; wo_refreshing := wo_refreshing w; wo_running := wo_running w;
     wo_attempted := wo_attempted w; wo_cancelled := wo_cancelled w; wo_stopped := wo_stopped w;
     wo_scan := wo_scan w; wo_workers := wo_workers w |}.
Definition with_scan scan w :=
  {| wo_tables := wo_tables w; wo_refreshing := wo_refreshing w; wo_running := wo_running w;
     wo_attempted := wo_attempted w; wo_cancelled := wo_cancelled w; wo_stopped := wo_stopped w;
     wo_scan := scan; wo_workers := wo_workers w |}.
Definition with_refreshing refreshing w :=
  {| wo_tables := wo_tables w; wo_refreshing := refreshing; wo_running := wo_running w;
     wo_attempted := wo_attempted w; wo_cancelled := wo_cancelled w; wo_stopped := wo_stopped w;
     wo_scan := wo_scan w; wo_workers := wo_workers w |}.
Definition with_running running attempted w :=
  {| wo_tables := wo_tables w; wo_refreshing := wo_refreshing w; wo_running := running;
     wo_attempted := attempted; wo_cancelled := wo_cancelled w; wo_stopped := wo_stopped w;
     wo_scan := wo_scan w; wo_workers := wo_workers w |}.
Definition with_workers ws w :=
  {| wo_tables := wo_tables w; wo_refreshing := wo_refreshing w; wo_running := wo_running w;
     wo_attempted := wo_attempted w; wo_cancelled := wo_cancelled w; wo_stopped := wo_stopped w;
     wo_scan := wo_scan w; wo_workers := ws |}.

(** Worker [i] moves to [ph]. *)
Definition move (i : nat) (job : Job) (ph : call_phase) (w : RefreshWorld) : RefreshWorld :=
  with_workers (<[i := (job, ph)]> (wo_workers w)) w.
Definition spawn (job : Job) (w : RefreshWorld) : RefreshWorld :=
  with_workers (wo_workers w ++ [(job, Entering)]) w.

(** [NewScheduler], for a service that is idle. *)
Definition NewScheduler (tables : Inventory) : RefreshWorld :=
  {| wo_tables := tables; wo_refreshing := ∅; wo_running := ∅; wo_attempted := ∅;
     wo_cancelled := false; wo_stopped := false; wo_scan := None; wo_workers := [] |}.

(** Behind a call: the outcome, for a goroutine of the scheduler; a caller by hand has it. *)
Definition after_call (job : Job) (o : outcome) : call_phase :=
  match job_Scan job with Some _ => Settling o | None => Gone end.

(** The critical section at the start of [refresh]. *)
Definition admission (id : string) (w : RefreshWorld) : option error :=
  if bool_decide (id ∈ wo_refreshing w) then Some refresh_in_progress
  else if (2 <=? size (wo_refreshing w)) then Some refresh_busy
  else None.

(** [ctx.Err()], then the critical section. *)
Definition enter (cancelled : bool) (i : nat) (job : Job) (w : RefreshWorld) : RefreshWorld :=
  if cancelled then move i job (after_call job (None, Some context_error)) w
  else match admission (job_ID job) w with
       | Some e => move i job (after_call job (None, Some e)) w
       | None => with_refreshing ({[job_ID job]} ∪ wo_refreshing w) (move i job Reading w)
       end.

(** The deferred [delete(s.refreshing, id)]. *)
Definition leave (i : nat) (job : Job) (o : outcome) (w : RefreshWorld) : RefreshWorld :=
  with_refreshing (wo_refreshing w ∖ {[job_ID job]}) (move i job (after_call job o) w).

(** [attempted := result != nil], or an error that is not an admission conflict. *)
Definition genuine (o : outcome) : bool :=
  bool_decide (is_Some o.1) ||
  match o.2 with
  | None => false
  | Some (domain_error e) =>
      negb (mem_str (err_Code e)
        ["subscription_refresh_busy"; "subscription_refresh_in_progress"; "subscription_disabled"])
  | Some (driver_error _) => true
  end.

(** Whether the tables have a refresh that the scan did not see. *)
Definition persisted (env : InvEnv) (scan : Scan) (id : string) (s : Inventory) : bool :=
  match (ask env "settle.GetByID" (λ s, subscriptions_GetByID s id) s).1 with
  | Ok (_, Some t) => match sa_Refreshed scan with Some seen => After t seen | None => true end
  | _ => false
  end.

Definition settle (env : InvEnv) (i : nat) (job : Job) (scan : Scan) (o : outcome) (w : RefreshWorld) : RefreshWorld :=
  move i job (Booking (genuine o) (genuine o && negb (persisted env scan (job_ID job) (wo_tables w)))) w.

Definition book (now : time) (i : nat) (job : Job) (attempted fallback : bool) (w : RefreshWorld) : RefreshWorld :=
  with_running (wo_running w ∖ {[job_ID job]})
    (if fallback then <[job_ID job := now]> (wo_attempted w)
     else if attempted then delete (job_ID job) (wo_attempted w) else wo_attempted w)
    (move i job Gone w).

(** ** Steps *)

Section Steps.
Context `{Cron} `{MapOrder} (reconciler : option Reconciler).

(** The first read of a call: a subscription that is no longer due is left alone. *)
Definition read_due (env : InvEnv) (i : nat) (job : Job) (w : RefreshWorld) : RefreshWorld :=
  match (ask env "refresh.GetByID" (λ s, subscriptions_GetByID s (job_ID job)) (wo_tables w)).1 with
  | Err e => move i job (Calling (recordFailure env (None, Some e))) w
  | Ok (sub, last) =>
      if match job_Scan job with
         | Some scan => negb (refreshDue sub last (sa_Now scan) (sa_Last scan))
         | None => false
         end
      then move i job (Calling (give (None, None))) w
      else move i job (Calling (reconcile env reconciler sub (job_ID job))) w
  end.

(** One item of a page. *)
Definition scan_item (now : time) (page len : nat) (item : Subscription * option time)
    (items : list (Subscription * option time)) (total : nat) (w : RefreshWorld) : RefreshWorld :=
  let id := sub_ID item.1 in
  let last := default 0%Z (wo_attempted w !! id) in
  if (2 <=? size (wo_running w)) then with_scan None w
  else
    let w := with_scan (Some (Starting now page len items total)) w in
    if bool_decide (id ∈ wo_running w) || negb (refreshDue item.1 item.2 now last) then w
    else spawn {| job_ID := id;
                  job_Scan := Some {| sa_Now := now; sa_Last := last; sa_Refreshed := item.2 |} |}
           (with_running ({[id]} ∪ wo_running w) (wo_attempted w) w).

(** The end of a page. *)
Definition scan_next (env : InvEnv) (now : time) (page len total : nat) (w : RefreshWorld) : RefreshWorld :=
  if (total <=? page * 100) || (len =? 0) then with_scan None w
  else with_scan (Some (Listing now (S page) (subscriptions_ListEnabled env (S page)))) w.

(** A worker's own steps. *)
Inductive worker_step : RefreshWorld → RefreshWorld → Prop :=
  | worker_enter w i job cancelled :
      wo_workers w !! i = Some (job, Entering) → worker_step w (enter cancelled i job w)
  | worker_read w i job env :
      wo_workers w !! i = Some (job, Reading) → worker_step w (read_due env i job w)
  | worker_statement w i job next upd :
      wo_workers w !! i = Some (job, Calling (Atomic next upd)) →
      worker_step w (with_tables (upd (wo_tables w))
                       (move i job (Calling (next (wo_tables w))) w))
  | worker_leave w i job r :
      wo_workers w !! i = Some (job, Calling (Done r)) →
      worker_step w (leave i job match r with Ok o => o | Err e => (None, Some e) end w)
  | worker_settle w i job scan o env :
      wo_workers w !! i = Some (job, Settling o) → job_Scan job = Some scan →
      worker_step w (settle env i job scan o w)
  | worker_book w i job attempted fallback now :
      wo_workers w !! i = Some (job, Booking attempted fallback) → wo_scan w = None →
      worker_step w (book now i job attempted fallback w).

(** A refresh by hand arrives, another request changes the tables, [Stop] cancels and then
    takes the mutex, a scan moves on, or a worker does. *)
Inductive world_step : RefreshWorld → RefreshWorld → Prop :=
  | by_hand w id : world_step w (spawn {| job_ID := id; job_Scan := None |} w)
  | tables_change w t : world_step w (with_tables t w)
  | stop_cancel w : world_step w
      {| wo_tables := wo_tables w; wo_refreshing := wo_refreshing w; wo_running := wo_running w;
         wo_attempted := wo_attempted w; wo_cancelled := true; wo_stopped := wo_stopped w;
         wo_scan := wo_scan w; wo_workers := wo_workers w |}
  | stop_mark w : wo_cancelled w = true → wo_scan w = None → world_step w
      {| wo_tables := wo_tables w; wo_refreshing := wo_refreshing w; wo_running := wo_running w;
         wo_attempted := wo_attempted w; wo_cancelled := true; wo_stopped := true;
         wo_scan := None; wo_workers := wo_workers w |}
  | scan_begin w env now :
      wo_scan w = None → wo_stopped w = false → wo_cancelled w = false →
      world_step w (with_scan (Some (Listing now 1 (subscriptions_ListEnabled env 1))) w)
  | scan_read w now page next upd :
      wo_scan w = Some (Listing now page (Atomic next upd)) →
      world_step w (with_tables (upd (wo_tables w))
                      (with_scan (Some (Listing now page (next (wo_tables w)))) w))
  | scan_failed w now page e :
      wo_scan w = Some (Listing now page (Done (Err e))) → world_step w (with_scan None w)
  | scan_listed w now page items total :
      wo_scan w = Some (Listing now page (Done (Ok (items, total)))) →
      world_step w (with_scan (Some (Starting now page (length items) items total)) w)
  | scan_starts w now page len item items total :
      wo_scan w = Some (Starting now page len (item :: items) total) →
      world_step w (scan_item now page len item items total w)
  | scan_pages w env now page len total :
      wo_scan w = Some (Starting now page len [] total) →
      world_step w (scan_next env now page len total w)
  | worker_steps w w' : worker_step w w' → world_step w w'.

(** The steps as functions: the scan moves on, worker [i] moves on. *)
Definition scan_move (env : InvEnv) (w : RefreshWorld) : RefreshWorld :=
  match wo_scan w with
  | None => w
  | Some (Listing now page (Atomic next upd)) =>
      with_tables (upd (wo_tables w)) (with_scan (Some (Listing now page (next (wo_tables w)))) w)
  | Some (Listing now page (Done (Err e))) => with_scan None w
  | Some (Listing now page (Done (Ok (items, total)))) =>
      with_scan (Some (Starting now page (length items) items total)) w
  | Some (Starting now page len (item :: items) total) => scan_item now page len item items total w
  | Some (Starting now page len [] total) => scan_next env now page len total w
  end.
Definition worker_move (env : InvEnv) (i : nat) (w : RefreshWorld) : RefreshWorld :=
  match wo_workers w !! i with
  | Some (job, Entering) => enter false i job w
  | Some (job, Reading) => read_due env i job w
  | Some (job, Calling (Atomic next upd)) =>
      with_tables (upd (wo_tables w)) (move i job (Calling (next (wo_tables w))) w)
  | Some (job, Calling (Done r)) =>
      leave i job match r with Ok o => o | Err e => (None, Some e) end w
  | Some (job, Settling o) =>
      match job_Scan job with Some scan => settle env i job scan o w | None => w end
  | Some (job, Booking attempted fallback) =>
      match wo_scan w with None => book (ie_now env) i job attempted fallback w | Some _ => w end
  | _ => w
  end.

Lemma scan_move_steps env w : rtc world_step w (scan_move env w).
Proof.
  unfold scan_move. destruct (wo_scan w) as [[now page [[[items total]|e]|next upd]|now page len [|item items] total]|] eqn:E;
    [apply rtc_once..|apply rtc_refl].
  - by eapply scan_listed.
  - by eapply scan_failed.
  - by eapply scan_read.
  - by eapply scan_pages.
  - by eapply scan_starts.
Qed.

Lemma worker_move_steps env i w : rtc worker_step w (worker_move env i w).
Proof.
  unfold worker_move. destruct (wo_workers w !! i) as [[job [| |[r|next upd]|o|a fb|]]|] eqn:Hi;
    try apply rtc_refl.
  - apply rtc_once. by apply worker_enter.
  - apply rtc_once. by apply worker_read.
  - apply rtc_once. by eapply worker_leave.
  - apply rtc_once. by eapply worker_statement.
  - destruct (job_Scan job) as [sc|] eqn:Hs; [|apply rtc_refl]. apply rtc_once. by apply worker_settle.
  - destruct (wo_scan w) eqn:Hn; [apply rtc_refl|]. apply rtc_once. by apply worker_book.
Qed.

Definition reachable (w : RefreshWorld) : Prop := ∃ tables, rtc world_step (NewScheduler tables) w.

(** ** Who has a slot *)

(** The subscriptions of the goroutines that hold a slot, and of those of the scheduler
    that have not booked. *)
Definition inside (wk : worker) : option string :=
  match wk.2 with Reading | Calling _ => Some (job_ID wk.1) | _ => None end.
Definition unbooked (wk : worker) : option string :=
  match job_Scan wk.1, wk.2 with
  | Some _, Gone => None
  | Some _, _ => Some (job_ID wk.1)
  | None, _ => None
  end.
Definition inside_ids (w : RefreshWorld) : list string := omap inside (wo_workers w).
Definition unbooked_ids (w : RefreshWorld) : list string := omap unbooked (wo_workers w).

(** Only goroutines of the scheduler settle and book. *)
Definition well_placed (wk : worker) : Prop :=
  match wk.2 with Settling _ | Booking _ _ => is_Some (job_Scan wk.1) | _ => True end.

(** The set has the elements of the list, which are distinct. *)
Definition owns (ids : list string) (S : gset string) : Prop :=
  NoDup ids ∧ (∀ x, x ∈ S ↔ x ∈ ids) ∧ size S ≤ 2.

Record world_ok (w : RefreshWorld) : Prop := {
  ok_inside : owns (inside_ids w) (wo_refreshing w);
  ok_unbooked : owns (unbooked_ids w) (wo_running w);
  ok_placed : Forall well_placed (wo_workers w)
}.

Lemma omap_move {A B} (f : A → option B) l i x y :
  l !! i = Some x →
  ∃ a b, omap f l = a ++ option_list (f x) ++ b ∧ omap f (<[i := y]> l) = a ++ option_list (f y) ++ b.
Proof.
  intros Hi. exists (omap f (take i l)), (omap f (drop (S i) l)).
  rewrite <- (take_drop_middle l i x Hi) at 1.
  rewrite (insert_take_drop l i y) by (by eapply lookup_lt_Some).
  rewrite !omap_app. simpl. by destruct (f x), (f y).
Qed.

Lemma owns_add a b x S : owns (a ++ [] ++ b) S → x ∉ S → size S < 2 → owns (a ++ [x] ++ b) ({[x]} ∪ S).
Proof.
  intros (Hn & Hs & Hl) Hx Hlt. simpl in *.
  assert (a ++ x :: b ≡ₚ x :: a ++ b) as Hp by (by rewrite Permutation_middle). split; [|split].
  - rewrite Hp. constructor; [by rewrite <- Hs|done].
  - intros y. rewrite Hp, elem_of_union, elem_of_singleton, Hs. by rewrite elem_of_cons.
  - rewrite size_union by set_solver. rewrite size_singleton. lia.
Qed.

Lemma owns_remove a b x S : owns (a ++ [x] ++ b) S → owns (a ++ [] ++ b) (S ∖ {[x]}).
Proof.
  intros (Hn & Hs & Hl). simpl in *.
  assert (a ++ x :: b ≡ₚ x :: a ++ b) as Hp by (by rewrite Permutation_middle).
  rewrite Hp in Hn. apply NoDup_cons in Hn as [Hx Hn]. split; [done|]. split.
  - intros y. rewrite elem_of_difference, elem_of_singleton, Hs, Hp, elem_of_cons. split.
    + by intros [[->|?] ?].
    + intros Hy. split; [by right|]. by intros ->.
  - etrans; [|exact Hl]. apply subseteq_size. set_solver.
Qed.

Lemma owns_bound ids S : owns ids S → length ids ≤ 2.
Proof.
  intros (Hn & Hs & Hl). etrans; [|exact Hl]. assert (S = list_to_set ids) as ->.
  { apply set_eq. intros x. by rewrite Hs, elem_of_list_to_set. }
  by rewrite size_list_to_set.
Qed.

(** What moving from a state with slot [o] to one with slot [o'] does to the set. *)
Definition transfers (o o' : option string) (S S' : gset string) : Prop :=
  match o, o' with
  | None, Some x => x ∉ S ∧ size S < 2 ∧ S' = {[x]} ∪ S
  | Some x, None => S' = S ∖ {[x]}
  | _, _ => o = o' ∧ S' = S
  end.

Lemma transfers_owns (f : worker → option string) l i x y S S' :
  owns (omap f l) S → l !! i = Some x → transfers (f x) (f y) S S' → owns (omap f (<[i := y]> l)) S'.
Proof.
  intros Ho Hi Ht. destruct (omap_move f l i x y Hi) as (a & b & E & ->). rewrite E in Ho.
  unfold transfers in Ht. destruct (f x) as [u|], (f y) as [v|]; simpl in Ht.
  - by destruct Ht as [[= ->] ->].
  - subst S'. by apply owns_remove.
  - destruct Ht as (? & ? & ->). by apply owns_add.
  - by destruct Ht as [_ ->].
Qed.

(** Worker [i] moves. *)
Lemma move_ok w w' i job ph ph' :
  world_ok w → wo_workers w !! i = Some (job, ph) →
  wo_workers w' = <[i := (job, ph')]> (wo_workers w) →
  transfers (inside (job, ph)) (inside (job, ph')) (wo_refreshing w) (wo_refreshing w') →
  transfers (unbooked (job, ph)) (unbooked (job, ph')) (wo_running w) (wo_running w') →
  well_placed (job, ph') → world_ok w'.
Proof.
  intros [Hin Hun Hpl] Hi Hw Htr Htu Hp. split.
  - unfold inside_ids in *. rewrite Hw. by eapply transfers_owns.
  - unfold unbooked_ids in *. rewrite Hw. by eapply transfers_owns.
  - rewrite Hw. by apply Forall_insert.
Qed.

Lemma transfers_refl o S : transfers o o S S.
Proof. by destruct o. Qed.

Ltac same_slot := solve [apply transfers_refl | split; reflexivity].

(** A step that leaves the workers and their sets. *)
Lemma frame_ok w w' :
  world_ok w → wo_workers w' = wo_workers w → wo_refreshing w' = wo_refreshing w →
  wo_running w' = wo_running w → world_ok w'.
Proof.
  intros [Hin Hun Hpl] Hw Hr Hu.
  split; unfold inside_ids, unbooked_ids in *; rewrite ?Hw, ?Hr, ?Hu; done.
Qed.

(** A new worker. *)
Lemma spawn_ok w job S :
  world_ok w →
  transfers None (unbooked (job, Entering)) (wo_running w) S →
  world_ok (spawn job (with_running S (wo_attempted w) w)).
Proof.
  intros [Hin Hun Hpl] Ht. split; unfold inside_ids, unbooked_ids in *; simpl.
  - rewrite omap_app. simpl. by rewrite app_nil_r.
  - rewrite omap_app. simpl. unfold transfers in Ht. destruct (unbooked (job, Entering)) as [x|].
    + destruct Ht as (Hx & Hs & ->). rewrite <- (app_nil_r (omap unbooked (wo_workers w))) in Hun.
      exact (owns_add _ [] x _ Hun Hx Hs).
    + destruct Ht as [_ ->]. by rewrite app_nil_r.
  - apply Forall_app. split; [done|]. by repeat constructor.
Qed.

Lemma admission_none id w :
  admission id w = None → id ∉ wo_refreshing w ∧ size (wo_refreshing w) < 2.
Proof.
  unfold admission. case_bool_decide; [done|]. destruct (2 <=? _) eqn:E; [done|].
  apply Nat.leb_gt in E. done.
Qed.

Lemma after_call_unbooked job o S : transfers (unbooked (job, Entering)) (unbooked (job, after_call job o)) S S.
Proof. unfold after_call. destruct job as [id [sc|]]; simpl; same_slot. Qed.
Lemma after_call_inside job o : inside (job, after_call job o) = None.
Proof. unfold after_call. by destruct job as [id [sc|]]. Qed.
Lemma after_call_placed job o : well_placed (job, after_call job o).
Proof. unfold after_call. destruct job as [id [sc|]]; simpl; [by eexists|done]. Qed.

Lemma enter_ok w i job cancelled :
  world_ok w → wo_workers w !! i = Some (job, Entering) → world_ok (enter cancelled i job w).
Proof.
  intros Hok Hi. unfold enter.
  assert (∀ o, world_ok (move i job (after_call job o) w)) as Hend.
  { intros o. eapply move_ok; [done|done|reflexivity| | |apply after_call_placed].
    - rewrite after_call_inside. same_slot.
    - apply after_call_unbooked. }
  destruct cancelled; [apply Hend|]. destruct (admission _ _) as [e|] eqn:E; [apply Hend|].
  apply admission_none in E as [Hx Hs].
  eapply move_ok; [done|done|reflexivity|done| |done].
  by destruct job as [id [sc|]].
Qed.

Lemma read_ok w i job env :
  world_ok w → wo_workers w !! i = Some (job, Reading) → world_ok (read_due env i job w).
Proof.
  intros Hok Hi. unfold read_due.
  assert (∀ p, world_ok (move i job (Calling p) w)) as Hmv.
  { intros p. eapply move_ok; [done|done|reflexivity|done| |done].
    destruct job as [id [sc|]]; simpl; same_slot. }
  destruct (ask _ _ _ _).1 as [[sub last]|e]; [|apply Hmv].
  destruct (match job_Scan job with Some _ => _ | None => _ end); apply Hmv.
Qed.

Lemma worker_step_ok w w' : world_ok w → worker_step w w' → world_ok w'.
Proof.
  intros Hok Hst. destruct Hst as [w i job c Hi|w i job env Hi|w i job next upd Hi
    |w i job r Hi|w i job scan o env Hi Hsc|w i job a fb now Hi Hn].
  - by apply enter_ok.
  - by apply read_ok.
  - eapply move_ok; [done|done|reflexivity| | |done];
      destruct job as [id [sc|]]; simpl; same_slot.
  - eapply move_ok; [done|done|reflexivity| | |apply after_call_placed].
    + rewrite after_call_inside. done.
    + pose proof (after_call_unbooked job match r with Ok o => o | Err e => (None, Some e) end (wo_running w)) as Ht.
      destruct job as [id [sc|]]; exact Ht.
  - eapply move_ok; [done|done|reflexivity|done| |];
      destruct job as [id sc']; simpl in *; subst sc'; simpl; [same_slot|by eexists].
  - pose proof (Forall_lookup_1 _ _ _ _ (ok_placed w Hok) Hi) as [sc Hsc]. simpl in Hsc.
    eapply move_ok; [done|done|reflexivity|done| |done].
    destruct job as [id sc']; simpl in *; subst sc'. done.
Qed.

Lemma world_step_ok w w' : world_ok w → world_step w w' → world_ok w'.
Proof.
  intros Hok Hst. destruct Hst as [w id|w t|w|w Hc Hn|w env now Hn Hs Hc|w now page next upd Hn
    |w now page e Hn|w now page items total Hn|w now page len item items total Hn
    |w env now page len total Hn|w w' Hst]; try (by eapply frame_ok).
  - eapply frame_ok; [apply (spawn_ok w {| job_ID := id; job_Scan := None |} (wo_running w) Hok)|..];
      [same_slot|reflexivity..].
  - unfold scan_item. destruct (2 <=? _) eqn:E; [by eapply frame_ok|]. apply Nat.leb_gt in E.
    case_bool_decide as Hr; simpl; [by eapply frame_ok|]. destruct (refreshDue _ _ _ _); simpl; [|by eapply frame_ok].
    set (w1 := with_scan _ w). apply (spawn_ok w1); [by eapply frame_ok|done].
  - unfold scan_next. destruct (_ || _); by eapply frame_ok.
  - by eapply worker_step_ok.
Qed.

Lemma refreshes_ok w : reachable w → world_ok w.
Proof.
  intros [t Hst]. remember (NewScheduler t) as w0 eqn:E.
  assert (world_ok w0) as Hok.
  { subst. split; [| |apply Forall_nil_2..]; (split; [apply NoDup_nil_2|split; [set_solver|]]);
      change (size (∅ : gset string) ≤ 2); rewrite size_empty; lia. }
  clear E. induction Hst as [|w0 w1 w2 Hs _ IH]; [done|]. apply IH. by eapply world_step_ok.
Qed.

(** ** Termination *)

(** One step of a worker, seen from its phase. *)
Inductive later : call_phase → call_phase → Prop :=
  | later_enter ph o : ph = Reading ∨ ph = Settling o ∨ ph = Gone → later ph Entering
  | later_read p : later (Calling p) Reading
  | later_statement next upd s : later (Calling (next s)) (Calling (Atomic next upd))
  | later_leave r o ph : ph = Settling o ∨ ph = Gone → later ph (Calling (Done r))
  | later_settle o a fb : later (Booking a fb) (Settling o)
  | later_book a fb : later Gone (Booking a fb).

Lemma later_wf ph : Acc later ph.
Proof.
  assert (Acc later Gone) as Hg by (constructor; inversion 1).
  assert (∀ a fb, Acc later (Booking a fb)) as Hb by (intros; constructor; inversion 1; subst; exact Hg).
  assert (∀ o, Acc later (Settling o)) as Hs by (intros; constructor; inversion 1; subst; apply Hb).
  assert (∀ p, Acc later (Calling p)) as Hc.
  { intros p. induction p as [r|next IH upd]; constructor; inversion 1 as [| |? ? ?|? o ? Hph| |]; subst; [|apply IH].
    destruct Hph as [->| ->]; [apply Hs|exact Hg]. }
  assert (Acc later Reading) as Ha by (constructor; inversion 1; subst; apply Hc).
  destruct ph; [|exact Ha|apply Hc|apply Hs|apply Hb|exact Hg].
  constructor. inversion 1 as [? o Hph| | | | |]; subst. destruct Hph as [->|[->| ->]]; [exact Ha|apply Hs|exact Hg].
Qed.

(** One phase of a list moves. *)
Definition moves (l' l : list call_phase) : Prop :=
  ∃ i x y, l !! i = Some x ∧ later y x ∧ l' = <[i := y]> l.

Lemma moves_wf l : Acc moves l.
Proof.
  induction l as [|x l IH]; [constructor; by intros ? (i & x & y & Hi & _)|].
  revert l IH. induction (later_wf x) as [x _ IHx]. intros l IH. induction IH as [l Hacc IHl].
  constructor. intros l' (i & u & v & Hi & Hl & ->). destruct i as [|i]; simpl in *.
  - simplify_eq. apply IHx; [done|]. constructor. exact Hacc.
  - apply IHl. by exists i, u, v.
Qed.

Lemma worker_step_moves w w' : worker_step w w' → moves (map snd (wo_workers w')) (map snd (wo_workers w)).
Proof.
  assert (∀ i job ph ph' ws, wo_workers w !! i = Some (job, ph) → later ph' ph →
    ws = <[i := (job, ph')]> (wo_workers w) → moves (map snd ws) (map snd (wo_workers w))) as Hmv.
  { intros i job ph ph' ws Hi Hl ->. exists i, ph, ph'. split; [|split; [done|]].
    - change (map snd (wo_workers w)) with (snd <$> wo_workers w). rewrite list_lookup_fmap. exact (f_equal (fmap snd) Hi).
    - exact (list_fmap_insert snd (wo_workers w) i (job, ph')). }
  assert (∀ job o, after_call job o = Settling o ∨ after_call job o = Gone) as Hac.
  { intros [id [sc|]] o; unfold after_call; simpl; auto. }
  inversion 1 as [? i job c Hi|? i job env Hi|? i job next upd Hi
    |? i job r Hi|? i job scan o env Hi Hsc|? i job a fb now Hi Hn]; subst.
  - unfold enter. destruct c; [|destruct (admission _ _)]; (eapply Hmv; [exact Hi| |reflexivity]).
    + econstructor. right. apply Hac.
    + econstructor. right. apply Hac.
    + apply later_enter with (o := (None, None)). by left.
  - unfold read_due. destruct (ask _ _ _ _).1 as [[sub last]|e];
      [destruct (match job_Scan job with Some _ => _ | None => _ end)|];
      (eapply Hmv; [exact Hi|constructor|reflexivity]).
  - eapply Hmv; [exact Hi|constructor|reflexivity].
  - eapply Hmv; [exact Hi| |reflexivity]. econstructor. apply Hac.
  - eapply Hmv; [exact Hi|constructor|reflexivity].
  - eapply Hmv; [exact Hi|constructor|reflexivity].
Qed.

Lemma worker_steps_wf w : Acc (flip worker_step) w.
Proof.
  remember (map snd (wo_workers w)) as l eqn:E. revert w E.
  induction (moves_wf l) as [l _ IH]. intros w ->. constructor. intros w' Hst.
  eapply IH; [|reflexivity]. by apply worker_step_moves.
Qed.

Lemma worker_step_scan w w' : worker_step w w' → wo_scan w' = wo_scan w.
Proof.
  destruct 1; unfold enter, read_due, leave, settle, book; repeat case_match; reflexivity.
Qed.

(** A worker that is not gone has a step, between scans. *)
Lemma worker_progress w i job ph :
  world_ok w → wo_scan w = None → wo_workers w !! i = Some (job, ph) → ph ≠ Gone →
  ∃ w', worker_step w w'.
Proof.
  intros Hok Hn Hi Hg. pose proof (Forall_lookup_1 _ _ _ _ (ok_placed w Hok) Hi) as Hp.
  destruct ph as [| |[r|next upd]|o|a fb|]; simpl in Hp; try done.
  - eexists. by apply (worker_enter w i job true).
  - eexists. apply (worker_read w i job {| ie_io := λ _ _, None; ie_uuid := λ _ _, "";
      ie_started := 0%Z; ie_finished := 0%Z; ie_now := 0%Z |} Hi).
  - eexists. by eapply worker_leave.
  - eexists. by eapply worker_statement.
  - destruct Hp as [sc Hsc]. eexists. apply (worker_settle w i job sc o {| ie_io := λ _ _, None;
      ie_uuid := λ _ _, ""; ie_started := 0%Z; ie_finished := 0%Z; ie_now := 0%Z |} Hi Hsc).
  - eexists. by apply (worker_book w i job a fb 0%Z).
Qed.

Lemma omap_gone (f : worker → option string) l :
  Forall (λ wk, f wk = None) l → omap f l = [].
Proof. induction 1 as [|x l Hx _ IH]; [done|]. simpl. by rewrite Hx. Qed.

Lemma owns_nil S : owns [] S → S = ∅.
Proof. intros (_ & Hs & _). apply set_eq. intros x. rewrite Hs. set_solver. Qed.

(** ** What a call runs *)

(** The procedures that a goroutine can be given when it reads its subscription in [t]: a
    record of the failure to read it; nothing, if the scheduler sent it and the subscription
    is not due; the call of the reconciler, otherwise. *)
Inductive call_from (job : Job) (t : Inventory) : proc Inventory outcome → Prop :=
  | call_refused env e : call_from job t (recordFailure env (None, Some e))
  | call_skipped sub last scan :
      subscriptions_GetByID t (job_ID job) = Ok (sub, last) → job_Scan job = Some scan →
      refreshDue sub last (sa_Now scan) (sa_Last scan) = false → call_from job t (give (None, None))
  | call_made env sub last :
      subscriptions_GetByID t (job_ID job) = Ok (sub, last) →
      (∀ scan, job_Scan job = Some scan →
         sub_Enabled sub = true ∧ refreshDue sub last (sa_Now scan) (sa_Last scan) = true) →
      call_from job t (reconcile env reconciler sub (job_ID job)).

(** One statement of a procedure, on whatever tables it finds. *)
Definition proceeds (p q : proc Inventory outcome) : Prop :=
  ∃ next upd s, p = Atomic next upd ∧ q = next s.

Lemma due_enabled sub last now att : refreshDue sub last now att = true → sub_Enabled sub = true.
Proof. unfold refreshDue. by destruct (sub_Enabled sub). Qed.

Lemma read_due_call env i job w :
  ∃ p, call_from job (wo_tables w) p ∧ read_due env i job w = move i job (Calling p) w.
Proof.
  unfold read_due, ask. destruct (ie_io env "refresh.GetByID" 0) as [m|]; simpl.
  { eexists. split; [apply call_refused|reflexivity]. }
  destruct (subscriptions_GetByID (wo_tables w) (job_ID job)) as [[sub last]|e] eqn:Hsub.
  2: { eexists. split; [apply call_refused|reflexivity]. }
  destruct (job_Scan job) as [scan|] eqn:Hscan; [destruct (refreshDue _ _ _ _) eqn:Hdue|]; simpl.
  - eexists. split; [|reflexivity]. eapply call_made; [done|]. rewrite Hscan. intros scan' [= <-].
    split; [by eapply due_enabled|done].
  - eexists. split; [by eapply call_skipped|reflexivity].
  - eexists. split; [|reflexivity]. eapply call_made; [done|]. by rewrite Hscan.
Qed.

(** Where a worker in a call was one step before. *)
Definition was_calling (w : RefreshWorld) (i : nat) (job : Job) (rest : proc Inventory outcome) : Prop :=
  wo_workers w !! i = Some (job, Calling rest) ∨
  (∃ before, wo_workers w !! i = Some (job, Calling before) ∧ proceeds before rest) ∨
  (wo_workers w !! i = Some (job, Reading) ∧ call_from job (wo_tables w) rest).

Lemma after_call_not_calling job o rest : after_call job o ≠ Calling rest.
Proof. unfold after_call. by destruct (job_Scan job). Qed.

(** The lookup after worker [j] moved. *)
Lemma moved_lookup (ws : list worker) i j job job' ph rest x :
  ws !! j = Some x → <[j := (job', ph)]> ws !! i = Some (job, Calling rest) →
  (i = j ∧ job' = job ∧ ph = Calling rest) ∨ ws !! i = Some (job, Calling rest).
Proof.
  intros Hj. destruct (decide (j = i)) as [->|Hne].
  - rewrite list_lookup_insert_eq by (by eapply lookup_lt_Some). intros [= -> ->]. by left.
  - rewrite list_lookup_insert_ne by done. by right.
Qed.

Lemma worker_step_calling w w' i job rest :
  worker_step w w' → wo_workers w' !! i = Some (job, Calling rest) → was_calling w i job rest.
Proof.
  intros Hst Hw. unfold was_calling.
  destruct Hst as [w j jb c Hj|w j jb env Hj|w j jb next upd Hj|w j jb r Hj|w j jb sc o env Hj Hsc|w j jb a fb now Hj Hn].
  - assert (∀ ph, ph ≠ Calling rest → <[j := (jb, ph)]> (wo_workers w) !! i = Some (job, Calling rest) →
      wo_workers w !! i = Some (job, Calling rest)) as Hno.
    { intros ph Hph Hl. by destruct (moved_lookup _ _ _ _ _ _ _ _ Hj Hl) as [(_ & _ & ?)|?]. }
    left. unfold enter in Hw. destruct c; [|destruct (admission _ _)];
      (eapply Hno; [|exact Hw]); first [apply after_call_not_calling|done].
  - destruct (read_due_call env j jb w) as (p & Hp & E). rewrite E in Hw.
    destruct (moved_lookup _ _ _ _ _ _ _ _ Hj Hw) as [(-> & -> & [= ->])|?]; [|by left]. right; right. done.
  - destruct (moved_lookup _ _ _ _ _ _ _ _ Hj Hw) as [(-> & -> & [= <-])|?]; [|by left].
    right; left. exists (Atomic next upd). split; [done|]. by exists next, upd, (wo_tables w).
  - destruct (moved_lookup _ _ _ _ _ _ _ _ Hj Hw) as [(_ & _ & ?)|?]; [|by left].
    by destruct (after_call_not_calling jb match r with Ok o => o | Err e => (None, Some e) end rest).
  - destruct (moved_lookup _ _ _ _ _ _ _ _ Hj Hw) as [(_ & _ & ?)|?]; [done|by left].
  - destruct (moved_lookup _ _ _ _ _ _ _ _ Hj Hw) as [(_ & _ & ?)|?]; [done|by left].
Qed.

Lemma spawned_lookup (ws : list worker) i jb job rest :
  (ws ++ [(jb, Entering)]) !! i = Some (job, Calling rest) → ws !! i = Some (job, Calling rest).
Proof.
  rewrite lookup_app_Some. intros [?|[_ Hl]]; [done|]. apply list_lookup_singleton_Some in Hl as [_ ?]. done.
Qed.

Lemma world_step_calling w w' i job rest :
  world_step w w' → wo_workers w' !! i = Some (job, Calling rest) → was_calling w i job rest.
Proof.
  intros Hst Hw. destruct Hst as [w id|w t|w|w Hc Hn|w env now Hn Hs Hc|w now page next upd Hn
    |w now page e Hn|w now page items total Hn|w now page len item items total Hn
    |w env now page len total Hn|w w' Hst]; try (left; exact Hw).
  - left. by apply spawned_lookup in Hw.
  - left. revert Hw. unfold scan_item. destruct (2 <=? _); [done|]. cbv zeta.
    destruct (_ || _); [done|]. apply spawned_lookup.
  - left. revert Hw. unfold scan_next. by destruct (_ || _).
  - by eapply worker_step_calling.
Qed.

(** A call started at a read, in a state from which the present one was reached. *)
Lemma call_history w i job rest :
  reachable w → wo_workers w !! i = Some (job, Calling rest) →
  ∃ w0 p, rtc world_step w0 w ∧ wo_workers w0 !! i = Some (job, Reading) ∧
    call_from job (wo_tables w0) p ∧ rtc proceeds p rest.
Proof.
  intros [t Hst]. revert rest. pattern w. eapply rtc_ind_r; [..|exact Hst]; [by intros rest Hw|].
  clear w Hst. intros w1 w2 Hst Hs IH rest Hw.
  destruct (world_step_calling _ _ _ _ _ Hs Hw) as [Hb|[(before & Hb & Hp)|[Hb Hc]]].
  - destruct (IH _ Hb) as (w0 & p & ? & ? & ? & ?). exists w0, p. split; [by eapply rtc_r|done].
  - destruct (IH _ Hb) as (w0 & p & ? & ? & ? & ?). exists w0, p. split; [by eapply rtc_r|].
    split; [done|]. split; [done|]. by eapply rtc_r.
  - exists w1, rest. split; [by apply rtc_once|]. split; [done|]. split; [done|]. apply rtc_refl.
Qed.

(** ** The theorems *)


(** C24. Refreshes end and give everything back.  Between scans there is no infinite run of
    the goroutines, whatever the database and the reconciler answer, and a state in which
    none of them can move has none left, no slot taken and no subscription marked as
    running: [Stop] returns, and later refreshes find both slots free. *)
Theorem refreshes_finish w :
  reachable w → wo_scan w = None →
  Acc (flip worker_step) w ∧
  ∀ w', rtc worker_step w w' → (∀ w'', ¬ worker_step w' w'') →
    Forall (λ wk, wk.2 = Gone) (wo_workers w') ∧ wo_refreshing w' = ∅ ∧ wo_running w' = ∅.
Proof.
  intros Hr Hn. split; [apply worker_steps_wf|]. intros w' Hst Hend.
  assert (world_ok w' ∧ wo_scan w' = None) as [Hok Hn'].
  { apply refreshes_ok in Hr. clear Hend. induction Hst as [w|w w1 w2 Hs _ IH]; [done|].
    apply IH; [by eapply worker_step_ok|]. by rewrite (worker_step_scan _ _ Hs). }
  assert (Forall (λ wk, wk.2 = Gone) (wo_workers w')) as Hg.
  { apply Forall_lookup. intros i [job ph] Hi. simpl. 
    assert (ph = Gone ∨ ph ≠ Gone) as [|Hne] by (destruct ph; by auto); [done|].
    destruct (worker_progress w' i job ph Hok Hn' Hi Hne) as [w'' Hs]. by destruct (Hend w''). }
  split; [done|]. split.
  - apply owns_nil. pose proof (ok_inside w' Hok) as Ho. unfold inside_ids in Ho.
    rewrite omap_gone in Ho; [done|]. eapply Forall_impl; [exact Hg|]. intros [job ph] Hph. simpl in Hph. by subst.
  - apply owns_nil. pose proof (ok_unbooked w' Hok) as Ho. unfold unbooked_ids in Ho.
    rewrite omap_gone in Ho; [done|]. eapply Forall_impl; [exact Hg|]. intros [job ph] Hph. simpl in Hph.
    subst ph. by destruct job as [id [sc|]].
Qed.
End Steps.

(** ** Samples *)

Section Samples.
#[local] Existing Instance key_order.

(** No cron expression is valid; the tables answer; a call finds nothing to do. *)
Definition no_cron : Cron := {| cron_parse := λ _, None |}.
#[local] Existing Instance no_cron.
Definition idle_reconciler : Reconciler := λ _ id,
  give ({| rc_FetchID := "f"; rc_SubscriptionID := id; rc_Outcome := FetchOutcomeSuccess;
           rc_ContentDigest := ""; rc_NodesParsed := 0; rc_NodesValid := 0 |}%Z, None).
Definition hour_env : InvEnv := sample_inv_env "p" (4000 * second).

(** Two subscriptions are due an hour after their creation: the scan starts both, both take a
    slot and read their subscription. *)
Definition scanned : RefreshWorld :=
  Nat.iter 7 (scan_move hour_env)
    (with_scan (Some (Listing (4000 * second) 1 (subscriptions_ListEnabled hour_env 1)))
       (NewScheduler two_subs)).
Definition both_called : RefreshWorld :=
  fold_left (λ w i, worker_move (Some idle_reconciler) hour_env i w) [0; 1; 0; 1] scanned.

Lemma iter_steps env n w : rtc (world_step (Some idle_reconciler)) w (Nat.iter n (scan_move env) w).
Proof.
  induction n as [|n IH]; [apply rtc_refl|]. simpl. etrans; [exact IH|]. apply scan_move_steps.
Qed.

Lemma worker_moves_steps env l w :
  rtc (worker_step (Some idle_reconciler)) w
    (fold_left (λ w i, worker_move (Some idle_reconciler) env i w) l w).
Proof.
  revert w. induction l as [|i l IH]; intros w; [apply rtc_refl|]. simpl.
  etrans; [apply worker_move_steps|apply IH].
Qed.

Lemma worker_steps_reachable w w' :
  reachable (Some idle_reconciler) w → rtc (worker_step (Some idle_reconciler)) w w' →
  reachable (Some idle_reconciler) w'.
Proof.
  intros [t Ht] Hst. exists t. etrans; [exact Ht|]. clear Ht.
  induction Hst as [|w w1 w2 Hs _ IH]; [apply rtc_refl|]. eapply rtc_l; [by apply worker_steps|exact IH].
Qed.

Lemma scanned_reachable : reachable (Some idle_reconciler) scanned.
Proof.
  exists two_subs. unfold scanned. etrans; [|apply iter_steps]. apply rtc_once. by apply scan_begin.
Qed.

Lemma both_called_reachable : reachable (Some idle_reconciler) both_called.
Proof. eapply worker_steps_reachable; [apply scanned_reachable|apply worker_moves_steps]. Qed.


(** From there the goroutines end; the call left no fetch behind, so that the attempts are
    noted. *)
Definition all_booked : RefreshWorld :=
  fold_left (λ w i, worker_move (Some idle_reconciler) hour_env i w) [0; 0; 0; 0; 1; 1; 1; 1] both_called.

Lemma gone_stuck w : Forall (λ wk, wk.2 = Gone) (wo_workers w) → ∀ w', ¬ worker_step (Some idle_reconciler) w w'.
Proof.
  intros Hg w' Hst. rewrite Forall_lookup in Hg.
  destruct Hst as [w i job c Hi|w i job env Hi|w i job next upd Hi|w i job r Hi
    |w i job sc o env Hi Hs|w i job a fb now Hi Hn]; specialize (Hg i _ Hi); discriminate Hg.
Qed.

Lemma all_booked_gone : Forall (λ wk, wk.2 = Gone) (wo_workers all_booked).
Proof. vm_compute. repeat constructor. Qed.

Lemma refreshes_finish_witness :
  wo_attempted all_booked = <["b" := (4000 * second)%Z]> {["a" := (4000 * second)%Z]} ∧
  wo_refreshing all_booked = ∅ ∧ wo_running all_booked = ∅.
Proof.
  split; [vm_compute; reflexivity|].
  apply (refreshes_finish (Some idle_reconciler) both_called both_called_reachable).
  - vm_compute. reflexivity.
  - apply worker_moves_steps.
  - apply gone_stuck, all_booked_gone.
Defined.
End Samples.
