(* ===== verification/PolicyStore.v ===== *)
(** * The tables of the policy graph and of its revisions

    [internal/repository/sqlite/policy.go], [revisions.go] (configuration revisions)
    and [revision_snapshots.go], with [internal/domain/policy_digest.go], over the schema
    of [migrations].  A transaction is one statement; the constraints of the schema
    (primary keys, foreign keys, the list of built-in names) are tested as the database
    tests them.

    A group is stored with its revision; its sources are in the order of their
    positions.  A JSON column is the value it encodes.  The times of groups and
    sources, which no operation reads, are left out. *)

From S2P Require Import Prelude.
From S2P Require Import GoStrings.
From S2P Require Import Domain.
From S2P Require Import Lifecycle.
From S2P Require Import NodeFilter.
From S2P Require Import Policy.
From S2P Require Import Services.
From S2P Require Import Requests.

(** ** State *)

Record StoredGroup : Type := { sg_Group : NodeGroup; sg_Revision : Z }.

Record RevisionRow : Type := {
  rv_ID : string;
  rv_ParentID : option string;
  rv_ContentDigest : string;
  rv_State : string;
  rv_CreatedAt : time
}.

(** Rules carry the revision they belong to. *)
Record PolicyTables : Type := {
  pl_groups : gmap string StoredGroup;
  pl_rules : gmap string (string * PolicyRule);
  pl_admission : gmap string (string * AdmissionRule);
  pl_revisions : gmap string RevisionRow;
  pl_snapshots : gmap string (list StoredGroup);
  pl_filter : NodeFilterSpec;
  pl_trail : list AuditEvent
}.

(** After the migrations. *)
Definition empty_policy : PolicyTables :=
  {| pl_groups := ∅; pl_rules := ∅; pl_admission := ∅; pl_revisions := ∅; pl_snapshots := ∅;
     pl_filter := {| spec_Conditions := [] |}; pl_trail := [] |}.

#[export] Instance policy_audited : Audited PolicyTables := {
  trail := pl_trail;
  with_trail t s := {| pl_groups := pl_groups s; pl_rules := pl_rules s;
    pl_admission := pl_admission s; pl_revisions := pl_revisions s;
    pl_snapshots := pl_snapshots s; pl_filter := pl_filter s; pl_trail := t |}
}.

Definition with_groups (m : gmap string StoredGroup) (s : PolicyTables) : PolicyTables :=
  {| pl_groups := m; pl_rules := pl_rules s; pl_admission := pl_admission s;
     pl_revisions := pl_revisions s; pl_snapshots := pl_snapshots s; pl_filter := pl_filter s;
     pl_trail := pl_trail s |}.
Definition with_rules (m : gmap string (string * PolicyRule)) (s : PolicyTables) : PolicyTables :=
  {| pl_groups := pl_groups s; pl_rules := m; pl_admission := pl_admission s;
     pl_revisions := pl_revisions s; pl_snapshots := pl_snapshots s; pl_filter := pl_filter s;
     pl_trail := pl_trail s |}.
Definition with_admission (m : gmap string (string * AdmissionRule)) (s : PolicyTables)
    : PolicyTables :=
  {| pl_groups := pl_groups s; pl_rules := pl_rules s; pl_admission := m;
     pl_revisions := pl_revisions s; pl_snapshots := pl_snapshots s; pl_filter := pl_filter s;
     pl_trail := pl_trail s |}.
Definition with_revisions (m : gmap string RevisionRow) (snaps : gmap string (list StoredGroup))
    (s : PolicyTables) : PolicyTables :=
  {| pl_groups := pl_groups s; pl_rules := pl_rules s; pl_admission := pl_admission s;
     pl_revisions := m; pl_snapshots := snaps; pl_filter := pl_filter s; pl_trail := pl_trail s |}.
Definition with_global (f : NodeFilterSpec) (s : PolicyTables) : PolicyTables :=
  {| pl_groups := pl_groups s; pl_rules := pl_rules s; pl_admission := pl_admission s;
     pl_revisions := pl_revisions s; pl_snapshots := pl_snapshots s; pl_filter := f;
     pl_trail := pl_trail s |}.

Definition set_sources (l : list MemberSource) (g : NodeGroup) : NodeGroup :=
  {| grp_EmptyFallbackPass := grp_EmptyFallbackPass g; grp_ID := grp_ID g; grp_Name := grp_Name g;
     grp_GroupType := grp_GroupType g; grp_Sources := l; grp_NodeFilter := grp_NodeFilter g |}.
Definition without_filter (g : NodeGroup) : NodeGroup :=
  {| grp_EmptyFallbackPass := grp_EmptyFallbackPass g; grp_ID := grp_ID g; grp_Name := grp_Name g;
     grp_GroupType := grp_GroupType g; grp_Sources := grp_Sources g; grp_NodeFilter := None |}.

(** What a request takes from outside: besides [Env], the identifiers that
    [NewUUIDv7] yields, by purpose and index, and what the node repository answers,
    if one is configured: is there a node of this ID? *)
Record PolEnv : Type := {
  po_env : Env;
  po_uuid : string → nat → option string;
  po_node : option (string → result error bool)
}.

(** The order in which the database returns rows that the query does not order. *)
Class TableOrder := {
  table_rows : ∀ A, gmap string A → list (string * A);
  table_rows_perm : ∀ A (m : gmap string A), table_rows A m ≡ₚ map_to_list m
}.
Arguments table_rows {_ A} m.
Arguments table_rows_perm {_ A} m.

(** [encoding/json] on the groups and edges of a configuration. *)
Class ConfigJSON := { config_json : list NodeGroup → list (string * list GroupEdge) → string }.

Definition RevisionStateDraft := "draft".
Definition RevisionActive := "active".
Definition RevisionStateArchived := "archived".

Definition no_entropy : error := driver_error "failed to generate UUIDv7".
Definition revision_conflict : error := domain_error (NewConflictError "revision_conflict").

(** ** The digest of a configuration *)

Section Digest.
Context `{Sha256} `{ConfigJSON}.

Definition canonical_group (g : NodeGroup) : NodeGroup :=
  without_filter (set_sources (sort_stable (less_Z src_Position) (grp_Sources g)) g).

Definition ComputeConfigurationDigest (groups : list NodeGroup) (edges : list (string * list GroupEdge))
    : string :=
  hex_bytes (sha256_Sum256 (config_json
    (sort_stable (less_str grp_ID) (map canonical_group groups))
    (sort_stable (less_str fst)
       (map (λ kl, (kl.1, sort_stable (less_Z edge_Position) kl.2)) edges)))).

Definition policyGroupsDigest (groups : list NodeGroup) : string :=
  ComputeConfigurationDigest groups (map (λ g, (grp_ID g, ProjectSourceEdges (grp_Sources g))) groups).
End Digest.

(** ** Groups *)

Section Groups.
Context `{GoText} `{RegexEngine}.
Context (env : PolEnv).

Definition group_not_found : error := domain_error (NewNotFoundError "node_group_not_found").

(** A row of [node_groups] without the sources, and with them. *)
Definition row_with (l : list MemberSource) (g : StoredGroup) : StoredGroup :=
  {| sg_Group := set_sources l (sg_Group g); sg_Revision := sg_Revision g |}.
Definition row_only : StoredGroup → StoredGroup := row_with [].

Definition sources_of (s : PolicyTables) (id : string) : list MemberSource :=
  match pl_groups s !! id with Some g => grp_Sources (sg_Group g) | None => [] end.

(** The row, then its sources: two queries, and not in a transaction. *)
Definition policies_GetGroupByID (id : string) : proc PolicyTables StoredGroup :=
  let@ row := step (query (po_env env) "policies.GetGroupByID" (λ s,
    match pl_groups s !! id with Some g => Ok (row_only g) | None => Err group_not_found end)) in
  let@ sources := step (query (po_env env) "policies.fetchSourcesForGroup" (λ s, Ok (sources_of s id))) in
  give (row_with sources row).

Definition group_less : StoredGroup → StoredGroup → bool :=
  less_then (λ g, grp_Name (sg_Group g)) (less_str (λ g, grp_ID (sg_Group g))).
Definition list_groups (s : PolicyTables) : list StoredGroup :=
  sort_stable group_less (map snd (map_to_list (pl_groups s))).

(** The rows, then all sources. *)
Definition policies_ListGroups : proc PolicyTables (list StoredGroup) :=
  let@ rows := step (query (po_env env) "policies.ListGroups" (λ s, Ok (map row_only (list_groups s)))) in
  let@ sources := step (query (po_env env) "policies.fetchAllSources" (λ s, Ok (sources_of s))) in
  give (map (λ g, row_with (sources (grp_ID (sg_Group g))) g) rows).

Definition policies_ListEdgesByGroup (id : string) : M PolicyTables (list GroupEdge) :=
  query (po_env env) "policies.ListEdgesByGroup" (λ s, Ok (ProjectSourceEdges (sources_of s id))).

(** An empty text is stored as NULL. *)
Definition stored_ptr (o : option string) : option string := if has_ptr o then o else None.

(** A source at its index, owned by the group; [saved] is what the caller gets back,
    [stored] what the row holds. *)
Definition place_source (gid : string) (i : nat) (id : string) (s : MemberSource) : MemberSource :=
  {| src_ID := id; src_GroupID := gid; src_Operation := src_Operation s; src_Kind := src_Kind s;
     src_Position := Z.of_nat i; src_NodeLogicalID := src_NodeLogicalID s;
     src_TargetGroupID := src_TargetGroupID s; src_Pattern := src_Pattern s;
     src_FilterSpec := src_FilterSpec s; src_BuiltinName := src_BuiltinName s |}.
Definition stored_source (s : MemberSource) : MemberSource :=
  {| src_ID := src_ID s; src_GroupID := src_GroupID s;
     src_Operation := SourceOperation_Normalize (src_Operation s);
     src_Kind := MemberSourceKind_Normalize (src_Kind s); src_Position := src_Position s;
     src_NodeLogicalID := stored_ptr (src_NodeLogicalID s);
     src_TargetGroupID := stored_ptr (src_TargetGroupID s);
     src_Pattern := stored_ptr (src_Pattern s); src_FilterSpec := src_FilterSpec s;
     src_BuiltinName := stored_ptr (src_BuiltinName s) |}.

(** The constraints on the rows of [policy_group_sources]. *)
Definition builtin_ok (s : MemberSource) : bool :=
  match src_BuiltinName s with Some name => mem_str name builtin_names | None => true end.
Definition target_ok (groups : gmap string StoredGroup) (s : MemberSource) : bool :=
  match src_TargetGroupID s with Some id => bool_decide (is_Some (groups !! id)) | None => true end.
Definition source_ids (groups : gmap string StoredGroup) : list string :=
  flat_map (λ kg, map src_ID (grp_Sources (sg_Group kg.2))) (map_to_list groups).
Definition source_rows_ok (groups : gmap string StoredGroup) (taken : list string)
    (rows : list MemberSource) : result error unit :=
  if negb (forallb builtin_ok rows) then Err (constraint_failed "CHECK")
  else if negb (forallb (target_ok groups) rows) then Err (constraint_failed "FOREIGN KEY")
  else if negb (bool_decide (NoDup (map src_ID rows ++ taken))) then Err (constraint_failed "UNIQUE")
  else Ok tt.

(** Identifiers for the sources that have none. *)
Fixpoint identify (gid : string) (i : nat) (l : list MemberSource)
    : result error (list MemberSource) :=
  match l with
  | [] => Ok []
  | s :: l =>
      let? id := (if String.eqb (src_ID s) "" then
                    match po_uuid env "source" i with Some id => Ok id | None => Err no_entropy end
                  else Ok (src_ID s)) in
      let? rest := identify gid (S i) l in
      Ok (place_source gid i id s :: rest)
  end.

(** The revision that a group gets, if the caller expects the current one. *)
Definition next_revision (expected : Z) (current : option StoredGroup) : result error Z :=
  match current with
  | Some g => if (0 <? expected)%Z && negb (expected =? sg_Revision g)%Z then Err revision_conflict
              else Ok (sg_Revision g + 1)%Z
  | None => if (0 <? expected)%Z then Err revision_conflict else Ok 1%Z
  end.

Definition number_sources (l : list MemberSource) : list MemberSource :=
  imap (λ i s, place_source (src_GroupID s) i (src_ID s) s) l.

Definition write_group (group : NodeGroup) (expected : Z) (sources : list MemberSource)
    (s : PolicyTables) : result error (StoredGroup * PolicyTables) :=
  let gid := grp_ID group in
  let? rev := next_revision expected (pl_groups s !! gid) in
  let? saved := identify gid 0 sources in
  let row := {| sg_Group := without_filter (set_sources (map stored_source saved) group);
                sg_Revision := rev |} in
  let others := delete gid (pl_groups s) in
  source_rows_ok (<[gid := row]> (pl_groups s)) (source_ids others) (map stored_source saved) ;;?
  Ok ({| sg_Group := set_sources saved group; sg_Revision := rev |},
      with_groups (<[gid := row]> (pl_groups s)) s).

Definition SaveGroupWithSources (group : NodeGroup) (expected : Z) (sources : list MemberSource)
    : M PolicyTables StoredGroup :=
  let sources := number_sources sources in
  lift (for_each ValidateMemberSource sources) ;;!
  statement (po_env env) "policies.SaveGroupWithSources" (write_group group expected sources).

(** [SaveGroup] on an existing group: the row is read, and written in a transaction of
    its own. *)
Definition SaveGroup (group : NodeGroup) (revision : Z) (create : bool)
    (edges : option (list GroupEdge)) (changeFilter : bool) (filter : option NodeFilterSpec)
    : proc PolicyTables StoredGroup :=
  let@ _ := step (lift (NodeFilterSpec_Validate filter)) in
  let@ current :=
    (if create then give (0%Z, grp_Sources group)
     else let@ current := policies_GetGroupByID (grp_ID group) in
          give (if (revision =? 0)%Z then sg_Revision current else revision,
                grp_Sources (sg_Group current))) in
  let@ sources :=
    (if negb (is_nil edges) || changeFilter
     then step (lift (EditLegacySources (grp_ID group) current.2 edges changeFilter filter))
     else give current.2) in
  step (SaveGroupWithSources group current.1 sources).

(** [UpdateGroup] of the repository, which no service calls. *)
Definition policies_UpdateGroup (group : StoredGroup) : proc PolicyTables StoredGroup :=
  SaveGroup (sg_Group group) (sg_Revision group) false None false None.

Definition SetEdgesForGroup (id : string) (edges : list GroupEdge) : proc PolicyTables StoredGroup :=
  let@ group := policies_GetGroupByID id in
  SaveGroup (sg_Group group) (sg_Revision group) false (Some edges) false None.

(** Is the group a target of another group's source, or of a routing rule? *)
Definition refers_to (id : string) (g : StoredGroup) : bool :=
  existsb (λ s, bool_decide (src_TargetGroupID s = Some id)) (grp_Sources (sg_Group g)).
Definition referenced (id : string) (s : PolicyTables) : bool :=
  existsb (λ kg, negb (String.eqb kg.1 id) && refers_to id kg.2) (map_to_list (pl_groups s)) ||
  existsb (λ kr, String.eqb (rule_TargetGroupID kr.2.2) id) (map_to_list (pl_rules s)).

Definition policies_DeleteGroup (id : string) : M PolicyTables unit :=
  statement (po_env env) "policies.DeleteGroup" (λ s,
    if referenced id s then Err (domain_error (NewConflictError "group_in_use"))
    else match pl_groups s !! id with
         | Some _ => Ok (tt, with_groups (delete id (pl_groups s)) s)
         | None => Err group_not_found
         end).

(** [nodeFilterRepository.SetGlobalFilter] and [GetGlobalFilter] *)
Definition filters_SetGlobalFilter (f : NodeFilterSpec) : M PolicyTables unit :=
  lift (NodeFilterSpec_Validate (Some f)) ;;!
  statement (po_env env) "filters.SetGlobalFilter" (λ s, Ok (tt, with_global f s)).
Definition filters_GetGlobalFilter : M PolicyTables NodeFilterSpec :=
  query (po_env env) "filters.GetGlobalFilter" (λ s, Ok (pl_filter s)).
End Groups.

(** ** Rules *)

Section Rules.
Context `{TableOrder}.
Context (env : PolEnv).

Definition rule_not_found : error := domain_error (NewNotFoundError "rule_not_found").

(** The rules of a revision, by position. *)
Definition rules_of (s : PolicyTables) (rev : string) : list PolicyRule :=
  sort_stable (less_Z rule_Position)
    (map (λ kr, kr.2.2) (List.filter (λ kr, String.eqb kr.2.1 rev) (table_rows (pl_rules s)))).
Definition admission_rules_of (s : PolicyTables) (rev : string) : list AdmissionRule :=
  sort_stable (less_Z adm_Position)
    (map (λ kr, kr.2.2) (List.filter (λ kr, String.eqb kr.2.1 rev) (table_rows (pl_admission s)))).

Definition policies_ListPolicyRules (rev : string) : M PolicyTables (list PolicyRule) :=
  query (po_env env) "policies.ListPolicyRules" (λ s, Ok (rules_of s rev)).
Definition policies_ListAdmissionRules (rev : string) : M PolicyTables (list AdmissionRule) :=
  query (po_env env) "policies.ListAdmissionRules" (λ s, Ok (admission_rules_of s rev)).

Definition policies_CreatePolicyRule (rev : string) (r : PolicyRule) : M PolicyTables unit :=
  statement (po_env env) "policies.CreatePolicyRule" (λ s,
    if bool_decide (is_Some (pl_rules s !! rule_ID r)) then Err (constraint_failed "UNIQUE")
    else if (rule_Position r <? 0)%Z then Err (constraint_failed "CHECK")
    else if negb (bool_decide (is_Some (pl_groups s !! rule_TargetGroupID r)))
    then Err (constraint_failed "FOREIGN KEY")
    else Ok (tt, with_rules (<[rule_ID r := (rev, r)]> (pl_rules s)) s)).
Definition policies_CreateAdmissionRule (rev : string) (r : AdmissionRule) : M PolicyTables unit :=
  statement (po_env env) "policies.CreateAdmissionRule" (λ s,
    if bool_decide (is_Some (pl_admission s !! adm_ID r)) then Err (constraint_failed "UNIQUE")
    else if (adm_Position r <? 0)%Z then Err (constraint_failed "CHECK")
    else Ok (tt, with_admission (<[adm_ID r := (rev, r)]> (pl_admission s)) s)).
Definition policies_DeletePolicyRule (id : string) : M PolicyTables unit :=
  statement (po_env env) "policies.DeletePolicyRule" (λ s,
    match pl_rules s !! id with
    | Some _ => Ok (tt, with_rules (delete id (pl_rules s)) s)
    | None => Err rule_not_found
    end).
Definition policies_DeleteAdmissionRule (id : string) : M PolicyTables unit :=
  statement (po_env env) "policies.DeleteAdmissionRule" (λ s,
    match pl_admission s !! id with
    | Some _ => Ok (tt, with_admission (delete id (pl_admission s)) s)
    | None => Err rule_not_found
    end).
End Rules.

(** ** Revisions *)

Section Revisions.
Context `{GoText} `{RegexEngine} `{Sha256} `{ConfigJSON} `{TableOrder}.
Context (env : PolEnv).

Definition revision_not_found : error := domain_error (NewNotFoundError "revision_not_found").

(** [parent_id] is NULL for a missing or an empty parent. *)
Definition revision_GetByID (id : string) : M PolicyTables RevisionRow :=
  query (po_env env) "revisions.GetByID" (λ s,
    match pl_revisions s !! id with Some r => Ok r | None => Err revision_not_found end).

Definition is_active (r : RevisionRow) : bool := String.eqb (rv_State r) RevisionActive.
Definition active_rows (s : PolicyTables) : list RevisionRow :=
  List.filter is_active (map snd (table_rows (pl_revisions s))).

(** The active revision that was created last. *)
Definition revision_GetActive : M PolicyTables RevisionRow :=
  query (po_env env) "revisions.GetActive" (λ s,
    match sort_stable (less_Z (λ r, - rv_CreatedAt r)%Z) (active_rows s) with
    | r :: _ => Ok r
    | [] => Err (domain_error (NewNotFoundError "active_revision_not_found"))
    end).

(** A page of revisions, the newest first, and how many there are.  A negative OFFSET
    counts as none. *)
Definition revision_less (a b : RevisionRow) : bool :=
  (rv_CreatedAt b <? rv_CreatedAt a)%Z ||
  ((rv_CreatedAt a =? rv_CreatedAt b)%Z && str_less (rv_ID b) (rv_ID a)).
Definition clamp_page (page : Z) : Z := if (page <? 1)%Z then 1%Z else page.
Definition clamp_size (size : Z) : Z :=
  if (size <? 1)%Z then 50%Z else if (100 <? size)%Z then 100%Z else size.
Definition revision_List (state : string) (page size : Z) : M PolicyTables (list RevisionRow * Z) :=
  query (po_env env) "revisions.List" (λ s,
    let all := List.filter (λ r, String.eqb state "" || String.eqb (rv_State r) state)
                 (map snd (map_to_list (pl_revisions s))) in
    Ok (take (Z.to_nat (clamp_size size))
          (drop (Z.to_nat (wrap64 ((clamp_page page - 1) * clamp_size size)))
             (sort_stable revision_less all)),
        Z.of_nat (length all))).

(** The groups as a transaction reads them: by identifier. *)
Definition policy_groups (s : PolicyTables) : list StoredGroup :=
  sort_stable (less_str (λ g, grp_ID (sg_Group g))) (map snd (map_to_list (pl_groups s))).
Definition graph_digest (l : list StoredGroup) : string := policyGroupsDigest (map sg_Group l).

Definition with_digest (d : string) (r : RevisionRow) : RevisionRow :=
  {| rv_ID := rv_ID r; rv_ParentID := rv_ParentID r; rv_ContentDigest := d;
     rv_State := rv_State r; rv_CreatedAt := rv_CreatedAt r |}.
Definition set_state (st : string) (r : RevisionRow) : RevisionRow :=
  {| rv_ID := rv_ID r; rv_ParentID := rv_ParentID r; rv_ContentDigest := rv_ContentDigest r;
     rv_State := st; rv_CreatedAt := rv_CreatedAt r |}.

(** [INSERT INTO configuration_revisions] *)
Definition insert_revision (r : RevisionRow) (s : PolicyTables) : result error PolicyTables :=
  let parent := stored_ptr (rv_ParentID r) in
  let row := {| rv_ID := rv_ID r; rv_ParentID := parent; rv_ContentDigest := rv_ContentDigest r;
                rv_State := rv_State r; rv_CreatedAt := rfc3339 (rv_CreatedAt r) |} in
  if bool_decide (is_Some (pl_revisions s !! rv_ID r)) then Err (constraint_failed "UNIQUE")
  else if match parent with
          | Some p => negb (String.eqb p (rv_ID r)) && negb (bool_decide (is_Some (pl_revisions s !! p)))
          | None => false
          end then Err (constraint_failed "FOREIGN KEY")
  else Ok (with_revisions (<[rv_ID r := row]> (pl_revisions s)) (pl_snapshots s) s).

(** [CapturePolicyRevisionSnapshot]: the graph and its digest, bound to the revision. *)
Definition CapturePolicyRevisionSnapshot (id : string) (s : PolicyTables) : result error PolicyTables :=
  let groups := policy_groups s in
  if bool_decide (is_Some (pl_snapshots s !! id)) then Err (constraint_failed "UNIQUE")
  else Ok (with_revisions (alter (with_digest (graph_digest groups)) id (pl_revisions s))
             (<[id := groups]> (pl_snapshots s)) s).

Definition digest_row (id : string) (s : PolicyTables) : result error string :=
  match pl_revisions s !! id with Some r => Ok (rv_ContentDigest r) | None => Err revision_not_found end.

(** The digest that was stored is returned. *)
Definition revision_Create (r : RevisionRow) : M PolicyTables string :=
  statement (po_env env) "revisions.Create" (λ s,
    let? s := insert_revision r s in
    let? s := CapturePolicyRevisionSnapshot (rv_ID r) s in
    let? d := digest_row (rv_ID r) s in Ok (d, s)).

(** The revision of every group. *)
Definition vector (l : list StoredGroup) : gmap string Z :=
  list_to_map (map (λ g, (grp_ID (sg_Group g), sg_Revision g)) l).

Definition unchanged_since (snapshot current : list StoredGroup) : result error unit :=
  if negb (length current =? length snapshot) then Err revision_conflict
  else if negb (forallb (λ g, bool_decide (vector snapshot !! grp_ID (sg_Group g) = Some (sg_Revision g)))
                  current) then Err revision_conflict
  else if negb (String.eqb (graph_digest current) (graph_digest snapshot))
  then Err (domain_error (NewConflictError "revision_graph_changed"))
  else Ok tt.

Definition archive (r : RevisionRow) : RevisionRow :=
  if is_active r then set_state RevisionStateArchived r else r.

Definition setActiveRevision (id : string) (s : PolicyTables) : result error PolicyTables :=
  match pl_snapshots s !! id with
  | Some snapshot => unchanged_since snapshot (policy_groups s)
  | None => Ok tt
  end ;;?
  match pl_revisions s !! id with
  | None => Err revision_not_found
  | Some _ =>
      Ok (with_revisions (alter (set_state RevisionActive) id (archive <$> pl_revisions s))
            (pl_snapshots s) s)
  end.

Definition revision_SetActive (id : string) : M PolicyTables unit :=
  statement (po_env env) "revisions.SetActive" (λ s,
    let? s := setActiveRevision id s in Ok (tt, s)).

Definition revision_CreateActive (r : RevisionRow) : M PolicyTables string :=
  statement (po_env env) "revisions.CreateActive" (λ s,
    let? s := insert_revision (set_state RevisionStateDraft r) s in
    let? s := CapturePolicyRevisionSnapshot (rv_ID r) s in
    let? d := digest_row (rv_ID r) s in
    let? s := setActiveRevision (rv_ID r) s in Ok (d, s)).

Definition revision_GetPolicySnapshot (id : string) : M PolicyTables (list StoredGroup) :=
  query (po_env env) "revisions.GetPolicySnapshot" (λ s,
    match pl_snapshots s !! id with
    | Some l => Ok l
    | None => Err (domain_error (NewConflictError "revision_snapshot_unavailable"))
    end).

(** The verdict of the topology check, which always reaches one
    ([topology_validation_terminates]). *)
Definition topology (groups : list NodeGroup) (edges : list (string * list GroupEdge))
    (rules : list PolicyRule) (req : bool) : result DomainError unit :=
  match ValidatePolicyTopology groups edges rules req with
  | Some r => r
  | None => Err (NewValidationError "out_of_fuel")
  end.

(** A restored group is newer than the current and than the captured one. *)
Definition restored_revision (current : gmap string StoredGroup) (g : StoredGroup) : Z :=
  let next := (match current !! grp_ID (sg_Group g) with Some c => sg_Revision c | None => 0 end + 1)%Z in
  if (next <=? sg_Revision g)%Z then (sg_Revision g + 1)%Z else next.

Definition owned_source (gid : string) (s : MemberSource) : MemberSource :=
  {| src_ID := src_ID s; src_GroupID := gid; src_Operation := src_Operation s;
     src_Kind := src_Kind s; src_Position := src_Position s;
     src_NodeLogicalID := src_NodeLogicalID s; src_TargetGroupID := src_TargetGroupID s;
     src_Pattern := src_Pattern s; src_FilterSpec := src_FilterSpec s;
     src_BuiltinName := src_BuiltinName s |}.
Definition restored_group (current : gmap string StoredGroup) (g : StoredGroup) : StoredGroup :=
  {| sg_Group := without_filter (set_sources
       (map (owned_source (grp_ID (sg_Group g))) (grp_Sources (sg_Group g))) (sg_Group g));
     sg_Revision := restored_revision current g |}.

Definition restored (current : gmap string StoredGroup) (groups : list StoredGroup)
    : gmap string StoredGroup :=
  list_to_map (map (λ g, (grp_ID (sg_Group g), restored_group current g)) groups).

(** The caller's vector must be the complete current one. *)
Definition expected_vector (expected : gmap string Z) (current : gmap string StoredGroup) : bool :=
  (size current =? size expected) &&
  forallb (λ kg, bool_decide (expected !! kg.1 = Some (sg_Revision kg.2))) (map_to_list current).

Definition write_snapshot (groups : list StoredGroup) (expected : gmap string Z) (s : PolicyTables)
    : result error (unit * PolicyTables) :=
  let current := pl_groups s in
  let next := restored current groups in
  if negb (expected_vector expected current) then Err revision_conflict
  else if existsb (λ kg, bool_decide (next !! kg.1 = None) &&
              existsb (λ kr, String.eqb (rule_TargetGroupID kr.2.2) kg.1) (map_to_list (pl_rules s)))
            (map_to_list current)
  then Err (domain_error (NewConflictError "group_in_use"))
  else
    source_rows_ok next [] (flat_map (λ g, grp_Sources (sg_Group g)) groups) ;;?
    Ok (tt, with_groups next s).

Definition RestorePolicySnapshot (id : string) (expected : gmap string Z) : proc PolicyTables unit :=
  let@ groups := step (revision_GetPolicySnapshot id) in
  let@ _ := step (lift (topology (map sg_Group groups) [] [] false)) in
  step (statement (po_env env) "revisions.RestorePolicySnapshot" (write_snapshot groups expected)).
End Revisions.
