(* ===== verification/PolicyService.v ===== *)
(** * The administration of the policy graph and of its revisions

    [internal/application/policy/service.go] and [graph.go], and
    [internal/application/revision/service.go], over the repositories of [PolicyStore] as
    [cmd/csp/app_services.go] wires them.  A call of a repository is one step; each
    service serialises its own writers with a mutex, but the two services have one each
    ([PolicyGraphProperties]).

    Commands are records; the attribution of audit events (actor, request, summary) is
    left out.  The fallback of [CreateGroup] for a repository that cannot write a group
    atomically is not modelled, since the SQLite repository can. *)

From S2P Require Import Prelude.
From S2P Require Import GoStrings.
From S2P Require Import Domain.
From S2P Require Import Lifecycle.
From S2P Require Import NodeFilter.
From S2P Require Import Policy.
From S2P Require Import Services.
From S2P Require Import Requests.
From S2P Require Import PolicyStore.

(** ** Commands and views *)

Record EdgeInput : Type := {
  ei_ID : string; ei_ChildGroupID : option string; ei_NodeLogicalID : option string;
  ei_Position : Z
}.

Record CreateGroupCommand : Type := {
  cg_EmptyFallbackPass : bool;
  cg_ID : string;
  cg_Name : string;
  cg_GroupType : string;
  cg_Sources : list MemberSource;
  cg_Edges : list EdgeInput;
  cg_NodeFilter : option NodeFilterSpec
}.

Record UpdateGroupCommand : Type := {
  ug_EmptyFallbackPass : option bool;
  ug_ID : string;
  ug_Name : option string;
  ug_GroupType : option string;
  ug_ExpectedRevision : option Z;
  ug_Sources : option (list MemberSource);
  ug_Edges : option (list EdgeInput);
  ug_NodeFilter : option NodeFilterSpec;
  ug_ClearNodeFilter : bool
}.

Record GroupView : Type := {
  gv_EmptyFallbackPass : bool;
  gv_ID : string;
  gv_Name : string;
  gv_GroupType : string;
  gv_Revision : Z;
  gv_Sources : list MemberSource;
  gv_Edges : list GroupEdge;
  gv_NodeFilter : option NodeFilterSpec
}.

Record AdmissionRuleCommand : Type := {
  ac_ID : string; ac_RevisionID : string; ac_Name : string; ac_Expression : string;
  ac_Action : string; ac_Position : Z
}.
Record PolicyRuleCommand : Type := {
  pcr_ID : string; pcr_RevisionID : string; pcr_TargetGroupID : string; pcr_Expression : string;
  pcr_Position : Z
}.

(** The old filter field shows the filter of a group that consists of one. *)
Definition toGroupView (g : StoredGroup) : GroupView :=
  let group := sg_Group g in
  {| gv_EmptyFallbackPass := grp_EmptyFallbackPass group; gv_ID := grp_ID group;
     gv_Name := grp_Name group; gv_GroupType := grp_GroupType group;
     gv_Revision := if (sg_Revision g <=? 0)%Z then 1%Z else sg_Revision g;
     gv_Sources := grp_Sources group; gv_Edges := ProjectSourceEdges (grp_Sources group);
     gv_NodeFilter := match grp_Sources group with
                      | [s] => if String.eqb (src_Kind s) SourceKindFilter &&
                                  String.eqb (src_Operation s) OperationAdd
                               then src_FilterSpec s else None
                      | _ => None
                      end |}.

(** The outcome of a slice expression. *)
Inductive page_of (A : Type) : Type := Page (l : list A) | Panic.
Arguments Page {A} l.
Arguments Panic {A}.

Section Service.
Context `{GoText} `{RegexEngine} `{Sha256} `{ConfigJSON} `{TableOrder}.
Context (env : PolEnv).

Definition record (op : string) (ok : bool) : proc PolicyTables unit :=
  step (recordAudit (po_env env) op ok).

(** [if err := ...; err != nil { recordAudit(failure); return err }] *)
Definition checked {A} (op : string) (r : result DomainError A) : proc PolicyTables A :=
  match r with
  | Ok a => give a
  | Err e => record op false ;;@ reject e
  end.
Definition refuse (op : string) (b : bool) (code : string) : proc PolicyTables unit :=
  checked op (invalid_if b code).
Definition trying {A} (op : string) (p : proc PolicyTables A) : proc PolicyTables A :=
  let@ r := attempt p in
  match r with
  | Ok a => give a
  | Err e => record op false ;;@ stop e
  end.

(** [ValidateAdmissionRules] and [ValidatePolicyGraph] of [graph.go] *)
Definition ValidateAdmissionRules (rules : list AdmissionRule) : result DomainError unit :=
  for_each (λ r,
    invalid_if (String.eqb (TrimSpace (adm_Name r)) "") "invalid_admission_rule_name" ;;?
    invalid_if (String.eqb (TrimSpace (adm_Expression r)) "") "invalid_expression" ;;?
    invalid_if (negb (enum_valid validRuleActions (adm_Action r))) "invalid_rule_action" ;;?
    invalid_if (adm_Position r <? 0)%Z "invalid_position") rules.
Definition ValidatePolicyGraph (groups : list NodeGroup) (edges : list (string * list GroupEdge))
    (rules : list PolicyRule) (admission : list AdmissionRule) : result DomainError unit :=
  topology groups edges rules true ;;? ValidateAdmissionRules admission.

(** Do the nodes exist that the edges name? *)
Definition node_exists (edge : GroupEdge) : result error unit :=
  if blank_ptr (edge_NodeLogicalID edge) then Ok tt
  else match po_node env with
       | None => Ok tt
       | Some get =>
           match get (TrimSpace (deref (edge_NodeLogicalID edge))) with
           | Ok true => Ok tt
           | Ok false => Err (domain_error (NewValidationError "node_target_not_found"))
           | Err e => if is_not_found e
                      then Err (domain_error (NewValidationError "node_target_not_found")) else Err e
           end
       end.
Definition validateNodeTargets (edges : list GroupEdge) : proc PolicyTables unit :=
  Done (for_each node_exists edges).

(** The edges of a command, with an identifier each; [onfail] is what a failure to make
    one records. *)
Fixpoint edge_inputs (gid : string) (i : nat) (l : list EdgeInput) (onfail : proc PolicyTables unit)
    : proc PolicyTables (list GroupEdge) :=
  match l with
  | [] => give []
  | e :: l =>
      let@ id := (if String.eqb (ei_ID e) "" then
                    match po_uuid env "edge" i with
                    | Some id => give id
                    | None => onfail ;;@ stop no_entropy
                    end
                  else give (ei_ID e)) in
      let@ rest := edge_inputs gid (S i) l onfail in
      give ({| edge_ID := id; edge_ParentGroupID := gid; edge_ChildGroupID := ei_ChildGroupID e;
               edge_NodeLogicalID := ei_NodeLogicalID e;
               edge_Position := if (ei_Position e =? 0)%Z then Z.of_nat i else ei_Position e |} :: rest)
  end.

(** The edges of the groups, each by a query of its own. *)
Fixpoint edges_of_groups (l : list StoredGroup) : proc PolicyTables (list (string * list GroupEdge)) :=
  match l with
  | [] => give []
  | g :: l =>
      let@ edges := step (policies_ListEdgesByGroup env (grp_ID (sg_Group g))) in
      let@ rest := edges_of_groups l in
      give ((grp_ID (sg_Group g), edges) :: rest)
  end.

(** [edgeMap[id] = edges] *)
Definition set_edges (id : string) (edges : list GroupEdge) (m : list (string * list GroupEdge))
    : list (string * list GroupEdge) :=
  if existsb (λ kl, String.eqb kl.1 id) m
  then map (λ kl, if String.eqb kl.1 id then (id, edges) else kl) m
  else m ++ [(id, edges)].

(** The sources of a command, numbered and owned by the group. *)
Definition own_sources (gid : string) (l : list MemberSource) : list MemberSource :=
  imap (λ i s, place_source gid i (src_ID s) s) l.

(** ** Groups *)

Definition CreateGroup (cmd : CreateGroupCommand) : proc PolicyTables GroupView :=
  let op := "policy_group.create" in
  let name := TrimSpace (cg_Name cmd) in
  refuse op (String.eqb name "") "invalid_group_name" ;;@
  refuse op (negb (enum_valid validGroupTypes (cg_GroupType cmd))) "invalid_group_type" ;;@
  let@ gid := (if String.eqb (cg_ID cmd) "" then
                 match po_uuid env "group" 0 with
                 | Some id => give id
                 | None => record op false ;;@ stop no_entropy
                 end
               else refuse op (negb (IsValidUUIDv7 (cg_ID cmd))) "invalid_group_id" ;;@
                    give (cg_ID cmd)) in
  checked op (match cg_NodeFilter cmd with
              | Some f => NodeFilterSpec_Validate (Some f)
              | None => Ok tt
              end) ;;@
  let group := {| grp_EmptyFallbackPass := cg_EmptyFallbackPass cmd; grp_ID := gid;
                  grp_Name := name; grp_GroupType := cg_GroupType cmd;
                  grp_Sources := cg_Sources cmd; grp_NodeFilter := cg_NodeFilter cmd |} in
  let@ edges := edge_inputs gid 0 (cg_Edges cmd) (record op false) in
  let@ existing := policies_ListGroups env in
  let@ others := edges_of_groups existing in
  let all := map sg_Group existing ++ [group] in
  checked op (ValidatePolicyGraph all (set_edges gid edges others) [] []) ;;@
  trying op (validateNodeTargets edges) ;;@
  let@ saved :=
    (if negb (length (cg_Sources cmd) =? 0) then
       let sources := own_sources gid (cg_Sources cmd) in
       checked op (for_each ValidateMemberSource sources) ;;@
       checked op (topology (map sg_Group existing ++ [set_sources sources group]) [] [] false) ;;@
       trying op (step (SaveGroupWithSources env (set_sources sources group) 0 sources))
     else
       SaveGroup env group 0 true (Some edges) (negb (is_nil (cg_NodeFilter cmd)))
         (cg_NodeFilter cmd)) in
  record op true ;;@
  give (toGroupView saved).

Definition GetGroup (id : string) : proc PolicyTables GroupView :=
  let@ g := policies_GetGroupByID env id in
  let@ _ := step (policies_ListEdgesByGroup env id) in
  give (toGroupView g).

Definition GetGroupEdges (id : string) : proc PolicyTables (list GroupEdge) :=
  step (policies_ListEdgesByGroup env id).

(** The fields of the command over those of the stored group. *)
Definition edit_group (cmd : UpdateGroupCommand) (g : NodeGroup) : NodeGroup :=
  {| grp_EmptyFallbackPass := default (grp_EmptyFallbackPass g) (ug_EmptyFallbackPass cmd);
     grp_ID := grp_ID g;
     grp_Name := match ug_Name cmd with Some n => TrimSpace n | None => grp_Name g end;
     grp_GroupType := default (grp_GroupType g) (ug_GroupType cmd);
     grp_Sources := grp_Sources g; grp_NodeFilter := grp_NodeFilter g |}.

Definition legacy_edges (gid : string) (l : list EdgeInput) : list GroupEdge :=
  imap (λ i e, {| edge_ID := ei_ID e; edge_ParentGroupID := gid;
                  edge_ChildGroupID := ei_ChildGroupID e;
                  edge_NodeLogicalID := ei_NodeLogicalID e; edge_Position := Z.of_nat i |}) l.

(** The sources a command without sources stands for. *)
Definition legacy_sources (cmd : UpdateGroupCommand) (g : NodeGroup)
    : proc PolicyTables (list MemberSource) :=
  let edges := legacy_edges (grp_ID g) <$> ug_Edges cmd in
  let changed := ug_ClearNodeFilter cmd || negb (is_nil (ug_NodeFilter cmd)) in
  match edges with Some l => validateNodeTargets l | None => give tt end ;;@
  if negb (is_nil edges) || changed then
    step (lift (EditLegacySources (grp_ID g) (grp_Sources g) edges changed
                  (if ug_ClearNodeFilter cmd then None else ug_NodeFilter cmd)))
  else give (grp_Sources g).

Definition manual_edges (l : list MemberSource) : list GroupEdge :=
  map (λ s, {| edge_ID := ""; edge_ParentGroupID := ""; edge_ChildGroupID := None;
               edge_NodeLogicalID := src_NodeLogicalID s; edge_Position := 0%Z |})
    (List.filter (λ s, String.eqb (src_Kind s) SourceKindManualNode) l).

(** [existingGroups[i] = *group] for the first of that ID. *)
Fixpoint replace_group (g : NodeGroup) (l : list NodeGroup) : list NodeGroup :=
  match l with
  | [] => []
  | x :: l => if String.eqb (grp_ID x) (grp_ID g) then g :: l else x :: replace_group g l
  end.

Definition UpdateGroup (cmd : UpdateGroupCommand) : proc PolicyTables GroupView :=
  let op := "policy_group.update" in
  let@ current := trying op (policies_GetGroupByID env (ug_ID cmd)) in
  refuse op (match ug_Name cmd with Some n => String.eqb (TrimSpace n) "" | None => false end)
    "invalid_group_name" ;;@
  refuse op (match ug_GroupType cmd with
             | Some t => negb (enum_valid validGroupTypes t)
             | None => false
             end) "invalid_group_type" ;;@
  let@ existing := policies_ListGroups env in
  let group := edit_group cmd (sg_Group current) in
  let@ wanted := match ug_Sources cmd with
                 | Some l => give l
                 | None => legacy_sources cmd group
                 end in
  let sources := own_sources (grp_ID group) wanted in
  checked op (for_each ValidateMemberSource sources) ;;@
  validateNodeTargets (manual_edges sources) ;;@
  let group := set_sources sources group in
  checked op (topology (replace_group group (map sg_Group existing)) [] [] false) ;;@
  let@ expected :=
    match ug_ExpectedRevision cmd with
    | Some r => if (r <=? 0)%Z then reject (NewValidationError "invalid_revision") else give r
    | None => give (sg_Revision current)
    end in
  let@ saved := trying op (step (SaveGroupWithSources env group expected sources)) in
  record op true ;;@
  give (toGroupView saved).

Definition DeleteGroup (id : string) : proc PolicyTables unit :=
  let op := "policy_group.delete" in
  let@ _ := trying op (policies_GetGroupByID env id) in
  trying op (step (policies_DeleteGroup env id)) ;;@
  record op true.

Definition SetGroupEdges (gid : string) (inputs : list EdgeInput) : proc PolicyTables unit :=
  let op := "policy_group.set_edges" in
  let@ _ := trying op (policies_GetGroupByID env gid) in
  let@ edges := edge_inputs gid 0 inputs (give tt) in
  let@ existing := policies_ListGroups env in
  let@ others := edges_of_groups (List.filter (λ g, negb (String.eqb (grp_ID (sg_Group g)) gid)) existing) in
  checked op (ValidatePolicyGraph (map sg_Group existing)
    (others ++ (if existsb (λ g, String.eqb (grp_ID (sg_Group g)) gid) existing
                then [(gid, edges)] else [])) [] []) ;;@
  trying op (validateNodeTargets edges) ;;@
  let@ _ := trying op (SetEdgesForGroup env gid edges) in
  record op true.

(** A page of the groups whose name or type contains the search text. *)
Record ListGroupsResult : Type := {
  lg_Items : list GroupView; lg_Page : Z; lg_PageSize : Z; lg_Total : Z
}.
Definition matches_search (search : string) (g : StoredGroup) : bool :=
  String.eqb search "" || Contains (ToLower (grp_Name (sg_Group g))) search ||
  Contains (ToLower (grp_GroupType (sg_Group g))) search.
(** [filtered[start:end]], which panics when [start] is negative: the product wraps. *)
Definition page_bounds (page size total : Z) : Z * Z :=
  let start := wrap64 ((page - 1) * size) in
  let start := if (total <? start)%Z then total else start in
  let stop := wrap64 (start + size) in
  (start, if (total <? stop)%Z then total else stop).
Definition slice {A} (l : list A) (bounds : Z * Z) : page_of A :=
  if (bounds.1 <? 0)%Z || (bounds.2 <? bounds.1)%Z then Panic
  else Page (take (Z.to_nat (bounds.2 - bounds.1)) (drop (Z.to_nat bounds.1) l)).

Fixpoint group_views (l : list StoredGroup) : proc PolicyTables (list GroupView) :=
  match l with
  | [] => give []
  | g :: l =>
      let@ _ := step (policies_ListEdgesByGroup env (grp_ID (sg_Group g))) in
      let@ rest := group_views l in
      give (toGroupView g :: rest)
  end.

(** [None]: the handler panics. *)
Definition ListGroups (page pageSize : Z) (search : string)
    : proc PolicyTables (option ListGroupsResult) :=
  let@ all := policies_ListGroups env in
  let filtered := List.filter (matches_search (ToLower (TrimSpace search))) all in
  let total := Z.of_nat (length filtered) in
  let page := clamp_page page in
  let size := clamp_size pageSize in
  match slice filtered (page_bounds page size total) with
  | Panic => give None
  | Page l =>
      let@ items := group_views l in
      give (Some {| lg_Items := items; lg_Page := page; lg_PageSize := size; lg_Total := total |})
  end.

(** ** Revisions *)

(** The graph as the table has it, validated, and its digest. *)
Definition current_digest : proc PolicyTables (result DomainError string) :=
  let@ groups := policies_ListGroups env in
  let@ edges := edges_of_groups groups in
  give (ValidatePolicyGraph (map sg_Group groups) edges [] [] ;;?
        Ok (ComputeConfigurationDigest (map sg_Group groups) edges)).

Definition new_revision (parent : option string) (digest state id : string) : RevisionRow :=
  {| rv_ID := id; rv_ParentID := parent; rv_ContentDigest := digest; rv_State := state;
     rv_CreatedAt := env_now (po_env env) |}.
Definition new_revision_id : proc PolicyTables string :=
  match po_uuid env "revision" 0 with Some id => give id | None => stop no_entropy end.

Definition bootstrapActiveRevisionLocked : proc PolicyTables RevisionRow :=
  let@ digest := current_digest in
  match digest with
  | Err e => reject e
  | Ok d =>
      let@ id := new_revision_id in
      let rev := new_revision None d RevisionStateDraft id in
      let@ d := step (revision_CreateActive env rev) in
      record "revision.create" true ;;@
      give (set_state RevisionActive (with_digest d rev))
  end.

(** [None]: there are revisions, but none is active. *)
Definition ensureActiveRevisionLocked : proc PolicyTables (option RevisionRow) :=
  let@ active := attempt (step (revision_GetActive env)) in
  match active with
  | Ok r => give (Some r)
  | Err e =>
      if negb (is_not_found e) then stop e
      else
        let@ counted := step (revision_List env "" 1 1) in
        if (0 <? counted.2)%Z then give None
        else let@ r := bootstrapActiveRevisionLocked in give (Some r)
  end.
Definition EnsureActiveRevision := ensureActiveRevisionLocked.

Definition CreateRevision (parent : option string) (state : string) : proc PolicyTables RevisionRow :=
  let op := "revision.create" in
  let@ digest := current_digest in
  let@ d := checked op digest in
  let@ id := new_revision_id in
  let state := if String.eqb state "" then RevisionStateDraft else state in
  let@ d :=
    trying op (if String.eqb state RevisionActive
               then step (revision_CreateActive env (new_revision parent d RevisionStateDraft id))
               else step (revision_Create env (new_revision parent d state id))) in
  record op true ;;@
  give (new_revision parent d state id).

(** ** Rules *)

Definition rule_id (given : string) : proc PolicyTables string :=
  if String.eqb given "" then
    match po_uuid env "rule" 0 with Some id => give id | None => stop no_entropy end
  else give given.
Definition rule_revision (given : string) : proc PolicyTables string :=
  let id := TrimSpace given in
  if negb (String.eqb id "") then give id
  else
    let@ active := ensureActiveRevisionLocked in
    match active with
    | Some r => give (rv_ID r)
    | None => reject (NewValidationError "missing_revision_id")
    end.

Definition CreateAdmissionRule (cmd : AdmissionRuleCommand)
    : proc PolicyTables (string * AdmissionRule) :=
  let op := "admission_rule.create" in
  let name := TrimSpace (ac_Name cmd) in
  let expr := TrimSpace (ac_Expression cmd) in
  refuse op (String.eqb name "") "invalid_admission_rule_name" ;;@
  refuse op (String.eqb expr "") "invalid_expression" ;;@
  refuse op (negb (enum_valid validRuleActions (ac_Action cmd))) "invalid_rule_action" ;;@
  refuse_if (ac_Position cmd <? 0)%Z (NewValidationError "invalid_position") ;;@
  let@ id := rule_id (ac_ID cmd) in
  let@ rev := rule_revision (ac_RevisionID cmd) in
  let rule := {| adm_ID := id; adm_Name := name; adm_Expression := expr;
                 adm_Action := ac_Action cmd; adm_Position := ac_Position cmd |} in
  trying op (step (policies_CreateAdmissionRule env rev rule)) ;;@
  record op true ;;@
  give (rev, rule).

Definition CreatePolicyRule (cmd : PolicyRuleCommand) : proc PolicyTables (string * PolicyRule) :=
  let op := "policy_rule.create" in
  let expr := TrimSpace (pcr_Expression cmd) in
  refuse op (String.eqb expr "") "invalid_expression" ;;@
  refuse_if (pcr_Position cmd <? 0)%Z (NewValidationError "invalid_position") ;;@
  let@ target := attempt (policies_GetGroupByID env (pcr_TargetGroupID cmd)) in
  refuse op (negb (is_ok target)) "target_group_not_found" ;;@
  let@ id := rule_id (pcr_ID cmd) in
  let@ rev := rule_revision (pcr_RevisionID cmd) in
  let@ existing := step (policies_ListPolicyRules env rev) in
  let rule := {| rule_ID := id; rule_TargetGroupID := pcr_TargetGroupID cmd;
                 rule_Expression := expr; rule_Position := pcr_Position cmd |} in
  checked op (ValidatePolicyRules (existing ++ [rule]) ∅ true) ;;@
  trying op (step (policies_CreatePolicyRule env rev rule)) ;;@
  record op true ;;@
  give (rev, rule).

Definition delete_admission (id : string) : proc PolicyTables unit :=
  trying "admission_rule.delete" (step (policies_DeleteAdmissionRule env id)) ;;@
  record "admission_rule.delete" true.
Definition delete_policy (id : string) : proc PolicyTables unit :=
  trying "policy_rule.delete" (step (policies_DeletePolicyRule env id)) ;;@
  record "policy_rule.delete" true.

(** Without a kind, the rule is looked for among both. *)
Definition DeleteRule (id kind : string) : proc PolicyTables unit :=
  let op := "policy_rule.delete" in
  let id := TrimSpace id in
  let kind := ToLower (TrimSpace kind) in
  refuse op (String.eqb id "") "missing_rule_id" ;;@
  if String.eqb kind "admission" then delete_admission id
  else if String.eqb kind "policy" then delete_policy id
  else if String.eqb kind "" then
    let@ r := attempt (step (policies_DeletePolicyRule env id)) in
    match r with
    | Ok _ => record op true
    | Err e =>
        if is_not_found e then
          let@ r := attempt (step (policies_DeleteAdmissionRule env id)) in
          match r with
          | Ok _ => record "admission_rule.delete" true
          | Err e => record op false ;;@ stop e
          end
        else record op false ;;@ stop e
    end
  else refuse op true "invalid_rule_kind".

Definition ListRules (revision kind : string)
    : proc PolicyTables (string * list AdmissionRule * list PolicyRule) :=
  let kind := ToLower (TrimSpace kind) in
  let@ rev := (if String.eqb revision "" then
                 let@ active := attempt (step (revision_GetActive env)) in
                 give (match active with Ok r => Some (rv_ID r) | Err _ => None end)
               else give (Some revision)) in
  match rev with
  | None => give ("", [], [])
  | Some rev =>
      let@ adm := (if String.eqb kind "" || String.eqb kind "admission"
                   then step (policies_ListAdmissionRules env rev) else give []) in
      let@ pol := (if String.eqb kind "" || String.eqb kind "policy"
                   then step (policies_ListPolicyRules env rev) else give []) in
      give (rev, adm, pol)
  end.

(** ** The global filter *)

Definition GetGlobalNodeFilter : proc PolicyTables NodeFilterSpec :=
  step (filters_GetGlobalFilter env).

Definition SetGlobalNodeFilter (f : NodeFilterSpec) : proc PolicyTables NodeFilterSpec :=
  let op := "policy.global_filter.update" in
  checked op (NodeFilterSpec_Validate (Some f)) ;;@
  trying op (step (filters_SetGlobalFilter env f)) ;;@
  record op true ;;@
  give f.

(** ** The revision service *)

Record RevisionDetail : Type := {
  rd_Revision : RevisionRow; rd_PolicyRules : list PolicyRule; rd_AdmissionRules : list AdmissionRule
}.

(** A list that cannot be read is shown as empty. *)
Definition loadDetail (rev : RevisionRow) : proc PolicyTables RevisionDetail :=
  let@ pol := attempt (step (policies_ListPolicyRules env (rv_ID rev))) in
  let@ adm := attempt (step (policies_ListAdmissionRules env (rv_ID rev))) in
  give {| rd_Revision := rev;
          rd_PolicyRules := match pol with Ok l => l | Err _ => [] end;
          rd_AdmissionRules := match adm with Ok l => l | Err _ => [] end |}.

Definition revisions_List (state : string) (page size : Z) : proc PolicyTables (list RevisionRow * Z) :=
  refuse_if ((page <? 0)%Z || (size <? 0)%Z) (NewValidationError "invalid_pagination") ;;@
  step (revision_List env state page size).

Definition revisions_Get (id : string) : proc PolicyTables RevisionDetail :=
  refuse_if (String.eqb (TrimSpace id) "") (NewValidationError "missing_revision_id") ;;@
  let@ rev := step (revision_GetByID env (TrimSpace id)) in
  loadDetail rev.

Definition Review (id : string) : proc PolicyTables RevisionDetail :=
  let op := "revision.review" in
  refuse op (String.eqb (TrimSpace id) "") "missing_revision_id" ;;@
  let@ rev := trying op (step (revision_GetByID env (TrimSpace id))) in
  checked op (reject_if (negb (String.eqb (rv_State rev) RevisionStateDraft))
                (NewConflictError "revision_not_draft")) ;;@
  let@ detail := loadDetail rev in
  record op true ;;@
  give detail.

(** [Create] writes the draft and activates it in two transactions. *)
Definition revisions_Create (parent : option string) (state : string) : proc PolicyTables RevisionRow :=
  let op := "revision.create" in
  let wanted := if String.eqb state "" then RevisionStateDraft else state in
  refuse op (negb (mem_str wanted [RevisionStateDraft; RevisionActive])) "invalid_revision_state" ;;@
  let@ parentID := (if blank_ptr parent then give None
                    else let id := TrimSpace (deref parent) in
                         let@ _ := trying op (step (revision_GetByID env id)) in give (Some id)) in
  let@ digest := trying op (let@ d := current_digest in
                            match d with Ok d => give d | Err e => reject e end) in
  let@ id := new_revision_id in
  let rev := new_revision parentID digest RevisionStateDraft id in
  let@ d := trying op (step (revision_Create env rev)) in
  let@ st := (if String.eqb wanted RevisionActive
              then trying op (step (revision_SetActive env id)) ;;@ give RevisionActive
              else give RevisionStateDraft) in
  record op true ;;@
  give (set_state st (with_digest d rev)).

Definition revisions_EnsureActive : proc PolicyTables (option RevisionRow) :=
  let@ active := attempt (step (revision_GetActive env)) in
  match active with
  | Ok r => give (Some r)
  | Err e =>
      if negb (is_not_found e) then stop e
      else
        let@ counted := step (revision_List env "" 1 1) in
        if (0 <? counted.2)%Z then give None
        else
          let@ digest := current_digest in
          match digest with
          | Err e => reject e
          | Ok d =>
              let@ id := new_revision_id in
              let rev := new_revision None d RevisionStateDraft id in
              let@ d := step (revision_Create env rev) in
              step (revision_SetActive env id) ;;@
              record "revision.create" true ;;@
              give (Some (set_state RevisionActive (with_digest d rev)))
          end
  end.

(** [expected] is [None] when the request brings no vector. *)
Definition Rollback (id : string) (expected : option (gmap string Z)) : proc PolicyTables unit :=
  let@ _ := step (revision_GetByID env id) in
  match expected with
  | None => reject (NewValidationError "missing_expected_revisions")
  | Some v =>
      RestorePolicySnapshot env id v ;;@
      record "revision.rollback" true
  end.

(** The rules of the draft over the groups of the moment. *)
Definition draft_graph (id : string) : proc PolicyTables (result DomainError unit) :=
  let op := "revision.activate" in
  let@ groups := trying op (policies_ListGroups env) in
  if length groups =? 0 then give (Ok tt)
  else
    let@ edges := trying op (edges_of_groups groups) in
    let@ pol := step (policies_ListPolicyRules env id) in
    let@ adm := step (policies_ListAdmissionRules env id) in
    give (ValidatePolicyGraph (map sg_Group groups) edges pol adm).

Definition same_vector (snapshot current : list StoredGroup) : bool :=
  (length current =? length snapshot) &&
  forallb (λ g, bool_decide (vector snapshot !! grp_ID (sg_Group g) = Some (sg_Revision g))) current.

Definition Activate (id : string) : proc PolicyTables RevisionRow :=
  let op := "revision.activate" in
  let id := TrimSpace id in
  refuse op (String.eqb id "") "missing_revision_id" ;;@
  let@ rev := trying op (step (revision_GetByID env id)) in
  checked op (reject_if (is_active rev) (NewConflictError "revision_already_active")) ;;@
  checked op (reject_if (negb (String.eqb (rv_State rev) RevisionStateDraft))
                (NewConflictError "revision_not_draft")) ;;@
  let@ valid := draft_graph id in
  checked op valid ;;@
  let@ snapshot := step (revision_GetPolicySnapshot env id) in
  let@ current := policies_ListGroups env in
  refuse_if (negb (same_vector snapshot current)) (NewConflictError "revision_conflict") ;;@
  trying op (step (revision_SetActive env id)) ;;@
  record op true ;;@
  give (set_state RevisionActive rev).
End Service.

(** ** Requests *)

Inductive policy_request : Type :=
  | PCreateGroup (cmd : CreateGroupCommand)
  | PUpdateGroup (cmd : UpdateGroupCommand)
  | PDeleteGroup (id : string)
  | PSetGroupEdges (id : string) (edges : list EdgeInput)
  | PCreateAdmissionRule (cmd : AdmissionRuleCommand)
  | PCreatePolicyRule (cmd : PolicyRuleCommand)
  | PDeleteRule (id kind : string)
  | PEnsureActive
  | PCreateRevision (parent : option string) (state : string)
  | PSetGlobalFilter (f : NodeFilterSpec).

Inductive revision_request : Type :=
  | VCreate (parent : option string) (state : string)
  | VEnsureActive
  | VReview (id : string)
  | VActivate (id : string)
  | VRollback (id : string) (expected : option (gmap string Z)).

Section Requests.
Context `{GoText} `{RegexEngine} `{Sha256} `{ConfigJSON} `{TableOrder}.

Definition discard {A} (p : proc PolicyTables A) : proc PolicyTables unit := p ;;@ give tt.

Definition policy_handle (env : PolEnv) (r : policy_request) : proc PolicyTables unit :=
  match r with
  | PCreateGroup cmd => discard (CreateGroup env cmd)
  | PUpdateGroup cmd => discard (UpdateGroup env cmd)
  | PDeleteGroup id => DeleteGroup env id
  | PSetGroupEdges id edges => SetGroupEdges env id edges
  | PCreateAdmissionRule cmd => discard (CreateAdmissionRule env cmd)
  | PCreatePolicyRule cmd => discard (CreatePolicyRule env cmd)
  | PDeleteRule id kind => DeleteRule env id kind
  | PEnsureActive => discard (EnsureActiveRevision env)
  | PCreateRevision parent state => discard (CreateRevision env parent state)
  | PSetGlobalFilter f => discard (SetGlobalNodeFilter env f)
  end.

Definition revision_handle (env : PolEnv) (r : revision_request) : proc PolicyTables unit :=
  match r with
  | VCreate parent state => discard (revisions_Create env parent state)
  | VEnsureActive => discard (revisions_EnsureActive env)
  | VReview id => discard (Review env id)
  | VActivate id => discard (Activate env id)
  | VRollback id expected => Rollback env id expected
  end.
End Requests.
