(* ===== verification/PolicySamples.v ===== *)
(** * A policy to try the administration on

    Concrete instances of the parameters and a short history: two groups, the second
    with the first as member, a revision, an edit and a rollback.  The statements about
    administration are applied to it. *)

From S2P Require Import Prelude.
From S2P Require Import GoStrings.
From S2P Require Import Domain.
From S2P Require Import Lifecycle.
From S2P Require Import NodeFilter.
From S2P Require Import Policy.
From S2P Require Import Services.
From S2P Require Import Requests.
From S2P Require Import PolicyStore.
From S2P Require Import PolicyService.

#[local] Existing Instance ascii_text.
#[local] Existing Instance witness_engine.
#[local] Existing Instance sample_sha.

(** A text that tells groups apart by their names and identifiers. *)
Definition sample_json : ConfigJSON :=
  {| config_json groups _ := fold_right (λ g t, grp_ID g +:+ "=" +:+ grp_Name g +:+ ";" +:+ t) "" groups |}.
Definition sample_order : TableOrder :=
  {| table_rows A m := map_to_list m; table_rows_perm A m := reflexivity _ |}.
#[local] Existing Instance sample_json.
#[local] Existing Instance sample_order.

(** The database answers, and every identifier that is made names its purpose [tag]. *)
Definition sample_env (tag : string) (now : time) : PolEnv :=
  {| po_env := {| env_now := now; env_uuid := None; env_io := λ _, None |};
     po_uuid purpose i := Some (tag +:+ purpose +:+ if i =? 0 then "0" else "1");
     po_node := None |}.

Definition group_command (id name : string) (edges : list EdgeInput) : CreateGroupCommand :=
  {| cg_EmptyFallbackPass := false; cg_ID := id; cg_Name := name; cg_GroupType := "select";
     cg_Sources := []; cg_Edges := edges; cg_NodeFilter := None |}.
Definition member (id : string) : EdgeInput :=
  {| ei_ID := ""; ei_ChildGroupID := Some id; ei_NodeLogicalID := None; ei_Position := 0%Z |}.
Definition rename (id name : string) (expected : option Z) : UpdateGroupCommand :=
  {| ug_EmptyFallbackPass := None; ug_ID := id; ug_Name := Some name; ug_GroupType := None;
     ug_ExpectedRevision := expected; ug_Sources := None; ug_Edges := None; ug_NodeFilter := None;
     ug_ClearNodeFilter := false |}.

(** Two groups, the second with the first as member. *)
Definition sample_group_a : PolicyTables :=
  (run (policy_handle (sample_env "a" 0) (PCreateGroup (group_command gid_a "A" []))) empty_policy).2.
Definition sample_members : PolicyTables :=
  (run (policy_handle (sample_env "b" 0) (PCreateGroup (group_command gid_b "B" [member gid_a])))
     sample_group_a).2.

(** A draft of it. *)
Definition sample_draft : PolicyTables :=
  (run (revision_handle (sample_env "c" 0) (VCreate None "draft")) sample_members).2.
