(* ===== verification/PolicyInvariant.v ===== *)
(** * The invariant of the policy tables

    For any number of requests of the policy service and of the revision service, in
    any interleaving of their statements: rows are well formed, references and rules
    have their targets, at most one revision is active, and the snapshot of a revision
    never changes.  [sound] is the judgement [safe] of [Requests] for this invariant. *)

From S2P Require Import Prelude.
From S2P Require Import GoStrings.
From S2P Require Import Domain.
From S2P Require Import Lifecycle.
From S2P Require Import NodeFilter.
From S2P Require Import Policy.
From S2P Require Import Services.
From S2P Require Import Requests.
From S2P Require Import PolicyStore.
From S2P Require Import PolicyService.
From S2P Require Import PolicySamples.

(** ** The invariant of the tables *)

(** The revisions that were there before revisions had snapshots. *)
Class Historical : Type := historical : gset string.
Definition no_history : Historical := (∅ : gset string).

Section Invariant.
Context `{GoText} `{RegexEngine} `{Sha256} `{ConfigJSON} `{TableOrder} `{Historical}.

(** A row of [policy_group_sources], and of [node_groups]. *)
Record source_wf (gid : string) (s : MemberSource) : Prop := {
  swf_valid : ValidateMemberSource s = Ok tt;
  swf_owner : src_GroupID s = gid;
  swf_stored : stored_source s = s;
  swf_builtin : builtin_ok s = true
}.
Record group_wf (g : NodeGroup) : Prop := {
  gwf_valid : validate_group g = Ok tt;
  gwf_filter : grp_NodeFilter g = None;
  gwf_sources : Forall (source_wf (grp_ID g)) (grp_Sources g)
}.
Definition stored_wf (g : StoredGroup) : Prop := group_wf (sg_Group g) ∧ (1 ≤ sg_Revision g)%Z.

Definition closed (groups : gmap string StoredGroup) : Prop :=
  map_Forall (λ _ g, Forall (λ s, target_ok groups s = true) (grp_Sources (sg_Group g))) groups.

Definition group_id (g : StoredGroup) : string := grp_ID (sg_Group g).

Record policy_inv (s : PolicyTables) : Prop := {
  inv_rows : map_Forall (λ id g, group_id g = id ∧ stored_wf g) (pl_groups s);
  inv_closed : closed (pl_groups s);
  inv_rules : map_Forall (λ _ r, is_Some (pl_groups s !! rule_TargetGroupID r.2)) (pl_rules s);
  inv_revisions : map_Forall (λ id r, rv_ID r = id) (pl_revisions s);
  inv_active : ∀ id1 id2 r1 r2, pl_revisions s !! id1 = Some r1 → pl_revisions s !! id2 = Some r2 →
    is_active r1 = true → is_active r2 = true → id1 = id2;
  inv_bound : ∀ id, is_Some (pl_snapshots s !! id) → is_Some (pl_revisions s !! id);
  inv_captured : ∀ id, is_Some (pl_revisions s !! id) → id ∉ historical → is_Some (pl_snapshots s !! id);
  inv_digest : ∀ id r l, pl_revisions s !! id = Some r → pl_snapshots s !! id = Some l →
    rv_ContentDigest r = graph_digest l;
  inv_snapshots : map_Forall (λ _ l, NoDup (map group_id l) ∧ Forall stored_wf l) (pl_snapshots s)
}.

(** Snapshots stay, and so do the fields of a revision but its state. *)
Definition unchanging (r : RevisionRow) : RevisionRow := set_state "" r.
Record policy_evolves (s s' : PolicyTables) : Prop := {
  ev_snapshots : pl_snapshots s ⊆ pl_snapshots s';
  ev_revisions : ∀ id r, pl_revisions s !! id = Some r →
    ∃ r', pl_revisions s' !! id = Some r' ∧ unchanging r' = unchanging r
}.
#[global] Instance policy_evolves_preorder : PreOrder policy_evolves.
Proof.
  split.
  - intros s. split; [done|]. intros id r Hr. by exists r.
  - intros s1 s2 s3 [Ha1 Hb1] [Ha2 Hb2]. split; [by etrans|]. intros id r Hr.
    destruct (Hb1 id r Hr) as (r2 & Hr2 & Hu2). destruct (Hb2 id r2 Hr2) as (r3 & Hr3 & Hu3).
    exists r3. split; [done|]. by rewrite Hu3.
Qed.

(** ** Requests keep it *)

(** Every step of [p] keeps the invariant, and what it returns satisfies [P]. *)
Definition sound {A} (p : proc PolicyTables A) (P : A → Prop) : Prop :=
  ∀ s, policy_inv s →
    safe policy_inv policy_evolves p (λ r _, match r with Ok a => P a | Err _ => True end) s.

Lemma sound_give {A} (a : A) (P : A → Prop) : P a → sound (give a) P.
Proof. intros HP s Hi. by apply safe_done. Qed.

Lemma sound_stop {A} e (P : A → Prop) : sound (stop e) P.
Proof. intros s Hi. by apply safe_done. Qed.

Lemma sound_done {A} (r : result error A) (P : A → Prop) :
  match r with Ok a => P a | Err _ => True end → sound (Done r) P.
Proof. intros HP s Hi. apply safe_done. by destruct r. Qed.

Lemma sound_bind {A B} (p : proc PolicyTables A) (k : A → proc PolicyTables B) P Q :
  sound p P → (∀ a, P a → sound (k a) Q) → sound (pbind p k) Q.
Proof.
  intros Hp Hk s Hi. eapply safe_bind; [apply _|done|by apply Hp| |done].
  intros a s' _ Hi' Ha. by apply Hk.
Qed.

Lemma sound_attempt {A} (p : proc PolicyTables A) P :
  sound p P → sound (attempt p) (λ r, match r with Ok a => P a | Err _ => True end).
Proof. intros Hp s Hi. eapply safe_attempt; [apply _|by apply Hp|]. by intros [a|e]. Qed.

Lemma sound_mono {A} (p : proc PolicyTables A) (P Q : A → Prop) :
  sound p P → (∀ a, P a → Q a) → sound p Q.
Proof. intros Hp HPQ s Hi. eapply safe_impl; [by apply Hp|]. intros [a|e]; auto. Qed.

Lemma sound_step {A} (c : M PolicyTables A) (P : A → Prop) :
  (∀ s, policy_inv s → wp c (λ r s', policy_inv s' ∧ policy_evolves s s' ∧
     match r with Ok a => P a | Err _ => True end) s) → sound (step c) P.
Proof.
  intros Hc s _. apply safe_step. intros s' _ Hi. destruct (Hc s' Hi) as (Hi' & Hev & Hr).
  split; [done|]. split; [done|]. by intros.
Qed.

Lemma sound_query {A} env label (f : PolicyTables → result error A) (P : A → Prop) :
  (∀ s a, policy_inv s → f s = Ok a → P a) → sound (step (query env label f)) P.
Proof.
  intros Hf. apply sound_step. intros s Hi. apply wp_query; intros; (split; [done|]);
    (split; [reflexivity|]); [done|]. destruct (f s) as [a|e] eqn:E; [by eapply Hf|done].
Qed.

Lemma sound_write {A} env label (f : PolicyTables → result error (A * PolicyTables)) (P : A → Prop) :
  (∀ s a s', policy_inv s → f s = Ok (a, s') → policy_inv s' ∧ policy_evolves s s' ∧ P a) →
  sound (step (statement env label f)) P.
Proof.
  intros Hf. apply sound_step. intros s Hi. apply wp_statement; intros.
  { split; [done|]. by split; [reflexivity|]. }
  destruct (f s) as [[a s']|e] eqn:E; [by eapply Hf|]. split; [done|]. by split; [reflexivity|].
Qed.

(** The trail is no part of it. *)
Lemma inv_trail t s : policy_inv s → policy_inv (with_trail t s).
Proof. by intros []. Qed.
Lemma evolves_trail t s : policy_evolves s (with_trail t s).
Proof. split; [done|]. intros id r Hr. by exists r. Qed.

Lemma sound_record env op ok (P : unit → Prop) : P tt → sound (record env op ok) P.
Proof.
  intros HP. apply sound_step. intros s Hi. apply wp_record.
  - split; [done|]. by split; [reflexivity|].
  - intros t. split; [by apply inv_trail|]. by split; [apply evolves_trail|].
Qed.

Lemma sound_lift {A} (r : result DomainError A) (P : A → Prop) :
  (∀ a, r = Ok a → P a) → sound (step (lift r)) P.
Proof.
  intros HP. apply sound_step. intros s Hi. apply wp_lift.
  destruct r; (split; [done|]); (split; [reflexivity|]); auto.
Qed.

Lemma sound_checked {A} env op (r : result DomainError A) (P : A → Prop) :
  (∀ a, r = Ok a → P a) → sound (checked env op r) P.
Proof.
  intros HP. unfold checked. destruct r as [a|e]; [by apply sound_give, HP|].
  apply (sound_bind _ _ (λ _, True)); [by apply sound_record|]. intros ? _. apply sound_stop.
Qed.

Lemma sound_trying {A} env op (p : proc PolicyTables A) P : sound p P → sound (trying env op p) P.
Proof.
  intros Hp. unfold trying. eapply sound_bind; [by apply sound_attempt|].
  intros [a|e] Ha; [by apply sound_give|].
  apply (sound_bind _ _ (λ _, True)); [by apply sound_record|]. intros ? _. apply sound_stop.
Qed.

Lemma sound_refuse env op b code : sound (refuse env op b code) (λ _, b = false).
Proof. apply sound_checked. by destruct b. Qed.

Lemma sound_refuse_if b e : sound (refuse_if b e) (λ _, b = false).
Proof. unfold refuse_if. destruct b; [apply sound_stop|by apply sound_give]. Qed.

(** ** Sources and groups as they are stored *)

Lemma stored_ptr_deref o : deref (stored_ptr o) = deref o.
Proof.
  unfold stored_ptr, has_ptr. destruct (String.eqb_spec (deref o) ""); [|done]. by destruct o.
Qed.
Lemma stored_ptr_blank o : blank_ptr (stored_ptr o) = blank_ptr o.
Proof.
  unfold stored_ptr, has_ptr. destruct o as [t|]; [|done]. simpl.
  by destruct (String.eqb_spec t "") as [->|].
Qed.
Lemma stored_ptr_nil o : is_nil o = true → is_nil (stored_ptr o) = true.
Proof. by destruct o. Qed.
Lemma stored_ptr_twice o : stored_ptr (stored_ptr o) = stored_ptr o.
Proof. unfold stored_ptr, has_ptr. destruct (String.eqb (deref o) "") eqn:E; simpl; by rewrite ?E. Qed.

Lemma stored_twice s : stored_source (stored_source s) = stored_source s.
Proof. unfold stored_source. simpl. by rewrite !stored_ptr_twice. Qed.

Lemma stored_valid s : ValidateMemberSource s = Ok tt → ValidateMemberSource (stored_source s) = Ok tt.
Proof.
  unfold ValidateMemberSource, stored_source, MemberSourceKind_Normalize, SourceOperation_Normalize.
  simpl. rewrite !stored_ptr_deref, !stored_ptr_blank.
  pose proof (stored_ptr_nil (src_NodeLogicalID s)) as H1n.
  pose proof (stored_ptr_nil (src_TargetGroupID s)) as H2n.
  pose proof (stored_ptr_nil (src_Pattern s)) as H3n.
  pose proof (stored_ptr_nil (src_BuiltinName s)) as H4n.
  destruct (invalid_if _ "invalid_source_operation") as [[]|]; [|done].
  destruct (invalid_if _ "invalid_source_kind") as [[]|]; [|done].
  destruct (invalid_if _ "invalid_position") as [[]|]; [|done].
  destruct (is_nil (src_NodeLogicalID s)), (is_nil (src_TargetGroupID s)), (is_nil (src_Pattern s)),
    (is_nil (src_BuiltinName s)); rewrite ?(H1n eq_refl), ?(H2n eq_refl), ?(H3n eq_refl), ?(H4n eq_refl);
    try done; cbn [negb orb];
    repeat match goal with
           | |- context [if String.eqb ?a ?b then _ else _] => destruct (String.eqb a b); [|]
           | |- context [match entry_error_if ?b ?f with _ => _ end] =>
               destruct (entry_error_if b f) as [[]|] eqn:?
           | |- context [match invalid_if ?b ?f with _ => _ end] =>
               destruct (invalid_if b f) as [[]|] eqn:?
           end; try done.
Qed.

Lemma target_ok_mono groups groups' s :
  (∀ id, is_Some (groups !! id) → is_Some (groups' !! id)) →
  target_ok groups s = true → target_ok groups' s = true.
Proof.
  unfold target_ok. destruct (src_TargetGroupID s); [|done]. rewrite !bool_decide_eq_true. auto.
Qed.

Lemma insert_keeps {A} (m : gmap string A) gid g id : is_Some (m !! id) → is_Some (<[gid := g]> m !! id).
Proof. intros Hs. apply lookup_insert_is_Some'. auto. Qed.

Lemma inv_insert_group gid row s :
  policy_inv s → group_id row = gid → stored_wf row →
  Forall (λ x, target_ok (<[gid := row]> (pl_groups s)) x = true) (grp_Sources (sg_Group row)) →
  policy_inv (with_groups (<[gid := row]> (pl_groups s)) s).
Proof.
  intros Hi Hid Hwf Ht. destruct Hi. split; try done; simpl.
  - apply map_Forall_insert_2; [by split|done].
  - apply map_Forall_insert_2; [done|]. eapply map_Forall_impl; [done|]. intros id g Hf.
    eapply Forall_impl; [exact Hf|]. intros x. apply target_ok_mono. intros. by apply insert_keeps.
  - eapply map_Forall_impl; [done|]. intros id r Hr. by apply insert_keeps.
Qed.

Lemma evolves_groups m s : policy_evolves s (with_groups m s).
Proof. split; [done|]. intros id r Hr. by exists r. Qed.

Lemma identify_spec env gid i l saved :
  identify env gid i l = Ok saved →
  Forall2 (λ s s', ∃ k id, s' = place_source gid (i + k) id s ∧ l !! k = Some s) l saved.
Proof.
  revert i saved. induction l as [|s l IH]; intros i saved; simpl; [by intros [= <-]|].
  destruct (if String.eqb _ _ then _ else _) as [id|]; [|done].
  destruct (identify env gid (S i) l) as [rest|] eqn:Hr; [|done]. intros [= <-]. constructor.
  - exists 0, id. by rewrite Nat.add_0_r.
  - eapply Forall2_impl; [by apply IH|]. intros x x' (k & id' & -> & Hk). exists (S k), id'.
    split; [|done]. f_equal. lia.
Qed.

(** What is validated under its number stays valid in its row. *)
Lemma placed_valid gid id i s :
  ValidateMemberSource s = Ok tt → src_Position s = Z.of_nat i →
  ValidateMemberSource (place_source gid i id s) = Ok tt.
Proof. intros Hv Hp. unfold ValidateMemberSource, place_source in *. simpl. by rewrite <- Hp. Qed.

Lemma number_position l k s : number_sources l !! k = Some s → src_Position s = Z.of_nat k.
Proof.
  unfold number_sources. rewrite list_lookup_imap. destruct (l !! k); [|done]. by intros [= <-].
Qed.

Lemma saved_rows env gid l saved :
  for_each ValidateMemberSource (number_sources l) = Ok tt →
  identify env gid 0 (number_sources l) = Ok saved →
  forallb builtin_ok (map stored_source saved) = true →
  Forall (source_wf gid) (map stored_source saved).
Proof.
  intros Hv Hid Hb. apply Forall_forall. intros x Hx.
  rewrite forallb_forall in Hb. pose proof (Hb x ltac:(by apply list_elem_of_In)) as Hbx.
  apply list_elem_of_fmap in Hx as (y & -> & Hy). apply identify_spec in Hid.
  apply list_elem_of_lookup in Hy as [k Hy].
  destruct (Forall2_lookup_r _ _ _ _ _ Hid Hy) as (z & Hz & k' & id & -> & Hk').
  split; [|done|apply stored_twice|done]. apply stored_valid, placed_valid.
  - rewrite for_each_ok in Hv. apply Hv. by eapply list_elem_of_lookup_2.
  - by eapply number_position.
Qed.

Lemma next_revision_pos expected current rev :
  match current with Some g => (1 ≤ sg_Revision g)%Z | None => True end →
  next_revision expected current = Ok rev → (1 ≤ rev)%Z.
Proof.
  unfold next_revision. destruct current as [g|]; destruct (_ <? _)%Z; simpl;
    try (intros ? [= <-]; lia); try done. destruct (_ =? _)%Z; simpl; [|done]. intros ? [= <-]. lia.
Qed.

Lemma source_rows_inv groups taken rows :
  source_rows_ok groups taken rows = Ok tt →
  forallb builtin_ok rows = true ∧ Forall (λ x, target_ok groups x = true) rows.
Proof.
  unfold source_rows_ok. destruct (forallb builtin_ok rows) eqn:Hb; [|done].
  destruct (forallb (target_ok groups) rows) eqn:Ht; [|done]. intros _. split; [done|].
  apply Forall_forall. intros x Hx. rewrite forallb_forall in Ht. apply Ht. by apply list_elem_of_In.
Qed.

(** What the write of a group leaves. *)
Lemma write_group_spec env group expected l s a s' :
  write_group env group expected l s = Ok (a, s') →
  ∃ rev saved, next_revision expected (pl_groups s !! grp_ID group) = Ok rev ∧
    identify env (grp_ID group) 0 l = Ok saved ∧
    let row := {| sg_Group := without_filter (set_sources (map stored_source saved) group);
                  sg_Revision := rev |} in
    s' = with_groups (<[grp_ID group := row]> (pl_groups s)) s ∧
    a = {| sg_Group := set_sources saved group; sg_Revision := rev |} ∧
    forallb builtin_ok (map stored_source saved) = true ∧
    Forall (λ x, target_ok (<[grp_ID group := row]> (pl_groups s)) x = true) (map stored_source saved).
Proof.
  unfold write_group. destruct (next_revision _ _) as [rev|]; [|done].
  destruct (identify _ _ _ _) as [saved|]; [|done].
  destruct (source_rows_ok _ _ _) as [[]|] eqn:Hr; [|done]. intros [= <- <-].
  exists rev, saved. apply source_rows_inv in Hr as [Hb Ht]. done.
Qed.

Lemma write_group_inv env group expected l s a s' :
  policy_inv s → validate_group group = Ok tt →
  for_each ValidateMemberSource (number_sources l) = Ok tt →
  write_group env group expected (number_sources l) s = Ok (a, s') →
  policy_inv s' ∧ policy_evolves s s'.
Proof.
  intros Hi Hg Hv (rev & saved & Hrev & Hid & -> & _ & Hb & Ht)%write_group_spec.
  split; [|apply evolves_groups]. apply inv_insert_group; [done|done| |done]. split.
  - split; [done|done|]. by eapply saved_rows.
  - eapply next_revision_pos; [|done]. destruct (pl_groups s !! grp_ID group) as [g|] eqn:Hl; [|done].
    by apply (inv_rows _ Hi) in Hl as (_ & _ & ?).
Qed.

Lemma sound_save env group expected l :
  validate_group group = Ok tt → sound (step (SaveGroupWithSources env group expected l)) (λ _, True).
Proof.
  intros Hg. apply sound_step. intros s Hi. unfold SaveGroupWithSources. apply wp_bind, wp_lift.
  destruct (for_each _ _) as [[]|] eqn:Hv; [|split; [done|]; by split; [reflexivity|]].
  apply wp_statement; intros; [split; [done|]; by split; [reflexivity|]|].
  destruct (write_group _ _ _ _ s) as [[a s']|] eqn:Hw; [|split; [done|]; by split; [reflexivity|]].
  destruct (write_group_inv _ _ _ _ _ _ _ Hi Hg Hv Hw). auto.
Qed.

Lemma row_with_wf l g :
  stored_wf g → Forall (source_wf (group_id g)) l → stored_wf (row_with l g).
Proof. intros [[Hv Hf _] Hr] Hl. by split; [split|]. Qed.

Lemma sound_get env id : sound (policies_GetGroupByID env id) (λ g, group_id g = id ∧ stored_wf g).
Proof.
  apply (sound_bind _ _ (λ g, group_id g = id ∧ stored_wf g)).
  - apply sound_query. intros s g Hi. destruct (pl_groups s !! id) as [g'|] eqn:Hl; [|done].
    intros [= <-]. apply (inv_rows _ Hi) in Hl as [Hid Hwf]. split; [done|]. by apply row_with_wf.
  - intros g [<- Hg]. apply (sound_bind _ _ (Forall (source_wf (group_id g)))).
    + apply sound_query. intros s l Hi [= <-]. unfold sources_of.
      destruct (pl_groups s !! group_id g) as [g'|] eqn:Hl; [|constructor].
      apply (inv_rows _ Hi) in Hl as [<- [Hwf _]]. apply Hwf.
    + intros l Hl. apply sound_give. split; [done|]. by apply row_with_wf.
Qed.

Lemma sound_list env : sound (policies_ListGroups env) (λ _, True).
Proof.
  apply (sound_bind _ _ (λ _, True)); [by apply sound_query|]. intros rows _.
  apply (sound_bind _ _ (λ _, True)); [by apply sound_query|]. intros sources _. by apply sound_give.
Qed.
Lemma sound_list_edges env id : sound (step (policies_ListEdgesByGroup env id)) (λ _, True).
Proof. by apply sound_query. Qed.

Lemma sound_delete_group env id : sound (step (policies_DeleteGroup env id)) (λ _, True).
Proof.
  apply sound_write. intros s a s' Hi. destruct (referenced id s) eqn:Hr; [done|].
  destruct (pl_groups s !! id) as [g|]; [|done]. intros [= <- <-].
  split; [|by split; [apply evolves_groups|]]. unfold referenced in Hr.
  apply orb_false_iff in Hr as [Hg Hrule].
  destruct Hi. split; try done; simpl.
  - by apply map_Forall_delete.
  - intros id' g' Hl. apply lookup_delete_Some in Hl as [Hne Hl].
    apply Forall_forall. intros x Hx. pose proof (inv_closed0 _ _ Hl) as Hf.
    rewrite Forall_forall in Hf. specialize (Hf x Hx). unfold target_ok in *.
    destruct (src_TargetGroupID x) as [t|] eqn:Ht; [|done]. rewrite bool_decide_eq_true in *.
    rewrite lookup_delete_ne; [done|]. intros <-.
    apply not_true_iff_false in Hg. apply Hg, existsb_exists. exists (id', g').
    split; [by apply list_elem_of_In, elem_of_map_to_list|]. simpl.
    apply andb_true_iff. split; [by apply negb_true_iff, String.eqb_neq|].
    apply existsb_exists. exists x. split; [by apply list_elem_of_In|]. by apply bool_decide_eq_true.
  - intros rid r Hl. rewrite lookup_delete_ne; [by apply (inv_rules0 _ _ Hl)|]. intros Heq.
    apply not_true_iff_false in Hrule. apply Hrule, existsb_exists. exists (rid, r).
    split; [by apply list_elem_of_In, elem_of_map_to_list|]. simpl. by apply String.eqb_eq.
Qed.

(** ** Rules *)

Lemma sound_create_rule env rev r : sound (step (policies_CreatePolicyRule env rev r)) (λ _, True).
Proof.
  apply sound_write. intros s a s' Hi. case_bool_decide; [done|]. destruct (_ <? _)%Z; [done|].
  case_bool_decide as Ht; [|done]. intros [= <- <-]. split.
  - destruct Hi. split; try done. by apply map_Forall_insert_2.
  - split; [|done]. split; [done|]. intros id x Hx. by exists x.
Qed.

Lemma sound_delete_rule env id : sound (step (policies_DeletePolicyRule env id)) (λ _, True).
Proof.
  apply sound_write. intros s a s' Hi. destruct (pl_rules s !! id); [|done]. intros [= <- <-]. split.
  - destruct Hi. split; try done. by apply map_Forall_delete.
  - split; [|done]. split; [done|]. intros i x Hx. by exists x.
Qed.

Lemma inv_admission m s : policy_inv s → policy_inv (with_admission m s) ∧ policy_evolves s (with_admission m s).
Proof. intros Hi. split; [by destruct Hi|]. split; [done|]. intros id x Hx. by exists x. Qed.

Lemma sound_create_admission env rev r : sound (step (policies_CreateAdmissionRule env rev r)) (λ _, True).
Proof.
  apply sound_write. intros s a s' Hi. case_bool_decide; [done|]. destruct (_ <? _)%Z; [done|].
  intros [= <- <-]. destruct (inv_admission (<[adm_ID r := (rev, r)]> (pl_admission s)) s Hi). auto.
Qed.
Lemma sound_delete_admission env id : sound (step (policies_DeleteAdmissionRule env id)) (λ _, True).
Proof.
  apply sound_write. intros s a s' Hi. destruct (pl_admission s !! id); [|done]. intros [= <- <-].
  destruct (inv_admission (delete id (pl_admission s)) s Hi). auto.
Qed.

Lemma sound_set_filter env f : sound (step (filters_SetGlobalFilter env f)) (λ _, True).
Proof.
  apply sound_step. intros s Hi. unfold filters_SetGlobalFilter. apply wp_bind, wp_lift.
  destruct (NodeFilterSpec_Validate _); [|split; [done|]; by split; [reflexivity|]].
  apply wp_statement; intros; [split; [done|]; by split; [reflexivity|]|].
  split; [by destruct Hi|]. split; [|done]. split; [done|]. intros id x Hx. by exists x.
Qed.

(** ** Revisions *)

Lemma policy_groups_perm s : policy_groups s ≡ₚ map snd (map_to_list (pl_groups s)).
Proof. apply sort_stable_perm. Qed.

Lemma listed_ids s : policy_inv s →
  map group_id (map snd (map_to_list (pl_groups s))) = map fst (map_to_list (pl_groups s)).
Proof.
  intros Hi. rewrite map_map. apply map_ext_in. intros [id g] Hin.
  apply list_elem_of_In, elem_of_map_to_list in Hin. by apply (inv_rows _ Hi) in Hin as [? _].
Qed.

Lemma captured_wf s : policy_inv s → NoDup (map group_id (policy_groups s)) ∧ Forall stored_wf (policy_groups s).
Proof.
  intros Hi. split.
  - rewrite policy_groups_perm, listed_ids by done. apply NoDup_fst_map_to_list.
  - rewrite policy_groups_perm. apply Forall_map, Forall_forall. intros [id g] Hin.
    apply elem_of_map_to_list in Hin. by apply (inv_rows _ Hi) in Hin as [_ ?].
Qed.

(** The row and the snapshot that a new revision gets. *)
Definition new_row (r : RevisionRow) (s : PolicyTables) : RevisionRow :=
  {| rv_ID := rv_ID r; rv_ParentID := stored_ptr (rv_ParentID r);
     rv_ContentDigest := graph_digest (policy_groups s); rv_State := rv_State r;
     rv_CreatedAt := rfc3339 (rv_CreatedAt r) |}.

Lemma capture_spec r s s1 s2 :
  insert_revision r s = Ok s1 → CapturePolicyRevisionSnapshot (rv_ID r) s1 = Ok s2 →
  pl_revisions s !! rv_ID r = None ∧ pl_snapshots s !! rv_ID r = None ∧
  s2 = with_revisions (<[rv_ID r := new_row r s]> (pl_revisions s))
         (<[rv_ID r := policy_groups s]> (pl_snapshots s)) s.
Proof.
  unfold insert_revision, CapturePolicyRevisionSnapshot. case_bool_decide as Hn; [done|].
  destruct (match stored_ptr _ with Some _ => _ | None => _ end); [done|]. intros [= <-]. simpl.
  case_bool_decide as Hs; [done|]. intros [= <-]. apply eq_None_not_Some in Hn, Hs.
  split; [done|]. split; [done|]. by rewrite alter_insert_eq.
Qed.

Lemma inv_new_revision r s :
  policy_inv s → rv_State r ≠ RevisionActive →
  pl_revisions s !! rv_ID r = None → pl_snapshots s !! rv_ID r = None →
  let s' := with_revisions (<[rv_ID r := new_row r s]> (pl_revisions s))
              (<[rv_ID r := policy_groups s]> (pl_snapshots s)) s in
  policy_inv s' ∧ policy_evolves s s'.
Proof.
  intros Hi Hst Hn Hsn. simpl. split.
  - pose proof (captured_wf s Hi) as Hc. destruct Hi. split; try done; simpl.
    + by apply map_Forall_insert_2.
    + intros id1 id2 r1 r2 Hl1 Hl2 Ha1 Ha2.
      assert (∀ id x, <[rv_ID r := new_row r s]> (pl_revisions s) !! id = Some x →
        is_active x = true → pl_revisions s !! id = Some x) as Hold.
      { intros id x. rewrite lookup_insert. case_decide; [|done]. intros [= <-].
        unfold is_active. simpl. by intros ?%String.eqb_eq. }
      eapply inv_active0; [by apply Hold|by apply Hold|done|done].
    + intros id. rewrite !lookup_insert. case_decide; [done|]. apply inv_bound0.
    + intros id. rewrite !lookup_insert. case_decide; [done|]. apply inv_captured0.
    + intros id x l. rewrite !lookup_insert. case_decide; [by intros [= <-] [= <-]|]. apply inv_digest0.
    + by apply map_Forall_insert_2.
  - split; simpl; [by apply insert_subseteq|]. intros id x Hx. exists x. split; [|done].
    rewrite lookup_insert_ne; [done|]. intros <-. by rewrite Hn in Hx.
Qed.

Lemma unchanging_archive r : unchanging (archive r) = unchanging r.
Proof. unfold archive. by destruct (is_active r). Qed.
Lemma archived_inactive r : is_active (archive r) = false.
Proof. unfold archive. by destruct (is_active r) eqn:E. Qed.

Lemma active_spec id s s' :
  setActiveRevision id s = Ok s' →
  is_Some (pl_revisions s !! id) ∧
  (∀ l, pl_snapshots s !! id = Some l → unchanged_since l (policy_groups s) = Ok tt) ∧
  s' = with_revisions (alter (set_state RevisionActive) id (archive <$> pl_revisions s)) (pl_snapshots s) s.
Proof.
  unfold setActiveRevision. destruct (pl_snapshots s !! id) as [l|].
  - destruct (unchanged_since _ _) as [[]|] eqn:Hu; [|done]. destruct (pl_revisions s !! id); [|done].
    intros [= <-]. split; [done|]. split; [by intros ? [= <-]|done].
  - destruct (pl_revisions s !! id); [|done]. by intros [= <-].
Qed.

Lemma inv_set_active id s s' :
  policy_inv s → setActiveRevision id s = Ok s' → policy_inv s' ∧ policy_evolves s s'.
Proof.
  intros Hi (Hid & _ & ->)%active_spec.
  assert (∀ j x, alter (set_state RevisionActive) id (archive <$> pl_revisions s) !! j = Some x →
    ∃ x0, pl_revisions s !! j = Some x0 ∧ unchanging x = unchanging x0 ∧ (is_active x = true → j = id))
    as Hrow.
  { intros j x. destruct (decide (j = id)) as [->|Hne].
    - rewrite lookup_alter_eq, lookup_fmap. destruct (pl_revisions s !! id) as [x0|]; [|done].
      simpl. intros [= <-]. exists x0. split; [done|]. split; [|done]. apply unchanging_archive.
    - rewrite lookup_alter_ne, lookup_fmap by done. destruct (pl_revisions s !! j) as [x0|]; [|done].
      simpl. intros [= <-]. exists x0. split; [done|]. split; [apply unchanging_archive|].
      by rewrite archived_inactive. }
  split.
  - destruct Hi. split; try done; simpl.
    + intros j x Hx. destruct (Hrow j x Hx) as (x0 & Hx0 & Hu & _).
      apply (f_equal rv_ID) in Hu. simpl in Hu. rewrite Hu. by apply (inv_revisions0 _ _ Hx0).
    + intros j1 j2 x1 x2 H1x H2x Ha1 Ha2. destruct (Hrow _ _ H1x) as (_ & _ & _ & Hj1).
      destruct (Hrow _ _ H2x) as (_ & _ & _ & Hj2). by rewrite Hj1, Hj2.
    + intros j Hj. rewrite lookup_alter_is_Some, lookup_fmap, fmap_is_Some. auto.
    + intros j. rewrite lookup_alter_is_Some, lookup_fmap, fmap_is_Some. auto.
    + intros j x l Hx Hl. destruct (Hrow j x Hx) as (x0 & Hx0 & Hu & _).
      apply (f_equal rv_ContentDigest) in Hu. simpl in Hu. rewrite Hu. by eapply inv_digest0.
  - split; [done|]. simpl. intros j x0 Hx0.
    assert (is_Some (alter (set_state RevisionActive) id (archive <$> pl_revisions s) !! j)) as [x Hx].
    { apply lookup_alter_is_Some. by rewrite lookup_fmap, Hx0. }
    exists x. split; [done|]. destruct (Hrow j x Hx) as (x1 & Hx1 & Hu & _). congruence.
Qed.

Lemma sound_create_revision env r :
  rv_State r ≠ RevisionActive → sound (step (revision_Create env r)) (λ _, True).
Proof.
  intros Hst. apply sound_write. intros s a s' Hi.
  destruct (insert_revision r s) as [s1|] eqn:H1i; [|done].
  destruct (CapturePolicyRevisionSnapshot (rv_ID r) s1) as [s2|] eqn:H2i; [|done].
  destruct (digest_row _ _); [|done]. intros [= <- <-].
  destruct (capture_spec _ _ _ _ H1i H2i) as (Hn & Hs & ->).
  destruct (inv_new_revision r s Hi Hst Hn Hs). auto.
Qed.

Lemma sound_set_active env id : sound (step (revision_SetActive env id)) (λ _, True).
Proof.
  apply sound_write. intros s a s' Hi. destruct (setActiveRevision id s) as [s1|] eqn:Hs; [|done].
  intros [= <- <-]. destruct (inv_set_active _ _ _ Hi Hs). auto.
Qed.

Lemma sound_create_active env r : sound (step (revision_CreateActive env r)) (λ _, True).
Proof.
  apply sound_write. intros s a s' Hi.
  destruct (insert_revision (set_state RevisionStateDraft r) s) as [s1|] eqn:H1i; [|done].
  destruct (CapturePolicyRevisionSnapshot (rv_ID r) s1) as [s2|] eqn:H2i; [|done].
  destruct (digest_row _ _); [|done]. destruct (setActiveRevision (rv_ID r) s2) as [s3|] eqn:H3i; [|done].
  intros [= <- <-]. destruct (capture_spec _ _ _ _ H1i H2i) as (Hn & Hs & ->).
  destruct (inv_new_revision (set_state RevisionStateDraft r) s Hi ltac:(done) Hn Hs) as [Hi2 Hev2].
  destruct (inv_set_active _ _ _ Hi2 H3i) as [Hi3 Hev3]. split; [done|]. split; [by etrans|done].
Qed.

(** ** Restoring a snapshot *)

Lemma owned_same gid s : src_GroupID s = gid → owned_source gid s = s.
Proof. intros <-. by destruct s. Qed.

Lemma restored_same current g :
  stored_wf g → sg_Group (restored_group current g) = sg_Group g.
Proof.
  intros [[_ Hf Hs] _]. unfold restored_group. simpl.
  assert (map (owned_source (grp_ID (sg_Group g))) (grp_Sources (sg_Group g)) = grp_Sources (sg_Group g))
    as ->.
  { rewrite <- (map_id (grp_Sources (sg_Group g))) at 2. apply map_ext_in. intros x Hx.
    rewrite Forall_forall in Hs. apply owned_same, Hs. by apply list_elem_of_In. }
  unfold without_filter, set_sources. destruct (sg_Group g). simpl in *. by subst.
Qed.

Lemma restored_revision_pos current g :
  map_Forall (λ _ c, (1 ≤ sg_Revision c)%Z) current → (1 ≤ sg_Revision g)%Z →
  (1 ≤ restored_revision current g ∧ sg_Revision g < restored_revision current g ∧
   ∀ c, current !! group_id g = Some c → sg_Revision c < restored_revision current g)%Z.
Proof.
  intros Hc Hg. unfold restored_revision, group_id. destruct (current !! grp_ID (sg_Group g)) as [c|] eqn:Hl.
  - specialize (Hc _ _ Hl). simpl in Hc.
    destruct (Z.leb_spec (sg_Revision c + 1) (sg_Revision g)); (split; [lia|]); (split; [lia|]);
      intros ? [= <-]; lia.
  - destruct (Z.leb_spec (0 + 1) (sg_Revision g)); (split; [lia|]); (split; [lia|]); done.
Qed.

Lemma restored_lookup current groups id g' :
  restored current groups !! id = Some g' →
  ∃ g, g ∈ groups ∧ group_id g = id ∧ g' = restored_group current g.
Proof.
  intros Hl%elem_of_list_to_map_2. apply list_elem_of_fmap in Hl as (g & [= -> ->] & Hg). by exists g.
Qed.

Lemma restored_all current groups g :
  NoDup (map group_id groups) → g ∈ groups →
  restored current groups !! group_id g = Some (restored_group current g).
Proof.
  intros Hnd Hg. apply elem_of_list_to_map_1.
  - rewrite map_map. exact Hnd.
  - apply list_elem_of_fmap. by exists g.
Qed.

Lemma write_snapshot_spec groups expected s u s' :
  write_snapshot groups expected s = Ok (u, s') →
  expected_vector expected (pl_groups s) = true ∧
  (∀ id r, pl_rules s !! id = Some r → is_Some (pl_groups s !! rule_TargetGroupID r.2) →
     is_Some (restored (pl_groups s) groups !! rule_TargetGroupID r.2)) ∧
  Forall (λ x, target_ok (restored (pl_groups s) groups) x = true)
    (flat_map (λ g, grp_Sources (sg_Group g)) groups) ∧
  s' = with_groups (restored (pl_groups s) groups) s.
Proof.
  unfold write_snapshot. destruct (expected_vector _ _); [|done]. simpl.
  destruct (existsb _ (map_to_list (pl_groups s))) eqn:He; [done|].
  destruct (source_rows_ok _ _ _) as [[]|] eqn:Hr; [|done]. intros [= _ <-].
  split; [done|]. apply source_rows_inv in Hr as [_ Ht]. split; [|done].
  intros id r Hl [g Hg]. destruct (restored _ _ !! rule_TargetGroupID r.2) eqn:Hn; [done|]. exfalso.
  apply not_true_iff_false in He. apply He, existsb_exists. exists (rule_TargetGroupID r.2, g).
  split; [by apply list_elem_of_In, elem_of_map_to_list|]. simpl. rewrite bool_decide_eq_true_2 by done.
  apply existsb_exists. exists (id, r). split; [by apply list_elem_of_In, elem_of_map_to_list|].
  simpl. apply String.eqb_refl.
Qed.

Lemma inv_restore groups expected s u s' :
  policy_inv s → Forall stored_wf groups → write_snapshot groups expected s = Ok (u, s') →
  policy_inv s' ∧ policy_evolves s s'.
Proof.
  intros Hi Hwf (_ & Hrules & Ht & ->)%write_snapshot_spec. split; [|apply evolves_groups].
  rewrite Forall_forall in Hwf. pose proof (inv_rows _ Hi) as Hrows.
  assert (map_Forall (λ _ c, (1 ≤ sg_Revision c)%Z) (pl_groups s)) as Hpos
    by (eapply map_Forall_impl; [exact Hrows|]; by intros ? ? (_ & _ & ?)).
  destruct Hi. split; try done; simpl.
  - intros id g' (g & Hg & <- & ->)%restored_lookup. split; [done|]. specialize (Hwf g Hg).
    split; [rewrite restored_same by done; apply Hwf|]. simpl.
    apply restored_revision_pos; [done|apply Hwf].
  - intros id g' (g & Hg & <- & ->)%restored_lookup. rewrite restored_same by auto.
    apply Forall_forall. intros x Hx. rewrite Forall_forall in Ht. apply Ht.
    apply list_elem_of_In, in_flat_map. exists g. split; by apply list_elem_of_In.
  - intros id r Hl. eapply Hrules; [exact Hl|]. by apply (inv_rules0 _ _ Hl).
Qed.

Lemma sound_restore env id v : sound (RestorePolicySnapshot env id v) (λ _, True).
Proof.
  unfold RestorePolicySnapshot. eapply sound_bind.
  { apply (sound_query _ _ _ (Forall stored_wf)). intros s l Hi.
    destruct (pl_snapshots s !! id) as [l'|] eqn:Hl; [|done]. intros [= <-].
    by apply (inv_snapshots _ Hi) in Hl as [_ ?]. }
  intros l Hwf. apply (sound_bind _ _ (λ _, True)); [by apply sound_lift|]. intros [] _.
  apply sound_write. intros s u s' Hi Hw. destruct (inv_restore _ _ _ _ _ Hi Hwf Hw). auto.
Qed.

(** ** The operations *)

Lemma sound_weak {A} (p : proc PolicyTables A) P : sound p P → sound p (λ _, True).
Proof. intros Hp. by eapply sound_mono. Qed.

Lemma sound_targets env edges : sound (validateNodeTargets env edges) (λ _, True).
Proof. apply sound_done. by destruct (for_each _ _). Qed.

Lemma sound_read {A} env label (f : PolicyTables → result error A) :
  sound (step (query env label f)) (λ _, True).
Proof. by apply sound_query. Qed.

(** One rule for each construct of a request. *)
Ltac sound_leaf :=
  first
    [ apply sound_record; done | apply sound_targets | apply sound_list | apply sound_list_edges
    | apply sound_delete_group | apply sound_create_rule | apply sound_delete_rule
    | apply sound_create_admission | apply sound_delete_admission | apply sound_set_filter
    | apply sound_set_active | apply sound_create_active | apply sound_restore
    | apply sound_read
    | apply sound_refuse | apply sound_refuse_if | apply sound_get
    | apply (sound_weak _ _ (sound_get _ _)) | apply (sound_weak _ _ (sound_refuse _ _ _ _)) ].
Ltac sound_ops :=
  repeat first
    [ progress intros
    | match goal with
      | |- sound (pbind _ _) _ =>
          first [ eapply sound_bind; [sound_leaf|]
                | eapply sound_bind; [apply sound_trying; sound_leaf|]
                | apply (sound_bind _ _ (λ _, True)) ]
      | |- sound (give _) _ => apply sound_give; done
      | |- sound (stop _) _ => apply sound_stop
      | |- sound (reject _) _ => apply sound_stop
      | |- sound (checked _ _ _) _ => apply sound_checked; done
      | |- sound (trying _ _ _) _ => apply sound_trying
      | |- sound (attempt _) _ => eapply sound_weak, sound_attempt
      | |- sound (match ?x with _ => _ end) _ => destruct x eqn:?
      | |- sound _ _ => sound_leaf
      end ].

Lemma sound_edge_inputs env gid i l onfail :
  sound onfail (λ _, True) → sound (edge_inputs env gid i l onfail) (λ _, True).
Proof.
  intros Hf. revert i. induction l as [|e l IH]; intros i; cbn [edge_inputs]; sound_ops; auto.
Qed.

Lemma sound_edges_of env l : sound (edges_of_groups env l) (λ _, True).
Proof. induction l as [|g l IH]; cbn [edges_of_groups]; sound_ops; auto. Qed.

Lemma sound_save_group env group rev create edges change filter :
  validate_group group = Ok tt → sound (SaveGroup env group rev create edges change filter) (λ _, True).
Proof.
  intros Hg. unfold SaveGroup. sound_ops; try (by apply sound_lift); by apply sound_save.
Qed.

Lemma sound_set_edges env gid edges : sound (SetEdgesForGroup env gid edges) (λ _, True).
Proof.
  unfold SetEdgesForGroup. eapply sound_bind; [apply sound_get|]. intros g [_ [[Hv _ _] _]].
  by apply sound_save_group.
Qed.

Lemma topology_adjacency groups edges rules req :
  topology groups edges rules req = Ok tt →
  ValidatePolicyTopology groups edges rules req = Some (Ok tt).
Proof. unfold topology. by destruct (ValidatePolicyTopology _ _ _ _) as [[[]|]|]. Qed.

Lemma topology_group groups edges rules req g :
  topology groups edges rules req = Ok tt → g ∈ groups → validate_group g = Ok tt.
Proof.
  intros (adj & Hb & _)%topology_adjacency%validated_topology Hg. unfold build_adjacency in Hb.
  destruct (for_each validate_group groups) as [[]|] eqn:Hf; [|done].
  rewrite for_each_ok in Hf. by apply Hf.
Qed.

Lemma policy_graph_topology groups edges rules adm :
  ValidatePolicyGraph groups edges rules adm = Ok tt → topology groups edges rules true = Ok tt.
Proof. unfold ValidatePolicyGraph. by destruct (topology _ _ _ _) as [[]|]. Qed.

Lemma validate_set_sources l g : validate_group (set_sources l g) = validate_group g.
Proof. done. Qed.

Lemma sound_create_group env cmd : sound (CreateGroup env cmd) (λ _, True).
Proof.
  unfold CreateGroup. do 2 (eapply sound_bind; [apply sound_refuse|]; intros ? _).
  apply (sound_bind _ _ (λ _, True)); [sound_ops|]. intros gid _.
  eapply sound_bind; [by apply (sound_checked _ _ _ (λ _, True))|]. intros ? _.
  eapply sound_bind; [apply sound_edge_inputs, sound_record; done|]. intros edges _.
  eapply sound_bind; [apply sound_list|]. intros existing _.
  eapply sound_bind; [apply sound_edges_of|]. intros others _.
  set (group := {| grp_ID := gid |}).
  eapply sound_bind.
  { apply (sound_checked _ _ _ (λ _, validate_group group = Ok tt)). intros [] Hv%policy_graph_topology.
    eapply topology_group; [exact Hv|]. set_solver. }
  intros ? Hg. eapply sound_bind; [apply sound_trying, sound_targets|]. intros ? _.
  apply (sound_bind _ _ (λ _, True)); [|sound_ops]. destruct (negb _).
  - sound_ops. by apply sound_save.
  - by apply sound_save_group.
Qed.

Lemma edit_valid cmd g :
  validate_group g = Ok tt →
  match ug_Name cmd with Some n => String.eqb (TrimSpace n) "" | None => false end = false →
  match ug_GroupType cmd with Some t => negb (enum_valid validGroupTypes t) | None => false end = false →
  validate_group (edit_group cmd g) = Ok tt.
Proof.
  unfold validate_group, edit_group, invalid_if, reject_if. simpl. intros Hg Hn Ht.
  destruct (negb (IsValidUUIDv7 _)); [done|].
  destruct (ug_Name cmd) as [n|]; [rewrite TrimSpace_idemp, Hn|];
    destruct (ug_GroupType cmd) as [t|]; simpl; try rewrite Ht; destruct (String.eqb _ _); try done;
    by destruct (negb _).
Qed.

Lemma sound_update_group env cmd : sound (UpdateGroup env cmd) (λ _, True).
Proof.
  unfold UpdateGroup. eapply sound_bind; [apply sound_trying, sound_get|].
  intros current [_ [[Hv _ _] _]].
  eapply sound_bind; [apply sound_refuse|]. intros ? Hn.
  eapply sound_bind; [apply sound_refuse|]. intros ? Ht.
  pose proof (edit_valid cmd _ Hv Hn Ht) as Hg. unfold legacy_sources.
  sound_ops; try (by apply sound_lift); by apply sound_save.
Qed.

Lemma sound_delete env id : sound (DeleteGroup env id) (λ _, True).
Proof. unfold DeleteGroup. sound_ops. Qed.

Lemma sound_set_group_edges env gid inputs : sound (SetGroupEdges env gid inputs) (λ _, True).
Proof.
  unfold SetGroupEdges. sound_ops; try apply sound_edge_inputs; try apply sound_edges_of;
    try apply sound_set_edges; sound_ops.
Qed.

Lemma sound_current_digest env : sound (current_digest env) (λ _, True).
Proof. unfold current_digest. sound_ops. apply sound_edges_of. Qed.

Lemma sound_revision_id env : sound (new_revision_id env) (λ _, True).
Proof. unfold new_revision_id. sound_ops. Qed.

Lemma sound_ensure env : sound (ensureActiveRevisionLocked env) (λ _, True).
Proof.
  unfold ensureActiveRevisionLocked, bootstrapActiveRevisionLocked.
  sound_ops; try apply sound_current_digest; apply sound_revision_id.
Qed.

Lemma sound_create_revision_request env parent state :
  sound (CreateRevision env parent state) (λ _, True).
Proof.
  unfold CreateRevision. sound_ops; try apply sound_current_digest; try apply sound_revision_id.
  apply sound_create_revision. simpl. by apply String.eqb_neq.
Qed.

Lemma sound_rule_id env given : sound (rule_id env given) (λ _, True).
Proof. unfold rule_id. sound_ops. Qed.
Lemma sound_rule_revision env given : sound (rule_revision env given) (λ _, True).
Proof. unfold rule_revision. sound_ops. apply sound_ensure. Qed.
Lemma sound_admission_rule env cmd : sound (CreateAdmissionRule env cmd) (λ _, True).
Proof. unfold CreateAdmissionRule. sound_ops; [apply sound_rule_id|apply sound_rule_revision]. Qed.
Lemma sound_policy_rule env cmd : sound (CreatePolicyRule env cmd) (λ _, True).
Proof. unfold CreatePolicyRule. sound_ops; [apply sound_rule_id|apply sound_rule_revision]. Qed.
Lemma sound_delete_rules env id kind : sound (DeleteRule env id kind) (λ _, True).
Proof. unfold DeleteRule, delete_admission, delete_policy. sound_ops. Qed.

Lemma sound_set_global env f : sound (SetGlobalNodeFilter env f) (λ _, True).
Proof. unfold SetGlobalNodeFilter. sound_ops. Qed.

Lemma sound_revisions_create env parent state : sound (revisions_Create env parent state) (λ _, True).
Proof.
  unfold revisions_Create. sound_ops; try apply sound_current_digest; try apply sound_revision_id;
    by apply sound_create_revision.
Qed.
Lemma sound_revisions_ensure env : sound (revisions_EnsureActive env) (λ _, True).
Proof.
  unfold revisions_EnsureActive. sound_ops; try apply sound_current_digest; try apply sound_revision_id;
    by apply sound_create_revision.
Qed.
Lemma sound_review env id : sound (Review env id) (λ _, True).
Proof. unfold Review, loadDetail. sound_ops. Qed.
Lemma sound_activate env id : sound (Activate env id) (λ _, True).
Proof. unfold Activate, draft_graph. sound_ops. apply sound_edges_of. Qed.
Lemma sound_rollback env id v : sound (Rollback env id v) (λ _, True).
Proof. unfold Rollback. sound_ops. Qed.

Lemma sound_discard {A} (p : proc PolicyTables A) : sound p (λ _, True) → sound (discard p) (λ _, True).
Proof. intros Hp. unfold discard. eapply sound_bind; [done|]. intros. by apply sound_give. Qed.

Lemma sound_policy env r : sound (policy_handle env r) (λ _, True).
Proof.
  destruct r; cbn [policy_handle]; try apply sound_discard;
    [apply sound_create_group|apply sound_update_group|apply sound_delete|apply sound_set_group_edges
    |apply sound_admission_rule|apply sound_policy_rule|apply sound_delete_rules|apply sound_ensure
    |apply sound_create_revision_request|apply sound_set_global].
Qed.
Lemma sound_revision env r : sound (revision_handle env r) (λ _, True).
Proof.
  destruct r; cbn [revision_handle]; try apply sound_discard;
    [apply sound_revisions_create|apply sound_revisions_ensure|apply sound_review|apply sound_activate
    |apply sound_rollback].
Qed.

(** ** Any interleaving *)

Definition policy_started (p : proc PolicyTables unit) : Prop :=
  ∃ env, (∃ r, p = policy_handle env r) ∨ (∃ r, p = revision_handle env r).
Definition policy_reachable (σ : system PolicyTables unit) : Prop :=
  sys_steps policy_started {| store := empty_policy; threads := [] |} σ.

Lemma empty_policy_inv : policy_inv empty_policy.
Proof.
  split; simpl; try apply map_Forall_empty; try done; intros id; by rewrite !lookup_empty.
Qed.

Lemma started_safe p s :
  policy_started p → policy_inv s → safe policy_inv policy_evolves p (λ _ _, True) s.
Proof.
  intros (env & [(r & ->)|(r & ->)]) Hi.
  - eapply safe_impl; [by apply sound_policy|done].
  - eapply safe_impl; [by apply sound_revision|done].
Qed.

Definition policy_system_ok : system PolicyTables unit → Prop :=
  system_ok policy_inv policy_evolves (λ _ _, True).

Lemma system_later σ σ' :
  policy_system_ok σ → sys_steps policy_started σ σ' →
  policy_system_ok σ' ∧ policy_evolves (store σ) (store σ').
Proof.
  intros Hok Hs.
  exact (system_safe policy_inv policy_evolves policy_started (λ _ _, True) _ _ started_safe Hs Hok).
Qed.

Lemma policy_reachable_ok σ : policy_reachable σ → policy_system_ok σ.
Proof. intros Hr. eapply system_later; [|exact Hr]. split; [apply empty_policy_inv|done]. Qed.

Lemma policy_later σ σ' :
  policy_reachable σ → sys_steps policy_started σ σ' →
  policy_inv (store σ') ∧ policy_evolves (store σ) (store σ').
Proof.
  intros Hr Hs. destruct (system_later σ σ' (policy_reachable_ok σ Hr) Hs) as [[Hi _] Hev]. done.
Qed.

(** One more request, run alone. *)
Lemma reachable_policy env r s ts :
  policy_reachable {| store := s; threads := ts |} →
  policy_reachable {| store := (run (policy_handle env r) s).2;
                      threads := ts ++ [Done (run (policy_handle env r) s).1] |}.
Proof. intros Hr. unfold policy_reachable, sys_steps in *. etrans; [exact Hr|]. apply run_steps. exists env. eauto. Qed.
Lemma reachable_revision env r s ts :
  policy_reachable {| store := s; threads := ts |} →
  policy_reachable {| store := (run (revision_handle env r) s).2;
                      threads := ts ++ [Done (run (revision_handle env r) s).1] |}.
Proof. intros Hr. unfold policy_reachable, sys_steps in *. etrans; [exact Hr|]. apply run_steps. exists env. eauto. Qed.

Lemma policy_reachable_inv σ : policy_reachable σ → policy_inv (store σ).
Proof. intros Hr. by apply (policy_later σ σ Hr (rtc_refl _ _)). Qed.

End Invariant.

(** ** Databases with a history *)

Section History.
Context `{GoText} `{RegexEngine} `{Sha256} `{ConfigJSON} `{TableOrder}.

(** The revisions of [s] without a snapshot. *)
Definition lacking (s : PolicyTables) : gset string := dom (pl_revisions s) ∖ dom (pl_snapshots s).

(** Tables that an installation can have when it starts: [policy_inv], with the revisions that
    lack a snapshot as its history. *)
Definition well_formed (s : PolicyTables) : Prop := policy_inv (H4 := lacking s) s.

(** C13. Whatever requests of the policy service and of the revision service run, in
    any interleaving, on tables that are well formed at the start, the empty ones among
    them: every stored group is well formed and so is each of its sources, every reference
    of a source and every routing rule has its target, at most one revision is active, and
    every revision has a snapshot of the graph whose digest it carries, except a revision
    that already had none at the start: one from before revisions had snapshots. *)
Theorem policy_tables_consistent s0 σ :
  well_formed s0 → sys_steps policy_started {| store := s0; threads := [] |} σ →
  let s := store σ in
  (∀ id g, pl_groups s !! id = Some g →
     group_id g = id ∧ validate_group (sg_Group g) = Ok tt ∧
     ∀ x, x ∈ grp_Sources (sg_Group g) → ValidateMemberSource x = Ok tt ∧
       ∀ t, src_TargetGroupID x = Some t → is_Some (pl_groups s !! t)) ∧
  (∀ id r, pl_rules s !! id = Some r → is_Some (pl_groups s !! rule_TargetGroupID r.2)) ∧
  (∀ id1 id2 r1 r2, pl_revisions s !! id1 = Some r1 → pl_revisions s !! id2 = Some r2 →
     rv_State r1 = RevisionActive → rv_State r2 = RevisionActive → id1 = id2) ∧
  (∀ id r, pl_revisions s !! id = Some r →
     (∃ l, pl_snapshots s !! id = Some l ∧ rv_ContentDigest r = graph_digest l) ∨
     (is_Some (pl_revisions s0 !! id) ∧ pl_snapshots s0 !! id = None)).
Proof.
  intros Hw Hst. assert (policy_inv (H4 := lacking s0) (store σ)) as Hi.
  { eapply (system_later (H4 := lacking s0)) in Hst as [[Hi _] _]; [exact Hi|]. by split. }
  simpl. split; [|split; [|split]].
  - intros id g Hg. destruct (inv_rows _ Hi _ _ Hg) as (Hid & Hwf & _). split; [done|].
    split; [apply Hwf|]. intros x Hx. pose proof (gwf_sources _ Hwf) as Hs.
    rewrite Forall_forall in Hs. split; [by apply Hs|]. intros t Ht.
    pose proof (inv_closed _ Hi _ _ Hg) as Hc. rewrite Forall_forall in Hc. specialize (Hc x Hx).
    unfold target_ok in Hc. rewrite Ht in Hc. by apply bool_decide_eq_true in Hc.
  - intros id r Hl. by apply (inv_rules _ Hi _ _ Hl).
  - intros id1 id2 r1 r2 Hl1 Hl2 Ha1 Ha2. eapply (inv_active _ Hi); [exact Hl1|exact Hl2| |];
      unfold is_active; by apply String.eqb_eq.
  - intros id r Hr. destruct (decide (id ∈ lacking s0)) as [Hin|Hout].
    + right. unfold lacking in Hin. by rewrite elem_of_difference, elem_of_dom, not_elem_of_dom in Hin.
    + left. destruct (inv_captured _ Hi id) as [l Hl]; [by eexists|done|].
      exists l. split; [done|]. by eapply (inv_digest _ Hi).
Qed.
End History.

(** ** The sample policy *)

Section Witness.
#[local] Existing Instance ascii_text.
#[local] Existing Instance witness_engine.
#[local] Existing Instance sample_sha.
#[local] Existing Instance sample_json.
#[local] Existing Instance sample_order.

Lemma sample_reachable : ∃ ts, policy_reachable {| store := sample_members; threads := ts |}.
Proof.
  eexists. unfold sample_members. apply reachable_policy. apply reachable_policy. apply rtc_refl.
Qed.

(** A database with one revision from before revisions had snapshots. *)
Definition old_revision : RevisionRow :=
  {| rv_ID := "old"; rv_ParentID := None; rv_ContentDigest := "digest-of-old"; rv_State := RevisionActive;
     rv_CreatedAt := 0 |}.
Definition old_policy : PolicyTables := with_revisions {["old" := old_revision]} ∅ empty_policy.

Lemma old_policy_well_formed : well_formed old_policy.
Proof.
  split; simpl; try apply map_Forall_empty; try done.
  - by apply map_Forall_singleton.
  - intros id1 id2 r1 r2 [<- _]%lookup_singleton_Some [<- _]%lookup_singleton_Some. done.
  - intros id [x Hx]. by rewrite lookup_empty in Hx.
  - intros id <-%lookup_singleton_is_Some Hn. destruct Hn. unfold historical, lacking. simpl. set_solver.
Qed.

Definition old_groups : PolicyTables :=
  (run (policy_handle (sample_env "b" 0) (PCreateGroup (group_command gid_b "B" [member gid_a])))
    (run (policy_handle (sample_env "a" 0) (PCreateGroup (group_command gid_a "A" []))) old_policy).2).2.

Lemma old_steps : ∃ ts,
  sys_steps policy_started {| store := old_policy; threads := [] |} {| store := old_groups; threads := ts |}.
Proof.
  eexists. etrans; [eapply (run_steps policy_started _ old_policy []); eexists; left; eexists; reflexivity|].
  eapply (run_steps policy_started); eexists; left; eexists; reflexivity.
Qed.

Lemma policy_tables_consistent_witness :
  ∃ g r, pl_groups old_groups !! gid_b = Some g ∧ group_id g = gid_b ∧
    (∀ x t, x ∈ grp_Sources (sg_Group g) → src_TargetGroupID x = Some t → is_Some (pl_groups old_groups !! t)) ∧
    pl_revisions old_groups !! "old" = Some r ∧ pl_snapshots old_groups !! "old" = None.
Proof.
  destruct old_steps as [ts Hst]. do 2 eexists. split; [vm_compute; reflexivity|].
  destruct (proj1 (policy_tables_consistent old_policy _ old_policy_well_formed Hst) gid_b _
    ltac:(vm_compute; reflexivity)) as (Hid & _ & Hx).
  split; [exact Hid|]. split; [intros x t Hin; by apply Hx|]. split; vm_compute; reflexivity.
Defined.
End Witness.
