(* ===== verification/PolicyGraphProperties.v ===== *)
(** * What the administration of the policy graph guarantees

    Requests that run one after the other keep the graph free of cycles, so that the
    validation with which the resolver starts accepts what is stored.  A rollback
    restores what was captured, and a revision is activated on the graph it captured
    only.  The last section shows what goes wrong when the two services race, and other
    deviations. *)

From S2P Require Import Prelude.
From S2P Require Import GoStrings.
From S2P Require Import Domain.
From S2P Require Import Lifecycle.
From S2P Require Import NodeFilter.
From S2P Require Import Policy.
From S2P Require Import Services.
From S2P Require Import Requests.
From S2P Require Import PolicyStore.
From S2P Require Import PolicyService.
From S2P Require Import PolicyInvariant.

#[local] Existing Instance no_history.

(** ** The graph of the tables *)

Section Graph.
Context `{GoText} `{RegexEngine}.

Definition child (m : gmap string StoredGroup) (y x : string) : Prop :=
  ∃ g s, m !! x = Some g ∧ s ∈ grp_Sources (sg_Group g) ∧ source_target s = Some y.
Definition acyclic (m : gmap string StoredGroup) : Prop := ∀ x, Acc (child m) x.

Lemma acyclic_empty : acyclic ∅.
Proof. intros x. constructor. intros y (g & s & Hg & _). by rewrite lookup_empty in Hg. Qed.

Lemma Acc_mono {A} (R R' : A → A → Prop) x : (∀ y z, R' z y → R z y) → Acc R x → Acc R' x.
Proof. intros Hsub. induction 1 as [x _ IH]. constructor. intros y Hy. by apply IH, Hsub. Qed.

Lemma acyclic_mono m m' : (∀ x y, child m' y x → child m y x) → acyclic m → acyclic m'.
Proof. intros Hsub Hm x. by eapply Acc_mono. Qed.

Lemma acyclic_delete m id : acyclic m → acyclic (delete id m).
Proof.
  apply acyclic_mono. intros x y (g & s & Hg & Hs). apply lookup_delete_Some in Hg as [_ Hg].
  by exists g, s.
Qed.

(** A table whose references are among those of a validated graph. *)
Lemma acyclic_validated m groups edges rules req :
  topology groups edges rules req = Ok tt →
  (∀ x y, child m y x → child_of groups edges y x) →
  (∀ x, is_Some (m !! x) → ∃ g, g ∈ groups ∧ grp_ID g = x) → acyclic m.
Proof.
  intros (adj & _ & Hacc & _)%topology_adjacency%validated_topology Hsub Hkeys x.
  destruct (m !! x) as [g|] eqn:Hx.
  - destruct (Hkeys x) as (g' & Hg' & <-); [by eexists|]. eapply Acc_mono; [exact Hsub|]. by apply Hacc.
  - constructor. intros y (g & s & Hg & _). by rewrite Hx in Hg.
Qed.

(** The converse of [validated_topology]: a well-formed graph without cycles passes. *)
Lemma fold_res_total {E A B} (f : B → A → result E B) b l :
  (∀ b x, x ∈ l → is_ok (f b x) = true) → ∃ b', fold_res f b l = Ok b'.
Proof.
  revert b. induction l as [|x l IH]; intros b Hf; simpl; [by eexists|].
  pose proof (Hf b x ltac:(set_solver)) as Hx. destruct (f b x) as [b1|]; [|done].
  apply IH. intros b2 y Hy. apply Hf. set_solver.
Qed.

Lemma topology_complete groups rules req :
  (∀ g, g ∈ groups → validate_group g = Ok tt) →
  (∀ g s, g ∈ groups → s ∈ grp_Sources g → ValidateMemberSource s = Ok tt ∧
     ∀ c, source_target s = Some c → c ≠ grp_ID g ∧ c ∈ group_set groups) →
  (∀ g, g ∈ groups → Acc (child_of groups []) (grp_ID g)) →
  ValidatePolicyRules rules (group_set groups) req = Ok tt →
  ValidatePolicyTopology groups [] rules req = Some (Ok tt).
Proof.
  intros Hg Hs Hacc Hr. unfold ValidatePolicyTopology.
  assert (∃ adj, build_adjacency groups [] = Ok adj) as [adj Hb].
  { unfold build_adjacency. rewrite (proj2 (for_each_ok validate_group groups) Hg). simpl.
    apply fold_res_total. intros a g Hin. unfold add_sources.
    destruct (fold_res_total (add_source (group_set groups) (grp_ID g)) a (grp_Sources g)) as [b ->]; [|done].
    intros b s Hsrc. destruct (Hs g s Hin Hsrc) as [Hv Hc]. unfold add_source. rewrite Hv.
    destruct (source_target s) as [c|]; [|done].
    by rewrite (proj2 (check_reference_ok _ _ _) (Hc c eq_refl)). }
  rewrite Hb. destruct (search_outcome _ _ _ Hb) as [(st & -> & _)|(e & _ & Hc & _)]; [by rewrite Hr|].
  exfalso. pose proof (build_adjacency_sound _ _ _ Hb) as Hsound.
  destruct (err_CyclePath e) as [|x [|y l]];
    [by destruct Hc as (? & ? & _); simpl in *; lia..|].
  pose proof (proj1 (proj1 Hc)) as Hyx. assert (x ∈ group_set groups) as Hx by apply (Hsound _ _ Hyx).
  unfold group_set in Hx. apply elem_of_list_to_set, list_elem_of_fmap in Hx as (g & -> & Hin).
  assert (Acc (refers adj) (grp_ID g)) as Ha.
  { eapply Acc_mono; [|by apply Hacc]. intros y' z Hz. by apply Hsound in Hz as (_ & _ & _ & ?). }
  by eapply (cycle_not_Acc _ _ _ Hc eq_refl).
Qed.
End Graph.

(** ** One write *)

Section Writes.
Context `{GoText} `{RegexEngine} `{Sha256} `{ConfigJSON} `{TableOrder}.

Lemma stored_target s : source_target (stored_source s) = source_target s.
Proof.
  unfold source_target, stored_source, MemberSourceKind_Normalize, stored_ptr. simpl.
  unfold has_ptr. destruct (String.eqb (deref (src_TargetGroupID s)) "") eqn:E; simpl; [|by rewrite E].
  by rewrite !andb_false_r.
Qed.

(** The references of the row that is written are those of the sources given. *)
Lemma written_child env group expected l s a s' x y :
  write_group env group expected (number_sources l) s = Ok (a, s') → child (pl_groups s') y x →
  x = grp_ID group ∧ (∃ s0, s0 ∈ l ∧ source_target s0 = Some y) ∨
  x ≠ grp_ID group ∧ child (pl_groups s) y x.
Proof.
  intros (rev & saved & _ & Hid & -> & _ & _)%write_group_spec (g & src & Hg & Hs & Ht).
  simpl in Hg. rewrite lookup_insert in Hg. destruct (decide (grp_ID group = x)) as [<-|Hne].
  - left. split; [done|]. injection Hg as <-. simpl in Hs.
    apply list_elem_of_fmap in Hs as (s1 & -> & Hs1). rewrite stored_target in Ht.
    apply list_elem_of_lookup in Hs1 as [k Hk].
    destruct (Forall2_lookup_r _ _ _ _ _ (identify_spec _ _ _ _ _ Hid) Hk) as (s2 & Hs2 & k' & id & -> & _).
    unfold number_sources in Hs2. rewrite list_lookup_imap in Hs2.
    destruct (l !! k) as [s0|] eqn:Hl; [|done]. injection Hs2 as <-.
    exists s0. split; [by eapply list_elem_of_lookup_2|done].
  - right. split; [done|]. by exists g, src.
Qed.

Lemma written_key env group expected l s a s' x :
  write_group env group expected l s = Ok (a, s') → is_Some (pl_groups s' !! x) →
  x = grp_ID group ∨ is_Some (pl_groups s !! x).
Proof.
  intros (rev & saved & _ & _ & -> & _)%write_group_spec. simpl.
  rewrite lookup_insert_is_Some'. intros [->|?]; auto.
Qed.

(** The edges of a legacy edit bound its references. *)
Lemma edges_sources_targets gid i edges out s y :
  edges_to_sources gid i edges = Ok out → s ∈ out → source_target s = Some y →
  ∃ e, e ∈ edges ∧ has_ptr (edge_ChildGroupID e) = true ∧ y = deref (edge_ChildGroupID e).
Proof.
  revert i out. induction edges as [|e edges IH]; intros i out; simpl.
  { intros [= <-] Hs. by apply elem_of_nil in Hs. }
  destruct (ValidateGroupEdge _); [|done]. destruct (edges_to_sources _ _ edges) as [rest|] eqn:Hr; [|done].
  intros [= <-] [->|Hs]%elem_of_cons Ht.
  - exists e. split; [set_solver|]. unfold source_target, edge_source in Ht. simpl in Ht.
    destruct (has_ptr (edge_ChildGroupID e)) eqn:Hp; [|by rewrite andb_false_r in Ht].
    split; [done|]. destruct (_ && _); [|done]. by rewrite Ht.
  - destruct (IH _ _ Hr Hs Ht) as (e' & He' & Hp). exists e'. split; [set_solver|done].
Qed.

Lemma filter_targets gid f l out s y :
  apply_filter gid f l = Ok out → s ∈ out → source_target s = Some y →
  ∃ s0, s0 ∈ l ∧ source_target s0 = Some y.
Proof.
  unfold apply_filter. destruct (NodeFilterSpec_Validate f); [|done].
  destruct (_ && _); intros [= <-].
  - intros ->%list_elem_of_singleton. done.
  - intros (s0 & -> & Hs0)%list_elem_of_fmap Ht. exists s0. split; [|done].
    apply list_elem_of_In, filter_In in Hs0 as [Hs0 _]. by apply list_elem_of_In.
Qed.

Lemma edit_targets gid current edges change f out s y :
  EditLegacySources gid current (Some edges) change f = Ok out → s ∈ out → source_target s = Some y →
  ∃ e, e ∈ edges ∧ has_ptr (edge_ChildGroupID e) = true ∧ y = deref (edge_ChildGroupID e).
Proof.
  unfold EditLegacySources. destruct (reject_if _ _); [|done].
  destruct (edges_to_sources gid 0 edges) as [out'|] eqn:He; [|done]. intros Ho Hs Ht.
  assert (∃ s0, s0 ∈ out' ∧ source_target s0 = Some y) as (s0 & Hs0 & Ht0).
  { destruct current; [destruct change|destruct change]; try (by eapply filter_targets).
    injection Ho as ->. by exists s. }
  by eapply edges_sources_targets.
Qed.
End Writes.

(** ** Requests that run alone

    [quiet p P s]: run alone from [s], [p] leaves the groups, the routing rules and the
    global filter as they are, and what it returns satisfies [P].  [settles p s]: it leaves a graph
    without cycles, acceptable rules and a valid filter. *)

Section Serial.
Context `{GoText} `{RegexEngine} `{Sha256} `{ConfigJSON} `{TableOrder}.

Definition same_graph (s s' : PolicyTables) : Prop :=
  pl_groups s' = pl_groups s ∧ pl_rules s' = pl_rules s ∧ pl_filter s' = pl_filter s.
#[local] Instance same_graph_preorder : PreOrder same_graph.
Proof. split; [done|]. intros s1 s2 s3 (Ha1 & Hb1 & Hc1) (Ha2 & Hb2 & Hc2). by split_and!; etrans. Qed.

Definition quiet {A} (p : proc PolicyTables A) (P : A → Prop) (s : PolicyTables) : Prop :=
  wp (run p) (λ r s', same_graph s s' ∧ match r with Ok a => P a | Err _ => True end) s.

Definition settled (s : PolicyTables) : Prop :=
  acyclic (pl_groups s) ∧ (∀ rev, ValidatePolicyRules (rules_of s rev) ∅ false = Ok tt) ∧
  NodeFilterSpec_Validate (Some (pl_filter s)) = Ok tt.
Definition settles {A} (p : proc PolicyTables A) (s : PolicyTables) : Prop :=
  wp (run p) (λ _ s', settled s') s.

Lemma same_settled s s' : same_graph s s' → settled s → settled s'.
Proof.
  intros (Hg & Hr & Hf) (Ha & Hv & Hs). unfold settled, rules_of. by rewrite Hg, Hr, Hf.
Qed.

Lemma quiet_give {A} (a : A) (P : A → Prop) s : P a → quiet (give a) P s.
Proof. done. Qed.
Lemma quiet_stop {A} e (P : A → Prop) s : quiet (stop e) P s.
Proof. done. Qed.

Lemma quiet_bind {A B} (p : proc PolicyTables A) (k : A → proc PolicyTables B) P Q s :
  quiet p P s → (∀ a s1, same_graph s s1 → P a → quiet (k a) Q s1) → quiet (pbind p k) Q s.
Proof.
  unfold quiet, wp. rewrite run_bind. destruct (run p s) as [[a|e] s1]; simpl; [|done].
  intros [Hs HP] Hk. destruct (Hk a s1 Hs HP) as [Hs2 HQ]. split; [by etrans|done].
Qed.

Lemma quiet_attempt {A} (p : proc PolicyTables A) P s :
  quiet p P s → quiet (attempt p) (λ r, match r with Ok a => P a | Err _ => True end) s.
Proof. unfold quiet, wp. by rewrite run_attempt. Qed.

Lemma quiet_mono {A} (p : proc PolicyTables A) (P Q : A → Prop) s :
  quiet p P s → (∀ a, P a → Q a) → quiet p Q s.
Proof. unfold quiet, wp. destruct (run p s) as [[a|e] s1]; simpl; naive_solver. Qed.

Lemma quiet_step {A} (c : M PolicyTables A) (P : A → Prop) s :
  wp c (λ r s', same_graph s s' ∧ match r with Ok a => P a | Err _ => True end) s → quiet (step c) P s.
Proof. unfold quiet, wp. by rewrite run_step. Qed.

Lemma quiet_query {A} env label (f : PolicyTables → result error A) (P : A → Prop) s :
  (∀ a, f s = Ok a → P a) → quiet (step (query env label f)) P s.
Proof.
  intros Hf. apply quiet_step, wp_query; intros; (split; [done|]); [done|].
  destruct (f s); auto.
Qed.

Lemma quiet_write {A} env label (f : PolicyTables → result error (A * PolicyTables)) s :
  (∀ a s', f s = Ok (a, s') → same_graph s s') → quiet (step (statement env label f)) (λ _, True) s.
Proof.
  intros Hf. apply quiet_step, wp_statement; intros; [done|].
  destruct (f s) as [[a s']|e] eqn:E; [|done]. split; [by eapply Hf|done].
Qed.

Lemma quiet_lift {A} (r : result DomainError A) (P : A → Prop) s :
  (∀ a, r = Ok a → P a) → quiet (step (lift r)) P s.
Proof. intros HP. apply quiet_step, wp_lift. destruct r; (split; [done|]); auto. Qed.

Lemma quiet_record env op ok (P : unit → Prop) s : P tt → quiet (record env op ok) P s.
Proof. intros HP. apply quiet_step, wp_record; [done|]. by intros t. Qed.

Lemma quiet_checked {A} env op (r : result DomainError A) (P : A → Prop) s :
  (∀ a, r = Ok a → P a) → quiet (checked env op r) P s.
Proof.
  intros HP. unfold checked. destruct r as [a|e]; [by apply quiet_give, HP|].
  apply (quiet_bind _ _ (λ _, True)); [by apply quiet_record|]. intros. apply quiet_stop.
Qed.

Lemma quiet_trying {A} env op (p : proc PolicyTables A) P s :
  quiet p P s → quiet (trying env op p) P s.
Proof.
  intros Hp. unfold trying. eapply quiet_bind; [by apply quiet_attempt|].
  intros [a|e] s1 _ Ha; [by apply quiet_give|].
  apply (quiet_bind _ _ (λ _, True)); [by apply quiet_record|]. intros. apply quiet_stop.
Qed.

Lemma quiet_refuse env op b code s : quiet (refuse env op b code) (λ _, b = false) s.
Proof. apply quiet_checked. by destruct b. Qed.
Lemma quiet_refuse_if b e s : quiet (refuse_if b e) (λ _, b = false) s.
Proof. unfold refuse_if. destruct b; [apply quiet_stop|by apply quiet_give]. Qed.
Lemma quiet_targets env edges s : quiet (validateNodeTargets env edges) (λ _, True) s.
Proof. unfold validateNodeTargets. by destruct (for_each _ _). Qed.
Lemma quiet_weak {A} (p : proc PolicyTables A) P s : quiet p P s → quiet p (λ _, True) s.
Proof. intros Hp. by eapply quiet_mono. Qed.

(** A request settles if its quiet part is followed by one that does. *)
Lemma settles_bind {A B} (p : proc PolicyTables A) (k : A → proc PolicyTables B) P s :
  settled s → quiet p P s → (∀ a s1, same_graph s s1 → P a → settled s1 → settles (k a) s1) →
  settles (pbind p k) s.
Proof.
  unfold settles, quiet, wp. rewrite run_bind. destruct (run p s) as [[a|e] s1]; simpl.
  - intros Hs [Hg HP] Hk. apply Hk; [done..|]. by eapply same_settled.
  - intros Hs [Hg _] _. by eapply same_settled.
Qed.

Lemma settles_then {A B} (p : proc PolicyTables A) (k : A → proc PolicyTables B) s :
  settles p s → (∀ a s1, settled s1 → settles (k a) s1) → settles (pbind p k) s.
Proof.
  unfold settles, wp. rewrite run_bind. destruct (run p s) as [[a|e] s1]; simpl; auto.
Qed.

Lemma settles_quiet {A} (p : proc PolicyTables A) P s : settled s → quiet p P s → settles p s.
Proof. intros Hs [Hg _]. by eapply same_settled. Qed.

Lemma settles_attempt {A} (p : proc PolicyTables A) s : settles p s → settles (attempt p) s.
Proof. unfold settles, wp. by rewrite run_attempt. Qed.

Lemma settles_trying {A} env op (p : proc PolicyTables A) s : settles p s → settles (trying env op p) s.
Proof.
  intros Hp. apply settles_then; [by apply settles_attempt|]. intros [a|e] s1 Hs.
  - by eapply settles_quiet, (quiet_give _ (λ _, True)).
  - eapply settles_quiet; [done|]. eapply quiet_bind; [by apply (quiet_record _ _ _ (λ _, True))|].
    intros. by apply (quiet_stop _ (λ _, True)).
Qed.

Lemma settles_step {A} (c : M PolicyTables A) s : wp c (λ _ s', settled s') s → settles (step c) s.
Proof. unfold settles, wp. by rewrite run_step. Qed.

Lemma settles_write {A} env label (f : PolicyTables → result error (A * PolicyTables)) s :
  settled s → (∀ a s', f s = Ok (a, s') → settled s') → settles (step (statement env label f)) s.
Proof.
  intros Hs Hf. apply settles_step, wp_statement; [done|]. intros _.
  destruct (f s) as [[a s']|e] eqn:E; [by eapply Hf|done].
Qed.

Lemma settles_record env op ok s : settled s → settles (record env op ok) s.
Proof. intros Hs. by eapply settles_quiet, (quiet_record _ _ _ (λ _, True)). Qed.
Lemma settles_tail {A} env op ok (a : A) s : settled s → settles (record env op ok ;;@ give a) s.
Proof.
  intros Hs. apply settles_then; [by apply settles_record|]. intros. by eapply settles_quiet, (quiet_give _ (λ _, True)).
Qed.

(** ** What the operations read *)

(** The two reads of groups, whatever they answer. *)
Lemma quiet_get_any env id s : quiet (policies_GetGroupByID env id) (λ _, True) s.
Proof.
  apply (quiet_bind _ _ (λ _, True)); [by apply quiet_query|]. intros row s1 _ _.
  apply (quiet_bind _ _ (λ _, True)); [by apply quiet_query|]. intros l s2 _ _. by apply quiet_give.
Qed.
Lemma quiet_list_any env s : quiet (policies_ListGroups env) (λ _, True) s.
Proof.
  apply (quiet_bind _ _ (λ _, True)); [by apply quiet_query|]. intros row s1 _ _.
  apply (quiet_bind _ _ (λ _, True)); [by apply quiet_query|]. intros l s2 _ _. by apply quiet_give.
Qed.

Ltac quiet_leaf :=
  first
    [ apply quiet_record; done | apply quiet_get_any | apply quiet_list_any | apply quiet_targets | apply quiet_refuse | apply quiet_refuse_if
    | apply (quiet_query _ _ _ (λ _, True)); done ].
Ltac quiet_ops :=
  repeat first
    [ progress intros
    | match goal with
      | |- quiet (pbind _ _) _ _ =>
          first [ eapply quiet_bind; [quiet_leaf|]
                | eapply quiet_bind; [apply quiet_trying; quiet_leaf|]
                | apply (quiet_bind _ _ (λ _, True)) ]
      | |- quiet (give _) _ _ => apply quiet_give; done
      | |- quiet (stop _) _ _ => apply quiet_stop
      | |- quiet (reject _) _ _ => apply quiet_stop
      | |- quiet (checked _ _ _) _ _ => apply quiet_checked; done
      | |- quiet (trying _ _ _) _ _ => apply quiet_trying
      | |- quiet (attempt _) _ _ => eapply quiet_weak, quiet_attempt
      | |- quiet (match ?x with _ => _ end) _ _ => destruct x eqn:?
      | |- quiet (refuse _ _ _ _) _ _ => eapply quiet_weak, quiet_refuse
      | |- quiet _ _ _ => quiet_leaf
      end ].

Lemma quiet_edge_inputs env gid i l onfail s :
  (∀ s, quiet onfail (λ _, True) s) → quiet (edge_inputs env gid i l onfail) (λ _, True) s.
Proof. intros Hf. revert i s. induction l as [|e l IH]; intros i s; cbn [edge_inputs]; quiet_ops; auto. Qed.

Lemma quiet_edges_of env l s : quiet (edges_of_groups env l) (λ _, True) s.
Proof. revert s. induction l as [|g l IH]; intros s; cbn [edges_of_groups]; quiet_ops; auto. Qed.

Lemma same_revisions m snaps s : same_graph s (with_revisions m snaps s).
Proof. done. Qed.

Lemma quiet_new_revision r s s1 s2 :
  insert_revision r s = Ok s1 → CapturePolicyRevisionSnapshot (rv_ID r) s1 = Ok s2 → same_graph s s2.
Proof.
  unfold insert_revision, CapturePolicyRevisionSnapshot. intros Hi Hc.
  repeat case_match; simplify_eq; done.
Qed.
Lemma quiet_set_active_revision id s s' : setActiveRevision id s = Ok s' → same_graph s s'.
Proof. unfold setActiveRevision. intros Ha. repeat case_match; simplify_eq; done. Qed.

Lemma quiet_revision_create env r s : quiet (step (revision_Create env r)) (λ _, True) s.
Proof.
  apply quiet_write. intros d s'. destruct (insert_revision _ _) as [s1|] eqn:Hi; [|done].
  destruct (CapturePolicyRevisionSnapshot _ _) as [s2|] eqn:Hc; [|done].
  destruct (digest_row _ _); [|done]. intros [= _ <-]. by eapply quiet_new_revision.
Qed.
Lemma quiet_revision_create_active env r s : quiet (step (revision_CreateActive env r)) (λ _, True) s.
Proof.
  apply quiet_write. intros d s'. destruct (insert_revision _ _) as [s1|] eqn:Hi; [|done].
  destruct (CapturePolicyRevisionSnapshot _ _) as [s2|] eqn:Hc; [|done].
  destruct (digest_row _ _); [|done]. destruct (setActiveRevision _ _) as [s3|] eqn:Ha; [|done].
  intros [= _ <-]. etrans; [by eapply (quiet_new_revision (set_state _ r))|].
  by eapply quiet_set_active_revision.
Qed.
Lemma quiet_revision_set_active env id s : quiet (step (revision_SetActive env id)) (λ _, True) s.
Proof.
  apply quiet_write. intros [] s'. destruct (setActiveRevision _ _) as [s3|] eqn:Ha; [|done].
  intros [= <-]. by eapply quiet_set_active_revision.
Qed.

Lemma quiet_current_digest env s : quiet (current_digest env) (λ _, True) s.
Proof. unfold current_digest. quiet_ops. apply quiet_edges_of. Qed.
Lemma quiet_revision_id env s : quiet (new_revision_id env) (λ _, True) s.
Proof. unfold new_revision_id. quiet_ops. Qed.
Lemma quiet_ensure env s : quiet (ensureActiveRevisionLocked env) (λ _, True) s.
Proof.
  unfold ensureActiveRevisionLocked, bootstrapActiveRevisionLocked.
  quiet_ops; try apply quiet_current_digest; try apply quiet_revision_id; apply quiet_revision_create_active.
Qed.
Lemma quiet_rule_id env given s : quiet (rule_id env given) (λ _, True) s.
Proof. unfold rule_id. quiet_ops. Qed.
Lemma quiet_rule_revision env given s : quiet (rule_revision env given) (λ _, True) s.
Proof. unfold rule_revision. quiet_ops. apply quiet_ensure. Qed.

(** ** The global filter, and requests that write none of the three *)

Lemma quiet_create_revision env parent state s : quiet (CreateRevision env parent state) (λ _, True) s.
Proof.
  unfold CreateRevision. quiet_ops; try apply quiet_current_digest; try apply quiet_revision_id;
    [apply quiet_revision_create_active|apply quiet_revision_create].
Qed.
Lemma quiet_admission_rule env cmd s : quiet (CreateAdmissionRule env cmd) (λ _, True) s.
Proof.
  unfold CreateAdmissionRule. quiet_ops; try apply quiet_rule_id; try apply quiet_rule_revision.
  apply quiet_write. intros ? ? Hw. repeat case_match; simplify_eq; done.
Qed.
Lemma settles_set_global env f s : settled s → settles (SetGlobalNodeFilter env f) s.
Proof.
  intros Hs. unfold SetGlobalNodeFilter.
  eapply settles_bind; [done|by apply (quiet_checked _ _ _ (λ _, True))|]. intros _ s1 _ _ Hd1.
  apply settles_then.
  - apply settles_trying, settles_step. unfold filters_SetGlobalFilter. apply wp_bind, wp_lift.
    destruct (NodeFilterSpec_Validate (Some f)) as [[]|] eqn:Hf; [|done].
    apply wp_statement; [done|]. intros _. destruct Hd1 as (Ha & Hr & _). done.
  - intros. by apply settles_tail.
Qed.
Lemma quiet_revisions_create env parent state s : quiet (revisions_Create env parent state) (λ _, True) s.
Proof.
  unfold revisions_Create. quiet_ops; try apply quiet_current_digest; try apply quiet_revision_id;
    first [apply quiet_revision_create|apply quiet_revision_set_active].
Qed.
Lemma quiet_revisions_ensure env s : quiet (revisions_EnsureActive env) (λ _, True) s.
Proof.
  unfold revisions_EnsureActive. quiet_ops; try apply quiet_current_digest; try apply quiet_revision_id;
    first [apply quiet_revision_create|apply quiet_revision_set_active].
Qed.
Lemma quiet_review env id s : quiet (Review env id) (λ _, True) s.
Proof. unfold Review, loadDetail. quiet_ops. Qed.
Lemma quiet_activate env id s : quiet (Activate env id) (λ _, True) s.
Proof.
  unfold Activate, draft_graph. quiet_ops; first [apply quiet_edges_of|apply quiet_revision_set_active].
Qed.
(** ** Requests that write groups or routing rules *)

Lemma elem_list_groups s g : g ∈ list_groups s ↔ ∃ id, pl_groups s !! id = Some g.
Proof.
  unfold list_groups. rewrite elem_of_sort_stable. split.
  - intros ([id g'] & -> & Hin)%list_elem_of_fmap. exists id. by apply elem_of_map_to_list in Hin.
  - intros [id Hg]. apply list_elem_of_fmap. exists (id, g). split; [done|]. by apply elem_of_map_to_list.
Qed.

(** The part of the invariant that the writes need. *)
Definition keyed (s : PolicyTables) : Prop := map_Forall (λ id g, group_id g = id) (pl_groups s).
Lemma inv_keyed s : policy_inv s → keyed s.
Proof. intros Hi. eapply map_Forall_impl; [apply Hi|]. by intros id g [? _]. Qed.
Lemma same_keyed s s1 : same_graph s s1 → keyed s → keyed s1.
Proof. unfold keyed. by intros (-> & _). Qed.
Lemma same_list s s1 : same_graph s s1 → list_groups s1 = list_groups s.
Proof. unfold list_groups. by intros [-> _]. Qed.

Lemma stored_child s y x :
  keyed s → child (pl_groups s) y x → ∃ g, g ∈ map sg_Group (list_groups s) ∧ grp_ID g = x ∧
    child_of [g] [] y x.
Proof.
  intros Hi (g & src & Hg & Hs & Ht). exists (sg_Group g). pose proof (Hi _ _ Hg) as Hid.
  split; [|split; [done|]].
  - apply list_elem_of_fmap. exists g. split; [done|]. apply elem_list_groups. eauto.
  - left. exists (sg_Group g), src. set_solver.
Qed.

Lemma child_of_mono g groups edges edges' y x :
  child_of [g] [] y x → g ∈ groups → child_of groups (edges ++ edges') y x.
Proof. intros [(g' & src & ->%list_elem_of_singleton & ?)|(? & ? & []%elem_of_nil & _)] Hg. left. naive_solver. Qed.

Lemma settled_groups m s :
  settled s → acyclic m → settled (with_groups m s).
Proof. intros (_ & Hr) Ha. split; [done|]. exact Hr. Qed.

(** A write of a group whose graph was validated, [groups] and [edges] being what was
    validated. *)
Lemma settles_save env group expected l s groups edges rules req :
  keyed s → settled s → topology groups edges rules req = Ok tt →
  (∃ g, g ∈ groups ∧ grp_ID g = grp_ID group) →
  (∀ s0 y, s0 ∈ l → source_target s0 = Some y → child_of groups edges y (grp_ID group)) →
  (∀ g, g ∈ map sg_Group (list_groups s) → grp_ID g ≠ grp_ID group → g ∈ groups) →
  settles (step (SaveGroupWithSources env group expected l)) s.
Proof.
  intros Hi Hs Ht Hin Hnew Hold. unfold settles, wp, SaveGroupWithSources. rewrite run_step. unfold bind, lift.
  destruct (for_each _ _); [|done]. unfold statement. destruct (env_io _ _); [done|].
  destruct (write_group _ _ _ _ s) as [[saved s']|e] eqn:Hw; [|done]. simpl.
  pose proof (write_group_spec _ _ _ _ _ _ _ Hw) as (rev & rows & _ & _ & Heq & _).
  assert (acyclic (pl_groups s')) as Ha; [|by rewrite Heq in Ha |- *; apply settled_groups].
  eapply acyclic_validated; [exact Ht| |].
  - intros x y Hc. destruct (written_child _ _ _ _ _ _ _ _ _ Hw Hc) as [(-> & s0 & Hs0 & Ht0)|[Hne Hc']].
    + by eapply Hnew.
    + destruct (stored_child s y x Hi Hc') as (g & Hg & <- & Hcg).
      apply (child_of_mono g groups [] edges); [done|]. by apply Hold.
  - intros x Hx. destruct (written_key _ _ _ _ _ _ _ _ Hw Hx) as [->|[g Hg]]; [done|].
    destruct (decide (x = grp_ID group)) as [->|Hne]; [done|].
    pose proof (Hi _ _ Hg) as Hid. exists (sg_Group g). split; [|done].
    apply Hold; [|by unfold group_id in Hid; rewrite Hid].
    apply list_elem_of_fmap. exists g. split; [done|]. apply elem_list_groups. eauto.
Qed.

Lemma elem_replace_group g l x : x ∈ replace_group g l → x = g ∨ x ∈ l.
Proof. induction l as [|y l IH]; simpl; [set_solver|]. destruct (String.eqb _ _); set_solver. Qed.
Lemma replace_group_keeps g l x : x ∈ l → grp_ID x ≠ grp_ID g → x ∈ replace_group g l.
Proof.
  induction l as [|y l IH]; simpl; [set_solver|].
  destruct (String.eqb_spec (grp_ID y) (grp_ID g)); set_solver.
Qed.
Lemma replace_group_new g l : (∃ x, x ∈ l ∧ grp_ID x = grp_ID g) → g ∈ replace_group g l.
Proof.
  induction l as [|y l IH]; simpl; [set_solver|]. intros (x & Hx & He).
  destruct (String.eqb_spec (grp_ID y) (grp_ID g)); [set_solver|].
  apply elem_of_cons. right. apply IH. exists x. set_solver.
Qed.


(** The request [p], with the graph of [s0] in the tables when it starts. *)
Definition from {A} (s0 : PolicyTables) (p : proc PolicyTables A) : Prop :=
  ∀ s, same_graph s0 s → settles p s.

Lemma from_bind {A B} (p : proc PolicyTables A) (k : A → proc PolicyTables B) P s0 :
  settled s0 → (∀ s, same_graph s0 s → quiet p P s) → (∀ a, P a → from s0 (k a)) → from s0 (pbind p k).
Proof.
  intros Hs Hp Hk s Hg. eapply settles_bind; [by eapply same_settled|by apply Hp|].
  intros a s1 Hg1 Ha _. apply Hk; [done|]. by etrans.
Qed.
Lemma from_then {A B} (p : proc PolicyTables A) (k : A → proc PolicyTables B) s0 :
  from s0 p → (∀ a s, settled s → settles (k a) s) → from s0 (pbind p k).
Proof. intros Hp Hk s Hg. apply settles_then; [by apply Hp|done]. Qed.
Lemma from_trying {A} env op (p : proc PolicyTables A) s0 : from s0 p → from s0 (trying env op p).
Proof. intros Hp s Hg. by apply settles_trying, Hp. Qed.
Lemma from_quiet {A} (p : proc PolicyTables A) P s0 :
  settled s0 → (∀ s, quiet p P s) → from s0 p.
Proof. intros Hs Hp s Hg. eapply settles_quiet; [by eapply same_settled|done]. Qed.

Lemma row_joined g : row_with (grp_Sources (sg_Group g)) (row_only g) = g.
Proof. by destruct g as [[] ?]. Qed.

Lemma quiet_get env id s0 s : same_graph s0 s →
  quiet (policies_GetGroupByID env id) (λ g, pl_groups s0 !! id = Some g) s.
Proof.
  intros [<- _]. apply (quiet_bind _ _ (λ row, ∃ g, pl_groups s !! id = Some g ∧ row = row_only g)).
  - apply quiet_query. intros row. destruct (pl_groups s !! id) as [g|]; [|done].
    intros [= <-]. by exists g.
  - intros ? s1 [Hs1 _] (g & Hg & ->). apply (quiet_bind _ _ (λ l, l = grp_Sources (sg_Group g))).
    + apply quiet_query. intros l [= <-]. unfold sources_of. by rewrite Hs1, Hg.
    + intros ? s2 _ ->. apply quiet_give. by rewrite row_joined.
Qed.

Lemma rows_joined s : keyed s →
  map (λ g, row_with (sources_of s (grp_ID (sg_Group g))) g) (map row_only (list_groups s)) = list_groups s.
Proof.
  intros Hk. rewrite map_map. rewrite <- (map_id (list_groups s)) at 2. apply map_ext_in.
  intros g [id Hg]%list_elem_of_In%elem_list_groups. pose proof (Hk _ _ Hg) as Hid. unfold group_id in Hid.
  unfold sources_of. simpl. rewrite Hid, Hg. apply row_joined.
Qed.

Lemma quiet_list env s0 s : keyed s0 → same_graph s0 s →
  quiet (policies_ListGroups env) (λ l, l = list_groups s0) s.
Proof.
  intros Hk Hs. pose proof (same_list _ _ Hs) as <-. apply (same_keyed s0 s Hs) in Hk.
  apply (quiet_bind _ _ (λ rows, rows = map row_only (list_groups s))).
  - apply quiet_query. by intros rows [= <-].
  - intros ? s1 [Hs1 _] ->. apply (quiet_bind _ _ (λ f, f = sources_of s)).
    + apply quiet_query. intros f [= <-]. unfold sources_of. by rewrite Hs1.
    + intros ? s2 _ ->. apply quiet_give. by rewrite rows_joined.
Qed.

Lemma own_targets gid l s y :
  s ∈ own_sources gid l → source_target s = Some y → ∃ s0, s0 ∈ l ∧ source_target s0 = Some y.
Proof.
  unfold own_sources. intros [k Hk]%list_elem_of_lookup. rewrite list_lookup_imap in Hk.
  destruct (l !! k) as [s0|] eqn:Hl; [|done]. injection Hk as <-. intros Ht.
  exists s0. split; [by eapply list_elem_of_lookup_2|done].
Qed.

Lemma stored_in_list s id g :
  keyed s → pl_groups s !! id = Some g →
  ∃ x, x ∈ map sg_Group (list_groups s) ∧ grp_ID x = id.
Proof.
  intros Hk Hg. exists (sg_Group g). split; [|by apply (Hk _ _ Hg)].
  apply list_elem_of_fmap. exists g. split; [done|]. apply elem_list_groups. eauto.
Qed.

(** [settles_save] for the graph of [s0]. *)
Lemma from_save env group expected l s0 groups edges rules req :
  keyed s0 → settled s0 → topology groups edges rules req = Ok tt →
  (∃ g, g ∈ groups ∧ grp_ID g = grp_ID group) →
  (∀ s y, s ∈ l → source_target s = Some y → child_of groups edges y (grp_ID group)) →
  (∀ g, g ∈ map sg_Group (list_groups s0) → grp_ID g ≠ grp_ID group → g ∈ groups) →
  from s0 (step (SaveGroupWithSources env group expected l)).
Proof.
  intros Hk Hs Ht Hin Hnew Hold s Hg.
  eapply settles_save; [by eapply same_keyed|by eapply same_settled|done..|].
  by rewrite (same_list s0 s).
Qed.

Lemma from_update env cmd s0 : keyed s0 → settled s0 → from s0 (UpdateGroup env cmd).
Proof.
  intros Hk Hs. unfold UpdateGroup.
  eapply from_bind; [done|intros; by apply quiet_trying, quiet_get|]. intros current Hcur.
  eapply from_bind; [done|intros; apply quiet_refuse|]. intros _ _.
  eapply from_bind; [done|intros; apply quiet_refuse|]. intros _ _.
  eapply from_bind; [done|intros; by apply quiet_list|]. intros ? ->.
  set (group := edit_group cmd (sg_Group current)).
  apply (from_bind _ _ (λ _, True)); [done|unfold legacy_sources; quiet_ops; by apply quiet_lift|].
  intros wanted _.
  eapply from_bind; [done|intros; by apply (quiet_checked _ _ _ (λ _, True))|]. intros _ _.
  eapply from_bind; [done|intros; apply quiet_targets|]. intros _ _.
  set (written := set_sources (own_sources (grp_ID group) wanted) group).
  set (groups := replace_group written (map sg_Group (list_groups s0))).
  eapply from_bind; [done| |].
  { intros. apply (quiet_checked _ _ _ (λ _, topology groups [] [] false = Ok tt)). by intros []. }
  intros [] Ht. apply (from_bind _ _ (λ _, True)); [done|quiet_ops|]. intros expected _.
  apply from_then; [|intros; by apply settles_tail]. apply from_trying.
  assert (written ∈ groups) as Hin.
  { apply replace_group_new. eapply stored_in_list; [done|]. by rewrite <- (Hk _ _ Hcur) in Hcur. }
  eapply from_save; [done..|by exists written| |by intros; apply replace_group_keeps].
  intros src y Hsrc Hy. left. by exists written, src.
Qed.

Lemma from_save_edges env group rev create es change f s0 groups edges rules req :
  keyed s0 → settled s0 → topology groups edges rules req = Ok tt →
  (∃ g, g ∈ groups ∧ grp_ID g = grp_ID group) → (grp_ID group, es) ∈ edges →
  (∀ g, g ∈ map sg_Group (list_groups s0) → grp_ID g ≠ grp_ID group → g ∈ groups) →
  from s0 (SaveGroup env group rev create (Some es) change f).
Proof.
  intros Hk Hs Ht Hin He Hold. unfold SaveGroup.
  eapply from_bind; [done|intros; by apply (quiet_lift _ (λ _, True))|]. intros _ _.
  apply (from_bind _ _ (λ _, True)); [done|intros; destruct create; quiet_ops|].
  intros current _. cbn [is_nil negb orb].
  eapply from_bind; [done| |].
  { intros s _. apply (quiet_lift _ (λ l, EditLegacySources (grp_ID group) current.2 (Some es) change f = Ok l)).
    done. }
  intros l Hl. eapply from_save; [done..| |done].
  intros src y Hsrc Hy. destruct (edit_targets _ _ _ _ _ _ _ _ Hl Hsrc Hy) as (e & Hee & Hp & ->).
  right. by exists es, e.
Qed.

Lemma set_edges_in id edges m : (id, edges) ∈ set_edges id edges m.
Proof.
  unfold set_edges. destruct (existsb _ m) eqn:E; [|set_solver].
  apply existsb_exists in E as ([k l] & Hin & Hk). simpl in Hk.
  apply list_elem_of_fmap. exists (k, l). simpl. rewrite Hk. split; [done|]. by apply list_elem_of_In.
Qed.

Lemma from_create env cmd s0 : keyed s0 → settled s0 → from s0 (CreateGroup env cmd).
Proof.
  intros Hk Hs. unfold CreateGroup.
  do 2 (eapply from_bind; [done|intros; apply quiet_refuse|]; intros _ _).
  apply (from_bind _ _ (λ _, True)); [done|intros; quiet_ops|]. intros gid _.
  eapply from_bind; [done|intros; by apply (quiet_checked _ _ _ (λ _, True))|]. intros _ _.
  set (group := {| grp_ID := gid |}).
  eapply from_bind; [done|intros; apply quiet_edge_inputs; intros; by apply quiet_record|]. intros edges _.
  eapply from_bind; [done|intros; by apply quiet_list|]. intros ? ->.
  eapply from_bind; [done|intros; apply quiet_edges_of|]. intros others _.
  set (l := map sg_Group (list_groups s0)).
  eapply from_bind; [done| |].
  { intros. apply (quiet_checked _ _ _
      (λ _, topology (l ++ [group]) (set_edges gid edges others) [] true = Ok tt)).
    intros [] Hv. by eapply policy_graph_topology. }
  intros [] Ht. eapply from_bind; [done|intros; apply quiet_trying, quiet_targets|]. intros _ _.
  apply from_then; [|intros; by apply settles_tail]. destruct (negb _).
  - eapply from_bind; [done|intros; by apply (quiet_checked _ _ _ (λ _, True))|]. intros _ _.
    set (written := set_sources (own_sources gid (cg_Sources cmd)) group).
    eapply from_bind; [done| |].
    { intros. apply (quiet_checked _ _ _ (λ _, topology (l ++ [written]) [] [] false = Ok tt)). by intros []. }
    intros [] Ht2. apply from_trying. assert (written ∈ l ++ [written]) as Hw by set_solver.
    eapply from_save; [done..|by exists written| |set_solver].
    intros src y Hsrc Hy. left. by exists written, src.
  - eapply from_save_edges; [done..|exists group; set_solver|apply set_edges_in|set_solver].
Qed.

Lemma from_set_edges env gid inputs s0 : keyed s0 → settled s0 → from s0 (SetGroupEdges env gid inputs).
Proof.
  intros Hk Hs. unfold SetGroupEdges.
  eapply from_bind; [done|intros; by apply quiet_trying, quiet_get|]. intros current Hcur.
  eapply from_bind; [done|intros; apply quiet_edge_inputs; intros; by apply (quiet_give _ (λ _, True))|].
  intros edges _.
  eapply from_bind; [done|intros; by apply quiet_list|]. intros ? ->.
  eapply from_bind; [done|intros; apply quiet_edges_of|]. intros others _.
  set (l := map sg_Group (list_groups s0)).
  assert (existsb (λ g, String.eqb (grp_ID (sg_Group g)) gid) (list_groups s0) = true) as ->.
  { apply existsb_exists. exists current. split; [|by apply String.eqb_eq, (Hk _ _ Hcur)].
    apply list_elem_of_In, elem_list_groups. by exists gid. }
  eapply from_bind; [done| |].
  { intros. apply (quiet_checked _ _ _ (λ _, topology l (others ++ [(gid, edges)]) [] true = Ok tt)).
    intros [] Hv. by eapply policy_graph_topology. }
  intros [] Ht. eapply from_bind; [done|intros; apply quiet_trying, quiet_targets|]. intros _ _.
  apply from_then; [|intros; by apply settles_record]. apply from_trying. unfold SetEdgesForGroup.
  eapply from_bind; [done|intros; by apply quiet_get|]. intros g Hg.
  pose proof (Hk _ _ Hg) as Hid. unfold group_id in Hid.
  eapply from_save_edges; [done..| | |done].
  - rewrite Hid. exact (stored_in_list _ _ _ Hk Hg).
  - rewrite Hid. set_solver.
Qed.

Lemma from_delete env id s0 : settled s0 → from s0 (DeleteGroup env id).
Proof.
  intros Hs. unfold DeleteGroup.
  eapply from_bind; [done|intros; by apply quiet_trying, quiet_get|]. intros current Hcur.
  apply from_then; [|intros; by apply settles_record]. apply from_trying. intros s Hg.
  apply settles_write; [by eapply same_settled|]. intros [] s' Hw.
  destruct (referenced id s); [done|]. destruct (pl_groups s !! id); [|done]. injection Hw as <-.
  apply settled_groups; [by eapply same_settled|]. apply acyclic_delete. by apply (same_settled s0 s).
Qed.

Lemma from_rollback env id v s0 : settled s0 → from s0 (Rollback env id v).
Proof.
  intros Hs. unfold Rollback. eapply from_bind; [done|intros; by apply (quiet_query _ _ _ (λ _, True))|].
  intros _ _. destruct v as [v|]; [|by apply (from_quiet _ (λ _, True))].
  apply from_then; [|intros; by apply settles_record]. unfold RestorePolicySnapshot.
  eapply from_bind; [done|intros; by apply (quiet_query _ _ _ (λ _, True))|]. intros groups _.
  eapply from_bind; [done| |].
  { intros. apply (quiet_lift _ (λ _, topology (map sg_Group groups) [] [] false = Ok tt)). by intros []. }
  intros [] Ht s Hg. apply settles_write; [by eapply same_settled|]. intros [] s' Hw.
  apply write_snapshot_spec in Hw as (_ & _ & _ & ->). apply settled_groups; [by eapply same_settled|].
  eapply acyclic_validated; [exact Ht| |].
  - intros x y (g' & src & Hg' & Hsrc & Hy). apply restored_lookup in Hg' as (g & Hin & <- & ->).
    apply list_elem_of_fmap in Hsrc as (src0 & -> & Hsrc0). left.
    exists (sg_Group g), src0. split; [|done]. apply list_elem_of_fmap. by exists g.
  - intros x [g' Hg']. apply restored_lookup in Hg' as (g & Hin & <- & _). exists (sg_Group g).
    split; [|done]. apply list_elem_of_fmap. by exists g.
Qed.

(** ** Routing rules *)

Lemma accept_sub l l' :
  l' ⊆+ l → ValidatePolicyRules l ∅ false = Ok tt → ValidatePolicyRules l' ∅ false = Ok tt.
Proof.
  intros Hsub. rewrite !policy_rules_accepted. intros (Hv & Hm & _). split_and!; [|etrans; [|exact Hm]|done].
  - intros r Hr. apply Hv. by eapply elem_of_submseteq.
  - apply submseteq_Permutation in Hsub as [k ->]. rewrite filter_app, length_app. lia.
Qed.

Lemma accept_perm l l' :
  l ≡ₚ l' → ValidatePolicyRules l ∅ false = Ok tt → ValidatePolicyRules l' ∅ false = Ok tt.
Proof. intros Hp. apply accept_sub. by rewrite Hp. Qed.

Lemma rules_of_insert s m id rev r rev' :
  m !! id = None →
  rules_of (with_rules (<[id := (rev, r)]> m) s) rev' ≡ₚ
  (if String.eqb rev rev' then [r] else []) ++ rules_of (with_rules m s) rev'.
Proof.
  intros Hn. unfold rules_of. simpl. rewrite !sort_stable_perm.
  assert (∀ l : list (string * (string * PolicyRule)), List.filter (λ kr, String.eqb kr.2.1 rev') l =
    filter (λ kr, String.eqb kr.2.1 rev' = true) l) as Hf.
  { induction l as [|x l IH]; [done|]. simpl. rewrite filter_cons, IH. by destruct (String.eqb _ _) eqn:E; case_decide. }
  rewrite !Hf, !table_rows_perm, (map_to_list_insert _ _ _ Hn), filter_cons. cbn [fst snd].
  destruct (String.eqb rev rev') eqn:E; simpl; reflexivity.
Qed.

Lemma from_policy_rule env cmd s0 : settled s0 → from s0 (CreatePolicyRule env cmd).
Proof.
  intros Hs. unfold CreatePolicyRule.
  eapply from_bind; [done|intros; apply quiet_refuse|]. intros _ _.
  eapply from_bind; [done|intros; apply quiet_refuse_if|]. intros _ _.
  apply (from_bind _ _ (λ _, True)); [done|intros; quiet_ops|]. intros target _.
  eapply from_bind; [done|intros; apply quiet_refuse|]. intros _ _.
  eapply from_bind; [done|intros; apply quiet_rule_id|]. intros id _.
  eapply from_bind; [done|intros; apply quiet_rule_revision|]. intros rev _.
  apply (from_bind _ _ (λ l, l = rules_of s0 rev)); [done| |].
  { intros s (_ & Hg & _). apply quiet_query. intros l [= <-]. unfold rules_of. by rewrite Hg. }
  intros ? ->. set (rule := {| rule_ID := id |}).
  eapply from_bind; [done| |].
  { intros. apply (quiet_checked _ _ _ (λ _, ValidatePolicyRules (rules_of s0 rev ++ [rule]) ∅ true = Ok tt)).
    by intros []. }
  intros [] Hv. apply from_then; [|intros; by apply settles_tail]. apply from_trying. intros s Hg.
  apply settles_write; [by eapply same_settled|]. intros [] s' Hw.
  case_bool_decide as Hn; [done|]. destruct (_ <? _)%Z; [done|].
  destruct (negb _); [done|]. injection Hw as <-. apply eq_None_not_Some in Hn.
  assert (settled s) as (Ha & Hr & Hf) by (by eapply same_settled). split; [done|]. split; [|done]. intros rev'.
  eapply accept_perm; [by rewrite rules_of_insert|]. destruct (String.eqb_spec rev rev') as [<-|]; [|exact (Hr rev')].
  apply (accept_perm (rules_of s0 rev ++ [rule])).
  - rewrite Permutation_app_comm. apply Permutation_app_head.
    unfold rules_of, with_rules. simpl. by destruct Hg as (_ & -> & _).
  - apply policy_rules_accepted in Hv as (? & ? & _). by apply policy_rules_accepted.
Qed.

Lemma settles_delete_rule env id s : settled s → settles (step (policies_DeletePolicyRule env id)) s.
Proof.
  intros Hs. apply settles_write; [done|]. intros [] s' Hw. destruct (pl_rules s !! id) as [[rev r]|] eqn:Hl; [|done].
  injection Hw as <-. destruct Hs as (Ha & Hr & Hf). split; [done|]. split; [|done]. intros rev'.
  eapply accept_sub; [|exact (Hr rev')].
  assert (rules_of s rev' ≡ₚ (if String.eqb rev rev' then [r] else []) ++
    rules_of (with_rules (delete id (pl_rules s)) s) rev') as ->.
  { rewrite <- (rules_of_insert s (delete id (pl_rules s)) id) by apply lookup_delete_eq.
    rewrite insert_delete_id by done. by destruct s. }
  by apply submseteq_inserts_l.
Qed.

Lemma settles_stop {A} env op e s : settled s → settles (record env op false ;;@ (stop e : proc PolicyTables A)) s.
Proof.
  intros Hs. apply settles_then; [by apply settles_record|]. intros. by eapply settles_quiet, (quiet_stop _ (λ _, True)).
Qed.

Lemma quiet_delete_admission env id s : quiet (step (policies_DeleteAdmissionRule env id)) (λ _, True) s.
Proof. apply quiet_write. intros ? ? Hw. repeat case_match; simplify_eq; done. Qed.

Lemma settles_delete_rules env id kind s : settled s → settles (DeleteRule env id kind) s.
Proof.
  intros Hs. unfold DeleteRule, delete_policy, delete_admission.
  eapply settles_bind; [done|apply quiet_refuse|]. intros _ s1 _ _ Hd1.
  destruct (String.eqb _ "admission").
  { apply (settles_quiet _ (λ _, True)); [done|]. quiet_ops; apply quiet_delete_admission. }
  destruct (String.eqb _ "policy").
  { apply settles_then; [by apply settles_trying, settles_delete_rule|]. intros. by apply settles_record. }
  destruct (String.eqb _ "") ; [|eapply settles_quiet; [done|apply quiet_refuse]].
  apply settles_then; [by apply settles_attempt, settles_delete_rule|]. intros [[]|e] s2 Hd2.
  { by apply settles_record. }
  destruct (is_not_found e); [|by apply settles_stop].
  apply (settles_quiet _ (λ _, True)); [done|]. quiet_ops; apply quiet_delete_admission.
Qed.

(** ** Sequences of requests *)

(** The tables after some requests of the two services, one after the other. *)
Inductive policy_served : PolicyTables → Prop :=
  | served_none : policy_served empty_policy
  | served_policy env r s : policy_served s → policy_served (run (policy_handle env r) s).2
  | served_revision env r s : policy_served s → policy_served (run (revision_handle env r) s).2.

Lemma settles_discard {A} (p : proc PolicyTables A) s : settles p s → settles (discard p) s.
Proof. intros Hp. apply settles_then; [done|]. intros. by eapply settles_quiet, (quiet_give _ (λ _, True)). Qed.

Lemma settles_policy env r s : keyed s → settled s → settles (policy_handle env r) s.
Proof.
  intros Hk Hs. destruct r; cbn [policy_handle]; try apply settles_discard;
    first [ by eapply from_create | by eapply from_update | by eapply from_delete
          | by eapply from_set_edges | by eapply from_policy_rule | by apply settles_delete_rules
          | by apply settles_set_global | idtac ];
    apply (settles_quiet _ (λ _, True)); try done;
    first [apply quiet_admission_rule|apply quiet_ensure|apply quiet_create_revision].
Qed.

Lemma settles_revision env r s : settled s → settles (revision_handle env r) s.
Proof.
  intros Hs. destruct r; cbn [revision_handle]; try apply settles_discard;
    first [ by eapply from_rollback | idtac ]; apply (settles_quiet _ (λ _, True)); try done;
    first [apply quiet_revisions_create|apply quiet_revisions_ensure|apply quiet_review|apply quiet_activate].
Qed.

Lemma empty_settled : settled empty_policy.
Proof.
  split; [apply acyclic_empty|]. split; [|done]. intros rev.
  assert (rules_of empty_policy rev ≡ₚ []) as Hn%Permutation_nil_r; [|by rewrite Hn].
  unfold rules_of. rewrite sort_stable_perm. simpl.
  pose proof (table_rows_perm (∅ : gmap string (string * PolicyRule))) as Hp.
  rewrite map_to_list_empty in Hp. by apply Permutation_nil_r in Hp as ->.
Qed.

Lemma served_ok s : policy_served s → policy_inv s ∧ settled s.
Proof.
  induction 1 as [|env r s _ [Hi Hs]|env r s _ [Hi Hs]].
  - split; [apply empty_policy_inv|apply empty_settled].
  - destruct (safe_run _ _ _ _ s Hi (sound_policy env r s Hi)) as [Hi' _]. split; [done|].
    apply settles_policy; [by apply inv_keyed|done].
  - destruct (safe_run _ _ _ _ s Hi (sound_revision env r s Hi)) as [Hi' _]. split; [done|].
    by apply settles_revision.
Qed.

(** What the resolver validates before it resolves: the stored groups with the rules
    of any revision. *)
Lemma served_topology s rev :
  policy_served s →
  ValidatePolicyTopology (map sg_Group (list_groups s)) [] (rules_of s rev) false = Some (Ok tt).
Proof.
  intros [Hi (Ha & Hr & _)]%served_ok. pose proof (inv_keyed s Hi) as Hk.
  assert (∀ g, g ∈ map sg_Group (list_groups s) →
    ∃ id x, pl_groups s !! id = Some x ∧ g = sg_Group x ∧ grp_ID g = id ∧ stored_wf x) as Hrow.
  { intros g (x & -> & [id Hx]%elem_list_groups)%list_elem_of_fmap. exists id, x.
    by destruct (inv_rows _ Hi _ _ Hx). }
  assert (∀ id, is_Some (pl_groups s !! id) → id ∈ group_set (map sg_Group (list_groups s))) as Hset.
  { intros id [x Hx]. destruct (stored_in_list s id x Hk Hx) as (g & Hg & <-).
    apply elem_of_list_to_set, list_elem_of_fmap. by exists g. }
  apply topology_complete.
  - intros g (id & x & Hx & -> & _ & [[Hv _ _] _])%Hrow. done.
  - intros g src (? & x & Hx & -> & <- & [[_ _ Hs] _])%Hrow Hsrc. rewrite Forall_forall in Hs.
    split; [by apply Hs|]. intros c Hc. split.
    + intros ->. assert (child (pl_groups s) (grp_ID (sg_Group x)) (grp_ID (sg_Group x))) as Hloop.
      { by exists x, src. }
      pose proof (Ha (grp_ID (sg_Group x))) as Hacc. revert Hloop. clear -Hacc.
      induction Hacc as [z _ IH]. intros Hz. by apply (IH z).
    + apply Hset. pose proof (inv_closed _ Hi _ _ Hx) as Hcl. rewrite Forall_forall in Hcl.
      specialize (Hcl src Hsrc). unfold source_target in Hc. destruct (_ && _) eqn:E; [|done].
      unfold target_ok in Hcl. apply andb_true_iff in E as [_ Hp].
      destruct (src_TargetGroupID src) as [t|]; [|done].
      injection Hc as <-. by apply bool_decide_eq_true in Hcl.
  - intros g _. apply Acc_mono with (child (pl_groups s)); [|apply Ha].
    intros x y [(g' & src & Hg' & <- & Hsrc & Ht)|(? & ? & []%elem_of_nil & _)].
    destruct (Hrow g' Hg') as (? & x' & Hx' & -> & <- & _). by exists x', src.
  - specialize (Hr rev). apply policy_rules_accepted in Hr as (Hv & Hm & _).
    apply policy_rules_accepted. split_and!; [|done|done]. intros r Hin.
    destruct (Hv r Hin) as (He & Hp & _). split_and!; [done..|]. intros _. apply Hset.
    unfold rules_of in Hin. rewrite elem_of_sort_stable in Hin.
    apply list_elem_of_In, in_map_iff in Hin as ([k [rv r']] & <- & [Hkr _]%filter_In). simpl.
    apply list_elem_of_In in Hkr. rewrite table_rows_perm in Hkr.
    apply elem_of_map_to_list in Hkr. by apply (inv_rules _ Hi _ _ Hkr).
Qed.
End Serial.
