(* ===== verification/RevisionProperties.v ===== *)
(** * What revisions of the policy guarantee

    A rollback restores what the revision captured, whatever happened in between; a
    revision becomes active only on the graph that it captured; an update of a group is
    refused unless it is based on the stored revision; the pages of the group list are
    cut where they should. *)

From S2P Require Import Prelude.
From S2P Require Import GoStrings.
From S2P Require Import Domain.
From S2P Require Import Lifecycle.
From S2P Require Import NodeFilter.
From S2P Require Import Policy.
From S2P Require Import Services.
From S2P Require Import Requests.
From S2P Require Import PolicyStore.
From S2P Require Import PolicyService.
From S2P Require Import PolicySamples.
From S2P Require Import PolicyInvariant.
From S2P Require Import PolicyGraphProperties.

#[local] Existing Instance no_history.

Section Revisions.
Context `{GoText} `{RegexEngine} `{Sha256} `{ConfigJSON} `{TableOrder}.
#[local] Existing Instance same_graph_preorder.

(** ** What a request yields

    Run alone from [s], [p] fails, or returns a value and leaves tables that satisfy
    [Q]. *)

Definition yields {A} (p : proc PolicyTables A) (Q : A → PolicyTables → Prop) (s : PolicyTables) : Prop :=
  wp (run p) (λ r s', match r with Ok a => Q a s' | Err _ => True end) s.

Lemma yields_run {A} (p : proc PolicyTables A) Q s a s' : yields p Q s → run p s = (Ok a, s') → Q a s'.
Proof. unfold yields, wp. by intros Hp Hr; rewrite Hr in Hp. Qed.

Lemma yields_give {A} (a : A) (Q : A → PolicyTables → Prop) s : Q a s → yields (give a) Q s.
Proof. done. Qed.
Lemma yields_stop {A} e (Q : A → PolicyTables → Prop) s : yields (stop e) Q s.
Proof. done. Qed.

Lemma yields_bind {A B} (p : proc PolicyTables A) (k : A → proc PolicyTables B) P Q s :
  yields p P s → (∀ a s1, P a s1 → yields (k a) Q s1) → yields (pbind p k) Q s.
Proof. unfold yields, wp. rewrite run_bind. intros Hp Hk. destruct (run p s) as [[a|e] s1]; [by apply Hk|done]. Qed.

Lemma yields_mono {A} (p : proc PolicyTables A) (P Q : A → PolicyTables → Prop) s :
  yields p P s → (∀ a s', P a s' → Q a s') → yields p Q s.
Proof. unfold yields, wp. destruct (run p s) as [[a|e] s1]; simpl; auto. Qed.

Lemma yields_quiet {A} (p : proc PolicyTables A) P s :
  quiet p P s → yields p (λ a s', same_graph s s' ∧ P a) s.
Proof. unfold yields, quiet, wp. by destruct (run p s) as [[a|e] s1]. Qed.

Lemma yields_trying {A} env op (p : proc PolicyTables A) Q s : yields p Q s → yields (trying env op p) Q s.
Proof.
  unfold trying, yields, wp. rewrite run_bind, run_attempt. destruct (run p s) as [[a|e] s1]; simpl; [done|].
  intros _. by destruct (recordAudit _ _ _ _) as [[?|?] ?].
Qed.

Lemma yields_write {A} env label (f : PolicyTables → result error (A * PolicyTables)) Q s :
  (∀ a s', f s = Ok (a, s') → Q a s') → yields (step (statement env label f)) Q s.
Proof.
  intros Hf. unfold yields, wp. rewrite run_step. apply wp_statement; [done|]. intros _.
  destruct (f s) as [[a s']|e] eqn:E; [by apply Hf|done].
Qed.

(** A query or a check returns what it found, and changes nothing. *)
Lemma yields_query {A} env label (f : PolicyTables → result error A) s :
  yields (step (query env label f)) (λ a s', s' = s ∧ f s = Ok a) s.
Proof. unfold yields, wp. rewrite run_step. apply wp_query; [done|]. intros _. by destruct (f s). Qed.
Lemma yields_get env id s :
  yields (policies_GetGroupByID env id) (λ g s', s' = s ∧ pl_groups s !! id = Some g) s.
Proof.
  eapply yields_bind; [apply yields_query|]. intros row ? [-> Hrow].
  destruct (pl_groups s !! id) as [g|] eqn:Hg; [|done]. injection Hrow as <-.
  eapply yields_bind; [apply yields_query|]. intros l ? [-> [= <-]]. apply yields_give. split; [done|].
  unfold sources_of. by rewrite Hg, row_joined.
Qed.
Lemma yields_list env s :
  keyed s → yields (policies_ListGroups env) (λ l s', s' = s ∧ l = list_groups s) s.
Proof.
  intros Hk. eapply yields_bind; [apply yields_query|]. intros rows ? [-> [= <-]].
  eapply yields_bind; [apply yields_query|]. intros f ? [-> [= <-]]. apply yields_give.
  by rewrite rows_joined.
Qed.
Lemma run_get env id s g :
  (∀ label, env_io (po_env env) label = None) → pl_groups s !! id = Some g →
  run (policies_GetGroupByID env id) s = (Ok g, s).
Proof.
  intros Hio Hg. unfold policies_GetGroupByID. rewrite run_bind, run_step. unfold query at 1.
  rewrite Hio, Hg, run_bind, run_step. unfold query. rewrite Hio. unfold sources_of. rewrite Hg.
  cbn. by rewrite row_joined.
Qed.
Lemma run_list env s :
  (∀ label, env_io (po_env env) label = None) →
  run (policies_ListGroups env) s =
  (Ok (map (λ g, row_with (sources_of s (grp_ID (sg_Group g))) g) (map row_only (list_groups s))), s).
Proof.
  intros Hio. unfold policies_ListGroups. rewrite run_bind, run_step. unfold query at 1.
  rewrite Hio, run_bind, run_step. unfold query. by rewrite Hio.
Qed.
Lemma yields_lift {A} (r : result DomainError A) s :
  yields (step (lift r)) (λ a s', s' = s ∧ r = Ok a) s.
Proof. unfold yields, wp. rewrite run_step. by destruct r. Qed.

(** What holds of tables and of any trail. *)
Lemma yields_record env op ok (Q : PolicyTables → Prop) s :
  Q s → (∀ t, Q (with_trail t s)) → yields (record env op ok) (λ _ s', Q s') s.
Proof. intros Hs Ht. unfold yields, wp, record. rewrite run_step. by apply wp_record. Qed.

Lemma yields_checked {A} env op (r : result DomainError A) s :
  yields (checked env op r) (λ a s', s' = s ∧ r = Ok a) s.
Proof.
  unfold checked. destruct r as [a|e]; [done|]. eapply (yields_bind _ _ (λ _ _, True)); [by apply yields_record|].
  intros. apply yields_stop.
Qed.
Lemma yields_refuse env op b code s : yields (refuse env op b code) (λ _ s', s' = s ∧ b = false) s.
Proof. eapply yields_mono; [apply yields_checked|]. intros [] s' [-> Hb]. by destruct b. Qed.
Lemma yields_refuse_if b e s : yields (refuse_if b e) (λ _ s', s' = s ∧ b = false) s.
Proof. by destruct b. Qed.

Lemma yields_edges_of env l s : yields (edges_of_groups env l) (λ _ s', s' = s) s.
Proof.
  induction l as [|g l IH]; [done|]. cbn [edges_of_groups]. eapply yields_bind; [apply yields_query|].
  intros edges ? [-> _]. eapply yields_bind; [apply IH|]. by intros rest ? ->.
Qed.

(** ** Rollback *)

Lemma lookup_policy_groups s g : policy_inv s → g ∈ policy_groups s ↔ pl_groups s !! group_id g = Some g.
Proof.
  intros Hi. rewrite policy_groups_perm. split.
  - intros ([id g'] & -> & Hin)%list_elem_of_fmap. apply elem_of_map_to_list in Hin. simpl.
    by destruct (inv_rows _ Hi _ _ Hin) as [-> _].
  - intros Hg. apply list_elem_of_fmap. exists (group_id g, g). split; [done|]. by apply elem_of_map_to_list.
Qed.

(** The graph apart from the revisions of its groups, and its digest. *)
Definition contents (s : PolicyTables) : gmap string NodeGroup := sg_Group <$> pl_groups s.

Lemma insert_map {A B} (f : A → B) key x l :
  map f (insert_stable (less_str (λ a, key (f a))) x l) = insert_stable (less_str key) (f x) (map f l).
Proof.
  induction l as [|y l IH]; [done|]. simpl. unfold less_str in *.
  destruct (str_less _ _); simpl; by rewrite ?IH.
Qed.
Lemma sort_map {A B} (f : A → B) key l :
  map f (sort_stable (less_str (λ a, key (f a))) l) = sort_stable (less_str key) (map f l).
Proof. induction l as [|x l IH]; [done|]. simpl. by rewrite insert_map, IH. Qed.

Lemma policy_contents s :
  map sg_Group (policy_groups s) = sort_stable (less_str grp_ID) (map snd (map_to_list (contents s))).
Proof.
  unfold policy_groups, contents. rewrite (sort_map sg_Group grp_ID), map_to_list_fmap. f_equal.
  by rewrite (map_map _ snd), map_map.
Qed.
Lemma same_digest s s' : contents s = contents s' → graph_digest (policy_groups s) = graph_digest (policy_groups s').
Proof. intros Hc. unfold graph_digest. by rewrite !policy_contents, Hc. Qed.

Lemma create_captures env parent state s :
  yields (revisions_Create env parent state) (λ rev s',
    pl_snapshots s' !! rv_ID rev = Some (policy_groups s) ∧
    rv_ContentDigest rev = graph_digest (policy_groups s)) s.
Proof.
  unfold revisions_Create.
  eapply yields_bind; [apply yields_quiet, quiet_refuse|]. intros _ s1 [Hs1 _].
  eapply yields_bind.
  { apply (yields_quiet _ (λ _, True)). destruct (blank_ptr parent); [done|].
    eapply quiet_bind; [apply quiet_trying; by apply (quiet_query _ _ _ (λ _, True))|]. done. }
  intros parentID s2 [Hs2 _].
  eapply yields_bind.
  { apply (yields_quiet _ (λ _, True)). apply quiet_trying.
    eapply quiet_bind; [apply quiet_current_digest|]. by intros [d|e]. }
  intros digest s3 [Hs3 _].
  eapply yields_bind; [apply yields_quiet, quiet_revision_id|]. intros id s4 [Hs4 _].
  assert (policy_groups s4 = policy_groups s) as Hg.
  { unfold policy_groups. by destruct Hs1 as [<- _], Hs2 as [<- _], Hs3 as [<- _], Hs4 as [<- _]. }
  eapply yields_bind; [apply yields_trying, (yields_write _ _ _ (λ d s',
    pl_snapshots s' !! id = Some (policy_groups s) ∧ d = graph_digest (policy_groups s)))|].
  { intros d s'. destruct (insert_revision _ _) as [s5|] eqn:Hi; [|done].
    destruct (CapturePolicyRevisionSnapshot _ _) as [s6|] eqn:Hc; [|done].
    destruct (capture_spec _ _ _ _ Hi Hc) as (_ & _ & ->). unfold digest_row. simpl.
    rewrite lookup_insert_eq. intros [= <- <-]. simpl. by rewrite lookup_insert_eq, Hg. }
  intros d s5 [Hsnap Hd].
  set (captured := λ s', pl_snapshots s' !! id = Some (policy_groups s)).
  apply (yields_bind _ _ (λ _, captured)).
  - destruct (String.eqb _ _); [|done]. apply (yields_bind _ _ (λ _, captured)); [|done].
    apply yields_trying, yields_write. intros [] s'.
    destruct (setActiveRevision _ _) as [s6|] eqn:Ha; [|done]. intros [= <-].
    by apply active_spec in Ha as (_ & _ & ->).
  - intros st s6 Hs6. apply (yields_bind _ _ (λ _, captured)); [by apply yields_record|].
    by intros _ s7 Hs7.
Qed.

(** [restoring s s']: from [s] to [s'] the groups were replaced. *)
Definition restoring (id : string) (v : gmap string Z) (s s' : PolicyTables) : Prop :=
  ∃ groups, pl_snapshots s !! id = Some groups ∧ expected_vector v (pl_groups s) = true ∧
    pl_groups s' = restored (pl_groups s) groups ∧ pl_rules s' = pl_rules s.

Lemma rollback_writes env id v s : yields (Rollback env id (Some v)) (λ _, restoring id v s) s.
Proof.
  unfold Rollback, RestorePolicySnapshot. eapply yields_bind; [apply yields_query|].
  intros _ ? [-> _]. apply (yields_bind _ _ (λ _, restoring id v s)); [|intros; by apply yields_record].
  eapply yields_bind; [apply yields_query|]. intros groups ? [-> Hl].
  eapply yields_bind; [apply yields_lift|]. intros [] ? [-> _].
  apply yields_write. intros [] s' (Hv & _ & _ & ->)%write_snapshot_spec. exists groups.
  by destruct (pl_snapshots s !! id) as [l|]; [injection Hl as ->|].
Qed.

Lemma restored_contents current s :
  policy_inv s → sg_Group <$> restored current (policy_groups s) = contents s.
Proof.
  intros Hi. destruct (captured_wf s Hi) as [Hnd Hwf]. rewrite Forall_forall in Hwf.
  apply map_eq. intros id. unfold contents. rewrite !lookup_fmap.
  destruct (pl_groups s !! id) as [g|] eqn:Hg.
  - destruct (inv_rows _ Hi _ _ Hg) as [<- _].
    assert (g ∈ policy_groups s) as Hin by (by apply lookup_policy_groups).
    rewrite restored_all by done.
    change (Some (sg_Group (restored_group current g)) = Some (sg_Group g)). by rewrite restored_same by auto.
  - destruct (restored _ _ !! id) as [g'|] eqn:Hr; [|done].
    apply restored_lookup in Hr as (g & Hin & <- & _). apply lookup_policy_groups in Hin; [|done].
    by rewrite Hg in Hin.
Qed.

(** A request of either service that runs alone, while the statements of others wait. *)
Lemma alone_ok {A} (p : proc PolicyTables A) s ts :
  sound p (λ _, True) → policy_system_ok {| store := s; threads := ts |} →
  policy_system_ok {| store := (run p s).2; threads := ts |}.
Proof.
  intros Hp [Hi Hts]. simpl in *. destruct (safe_run _ _ p _ s Hi (Hp s Hi)) as (Hi' & Hev & _).
  split; [done|]. simpl. eapply Forall_impl; [exact Hts|]. intros q Hq.
  exact (safe_later policy_inv policy_evolves q _ s _ Hq Hev).
Qed.

Lemma expected_vector_lookup v m id g :
  expected_vector v m = true → m !! id = Some g → v !! id = Some (sg_Revision g).
Proof.
  unfold expected_vector. intros [_ Hv]%andb_true_iff Hg. rewrite forallb_forall in Hv.
  specialize (Hv (id, g) ltac:(by apply list_elem_of_In, elem_of_map_to_list)).
  by apply bool_decide_eq_true in Hv.
Qed.

(** C14. A rollback restores what was captured.  When a revision is created, then any
    requests run in any interleaving, and then a rollback to the revision succeeds, the
    groups and their sources are those of the time of the creation, the digest of the
    graph is that of the revision, and every group has a revision greater than before
    the rollback, so that no update based on the state before it is accepted. *)
Theorem rollback_restores_captured_graph s1 ts env parent state rev s2 s3 ts' env' v s4 :
  policy_reachable {| store := s1; threads := ts |} →
  run (revisions_Create env parent state) s1 = (Ok rev, s2) →
  sys_steps policy_started {| store := s2; threads := ts |} {| store := s3; threads := ts' |} →
  run (Rollback env' (rv_ID rev) (Some v)) s3 = (Ok tt, s4) →
  contents s4 = contents s1 ∧ graph_digest (policy_groups s4) = rv_ContentDigest rev ∧
  (∀ id g, pl_groups s3 !! id = Some g → v !! id = Some (sg_Revision g)) ∧
  (∀ id g g', pl_groups s3 !! id = Some g → pl_groups s4 !! id = Some g' → sg_Revision g < sg_Revision g')%Z.
Proof.
  intros Hreach%policy_reachable_ok Hc Hs Hr. pose proof (proj1 Hreach) as Hi1. simpl in Hi1.
  destruct (yields_run _ _ _ _ _ (create_captures env parent state s1) Hc) as [Hsnap Hd].
  pose proof (alone_ok _ _ _ (sound_revisions_create env parent state) Hreach) as Hok2.
  rewrite Hc in Hok2. simpl in Hok2.
  destruct (system_later _ _ Hok2 Hs) as [[Hi3 _] [Hev _]]. simpl in Hi3, Hev.
  destruct (yields_run _ _ _ _ _ (rollback_writes env' (rv_ID rev) v s3) Hr)
    as (groups & Hg & Hv & Hw & _).
  rewrite (lookup_weaken _ _ _ _ Hsnap Hev) in Hg. injection Hg as <-.
  assert (contents s4 = contents s1) as Hcont by (unfold contents at 1; rewrite Hw; by apply restored_contents).
  split; [done|]. split; [by rewrite Hd; apply same_digest|]. split.
  { intros id g. by apply expected_vector_lookup. }
  intros id g g' Hl Hl'. rewrite Hw in Hl'. apply restored_lookup in Hl' as (x & Hx & <- & ->). simpl.
  destruct (captured_wf s1 Hi1) as [_ Hwf]. rewrite Forall_forall in Hwf.
  apply (restored_revision_pos (pl_groups s3) x); [|apply Hwf, Hx|done].
  eapply map_Forall_impl; [apply Hi3|]. by intros ? ? (_ & _ & ?).
Qed.

(** ** Activation *)

Lemma draft_graph_checks env id s :
  keyed s → yields (draft_graph env id) (λ r s', s' = s ∧ (r = Ok tt → list_groups s ≠ [] →
    ValidatePolicyRules (rules_of s id) (group_set (map sg_Group (list_groups s))) true = Ok tt)) s.
Proof.
  intros Hk. unfold draft_graph. eapply yields_bind; [by apply yields_trying, yields_list|]. intros ? ? [-> ->].
  destruct (length (list_groups s) =? 0) eqn:Hn.
  { apply yields_give. split; [done|]. intros _ Hl. apply Nat.eqb_eq, nil_length_inv in Hn. done. }
  eapply yields_bind; [apply yields_trying, yields_edges_of|]. intros edges ? ->.
  eapply yields_bind; [apply yields_query|]. intros ? ? [-> [= <-]].
  eapply yields_bind; [apply yields_query|]. intros ? ? [-> [= <-]]. split; [done|]. intros Hv _.
  by apply policy_graph_topology, topology_adjacency, validated_topology in Hv as (? & _ & _ & _ & ?).
Qed.

(** [activated id s s']: from [s] to [s'] the revision became the active one. *)
Definition activated (id : string) (s s' : PolicyTables) : Prop :=
  setActiveRevision id s = Ok s' ∨ ∃ s1 t, setActiveRevision id s = Ok s1 ∧ s' = with_trail t s1.

Lemma activate_writes env id s :
  keyed s → yields (Activate env id) (λ rev s', ∃ r, pl_revisions s !! TrimSpace id = Some r ∧
    rev = set_state RevisionActive r ∧ rv_State r = RevisionStateDraft ∧ activated (TrimSpace id) s s' ∧
    (list_groups s ≠ [] → ValidatePolicyRules (rules_of s (TrimSpace id))
       (group_set (map sg_Group (list_groups s))) true = Ok tt)) s.
Proof.
  intros Hk. unfold Activate. eapply yields_bind; [apply yields_refuse|]. intros _ ? [-> _].
  eapply yields_bind; [apply yields_trying, yields_query|]. intros r ? [-> Hr].
  eapply yields_bind; [apply yields_checked|]. intros [] ? [-> _].
  eapply yields_bind; [apply yields_checked|]. intros [] ? [-> Hst].
  eapply yields_bind; [by apply draft_graph_checks|]. intros valid ? [-> Hv].
  eapply yields_bind; [apply yields_checked|]. intros [] ? [-> ->].
  eapply yields_bind; [apply yields_query|]. intros snapshot ? [-> _].
  eapply yields_bind; [by apply yields_list|]. intros current ? [-> _].
  eapply yields_bind; [apply yields_refuse_if|]. intros _ ? [-> _].
  apply (yields_bind _ _ (λ _ s', setActiveRevision (TrimSpace id) s = Ok s')).
  { apply yields_trying, yields_write. intros [] s'. destruct (setActiveRevision _ _); [|done]. by intros [= ->]. }
  intros _ s1 Hs1. apply (yields_bind _ _ (λ _ s', activated (TrimSpace id) s s')).
  { apply yields_record; [by left|]. intros t. right. eauto. }
  intros _ s2 Ha. apply yields_give. exists r. destruct (pl_revisions s !! _); [injection Hr as ->|done].
  split_and!; [done..| |done|auto]. unfold reject_if in Hst.
  destruct (String.eqb_spec (rv_State r) RevisionStateDraft); done.
Qed.

Lemma vector_size l : NoDup (map group_id l) → size (vector l) = length l.
Proof. intros Hnd. unfold vector. rewrite map_size_list_to_map; [by rewrite length_map|]. by rewrite map_map. Qed.

Lemma vector_lookup l g : NoDup (map group_id l) → g ∈ l → vector l !! group_id g = Some (sg_Revision g).
Proof.
  intros Hnd Hg. apply elem_of_list_to_map_1; [by rewrite map_map|]. apply list_elem_of_fmap. by exists g.
Qed.

Lemma vector_inv l id r : vector l !! id = Some r → ∃ g, g ∈ l ∧ group_id g = id ∧ sg_Revision g = r.
Proof. intros Hl%elem_of_list_to_map_2. apply list_elem_of_fmap in Hl as (g & [= -> ->] & Hg). by exists g. Qed.

Lemma unchanged_vector l cur :
  NoDup (map group_id l) → NoDup (map group_id cur) → unchanged_since l cur = Ok tt →
  vector cur = vector l ∧ graph_digest cur = graph_digest l.
Proof.
  intros Hl Hc. unfold unchanged_since. destruct (Nat.eqb_spec (length cur) (length l)) as [Hlen|]; [|done].
  destruct (forallb _ cur) eqn:Hf; [|done]. destruct (String.eqb_spec (graph_digest cur) (graph_digest l)); [|done].
  intros _. split; [|done]. apply map_subseteq_size_eq; [|by rewrite !vector_size, Hlen].
  apply map_subseteq_spec. intros id r (g & Hg & <- & <-)%vector_inv.
  rewrite forallb_forall in Hf. specialize (Hf g ltac:(by apply list_elem_of_In)).
  by apply bool_decide_eq_true in Hf.
Qed.

(** C15. A revision becomes active only on the graph that it captured.  After a
    successful activation that revision is the only active one, no group was updated,
    added or removed since the draft was created (the revision vectors agree), the
    digest of the stored graph is that of the revision, and its routing rules refer to
    groups of the graph, with a MATCH rule only at the end. *)
Theorem activation_binds_captured_graph σ env id rev s' :
  policy_reachable σ → run (Activate env id) (store σ) = (Ok rev, s') →
  rv_ID rev = TrimSpace id ∧ is_Some (pl_revisions s' !! rv_ID rev) ∧
  (∀ j r, pl_revisions s' !! j = Some r → is_active r = true ↔ j = rv_ID rev) ∧
  pl_groups s' = pl_groups (store σ) ∧
  (∃ l, pl_snapshots s' !! rv_ID rev = Some l ∧ vector (policy_groups s') = vector l) ∧
  graph_digest (policy_groups s') = rv_ContentDigest rev ∧
  (list_groups s' ≠ [] → ValidatePolicyRules (rules_of s' (rv_ID rev))
     (group_set (map sg_Group (list_groups s'))) true = Ok tt).
Proof.
  intros Hi%policy_reachable_inv Hr.
  destruct (yields_run _ _ _ _ _ (activate_writes env id (store σ) (inv_keyed _ Hi)) Hr) as (r & Hl & -> & _ & Ha & Hv).
  simpl. pose proof (inv_revisions _ Hi _ _ Hl) as Hid. rewrite Hid. split; [done|].
  set (s := store σ) in *. set (i := TrimSpace id) in *.
  assert (∃ s1, setActiveRevision i s = Ok s1 ∧ pl_revisions s' = pl_revisions s1 ∧ pl_groups s' = pl_groups s1 ∧
    pl_snapshots s' = pl_snapshots s1 ∧ pl_rules s' = pl_rules s1) as (s1 & Hact & Hr1 & Hg1 & Hs1 & Hp1)
    by (destruct Ha as [Ha|(s1 & t & Ha & ->)]; by eexists).
  destruct (active_spec _ _ _ Hact) as (_ & Hun & Heq). rewrite Heq in Hr1, Hg1, Hs1, Hp1. simpl in *.
  destruct (inv_captured _ Hi i) as [l Hsl]; [by eexists|done|].
  assert (policy_groups s' = policy_groups s ∧ list_groups s' = list_groups s ∧ rules_of s' i = rules_of s i)
    as (Hpg & Hlg & Hrs) by (unfold policy_groups, list_groups, rules_of; by rewrite Hg1, Hp1).
  destruct (inv_snapshots _ Hi _ _ Hsl) as [Hnd _]. destruct (captured_wf s Hi) as [Hnc _].
  destruct (unchanged_vector _ _ Hnd Hnc (Hun l Hsl)) as [Hvec Hdig].
  rewrite Hr1, Hs1, Hpg, Hlg, Hrs, Hsl. split_and!; [| |done| | |done].
  - rewrite lookup_alter_eq, lookup_fmap, Hl. by eexists.
  - intros j x. destruct (decide (j = i)) as [->|Hne].
    + rewrite lookup_alter_eq, lookup_fmap, Hl. intros [= <-]. by split.
    + rewrite lookup_alter_ne, lookup_fmap by done. destruct (pl_revisions s !! j) as [x0|]; [|done].
      intros [= <-]. split; [|done]. unfold archive. destruct (is_active x0) eqn:Hx; [done|]. by rewrite Hx.
  - by exists l.
  - by rewrite Hdig, (inv_digest _ Hi _ _ _ Hl Hsl).
Qed.

(** ** Updates *)

Lemma yields_save env group expected l s :
  yields (step (SaveGroupWithSources env group expected l)) (λ a s',
    write_group env group expected (number_sources l) s = Ok (a, s')) s.
Proof.
  unfold SaveGroupWithSources, yields, wp. rewrite run_step. apply wp_bind, wp_lift.
  destruct (for_each _ _); [|done]. apply wp_statement; [done|]. intros _.
  by destruct (write_group _ _ _ _ s) as [[saved s']|e].
Qed.

(** [updated cmd s a s']: from [s] to [s'] the group [a] was written, and nothing else. *)
Definition updated (cmd : UpdateGroupCommand) (s : PolicyTables) (a : StoredGroup) (s' : PolicyTables) : Prop :=
  ∃ g, pl_groups s !! ug_ID cmd = Some g ∧
    (∀ r, ug_ExpectedRevision cmd = Some r → sg_Revision g = r) ∧
    sg_Revision a = (sg_Revision g + 1)%Z ∧
    sg_Group a = set_sources (grp_Sources (sg_Group a)) (edit_group cmd (sg_Group g)) ∧
    pl_groups s' = <[ug_ID cmd := {| sg_Group := without_filter (set_sources
        (map stored_source (grp_Sources (sg_Group a))) (sg_Group a)); sg_Revision := sg_Revision a |}]>
      (pl_groups s) ∧
    pl_rules s' = pl_rules s ∧ pl_revisions s' = pl_revisions s ∧ pl_snapshots s' = pl_snapshots s.

Lemma update_writes env cmd s :
  policy_inv s →
  yields (UpdateGroup env cmd) (λ view s', ∃ a, view = toGroupView a ∧ updated cmd s a s') s.
Proof.
  intros Hi. unfold UpdateGroup. eapply yields_bind; [apply yields_trying, yields_get|]. intros g ? [-> Hg].
  eapply yields_bind; [apply yields_refuse|]. intros _ ? [-> _].
  eapply yields_bind; [apply yields_refuse|]. intros _ ? [-> _].
  eapply yields_bind; [by apply yields_list, inv_keyed|]. intros ? ? [-> ->].
  set (group := edit_group cmd (sg_Group g)).
  apply (yields_bind _ _ (λ _ s', s' = s)).
  { destruct (ug_Sources cmd) as [l|]; [done|]. unfold legacy_sources.
    apply (yields_bind _ _ (λ _ s', s' = s)).
    { destruct (_ <$> _); [|done]. unfold validateNodeTargets. by destruct (for_each _ _). }
    intros _ ? ->. destruct (_ || _); [|done]. eapply yields_mono; [apply yields_lift|]. by intros ? ? [-> _]. }
  intros wanted ? ->. set (sources := PolicyService.own_sources (grp_ID group) wanted).
  eapply yields_bind; [apply yields_checked|]. intros _ ? [-> _].
  apply (yields_bind _ _ (λ _ s', s' = s)); [unfold validateNodeTargets; by destruct (for_each _ _)|].
  intros _ ? ->. eapply yields_bind; [apply yields_checked|]. intros _ ? [-> _].
  apply (yields_bind _ _ (λ x s', s' = s ∧ (0 < x)%Z ∧ ∀ r, ug_ExpectedRevision cmd = Some r → r = x)).
  { destruct (inv_rows _ Hi _ _ Hg) as (_ & _ & Hpos).
    destruct (ug_ExpectedRevision cmd) as [r|]; [|by split_and!; [|lia|]].
    destruct (Z.leb_spec r 0); [done|]. split_and!; [done|done|]. by intros ? [= <-]. }
  intros expected ? (-> & Hpos & Hexp).
  apply (yields_bind _ _ (updated cmd s)).
  - apply yields_trying. eapply yields_mono; [apply yields_save|]. intros a s' Hw.
    apply write_group_spec in Hw as (rev & saved & Hrev & Hid & -> & -> & _). simpl in *.
    destruct (pl_groups s !! ug_ID cmd) as [g'|] eqn:Hl; [injection Hg as ->|done].
    destruct (inv_rows _ Hi _ _ Hl) as [Hgid _]. unfold group_id in Hgid.
    change (grp_ID group) with (grp_ID (sg_Group g)) in *. rewrite Hgid, Hl in Hrev.
    simpl in Hrev. rewrite (proj2 (Z.ltb_lt 0 expected)) in Hrev by done.
    destruct (Z.eqb_spec expected (sg_Revision g)) as [->|]; [|done]. injection Hrev as <-.
    exists g. split_and!; try done; [by intros r Hr; symmetry; apply Hexp|by rewrite Hgid].
  - intros a s1 Hu. apply (yields_bind _ _ (λ _, updated cmd s a)); [by apply yields_record|].
    intros _ s2 Hu2. by exists a.
Qed.

(** An update is conditional on the revision it names, touches one group and is
    read back.  When [UpdateGroup] succeeds, the group existed and had the expected
    revision if one was given; its revision is one more; the fields of the command
    replace the stored ones; no other group, no rule and no configuration revision
    changes; and a [GetGroup] that follows returns the group as it was saved, with the
    sources in normal form. *)
Theorem group_update_is_conditional σ env cmd view s' :
  policy_reachable σ → run (UpdateGroup env cmd) (store σ) = (Ok view, s') →
  (∃ g, pl_groups (store σ) !! ug_ID cmd = Some g ∧
     (∀ r, ug_ExpectedRevision cmd = Some r → sg_Revision g = r) ∧
     gv_Revision view = (sg_Revision g + 1)%Z ∧
     gv_Name view = grp_Name (edit_group cmd (sg_Group g)) ∧
     gv_GroupType view = grp_GroupType (edit_group cmd (sg_Group g))) ∧
  (∀ id, id ≠ ug_ID cmd → pl_groups s' !! id = pl_groups (store σ) !! id) ∧
  (pl_rules s' = pl_rules (store σ) ∧ pl_revisions s' = pl_revisions (store σ) ∧
   pl_snapshots s' = pl_snapshots (store σ)) ∧
  (∀ env', (∀ label, env_io (po_env env') label = None) →
     ∃ view', run (GetGroup env' (ug_ID cmd)) s' = (Ok view', s') ∧
       gv_Revision view' = gv_Revision view ∧ gv_Name view' = gv_Name view ∧
       gv_GroupType view' = gv_GroupType view ∧
       gv_Sources view' = map stored_source (gv_Sources view)).
Proof.
  intros Hi%policy_reachable_inv Hr.
  destruct (yields_run _ _ _ _ _ (update_writes env cmd _ Hi) Hr)
    as (a & -> & g & Hg & Hexp & Hrev & Ha & Hs' & ? & ? & ?).
  destruct (inv_rows _ Hi _ _ Hg) as (_ & _ & Hpos). split_and!; [| |done..|].
  - exists g. split; [done|]. split; [done|]. simpl. rewrite Hrev, Ha.
    destruct (Z.leb_spec (sg_Revision g + 1) 0); [lia|done].
  - intros id Hne. rewrite Hs'. by apply lookup_insert_ne.
  - intros env' Hio. eexists. split.
    + unfold GetGroup. rewrite run_bind, (run_get _ _ _ _ Hio) by (rewrite Hs'; apply lookup_insert_eq).
      rewrite run_bind, run_step. unfold policies_ListEdgesByGroup, query. by rewrite Hio.
    + done.
Qed.

(** ** Pages *)

Lemma slice_page {A} (l : list A) (page size : Z) :
  (1 ≤ page → 1 ≤ size ≤ 100 → Z.of_nat (length l) ≤ 2 ^ 62 → (page - 1) * size < 2 ^ 63 →
   slice l (page_bounds page size (Z.of_nat (length l))) =
   Page (take (Z.to_nat size) (drop (Z.to_nat ((page - 1) * size)) l)))%Z.
Proof.
  intros Hp Hsz Hl Hoff. unfold page_bounds, slice. set (start := ((page - 1) * size)%Z) in *.
  assert (0 ≤ start)%Z as Hst by nia. rewrite (wrap64_small start) by (unfold int64_min, int64_max; lia).
  set (n := Z.of_nat (length l)) in *. cbn [fst snd].
  set (from := if (n <? start)%Z then n else start).
  assert (0 ≤ from ≤ n)%Z as Hf by (unfold from; destruct (Z.ltb_spec n start); lia).
  rewrite (wrap64_small (from + size)) by (unfold int64_min, int64_max; lia).
  set (stop := if (n <? from + size)%Z then n else (from + size)%Z).
  assert (from ≤ stop)%Z by (unfold stop; destruct (Z.ltb_spec n (from + size)); lia).
  rewrite (proj2 (Z.ltb_ge from 0)), (proj2 (Z.ltb_ge stop from)) by lia. cbn [orb]. f_equal.
  unfold from in *. destruct (Z.ltb_spec n start) as [Hb|Hb].
  - rewrite !drop_ge by (unfold n in *; lia). by rewrite !take_nil.
  - unfold stop. destruct (Z.ltb_spec n (start + size)) as [Hc|Hc]; [|f_equal; lia].
    rewrite !take_ge; [done|..]; rewrite length_drop; unfold n in *; lia.
Qed.

Lemma group_views_run env l s :
  (∀ label, env_io (po_env env) label = None) →
  run (group_views env l) s = (Ok (map toGroupView l), s).
Proof.
  intros Hio. induction l as [|g l IH]; [done|]. cbn [group_views]. rewrite run_bind, run_step.
  unfold policies_ListEdgesByGroup, query. rewrite Hio, run_bind, IH. done.
Qed.

(** The group list is cut into pages exactly: with the database answering, page
    [p] of size [n] (at least one, and at most a hundred) of the groups that match the
    search holds the groups from the [(p-1)*n]-th on, at most [n] of them, and nothing
    panics, as long as that offset is a 64-bit number. *)
Theorem group_list_page_exact env page pageSize search s :
  (∀ label, env_io (po_env env) label = None) → keyed s →
  let groups := List.filter (matches_search (ToLower (TrimSpace search))) (list_groups s) in
  let p := clamp_page page in let n := clamp_size pageSize in
  (Z.of_nat (length groups) ≤ 2 ^ 62)%Z → ((p - 1) * n < 2 ^ 63)%Z →
  run (ListGroups env page pageSize search) s =
  (Ok (Some {| lg_Items := map toGroupView (take (Z.to_nat n) (drop (Z.to_nat ((p - 1) * n)) groups));
               lg_Page := p; lg_PageSize := n; lg_Total := Z.of_nat (length groups) |}), s).
Proof.
  intros Hio Hk groups p n Hl Hoff. unfold ListGroups. rewrite run_bind, (run_list _ _ Hio), rows_joined by done.
  fold groups p n.
  assert (1 ≤ p ∧ 1 ≤ n ≤ 100)%Z as [Hp Hn].
  { unfold p, n, clamp_page, clamp_size. destruct (Z.ltb_spec page 1), (Z.ltb_spec pageSize 1), (Z.ltb_spec 100 pageSize); lia. }
  rewrite slice_page by done. by rewrite run_bind, group_views_run.
Qed.

(** A page number that [ParsePagination] accepts makes the product wrap below zero,
    and the slice expression panics, whatever is stored. *)
Theorem group_list_huge_page_panics env search s :
  (∀ label, env_io (po_env env) label = None) →
  run (ListGroups env (2 ^ 63 - 1) 100 search) s = (Ok None, s).
Proof.
  intros Hio. unfold ListGroups. rewrite run_bind, (run_list _ _ Hio).
  set (groups := List.filter _ _). unfold page_bounds.
  change (wrap64 ((clamp_page (2 ^ 63 - 1) - 1) * clamp_size 100)) with (-200)%Z.
  rewrite (proj2 (Z.ltb_ge (Z.of_nat (length groups)) (-200))) by lia. done.
Qed.
End Revisions.

(** ** The sample policy *)

Section Witness.
#[local] Existing Instance ascii_text.
#[local] Existing Instance witness_engine.
#[local] Existing Instance sample_sha.
#[local] Existing Instance sample_json.
#[local] Existing Instance sample_order.

(** The second group is renamed after the draft was made. *)
Definition renamed (s : PolicyTables) : PolicyTables :=
  (run (policy_handle (sample_env "d" 0) (PUpdateGroup (rename gid_b "C" (Some 1%Z)))) s).2.

Definition rolled_back (s : PolicyTables) : PolicyTables :=
  (run (Rollback (sample_env "e" 0) "crevision0" (Some (<[gid_a := 1%Z]> {[gid_b := 2%Z]}))) s).2.

Lemma rollback_restores_captured_graph_witness :
  grp_Name <$> contents (renamed sample_draft) !! gid_b = Some "C" ∧
  contents (rolled_back (renamed sample_draft)) = contents sample_members.
Proof.
  destruct sample_reachable as [ts Hr]. split; [vm_compute; reflexivity|].
  eapply (rollback_restores_captured_graph sample_members ts (sample_env "c" 0) None "draft"
    {| rv_ID := "crevision0"; rv_ParentID := None; rv_ContentDigest := _; rv_State := "draft"; rv_CreatedAt := 0 |}
    sample_draft (renamed sample_draft) _ (sample_env "e" 0) (<[gid_a := 1%Z]> {[gid_b := 2%Z]})).
  - exact Hr.
  - vm_compute. reflexivity.
  - apply (run_steps policy_started). exists (sample_env "d" 0). left.
    by exists (PUpdateGroup (rename gid_b "C" (Some 1%Z))).
  - vm_compute. reflexivity.
Defined.

Lemma activation_binds_captured_graph_witness :
  ∃ rev s', run (Activate (sample_env "f" 0) "crevision0") sample_draft = (Ok rev, s') ∧
    graph_digest (policy_groups s') = rv_ContentDigest rev.
Proof.
  destruct sample_reachable as [ts Hr]. eexists _, _. split; [vm_compute; reflexivity|].
  eapply (activation_binds_captured_graph {| store := sample_draft; threads := _ |} (sample_env "f" 0) "crevision0").
  - unfold sample_draft. apply reachable_revision. exact Hr.
  - vm_compute. reflexivity.
Defined.

Lemma group_update_is_conditional_witness :
  ∃ view s', run (UpdateGroup (sample_env "d" 0) (rename gid_b "C" (Some 1%Z))) sample_members = (Ok view, s') ∧
    gv_Revision view = 2%Z ∧ gv_Name view = "C" ∧ pl_groups s' !! gid_a = pl_groups sample_members !! gid_a.
Proof.
  destruct sample_reachable as [ts Hr]. eexists _, _. split; [vm_compute; reflexivity|].
  split; [vm_compute; reflexivity|]. split; [vm_compute; reflexivity|].
  eapply (group_update_is_conditional {| store := sample_members; threads := ts |} (sample_env "d" 0)
    (rename gid_b "C" (Some 1%Z))); [exact Hr|vm_compute; reflexivity|vm_compute; discriminate].
Defined.

Lemma group_list_page_exact_witness :
  ∃ r, run (ListGroups (sample_env "g" 0) 2 1 "") sample_members = (Ok (Some r), sample_members) ∧
    map gv_Name (lg_Items r) = ["B"].
Proof.
  destruct sample_reachable as [ts Hr]. eexists. split.
  - apply (group_list_page_exact (sample_env "g" 0) 2 1 "" sample_members);
      [done|exact (inv_keyed _ (policy_reachable_inv _ Hr))|vm_compute; discriminate|vm_compute; reflexivity].
  - vm_compute. reflexivity.
Defined.

Lemma group_list_huge_page_panics_witness :
  run (ListGroups (sample_env "g" 0) (2 ^ 63 - 1) 100 "") sample_members = (Ok None, sample_members).
Proof. by apply group_list_huge_page_panics. Defined.
End Witness.
