(* ===== verification/RiskPolicies.v ===== *)
(** * Risk policy revisions and their bindings to groups

    The life cycle of [internal/application/iprisk/service.go] (from
    [CreatePolicy] to [EvaluateGroupMembers]) over the tables of
    [internal/repository/sqlite/iprisk.go], with the records of
    [internal/domain/iprisk_repository.go].

    The service's mutex makes each of its operations that write one atomic step.
    The tables [risk_policy_providers], [risk_policy_score_bands] and
    [risk_policy_trait_rules] only hold the lists of a revision and are read back
    with it: the first two in the order written, the third, which is selected
    without [ORDER BY], in any order (class [RowOrder]). *)

From S2P Require Import Prelude.
From S2P Require Import GoStrings.
From S2P Require Import Domain.
From S2P Require Import Lifecycle.
From S2P Require Import NodeFilter.
From S2P Require Import Policy.
From S2P Require Import Risk.
From S2P Require Import RiskEval.
From S2P Require Import Services.

(** ** Records *)

Record RiskPolicyRevision : Type := {
  rev_Policy : RiskPolicy;
  rev_RulesDigest : string;
  rev_Active : bool;
  rev_CreatedAt : time;
  rev_ActivatedAt : option time;
  rev_DeactivatedAt : option time
}.

Record RiskPolicyGroupBinding : Type := {
  bind_GroupID : string;
  bind_PolicyRevisionID : string;
  bind_CreatedAt : time;
  bind_UpdatedAt : time
}.

Definition Binding_Validate (b : RiskPolicyGroupBinding) : result DomainError unit :=
  invalid_if (negb (IsValidUUIDv7 (bind_GroupID b))) "invalid_group_id" ;;?
  invalid_if (negb (IsValidUUIDv7 (bind_PolicyRevisionID b))) "invalid_policy_revision_id" ;;?
  invalid_if (IsZero (bind_CreatedAt b) || IsZero (bind_UpdatedAt b)) "missing_binding_timestamp".

Record RiskPolicyFilter : Type := {
  pf_Active : option bool; pf_Page : Z; pf_PageSize : Z
}.

Definition Normalize (f : RiskPolicyFilter) : RiskPolicyFilter :=
  let page := if (pf_Page f <? 1)%Z then 1%Z else pf_Page f in
  let page := if (pf_PageSize f <? 1)%Z then 50%Z else page in
  let page := if (100 <? pf_PageSize f)%Z then 100%Z else page in
  {| pf_Active := pf_Active f; pf_Page := page; pf_PageSize := pf_PageSize f |}.

(** The tables, the policy groups (with their member sources) they refer to, and
    the audit trail. *)
Record RiskTables : Type := {
  tb_policies : gmap string RiskPolicyRevision;
  tb_bindings : gmap string RiskPolicyGroupBinding;
  tb_groups : gmap string (list MemberSource);
  tb_trail : list AuditEvent
}.

#[export] Instance risk_audited : Audited RiskTables := {
  trail := tb_trail;
  with_trail := λ l s, {| tb_policies := tb_policies s; tb_bindings := tb_bindings s;
                          tb_groups := tb_groups s; tb_trail := l |}
}.

Definition with_policies (m : gmap string RiskPolicyRevision) (s : RiskTables) : RiskTables :=
  {| tb_policies := m; tb_bindings := tb_bindings s; tb_groups := tb_groups s;
     tb_trail := tb_trail s |}.
Definition with_bindings (m : gmap string RiskPolicyGroupBinding) (s : RiskTables)
    : RiskTables :=
  {| tb_policies := tb_policies s; tb_bindings := m; tb_groups := tb_groups s;
     tb_trail := tb_trail s |}.

(** Rows of a [SELECT] without [ORDER BY]. *)
Class RowOrder := {
  rows : list TraitRule → list TraitRule;
  rows_perm : ∀ l, rows l ≡ₚ l
}.

(** ** The repositories *)

Section Repository.
Context `{GoText} `{TextScanner} `{Sha256} `{RowOrder}.
Context (sort_bands : list ScoreBand → list ScoreBand).

Definition validate_policy (p : RiskPolicy) : result DomainError unit :=
  RiskPolicy_Validate (sort_bands (pol_ScoreBands p)) p.

(** The rules digest of a revision that brings none. *)
Definition rules_text (p : RiskPolicy) : string :=
  String.concat "" (map (λ r, "trait:" +:+ trait_Trait r +:+ ":" +:+ trait_Action r +:+ ";")
    (pol_TraitRules p)) +:+
  String.concat "" (map (λ b, "band:" +:+ itoa (band_Min b) +:+ ":" +:+ itoa (band_Max b) +:+
    ":" +:+ band_Band b +:+ ":" +:+ band_Action b +:+ ";") (pol_ScoreBands p)) +:+
  String.concat "" (map (λ r, "prov:" +:+ prov_Provider r +:+ ":" +:+ prov_SchemaVersion r +:+
    ";") (sel_Providers (pol_ProviderSelection p))).
Definition rules_digest (rev : RiskPolicyRevision) : string :=
  if String.eqb (TrimSpace (rev_RulesDigest rev)) ""
  then "sha256:" +:+ hex_bytes (sha256_Sum256 (rules_text (rev_Policy rev)))
  else TrimSpace (rev_RulesDigest rev).

(** The values written by the [INSERT], and what a [SELECT] makes of them. *)
Definition age_seconds (p : RiskPolicy) : Z := Z.quot (pol_MaxObservationAge p) second.
Definition stored_policy (p : RiskPolicy) : RiskPolicy :=
  {| pol_RevisionID := pol_RevisionID p; pol_ProviderSelection := pol_ProviderSelection p;
     pol_MaxObservationAge := age_seconds p * second;
     pol_MinimumConfidence := pol_MinimumConfidence p; pol_ScoreBands := pol_ScoreBands p;
     pol_TraitRules := pol_TraitRules p; pol_UnknownAction := EffectiveUnknownAction p;
     pol_ConflictAction := EffectiveConflictAction p;
     pol_ReviewAction := EffectiveReviewAction p |}.
Definition loaded_policy (p : RiskPolicy) : RiskPolicy :=
  {| pol_RevisionID := pol_RevisionID p; pol_ProviderSelection := pol_ProviderSelection p;
     pol_MaxObservationAge := pol_MaxObservationAge p;
     pol_MinimumConfidence := pol_MinimumConfidence p; pol_ScoreBands := pol_ScoreBands p;
     pol_TraitRules := rows (pol_TraitRules p); pol_UnknownAction := pol_UnknownAction p;
     pol_ConflictAction := pol_ConflictAction p; pol_ReviewAction := pol_ReviewAction p |}.
Definition loaded (r : RiskPolicyRevision) : RiskPolicyRevision :=
  {| rev_Policy := loaded_policy (rev_Policy r); rev_RulesDigest := rev_RulesDigest r;
     rev_Active := rev_Active r; rev_CreatedAt := rev_CreatedAt r;
     rev_ActivatedAt := rev_ActivatedAt r; rev_DeactivatedAt := rev_DeactivatedAt r |}.

Definition policy_not_found : error :=
  domain_error (NewNotFoundError "risk_policy_revision_not_found").

Definition policies_GetByID (env : Env) (label id : string)
    : M RiskTables RiskPolicyRevision :=
  query env label (λ s, match tb_policies s !! id with
                        | Some r => Ok (loaded r) | None => Err policy_not_found end).

(** [WHERE active = 1 ORDER BY created_at DESC LIMIT 1] *)
Definition active_rows (s : RiskTables) : list RiskPolicyRevision :=
  List.filter rev_Active (map snd (map_to_list (tb_policies s))).
Definition newest_first (a b : RiskPolicyRevision) : bool :=
  (rev_CreatedAt b <? rev_CreatedAt a)%Z.
Definition policies_GetActive (env : Env) (label : string) : M RiskTables RiskPolicyRevision :=
  query env label (λ s, match sort_stable newest_first (active_rows s) with
                        | r :: _ => Ok (loaded r) | [] => Err policy_not_found end).

Definition policies_Create (env : Env) (rev : RiskPolicyRevision)
    : M RiskTables RiskPolicyRevision :=
  let created := if IsZero (rev_CreatedAt rev) then env_now env else rev_CreatedAt rev in
  lift (validate_policy (rev_Policy rev)) ;;!
  let p := rev_Policy rev in
  let id := pol_RevisionID p in
  statement env "policies.Create" (λ s,
    if negb (is_nil (tb_policies s !! id)) then Err (driver_error "UNIQUE constraint failed")
    else if (age_seconds p <=? 0)%Z then Err (driver_error "CHECK constraint failed")
    else if rev_Active rev && (0 <? length (active_rows s)) then
      Err (driver_error "UNIQUE constraint failed")
    else
      Ok ({| rev_Policy := p; rev_RulesDigest := rules_digest rev; rev_Active := rev_Active rev;
             rev_CreatedAt := created; rev_ActivatedAt := rev_ActivatedAt rev;
             rev_DeactivatedAt := rev_DeactivatedAt rev |},
          with_policies (<[id := {| rev_Policy := stored_policy p;
                                    rev_RulesDigest := rules_digest rev;
                                    rev_Active := rev_Active rev;
                                    rev_CreatedAt := rfc3339 created;
                                    rev_ActivatedAt := None; rev_DeactivatedAt := None |}]>
                           (tb_policies s)) s)).

Definition activated (now : time) (r : RiskPolicyRevision) : RiskPolicyRevision :=
  {| rev_Policy := rev_Policy r; rev_RulesDigest := rev_RulesDigest r; rev_Active := true;
     rev_CreatedAt := rev_CreatedAt r; rev_ActivatedAt := Some (rfc3339 now);
     rev_DeactivatedAt := None |}.
Definition deactivated (now : time) (r : RiskPolicyRevision) : RiskPolicyRevision :=
  {| rev_Policy := rev_Policy r; rev_RulesDigest := rev_RulesDigest r; rev_Active := false;
     rev_CreatedAt := rev_CreatedAt r; rev_ActivatedAt := rev_ActivatedAt r;
     rev_DeactivatedAt := Some (rfc3339 now) |}.
(** [UPDATE ... WHERE active = 1] *)
Definition deactivate_active (now : time) (r : RiskPolicyRevision) : RiskPolicyRevision :=
  if rev_Active r then deactivated now r else r.

Definition policies_SetActive (env : Env) (id : string) (active : bool) : M RiskTables unit :=
  statement env "policies.SetActive" (λ s,
    let now := env_now env in
    let m := if active then deactivate_active now <$> tb_policies s else tb_policies s in
    match m !! id with
    | None => Err policy_not_found
    | Some r => Ok (tt, with_policies
        (<[id := if active then activated now r else deactivated now r]> m) s)
    end).

(** The count, and the page of the newest revisions; rows created in the same
    second come in any order. *)
Definition policies_List (env : Env) (f : RiskPolicyFilter)
    : M RiskTables (list RiskPolicyRevision * nat) :=
  let norm := Normalize f in
  query env "policies.List" (λ s,
    let selected := List.filter (λ r, match pf_Active f with
                                      | Some a => Bool.eqb (rev_Active r) a
                                      | None => true end)
                      (map snd (map_to_list (tb_policies s))) in
    let offset := ((pf_Page norm - 1) * pf_PageSize norm)%Z in
    Ok (map loaded (take (Z.to_nat (pf_PageSize norm))
          (drop (Z.to_nat offset) (sort_stable newest_first selected))), length selected)).

Definition bindings_GetByGroupID (env : Env) (group : string)
    : M RiskTables RiskPolicyGroupBinding :=
  query env "bindings.GetByGroupID" (λ s,
    match tb_bindings s !! group with
    | Some b => Ok b
    | None => Err (domain_error (NewNotFoundError "group_binding_not_found"))
    end).

(** Both foreign keys must exist; a second [INSERT] for a group keeps the time
    of its creation. *)
Definition bindings_Set (env : Env) (b : RiskPolicyGroupBinding) : M RiskTables unit :=
  lift (Binding_Validate b) ;;!
  statement env "bindings.Set" (λ s,
    if is_nil (tb_groups s !! bind_GroupID b) ||
       is_nil (tb_policies s !! bind_PolicyRevisionID b)
    then Err (driver_error "FOREIGN KEY constraint failed")
    else
      Ok (tt, with_bindings (<[bind_GroupID b :=
        {| bind_GroupID := bind_GroupID b; bind_PolicyRevisionID := bind_PolicyRevisionID b;
           bind_CreatedAt := match tb_bindings s !! bind_GroupID b with
                             | Some old => bind_CreatedAt old
                             | None => rfc3339 (bind_CreatedAt b) end;
           bind_UpdatedAt := rfc3339 (bind_UpdatedAt b) |}]> (tb_bindings s)) s)).

Definition bindings_Delete (env : Env) (group : string) : M RiskTables unit :=
  statement env "bindings.Delete" (λ s,
    match tb_bindings s !! group with
    | None => Err (domain_error (NewNotFoundError "group_binding_not_found"))
    | Some _ => Ok (tt, with_bindings (delete group (tb_bindings s)) s)
    end).

(** [GetGroupByID] and [ListEdgesByGroup] of the policy repository. *)
Definition groups_Get (env : Env) (group : string) : M RiskTables unit :=
  query env "groups.GetByID" (λ s,
    if is_nil (tb_groups s !! group)
    then Err (domain_error (NewNotFoundError "node_group_not_found")) else Ok tt).
Definition groups_Edges (env : Env) (label group : string) : M RiskTables (list GroupEdge) :=
  query env label (λ s, Ok (ProjectSourceEdges (default [] (tb_groups s !! group)))).
End Repository.

(** ** The service *)

(** Which optional repositories the service was built with. *)
Record RiskServiceConfig : Type := {
  has_policies : bool; has_bindings : bool; has_groups : bool
}.

Record CreateRiskPolicyCommand : Type := {
  cmd_RevisionID : string;
  cmd_ProviderSelection : RiskProviderSelection;
  cmd_MaxObservationAge : Z;
  cmd_MinimumConfidence : Z;
  cmd_ScoreBands : list ScoreBand;
  cmd_TraitRules : list TraitRule;
  cmd_UnknownAction : string;
  cmd_ConflictAction : string;
  cmd_ReviewAction : string
}.

Record GroupRiskEvaluationResult : Type := {
  gre_GroupID : string;
  gre_PolicyRevisionID : string;
  gre_PolicyActive : bool;
  gre_AdmittedMembers : list string;
  gre_ExcludedMembers : list string
}.

Section Service.
Context `{GoText} `{TextScanner} `{Sha256} `{RowOrder}.
Context (sort_bands : list ScoreBand → list ScoreBand) (cfg : RiskServiceConfig).

Definition missing_policies : DomainError := NewInternalError "missing_policy_repository".
Definition missing_bindings : DomainError := NewInternalError "missing_binding_repository".

Definition new_policy (id : string) (cmd : CreateRiskPolicyCommand) : RiskPolicy :=
  {| pol_RevisionID := id; pol_ProviderSelection := cmd_ProviderSelection cmd;
     pol_MaxObservationAge := cmd_MaxObservationAge cmd;
     pol_MinimumConfidence := cmd_MinimumConfidence cmd; pol_ScoreBands := cmd_ScoreBands cmd;
     pol_TraitRules := cmd_TraitRules cmd; pol_UnknownAction := cmd_UnknownAction cmd;
     pol_ConflictAction := cmd_ConflictAction cmd; pol_ReviewAction := cmd_ReviewAction cmd |}.

Definition revision_id (env : Env) (cmd : CreateRiskPolicyCommand) : M RiskTables string :=
  let id := TrimSpace (cmd_RevisionID cmd) in
  if String.eqb id "" then
    match env_uuid env with
    | Some u => ret u
    | None => fail (driver_error "failed to read random bytes")
    end
  else fail_when (negb (IsValidUUIDv7 id))
         (NewValidationError "invalid_risk_policy_revision_id") ;;! ret id.

Definition CreatePolicy (env : Env) (cmd : CreateRiskPolicyCommand)
    : M RiskTables RiskPolicyRevision :=
  let op := "risk_policy.create" in
  let! id := audited env op (revision_id env cmd) in
  let p := new_policy id cmd in
  audited env op (lift (validate_policy sort_bands p)) ;;!
  fail_when (negb (has_policies cfg)) missing_policies ;;!
  let! rev := audited env op (policies_Create sort_bands env
    {| rev_Policy := p; rev_RulesDigest := ""; rev_Active := false;
       rev_CreatedAt := env_now env; rev_ActivatedAt := None; rev_DeactivatedAt := None |}) in
  recordAudit env op true ;;! ret rev.

Definition ListPolicies (env : Env) (f : RiskPolicyFilter)
    : M RiskTables (list RiskPolicyRevision * nat) :=
  fail_when ((pf_Page f <? 0) || (pf_PageSize f <? 0))%Z
    (NewValidationError "invalid_pagination") ;;!
  fail_when (negb (has_policies cfg)) missing_policies ;;!
  policies_List env f.

Definition check_revision_id (id : string) : M RiskTables unit :=
  fail_when (negb (IsValidUUIDv7 id)) (NewValidationError "invalid_risk_policy_revision_id").

Definition GetPolicy (env : Env) (id : string) : M RiskTables RiskPolicyRevision :=
  let id := TrimSpace id in
  check_revision_id id ;;!
  fail_when (negb (has_policies cfg)) missing_policies ;;!
  policies_GetByID env "policies.GetByID" id.

Definition GetActivePolicy (env : Env) : M RiskTables RiskPolicyRevision :=
  fail_when (negb (has_policies cfg)) missing_policies ;;!
  policies_GetActive env "policies.GetActive".

Definition ReviewPolicy (env : Env) (id : string) : M RiskTables RiskPolicyRevision :=
  let op := "risk_policy.review" in
  let id := TrimSpace id in
  audited env op (check_revision_id id) ;;!
  fail_when (negb (has_policies cfg)) missing_policies ;;!
  let! rev := audited env op (policies_GetByID env "policies.GetByID" id) in
  audited env op (lift (validate_policy sort_bands (rev_Policy rev))) ;;!
  recordAudit env op true ;;! ret rev.

Definition ActivatePolicy (env : Env) (id : string) : M RiskTables RiskPolicyRevision :=
  let op := "risk_policy.activate" in
  let id := TrimSpace id in
  audited env op (check_revision_id id) ;;!
  fail_when (negb (has_policies cfg)) missing_policies ;;!
  let! rev := audited env op (policies_GetByID env "policies.GetByID" id) in
  audited env op (lift (validate_policy sort_bands (rev_Policy rev))) ;;!
  audited env op (policies_SetActive env id true) ;;!
  let! updated := policies_GetByID env "policies.GetByID again" id in
  recordAudit env op true ;;! ret updated.

Definition DeactivatePolicy (env : Env) (id : string) : M RiskTables RiskPolicyRevision :=
  let op := "risk_policy.deactivate" in
  let id := TrimSpace id in
  audited env op (check_revision_id id) ;;!
  fail_when (negb (has_policies cfg)) missing_policies ;;!
  audited env op (policies_GetByID env "policies.GetByID" id) ;;!
  audited env op (policies_SetActive env id false) ;;!
  let! updated := policies_GetByID env "policies.GetByID again" id in
  recordAudit env op true ;;! ret updated.

Definition BindGroup (env : Env) (group policy : string) : M RiskTables RiskPolicyGroupBinding :=
  let op := "risk_policy.bind_group" in
  let group := TrimSpace group in
  let policy := TrimSpace policy in
  audited env op (fail_when (negb (IsValidUUIDv7 group)) (NewValidationError "invalid_group_id")) ;;!
  audited env op (fail_when (negb (IsValidUUIDv7 policy))
    (NewValidationError "invalid_policy_revision_id")) ;;!
  (if has_groups cfg then audited env op (groups_Get env group) else ret tt) ;;!
  (if has_policies cfg
   then audited env op (policies_GetByID env "policies.GetByID" policy) ;;! ret tt else ret tt) ;;!
  fail_when (negb (has_bindings cfg)) missing_bindings ;;!
  let b := {| bind_GroupID := group; bind_PolicyRevisionID := policy;
              bind_CreatedAt := env_now env; bind_UpdatedAt := env_now env |} in
  audited env op (bindings_Set env b) ;;!
  recordAudit env op true ;;! ret b.

Definition UnbindGroup (env : Env) (group : string) : M RiskTables unit :=
  let op := "risk_policy.unbind_group" in
  let group := TrimSpace group in
  audited env op (fail_when (negb (IsValidUUIDv7 group)) (NewValidationError "invalid_group_id")) ;;!
  fail_when (negb (has_bindings cfg)) missing_bindings ;;!
  audited env op (bindings_Delete env group) ;;!
  recordAudit env op true.

Definition GetGroupBinding (env : Env) (group : string) : M RiskTables RiskPolicyGroupBinding :=
  let group := TrimSpace group in
  fail_when (negb (IsValidUUIDv7 group)) (NewValidationError "invalid_group_id") ;;!
  fail_when (negb (has_bindings cfg)) missing_bindings ;;!
  bindings_GetByGroupID env group.

(** ** The members of a group under its policy *)

Definition add_member_id (acc : list string) (nid : option string) : list string :=
  match nid with
  | Some n => if String.eqb n "" || mem_str n acc then acc else acc ++ [n]
  | None => acc
  end.

(** One edge: its node, and the nodes of its child group when these can be read. *)
Definition edge_members (env : Env) (s : RiskTables) (acc : list string) (e : GroupEdge)
    : list string :=
  let acc := add_member_id acc (edge_NodeLogicalID e) in
  match edge_ChildGroupID e with
  | Some child =>
      if String.eqb child "" then acc
      else match (groups_Edges env ("groups.Edges " +:+ child) child s).1 with
           | Ok edges => fold_left add_member_id (map edge_NodeLogicalID edges) acc
           | Err _ => acc
           end
  | None => acc
  end.

(** A pure read: [None] stands for a panic of the evaluation. *)
Definition EvaluateGroupMembers (env : Env) (repos : RiskRepositories) (group : string)
    (s : RiskTables) : option (result error GroupRiskEvaluationResult) :=
  let group := TrimSpace group in
  match (fail_when (negb (IsValidUUIDv7 group)) (NewValidationError "invalid_group_id") ;;!
         fail_when (negb (has_groups cfg)) (NewInternalError "missing_group_repository") ;;!
         groups_Get env group ;;! groups_Edges env "groups.Edges" group) s with
  | (Err e, _) => Some (Err e)
  | (Ok edges, _) =>
      let members := sort_strings (fold_left (edge_members env s) edges []) in
      let all_admitted policy :=
        {| gre_GroupID := group; gre_PolicyRevisionID := policy; gre_PolicyActive := false;
           gre_AdmittedMembers := members; gre_ExcludedMembers := [] |} in
      if negb (has_bindings cfg) then Some (Ok (all_admitted ""))
      else match (bindings_GetByGroupID env group s).1 with
      | Err _ => Some (Ok (all_admitted ""))
      | Ok b =>
          let policy := bind_PolicyRevisionID b in
          if negb (has_policies cfg) then Some (Ok (all_admitted policy))
          else match (policies_GetByID env "policies.GetByID" policy s).1 with
          | Err e => Some (Err e)
          | Ok rev =>
              if negb (rev_Active rev) then Some (Ok (all_admitted policy))
              else match EvaluateBatch (env_now env) sort_bands repos members ∅
                           (Some (rev_Policy rev)) (pol_RevisionID (rev_Policy rev)) 0%Z [] with
              | None => None
              | Some (Err e) => Some (Err (domain_error e))
              | Some (Ok batch) =>
                  Some (Ok {| gre_GroupID := group; gre_PolicyRevisionID := policy;
                              gre_PolicyActive := true;
                              gre_AdmittedMembers := batch_AdmittedNodeIDs batch;
                              gre_ExcludedMembers := batch_ExcludedNodeIDs batch |})
              end
          end
      end
  end.
End Service.

(** ** What the tables hold *)

Section Valid.
Context `{GoText} `{TextScanner} `{Sha256} `{RowOrder}.
Context (sort_bands : list ScoreBand → list ScoreBand).

Lemma duplicate_traits_nodup rs :
  duplicate_traits rs = false ↔ NoDup (map trait_Trait rs).
Proof.
  induction rs as [|r rs IH]; simpl; [split; [constructor|done]|].
  rewrite orb_false_iff, IH, NoDup_cons, <- not_true_iff_false, existsb_exists.
  apply and_iff_compat_r. rewrite list_elem_of_fmap. split.
  - intros Hn (y & He & Hy). apply Hn. exists y. rewrite list_elem_of_In in Hy.
    split; [done|]. by apply String.eqb_eq.
  - intros Hn (y & Hy & He%String.eqb_eq). apply Hn. exists y. by rewrite list_elem_of_In.
Qed.

(** Storing a policy fills in its defaults and keeps it valid. *)
Lemma stored_policy_valid p :
  validate_policy sort_bands p = Ok tt → (0 < age_seconds p)%Z →
  validate_policy sort_bands (stored_policy p) = Ok tt.
Proof.
  unfold validate_policy, RiskPolicy_Validate. rewrite !seq_ok.
  cbn [stored_policy pol_RevisionID pol_ProviderSelection pol_MaxObservationAge
       pol_MinimumConfidence pol_ScoreBands pol_TraitRules pol_UnknownAction
       pol_ConflictAction pol_ReviewAction].
  intros (? & ? & ? & ? & Hlim & ? & ? & ? & _ & _) Hage.
  repeat (split; [done|]). split; [|split; [done|]; split; [done|]; split; [done|]; split; [|done]].
  - rewrite invalid_if_ok in *. rewrite !orb_false_iff in *. destruct Hlim as [[_ ?] ?].
    split; [split; [|done]|done]. apply Z.leb_gt. unfold second. lia.
  - apply for_each_ok. intros [name action] Hx. apply invalid_if_ok, andb_false_iff. right.
    apply negb_false_iff.
    rewrite !elem_of_cons, elem_of_nil in Hx.
    assert (∀ a, isPolicyAction (effective_action a) = true) as He
      by (intros a; unfold effective_action; by destruct (isPolicyAction a) eqn:E).
    destruct Hx as [[= -> ->]|[[= -> ->]|[[= -> ->]|[]]]]; apply He.
Qed.

(** Reading it back, with the trait rules in any order, too. *)
Lemma loaded_policy_valid p :
  validate_policy sort_bands (loaded_policy p) = Ok tt ↔ validate_policy sort_bands p = Ok tt.
Proof.
  unfold validate_policy, RiskPolicy_Validate. rewrite !seq_ok.
  cbn [loaded_policy pol_RevisionID pol_ProviderSelection pol_MaxObservationAge
       pol_MinimumConfidence pol_ScoreBands pol_TraitRules pol_UnknownAction
       pol_ConflictAction pol_ReviewAction].
  do 6 (apply and_iff_compat_l). rewrite !for_each_ok, !invalid_if_ok, !duplicate_traits_nodup.
  pose proof (rows_perm (pol_TraitRules p)) as Hp.
  f_equiv; [by setoid_rewrite Hp|]. f_equiv. by rewrite Hp.
Qed.

Record tables_ok (s : RiskTables) : Prop := {
  ok_ids : ∀ id r, tb_policies s !! id = Some r → pol_RevisionID (rev_Policy r) = id;
  ok_valid : ∀ id r, tb_policies s !! id = Some r →
    validate_policy sort_bands (rev_Policy r) = Ok tt;
  ok_single : ∀ i j r r', tb_policies s !! i = Some r → tb_policies s !! j = Some r' →
    rev_Active r = true → rev_Active r' = true → i = j;
  ok_bound : ∀ g b, tb_bindings s !! g = Some b →
    is_Some (tb_policies s !! bind_PolicyRevisionID b) ∧ is_Some (tb_groups s !! g)
}.

(** The abstract state: which revisions exist, which one is active, and which
    revision each group is bound to. *)
Record Spec : Type := {
  sp_known : gset string; sp_active : option string; sp_bound : gmap string string
}.

Definition active_id (m : gmap string RiskPolicyRevision) : option string :=
  fst <$> head (List.filter (λ kr, rev_Active kr.2) (map_to_list m)).
Definition abs (s : RiskTables) : Spec :=
  {| sp_known := dom (tb_policies s); sp_active := active_id (tb_policies s);
     sp_bound := bind_PolicyRevisionID <$> tb_bindings s |}.

Definition single_active (m : gmap string RiskPolicyRevision) : Prop :=
  ∀ i j r r', m !! i = Some r → m !! j = Some r' →
    rev_Active r = true → rev_Active r' = true → i = j.

Lemma active_id_spec m id :
  single_active m →
  (active_id m = Some id ↔ ∃ r, m !! id = Some r ∧ rev_Active r = true).
Proof.
  intros Hs. unfold active_id.
  assert (∀ kr, kr ∈ List.filter (λ kr, rev_Active kr.2) (map_to_list m) ↔
    m !! kr.1 = Some kr.2 ∧ rev_Active kr.2 = true) as Hf.
  { intros [k r]. rewrite list_elem_of_In, filter_In, <- list_elem_of_In, elem_of_map_to_list. done. }
  destruct (List.filter _ _) as [|[k r] l] eqn:El; simpl.
  - split; [done|]. intros (r & Hr & Ha). exfalso. by eapply (not_elem_of_nil (id, r)), Hf.
  - split.
    + intros [= <-]. destruct (proj1 (Hf (k, r)) ltac:(set_solver)) as [? ?]. by exists r.
    + intros (r' & Hr' & Ha'). destruct (proj1 (Hf (k, r)) ltac:(set_solver)) as [Hk Ha].
      simpl in *. f_equal. by eapply Hs.
Qed.
End Valid.

(** ** The service refines the abstract state *)

Inductive command : Type :=
  | Create (cmd : CreateRiskPolicyCommand)
  | Review (id : string)
  | Activate (id : string)
  | Deactivate (id : string)
  | Bind (group policy : string)
  | Unbind (group : string).

(** What a command does when it succeeds; [id] is the revision it answers with. *)
Definition effect (c : command) (id : string) (a : Spec) : Spec :=
  match c with
  | Create _ => {| sp_known := {[id]} ∪ sp_known a; sp_active := sp_active a;
                   sp_bound := sp_bound a |}
  | Review _ => a
  | Activate _ => {| sp_known := sp_known a; sp_active := Some id; sp_bound := sp_bound a |}
  | Deactivate _ =>
      {| sp_known := sp_known a;
         sp_active := if decide (sp_active a = Some id) then None else sp_active a;
         sp_bound := sp_bound a |}
  | Bind g _ => {| sp_known := sp_known a; sp_active := sp_active a;
                   sp_bound := <[TrimSpace g := id]> (sp_bound a) |}
  | Unbind g => {| sp_known := sp_known a; sp_active := sp_active a;
                   sp_bound := delete (TrimSpace g) (sp_bound a) |}
  end.

(** The revision a command names. *)
Definition subject (c : command) : string :=
  match c with
  | Create _ | Unbind _ => ""
  | Review id | Activate id | Deactivate id | Bind _ id => TrimSpace id
  end.

Section Refinement.
Context `{GoText} `{TextScanner} `{Sha256} `{RowOrder}.
Context (sort_bands : list ScoreBand → list ScoreBand) (cfg : RiskServiceConfig).

Definition perform (env : Env) (c : command) : M RiskTables string :=
  let named (m : M RiskTables RiskPolicyRevision) :=
    let! r := m in ret (pol_RevisionID (rev_Policy r)) in
  match c with
  | Create cmd => named (CreatePolicy sort_bands cfg env cmd)
  | Review id => named (ReviewPolicy sort_bands cfg env id)
  | Activate id => named (ActivatePolicy sort_bands cfg env id)
  | Deactivate id => named (DeactivatePolicy cfg env id)
  | Bind g p => let! b := BindGroup cfg env g p in ret (bind_PolicyRevisionID b)
  | Unbind g => UnbindGroup cfg env g ;;! ret ""
  end.

Notation tables_ok := (tables_ok sort_bands).

Lemma trail_ok t s : tables_ok s → tables_ok (with_trail t s).
Proof. intros Hs. split; apply Hs. Qed.

(** The tables stay consistent, and either the effect of the command is there or
    nothing changed. *)
Definition outcome (env : Env) (c : command) (s : RiskTables) (r : result error string)
    (s' : RiskTables) : Prop :=
  tables_ok s' ∧
  match r with
  | Ok id => abs s' = effect c id (abs s) ∧ (subject c = "" ∨ id = subject c)
  | Err _ => abs s' = abs s ∨
      (is_Some (env_io env "policies.GetByID again") ∧ abs s' = effect c (subject c) (abs s))
  end.

Lemma create_ok p digest created s :
  tables_ok s → validate_policy sort_bands p = Ok tt → (0 < age_seconds p)%Z →
  tb_policies s !! pol_RevisionID p = None →
  let s' := with_policies (<[pol_RevisionID p :=
    {| rev_Policy := stored_policy p; rev_RulesDigest := digest; rev_Active := false;
       rev_CreatedAt := created; rev_ActivatedAt := None; rev_DeactivatedAt := None |}]>
    (tb_policies s)) s in
  tables_ok s' ∧
  abs s' = {| sp_known := {[pol_RevisionID p]} ∪ sp_known (abs s);
              sp_active := sp_active (abs s); sp_bound := sp_bound (abs s) |}.
Proof.
  intros Hs Hv Hage Hfresh s'.
  assert (single_active (tb_policies s')) as Hsingle.
  { intros i j r r'. simpl. rewrite !lookup_insert_Some.
    intros [[<- <-]|[_ Hi]] [[<- <-]|[_ Hj]] ? ?; try done. by eapply (ok_single _ _ Hs). }
  split.
  - split; simpl.
    + intros id r. rewrite lookup_insert_Some. intros [[<- <-]|[_ Hr]]; [done|]. by apply Hs.
    + intros id r. rewrite lookup_insert_Some. intros [[<- <-]|[_ Hr]].
      * by apply stored_policy_valid.
      * by eapply Hs.
    + done.
    + intros g b Hb. destruct (ok_bound _ _ Hs g b Hb) as [[r Hr] ?]. split; [|done].
      apply lookup_insert_is_Some'. by right.
  - unfold abs. simpl. f_equal; [apply dom_insert_L|].
    apply option_eq. intros id. rewrite !active_id_spec by first [done | exact (ok_single _ _ Hs)]. simpl.
    split; intros (r & Hr & Ha); exists r; (split; [|done]).
    + apply lookup_insert_Some in Hr as [[_ <-]|[_ ?]]; done.
    + rewrite lookup_insert_ne; [done|]. intros <-. congruence.
Qed.

(** Activating a stored revision makes it the only active one. *)
Lemma activate_ok now id r s :
  tables_ok s → tb_policies s !! id = Some r →
  let m := deactivate_active now <$> tb_policies s in
  let s' := with_policies (<[id := activated now (deactivate_active now r)]> m) s in
  tables_ok s' ∧
  abs s' = {| sp_known := sp_known (abs s); sp_active := Some id; sp_bound := sp_bound (abs s) |}.
Proof.
  intros Hs Hr m s'.
  assert (∀ x, rev_Policy (deactivate_active now x) = rev_Policy x) as Hpol
    by (intros x; unfold deactivate_active; by destruct (rev_Active x)).
  assert (∀ x, rev_Active (deactivate_active now x) = false) as Hoff
    by (intros x; unfold deactivate_active; by destruct (rev_Active x) eqn:E).
  assert (∀ i x, tb_policies s' !! i = Some x →
    (∃ y, tb_policies s !! i = Some y ∧ rev_Policy x = rev_Policy y) ∧
    (rev_Active x = true → i = id)) as Hrow.
  { intros i x. simpl. unfold m. rewrite lookup_insert_Some, lookup_fmap_Some.
    intros [[<- <-]|[_ (y & <- & Hy)]]; [split; [|done]; exists r; split; [done|apply Hpol]|].
    split; [by exists y|]. by rewrite Hoff. }
  assert (single_active (tb_policies s')) as Hsingle.
  { intros i j x y Hi Hj Ha Hb. by rewrite (proj2 (Hrow _ _ Hi) Ha), (proj2 (Hrow _ _ Hj) Hb). }
  assert (dom (tb_policies s') = dom (tb_policies s)) as Hdom.
  { simpl. unfold m. rewrite dom_insert_L, dom_fmap_L. apply elem_of_dom_2 in Hr. set_solver. }
  split; [split|].
  - intros i x Hi. destruct (Hrow _ _ Hi) as [(y & Hy & ->) _]. by apply Hs.
  - intros i x Hi. destruct (Hrow _ _ Hi) as [(y & Hy & ->) _]. by eapply Hs.
  - done.
  - intros g b Hb. destruct (ok_bound _ _ Hs g b Hb) as [Hp ?]. split; [|done].
    rewrite <- elem_of_dom in *. by rewrite Hdom.
  - unfold abs. f_equal; [done|]. apply active_id_spec; [done|].
    exists (activated now (deactivate_active now r)). simpl. by rewrite lookup_insert_eq.
Qed.

Lemma deactivate_ok now id r s :
  tables_ok s → tb_policies s !! id = Some r →
  let s' := with_policies (<[id := deactivated now r]> (tb_policies s)) s in
  tables_ok s' ∧
  abs s' = {| sp_known := sp_known (abs s);
              sp_active := if decide (sp_active (abs s) = Some id) then None
                           else sp_active (abs s);
              sp_bound := sp_bound (abs s) |}.
Proof.
  intros Hs Hr s'.
  assert (∀ i x, tb_policies s' !! i = Some x →
    (∃ y, tb_policies s !! i = Some y ∧ rev_Policy x = rev_Policy y ∧
      (rev_Active x = true → rev_Active y = true ∧ i ≠ id))) as Hrow.
  { intros i x. simpl. rewrite lookup_insert_Some.
    intros [[<- <-]|[Hne Hx]]; [by exists r|]. by exists x. }
  assert (single_active (tb_policies s')) as Hsingle.
  { intros i j x y Hi Hj Ha Hb. destruct (Hrow _ _ Hi) as (x' & ? & _ & [? _]); [done|].
    destruct (Hrow _ _ Hj) as (y' & ? & _ & [? _]); [done|]. by eapply (ok_single _ _ Hs). }
  assert (dom (tb_policies s') = dom (tb_policies s)) as Hdom.
  { simpl. rewrite dom_insert_L. apply elem_of_dom_2 in Hr. set_solver. }
  split; [split|].
  - intros i x Hi. destruct (Hrow _ _ Hi) as (y & Hy & -> & _). by apply Hs.
  - intros i x Hi. destruct (Hrow _ _ Hi) as (y & Hy & -> & _). by eapply Hs.
  - done.
  - intros g b Hb. destruct (ok_bound _ _ Hs g b Hb) as [Hp ?]. split; [|done].
    rewrite <- elem_of_dom in *. by rewrite Hdom.
  - unfold abs. f_equal; [done|]. cbn [sp_active].
    assert (∀ k, active_id (tb_policies s') = Some k ↔
      active_id (tb_policies s) = Some k ∧ k ≠ id) as Hk.
    { intros k. rewrite !active_id_spec by first [done | exact (ok_single _ _ Hs)]. simpl. split.
      - intros (x & Hx & Ha). apply lookup_insert_Some in Hx as [[_ <-]|[? ?]]; [done|].
        split; [by exists x|done].
      - intros [(x & Hx & Ha) Hne]. exists x. by rewrite lookup_insert_ne. }
    apply option_eq. intros k. rewrite Hk. case_decide as Hd; [|naive_solver congruence].
    rewrite Hd. split; [|done]. by intros [[= <-] ?].
Qed.

Lemma bind_ok_tables b s :
  tables_ok s → is_Some (tb_groups s !! bind_GroupID b) →
  is_Some (tb_policies s !! bind_PolicyRevisionID b) →
  let s' := with_bindings (<[bind_GroupID b := b]> (tb_bindings s)) s in
  tables_ok s' ∧
  abs s' = {| sp_known := sp_known (abs s); sp_active := sp_active (abs s);
              sp_bound := <[bind_GroupID b := bind_PolicyRevisionID b]> (sp_bound (abs s)) |}.
Proof.
  intros Hs Hg Hp s'. split; [split; try apply Hs|].
  - intros g b'. simpl. rewrite lookup_insert_Some. intros [[<- <-]|[_ Hb]]; [done|].
    by eapply (ok_bound _ _ Hs).
  - unfold abs. simpl. by rewrite fmap_insert.
Qed.

Lemma unbind_ok_tables g s :
  tables_ok s →
  let s' := with_bindings (delete g (tb_bindings s)) s in
  tables_ok s' ∧
  abs s' = {| sp_known := sp_known (abs s); sp_active := sp_active (abs s);
              sp_bound := delete g (sp_bound (abs s)) |}.
Proof.
  intros Hs s'. split; [split; try apply Hs|].
  - intros g' b'. simpl. rewrite lookup_delete_Some. intros [_ Hb]. by eapply (ok_bound _ _ Hs).
  - unfold abs. simpl. by rewrite fmap_delete.
Qed.

(** Nothing but the trail changed. *)
Lemma outcome_unchanged env c s e :
  tables_ok s → outcome env c s (Err e) s ∧ ∀ t, outcome env c s (Err e) (with_trail t s).
Proof. intros Hs. split; [|intros t]; (split; [first [done|by apply trail_ok]|by left]). Qed.

Lemma wp_prefix {A} env c s op (m : M RiskTables A) (k : A → M RiskTables string) :
  tables_ok s → (m s).2 = s →
  (∀ a, (m s).1 = Ok a → wp (k a) (outcome env c s) s) →
  wp (bind (audited env op m) k) (outcome env c s) s.
Proof.
  intros Hs Hsame Hk. do 2 wp_step. unfold wp. destruct (m s) as [[a|e] s1]; simpl in *; subst s1.
  - by apply Hk.
  - by apply outcome_unchanged.
Qed.

Lemma wp_check env c s b e (k : M RiskTables string) :
  tables_ok s → (b = false → wp k (outcome env c s) s) →
  wp (fail_when b e ;;! k) (outcome env c s) s.
Proof.
  intros Hs Hk. do 2 wp_step. destruct b; [|by apply Hk].
  by apply outcome_unchanged.
Qed.

(** After the write only the trail changes. *)
Lemma wp_success {A} env c s (a : A) f s1 op :
  tables_ok s1 → abs s1 = effect c (f a) (abs s) → (subject c = "" ∨ f a = subject c) →
  wp (let! r := recordAudit env op true ;;! ret a in ret (f r)) (outcome env c s) s1.
Proof.
  intros Hs Ha Hid. apply wp_assoc.
  do 2 wp_step; (wp_step; wp_step; wp_step; split; [first [done|by apply trail_ok]|done]).
Qed.

Lemma create_outcome env cmd s :
  tables_ok s → wp (perform env (Create cmd)) (outcome env (Create cmd) s) s.
Proof.
  intros Hs. unfold perform, CreatePolicy. apply wp_assoc, wp_prefix; [done| |].
  { unfold revision_id. destruct (String.eqb _ _); [by destruct (env_uuid env)|].
    unfold bind, fail_when. by destruct (negb _). }
  intros id _. apply wp_assoc, wp_prefix; [done|apply lift_state|].
  intros [] Hv. apply wp_assoc, wp_check; [done|]. intros _.
  apply wp_assoc. do 2 wp_step. unfold policies_Create. do 2 wp_step.
  cbn [rev_Policy rev_Active rev_CreatedAt rev_RulesDigest].
  destruct (validate_policy _ _) as [[]|] eqn:Hval; [|by apply outcome_unchanged].
  wp_step; [by apply outcome_unchanged|].
  destruct (tb_policies s !! _) eqn:Hid; simpl negb; cbn iota;
    [by apply outcome_unchanged|].
  destruct (Z.leb_spec (age_seconds (new_policy id cmd)) 0); cbn [andb];
    [by apply outcome_unchanged|].
  apply (wp_success _ _ _ _ (λ r, pol_RevisionID (rev_Policy r))); [| |by left].
  all: by eapply create_ok.
Qed.

(** A revision is looked up, valid, and known under its own ID. *)
Lemma get_policy_prefix env c s op id (k : RiskPolicyRevision → M RiskTables string) :
  tables_ok s →
  (∀ r, tb_policies s !! id = Some r → wp (k (loaded r)) (outcome env c s) s) →
  wp (bind (audited env op (policies_GetByID env "policies.GetByID" id)) k) (outcome env c s) s.
Proof.
  intros Hs Hk. apply wp_prefix; [done|apply query_state|]. intros a.
  unfold policies_GetByID, query. destruct (env_io env _); [done|]. simpl.
  destruct (tb_policies s !! id) as [r|] eqn:Hr; [|done]. intros [= <-]. by apply Hk.
Qed.

Lemma valid_prefix env c s op r id (k : M RiskTables string) :
  tables_ok s → tb_policies s !! id = Some r → wp k (outcome env c s) s →
  wp (audited env op (lift (validate_policy sort_bands (rev_Policy (loaded r)))) ;;! k)
    (outcome env c s) s.
Proof.
  intros Hs Hr Hk. apply wp_prefix; [done|apply lift_state|]. by intros [] _.
Qed.

Lemma review_outcome env id s :
  tables_ok s → wp (perform env (Review id)) (outcome env (Review id) s) s.
Proof.
  intros Hs. unfold perform, ReviewPolicy.
  apply wp_assoc, wp_prefix; [done|apply fail_when_state|]. intros [] _.
  apply wp_assoc, wp_check; [done|]. intros _.
  apply wp_assoc, get_policy_prefix; [done|]. intros r Hr.
  apply wp_assoc. eapply valid_prefix; [done..|].
  eapply (wp_success _ _ _ _ (λ r, pol_RevisionID (rev_Policy r))); [done|done|].
  right. exact (ok_ids _ _ Hs _ _ Hr).
Qed.

(** The write and the second read of [ActivatePolicy] and [DeactivatePolicy]. *)
Lemma set_active_outcome env c s op id r (b : bool) s' :
  tables_ok s → subject c = id → tb_policies s !! id = Some r →
  s' = with_policies (<[id := if b then activated (env_now env) (deactivate_active (env_now env) r)
                              else deactivated (env_now env) r]>
    (if b then deactivate_active (env_now env) <$> tb_policies s else tb_policies s)) s →
  tables_ok s' → abs s' = effect c id (abs s) →
  wp (let! x := audited env op (policies_SetActive env id b) ;;!
        let! updated := policies_GetByID env "policies.GetByID again" id in
        recordAudit env op true ;;! ret updated in
      ret (pol_RevisionID (rev_Policy x))) (outcome env c s) s.
Proof.
  intros Hs Hc Hr Hs' Hok Habs. apply wp_assoc. do 2 wp_step. unfold policies_SetActive.
  wp_step; [by apply outcome_unchanged|].
  assert ((if b then deactivate_active (env_now env) <$> tb_policies s else tb_policies s) !! id =
    Some (if b then deactivate_active (env_now env) r else r)) as ->
    by (destruct b; [by rewrite lookup_fmap, Hr|done]).
  cbn iota beta. replace (with_policies _ s) with s' by (subst s'; by destruct b).
  apply wp_assoc. unfold policies_GetByID. do 2 wp_step.
  { split; [done|]. right. rewrite Hc. by split; [eexists|]. }
  subst s'. cbn [tb_policies with_policies]. rewrite lookup_insert_eq. cbn iota.
  assert (pol_RevisionID (rev_Policy r) = id) as Hid by by apply (ok_ids _ _ Hs).
  assert (pol_RevisionID (rev_Policy (loaded (if b
    then activated (env_now env) (deactivate_active (env_now env) r)
    else deactivated (env_now env) r))) = id) as Hid'.
  { destruct b; [|done]. unfold deactivate_active. by destruct (rev_Active r). }
  apply (wp_success _ _ _ _ (λ r, pol_RevisionID (rev_Policy r))); [done| |right]; congruence.
Qed.

Lemma activate_outcome env id s :
  tables_ok s → wp (perform env (Activate id)) (outcome env (Activate id) s) s.
Proof.
  intros Hs. unfold perform, ActivatePolicy.
  apply wp_assoc, wp_prefix; [done|apply fail_when_state|]. intros [] _.
  apply wp_assoc, wp_check; [done|]. intros _.
  apply wp_assoc, get_policy_prefix; [done|]. intros r Hr.
  apply wp_assoc. eapply valid_prefix; [done..|].
  destruct (activate_ok (env_now env) _ _ _ Hs Hr). by eapply set_active_outcome.
Qed.

Lemma deactivate_outcome env id s :
  tables_ok s → wp (perform env (Deactivate id)) (outcome env (Deactivate id) s) s.
Proof.
  intros Hs. unfold perform, DeactivatePolicy.
  apply wp_assoc, wp_prefix; [done|apply fail_when_state|]. intros [] _.
  apply wp_assoc, wp_check; [done|]. intros _.
  apply wp_assoc, get_policy_prefix; [done|]. intros r Hr.
  destruct (deactivate_ok (env_now env) _ _ _ Hs Hr). by eapply (set_active_outcome _ _ _ _ _ _ false).
Qed.

Lemma unbind_outcome env g s :
  tables_ok s → wp (perform env (Unbind g)) (outcome env (Unbind g) s) s.
Proof.
  intros Hs. unfold perform, UnbindGroup.
  apply wp_assoc, wp_prefix; [done|apply fail_when_state|]. intros [] _.
  apply wp_assoc, wp_check; [done|]. intros _. apply wp_assoc. do 2 wp_step.
  unfold bindings_Delete. wp_step; [by apply outcome_unchanged|].
  destruct (tb_bindings s !! _) as [b|] eqn:Hb; [|by apply outcome_unchanged].
  destruct (unbind_ok_tables (TrimSpace g) s Hs) as [Hok Ha].
  do 2 wp_step; (wp_step; split; [first [done|by apply trail_ok]|by split; [|left]]).
Qed.

Lemma bind_outcome env g p s :
  tables_ok s → wp (perform env (Bind g p)) (outcome env (Bind g p) s) s.
Proof.
  intros Hs. unfold perform, BindGroup.
  apply wp_assoc, wp_prefix; [done|apply fail_when_state|]. intros [] _.
  apply wp_assoc, wp_prefix; [done|apply fail_when_state|]. intros [] _.
  apply wp_assoc, wp_bind.
  assert (∀ Φ : result error unit → RiskTables → Prop, Φ (Ok tt) s →
    (∀ e, Φ (Err e) s ∧ ∀ t, Φ (Err e) (with_trail t s)) →
    wp (if has_groups cfg then audited env "risk_policy.bind_group" (groups_Get env (TrimSpace g))
        else ret tt) Φ s ∧
    wp (if has_policies cfg then audited env "risk_policy.bind_group"
          (policies_GetByID env "policies.GetByID" (TrimSpace p)) ;;! ret tt else ret tt) Φ s)
    as Hread.
  { intros Φ Hok Herr. split.
    - destruct (has_groups cfg); [|done]. wp_step. unfold groups_Get.
      wp_step; [apply Herr|]. destruct (is_nil _); [apply Herr|done].
    - destruct (has_policies cfg); [|done]. do 2 wp_step. unfold policies_GetByID.
      wp_step; [apply Herr|]. destruct (tb_policies s !! _); [|apply Herr]. done. }
  apply Hread; [|intros e; by apply outcome_unchanged]. apply wp_assoc, wp_bind.
  apply Hread; [|intros e; by apply outcome_unchanged].
  apply wp_assoc, wp_check; [done|]. intros _. apply wp_assoc. do 2 wp_step.
  unfold bindings_Set. do 2 wp_step. destruct (Binding_Validate _) as [[]|]; [|by apply outcome_unchanged].
  wp_step; [by apply outcome_unchanged|]. cbn [bind_GroupID bind_PolicyRevisionID].
  destruct (tb_groups s !! TrimSpace g) as [srcs|] eqn:Hg; [|by apply outcome_unchanged].
  destruct (tb_policies s !! TrimSpace p) as [r|] eqn:Hp; [|by apply outcome_unchanged].
  simpl orb. cbn iota. match goal with |- wp _ _ (with_bindings (<[_ := ?b]> _) _) =>
    destruct (bind_ok_tables b s Hs) as [Hok Ha]; [by eexists..|] end.
  eapply (wp_success _ _ _ _ bind_PolicyRevisionID); [done|done|]. by right.
Qed.

Lemma perform_outcome env c s : tables_ok s → wp (perform env c) (outcome env c s) s.
Proof.
  intros Hs. destruct c; [apply create_outcome|apply review_outcome|apply activate_outcome|
    apply deactivate_outcome|apply bind_outcome|apply unbind_outcome]; done.
Qed.

(** The tables reached by any sequence of commands, and of changes to the policy
    groups by others: a deleted group takes its binding along. *)
Inductive reachable (groups : gmap string (list MemberSource)) : RiskTables → Prop :=
  | initial : reachable groups {| tb_policies := ∅; tb_bindings := ∅; tb_groups := groups;
                                  tb_trail := [] |}
  | commanded env c s : reachable groups s → reachable groups (perform env c s).2
  | regrouped g s : reachable groups s → reachable groups
      {| tb_policies := tb_policies s;
         tb_bindings := filter (λ kb, is_Some (g !! kb.1)) (tb_bindings s);
         tb_groups := g; tb_trail := tb_trail s |}.

Lemma policies_reachable_ok groups s : reachable groups s → tables_ok s.
Proof.
  induction 1 as [|env c s Hr IH|g s Hr IH].
  - split; simpl; intros *; try by rewrite lookup_empty. 
  - pose proof (perform_outcome env c s IH) as Ho. by destruct Ho.
  - split; try apply IH. intros k b. simpl. rewrite map_lookup_filter_Some.
    intros [Hb Hk]. split; [by eapply (ok_bound _ _ IH)|done].
Qed.

(** What [GetActivePolicy] answers. *)
Lemma get_active_spec env s :
  tables_ok s → has_policies cfg = true → env_io env "policies.GetActive" = None →
  (GetActivePolicy cfg env s).1 =
  match active_id (tb_policies s) with
  | Some id => match tb_policies s !! id with
               | Some r => Ok (loaded r) | None => Err policy_not_found end
  | None => Err policy_not_found
  end.
Proof.
  intros Hs Hc Hio. unfold GetActivePolicy, policies_GetActive, bind, query, fail_when.
  rewrite Hc, Hio. simpl. unfold active_rows.
  assert (∀ r, r ∈ sort_stable newest_first (active_rows s) ↔
    tb_policies s !! pol_RevisionID (rev_Policy r) = Some r ∧ rev_Active r = true) as Hin.
  { intros r. rewrite elem_of_sort_stable. unfold active_rows.
    rewrite list_elem_of_In, filter_In, <- list_elem_of_In, list_elem_of_fmap. split.
    - intros [([k r'] & -> & Hk%elem_of_map_to_list) Ha]. simpl in *. split; [|done].
      by rewrite (ok_ids _ _ Hs _ _ Hk).
    - intros [Hr Ha]. split; [|done]. eexists (_, r). split; [done|].
      by apply elem_of_map_to_list. }
  fold (active_rows s). destruct (sort_stable newest_first (active_rows s)) as [|r l].
  - destruct (active_id _) as [id|] eqn:Ha; [|done].
    apply active_id_spec in Ha as (r & Hr & Ha); [|exact (ok_single _ _ Hs)].
    exfalso. apply (not_elem_of_nil r), Hin. by rewrite (ok_ids _ _ Hs _ _ Hr).
  - destruct (proj1 (Hin r) ltac:(set_solver)) as [Hr Ha].
    rewrite (proj2 (active_id_spec _ (pol_RevisionID (rev_Policy r)) (ok_single _ _ Hs)))
      by by exists r. by rewrite Hr.
Qed.

(** The service keeps one set of risk policy revisions of which at most one is
    active.  For any sequence of commands by any callers and any failures of the
    database: every stored revision is valid, every binding refers to a stored
    revision and an existing group, and the next command either has exactly the
    effect the abstract state prescribes (a new revision is added inactive,
    activation replaces whichever revision was active, deactivation of another
    revision changes nothing, binding a group again replaces its binding) or, on
    an error, none; the exception is a failure to read the revision back after
    the write, which is reported as an error although the effect is there.
    [GetActivePolicy] answers with the abstractly active revision and that
    revision passes validation. *)
Theorem risk_policy_lifecycle groups s env c :
  reachable groups s →
  outcome env c s (perform env c s).1 (perform env c s).2 ∧
  (∀ env', has_policies cfg = true → env_io env' "policies.GetActive" = None →
     match sp_active (abs s) with
     | Some id => ∃ r, (GetActivePolicy cfg env' s).1 = Ok r ∧ rev_Active r = true ∧
         pol_RevisionID (rev_Policy r) = id ∧ validate_policy sort_bands (rev_Policy r) = Ok tt
     | None => (GetActivePolicy cfg env' s).1 = Err policy_not_found
     end).
Proof.
  intros Hr%policies_reachable_ok. split; [by apply perform_outcome|].
  intros env' Hc Hio. rewrite (get_active_spec env' s Hr Hc Hio). simpl.
  destruct (active_id (tb_policies s)) as [id|] eqn:Ha; [|done].
  apply active_id_spec in Ha as (r & Hid & Ha); [|exact (ok_single _ _ Hr)]. rewrite Hid.
  exists (loaded r). split; [done|]. split; [done|]. split; [exact (ok_ids _ _ Hr _ _ Hid)|].
  apply loaded_policy_valid. by eapply (ok_valid _ _ Hr).
Qed.

Lemma whole_seconds a :
  (0 < Z.quot a second)%Z →
  (0 < Z.quot a second * second ≤ a ∧ a < Z.quot a second * second + second)%Z.
Proof. unfold second. Z.to_euclidean_division_equations. lia. Qed.

Definition quiet (env : Env) : Prop := ∀ label, env_io env label = None.

Lemma create_inv env cmd s rev s' :
  CreatePolicy sort_bands cfg env cmd s = (Ok rev, s') →
  let id := pol_RevisionID (rev_Policy rev) in
  has_policies cfg = true ∧ validate_policy sort_bands (rev_Policy rev) = Ok tt ∧
  (0 < age_seconds (rev_Policy rev))%Z ∧ rev_Policy rev = new_policy id cmd ∧
  ∃ row, tb_policies s' = <[id := row]> (tb_policies s) ∧
    rev_Policy row = stored_policy (rev_Policy rev) ∧ rev_Active row = false.
Proof.
  unfold CreatePolicy. rewrite bind_ok. intros (id & s1 & Hid & H4).
  rewrite bind_ok in H4. destruct H4 as ([] & s2 & Hv & H4).
  rewrite bind_ok in H4. destruct H4 as ([] & s3 & Hc & H4).
  rewrite bind_ok in H4. destruct H4 as (rev' & s4 & Hcr & H4).
  rewrite bind_ok in H4. destruct H4 as ([] & s5 & Hrec & [= -> ->]).
  rewrite audited_ok in Hid. rewrite audited_ok in Hv. rewrite audited_ok in Hcr.
  apply lift_ok in Hv as [-> Hv].
  apply fail_when_ok in Hc as [-> Hc%negb_false_iff].
  assert (s1 = s) as ->.
  { unfold revision_id in Hid. destruct (String.eqb _ _).
    - destruct (env_uuid env); by injection Hid.
    - rewrite bind_ok in Hid. destruct Hid as ([] & s6 & [-> _]%fail_when_ok & [= _ <-]). done. }
  assert (tb_policies s' = tb_policies s4) as ->.
  { unfold recordAudit in Hrec. destruct (env_io env "audit"); injection Hrec as <-; done. }
  unfold policies_Create in Hcr. rewrite bind_ok in Hcr. destruct Hcr as ([] & s6 & Hv' & Hcr).
  apply lift_ok in Hv' as [-> _]. apply statement_ok in Hcr as [_ Hcr]. simpl in Hcr.
  destruct (is_nil _); [|done]. simpl in Hcr.
  destruct (Z.leb_spec (age_seconds (new_policy id cmd)) 0); [done|].
  injection Hcr as <- <-. simpl. split_and!; [done..|]. eexists. split; [done|]. by split.
Qed.

(** A created revision can be read back and put into force: whenever
    [CreatePolicy] succeeds, [GetPolicy] on the ID it returned yields, as long as
    the database answers, the same providers, score bands, trait rules (in some
    order) and confidence, an age rounded down to whole seconds but still
    positive, and actions with their defaults filled in, not active; and
    [ActivatePolicy] then succeeds and makes it the revision that
    [GetActivePolicy] returns. *)
Theorem created_policy_roundtrip groups s env env' cmd rev s' :
  reachable groups s → CreatePolicy sort_bands cfg env cmd s = (Ok rev, s') → quiet env' →
  let id := pol_RevisionID (rev_Policy rev) in
  (∃ r, GetPolicy cfg env' id s' = (Ok r, s') ∧ rev_Active r = false ∧
    let p := rev_Policy r in
    pol_RevisionID p = id ∧ pol_ProviderSelection p = cmd_ProviderSelection cmd ∧
    pol_ScoreBands p = cmd_ScoreBands cmd ∧ pol_TraitRules p ≡ₚ cmd_TraitRules cmd ∧
    pol_MinimumConfidence p = cmd_MinimumConfidence cmd ∧
    (0 < pol_MaxObservationAge p ≤ cmd_MaxObservationAge cmd)%Z ∧
    (cmd_MaxObservationAge cmd < pol_MaxObservationAge p + second)%Z ∧
    pol_UnknownAction p = effective_action (cmd_UnknownAction cmd) ∧
    pol_ConflictAction p = effective_action (cmd_ConflictAction cmd) ∧
    pol_ReviewAction p = effective_action (cmd_ReviewAction cmd)) ∧
  (∃ r s'', ActivatePolicy sort_bands cfg env' id s' = (Ok r, s'') ∧ rev_Active r = true ∧
     pol_RevisionID (rev_Policy r) = id ∧ (GetActivePolicy cfg env' s'').1 = Ok r).
Proof.
  intros Hr Hc Hq id.
  assert (tables_ok s') as Hok'.
  { pose proof (commanded _ env (Create cmd) s Hr) as Hr'.
    unfold perform, bind in Hr'. rewrite Hc in Hr'. by apply policies_reachable_ok in Hr'. }
  destruct (create_inv _ _ _ _ _ Hc) as (Hpol & Hv & Hage & Hnew & row & Hs' & Hrow & Hoff).
  fold id in Hs', Hnew.
  assert (IsValidUUIDv7 id = true) as Hid.
  { unfold validate_policy, RiskPolicy_Validate in Hv. rewrite !seq_ok, !invalid_if_ok in Hv.
    by apply negb_false_iff, Hv. }
  assert (tb_policies s' !! id = Some row) as Hget by by rewrite Hs', lookup_insert_eq.
  split.
  - exists (loaded row). unfold GetPolicy. rewrite (valid_uuid_trimmed _ Hid).
    unfold check_revision_id, bind, fail_when. rewrite Hid, Hpol. simpl.
    unfold policies_GetByID, query. rewrite Hq, Hget. split; [done|]. split; [done|].
    cbn [rev_Policy loaded]. rewrite Hrow. cbn -[second]. rewrite Hnew. cbn -[second].
    unfold age_seconds in *. rewrite Hnew in Hage. cbn -[second] in *.
    destruct (whole_seconds _ Hage) as [[? ?] ?]. split_and!; try done. apply rows_perm.
  - destruct (activate_ok (env_now env') id row s' Hok' Hget) as [Hok'' Ha].
    set (s'' := with_policies _ s') in *.
    assert (activated (env_now env') (deactivate_active (env_now env') row) =
      activated (env_now env') row) as Hact by (unfold deactivate_active; by rewrite Hoff).
    exists (loaded (activated (env_now env') row)).
    exists (with_trail (tb_trail s'' ++ [{| ev_Action := "risk_policy.activate";
                                            ev_Success := true |}]) s'').
    split; [|split; [done|split]].
    + unfold ActivatePolicy. rewrite (valid_uuid_trimmed _ Hid).
      erewrite bind_run; [|apply audited_ok, fail_when_ok; by rewrite Hid].
      erewrite bind_run; [|apply fail_when_ok; by rewrite Hpol].
      erewrite bind_run; [|apply audited_ok, query_ok; by rewrite Hget].
      erewrite bind_run; [|apply audited_ok, lift_ok; split; [done|];
        apply loaded_policy_valid; by eapply (ok_valid _ _ Hok')].
      erewrite bind_run; [|apply audited_ok, statement_ok; split; [apply Hq|];
        simpl; by rewrite lookup_fmap, Hget].
      erewrite bind_run; [|apply query_ok; split; [done|]; split; [apply Hq|];
        simpl; by rewrite lookup_insert_eq].
      erewrite bind_run; [|unfold recordAudit; by rewrite Hq].
      subst s''. simpl. by rewrite Hact.
    + exact (ok_ids _ _ Hok' _ _ Hget).
    + rewrite get_active_spec by (by apply trail_ok || done).
      apply (f_equal sp_active) in Ha. simpl in Ha |- *. rewrite Ha.
      by rewrite lookup_insert_eq, Hact.
  Unshelve. all: exact tt.
Qed.

(** ** Evaluation of a group *)

(** The nodes of a group and, one level down, of its child groups. *)
Definition group_members (env : Env) (s : RiskTables) (group : string) : list string :=
  sort_strings (fold_left (edge_members env s)
    (ProjectSourceEdges (default [] (tb_groups s !! group))) []).

Lemma add_member_id_nodup acc n : NoDup acc → NoDup (add_member_id acc n).
Proof.
  intros Hnd. destruct n as [n|]; simpl; [|done].
  destruct (String.eqb n ""); [done|]. destruct (mem_str n acc) eqn:Hm; [done|].
  apply mem_str_false in Hm. apply NoDup_app. split; [done|].
  split; [set_solver|apply NoDup_singleton].
Qed.

Lemma fold_nodup {A} (f : list string → A → list string) l acc :
  (∀ acc x, NoDup acc → NoDup (f acc x)) → NoDup acc → NoDup (fold_left f l acc).
Proof. intros Hf. revert acc. induction l as [|x l IH]; intros acc Hacc; simpl; auto. Qed.

Lemma group_members_nodup env s group : NoDup (group_members env s group).
Proof.
  unfold group_members. rewrite sort_strings_perm. apply fold_nodup; [|constructor].
  intros acc e Hnd. unfold edge_members.
  assert (NoDup (add_member_id acc (edge_NodeLogicalID e))) by by apply add_member_id_nodup.
  destruct (edge_ChildGroupID e) as [child|]; [|done].
  destruct (String.eqb child ""); [done|].
  destruct (groups_Edges _ _ _ _).1; [|done]. apply fold_nodup; [|done].
  intros. by apply add_member_id_nodup.
Qed.

(** Evaluating a group splits its members: in every reachable state, a
    successful [EvaluateGroupMembers] lists each member node (its own nodes and
    those of its child groups) exactly once, as admitted or as excluded.
    Members are excluded only by the active revision, and only when the group is
    bound to it; with no binding, a binding that cannot be read, or a bound
    revision that is not active, all members are admitted. *)
Theorem group_evaluation_partition groups s env repos g res :
  reachable groups s →
  EvaluateGroupMembers sort_bands cfg env repos g s = Some (Ok res) →
  let group := TrimSpace g in
  gre_GroupID res = group ∧
  NoDup (gre_AdmittedMembers res ++ gre_ExcludedMembers res) ∧
  (∀ x, x ∈ gre_AdmittedMembers res ++ gre_ExcludedMembers res ↔ x ∈ group_members env s group) ∧
  (gre_PolicyActive res = true →
     sp_bound (abs s) !! group = Some (gre_PolicyRevisionID res) ∧
     sp_active (abs s) = Some (gre_PolicyRevisionID res)) ∧
  (gre_PolicyActive res = false →
     gre_AdmittedMembers res = group_members env s group ∧ gre_ExcludedMembers res = [] ∧
     (has_bindings cfg = false ∨ has_policies cfg = false ∨
      is_Some (env_io env "bindings.GetByGroupID") ∨ sp_bound (abs s) !! group = None ∨
      (sp_bound (abs s) !! group = Some (gre_PolicyRevisionID res) ∧
       sp_active (abs s) ≠ Some (gre_PolicyRevisionID res)))).
Proof.
  intros Hr%policies_reachable_ok He group. unfold EvaluateGroupMembers in He. fold group in He.
  destruct ((_ ;;! _) s) as [[edges|e] s1] eqn:Hread in He; [|done].
  assert (edges = ProjectSourceEdges (default [] (tb_groups s !! group))) as ->.
  { rewrite bind_ok in Hread. destruct Hread as ([] & ? & [-> _]%fail_when_ok & Hread).
    rewrite bind_ok in Hread. destruct Hread as ([] & ? & [-> _]%fail_when_ok & Hread).
    rewrite bind_ok in Hread. destruct Hread as ([] & ? & Hg & Hread).
    apply query_ok in Hg as (-> & _ & _). apply query_ok in Hread as (_ & _ & [= <-]). done. }
  fold (group_members env s group) in He.
  pose proof (group_members_nodup env s group) as Hnd.
  assert (∀ policy (reason : Prop), Some (@Ok error _ {| gre_GroupID := group; gre_PolicyRevisionID := policy;
      gre_PolicyActive := false; gre_AdmittedMembers := group_members env s group;
      gre_ExcludedMembers := [] |}) = Some (Ok res) → (gre_PolicyRevisionID res = policy → reason) →
    gre_GroupID res = group ∧ NoDup (gre_AdmittedMembers res ++ gre_ExcludedMembers res) ∧
    (∀ x, x ∈ gre_AdmittedMembers res ++ gre_ExcludedMembers res ↔ x ∈ group_members env s group) ∧
    (gre_PolicyActive res = true →
       sp_bound (abs s) !! group = Some (gre_PolicyRevisionID res) ∧
       sp_active (abs s) = Some (gre_PolicyRevisionID res)) ∧
    (gre_PolicyActive res = false →
       gre_AdmittedMembers res = group_members env s group ∧ gre_ExcludedMembers res = [] ∧ reason))
    as Hall.
  { intros policy reason [= <-] Hreason. simpl. rewrite app_nil_r. split_and!; try done. auto. }
  destruct (has_bindings cfg) eqn:Hb; simpl in He; [|apply (Hall _ _ He); auto].
  unfold bindings_GetByGroupID, query in He.
  destruct (env_io env "bindings.GetByGroupID") eqn:Hio; simpl in He; [apply (Hall _ _ He); eauto|].
  destruct (tb_bindings s !! group) as [b|] eqn:Hbind; simpl in He;
    [|apply (Hall _ _ He); intros _; do 3 right; left; unfold abs; simpl; by rewrite lookup_fmap, Hbind].
  assert (sp_bound (abs s) !! group = Some (bind_PolicyRevisionID b)) as Hbound
    by (unfold abs; simpl; by rewrite lookup_fmap, Hbind).
  destruct (has_policies cfg) eqn:Hp; simpl in He; [|apply (Hall _ _ He); auto].
  unfold policies_GetByID, query in He. destruct (env_io env "policies.GetByID"); [done|].
  simpl in He. destruct (tb_policies s !! bind_PolicyRevisionID b) as [r|] eqn:Hrev; [|done].
  assert (sp_active (abs s) = Some (bind_PolicyRevisionID b) ↔ rev_Active r = true) as Hact.
  { simpl. rewrite active_id_spec by exact (ok_single _ _ Hr). rewrite Hrev. naive_solver. }
  simpl in He. destruct (rev_Active r); simpl in He.
  - destruct (EvaluateBatch _ _ _ _ _ _ _ _ _) as [[batch|]|] eqn:Hbatch; [|done..].
    injection He as <-. apply batch_partition in Hbatch as (Hin & Hnd' & _). simpl.
    split_and!; [done|done| |intros _; split; [exact Hbound|by apply Hact]|done]. intros x. by rewrite Hin.
  - apply (Hall _ _ He). intros ->. do 4 right. split; [done|]. by rewrite Hact.
Qed.

(** A failure to read the binding of a group is taken for the absence of one:
    all members are admitted, whatever the active policy says about them. *)
Theorem unreadable_binding_admits_all s env repos g m srcs :
  IsValidUUIDv7 (TrimSpace g) = true → has_groups cfg = true →
  tb_groups s !! TrimSpace g = Some srcs → env_io env "groups.GetByID" = None →
  env_io env "groups.Edges" = None → env_io env "bindings.GetByGroupID" = Some m →
  EvaluateGroupMembers sort_bands cfg env repos g s =
    Some (Ok {| gre_GroupID := TrimSpace g; gre_PolicyRevisionID := "";
                gre_PolicyActive := false;
                gre_AdmittedMembers := group_members env s (TrimSpace g);
                gre_ExcludedMembers := [] |}).
Proof.
  intros Hg Hc Hs Hi1 Hi2 Hi3. unfold EvaluateGroupMembers, group_members.
  erewrite bind_run; [|apply fail_when_ok; by rewrite Hg].
  erewrite bind_run; [|apply fail_when_ok; by rewrite Hc].
  erewrite bind_run; [|apply query_ok; by rewrite Hs].
  unfold groups_Edges at 1, query at 1. rewrite Hi2. cbn beta iota.
  unfold bindings_GetByGroupID, query. rewrite Hi3. by destruct (has_bindings cfg).
  Unshelve. all: exact tt.
Qed.

(** [Normalize] puts its default and its bound for the page size into the page
    number: without a page size the list is empty, however many revisions there
    are. *)
Theorem default_page_lists_nothing env f s :
  quiet env → has_policies cfg = true → (0 ≤ pf_Page f)%Z → pf_PageSize f = 0%Z →
  pf_Active f = None →
  ListPolicies cfg env f s = (Ok ([], size (tb_policies s)), s).
Proof.
  intros Hq Hc Hpage Hsize Ha. unfold ListPolicies.
  erewrite bind_run; [|apply fail_when_ok; split; [done|]; rewrite Hsize;
    apply orb_false_iff; split; by apply Z.ltb_ge].
  erewrite bind_run; [|apply fail_when_ok; by rewrite Hc].
  unfold policies_List, query. rewrite Hq, Ha. cbn [pf_PageSize Normalize]. rewrite Hsize.
  simpl take. f_equal. f_equal. f_equal.
  rewrite (forallb_filter_id (λ _, true)) by by apply forallb_forall.
  by rewrite length_map, length_map_to_list.
  Unshelve. all: exact tt.
Qed.
End Refinement.

(** ** A concrete history *)

Definition stored_order : RowOrder := {| rows := λ l, l; rows_perm := λ l, reflexivity l |}.
Definition sample_env : Env :=
  {| env_now := 1700000000000000000; env_uuid := None; env_io := λ _, None |}%Z.
Definition sample_service : RiskServiceConfig :=
  {| has_policies := true; has_bindings := true; has_groups := true |}.
Definition sample_create : CreateRiskPolicyCommand :=
  {| cmd_RevisionID := "01890a5d-ac96-774b-bcce-b302099a8057";
     cmd_ProviderSelection := {| sel_Mode := RiskFusionSingleProvider;
                                 sel_Providers := [sample_provider] |};
     cmd_MaxObservationAge := 90500000000; cmd_MinimumConfidence := 50;
     cmd_ScoreBands := sample_bands;
     cmd_TraitRules := [{| trait_Trait := "tor"; trait_Action := "block" |}];
     cmd_UnknownAction := ""; cmd_ConflictAction := ""; cmd_ReviewAction := "allow" |}%Z.
Definition sample_groups : gmap string (list MemberSource) :=
  {[ gid_a := [{| src_ID := gid_b; src_GroupID := gid_a; src_Operation := OperationAdd;
                  src_Kind := SourceKindManualNode; src_Position := 0;
                  src_NodeLogicalID := Some sample_node; src_TargetGroupID := None;
                  src_Pattern := None; src_FilterSpec := None; src_BuiltinName := None |}] ]}.
Definition sample_tables : RiskTables :=
  {| tb_policies := ∅; tb_bindings := ∅; tb_groups := sample_groups; tb_trail := [] |}.
Definition sample_perform : Env → command → M RiskTables string :=
  @perform ascii_text sample_scanner sample_sha stored_order (sort_stable (less_Z band_Min))
    sample_service.
Definition after (cs : list command) : RiskTables :=
  fold_left (λ s c, (sample_perform sample_env c s).2) cs sample_tables.

Lemma policies_after_reachable cs :
  @reachable ascii_text sample_scanner sample_sha stored_order
    (sort_stable (less_Z band_Min)) sample_service sample_groups (after cs).
Proof.
  unfold after.
  enough (∀ s, @reachable ascii_text sample_scanner sample_sha stored_order
    (sort_stable (less_Z band_Min)) sample_service sample_groups s →
    @reachable ascii_text sample_scanner sample_sha stored_order
      (sort_stable (less_Z band_Min)) sample_service sample_groups
      (fold_left (λ s c, (sample_perform sample_env c s).2) cs s)) as Hr
    by apply Hr, initial.
  induction cs as [|c cs IH]; intros s Hs; simpl; [done|]. by apply IH, commanded.
Qed.

Definition bound_and_active : RiskTables :=
  after [Create sample_create; Bind gid_a (cmd_RevisionID sample_create);
         Activate (cmd_RevisionID sample_create)].

Lemma risk_policy_lifecycle_witness :
  let c := Deactivate (cmd_RevisionID sample_create) in
  abs bound_and_active =
    {| sp_known := {[ cmd_RevisionID sample_create ]};
       sp_active := Some (cmd_RevisionID sample_create);
       sp_bound := {[ gid_a := cmd_RevisionID sample_create ]} |} ∧
  @outcome ascii_text sample_scanner (sort_stable (less_Z band_Min)) sample_env c
    bound_and_active (sample_perform sample_env c bound_and_active).1
    (sample_perform sample_env c bound_and_active).2.
Proof.
  split; [vm_compute; reflexivity|].
  apply (@risk_policy_lifecycle ascii_text sample_scanner sample_sha stored_order
    (sort_stable (less_Z band_Min)) sample_service sample_groups). apply policies_after_reachable.
Defined.

Lemma created_policy_roundtrip_witness :
  ∃ rev s', @CreatePolicy ascii_text sample_scanner sample_sha (sort_stable (less_Z band_Min))
      sample_service sample_env sample_create sample_tables = (Ok rev, s') ∧
    ∃ r s'', @ActivatePolicy ascii_text sample_scanner stored_order
        (sort_stable (less_Z band_Min)) sample_service sample_env
        (pol_RevisionID (rev_Policy rev)) s' = (Ok r, s'') ∧ rev_Active r = true.
Proof.
  do 2 eexists. split; [vm_compute; reflexivity|].
  edestruct (@created_policy_roundtrip ascii_text sample_scanner sample_sha stored_order
    (sort_stable (less_Z band_Min)) sample_service sample_groups sample_tables sample_env
    sample_env sample_create) as [_ (r & s'' & Hr & Ha & _)];
    [apply (policies_after_reachable [])|vm_compute; reflexivity|done|]. by exists r, s''.
Defined.

Lemma group_evaluation_partition_witness :
  ∃ res, @EvaluateGroupMembers ascii_text sample_scanner stored_order
      (sort_stable (less_Z band_Min)) sample_service sample_env
      {| repo_List := None; repo_Policies := None |} gid_a bound_and_active = Some (Ok res) ∧
    gre_PolicyActive res = true ∧
    ∀ x, x ∈ gre_AdmittedMembers res ++ gre_ExcludedMembers res ↔ x ∈ [sample_node].
Proof.
  eexists. split; [vm_compute; reflexivity|]. split; [reflexivity|].
  edestruct (@group_evaluation_partition ascii_text sample_scanner sample_sha stored_order
    (sort_stable (less_Z band_Min)) sample_service sample_groups bound_and_active sample_env
    {| repo_List := None; repo_Policies := None |} gid_a) as (_ & _ & Hx & _);
    [apply policies_after_reachable|vm_compute; reflexivity|exact Hx].
Defined.
