(* ===== verification/Admission.v ===== *)
(** * Node admission

    [internal/resolver/types.go] (the diagnostics), [admission.go] and
    [risk_admission.go]: which nodes of the inventory may appear in a resolved
    policy at all. *)

From S2P Require Import Prelude.
From S2P Require Import GoStrings.
From S2P Require Import Domain.
From S2P Require Import Lifecycle.
From S2P Require Import NodeFilter.
From S2P Require Import Policy.
From S2P Require Import Risk.

(** ** Diagnostics *)

Definition DiagnosticSeverityInfo := "info".
Definition DiagnosticSeverityWarning := "warning".
Definition DiagnosticSeverityError := "error".

Record Diagnostic : Type := {
  diag_Severity : string;
  diag_Code : string;
  diag_Message : string;
  diag_Target : string;
  diag_Reason : string
}.

Definition mk_diag (severity code message target : string) : Diagnostic :=
  {| diag_Severity := severity; diag_Code := code; diag_Message := message;
     diag_Target := target; diag_Reason := "" |}.

(** ** Admission expressions *)

Section Expressions.
Context `{GoText} `{RegexEngine}.

Fixpoint drop_last (s : string) : string :=
  match s with
  | "" => ""
  | String _ "" => ""
  | String c s => String c (drop_last s)
  end.

Definition cleanQuotes (s : string) : string :=
  let s := TrimSpace s in
  let dq := String (byte_of 34) "" in
  if (HasPrefix s "'" && HasSuffix s "'") || (HasPrefix s dq && HasSuffix s dq) then
    if 2 <=? String.length s then drop_last (drop_bytes 1 s) else s
  else s.

Definition matchFieldEqual (node : Node) (field val : string) : bool :=
  if String.eqb field "protocol" then EqualFold (node_Protocol node) val
  else if String.eqb field "name" || String.eqb field "display_name" then
    EqualFold (node_DisplayName node) val
  else if String.eqb field "country" then
    Contains (ToUpper (node_DisplayName node)) (ToUpper val)
  else if String.eqb field "logical_id" || String.eqb field "id" then
    String.eqb (node_LogicalID node) val
  else EqualFold (node_DisplayName node) val.

Definition matchFieldContains (node : Node) (field val : string) : bool :=
  if String.eqb field "protocol" then Contains (ToLower (node_Protocol node)) (ToLower val)
  else if String.eqb field "name" || String.eqb field "display_name" then
    Contains (ToLower (node_DisplayName node)) (ToLower val)
  else if String.eqb field "country" then
    Contains (ToUpper (node_DisplayName node)) (ToUpper val)
  else Contains (ToLower (node_DisplayName node)) (ToLower val).

Definition matchFieldRegex (node : Node) (field pattern : string) : bool :=
  match regexp_Compile pattern with
  | None => false
  | Some re =>
      if String.eqb field "protocol" then re (node_Protocol node)
      else re (node_DisplayName node)
  end.

(** [SplitN s sep 2] with [parts[0]] and [parts[1]]; [None] when [sep] does not
    occur and [parts[1]] is out of range. *)
Definition split_field (sep s : string) : option (string * string) := cut sep s.

(** [None] is the index panic of [parts[1]]: the guards look for the operator in
    the lower-cased text and [SplitN] in the text itself. *)
Definition admission_expression (node : Node) (expr : string) : option bool :=
  let trimmed := TrimSpace expr in
  if String.eqb trimmed "" || String.eqb trimmed "*" || EqualFold trimmed "ALL" ||
     EqualFold trimmed "ANY" then Some true
  else
    let lower := ToLower trimmed in
    if Contains lower "==" then
      '(f, v) ← split_field "==" trimmed;
      Some (matchFieldEqual node (ToLower (TrimSpace f)) (cleanQuotes (TrimSpace v)))
    else if Contains lower "!=" then
      '(f, v) ← split_field "!=" trimmed;
      Some (negb (matchFieldEqual node (ToLower (TrimSpace f)) (cleanQuotes (TrimSpace v))))
    else if Contains lower "contains" then
      '(f, v) ← split_field "contains" lower;
      Some (matchFieldContains node (TrimSpace f) (cleanQuotes (TrimSpace v)))
    else if Contains lower "=~" || Contains lower "~=" then
      let op := if Contains lower "~=" then "~=" else "=~" in
      '(f, v) ← split_field op trimmed;
      Some (matchFieldRegex node (ToLower (TrimSpace f)) (cleanQuotes (TrimSpace v)))
    else
      Some (match regexp_Compile ("(?i)" +:+ trimmed) with
            | Some re => re (node_DisplayName node)
            | None => false
            end || Contains (ToLower (node_DisplayName node)) (ToLower trimmed)).

(** It never panics ([admission_expression_total]). *)
Definition matchesAdmissionExpression (node : Node) (expr : string) : bool :=
  default false (admission_expression node expr).

Lemma split_field_some op s :
  op ∈ comparison_ops → Contains (ToLower s) op = true → is_Some (split_field op s).
Proof.
  intros Hop. rewrite ToLower_ops by done. unfold Contains, split_field.
  by destruct (cut op s).
Qed.

Lemma admission_expression_total node expr : is_Some (admission_expression node expr).
Proof.
  unfold admission_expression. destruct (_ || _); [done|].
  set (t := TrimSpace expr).
  destruct (Contains (ToLower t) "==") eqn:H1.
  { destruct (split_field_some "==" t) as [[f v] ->]; [set_solver|done|done]. }
  destruct (Contains (ToLower t) "!=") eqn:H2.
  { destruct (split_field_some "!=" t) as [[f v] ->]; [set_solver|done|done]. }
  destruct (Contains (ToLower t) "contains") eqn:H3.
  { unfold Contains in H3. unfold split_field. by destruct (cut _ _) as [[]|]. }
  destruct (Contains (ToLower t) "~=") eqn:H4.
  { rewrite orb_true_r. destruct (split_field_some "~=" t) as [[f v] ->]; [set_solver|done|done]. }
  destruct (Contains (ToLower t) "=~") eqn:H5; [|done].
  destruct (split_field_some "=~" t) as [[f v] ->]; [set_solver|done|done].
Qed.
End Expressions.

(** ** The order of admission rules

    The two nested loops compare [sortedRules[i]] with every later element and
    swap when it is greater: for a fixed [i] the inner loop carries the element
    at [i] through the rest of the list. *)

Fixpoint exchange_pass (x : AdmissionRule) (l : list AdmissionRule)
    : AdmissionRule * list AdmissionRule :=
  match l with
  | [] => (x, [])
  | y :: l =>
      if (adm_Position y <? adm_Position x)%Z
      then let '(m, l) := exchange_pass y l in (m, x :: l)
      else let '(m, l) := exchange_pass x l in (m, y :: l)
  end.

Fixpoint exchange_sort (n : nat) (l : list AdmissionRule) : list AdmissionRule :=
  match n, l with
  | S n, x :: l => let '(m, l) := exchange_pass x l in m :: exchange_sort n l
  | _, _ => l
  end.

Definition sort_admission_rules (rules : list AdmissionRule) : list AdmissionRule :=
  exchange_sort (length rules) rules.

Lemma exchange_pass_spec x l m l' :
  exchange_pass x l = (m, l') →
  m :: l' ≡ₚ x :: l ∧ Forall (λ y, adm_Position m ≤ adm_Position y)%Z l' ∧
  (adm_Position m ≤ adm_Position x)%Z.
Proof.
  revert x m l'. induction l as [|y l IH]; intros x m l'; simpl.
  { intros [= <- <-]. by repeat split; [|constructor|lia]. }
  destruct (Z.ltb_spec (adm_Position y) (adm_Position x)) as [Hlt|Hge];
    destruct (exchange_pass _ l) as [m0 l0] eqn:Hp; intros [= <- <-];
    apply IH in Hp as (Hperm & HF & Hle).
  - split_and!; [|constructor; [lia|done]|lia].
    by rewrite Permutation_swap, Hperm.
  - split_and!; [|constructor; [lia|done]|lia].
    rewrite Permutation_swap, Hperm. apply Permutation_swap.
Qed.

Lemma exchange_sort_spec n l :
  length l ≤ n →
  exchange_sort n l ≡ₚ l ∧
  StronglySorted (λ a b, adm_Position a ≤ adm_Position b)%Z (exchange_sort n l).
Proof.
  revert l. induction n as [|n IH]; intros [|x l]; simpl; intros Hn; try lia; try by split; constructor.
  destruct (exchange_pass x l) as [m l'] eqn:Hp. apply exchange_pass_spec in Hp as (Hperm & HF & _).
  assert (length l' = length l) as Hlen
    by (apply Permutation_length in Hperm; simpl in Hperm; lia).
  destruct (IH l') as [Hp' Hs]; [lia|]. split; [by rewrite Hp'|].
  constructor; [done|]. by rewrite Hp'.
Qed.

(** ** Admission *)

Record nodeAdmissionResult : Type := {
  res_AdmittedNodes : list Node;
  res_AdmittedNodeMap : gmap string Node;
  res_AdmittedNodeIDs : list string;
  res_ExcludedNodeIDs : list string;
  res_Diagnostics : list Diagnostic
}.

Definition uniqueStrings (values : list string) : list string :=
  if length values <? 2 then values else unique_adjacent values.

Section Admission.
Context `{GoText} `{RegexEngine}.

Definition node_label (node : Node) : string :=
  "node " +:+ node_LogicalID node +:+ " (" +:+ node_DisplayName node +:+ ")".

(** The rule loop stops at the first rule that matches; an excluded node comes
    with its diagnostic. *)
Fixpoint rule_verdict (node : Node) (rules : list AdmissionRule) : option Diagnostic :=
  match rules with
  | [] => None
  | rule :: rules =>
      if matchesAdmissionExpression node (adm_Expression rule) then
        if String.eqb (adm_Action rule) RuleActionReject then
          Some (mk_diag DiagnosticSeverityWarning "node_rejected_by_admission_rule"
            (node_label node +:+ " was rejected by admission rule " +:+ Quote (adm_Name rule))
            (node_LogicalID node))
        else if String.eqb (adm_Action rule) RuleActionQuarantine then
          Some (mk_diag DiagnosticSeverityWarning "node_quarantined_by_admission_rule"
            (node_label node +:+ " was quarantined by admission rule " +:+
             Quote (adm_Name rule)) (node_LogicalID node))
        else None
      else rule_verdict node rules
  end.

(** [None]: the node is admitted. *)
Definition admission_verdict (riskExcluded : list string) (rules : list AdmissionRule)
    (node : Node) : option Diagnostic :=
  if negb (node_Active node) then
    Some (mk_diag DiagnosticSeverityInfo "node_inactive"
      (node_label node +:+ " is inactive in inventory and excluded") (node_LogicalID node))
  else if mem_str (node_LogicalID node) riskExcluded then
    Some (mk_diag DiagnosticSeverityWarning "node_excluded_by_risk_policy"
      (node_label node +:+ " was excluded by risk policy") (node_LogicalID node))
  else rule_verdict node rules.

Definition admit_step (riskExcluded : list string) (rules : list AdmissionRule)
    (res : nodeAdmissionResult) (node : Node) : nodeAdmissionResult :=
  match admission_verdict riskExcluded rules node with
  | Some d =>
      {| res_AdmittedNodes := res_AdmittedNodes res;
         res_AdmittedNodeMap := res_AdmittedNodeMap res;
         res_AdmittedNodeIDs := res_AdmittedNodeIDs res;
         res_ExcludedNodeIDs := res_ExcludedNodeIDs res ++ [node_LogicalID node];
         res_Diagnostics := res_Diagnostics res ++ [d] |}
  | None =>
      {| res_AdmittedNodes := res_AdmittedNodes res ++ [node];
         res_AdmittedNodeMap := <[node_LogicalID node := node]> (res_AdmittedNodeMap res);
         res_AdmittedNodeIDs := res_AdmittedNodeIDs res ++ [node_LogicalID node];
         res_ExcludedNodeIDs := res_ExcludedNodeIDs res;
         res_Diagnostics := res_Diagnostics res |}
  end.

Definition empty_admission : nodeAdmissionResult :=
  {| res_AdmittedNodes := []; res_AdmittedNodeMap := ∅; res_AdmittedNodeIDs := [];
     res_ExcludedNodeIDs := []; res_Diagnostics := [] |}.

Definition evaluateNodeAdmission (nodes : list Node) (admissionRules : list AdmissionRule)
    (excludedNodeIDs : list string) : nodeAdmissionResult :=
  let sortedRules := sort_admission_rules admissionRules in
  let res := fold_left (admit_step excludedNodeIDs sortedRules) nodes empty_admission in
  {| res_AdmittedNodes := res_AdmittedNodes res;
     res_AdmittedNodeMap := res_AdmittedNodeMap res;
     res_AdmittedNodeIDs := sort_strings (res_AdmittedNodeIDs res);
     res_ExcludedNodeIDs := uniqueStrings (sort_strings (res_ExcludedNodeIDs res));
     res_Diagnostics := res_Diagnostics res |}.

(** ** Risk decisions *)

Definition risk_excludes (decision reviewAction : string) : bool :=
  String.eqb decision RiskActionBlock ||
  (String.eqb decision RiskActionReview && negb (String.eqb reviewAction RiskActionAllow)) ||
  String.eqb decision RiskActionUnknown.

Definition riskDiagnosticSeverity (decision reviewAction : string) : string :=
  if risk_excludes decision reviewAction then DiagnosticSeverityWarning
  else DiagnosticSeverityInfo.

(** Code and message of the decision; [None] for the actions the switch skips. *)
Definition risk_message (reviewAction : string) (d : RiskDecision)
    : option (string * string) :=
  let node := "node " +:+ dec_NodeLogicalID d in
  if String.eqb (dec_Decision d) RiskActionBlock then
    Some ("risk_blocked",
          node +:+ " was excluded by risk policy: " +:+ dec_ReasonCode d)
  else if String.eqb (dec_Decision d) RiskActionReview then
    if String.eqb reviewAction RiskActionAllow then
      Some ("risk_review_allowed",
            node +:+ " requires risk review but remains admitted: " +:+ dec_ReasonCode d)
    else
      Some ("risk_review", node +:+ " was excluded pending risk review: " +:+ dec_ReasonCode d)
  else if String.eqb (dec_Decision d) RiskActionUnknown then
    Some ("risk_unknown",
          node +:+ " was excluded because risk decision is unknown: " +:+ dec_ReasonCode d)
  else None.

Definition risk_step (nodes : list Node) (policyRevision reviewAction : string)
    (acc : gset string * list Diagnostic) (d : RiskDecision)
    : gset string * list Diagnostic :=
  if negb (String.eqb (dec_PolicyRevisionID d) policyRevision) then acc
  else if negb (mem_str (dec_NodeLogicalID d) (map node_LogicalID nodes)) then acc
  else
    match risk_message reviewAction d with
    | None => acc
    | Some (code, message) =>
        (if risk_excludes (dec_Decision d) reviewAction
         then {[dec_NodeLogicalID d]} ∪ acc.1 else acc.1,
         acc.2 ++ [mk_diag (riskDiagnosticSeverity (dec_Decision d) reviewAction) code message
                     (dec_NodeLogicalID d)])
    end.

Definition evaluateRiskAdmission (nodes : list Node) (policyRevision : string)
    (decisions : list RiskDecision) (reviewAction : string)
    : list string * list Diagnostic :=
  if String.eqb policyRevision "" || (length decisions =? 0) then ([], [])
  else
    let reviewAction :=
      if negb (String.eqb reviewAction RiskActionAllow) then RiskActionBlock
      else reviewAction in
    let '(excluded, diagnostics) :=
      fold_left (risk_step nodes policyRevision reviewAction) decisions (∅, []) in
    (sort_strings (elements excluded), diagnostics).
End Admission.

(** ** Properties *)

Section AdmissionLemmas.
Context `{GoText} `{RegexEngine}.

Definition first_matching (node : Node) (rules : list AdmissionRule) : option AdmissionRule :=
  List.find (λ r, matchesAdmissionExpression node (adm_Expression r)) rules.

(** The node passes: active, not excluded by risk, and the first matching rule
    neither rejects nor quarantines it. *)
Definition admissible (riskExcluded : list string) (rules : list AdmissionRule) (node : Node)
    : Prop :=
  node_Active node = true ∧ node_LogicalID node ∉ riskExcluded ∧
  match first_matching node rules with
  | Some r => adm_Action r ≠ RuleActionReject ∧ adm_Action r ≠ RuleActionQuarantine
  | None => True
  end.

Lemma rule_verdict_none node rules :
  rule_verdict node rules = None ↔
  match first_matching node rules with
  | Some r => adm_Action r ≠ RuleActionReject ∧ adm_Action r ≠ RuleActionQuarantine
  | None => True
  end.
Proof.
  induction rules as [|r rules IH]; simpl; [done|].
  destruct (matchesAdmissionExpression _ _); [|done].
  destruct (String.eqb_spec (adm_Action r) RuleActionReject); [naive_solver|].
  destruct (String.eqb_spec (adm_Action r) RuleActionQuarantine); naive_solver.
Qed.

Lemma admission_verdict_none risk rules node :
  admission_verdict risk rules node = None ↔ admissible risk rules node.
Proof.
  unfold admission_verdict, admissible. rewrite <- rule_verdict_none, <- mem_str_false.
  destruct (node_Active node); simpl; [|naive_solver].
  destruct (mem_str _ _); naive_solver.
Qed.

Lemma admission_verdict_target risk rules node d :
  admission_verdict risk rules node = Some d → diag_Target d = node_LogicalID node.
Proof.
  unfold admission_verdict. destruct (negb _); [by intros [= <-]|].
  destruct (mem_str _ _); [by intros [= <-]|].
  induction rules as [|r rules IH]; simpl; [done|].
  destruct (matchesAdmissionExpression _ _); [|done].
  destruct (String.eqb _ _); [by intros [= <-]|]. by destruct (String.eqb _ _); [intros [= <-]|].
Qed.

#[global] Instance admissible_dec risk rules node : Decision (admissible risk rules node).
Proof.
  refine (cast_if (decide (admission_verdict risk rules node = None)));
    by rewrite <- admission_verdict_none.
Defined.

(** What the accumulated result holds after the nodes of [l]. *)
Definition admission_of (risk : list string) (rules : list AdmissionRule) (l : list Node)
    (res : nodeAdmissionResult) : Prop :=
  res_AdmittedNodes res = filter (admissible risk rules) l ∧
  (∀ id n, res_AdmittedNodeMap res !! id = Some n →
     n ∈ res_AdmittedNodes res ∧ node_LogicalID n = id) ∧
  (∀ n, n ∈ res_AdmittedNodes res → is_Some (res_AdmittedNodeMap res !! node_LogicalID n)) ∧
  res_AdmittedNodeIDs res = map node_LogicalID (res_AdmittedNodes res) ∧
  res_ExcludedNodeIDs res =
    map node_LogicalID (filter (λ n, ¬ admissible risk rules n) l) ∧
  map diag_Target (res_Diagnostics res) = res_ExcludedNodeIDs res.

Lemma admit_steps risk rules l :
  admission_of risk rules l (fold_left (admit_step risk rules) l empty_admission).
Proof.
  induction l as [|n l IH] using rev_ind.
  { unfold admission_of. simpl. split; [done|]. split; [by intros ? ? ?%lookup_empty_Some|].
    split; [by intros ? ?%elem_of_nil|done]. }
  rewrite fold_left_app. cbn [fold_left].
  set (res := fold_left _ l _) in *. unfold admission_of, admit_step.
  destruct IH as (Hn & Hm & Hm' & Hi & He & Hd).
  rewrite !filter_app, !filter_cons, !filter_nil.
  destruct (admission_verdict risk rules n) as [d|] eqn:Hv; simpl.
  - assert (¬ admissible risk rules n) as Hna by (rewrite <- admission_verdict_none; congruence).
    rewrite (decide_False (P := admissible risk rules n)) by done.
    rewrite (decide_True (P := ¬ admissible risk rules n)) by done.
    apply admission_verdict_target in Hv.
    rewrite app_nil_r, !map_app, Hd, He. simpl. rewrite Hv. auto 10.
  - apply admission_verdict_none in Hv as Ha.
    rewrite (decide_True (P := admissible risk rules n)) by done.
    rewrite (decide_False (P := ¬ admissible risk rules n)) by auto.
    rewrite app_nil_r, map_app, Hi, Hn. split; [done|]. split_and!; [| |done..].
    + intros id n'. rewrite lookup_insert. case_decide as Hid.
      * intros [= <-]. split; [set_solver|done].
      * intros Hl%Hm. rewrite <- Hn. set_solver.
    + intros n' Hn'. rewrite lookup_insert. case_decide; [done|]. apply Hm'. rewrite Hn. set_solver.
Qed.

Lemma evaluateNodeAdmission_spec nodes rules risk :
  let res := evaluateNodeAdmission nodes rules risk in
  let ok := admissible risk (sort_admission_rules rules) in
  res_AdmittedNodes res = filter ok nodes ∧
  (∀ id n, res_AdmittedNodeMap res !! id = Some n →
     n ∈ res_AdmittedNodes res ∧ node_LogicalID n = id) ∧
  (∀ n, n ∈ res_AdmittedNodes res → is_Some (res_AdmittedNodeMap res !! node_LogicalID n)) ∧
  (∀ id, id ∈ res_AdmittedNodeIDs res ↔ ∃ n, n ∈ nodes ∧ node_LogicalID n = id ∧ ok n) ∧
  (∀ id, id ∈ res_ExcludedNodeIDs res ↔ ∃ n, n ∈ nodes ∧ node_LogicalID n = id ∧ ¬ ok n) ∧
  NoDup (res_ExcludedNodeIDs res) ∧
  map diag_Target (res_Diagnostics res) =
    map node_LogicalID (filter (λ n, ¬ ok n) nodes).
Proof.
  intros res ok. destruct (admit_steps risk (sort_admission_rules rules) nodes)
    as (Hn & Hm & Hm' & Hi & He & Hd). subst res. unfold evaluateNodeAdmission. simpl.
  set (r := fold_left _ nodes _) in *. split; [done|]. split; [done|]. split; [done|].
  assert (∀ l, uniqueStrings (sort_strings l) = unique_adjacent (sort_strings l)) as Hu.
  { intros l. unfold uniqueStrings. destruct (Nat.ltb_spec (length (sort_strings l)) 2) as [Hlt|]; [|done].
    by destruct (sort_strings l) as [|? [|? ?]]; [..|simpl in Hlt; lia]. }
  rewrite Hu. split_and!.
  - intros id. rewrite elem_of_sort_strings, Hi, Hn, list_elem_of_fmap.
    setoid_rewrite list_elem_of_filter. subst ok. naive_solver.
  - intros id. rewrite elem_of_unique_adjacent, elem_of_sort_strings, He, list_elem_of_fmap.
    setoid_rewrite list_elem_of_filter. subst ok. naive_solver.
  - apply unique_adjacent_nodup, sort_strings_sorted.
  - by rewrite Hd, He.
Qed.
End AdmissionLemmas.

Section RiskLemmas.
Context (nodes : list Node) (rev ra : string).

Definition risk_excluded_by (ds : list RiskDecision) (id : string) : Prop :=
  ∃ d, d ∈ ds ∧ dec_NodeLogicalID d = id ∧ dec_PolicyRevisionID d = rev ∧
    id ∈ map node_LogicalID nodes ∧ risk_excludes (dec_Decision d) ra = true.

Lemma risk_excludes_message d :
  risk_excludes (dec_Decision d) ra = true → is_Some (risk_message ra d).
Proof.
  unfold risk_excludes, risk_message. destruct (String.eqb _ RiskActionBlock); [done|].
  destruct (String.eqb _ RiskActionReview); simpl; [by destruct (String.eqb ra _)|].
  by destruct (String.eqb _ _).
Qed.

Lemma risk_steps ds acc :
  ∀ id, id ∈ (fold_left (risk_step nodes rev ra) ds acc).1 ↔
    id ∈ acc.1 ∨ risk_excluded_by ds id.
Proof.
  revert acc. induction ds as [|d ds IH]; intros acc id; simpl.
  { split; [by left|]. intros [?|(d & ?%elem_of_nil & _)]; done. }
  rewrite IH. clear IH. unfold risk_excluded_by at 2.
  assert (id ∈ (risk_step nodes rev ra acc d).1 ↔ id ∈ acc.1 ∨
    (dec_NodeLogicalID d = id ∧ dec_PolicyRevisionID d = rev ∧
     id ∈ map node_LogicalID nodes ∧ risk_excludes (dec_Decision d) ra = true)) as ->.
  { unfold risk_step.
    destruct (String.eqb_spec (dec_PolicyRevisionID d) rev); simpl; [|naive_solver].
    destruct (mem_str (dec_NodeLogicalID d) (map node_LogicalID nodes)) eqn:Hmem; simpl.
    - apply mem_str_spec in Hmem. pose proof (risk_excludes_message d) as Hmsg.
      destruct (risk_message ra d) as [[c m]|]; simpl.
      + destruct (risk_excludes _ _); [|naive_solver]. set_solver.
      + destruct (risk_excludes _ _); [by destruct Hmsg|naive_solver].
    - apply mem_str_false in Hmem. naive_solver. }
  setoid_rewrite elem_of_cons. unfold risk_excluded_by. naive_solver.
Qed.
End RiskLemmas.

Lemma risk_admission_spec (nodes : list Node) (rev : string) (ds : list RiskDecision)
    (reviewAction : string) :
  rev ≠ "" →
  let excluded := (evaluateRiskAdmission nodes rev ds reviewAction).1 in
  (∀ id, id ∈ excluded ↔ ∃ d, d ∈ ds ∧ dec_NodeLogicalID d = id ∧
     dec_PolicyRevisionID d = rev ∧ id ∈ map node_LogicalID nodes ∧
     (dec_Decision d = RiskActionBlock ∨ dec_Decision d = RiskActionUnknown ∨
      (dec_Decision d = RiskActionReview ∧ reviewAction ≠ RiskActionAllow))) ∧
  NoDup excluded ∧ StronglySorted (not_after str_less) excluded.
Proof.
  intros Hrev. unfold evaluateRiskAdmission. rewrite (proj2 (String.eqb_neq _ _) Hrev). simpl.
  destruct ds as [|d0 ds0] eqn:Hds; simpl length; cbn [Nat.eqb].
  { simpl. split; [|by split; constructor]. intros id. rewrite elem_of_nil.
    split; [done|]. intros (d & ?%elem_of_nil & _). done. }
  rewrite <- Hds. clear Hds.
  set (ra := if negb _ then RiskActionBlock else reviewAction).
  assert (∀ a, risk_excludes a ra = true ↔ a = RiskActionBlock ∨ a = RiskActionUnknown ∨
    (a = RiskActionReview ∧ reviewAction ≠ RiskActionAllow)) as Hex.
  { intros a. unfold risk_excludes, ra.
    rewrite !orb_true_iff, andb_true_iff, !String.eqb_eq, negb_true_iff, String.eqb_neq.
    destruct (String.eqb_spec reviewAction RiskActionAllow) as [->|]; simpl; naive_solver. }
  pose proof (risk_steps nodes rev ra ds (∅, [])) as Hst.
  destruct (fold_left _ ds _) as [ex diags]. simpl in *. split_and!.
  - intros id. rewrite elem_of_sort_strings, elem_of_elements, Hst.
    unfold risk_excluded_by. setoid_rewrite Hex. set_solver.
  - rewrite sort_strings_perm. apply NoDup_elements.
  - apply sort_strings_sorted.
Qed.

(** Admission is exact: the admitted nodes are precisely the active nodes that
    are not excluded by risk and whose first matching rule, in order of
    position, does not reject or quarantine them, in inventory order; every
    other node's ID is in the sorted, duplicate-free exclusion list and has
    exactly one diagnostic, and the map of admitted nodes holds admitted nodes
    under their own IDs. *)
Theorem node_admission_exact `{GoText} `{RegexEngine} (nodes : list Node)
    (rules : list AdmissionRule) (risk : list string) :
  let res := evaluateNodeAdmission nodes rules risk in
  let sorted := sort_admission_rules rules in
  (sorted ≡ₚ rules ∧ StronglySorted (λ a b, adm_Position a ≤ adm_Position b)%Z sorted) ∧
  res_AdmittedNodes res = filter (admissible risk sorted) nodes ∧
  (∀ id, id ∈ res_ExcludedNodeIDs res ↔
     ∃ n, n ∈ nodes ∧ node_LogicalID n = id ∧ ¬ admissible risk sorted n) ∧
  NoDup (res_ExcludedNodeIDs res) ∧
  map diag_Target (res_Diagnostics res) =
    map node_LogicalID (filter (λ n, ¬ admissible risk sorted n) nodes) ∧
  ∀ id n, res_AdmittedNodeMap res !! id = Some n →
    n ∈ nodes ∧ node_LogicalID n = id ∧ admissible risk sorted n.
Proof.
  intros res sorted.
  destruct (evaluateNodeAdmission_spec nodes rules risk) as (Hn & Hm & _ & _ & He & Hnd & Hd).
  split; [by apply exchange_sort_spec|]. split; [done|]. split; [done|]. split; [done|].
  split; [done|]. intros id n Hl. apply Hm in Hl as [Hin Hid]. rewrite Hn in Hin.
  apply list_elem_of_filter in Hin. naive_solver.
Qed.

(** Risk decisions exclude exactly what they should: with a policy revision in
    force, a node is excluded if and only if it is in the inventory and some
    decision of that very revision blocks it, is unknown, or asks for review
    while reviews are not explicitly allowed. The exclusion list is sorted and
    has no duplicates. *)
Theorem risk_admission_exact (nodes : list Node) (rev : string) (ds : list RiskDecision)
    (reviewAction : string) :
  rev ≠ "" →
  let excluded := (evaluateRiskAdmission nodes rev ds reviewAction).1 in
  (∀ id, id ∈ excluded ↔ ∃ d, d ∈ ds ∧ dec_NodeLogicalID d = id ∧
     dec_PolicyRevisionID d = rev ∧ id ∈ map node_LogicalID nodes ∧
     (dec_Decision d = RiskActionBlock ∨ dec_Decision d = RiskActionUnknown ∨
      (dec_Decision d = RiskActionReview ∧ reviewAction ≠ RiskActionAllow))) ∧
  NoDup excluded ∧ StronglySorted (not_after str_less) excluded.
Proof. apply risk_admission_spec. Qed.

Lemma risk_admission_exact_witness :
  let d := {| dec_NodeLogicalID := node_LogicalID witness_node; dec_PolicyRevisionID := "r1";
              dec_Decision := "review"; dec_ReasonCode := "c"; dec_ObservationDigestSet := [];
              dec_EvaluatedAt := 1 |}%Z in
  node_LogicalID witness_node ∈ (evaluateRiskAdmission [witness_node] "r1" [d] "").1.
Proof.
  intros d. apply (risk_admission_exact [witness_node] "r1" [d] "" ltac:(discriminate)).
  exists d. split; [apply list_elem_of_here|]. split; [done|]. split; [done|].
  split; [apply list_elem_of_here|]. right. right. split; [reflexivity|discriminate].
Defined.
