(* ===== verification/Groups.v ===== *)
(** * Resolution of policy groups

    [internal/resolver/graph.go] and the group records of [types.go].

    The recursive closure [resolveGroupMemo] of the source calls itself in the
    middle of its loops and appends to a shared list of diagnostics.  Its body is
    written once, as a program over two effects ([prog]): calling for the result
    of another group, and emitting a diagnostic.  [run] executes a program with
    the memo table, the set of groups being resolved and the diagnostics of the
    source; [eval] gives its meaning when the results of the other groups are a
    given function, which is what the correctness statements are about. *)

From S2P Require Import Prelude.
From S2P Require Import GoStrings.
From S2P Require Import Domain.
From S2P Require Import Lifecycle.
From S2P Require Import NodeFilter.
From S2P Require Import Policy.
From S2P Require Import Risk.
From S2P Require Import Admission.

(** ** Data *)

Definition MemberKindGroup := "group".
Definition MemberKindNode := "node".
Definition MemberKindBuiltin := "builtin".

Record ResolvedGroupMember : Type := {
  mem_Kind : string;
  mem_TargetID : string;
  mem_DisplayName : string;
  mem_Position : nat
}.

Record ResolvedGroup : Type := {
  rg_EmptyFallbackPass : bool;
  rg_EffectiveEmptyPass : bool;
  rg_ID : string;
  rg_Name : string;
  rg_GroupType : string;
  rg_Members : list ResolvedGroupMember;
  rg_ChildGroupIDs : list string;
  rg_NodeLogicalIDs : list string;
  rg_AllNodeLogicalIDs : list string;
  rg_ExpandedNodeIDs : list string;
  rg_Sources : list MemberSource;
  rg_Position : nat
}.

Definition UsesEmptyPass (g : ResolvedGroup) : bool :=
  rg_EmptyFallbackPass g && rg_EffectiveEmptyPass g && (length (rg_AllNodeLogicalIDs g) =? 0).

Record resolvedItem : Type := {
  it_id : string;
  it_kind : string;
  it_targetID : string;
  it_displayName : string
}.

Record groupMemo : Type := {
  gm_members : list ResolvedGroupMember;
  gm_childGroupIDs : list string;
  gm_nodeLogicalIDs : list string;
  gm_expandedNodeIDs : list string;
  gm_effectiveEmptyPass : bool;
  gm_leafItems : list resolvedItem;
  gm_leafNodeSet : gset string;
  gm_candidateCount : nat
}.

Definition empty_memo : groupMemo :=
  {| gm_members := []; gm_childGroupIDs := []; gm_nodeLogicalIDs := [];
     gm_expandedNodeIDs := []; gm_effectiveEmptyPass := false; gm_leafItems := [];
     gm_leafNodeSet := ∅; gm_candidateCount := 0 |}.

Record GroupFilterCount : Type := {
  gfc_Candidate : nat; gfc_Kept : nat; gfc_Excluded : nat
}.

(** ** Programs *)

Inductive prog (A : Type) : Type :=
  | Ret (a : A)
  | Call (gid : string) (k : groupMemo → prog A)
  | Emit (d : Diagnostic) (p : prog A).
Arguments Ret {A} _.
Arguments Call {A} _ _.
Arguments Emit {A} _ _.

#[export] Instance prog_ret : MRet prog := λ A a, Ret a.
#[export] Instance prog_bind : MBind prog := λ A B f,
  fix go p := match p with
  | Ret a => f a
  | Call gid k => Call gid (λ m, go (k m))
  | Emit d p => Emit d (go p)
  end.

(** A loop that threads an accumulator. *)
Fixpoint foldM {A B} (f : B → A → prog B) (b : B) (l : list A) : prog B :=
  match l with
  | [] => Ret b
  | x :: l => b' ← f b x; foldM f b' l
  end.

Definition call (gid : string) : prog groupMemo := Call gid Ret.

Record resolve_state : Type := {
  st_memo : gmap string groupMemo;
  st_resolving : gset string;
  st_diagnostics : list Diagnostic
}.

(** [None]: the fuel of a recursive call ran out. *)
Fixpoint run {A} (rec : string → resolve_state → option (resolve_state * groupMemo))
    (p : prog A) (st : resolve_state) : option (resolve_state * A) :=
  match p with
  | Ret a => Some (st, a)
  | Call gid k => match rec gid st with
                  | Some (st', m) => run rec (k m) st'
                  | None => None
                  end
  | Emit d p =>
      run rec p {| st_memo := st_memo st; st_resolving := st_resolving st;
                   st_diagnostics := st_diagnostics st ++ [d] |}
  end.

(** The value of a program whose calls are answered by [child]. *)
Fixpoint eval {A} (child : string → groupMemo) (p : prog A) : A :=
  match p with
  | Ret a => a
  | Call gid k => eval child (k (child gid))
  | Emit _ p => eval child p
  end.

(** The calls it makes on the way. *)
Fixpoint calls {A} (child : string → groupMemo) (p : prog A) : list string :=
  match p with
  | Ret _ => []
  | Call gid k => gid :: calls child (k (child gid))
  | Emit _ p => calls child p
  end.

(** ** One group *)

Record pipe : Type := {
  pipe_items : list resolvedItem;
  pipe_seen : gset string;
  pipe_count : nat
}.

Definition add_item (item : resolvedItem) (p : pipe) : pipe :=
  if bool_decide (it_id item ∈ pipe_seen p) then p
  else {| pipe_items := pipe_items p ++ [item];
          pipe_seen := {[it_id item]} ∪ pipe_seen p; pipe_count := pipe_count p |}.

Definition add_count (n : nat) (p : pipe) : pipe :=
  {| pipe_items := pipe_items p; pipe_seen := pipe_seen p; pipe_count := pipe_count p + n |}.

Definition node_item (id displayName : string) : resolvedItem :=
  {| it_id := "node:" +:+ id; it_kind := MemberKindNode; it_targetID := id;
     it_displayName := displayName |}.
Definition group_item (id name : string) : resolvedItem :=
  {| it_id := "group:" +:+ id; it_kind := MemberKindGroup; it_targetID := id;
     it_displayName := name |}.
Definition builtin_item (name : string) : resolvedItem :=
  {| it_id := "builtin:" +:+ name; it_kind := MemberKindBuiltin; it_targetID := name;
     it_displayName := name |}.

Definition is_node (item : resolvedItem) : bool := String.eqb (it_kind item) MemberKindNode.

(** [matched, _ := re.Match(s)]: an error is no match. *)
Definition re_matches (re : filterRegex) (s : string) : bool :=
  match filterRegex_match re s with Ok b => b | Err _ => false end.

Section Group.
Context `{GoText} `{RegexEngine}.
(** The tables of [resolveGroups] that its closure reads. *)
Context (groupMap : gmap string NodeGroup).
Context (sortedGlobalNodes : list Node).
Context (globalAdmittedMap admittedNodeMap : gmap string Node).
Context (nodeSources : gmap string (list NodeSource)).
Context (latestObs : gmap string (gmap string ProbeObservation)).
Context (asOf : time).

Definition filter_node (f : option NodeFilterSpec) (node : Node) (id : string) : bool * string :=
  MatchesFilter f node (default [] (nodeSources !! id)) (default ∅ (latestObs !! id)) asOf.

(** *** Adding *)

Definition add_manual (g : NodeGroup) (s : MemberSource) (p : pipe) : prog pipe :=
  let p := add_count 1 p in
  match src_NodeLogicalID s with
  | None => Ret p
  | Some nodeID =>
      match globalAdmittedMap !! nodeID with
      | Some node =>
          match src_FilterSpec s with
          | Some f =>
              let '(matched, reason) := filter_node (Some f) node nodeID in
              if matched then Ret (add_item (node_item nodeID (node_DisplayName node)) p)
              else
                Emit {| diag_Severity := DiagnosticSeverityWarning;
                        diag_Code := "group_member_filtered";
                        diag_Message := "group " +:+ Quote (grp_Name g) +:+
                          " explicit member " +:+ Quote (node_DisplayName node) +:+ " (" +:+
                          nodeID +:+ ") excluded by source filter: " +:+ reason;
                        diag_Target := nodeID; diag_Reason := reason |} (Ret p)
          | None => Ret (add_item (node_item nodeID (node_DisplayName node)) p)
          end
      | None =>
          match admittedNodeMap !! nodeID with
          | Some origNode =>
              Emit {| diag_Severity := DiagnosticSeverityWarning;
                      diag_Code := "group_member_filtered";
                      diag_Message := "group " +:+ Quote (grp_Name g) +:+
                        " explicit member " +:+ Quote (node_DisplayName origNode) +:+ " (" +:+
                        nodeID +:+ ") excluded by global filter";
                      diag_Target := nodeID;
                      diag_Reason := "excluded by global filter" |} (Ret p)
          | None =>
              Emit (mk_diag DiagnosticSeverityWarning "node_inactive_or_missing"
                ("group " +:+ Quote (grp_Name g) +:+ " references node " +:+ nodeID +:+
                 " which is missing, inactive, or excluded") nodeID) (Ret p)
          end
      end
  end.

Definition add_group_ref (s : MemberSource) (p : pipe) : prog pipe :=
  match src_TargetGroupID s with
  | None => Ret p
  | Some targetID =>
      match groupMap !! targetID with
      | Some tg => Ret (add_item (group_item targetID (grp_Name tg)) p)
      | None =>
          Emit (mk_diag DiagnosticSeverityWarning "target_group_not_found"
            ("target group " +:+ targetID +:+ " not found") targetID) (Ret p)
      end
  end.

(** Is this leaf of the target group taken over? *)
Definition keep_leaf (s : MemberSource) (leaf : resolvedItem) : bool :=
  if is_node leaf then
    match globalAdmittedMap !! it_targetID leaf with
    | None => false
    | Some node =>
        match src_Pattern s with
        | Some pattern =>
            if negb (String.eqb (TrimSpace pattern) "") then
              match compileFilterRegex pattern with
              | Ok re => re_matches re (node_DisplayName node)
              | Err _ => true
              end
            else true
        | None => true
        end &&
        match src_FilterSpec s with
        | Some f => fst (filter_node (Some f) node (it_targetID leaf))
        | None => true
        end
    end
  else true.

Definition add_leaves (s : MemberSource) (child : groupMemo) (p : pipe) : pipe :=
  fold_left (λ p leaf, if keep_leaf s leaf then add_item leaf p else p)
    (gm_leafItems child) (add_count (length (gm_leafItems child)) p).

Definition add_group_nodes (s : MemberSource) (p : pipe) : prog pipe :=
  match src_TargetGroupID s with
  | None => Ret p
  | Some targetID =>
      match groupMap !! targetID with
      | Some _ => childRes ← call targetID; Ret (add_leaves s childRes p)
      | None => Ret p
      end
  end.

(** The nodes of the inventory that [keep] selects. *)
Definition add_nodes (keep : Node → bool) (p : pipe) : pipe :=
  fold_left (λ p node,
    if keep node then add_item (node_item (node_LogicalID node) (node_DisplayName node)) p
    else p) sortedGlobalNodes p.

Definition add_regex (g : NodeGroup) (s : MemberSource) (p : pipe) : prog pipe :=
  let p := add_count (length sortedGlobalNodes) p in
  match src_Pattern s with
  | Some pattern =>
      if negb (String.eqb (TrimSpace pattern) "") then
        match compileFilterRegex pattern with
        | Err err =>
            Emit (mk_diag DiagnosticSeverityError "invalid_regex"
              ("group " +:+ Quote (grp_Name g) +:+ " regex invalid: " +:+ err) "") (Ret p)
        | Ok re => Ret (add_nodes (λ node, re_matches re (node_DisplayName node)) p)
        end
      else Ret p
  | None => Ret p
  end.

Definition add_filter (s : MemberSource) (p : pipe) : prog pipe :=
  let p := add_count (length sortedGlobalNodes) p in
  match src_FilterSpec s with
  | Some f =>
      Ret (add_nodes (λ node, fst (filter_node (Some f) node (node_LogicalID node))) p)
  | None => Ret p
  end.

Definition add_builtin (s : MemberSource) (p : pipe) : prog pipe :=
  match src_BuiltinName s with
  | Some name => Ret (add_item (builtin_item (ToUpper (TrimSpace name))) p)
  | None => Ret p
  end.

(** *** Removing *)

Definition shouldRemove (s : MemberSource) (item : resolvedItem) : prog bool :=
  let normKind := MemberSourceKind_Normalize (src_Kind s) in
  if String.eqb normKind SourceKindManualNode then
    Ret (match src_NodeLogicalID s with
         | Some id => is_node item && String.eqb (it_targetID item) id
         | None => false
         end)
  else if String.eqb normKind SourceKindGroupRef then
    Ret (match src_TargetGroupID s with
         | Some id => String.eqb (it_kind item) MemberKindGroup &&
                      String.eqb (it_targetID item) id
         | None => false
         end)
  else if String.eqb normKind SourceKindGroupNodes then
    match src_TargetGroupID s with
    | Some id =>
        if is_node item then
          childRes ← call id;
          Ret (bool_decide (it_targetID item ∈ gm_leafNodeSet childRes))
        else Ret false
    | None => Ret false
    end
  else if String.eqb normKind SourceKindRegex then
    Ret (match src_Pattern s with
         | Some pattern =>
             is_node item &&
             match compileFilterRegex pattern with
             | Ok re => re_matches re (it_displayName item)
             | Err _ => false
             end
         | None => false
         end)
  else if String.eqb normKind SourceKindFilter then
    Ret (match src_FilterSpec s with
         | Some f =>
             is_node item &&
             match globalAdmittedMap !! it_targetID item with
             | Some node => fst (filter_node (Some f) node (it_targetID item))
             | None => false
             end
         | None => false
         end)
  else if String.eqb normKind SourceKindTypedBuiltin then
    Ret (match src_BuiltinName s with
         | Some name => String.eqb (it_kind item) MemberKindBuiltin &&
                        String.eqb (it_targetID item) (ToUpper (TrimSpace name))
         | None => false
         end)
  else Ret false.

(** One item of the removal loop; removing clears the seen mark too, so that a
    later source can add the item back. *)
Definition drop_or_keep (p : pipe) (item : resolvedItem) (remove : bool) : pipe :=
  if remove
  then {| pipe_items := pipe_items p; pipe_seen := pipe_seen p ∖ {[it_id item]};
          pipe_count := pipe_count p |}
  else {| pipe_items := pipe_items p ++ [item]; pipe_seen := pipe_seen p;
          pipe_count := pipe_count p |}.

Definition remove_step (s : MemberSource) (p : pipe) (item : resolvedItem) : prog pipe :=
  remove ← shouldRemove s item; Ret (drop_or_keep p item remove).

Definition remove_items (s : MemberSource) (p : pipe) : prog pipe :=
  foldM (remove_step s)
    {| pipe_items := []; pipe_seen := pipe_seen p; pipe_count := pipe_count p |}
    (pipe_items p).

(** *** The pipeline *)

Definition apply_source (g : NodeGroup) (p : pipe) (s : MemberSource) : prog pipe :=
  let op := SourceOperation_Normalize (src_Operation s) in
  let normKind := MemberSourceKind_Normalize (src_Kind s) in
  if String.eqb op OperationAdd then
    if String.eqb normKind SourceKindManualNode then add_manual g s p
    else if String.eqb normKind SourceKindGroupRef then add_group_ref s p
    else if String.eqb normKind SourceKindGroupNodes then add_group_nodes s p
    else if String.eqb normKind SourceKindRegex then add_regex g s p
    else if String.eqb normKind SourceKindFilter then add_filter s p
    else if String.eqb normKind SourceKindTypedBuiltin then add_builtin s p
    else Ret p
  else if String.eqb op OperationRemove then remove_items s p
  else Ret p.

(** *** Assembling the result *)

Definition set_leaves (m : groupMemo) (items : list resolvedItem) : groupMemo :=
  {| gm_members := gm_members m; gm_childGroupIDs := gm_childGroupIDs m;
     gm_nodeLogicalIDs := gm_nodeLogicalIDs m; gm_expandedNodeIDs := gm_expandedNodeIDs m;
     gm_effectiveEmptyPass := gm_effectiveEmptyPass m;
     gm_leafItems := gm_leafItems m ++ items;
     gm_leafNodeSet := gm_leafNodeSet m ∪
       list_to_set (map it_targetID (List.filter is_node items));
     gm_candidateCount := gm_candidateCount m |}.

(** The filter of a reference, from the sources in stored order. *)
Definition ref_filter (g : NodeGroup) (targetID : string) : option NodeFilterSpec :=
  match List.find (λ src, String.eqb (src_Kind src) SourceKindGroupRef &&
                          bool_decide (src_TargetGroupID src = Some targetID) &&
                          negb (is_nil (src_FilterSpec src))) (grp_Sources g) with
  | Some src => src_FilterSpec src
  | None => None
  end.

Definition child_leaf_kept (srcFilter : option NodeFilterSpec) (leaf : resolvedItem) : bool :=
  if is_node leaf && negb (is_nil srcFilter) then
    match globalAdmittedMap !! it_targetID leaf with
    | Some node => fst (filter_node srcFilter node (it_targetID leaf))
    | None => false
    end
  else true.

Definition add_member (m : groupMemo) (item : resolvedItem) : groupMemo :=
  {| gm_members := gm_members m ++
       [{| mem_Kind := it_kind item; mem_TargetID := it_targetID item;
           mem_DisplayName := it_displayName item;
           mem_Position := length (gm_members m) |}];
     gm_childGroupIDs := gm_childGroupIDs m; gm_nodeLogicalIDs := gm_nodeLogicalIDs m;
     gm_expandedNodeIDs := gm_expandedNodeIDs m;
     gm_effectiveEmptyPass := gm_effectiveEmptyPass m; gm_leafItems := gm_leafItems m;
     gm_leafNodeSet := gm_leafNodeSet m; gm_candidateCount := gm_candidateCount m |}.

Definition member_step (g : NodeGroup) (m : groupMemo) (item : resolvedItem)
    : prog groupMemo :=
  let m := add_member m item in
  if String.eqb (it_kind item) MemberKindGroup then
    childRes ← call (it_targetID item);
    let m :=
      {| gm_members := gm_members m;
         gm_childGroupIDs := gm_childGroupIDs m ++ [it_targetID item];
         gm_nodeLogicalIDs := gm_nodeLogicalIDs m; gm_expandedNodeIDs := gm_expandedNodeIDs m;
         gm_effectiveEmptyPass := gm_effectiveEmptyPass m; gm_leafItems := gm_leafItems m;
         gm_leafNodeSet := gm_leafNodeSet m; gm_candidateCount := gm_candidateCount m |} in
    Ret (set_leaves m (List.filter (child_leaf_kept (ref_filter g (it_targetID item)))
           (gm_leafItems childRes)))
  else if is_node item then
    let m :=
      {| gm_members := gm_members m; gm_childGroupIDs := gm_childGroupIDs m;
         gm_nodeLogicalIDs := gm_nodeLogicalIDs m ++ [it_targetID item];
         gm_expandedNodeIDs := gm_expandedNodeIDs m;
         gm_effectiveEmptyPass := gm_effectiveEmptyPass m; gm_leafItems := gm_leafItems m;
         gm_leafNodeSet := gm_leafNodeSet m; gm_candidateCount := gm_candidateCount m |} in
    Ret (set_leaves m [item])
  else if String.eqb (it_kind item) MemberKindBuiltin then Ret (set_leaves m [item])
  else Ret m.

Definition finish_group (g : NodeGroup) (p : pipe) (m : groupMemo) : groupMemo :=
  let expandedNodeIDs := sort_strings (elements (gm_leafNodeSet m)) in
  let hasDestinations :=
    (0 <? length expandedNodeIDs) ||
    existsb (λ item, String.eqb (it_kind item) MemberKindBuiltin) (pipe_items p) in
  {| gm_members := gm_members m; gm_childGroupIDs := gm_childGroupIDs m;
     gm_nodeLogicalIDs := gm_nodeLogicalIDs m; gm_expandedNodeIDs := expandedNodeIDs;
     gm_effectiveEmptyPass := grp_EmptyFallbackPass g && negb hasDestinations;
     gm_leafItems := gm_leafItems m; gm_leafNodeSet := gm_leafNodeSet m;
     gm_candidateCount := pipe_count p |}.

Definition sort_sources : list MemberSource → list MemberSource :=
  sort_stable (less_Z src_Position).

(** The body of [resolveGroupMemo] for a group that exists. *)
Definition group_prog (g : NodeGroup) : prog groupMemo :=
  p ← foldM (apply_source g) {| pipe_items := []; pipe_seen := ∅; pipe_count := 0 |}
        (sort_sources (grp_Sources g));
  m ← foldM (member_step g) empty_memo (pipe_items p);
  Ret (finish_group g p m).

(** *** The recursion *)

Fixpoint resolveGroupMemo (fuel : nat) (gid : string) (st : resolve_state)
    : option (resolve_state * groupMemo) :=
  match fuel with
  | O => None
  | S fuel =>
      match st_memo st !! gid with
      | Some m => Some (st, m)
      | None =>
          if bool_decide (gid ∈ st_resolving st) then Some (st, empty_memo)
          else
            match groupMap !! gid with
            | None => Some (st, empty_memo)
            | Some g =>
                match run (resolveGroupMemo fuel) (group_prog g)
                        {| st_memo := st_memo st;
                           st_resolving := {[gid]} ∪ st_resolving st;
                           st_diagnostics := st_diagnostics st |} with
                | None => None
                | Some (st', m) =>
                    Some ({| st_memo := <[gid := m]> (st_memo st');
                             st_resolving := st_resolving st' ∖ {[gid]};
                             st_diagnostics := st_diagnostics st' |}, m)
                end
            end
      end
  end.
End Group.

(** ** Reasoning about programs *)

(** [wp G S Q p]: as long as every answer satisfies [G], the program only calls
    for groups in [S] and ends with a value that satisfies [Q]. *)
Fixpoint wp {A} (G : groupMemo → Prop) (S : string → Prop) (Q : A → Prop) (p : prog A) : Prop :=
  match p with
  | Ret a => Q a
  | Call gid k => S gid ∧ ∀ m, G m → wp G S Q (k m)
  | Emit _ p => wp G S Q p
  end.

Section Programs.
Context (G : groupMemo → Prop) (S : string → Prop).

Lemma prog_wp_mono {A} (Q Q' : A → Prop) p :
  (∀ a, Q a → Q' a) → wp G S Q p → wp G S Q' p.
Proof.
  intros HQ. induction p as [a|gid k IH|d p IH]; simpl; [by apply HQ| |done].
  intros [HS Hk]. split; [done|]. intros m Hm. by apply IH, Hk.
Qed.

Lemma prog_wp_bind {A B} (p : prog A) (f : A → prog B) (Q : B → Prop) :
  wp G S (λ a, wp G S Q (f a)) p → wp G S Q (p ≫= f).
Proof.
  induction p as [a|gid k IH|d p IH]; simpl; [done| |done].
  intros [HS Hk]. split; [done|]. intros m Hm. apply IH. by apply Hk.
Qed.

(** The loop rule: an invariant over the elements processed and those left. *)
Lemma wp_foldM {A B} (f : B → A → prog B) (I : list A → list A → B → Prop) l b :
  I [] l b →
  (∀ pre x post b, pre ++ x :: post = l → I pre (x :: post) b →
     wp G S (I (pre ++ [x]) post) (f b x)) →
  wp G S (I l []) (foldM f b l).
Proof.
  intros Hb Hstep.
  assert (∀ pre post b, pre ++ post = l → I pre post b →
    wp G S (I l []) (foldM f b post)) as Hgen; [|by apply (Hgen [] l)].
  intros pre post. revert pre.
  induction post as [|x post IH]; intros pre b' Hl HI; simpl.
  { by rewrite app_nil_r in Hl; subst. }
  apply prog_wp_bind. eapply prog_wp_mono; [|by eapply Hstep].
  intros b'' Hb''. apply (IH (pre ++ [x])); [by rewrite <- app_assoc|done].
Qed.

Lemma eval_wp {A} (Q : A → Prop) child p :
  (∀ c, G (child c)) → wp G S Q p → Q (eval child p) ∧ Forall S (calls child p).
Proof.
  intros Hc. induction p as [a|gid k IH|d p IH]; simpl; [by auto| |done].
  intros [HS Hk]. destruct (IH (child gid) (Hk _ (Hc _))). auto.
Qed.
End Programs.

Lemma eval_agree {A} (child child' : string → groupMemo) (p : prog A) :
  (∀ c, c ∈ calls child p → child c = child' c) →
  eval child p = eval child' p ∧ calls child p = calls child' p.
Proof.
  induction p as [a|gid k IH|d p IH]; simpl; intros Hc; [done| |by apply IH].
  rewrite <- (Hc gid) by set_solver.
  destruct (IH (child gid)) as [-> ->]; [set_solver|done].
Qed.

(** ** Items and memo entries are well formed *)

Section WellFormed.
Context (groupMap : gmap string NodeGroup) (admitted : gmap string Node).

(** An item names an admitted node, an existing group or a builtin, under the
    key that goes with it. *)
Inductive item_ok : resolvedItem → Prop :=
  | ok_node id name : is_Some (admitted !! id) → item_ok (node_item id name)
  | ok_group id name : is_Some (groupMap !! id) → item_ok (group_item id name)
  | ok_builtin name : item_ok (builtin_item name).

Definition is_group (item : resolvedItem) : Prop := it_kind item = MemberKindGroup.
#[global] Instance is_group_dec item : Decision (is_group item).
Proof. unfold is_group. apply _. Defined.

Definition member_of (i : nat) (item : resolvedItem) : ResolvedGroupMember :=
  {| mem_Kind := it_kind item; mem_TargetID := it_targetID item;
     mem_DisplayName := it_displayName item; mem_Position := i |}.

Definition node_targets (items : list resolvedItem) : list string :=
  map it_targetID (List.filter is_node items).
Definition group_targets (items : list resolvedItem) : list string :=
  map it_targetID (filter is_group items).

(** The members of the memo are [items] in order; the ID lists and the leaf set
    are read off them; leaves are never groups. *)
Record memo_for (items : list resolvedItem) (m : groupMemo) : Prop := {
  mf_items : Forall item_ok items;
  mf_nodup : NoDup (map it_id items);
  mf_members : gm_members m = imap member_of items;
  mf_children : gm_childGroupIDs m = group_targets items;
  mf_nodes : gm_nodeLogicalIDs m = node_targets items;
  mf_leaves : Forall (λ l, item_ok l ∧ ¬ is_group l) (gm_leafItems m);
  mf_leafset : gm_leafNodeSet m = list_to_set (node_targets (gm_leafItems m));
  mf_own : ∀ i, i ∈ items → ¬ is_group i → i ∈ gm_leafItems m
}.

Definition memo_ok (m : groupMemo) : Prop :=
  (∃ items, memo_for items m) ∧
  gm_expandedNodeIDs m = sort_strings (elements (gm_leafNodeSet m)).

Lemma empty_memo_for : memo_for [] empty_memo.
Proof. by split; try constructor; try (intros ? ?%elem_of_nil). Qed.

Lemma empty_memo_ok : memo_ok empty_memo.
Proof. split; [exists []; apply empty_memo_for|done]. Qed.

Lemma item_ok_node item :
  item_ok item → is_node item = true → is_Some (admitted !! it_targetID item).
Proof. by destruct 1. Qed.

Lemma item_ok_kinds item :
  item_ok item → ¬ is_group item → is_node item = false →
  it_kind item = MemberKindBuiltin.
Proof. by destruct 1. Qed.

Lemma leafset_admitted items m id :
  memo_for items m → id ∈ gm_leafNodeSet m → is_Some (admitted !! id).
Proof.
  intros Hm. rewrite (mf_leafset _ _ Hm), elem_of_list_to_set. unfold node_targets.
  intros (l & -> & Hl)%list_elem_of_fmap. apply list_elem_of_In, filter_In in Hl as [Hl Hn].
  apply list_elem_of_In in Hl. pose proof (mf_leaves _ _ Hm) as HF. rewrite Forall_forall in HF.
  destruct (HF _ Hl) as [Hok _]. by apply item_ok_node.
Qed.
End WellFormed.

Section Body.
Context `{GoText} `{RegexEngine}.
Context (groupMap : gmap string NodeGroup).
Context (sortedGlobalNodes : list Node).
Context (globalAdmittedMap admittedNodeMap : gmap string Node).
Context (nodeSources : gmap string (list NodeSource)).
Context (latestObs : gmap string (gmap string ProbeObservation)).
Context (asOf : time).
Context (Hnodes : ∀ n, n ∈ sortedGlobalNodes → is_Some (globalAdmittedMap !! node_LogicalID n)).

#[local] Abbreviation ok := (item_ok groupMap globalAdmittedMap).
#[local] Abbreviation good := (memo_ok groupMap globalAdmittedMap).
#[local] Abbreviation body := (group_prog groupMap sortedGlobalNodes globalAdmittedMap
  admittedNodeMap nodeSources latestObs asOf).

(** The groups whose results the body of [g] may ask for. *)
Definition calls_for (g : NodeGroup) (c : string) : Prop :=
  ∃ s, s ∈ grp_Sources g ∧
    (src_Kind s = SourceKindGroupRef ∨ src_Kind s = SourceKindGroupNodes) ∧
    src_TargetGroupID s = Some c.

Section OneGroup.
Context (g : NodeGroup).
#[local] Abbreviation S := (calls_for g).

Definition pitem_ok (i : resolvedItem) : Prop := ok i ∧ (is_group i → S (it_targetID i)).

Record pipe_ok (p : pipe) : Prop := {
  po_items : Forall pitem_ok (pipe_items p);
  po_nodup : NoDup (map it_id (pipe_items p));
  po_seen : ∀ x, x ∈ pipe_seen p ↔ x ∈ map it_id (pipe_items p)
}.

Lemma add_count_ok n p : pipe_ok p → pipe_ok (add_count n p).
Proof. by intros []; split. Qed.

Lemma add_item_ok i p : pitem_ok i → pipe_ok p → pipe_ok (add_item i p).
Proof.
  intros Hi [HF Hnd Hs]. unfold add_item. case_bool_decide as Hin; [done|].
  rewrite Hs in Hin. split; simpl.
  - apply Forall_app. auto.
  - rewrite map_app. apply NoDup_app. split; [done|]. split; [set_solver|]. apply NoDup_singleton.
  - intros x. rewrite elem_of_union, elem_of_singleton, Hs, map_app, elem_of_app. simpl.
    rewrite list_elem_of_singleton. tauto.
Qed.

Lemma fold_pipe_ok {A} (f : pipe → A → pipe) l p :
  (∀ p x, x ∈ l → pipe_ok p → pipe_ok (f p x)) → pipe_ok p → pipe_ok (fold_left f l p).
Proof.
  revert p. induction l as [|x l IH]; intros p Hf Hp; simpl; [done|].
  apply IH; [set_solver|]. apply Hf; [set_solver|done].
Qed.

Lemma pitem_node id name : is_Some (globalAdmittedMap !! id) → pitem_ok (node_item id name).
Proof. split; [by constructor|done]. Qed.

Lemma add_nodes_ok keep p : pipe_ok p → pipe_ok (add_nodes sortedGlobalNodes keep p).
Proof.
  apply fold_pipe_ok. intros p' n Hn Hp'. destruct (keep n); [|done].
  apply add_item_ok; [|done]. apply pitem_node. by apply Hnodes.
Qed.

Lemma add_leaves_ok s m p :
  good m → pipe_ok p →
  pipe_ok (add_leaves globalAdmittedMap nodeSources latestObs asOf s m p).
Proof.
  intros [[items Hm] _] Hp. apply fold_pipe_ok; [|by apply add_count_ok].
  intros p' l Hl Hp'. destruct (keep_leaf _ _ _ _ _ _); [|done]. apply add_item_ok; [|done].
  pose proof (mf_leaves _ _ _ _ Hm) as HF. rewrite Forall_forall in HF.
  destruct (HF _ Hl) as [Hok Hng]. by split.
Qed.

(** The state of the removal loop with [post] left to look at. *)
Definition removal_inv (post : list resolvedItem) (q : pipe) : Prop :=
  Forall pitem_ok (pipe_items q) ∧ NoDup (map it_id (pipe_items q ++ post)) ∧
  ∀ x, x ∈ pipe_seen q ↔ x ∈ map it_id (pipe_items q ++ post).

Lemma drop_or_keep_inv x post q b :
  pitem_ok x → removal_inv (x :: post) q → removal_inv post (drop_or_keep q x b).
Proof.
  intros Hx (HF & Hnd & Hs). unfold removal_inv, drop_or_keep. destruct b; simpl.
  - rewrite map_app in Hnd |- *. simpl in Hnd.
    apply NoDup_app in Hnd as (H1 & H2 & H3). apply NoDup_cons in H3 as [H3 H4].
    split_and!; [done| |].
    + apply NoDup_app. split_and!; [done|set_solver|done].
    + intros y. rewrite elem_of_difference, Hs, map_app. simpl.
      rewrite not_elem_of_singleton, !elem_of_app, elem_of_cons.
      split; [naive_solver|]. intros [Hy|Hy]; (split; [naive_solver|]); intros ->; [|done].
      apply (H2 _ Hy). set_solver.
  - rewrite <- !app_assoc. simpl. split_and!; [|done..]. apply Forall_app. auto.
Qed.

Lemma shouldRemove_wp s x :
  s ∈ grp_Sources g →
  wp good S (λ _, True) (shouldRemove globalAdmittedMap nodeSources latestObs asOf s x).
Proof.
  intros Hs. unfold shouldRemove.
  destruct (String.eqb _ SourceKindManualNode); [done|].
  destruct (String.eqb _ SourceKindGroupRef); [done|].
  destruct (String.eqb_spec (MemberSourceKind_Normalize (src_Kind s)) SourceKindGroupNodes).
  - destruct (src_TargetGroupID s) as [c|] eqn:Hc; [|done]. destruct (is_node x); [|done].
    simpl. split; [|done]. exists s. auto.
  - destruct (String.eqb _ SourceKindRegex); [done|].
    destruct (String.eqb _ SourceKindFilter); [done|].
    by destruct (String.eqb _ SourceKindTypedBuiltin).
Qed.

Lemma remove_items_wp s p :
  s ∈ grp_Sources g → pipe_ok p →
  wp good S pipe_ok (remove_items globalAdmittedMap nodeSources latestObs asOf s p).
Proof.
  intros Hs [HF Hnd Hseen]. unfold remove_items.
  eapply prog_wp_mono; [|apply (wp_foldM _ _ _ (λ pre, removal_inv))].
  - intros q (HF' & Hnd' & Hs'). rewrite app_nil_r in *. by split.
  - unfold removal_inv. simpl. split_and!; [constructor|done..].
  - intros pre x post q Hpre Hinv. apply prog_wp_bind.
    eapply prog_wp_mono; [|by apply shouldRemove_wp]. intros b _. simpl.
    apply drop_or_keep_inv; [|done]. rewrite Forall_forall in HF. apply HF.
    rewrite <- Hpre. set_solver.
Qed.

Lemma apply_source_wp s p :
  s ∈ grp_Sources g → pipe_ok p →
  wp good S pipe_ok (apply_source groupMap sortedGlobalNodes globalAdmittedMap
    admittedNodeMap nodeSources latestObs asOf g p s).
Proof.
  intros Hs Hp. unfold apply_source.
  destruct (String.eqb _ OperationAdd).
  2: { destruct (String.eqb _ OperationRemove); [by apply remove_items_wp|done]. }
  pose proof (add_count_ok 1 _ Hp) as Hp1.
  pose proof (add_count_ok (length sortedGlobalNodes) _ Hp) as Hpn.
  destruct (String.eqb _ SourceKindManualNode).
  { unfold add_manual. destruct (src_NodeLogicalID s) as [id|]; [|done].
    destruct (globalAdmittedMap !! id) as [n|] eqn:Hid.
    - assert (pipe_ok (add_item (node_item id (node_DisplayName n)) (add_count 1 p))) as Hadd
        by (apply add_item_ok; [apply pitem_node; by eexists|done]).
      destruct (src_FilterSpec s); [|done]. by destruct (filter_node _ _ _ _ _ _) as [[] ?].
    - by destruct (admittedNodeMap !! id). }
  destruct (String.eqb_spec (MemberSourceKind_Normalize (src_Kind s)) SourceKindGroupRef) as [Hk|].
  { unfold add_group_ref. destruct (src_TargetGroupID s) as [id|] eqn:Hid; [|done].
    destruct (groupMap !! id) as [tg|] eqn:Htg; [|done]. simpl.
    apply add_item_ok; [|done]. split; [constructor; by eexists|]. intros _. simpl.
    exists s. auto. }
  destruct (String.eqb_spec (MemberSourceKind_Normalize (src_Kind s)) SourceKindGroupNodes) as [Hk|].
  { unfold add_group_nodes. destruct (src_TargetGroupID s) as [id|] eqn:Hid; [|done].
    destruct (groupMap !! id) as [tg|] eqn:Htg; [|done]. simpl. split.
    - exists s. auto.
    - intros m Hm. by apply add_leaves_ok. }
  destruct (String.eqb _ SourceKindRegex).
  { unfold add_regex. destruct (src_Pattern s); [|done]. destruct (negb _); [|done].
    destruct (compileFilterRegex _); [|done]. by apply add_nodes_ok. }
  destruct (String.eqb _ SourceKindFilter).
  { unfold add_filter. destruct (src_FilterSpec s); [|done]. by apply add_nodes_ok. }
  destruct (String.eqb _ SourceKindTypedBuiltin); [|done].
  unfold add_builtin. destruct (src_BuiltinName s); [|done].
  apply add_item_ok; [|done]. split; [constructor|done].
Qed.

Lemma node_targets_app l1 l2 : node_targets (l1 ++ l2) = node_targets l1 ++ node_targets l2.
Proof. unfold node_targets. by rewrite List.filter_app, map_app. Qed.
Lemma group_targets_app l1 l2 : group_targets (l1 ++ l2) = group_targets l1 ++ group_targets l2.
Proof. unfold group_targets. by rewrite filter_app, map_app. Qed.

(** Extending a memo by one member, with [leaves] as its leaves. *)
Lemma memo_for_snoc pre x m m' leaves :
  memo_for groupMap globalAdmittedMap pre m → ok x → NoDup (map it_id (pre ++ [x])) →
  gm_members m' = gm_members m ++ [member_of (length pre) x] →
  gm_childGroupIDs m' = gm_childGroupIDs m ++ group_targets [x] →
  gm_nodeLogicalIDs m' = gm_nodeLogicalIDs m ++ node_targets [x] →
  gm_leafItems m' = gm_leafItems m ++ leaves →
  gm_leafNodeSet m' = gm_leafNodeSet m ∪ list_to_set (node_targets leaves) →
  Forall (λ l, ok l ∧ ¬ is_group l) leaves → (¬ is_group x → x ∈ leaves) →
  memo_for groupMap globalAdmittedMap (pre ++ [x]) m'.
Proof.
  intros [] Hx Hnd Hm Hc Hn Hl Hs Hleaves Hown. split.
  - apply Forall_app. auto.
  - done.
  - rewrite Hm, mf_members0, imap_app. simpl. by rewrite Nat.add_0_r.
  - by rewrite Hc, mf_children0, group_targets_app.
  - by rewrite Hn, mf_nodes0, node_targets_app.
  - rewrite Hl. apply Forall_app. auto.
  - by rewrite Hs, Hl, mf_leafset0, node_targets_app, list_to_set_app_L.
  - intros i. rewrite Hl, !elem_of_app, list_elem_of_singleton.
    intros [Hi| ->] Hng; [left; by apply mf_own0|right; by apply Hown].
Qed.

Lemma members_wp items :
  Forall pitem_ok items → NoDup (map it_id items) →
  wp good S (memo_for groupMap globalAdmittedMap items)
    (foldM (member_step globalAdmittedMap nodeSources latestObs asOf g) empty_memo items).
Proof.
  intros HF Hnd.
  apply (wp_foldM _ _ _ (λ pre _, memo_for groupMap globalAdmittedMap pre));
    [apply empty_memo_for|].
  intros pre x post m Hl Hm.
  assert (pitem_ok x) as [Hx HS] by (rewrite Forall_forall in HF; apply HF; rewrite <- Hl; set_solver).
  assert (NoDup (map it_id (pre ++ [x]))) as Hnd'.
  { rewrite <- Hl, (app_assoc pre [x] post : pre ++ x :: post = _), map_app in Hnd.
    by apply NoDup_app in Hnd as [? _]. }
  assert (length (gm_members m) = length pre) as Hlen
    by (by rewrite (mf_members _ _ _ _ Hm), length_imap).
  unfold member_step. destruct (String.eqb_spec (it_kind x) MemberKindGroup) as [Hg|Hng].
  - simpl. split; [by apply HS|]. intros c [[citems Hc] _]. simpl.
    eapply memo_for_snoc; [done..| | | | | | |]; simpl.
    + by rewrite Hlen.
    + unfold group_targets. by rewrite filter_cons, decide_True.
    + unfold node_targets, is_node. simpl. rewrite Hg. simpl. by rewrite app_nil_r.
    + done.
    + done.
    + apply Forall_forall. intros l. rewrite list_elem_of_In, filter_In, <- list_elem_of_In.
      intros [Hin _]. pose proof (mf_leaves _ _ _ _ Hc) as HFc.
      rewrite Forall_forall in HFc. by apply HFc.
    + intros Hn. by destruct Hn.
  - assert (group_targets [x] = []) as Hgt
      by (unfold group_targets; by rewrite filter_cons, decide_False).
    assert (Forall (λ l, ok l ∧ ¬ is_group l) [x]) by (by constructor).
    destruct (is_node x) eqn:Hn.
    + simpl. eapply memo_for_snoc; [done..| | | | | | |]; simpl; try done.
      * by rewrite Hlen.
      * by rewrite Hgt, app_nil_r.
      * unfold node_targets. simpl. by rewrite Hn.
      * set_solver.
    + rewrite (item_ok_kinds _ _ _ Hx Hng Hn). simpl.
      eapply memo_for_snoc; [done..| | | | | | |]; simpl; try done.
      * by rewrite Hlen.
      * by rewrite Hgt, app_nil_r.
      * unfold node_targets. simpl. by rewrite Hn, app_nil_r.
      * set_solver.
Qed.

Lemma group_prog_wp : wp good S good (body g).
Proof.
  unfold group_prog. apply prog_wp_bind.
  eapply prog_wp_mono; [|apply (wp_foldM _ _ _ (λ _ _, pipe_ok))].
  - intros p Hp. apply prog_wp_bind.
    eapply prog_wp_mono; [|apply members_wp; [apply (po_items _ Hp)|apply (po_nodup _ Hp)]].
    intros m Hm. simpl. split; [|done]. exists (pipe_items p). by destruct Hm; split.
  - split; simpl; [constructor..|set_solver].
  - intros pre s post p Hl Hp. apply apply_source_wp; [|done].
    assert (s ∈ sort_sources (grp_Sources g)) as Hs by (rewrite <- Hl; set_solver).
    unfold sort_sources in Hs. by rewrite elem_of_sort_stable in Hs.
Qed.
End OneGroup.

(** ** The memo table solves the recursive equations *)

Definition answer (memo : gmap string groupMemo) (c : string) : groupMemo :=
  default empty_memo (memo !! c).

(** Every entry is the value of its group's program on the table itself, the
    groups it depends on are in the table, and every entry is well formed. *)
Definition solved (memo : gmap string groupMemo) : Prop :=
  ∀ gid m, memo !! gid = Some m → ∃ g, groupMap !! gid = Some g ∧
    m = eval (answer memo) (body g) ∧
    (∀ c, c ∈ calls (answer memo) (body g) → is_Some (groupMap !! c) → is_Some (memo !! c)) ∧
    good m.

Lemma solved_answer memo memo' c :
  solved memo' → memo ⊆ memo' → (is_Some (groupMap !! c) → is_Some (memo !! c)) →
  answer memo c = answer memo' c.
Proof.
  intros Hs' Hle Hc. unfold answer. destruct (memo !! c) as [m|] eqn:Hm.
  - by rewrite (lookup_weaken _ _ _ _ Hm Hle).
  - destruct (memo' !! c) as [m'|] eqn:Hm'; [|done].
    destruct (Hs' _ _ Hm') as (g & Hg & _). rewrite Hg in Hc. by destruct Hc.
Qed.

Lemma solved_good memo c : solved memo → good (answer memo c).
Proof.
  intros Hs. unfold answer. destruct (memo !! c) as [m|] eqn:Hm; [|apply empty_memo_ok].
  by destruct (Hs _ _ Hm) as (g & _ & _ & _ & ?).
Qed.

(** Adding the value of a group whose dependencies are all in the table. *)
Lemma solved_insert memo gid g m :
  solved memo → groupMap !! gid = Some g → memo !! gid = None →
  m = eval (answer memo) (body g) → gid ∉ calls (answer memo) (body g) →
  (∀ c, c ∈ calls (answer memo) (body g) → is_Some (groupMap !! c) → is_Some (memo !! c)) →
  solved (<[gid := m]> memo).
Proof.
  intros Hs Hg Hnone -> Hself Hcl.
  assert (good (eval (answer memo) (body g))) as Hgood.
  { refine (proj1 (eval_wp good (calls_for g) _ _ _ _ (group_prog_wp g))).
    intros c. by apply solved_good. }
  set (m := eval _ _) in *.
  assert (∀ g', (∀ c, c ∈ calls (answer memo) (body g') →
      c ≠ gid ∧ (is_Some (groupMap !! c) → is_Some (memo !! c))) →
    eval (answer memo) (body g') = eval (answer (<[gid := m]> memo)) (body g') ∧
    calls (answer memo) (body g') = calls (answer (<[gid := m]> memo)) (body g')) as Hag.
  { intros g' Hc. apply eval_agree. intros c [Hne _]%Hc. unfold answer.
    by rewrite lookup_insert_ne. }
  intros x mx. rewrite lookup_insert. case_decide as Hx.
  - intros [= <-]. subst x. exists g. destruct (Hag g) as [Heq Hceq]; [naive_solver|].
    split; [done|]. split; [done|]. split; [|done]. rewrite <- Hceq. intros c Hc Hcg.
    rewrite lookup_insert. case_decide; [done|]. auto.
  - intros Hmx. destruct (Hs _ _ Hmx) as (g' & Hg' & Hmx' & Hcl' & Hgood').
    assert (∀ c, c ∈ calls (answer memo) (body g') →
      c ≠ gid ∧ (is_Some (groupMap !! c) → is_Some (memo !! c))) as Hc.
    { intros c Hc. split; [|auto]. intros ->.
      destruct (Hcl' _ Hc ltac:(rewrite Hg; by eexists)) as [? Hm']. congruence. }
    destruct (Hag g' Hc) as [Heq Hceq]. exists g'. split; [done|]. split; [congruence|].
    split; [|done]. rewrite <- Hceq. intros c Hcc Hcg. rewrite lookup_insert.
    case_decide; [done|]. by apply Hc.
Qed.

(** [depends c x]: the program of group [x] may call for [c]. *)
Definition depends (c x : string) : Prop := ∃ g, groupMap !! x = Some g ∧ calls_for g c.

(** What a successful call leaves behind: a bigger solved table, with the groups
    being resolved untouched. *)
Record progress (st st' : resolve_state) : Prop := {
  pr_solved : solved (st_memo st');
  pr_resolving : st_resolving st' = st_resolving st;
  pr_memo : st_memo st ⊆ st_memo st';
  pr_untouched : ∀ x, x ∈ st_resolving st → st_memo st' !! x = st_memo st !! x
}.

Lemma progress_trans st1 st2 st3 : progress st1 st2 → progress st2 st3 → progress st1 st3.
Proof.
  intros [] []. split; [done|congruence|by etrans|].
  intros x Hx. rewrite pr_untouched1, pr_untouched0 by congruence. done.
Qed.

Definition answered (st' : resolve_state) (c : string) (m : groupMemo) : Prop :=
  m = answer (st_memo st') c ∧ (is_Some (groupMap !! c) → is_Some (st_memo st' !! c)).

Lemma run_solved {A} (Q : A → Prop) (S : string → Prop) (R : gset string) rec (p : prog A) st :
  wp good S Q p → solved (st_memo st) → st_resolving st = R →
  (∀ c st, S c → solved (st_memo st) → st_resolving st = R →
     ∃ st' m, rec c st = Some (st', m) ∧ progress st st' ∧ answered st' c m) →
  ∃ st' a, run rec p st = Some (st', a) ∧ progress st st' ∧ Q a ∧
    a = eval (answer (st_memo st')) p ∧ Forall S (calls (answer (st_memo st')) p) ∧
    ∀ c, c ∈ calls (answer (st_memo st')) p → is_Some (groupMap !! c) →
      is_Some (st_memo st' !! c).
Proof.
  revert st. induction p as [a|gid k IH|d p IH]; intros st Hwp Hs HR Hrec; simpl in *.
  - exists st, a. split; [done|]. split; [by split|]. split; [done|]. split; [done|].
    split; [constructor|set_solver].
  - destruct Hwp as [HS Hk].
    destruct (Hrec gid st HS Hs HR) as (st1 & m & -> & Hp1 & Hm & Hcl).
    assert (good m) as Hgood by (rewrite Hm; apply solved_good, Hp1).
    destruct (IH m st1) as (st' & a & -> & Hp2 & HQ & Ha & HF & Hc); [auto|apply Hp1| |done|].
    { by rewrite (pr_resolving _ _ Hp1). }
    assert (answer (st_memo st') gid = m) as Hans.
    { rewrite Hm. symmetry. apply solved_answer; [apply Hp2|apply Hp2|done]. }
    exists st', a. rewrite Hans. split; [done|]. split; [by eapply progress_trans|].
    split; [done|]. split; [done|]. split; [by constructor|].
    intros c [->|Hin]%elem_of_cons Hcg; [|by apply Hc].
    destruct (Hcl Hcg) as [x Hx]. exists x. by eapply lookup_weaken; [|apply Hp2].
  - destruct (IH {| st_memo := st_memo st; st_resolving := st_resolving st;
      st_diagnostics := st_diagnostics st ++ [d] |}) as (st' & a & ? & Hp & ?); [done..|].
    exists st', a. split; [done|]. split; [by destruct Hp; split|done].
Qed.

Lemma resolveGroupMemo_solved fuel gid st :
  (∀ x, ¬ tc depends x x) → solved (st_memo st) →
  (∀ x, x ∈ st_resolving st → tc depends gid x) →
  size (dom groupMap ∖ st_resolving st) < fuel →
  ∃ st' m, resolveGroupMemo groupMap sortedGlobalNodes globalAdmittedMap admittedNodeMap
      nodeSources latestObs asOf fuel gid st = Some (st', m) ∧
    progress st st' ∧ answered st' gid m.
Proof.
  intros Hacyc. revert gid st. induction fuel as [|fuel IH]; intros gid st Hs Hanc Hfuel; [lia|].
  simpl. destruct (st_memo st !! gid) as [m|] eqn:Hm.
  { exists st, m. split; [done|]. split; [by split|]. unfold answered, answer. by rewrite Hm. }
  rewrite bool_decide_eq_false_2 by (intros Hin; by apply (Hacyc gid), Hanc).
  assert (gid ∉ st_resolving st) as Hnr by (intros Hin; by apply (Hacyc gid), Hanc).
  destruct (groupMap !! gid) as [g|] eqn:Hg.
  2: { exists st, empty_memo. split; [done|]. split; [by split|].
       unfold answered, answer. rewrite Hm, Hg. split; [done|]. by intros [? ?]. }
  set (st1 := {| st_memo := st_memo st; st_resolving := {[gid]} ∪ st_resolving st;
                 st_diagnostics := st_diagnostics st |}).
  destruct (run_solved good (calls_for g) ({[gid]} ∪ st_resolving st)
    (resolveGroupMemo groupMap sortedGlobalNodes globalAdmittedMap admittedNodeMap
       nodeSources latestObs asOf fuel) (body g) st1)
    as (st2 & m & -> & Hp & Hgood & Heval & HF & Hcl); [apply group_prog_wp|done|done| |].
  { intros c st' Hc Hs' HR'. apply IH; [done| |].
    - rewrite HR'. assert (depends c gid) by (by exists g).
      intros x [->%elem_of_singleton|Hx]%elem_of_union; [by constructor|].
      eapply tc_l; [done|]. by apply Hanc.
    - rewrite HR'. assert (size (dom groupMap ∖ ({[gid]} ∪ st_resolving st)) <
        size (dom groupMap ∖ st_resolving st)); [|lia].
      apply subset_size. apply elem_of_dom_2 in Hg. set_solver. }
  assert (st_memo st2 !! gid = None) as Hnone.
  { rewrite (pr_untouched _ _ Hp); [done|]. simpl. set_solver. }
  eexists _, m. split; [done|]. split.
  - split; simpl.
    + apply (solved_insert _ _ g); [apply Hp|done|done|done| |done].
      intros Hin. rewrite Forall_forall in HF. apply (Hacyc gid). constructor.
      exists g. auto.
    + rewrite (pr_resolving _ _ Hp). simpl. set_solver.
    + etrans; [apply (pr_memo _ _ Hp)|]. by apply insert_subseteq.
    + intros x Hx. rewrite lookup_insert_ne by set_solver.
      apply (pr_untouched _ _ Hp). simpl. set_solver.
  - unfold answered, answer. simpl. by rewrite lookup_insert_eq.
Qed.
End Body.
