(* ===== verification/ResolveGroups.v ===== *)
(** * The resolved groups and rules of a policy

    [internal/resolver/graph.go]: [resolveGroups] around the recursion of
    [Groups], and [resolveRules].

    The member and child slices of a resolved group share their arrays with the
    memo entry of the same group ID, and the loop that derives filtered groups
    writes to them: here the entries of the memo table are updated, and the
    resolved groups are read off the table afterwards. *)

From S2P Require Import Prelude.
From S2P Require Import GoStrings.
From S2P Require Import Domain.
From S2P Require Import Lifecycle.
From S2P Require Import NodeFilter.
From S2P Require Import Policy.
From S2P Require Import Risk.
From S2P Require Import Admission.
From S2P Require Import Groups.

Definition deterministicDerivedUUID `{Sha256} (parentID childID : string) : string :=
  uuid_format (uuid_stamp
    (take 16 (sha256_Sum256 ("derived-group:" +:+ parentID +:+ ":" +:+ childID)))).

(** ** Tables and orders *)

Definition group_table (groups : list NodeGroup) : gmap string NodeGroup :=
  fold_left (λ m g, <[grp_ID g := g]> m) groups ∅.

Definition sort_nodes : list Node → list Node :=
  sort_stable (less_then node_DisplayName (less_str node_LogicalID)).
Definition sort_groups : list NodeGroup → list NodeGroup :=
  sort_stable (less_then grp_Name (less_str grp_ID)).

Definition replace_first (old new : string) : list string → list string :=
  fix go l := match l with
  | [] => []
  | x :: l => if String.eqb x old then new :: l else x :: go l
  end.

(** ** Derived groups *)

Definition retarget (id name : string) (m : ResolvedGroupMember) : ResolvedGroupMember :=
  {| mem_Kind := mem_Kind m; mem_TargetID := id; mem_DisplayName := name;
     mem_Position := mem_Position m |}.

(** The writes to [parent.Members[mIdx]] and [parent.ChildGroupIDs]. *)
Definition point_to_derived (mIdx : nat) (childID derivedID derivedName : string)
    (m : groupMemo) : groupMemo :=
  {| gm_members := alter (retarget derivedID derivedName) mIdx (gm_members m);
     gm_childGroupIDs := replace_first childID derivedID (gm_childGroupIDs m);
     gm_nodeLogicalIDs := gm_nodeLogicalIDs m; gm_expandedNodeIDs := gm_expandedNodeIDs m;
     gm_effectiveEmptyPass := gm_effectiveEmptyPass m; gm_leafItems := gm_leafItems m;
     gm_leafNodeSet := gm_leafNodeSet m; gm_candidateCount := gm_candidateCount m |}.

Record projection : Type := {
  proj_members : list ResolvedGroupMember;
  proj_nodeIDs : list string;
  proj_filteredOut : bool
}.

(** The filter of the first source that adds a reference to [childID]. *)
Definition parent_filter (sources : list MemberSource) (childID : string)
    : option NodeFilterSpec :=
  match List.find (λ s, String.eqb (src_Operation s) OperationAdd &&
                        String.eqb (src_Kind s) SourceKindGroupRef &&
                        bool_decide (src_TargetGroupID s = Some childID)) sources with
  | Some s => src_FilterSpec s
  | None => None
  end.

Section Derived.
Context `{GoText} `{RegexEngine}.
Context (globalAdmittedMap : gmap string Node).
Context (nodeSources : gmap string (list NodeSource)).
Context (latestObs : gmap string (gmap string ProbeObservation)).
Context (asOf : time).

Definition project_leaf (pFilter : option NodeFilterSpec) (acc : projection)
    (leaf : resolvedItem) : projection :=
  if is_node leaf then
    match globalAdmittedMap !! it_targetID leaf with
    | Some node =>
        if fst (filter_node nodeSources latestObs asOf pFilter node (it_targetID leaf)) then
          {| proj_members := proj_members acc ++
               [{| mem_Kind := MemberKindNode; mem_TargetID := it_targetID leaf;
                   mem_DisplayName := node_DisplayName node;
                   mem_Position := length (proj_members acc) |}];
             proj_nodeIDs := proj_nodeIDs acc ++ [it_targetID leaf];
             proj_filteredOut := proj_filteredOut acc |}
        else {| proj_members := proj_members acc; proj_nodeIDs := proj_nodeIDs acc;
                proj_filteredOut := true |}
    | None => {| proj_members := proj_members acc; proj_nodeIDs := proj_nodeIDs acc;
                 proj_filteredOut := true |}
    end
  else
    {| proj_members := proj_members acc ++
         [{| mem_Kind := it_kind leaf; mem_TargetID := it_targetID leaf;
             mem_DisplayName := it_displayName leaf;
             mem_Position := length (proj_members acc) |}];
       proj_nodeIDs := proj_nodeIDs acc; proj_filteredOut := proj_filteredOut acc |}.

Definition project_leaves (pFilter : option NodeFilterSpec) (leaves : list resolvedItem)
    : projection :=
  fold_left (project_leaf pFilter) leaves
    {| proj_members := []; proj_nodeIDs := []; proj_filteredOut := false |}.

Definition derived_group (id name groupType : string) (pr : projection) (position : nat)
    : ResolvedGroup :=
  {| rg_EmptyFallbackPass := false; rg_EffectiveEmptyPass := false; rg_ID := id;
     rg_Name := name; rg_GroupType := groupType; rg_Members := proj_members pr;
     rg_ChildGroupIDs := []; rg_NodeLogicalIDs := proj_nodeIDs pr;
     rg_AllNodeLogicalIDs := proj_nodeIDs pr; rg_ExpandedNodeIDs := proj_nodeIDs pr;
     rg_Sources := []; rg_Position := position |}.
End Derived.

(** ** Recursive node lists *)

(** The loop over the children; [rec] is the recursive call. *)
Fixpoint collect_all (rec : string → gset string * gset string → option (gset string * gset string))
    (cs : list string) (acc : gset string * gset string) : option (gset string * gset string) :=
  match cs with
  | [] => Some acc
  | c :: cs => match rec c acc with Some acc => collect_all rec cs acc | None => None end
  end.

(** [collect] with the two maps it fills: the groups visited and the nodes. *)
Fixpoint collect (rmap : gmap string ResolvedGroup) (fuel : nat) (groupID : string)
    (acc : gset string * gset string) : option (gset string * gset string) :=
  match fuel with
  | O => None
  | S fuel =>
      if bool_decide (groupID ∈ acc.1) then Some acc
      else
        let visited := {[groupID]} ∪ acc.1 in
        match rmap !! groupID with
        | None => Some (visited, acc.2)
        | Some target =>
            collect_all (collect rmap fuel) (rg_ChildGroupIDs target)
              (visited, acc.2 ∪ list_to_set (rg_NodeLogicalIDs target))
        end
  end.

Definition has_builtin (rg : ResolvedGroup) : bool :=
  existsb (λ m, String.eqb (mem_Kind m) MemberKindBuiltin) (rg_Members rg).

(** One more than the number of groups, and one for a missing group. *)
Definition all_nodes (rmap : gmap string ResolvedGroup) (groupID : string)
    : option (list string) :=
  match collect rmap (size rmap + 2) groupID (∅, ∅) with
  | Some (_, nodes) => Some (sort_strings (elements nodes))
  | None => None
  end.

Definition complete_group (rmap : gmap string ResolvedGroup) (rg : ResolvedGroup)
    : option ResolvedGroup :=
  nodes ← all_nodes rmap (rg_ID rg);
  Some {| rg_EmptyFallbackPass := rg_EmptyFallbackPass rg;
          rg_EffectiveEmptyPass :=
            rg_EmptyFallbackPass rg && (length nodes =? 0) && negb (has_builtin rg);
          rg_ID := rg_ID rg; rg_Name := rg_Name rg; rg_GroupType := rg_GroupType rg;
          rg_Members := rg_Members rg; rg_ChildGroupIDs := rg_ChildGroupIDs rg;
          rg_NodeLogicalIDs := rg_NodeLogicalIDs rg; rg_AllNodeLogicalIDs := nodes;
          rg_ExpandedNodeIDs := nodes; rg_Sources := rg_Sources rg;
          rg_Position := rg_Position rg |}.

Definition resolved_table (rgs : list ResolvedGroup) : gmap string ResolvedGroup :=
  fold_left (λ m rg, <[rg_ID rg := rg]> m) rgs ∅.

Section ResolveGroups.
Context `{GoText} `{RegexEngine} `{Sha256}.
Context (groups : list NodeGroup).
Context (globalAdmittedNodes : list Node).
Context (globalAdmittedMap admittedNodeMap : gmap string Node).
Context (nodeSources : gmap string (list NodeSource)).
Context (latestObs : gmap string (gmap string ProbeObservation)).
Context (asOf : time).

Definition resolve_group : nat → string → resolve_state → option (resolve_state * groupMemo) :=
  resolveGroupMemo (group_table groups) (sort_nodes globalAdmittedNodes) globalAdmittedMap
    admittedNodeMap nodeSources latestObs asOf.

(** One more than the number of groups. *)
Definition resolve_fuel : nat := S (size (group_table groups)).

Definition filter_count (m : groupMemo) : GroupFilterCount :=
  let kept := length (gm_expandedNodeIDs m) in
  let candidate := if gm_candidateCount m <? kept then kept else gm_candidateCount m in
  {| gfc_Candidate := candidate; gfc_Kept := kept; gfc_Excluded := candidate - kept |}.

(** The first loop over the sorted groups. *)
Fixpoint resolve_each (gs : list NodeGroup) (st : resolve_state)
    (counts : gmap string GroupFilterCount)
    : option (resolve_state * gmap string GroupFilterCount) :=
  match gs with
  | [] => Some (st, counts)
  | g :: gs =>
      match resolve_group resolve_fuel (grp_ID g) st with
      | Some (st, m) => resolve_each gs st (<[grp_ID g := filter_count m]> counts)
      | None => None
      end
  end.

Definition memo_entry (st : resolve_state) (gid : string) : groupMemo :=
  answer (st_memo st) gid.

(** One member of one parent in the deriving loop. *)
Definition derive_member (parent : NodeGroup) (mIdx : nat) (st : resolve_state)
    (derived : list ResolvedGroup) : option (resolve_state * list ResolvedGroup) :=
  match gm_members (memo_entry st (grp_ID parent)) !! mIdx with
  | None => Some (st, derived)
  | Some member =>
      if negb (String.eqb (mem_Kind member) MemberKindGroup) then Some (st, derived)
      else
        let childID := mem_TargetID member in
        let sources := match group_table groups !! grp_ID parent with
                       | Some g => sort_sources (grp_Sources g) | None => [] end in
        let pFilter := parent_filter sources childID in
        if NodeFilterSpec_IsEmpty pFilter then Some (st, derived)
        else
          match group_table (sort_groups groups) !! childID with
          | None => Some (st, derived)
          | Some childGroup =>
              match resolve_group resolve_fuel childID st with
              | None => None
              | Some (st, childRes) =>
                  let pr := project_leaves globalAdmittedMap nodeSources latestObs asOf pFilter
                              (gm_leafItems childRes) in
                  if proj_filteredOut pr then
                    let derivedID := deterministicDerivedUUID (grp_ID parent) childID in
                    let derivedName := grp_Name childGroup +:+ " [" +:+ grp_Name parent +:+ "]" in
                    Some
                      ({| st_memo := alter (point_to_derived mIdx childID derivedID derivedName)
                                       (grp_ID parent) (st_memo st);
                          st_resolving := st_resolving st;
                          st_diagnostics := st_diagnostics st |},
                       derived ++
                       [derived_group derivedID derivedName (grp_GroupType childGroup) pr
                          (length groups + length derived)])
                  else Some (st, derived)
              end
          end
  end.

Fixpoint derive_members (parent : NodeGroup) (idxs : list nat) (st : resolve_state)
    (derived : list ResolvedGroup) : option (resolve_state * list ResolvedGroup) :=
  match idxs with
  | [] => Some (st, derived)
  | i :: idxs =>
      match derive_member parent i st derived with
      | Some (st, derived) => derive_members parent idxs st derived
      | None => None
      end
  end.

Fixpoint derive_groups (gs : list NodeGroup) (st : resolve_state)
    (derived : list ResolvedGroup) : option (resolve_state * list ResolvedGroup) :=
  match gs with
  | [] => Some (st, derived)
  | g :: gs =>
      match derive_members g (seq 0 (length (gm_members (memo_entry st (grp_ID g))))) st derived with
      | Some (st, derived) => derive_groups gs st derived
      | None => None
      end
  end.

Definition base_group (st : resolve_state) (i : nat) (g : NodeGroup) : ResolvedGroup :=
  let m := memo_entry st (grp_ID g) in
  {| rg_EmptyFallbackPass := grp_EmptyFallbackPass g;
     rg_EffectiveEmptyPass := gm_effectiveEmptyPass m; rg_ID := grp_ID g;
     rg_Name := grp_Name g; rg_GroupType := grp_GroupType g; rg_Members := gm_members m;
     rg_ChildGroupIDs := gm_childGroupIDs m; rg_NodeLogicalIDs := gm_nodeLogicalIDs m;
     rg_AllNodeLogicalIDs := gm_expandedNodeIDs m; rg_ExpandedNodeIDs := gm_expandedNodeIDs m;
     rg_Sources := match group_table groups !! grp_ID g with
                   | Some g => sort_sources (grp_Sources g) | None => [] end;
     rg_Position := i |}.

(** *** Diagnostics for empty groups *)

Definition group_without_destination (rg : ResolvedGroup) : bool :=
  let hasDest := (0 <? length (rg_AllNodeLogicalIDs rg)) || has_builtin rg in
  negb (UsesEmptyPass rg) && ((length (rg_Members rg) =? 0) || negb hasDest).

Definition routed_table (rules : list PolicyRule) : gmap string PolicyRule :=
  fold_left (λ m r, <[rule_TargetGroupID r := r]> m) rules ∅.

Definition routed_message (anyFilterDefined : bool) (rg : ResolvedGroup) (rule : PolicyRule)
    : string :=
  let about := "routed group " +:+ Quote (rg_Name rg) +:+ " (" +:+ rg_ID rg +:+
    ") referenced by rule " +:+ Quote (rule_Expression rule) +:+ " has 0 available nodes" in
  if length globalAdmittedNodes =? 0 then "current effective inventory is empty; " +:+ about
  else if anyFilterDefined then about +:+ " after filtering"
  else about.

Definition empty_group_diagnostic (anyFilterDefined : bool) (routed : gmap string PolicyRule)
    (rg : ResolvedGroup) : list Diagnostic :=
  if group_without_destination rg then
    match routed !! rg_ID rg with
    | Some rule =>
        [mk_diag DiagnosticSeverityError "empty_routed_group"
           (routed_message anyFilterDefined rg rule) (rg_ID rg)]
    | None =>
        [mk_diag DiagnosticSeverityWarning "empty_group"
           ("group " +:+ Quote (rg_Name rg) +:+ " has 0 active members after resolution")
           (rg_ID rg)]
    end
  else [].

Definition any_filter_defined (globalFilter : option NodeFilterSpec)
    (groupFilters : list (string * NodeFilterSpec)) : bool :=
  negb (NodeFilterSpec_IsEmpty globalFilter) ||
  existsb (λ '(_, f), negb (NodeFilterSpec_IsEmpty (Some f))) groupFilters.

(** *** The whole function *)

Definition resolveGroups (groupFilters : list (string * NodeFilterSpec))
    (globalFilter : option NodeFilterSpec) (rules : list PolicyRule)
    : option (list ResolvedGroup * list Diagnostic * gmap string GroupFilterCount) :=
  let sortedGroups := sort_groups groups in
  '(st, counts) ← resolve_each sortedGroups
      {| st_memo := ∅; st_resolving := ∅; st_diagnostics := [] |} ∅;
  '(st, derived) ← derive_groups sortedGroups st [];
  let resolved := imap (base_group st) sortedGroups ++ derived in
  final ← mapM (complete_group (resolved_table resolved)) resolved;
  let any := any_filter_defined globalFilter groupFilters in
  Some (final,
        st_diagnostics st ++
          flat_map (empty_group_diagnostic any (routed_table rules)) final,
        counts).
End ResolveGroups.

(** ** Rules *)

Record ResolvedRule : Type := {
  rr_ID : string;
  rr_TargetGroupID : string;
  rr_TargetGroupName : string;
  rr_Expression : string;
  rr_Position : Z;
  rr_IsTerminal : bool
}.

Definition place_rule (pos : nat) (r : ResolvedRule) : ResolvedRule :=
  {| rr_ID := rr_ID r; rr_TargetGroupID := rr_TargetGroupID r;
     rr_TargetGroupName := rr_TargetGroupName r; rr_Expression := rr_Expression r;
     rr_Position := Z.of_nat pos; rr_IsTerminal := rr_IsTerminal r |}.

Definition resolve_rule `{GoText} (names : gmap string string) (r : PolicyRule) : ResolvedRule :=
  {| rr_ID := rule_ID r; rr_TargetGroupID := rule_TargetGroupID r;
     rr_TargetGroupName := default "" (names !! rule_TargetGroupID r);
     rr_Expression := rule_Expression r; rr_Position := rule_Position r;
     rr_IsTerminal := IsMatchRule (rule_Expression r) |}.

Definition resolveRules `{GoText} (rules : list PolicyRule) (groups : list NodeGroup)
    : list ResolvedRule :=
  let groupNameMap := fold_left (λ m g, <[grp_ID g := grp_Name g]> m) groups ∅ in
  let resolved := map (resolve_rule groupNameMap) (sort_rules rules) in
  let standardRules := List.filter (λ r, negb (rr_IsTerminal r)) resolved in
  let terminalRules := List.filter rr_IsTerminal resolved in
  imap place_rule (standardRules ++ terminalRules).

(** ** The recursive node lists are reachability *)

Section Collect.
Context (rmap : gmap string ResolvedGroup).

(** Group [x] has [y] among its children. *)
Definition child_edge (x y : string) : Prop :=
  ∃ t, rmap !! x = Some t ∧ y ∈ rg_ChildGroupIDs t.

(** Node [n] is a direct member of group [x]. *)
Definition own_node (x n : string) : Prop :=
  ∃ t, rmap !! x = Some t ∧ n ∈ rg_NodeLogicalIDs t.

(** From [acc] to [acc'], starting at the groups of [from]: everything new is
    reachable, its children have been visited, its nodes collected. *)
Record collected (from : list string) (acc acc' : gset string * gset string) : Prop := {
  co_visited : acc.1 ⊆ acc'.1;
  co_from : ∀ x, x ∈ from → x ∈ acc'.1;
  co_closed : ∀ x y, x ∈ acc'.1 → x ∉ acc.1 → child_edge x y → y ∈ acc'.1;
  co_sound : ∀ x, x ∈ acc'.1 → x ∉ acc.1 → ∃ f, f ∈ from ∧ rtc child_edge f x;
  co_nodes : ∀ n, n ∈ acc'.2 ↔ n ∈ acc.2 ∨ ∃ x, x ∈ acc'.1 ∧ x ∉ acc.1 ∧ own_node x n
}.

Lemma collected_refl acc : collected [] acc acc.
Proof. split; [done|set_solver|naive_solver|naive_solver|naive_solver]. Qed.

Lemma collected_seen c acc : c ∈ acc.1 → collected [c] acc acc.
Proof. intros Hc. split; [done|set_solver|naive_solver|naive_solver|naive_solver]. Qed.

Lemma collected_cons c cs acc1 acc2 acc3 :
  collected [c] acc1 acc2 → collected cs acc2 acc3 → collected (c :: cs) acc1 acc3.
Proof.
  intros [V1 F1 C1 S1 N1] [V2 F2 C2 S2 N2].
  assert (∀ x, x ∈ acc3.1 → x ∉ acc1.1 → x ∈ acc2.1 ∧ x ∉ acc1.1 ∨ x ∈ acc3.1 ∧ x ∉ acc2.1) as Hc
    by (intros x ? ?; destruct (decide (x ∈ acc2.1)); auto).
  split.
  - by etrans.
  - intros x [->|Hx]%elem_of_cons; [apply V2, F1; set_solver|auto].
  - intros x y Hx Hx' Hxy. destruct (Hc x Hx Hx') as [[? ?]|[? ?]]; [apply V2; eauto|eauto].
  - intros x Hx Hx'. destruct (Hc x Hx Hx') as [[? ?]|[? ?]].
    + destruct (S1 x) as (f & Hf & Hr); [done|done|]. exists f. split; [set_solver|done].
    + destruct (S2 x) as (f & Hf & Hr); [done|done|]. exists f. split; [set_solver|done].
  - intros n. rewrite N2, N1. split.
    + intros [[Hn|(x & Hx & Hx' & Hn)]|(x & Hx & Hx' & Hn)]; [by left|right; exists x..];
        (split; [set_solver|split; [set_solver|done]]).
    + intros [Hn|(x & Hx & Hx' & Hn)]; [auto|].
      destruct (Hc x Hx Hx') as [[? ?]|[? ?]]; [left; right|right]; exists x; auto.
Qed.

Lemma collect_all_spec rec cs acc :
  (∀ c acc', acc.1 ⊆ acc'.1 → ∃ acc'', rec c acc' = Some acc'' ∧ collected [c] acc' acc'') →
  ∃ acc', collect_all rec cs acc = Some acc' ∧ collected cs acc acc'.
Proof.
  revert acc. induction cs as [|c cs IH]; intros acc Hrec; simpl.
  { exists acc. split; [done|apply collected_refl]. }
  destruct (Hrec c acc) as (acc1 & -> & H1); [done|].
  destruct (IH acc1) as (acc2 & -> & H2).
  { intros c' acc' Hle. apply Hrec. etrans; [apply (co_visited _ _ _ H1)|done]. }
  exists acc2. split; [done|]. by eapply collected_cons.
Qed.

Lemma collect_spec fuel gid acc :
  size (dom rmap ∖ acc.1) + 1 < fuel →
  ∃ acc', collect rmap fuel gid acc = Some acc' ∧ collected [gid] acc acc'.
Proof.
  revert gid acc. induction fuel as [|fuel IH]; intros gid acc Hfuel; [lia|]. simpl.
  case_bool_decide as Hin; [exists acc; split; [done|by apply collected_seen]|].
  destruct (rmap !! gid) as [t|] eqn:Ht.
  - destruct (collect_all_spec (collect rmap fuel) (rg_ChildGroupIDs t)
      ({[gid]} ∪ acc.1, acc.2 ∪ list_to_set (rg_NodeLogicalIDs t))) as (acc' & -> & Hc).
    { intros c acc' Hle. apply IH. simpl in Hle.
      assert (size (dom rmap ∖ acc'.1) < size (dom rmap ∖ acc.1)); [|lia].
      apply subset_size. apply elem_of_dom_2 in Ht. set_solver. }
    exists acc'. split; [done|]. destruct Hc as [V F C S N]. simpl in *.
    assert (∀ x, x ∈ acc'.1 → x ∉ acc.1 → x = gid ∨ x ∉ {[gid]} ∪ acc.1) as Hx
      by (intros x _ ?; destruct (decide (x = gid)); set_solver).
    split.
    + set_solver.
    + set_solver.
    + intros x y Hx1 Hx2 Hxy. destruct (Hx x Hx1 Hx2) as [->|]; [|by eapply C].
      destruct Hxy as (t' & Ht' & Hy). apply F. congruence.
    + intros x Hx1 Hx2. exists gid. split; [set_solver|].
      destruct (Hx x Hx1 Hx2) as [->|Hx3]; [done|].
      destruct (S x Hx1 Hx3) as (f & Hf & Hr). eapply rtc_l; [|done]. by exists t.
    + intros n. rewrite N, elem_of_union, elem_of_list_to_set. split.
      * intros [[Hn|Hn]|(x & ? & ? & ?)]; [by left|right; exists gid|right; exists x; set_solver].
        split; [set_solver|]. split; [done|by exists t].
      * intros [Hn|(x & Hx1 & Hx2 & Hn)]; [auto|].
        destruct (Hx x Hx1 Hx2) as [->|Hx3]; [|right; by exists x].
        left. right. destruct Hn as (t' & Ht' & Hn). congruence.
  - exists ({[gid]} ∪ acc.1, acc.2). split; [done|]. split; simpl.
    + set_solver.
    + set_solver.
    + intros x y Hx1 Hx2 (t & Htx & _). assert (x = gid) by set_solver. congruence.
    + intros x Hx1 Hx2. exists gid. assert (x = gid) as -> by set_solver. set_solver.
    + intros n. split; [by left|]. intros [?|(x & Hx1 & Hx2 & (t & Htx & _))]; [done|].
      assert (x = gid) by set_solver. congruence.
Qed.

Lemma all_nodes_spec gid :
  ∃ nodes, all_nodes rmap gid = Some nodes ∧ NoDup nodes ∧
    StronglySorted (not_after str_less) nodes ∧
    ∀ n, n ∈ nodes ↔ ∃ x, rtc child_edge gid x ∧ own_node x n.
Proof.
  unfold all_nodes.
  destruct (collect_spec (size rmap + 2) gid (∅, ∅)) as ([vis ns] & -> & [V F C S N]).
  { simpl. rewrite difference_empty_L, size_dom. lia. }
  simpl in *. eexists. split; [done|].
  split; [rewrite sort_strings_perm; apply NoDup_elements|].
  split; [apply sort_strings_sorted|]. intros n. rewrite elem_of_sort_strings, elem_of_elements, N.
  assert (∀ x, x ∈ vis ↔ rtc child_edge gid x) as Hv.
  { intros x. split.
    - intros Hx. destruct (S x Hx) as (f & ->%list_elem_of_singleton & ?); [set_solver|done].
    - intros Hr. assert (gid ∈ vis) as Hg by (apply F; set_solver). clear -Hr C Hg.
      induction Hr as [|x y z Hxy _ IH]; [done|]. apply IH. apply (C x y); set_solver. }
  setoid_rewrite Hv. set_solver.
Qed.
End Collect.

(** ** Validated policies have no circular dependencies *)

Section Tables.
Lemma group_table_fold groups (m : gmap string NodeGroup) x g :
  fold_left (λ m g, <[grp_ID g := g]> m) groups m !! x = Some g →
  (g ∈ groups ∧ grp_ID g = x) ∨ m !! x = Some g.
Proof.
  revert m. induction groups as [|g' groups IH]; intros m; simpl; [by right|].
  intros [[Hin Hid]|Hm]%IH; [left; set_solver|]. rewrite lookup_insert in Hm.
  case_decide; [|by right]. injection Hm as ->. left. set_solver.
Qed.

Lemma group_table_in groups x g :
  group_table groups !! x = Some g → g ∈ groups ∧ grp_ID g = x.
Proof. by intros [?|?%lookup_empty_Some]%group_table_fold. Qed.

Lemma group_table_some groups g : g ∈ groups → is_Some (group_table groups !! grp_ID g).
Proof.
  unfold group_table. generalize (∅ : gmap string NodeGroup) as m.
  assert (∀ gs (m : gmap string NodeGroup), is_Some (m !! grp_ID g) →
    is_Some (fold_left (λ m g, <[grp_ID g := g]> m) gs m !! grp_ID g)) as Hkeep.
  { induction gs as [|g' gs IH]; intros m Hm; simpl; [done|]. apply IH.
    rewrite lookup_insert. by case_decide. }
  induction groups as [|g' groups IH]; intros m; simpl; [by intros ?%elem_of_nil|].
  intros [->|Hg]%elem_of_cons; [|by apply IH]. apply Hkeep. by rewrite lookup_insert_eq.
Qed.

(** A validated reference names a group. *)
Lemma validated_target `{GoText} `{RegexEngine} s :
  ValidateMemberSource s = Ok tt → src_TargetGroupID s = Some "" →
  src_Kind s ≠ SourceKindGroupRef ∧ src_Kind s ≠ SourceKindGroupNodes.
Proof.
  intros Hv Ht. unfold ValidateMemberSource, MemberSourceKind_Normalize in Hv.
  do 3 (destruct (invalid_if _ _) as [[]|]; [|done]).
  rewrite Ht in Hv. split; intros Hk; rewrite Hk in Hv; by vm_compute in Hv.
Qed.

Lemma validated_depends `{GoText} `{RegexEngine} groups rules req c x :
  ValidatePolicyTopology groups [] rules req = Some (Ok tt) →
  depends (group_table groups) c x → child_of groups [] c x.
Proof.
  intros (adj & Hb & _)%validated_topology (g & Hg & s & Hs & Hk & Hc).
  apply group_table_in in Hg as [Hg <-]. left. exists g, s. split; [done|]. split; [done|].
  split; [done|]. unfold source_target, MemberSourceKind_Normalize.
  assert (has_ptr (src_TargetGroupID s) = true) as ->.
  { rewrite Hc. unfold has_ptr. simpl. destruct (String.eqb_spec c "") as [->|]; [|done].
    destruct (validated_target s) as [? ?]; [by eapply build_adjacency_sources|done|].
    by destruct Hk. }
  destruct Hk as [-> | ->]; done.
Qed.

Lemma validated_acyclic `{GoText} `{RegexEngine} groups rules req x :
  ValidatePolicyTopology groups [] rules req = Some (Ok tt) →
  ¬ tc (depends (group_table groups)) x x.
Proof.
  intros Hv Ht. pose proof Hv as (adj & _ & Hacc & _)%validated_topology.
  assert (tc (child_of groups []) x x) as Ht'.
  { revert Ht. generalize x at 1 3 as a. intros a.
    induction 1 as [a b Hab|a b c Hab _ IH]; [constructor|eapply tc_l; [|done]];
      by eapply validated_depends. }
  assert (∃ g, g ∈ groups ∧ grp_ID g = x) as (g & Hg & <-).
  { clear -Ht. assert (∃ y, depends (group_table groups) y x) as (y & g & Hg & _).
    { revert Ht. generalize x at 1 as a. induction 1; eauto. }
    apply group_table_in in Hg. eauto. }
  by apply (Acc_no_tc _ _ (Hacc g Hg)).
Qed.
End Tables.

(** ** Correctness of the resolution *)

Section Resolution.
Context `{GoText} `{RegexEngine} `{Sha256}.
Context (groups : list NodeGroup).
Context (globalAdmittedNodes : list Node).
Context (globalAdmittedMap admittedNodeMap : gmap string Node).
Context (nodeSources : gmap string (list NodeSource)).
Context (latestObs : gmap string (gmap string ProbeObservation)).
Context (asOf : time).
Context (Hnodes : ∀ n, n ∈ globalAdmittedNodes → is_Some (globalAdmittedMap !! node_LogicalID n)).
Context (Hacyclic : ∀ x, ¬ tc (depends (group_table groups)) x x).

#[local] Abbreviation table := (group_table groups).
#[local] Abbreviation Solved := (solved table (sort_nodes globalAdmittedNodes)
  globalAdmittedMap admittedNodeMap nodeSources latestObs asOf).
#[local] Abbreviation Progress := (progress table (sort_nodes globalAdmittedNodes)
  globalAdmittedMap admittedNodeMap nodeSources latestObs asOf).

Lemma sorted_nodes_admitted n :
  n ∈ sort_nodes globalAdmittedNodes → is_Some (globalAdmittedMap !! node_LogicalID n).
Proof. unfold sort_nodes. rewrite elem_of_sort_stable. apply Hnodes. Qed.

Lemma resolve_group_ok gid st :
  Solved (st_memo st) → st_resolving st = ∅ →
  ∃ st' m, resolve_group groups globalAdmittedNodes globalAdmittedMap admittedNodeMap
      nodeSources latestObs asOf (resolve_fuel groups) gid st = Some (st', m) ∧
    Progress st st' ∧ answered table st' gid m.
Proof.
  intros Hs Hr. apply resolveGroupMemo_solved; [apply sorted_nodes_admitted|done|done| |].
  - rewrite Hr. set_solver.
  - rewrite Hr, difference_empty_L, size_dom. unfold resolve_fuel. lia.
Qed.

Lemma resolve_each_ok gs st counts :
  Solved (st_memo st) → st_resolving st = ∅ →
  ∃ st' counts', resolve_each groups globalAdmittedNodes globalAdmittedMap admittedNodeMap
      nodeSources latestObs asOf gs st counts = Some (st', counts') ∧
    Progress st st' ∧
    ∀ g, g ∈ gs → is_Some (table !! grp_ID g) → is_Some (st_memo st' !! grp_ID g).
Proof.
  revert st counts. induction gs as [|g gs IH]; intros st counts Hs Hr; cbn [resolve_each].
  { exists st, counts. split; [done|]. split; [by split|]. by intros ? ?%elem_of_nil. }
  destruct (resolve_group_ok (grp_ID g) st Hs Hr) as (st1 & m & -> & Hp1 & Hans).
  destruct (IH st1 (<[grp_ID g := filter_count m]> counts)) as (st' & counts' & -> & Hp2 & Hall);
    [apply Hp1|by rewrite (pr_resolving _ _ _ _ _ _ _ _ _ Hp1)|].
  exists st', counts'. split; [done|]. split; [by eapply progress_trans|].
  intros g' [->|Hg']%elem_of_cons Ht; [|by apply Hall].
  destruct Hans as [_ Hans]. destruct (Hans Ht) as [x Hx]. exists x.
  by eapply lookup_weaken; [|apply Hp2].
Qed.

Definition initial_state : resolve_state :=
  {| st_memo := ∅; st_resolving := ∅; st_diagnostics := [] |}.

Lemma solved_empty : Solved ∅.
Proof. by intros gid m ?%lookup_empty_Some. Qed.

(** After the first loop every group has its entry in a solved table. *)
Lemma resolve_each_all :
  ∃ st counts, resolve_each groups globalAdmittedNodes globalAdmittedMap admittedNodeMap
      nodeSources latestObs asOf (sort_groups groups) initial_state ∅ = Some (st, counts) ∧
    Solved (st_memo st) ∧ st_resolving st = ∅ ∧
    ∀ x, is_Some (table !! x) ↔ is_Some (st_memo st !! x).
Proof.
  destruct (resolve_each_ok (sort_groups groups) initial_state ∅ solved_empty eq_refl)
    as (st & counts & He & Hp & Hall).
  exists st, counts. split; [done|]. split; [apply Hp|].
  split; [by rewrite (pr_resolving _ _ _ _ _ _ _ _ _ Hp)|]. intros x. split.
  - intros [g Hg]. pose proof Hg as [Hin <-]%group_table_in. apply Hall; [|by eexists].
    unfold sort_groups. by rewrite elem_of_sort_stable.
  - intros [m Hm]. destruct (pr_solved _ _ _ _ _ _ _ _ _ Hp _ _ Hm) as (g & Hg & _). by eexists.
Qed.

(** *** The deriving loop *)

(** The groups a reference may name: those of the policy and the derived ones. *)
Definition known (ids : list string) (x : string) : Prop := is_Some (table !! x) ∨ x ∈ ids.

Inductive member_ok (ids : list string) (m : ResolvedGroupMember) : Prop :=
  | member_node : mem_Kind m = MemberKindNode →
      is_Some (globalAdmittedMap !! mem_TargetID m) → member_ok ids m
  | member_group : mem_Kind m = MemberKindGroup → known ids (mem_TargetID m) → member_ok ids m
  | member_builtin : mem_Kind m = MemberKindBuiltin → member_ok ids m.

Record entry_ok (ids : list string) (m : groupMemo) : Prop := {
  eo_members : Forall (member_ok ids) (gm_members m);
  eo_children : Forall (known ids) (gm_childGroupIDs m);
  eo_nodes : Forall (λ n, is_Some (globalAdmittedMap !! n)) (gm_nodeLogicalIDs m);
  eo_nodup : NoDup (gm_nodeLogicalIDs m);
  eo_leaves : Forall (λ l, item_ok table globalAdmittedMap l ∧ ¬ is_group l) (gm_leafItems m)
}.

Record derived_ok (rg : ResolvedGroup) : Prop := {
  do_members : Forall (member_ok []) (rg_Members rg);
  do_children : rg_ChildGroupIDs rg = [];
  do_nodes : Forall (λ n, is_Some (globalAdmittedMap !! n)) (rg_NodeLogicalIDs rg)
}.

Lemma known_mono ids ids' x : ids ⊆ ids' → known ids x → known ids' x.
Proof. intros Hle [?|?]; [by left|right; by apply Hle]. Qed.

Lemma member_ok_mono ids ids' m : ids ⊆ ids' → member_ok ids m → member_ok ids' m.
Proof.
  intros Hle [Hk Hn|Hk Hg|Hk]; [by apply member_node|apply member_group|by apply member_builtin].
  - done.
  - by eapply known_mono.
Qed.

Lemma entry_ok_mono ids ids' m : ids ⊆ ids' → entry_ok ids m → entry_ok ids' m.
Proof.
  intros Hle []. split; [| |done..].
  - eapply Forall_impl; [done|]. intros x. by apply member_ok_mono.
  - eapply Forall_impl; [done|]. intros x. by apply known_mono.
Qed.

Lemma item_ok_member ids i item :
  item_ok table globalAdmittedMap item → member_ok ids (member_of i item).
Proof.
  destruct 1 as [id name Hn|id name Hg|name];
    [by apply member_node|apply member_group|by apply member_builtin]; [done|by left].
Qed.

Lemma app_inj (a b c : string) : a +:+ b = a +:+ c → b = c.
Proof. induction a as [|x a IH]; simpl; [done|]. intros [= Heq]. auto. Qed.

Lemma node_targets_nodup items :
  Forall (item_ok table globalAdmittedMap) items → NoDup (map it_id items) →
  NoDup (node_targets items).
Proof.
  unfold node_targets. induction items as [|i items IH]; intros HF Hnd; simpl; [constructor|].
  apply Forall_cons in HF as [Hi HF]. simpl in Hnd. apply NoDup_cons in Hnd as [Hni Hnd].
  destruct (is_node i) eqn:Hn; [|by apply IH]. simpl. constructor; [|by apply IH].
  intros (j & Hj & Hin)%list_elem_of_fmap. apply Hni.
  apply list_elem_of_In, filter_In in Hin as [Hin Hnj]. apply list_elem_of_In in Hin.
  apply list_elem_of_fmap. exists j. split; [|done]. rewrite Forall_forall in HF.
  pose proof (HF _ Hin) as Hj'. destruct Hi, Hj'; simpl in *; try done. by subst.
Qed.

Lemma memo_entry_ok ids m : memo_ok table globalAdmittedMap m → entry_ok ids m.
Proof.
  intros [[items Hm] _]. split.
  - rewrite (mf_members _ _ _ _ Hm). apply Forall_forall. intros mem Hin.
    apply elem_of_lookup_imap in Hin as (i & item & -> & Hi).
    apply item_ok_member. pose proof (mf_items _ _ _ _ Hm) as HF. rewrite Forall_forall in HF.
    apply HF. by eapply list_elem_of_lookup_2.
  - rewrite (mf_children _ _ _ _ Hm). apply Forall_forall. unfold group_targets.
    intros x (item & -> & [Hg Hin]%list_elem_of_filter)%list_elem_of_fmap.
    pose proof (mf_items _ _ _ _ Hm) as HF. rewrite Forall_forall in HF.
    left. destruct (HF _ Hin); done.
  - rewrite (mf_nodes _ _ _ _ Hm). apply Forall_forall. unfold node_targets.
    intros x (item & -> & Hin)%list_elem_of_fmap.
    apply list_elem_of_In, filter_In in Hin as [Hin Hn]. apply list_elem_of_In in Hin.
    pose proof (mf_items _ _ _ _ Hm) as HF. rewrite Forall_forall in HF.
    eapply item_ok_node; [by apply HF|done].
  - rewrite (mf_nodes _ _ _ _ Hm). apply node_targets_nodup; [apply Hm|apply Hm].
  - apply Hm.
Qed.

Lemma project_leaves_ok f leaves :
  Forall (λ l, item_ok table globalAdmittedMap l ∧ ¬ is_group l) leaves →
  let pr := project_leaves globalAdmittedMap nodeSources latestObs asOf f leaves in
  Forall (member_ok []) (proj_members pr) ∧
  Forall (λ n, is_Some (globalAdmittedMap !! n)) (proj_nodeIDs pr).
Proof.
  intros HF pr. subst pr. unfold project_leaves.
  assert (∀ acc, Forall (member_ok []) (proj_members acc) ∧
    Forall (λ n, is_Some (globalAdmittedMap !! n)) (proj_nodeIDs acc) →
    let pr := fold_left (project_leaf globalAdmittedMap nodeSources latestObs asOf f) leaves acc in
    Forall (member_ok []) (proj_members pr) ∧
    Forall (λ n, is_Some (globalAdmittedMap !! n)) (proj_nodeIDs pr)) as Hgen;
    [|apply Hgen; simpl; auto].
  induction HF as [|l leaves [Hl Hng] _ IH]; intros acc Hacc; simpl; [done|].
  apply IH. destruct Hacc as [Hm Hn]. unfold project_leaf.
  destruct (is_node l) eqn:Hnode.
  - destruct (globalAdmittedMap !! it_targetID l) as [n|] eqn:Hadm; [|done].
    destruct (fst _); [|done]. simpl. rewrite !Forall_app, !Forall_singleton.
    split; split; [done| |done|by eexists]. apply member_node; [done|]. simpl. by eexists.
  - simpl. rewrite Forall_app, Forall_singleton. split; [|done]. split; [done|].
    apply member_builtin. simpl. by eapply item_ok_kinds.
Qed.

(** The state of the deriving loop. *)
Record deriving (st : resolve_state) (derived : list ResolvedGroup) : Prop := {
  dv_memo : ∀ x, is_Some (table !! x) → is_Some (st_memo st !! x);
  dv_entries : ∀ x m, st_memo st !! x = Some m → entry_ok (map rg_ID derived) m;
  dv_derived : Forall derived_ok derived
}.

Lemma resolve_group_memoised st x m :
  st_memo st !! x = Some m →
  resolve_group groups globalAdmittedNodes globalAdmittedMap admittedNodeMap nodeSources
    latestObs asOf (resolve_fuel groups) x st = Some (st, m).
Proof. intros Hm. unfold resolve_group, resolve_fuel. simpl. by rewrite Hm. Qed.

Lemma replace_first_known ids old new l :
  known ids new → Forall (known ids) l → Forall (known ids) (replace_first old new l).
Proof.
  intros Hn. induction 1 as [|x l Hx Hl IH]; simpl; [constructor|].
  destruct (String.eqb x old); by constructor.
Qed.

Lemma point_to_derived_ok ids mIdx childID id name m mem :
  gm_members m !! mIdx = Some mem → mem_Kind mem = MemberKindGroup → id ∈ ids →
  entry_ok ids m → entry_ok ids (point_to_derived mIdx childID id name m).
Proof.
  intros Hmem Hk Hid []. split; simpl; [| |done..].
  - apply Forall_alter; [done|]. intros mem' Hmem' _. rewrite Hmem in Hmem'.
    injection Hmem' as <-. apply member_group; [done|]. by right.
  - apply replace_first_known; [by right|done].
Qed.

Lemma derive_member_ok parent mIdx st derived :
  deriving st derived →
  ∃ st' derived', derive_member groups globalAdmittedNodes globalAdmittedMap admittedNodeMap
      nodeSources latestObs asOf parent mIdx st derived = Some (st', derived') ∧
    deriving st' derived' ∧ ∃ new, derived' = derived ++ new.
Proof.
  intros Hd.
  assert (∃ st' derived', Some (st, derived) = Some (st', derived') ∧
    deriving st' derived' ∧ ∃ new, derived' = derived ++ new) as Hskip
    by (exists st, derived; split; [done|]; split; [done|]; exists []; by rewrite app_nil_r).
  unfold derive_member.
  destruct (gm_members (memo_entry st (grp_ID parent)) !! mIdx) as [mem|] eqn:Hmem; [|done].
  destruct (String.eqb_spec (mem_Kind mem) MemberKindGroup) as [Hk|]; [simpl negb|done].
  cbn iota zeta. destruct (NodeFilterSpec_IsEmpty _); [done|].
  destruct (group_table (sort_groups groups) !! mem_TargetID mem) as [cg|] eqn:Hcg; [|done].
  pose proof Hcg as [Hin Hcid]%group_table_in.
  unfold sort_groups in Hin. rewrite elem_of_sort_stable in Hin.
  pose proof (group_table_some _ _ Hin) as Ht. rewrite Hcid in Ht.
  destruct (dv_memo _ _ Hd _ Ht) as [cm Hcm].
  rewrite (resolve_group_memoised _ _ _ Hcm).
  destruct (proj_filteredOut _); [|done].
  pose proof (project_leaves_ok (parent_filter (match table !! grp_ID parent with
    | Some g => sort_sources (grp_Sources g) | None => [] end) (mem_TargetID mem))
    (gm_leafItems cm) (eo_leaves _ _ (dv_entries _ _ Hd _ _ Hcm))) as [Hpm Hpn].
  eexists _, _. split; [done|]. split; [|by eexists]. split; simpl.
  - intros x Hx. rewrite lookup_alter. pose proof (dv_memo _ _ Hd _ Hx).
    case_decide; [by apply fmap_is_Some; subst|done].
  - intros x m. rewrite lookup_alter, map_app. case_decide as Hx.
    + intros (m0 & Hm0 & ->)%fmap_Some. subst x.
      eapply point_to_derived_ok; [|done|simpl; set_solver|].
      * unfold memo_entry, answer in Hmem. by rewrite Hm0 in Hmem.
      * eapply entry_ok_mono; [|by apply (dv_entries _ _ Hd _ _ Hm0)]. set_solver.
    + intros Hm. eapply entry_ok_mono; [|by apply (dv_entries _ _ Hd _ _ Hm)]. set_solver.
  - apply Forall_app. split; [apply Hd|]. apply Forall_singleton. by split.
Qed.

Lemma derive_members_ok parent idxs st derived :
  deriving st derived →
  ∃ st' derived', derive_members groups globalAdmittedNodes globalAdmittedMap admittedNodeMap
      nodeSources latestObs asOf parent idxs st derived = Some (st', derived') ∧
    deriving st' derived'.
Proof.
  revert st derived. induction idxs as [|i idxs IH]; intros st derived Hd; cbn [derive_members];
    [by eauto|].
  destruct (derive_member_ok parent i st derived Hd) as (st1 & d1 & -> & Hd1 & _). by apply IH.
Qed.

Lemma derive_groups_ok gs st derived :
  deriving st derived →
  ∃ st' derived', derive_groups groups globalAdmittedNodes globalAdmittedMap admittedNodeMap
      nodeSources latestObs asOf gs st derived = Some (st', derived') ∧
    deriving st' derived'.
Proof.
  revert st derived. induction gs as [|g gs IH]; intros st derived Hd; cbn [derive_groups];
    [by eauto|].
  destruct (derive_members_ok g (seq 0 (length (gm_members (memo_entry st (grp_ID g))))) st
    derived Hd) as (st1 & d1 & -> & Hd1). by apply IH.
Qed.

(** *** Completing the groups *)

(** [rg'] is [rg] with its recursive node list filled in. *)
Record completed (rmap : gmap string ResolvedGroup) (rg rg' : ResolvedGroup) : Prop := {
  cp_id : rg_ID rg' = rg_ID rg;
  cp_members : rg_Members rg' = rg_Members rg;
  cp_children : rg_ChildGroupIDs rg' = rg_ChildGroupIDs rg;
  cp_nodes : rg_NodeLogicalIDs rg' = rg_NodeLogicalIDs rg;
  cp_all : NoDup (rg_AllNodeLogicalIDs rg') ∧
    StronglySorted (not_after str_less) (rg_AllNodeLogicalIDs rg') ∧
    ∀ n, n ∈ rg_AllNodeLogicalIDs rg' ↔
      ∃ x, rtc (child_edge rmap) (rg_ID rg) x ∧ own_node rmap x n;
  cp_pass : rg_EmptyFallbackPass rg' = rg_EmptyFallbackPass rg ∧
    rg_EffectiveEmptyPass rg' = rg_EmptyFallbackPass rg' &&
      (length (rg_AllNodeLogicalIDs rg') =? 0) && negb (has_builtin rg')
}.

Lemma complete_group_ok rmap rg :
  ∃ rg', complete_group rmap rg = Some rg' ∧ completed rmap rg rg'.
Proof.
  unfold complete_group. destruct (all_nodes_spec rmap (rg_ID rg)) as (nodes & -> & Hn).
  simpl. eexists. split; [done|]. by split.
Qed.

Lemma complete_groups_ok rmap rgs :
  ∃ rgs', mapM (complete_group rmap) rgs = Some rgs' ∧ Forall2 (completed rmap) rgs rgs'.
Proof.
  induction rgs as [|rg rgs (rgs' & IH & HF)]; [by exists []|].
  destruct (complete_group_ok rmap rg) as (rg' & Hc & Hok).
  exists (rg' :: rgs'). simpl. rewrite Hc. simpl. rewrite IH. simpl. by split; [|constructor].
Qed.

Lemma resolved_table_agree rmap rgs rgs' :
  Forall2 (completed rmap) rgs rgs' →
  ∀ x, option_Forall2 (completed rmap) (resolved_table rgs !! x) (resolved_table rgs' !! x).
Proof.
  intros HF. unfold resolved_table.
  assert (∀ m m' : gmap string ResolvedGroup,
    (∀ x, option_Forall2 (completed rmap) (m !! x) (m' !! x)) →
    ∀ x, option_Forall2 (completed rmap)
      (fold_left (λ m rg, <[rg_ID rg := rg]> m) rgs m !! x)
      (fold_left (λ m rg, <[rg_ID rg := rg]> m) rgs' m' !! x)) as Hgen.
  { induction HF as [|rg rg' rgs rgs' Hc _ IH]; intros m m' Hm; simpl; [done|].
    apply IH. intros x. rewrite (cp_id _ _ _ Hc), !lookup_insert.
    case_decide; [by constructor|done]. }
  apply Hgen. intros x. rewrite lookup_empty. constructor.
Qed.

Lemma resolved_table_in rgs x rg :
  resolved_table rgs !! x = Some rg → rg ∈ rgs ∧ rg_ID rg = x.
Proof.
  unfold resolved_table.
  assert (∀ m : gmap string ResolvedGroup,
    fold_left (λ m rg, <[rg_ID rg := rg]> m) rgs m !! x = Some rg →
    (rg ∈ rgs ∧ rg_ID rg = x) ∨ m !! x = Some rg) as Hgen; [|].
  { induction rgs as [|r rgs IH]; intros m; simpl; [by right|].
    intros [[? ?]|Hm]%IH; [left; by split; [apply elem_of_cons; right|]|].
    rewrite lookup_insert in Hm. case_decide; [|by right].
    injection Hm as ->. left. by split; [apply elem_of_cons; left|]. }
  by intros [?|?%lookup_empty_Some]%Hgen.
Qed.

Lemma child_edge_agree rmap rgs rgs' :
  Forall2 (completed rmap) rgs rgs' →
  (∀ x y, child_edge (resolved_table rgs) x y ↔ child_edge (resolved_table rgs') x y) ∧
  (∀ x n, own_node (resolved_table rgs) x n ↔ own_node (resolved_table rgs') x n).
Proof.
  intros HF. unfold child_edge, own_node.
  split; intros x y; pose proof (resolved_table_agree _ _ _ HF x) as Ha;
    destruct Ha as [rg rg' Hc|]; [|naive_solver| |naive_solver].
  - split; intros (t & [= <-] & Hy); eexists; (split; [done|]);
      [by rewrite (cp_children _ _ _ Hc)|by rewrite <- (cp_children _ _ _ Hc)].
  - split; intros (t & [= <-] & Hy); eexists; (split; [done|]);
      [by rewrite (cp_nodes _ _ _ Hc)|by rewrite <- (cp_nodes _ _ _ Hc)].
Qed.

(** *** The result *)

Lemma resolveGroups_spec gf glob rules :
  ∃ st counts derived out,
    let resolved := imap (base_group groups st) (sort_groups groups) ++ derived in
    resolveGroups groups globalAdmittedNodes globalAdmittedMap admittedNodeMap nodeSources
      latestObs asOf gf glob rules =
    Some (out, st_diagnostics st ++
            flat_map (empty_group_diagnostic globalAdmittedNodes (any_filter_defined glob gf)
              (routed_table rules)) out, counts) ∧
    deriving st derived ∧ Forall2 (completed (resolved_table resolved)) resolved out.
Proof.
  unfold resolveGroups. change {| st_memo := ∅; st_resolving := ∅; st_diagnostics := [] |}
    with initial_state.
  destruct resolve_each_all as (st0 & counts & -> & Hsol & _ & Hall). cbn [mbind option_bind].
  destruct (derive_groups_ok (sort_groups groups) st0 []) as (st & derived & -> & Hd).
  { split; [apply Hall| |constructor]. intros x m Hm. apply memo_entry_ok.
    by destruct (Hsol _ _ Hm) as (g & _ & _ & _ & ?). }
  cbn [mbind option_bind].
  set (resolved := imap (base_group groups st) (sort_groups groups) ++ derived).
  destruct (complete_groups_ok (resolved_table resolved) resolved) as (out & -> & HF).
  exists st, counts, derived, out. cbn [mbind option_bind]. split; [done|]. by split.
Qed.

(** Where an element of the resolved list comes from. *)
Lemma resolved_cases st derived rg :
  rg ∈ imap (base_group groups st) (sort_groups groups) ++ derived →
  (∃ i g, g ∈ groups ∧ rg = base_group groups st i g) ∨ rg ∈ derived.
Proof.
  intros [(i & g & -> & Hi)%elem_of_lookup_imap|?]%elem_of_app; [left|by right].
  exists i, g. split; [|done]. apply list_elem_of_lookup_2 in Hi.
  unfold sort_groups in Hi. by rewrite elem_of_sort_stable in Hi.
Qed.

Lemma base_in_resolved st derived g :
  g ∈ groups → ∃ rg, rg ∈ imap (base_group groups st) (sort_groups groups) ++ derived ∧
    rg_ID rg = grp_ID g.
Proof.
  intros Hg. assert (g ∈ sort_groups groups) as Hs
    by (unfold sort_groups; by rewrite elem_of_sort_stable).
  apply list_elem_of_lookup in Hs as [i Hi]. exists (base_group groups st i g).
  split; [|done]. apply elem_of_app. left. apply elem_of_lookup_imap. by exists i, g.
Qed.

Lemma known_in_resolved st derived x :
  known (map rg_ID derived) x →
  ∃ rg, rg ∈ imap (base_group groups st) (sort_groups groups) ++ derived ∧ rg_ID rg = x.
Proof.
  intros [[g Hg]|Hx].
  - apply group_table_in in Hg as [Hg <-]. by apply base_in_resolved.
  - apply list_elem_of_fmap in Hx as (rg & -> & Hrg). exists rg.
    split; [by apply elem_of_app; right|done].
Qed.

Lemma resolved_ok st derived rg :
  deriving st derived →
  rg ∈ imap (base_group groups st) (sort_groups groups) ++ derived →
  Forall (member_ok (map rg_ID derived)) (rg_Members rg) ∧
  Forall (known (map rg_ID derived)) (rg_ChildGroupIDs rg) ∧
  Forall (λ n, is_Some (globalAdmittedMap !! n)) (rg_NodeLogicalIDs rg).
Proof.
  intros Hd [(i & g & Hg & ->)|Hin]%resolved_cases.
  - simpl. destruct (dv_memo _ _ Hd _ (group_table_some _ _ Hg)) as [m Hm].
    unfold memo_entry, answer. rewrite Hm. by destruct (dv_entries _ _ Hd _ _ Hm).
  - pose proof (dv_derived _ _ Hd) as HF. rewrite Forall_forall in HF.
    destruct (HF _ Hin) as [Hm Hc Hn]. rewrite Hc. split; [|by split].
    eapply Forall_impl; [done|]. intros m. apply member_ok_mono, list_subseteq_nil.
Qed.

Lemma completed_ids rmap rgs rgs' :
  Forall2 (completed rmap) rgs rgs' → map rg_ID rgs' = map rg_ID rgs.
Proof. induction 1 as [|? ? ? ? Hc _ IH]; simpl; [done|]. by rewrite (cp_id _ _ _ Hc), IH. Qed.
End Resolution.

(** ** Properties *)

(** Resolution of a validated policy always produces groups, and nothing in
    them dangles: every group of the policy is in the result, every member is
    an admitted node, a builtin, or a group of the result, and every child
    group ID is the ID of a group of the result, including the groups derived
    for filtered references. *)
Theorem resolved_groups_closed `{GoText} `{RegexEngine} `{Sha256} (groups : list NodeGroup)
    (nodes : list Node) (admitted all_admitted : gmap string Node)
    (nodeSources : gmap string (list NodeSource))
    (latestObs : gmap string (gmap string ProbeObservation)) (asOf : time)
    (gf : list (string * NodeFilterSpec)) (glob : option NodeFilterSpec)
    (rules : list PolicyRule) :
  ValidatePolicyTopology groups [] rules false = Some (Ok tt) →
  (∀ n, n ∈ nodes → is_Some (admitted !! node_LogicalID n)) →
  ∃ out diags counts,
    resolveGroups groups nodes admitted all_admitted nodeSources latestObs asOf gf glob rules =
      Some (out, diags, counts) ∧
    (∀ g, g ∈ groups → grp_ID g ∈ map rg_ID out) ∧
    ∀ rg, rg ∈ out →
      (∀ c, c ∈ rg_ChildGroupIDs rg → c ∈ map rg_ID out) ∧
      (∀ m, m ∈ rg_Members rg →
         (mem_Kind m = MemberKindNode ∧ is_Some (admitted !! mem_TargetID m)) ∨
         (mem_Kind m = MemberKindGroup ∧ mem_TargetID m ∈ map rg_ID out) ∨
         mem_Kind m = MemberKindBuiltin).
Proof.
  intros Hv Hn. pose proof (λ x, validated_acyclic groups rules false x Hv) as Hac.
  destruct (resolveGroups_spec groups nodes admitted all_admitted nodeSources latestObs asOf Hn Hac
    gf glob rules) as (st & counts & derived & out & -> & Hd & HF).
  eexists out, _, counts. split; [done|]. rewrite (completed_ids _ _ _ HF). split.
  - intros g Hg. destruct (base_in_resolved groups st derived g Hg) as (rg & Hrg & <-).
    apply list_elem_of_fmap. eauto.
  - intros rg Hrg. apply list_elem_of_lookup in Hrg as [i Hi].
    destruct (Forall2_lookup_r _ _ _ _ _ HF Hi) as (rg0 & Hi0 & Hc).
    apply list_elem_of_lookup_2 in Hi0.
    destruct (resolved_ok _ _ _ _ _ Hd Hi0) as (Hm & Hch & _).
    rewrite (cp_children _ _ _ Hc), (cp_members _ _ _ Hc). rewrite Forall_forall in Hm.
    rewrite Forall_forall in Hch.
    assert (∀ x, known groups (map rg_ID derived) x →
      x ∈ map rg_ID (imap (base_group groups st) (sort_groups groups) ++ derived)) as Hk.
    { intros x Hx. destruct (known_in_resolved groups st derived x Hx) as (r & Hr & <-).
      apply list_elem_of_fmap. eauto. }
    split; [by intros c Hcc; apply Hk, Hch|]. intros m Hin.
    destruct (Hm _ Hin); [by left|right; left; auto|by right; right].
Qed.

Lemma resolved_nodes_admitted `{GoText} `{RegexEngine} `{Sha256}
    (groups : list NodeGroup) (nodes : list Node) (admitted all_admitted : gmap string Node)
    (nodeSources : gmap string (list NodeSource))
    (latestObs : gmap string (gmap string ProbeObservation)) (asOf : time)
    (gf : list (string * NodeFilterSpec)) (glob : option NodeFilterSpec)
    (rules : list PolicyRule) (out : list ResolvedGroup) (diags : list Diagnostic)
    (counts : gmap string GroupFilterCount) (rg : ResolvedGroup) (n : string) :
  ValidatePolicyTopology groups [] rules false = Some (Ok tt) →
  (∀ n, n ∈ nodes → is_Some (admitted !! node_LogicalID n)) →
  resolveGroups groups nodes admitted all_admitted nodeSources latestObs asOf gf glob rules =
    Some (out, diags, counts) →
  rg ∈ out → n ∈ rg_NodeLogicalIDs rg ++ rg_AllNodeLogicalIDs rg → is_Some (admitted !! n).
Proof.
  intros Hv Hn Hres Hrg. pose proof (λ x, validated_acyclic groups rules false x Hv) as Hac.
  destruct (resolveGroups_spec groups nodes admitted all_admitted nodeSources latestObs asOf Hn Hac
    gf glob rules) as (st & counts' & derived & out' & Hres' & Hd & HF).
  rewrite Hres in Hres'. injection Hres' as <- _ _.
  apply list_elem_of_lookup in Hrg as [i Hi].
  destruct (Forall2_lookup_r _ _ _ _ _ HF Hi) as (rg0 & Hi0 & Hc).
  apply list_elem_of_lookup_2 in Hi0.
  assert (∀ r x, r ∈ imap (base_group groups st) (sort_groups groups) ++ derived →
    x ∈ rg_NodeLogicalIDs r → is_Some (admitted !! x)) as Hok.
  { intros r x Hr Hx. destruct (resolved_ok _ _ _ _ _ Hd Hr) as (_ & _ & Hnn).
    rewrite Forall_forall in Hnn. by apply Hnn. }
  rewrite elem_of_app. intros [Hin|Hin].
  - rewrite (cp_nodes _ _ _ Hc) in Hin. by eapply Hok.
  - apply (cp_all _ _ _ Hc) in Hin as (x & _ & t & Ht & Hin).
    apply resolved_table_in in Ht as [Ht _]. by eapply Hok.
Qed.

Lemma resolveGroups_total `{GoText} `{RegexEngine} `{Sha256} groups nodes admitted all_admitted
    nodeSources latestObs asOf gf glob rules :
  ValidatePolicyTopology groups [] rules false = Some (Ok tt) →
  (∀ n, n ∈ nodes → is_Some (admitted !! node_LogicalID n)) →
  ∃ out diags counts,
    resolveGroups groups nodes admitted all_admitted nodeSources latestObs asOf gf glob rules =
      Some (out, diags, counts) ∧
    ∀ g, g ∈ groups → grp_ID g ∈ map rg_ID out.
Proof.
  intros Hv Hn. pose proof (λ x, validated_acyclic groups rules false x Hv) as Hac.
  destruct (resolveGroups_spec groups nodes admitted all_admitted nodeSources latestObs asOf Hn Hac
    gf glob rules) as (st & counts & derived & out & -> & Hd & HF).
  eexists out, _, counts. split; [done|]. rewrite (completed_ids _ _ _ HF).
  intros g Hg. destruct (base_in_resolved groups st derived g Hg) as (rg & Hrg & <-).
  apply list_elem_of_fmap. eauto.
Qed.

(** No node that was not admitted gets into a group by any path: in the result
    of resolving a validated policy, the direct nodes and the recursively
    collected nodes of every group are all among the admitted nodes. *)
Theorem resolved_groups_admitted_only `{GoText} `{RegexEngine} `{Sha256}
    (groups : list NodeGroup) (nodes : list Node) (admitted all_admitted : gmap string Node)
    (nodeSources : gmap string (list NodeSource))
    (latestObs : gmap string (gmap string ProbeObservation)) (asOf : time)
    (gf : list (string * NodeFilterSpec)) (glob : option NodeFilterSpec)
    (rules : list PolicyRule) (out : list ResolvedGroup) (diags : list Diagnostic)
    (counts : gmap string GroupFilterCount) (rg : ResolvedGroup) (n : string) :
  ValidatePolicyTopology groups [] rules false = Some (Ok tt) →
  (∀ n, n ∈ nodes → is_Some (admitted !! node_LogicalID n)) →
  resolveGroups groups nodes admitted all_admitted nodeSources latestObs asOf gf glob rules =
    Some (out, diags, counts) →
  rg ∈ out → n ∈ rg_NodeLogicalIDs rg ++ rg_AllNodeLogicalIDs rg → is_Some (admitted !! n).
Proof. apply resolved_nodes_admitted. Qed.

(** [AllNodeLogicalIDs] is reachability: in the result of a validated policy,
    the recursive node list of a group is sorted, has no duplicates and holds
    exactly the nodes that are direct members of a group reachable from it
    through child groups of that same result. *)
Theorem all_nodes_are_reachable_nodes `{GoText} `{RegexEngine} `{Sha256}
    (groups : list NodeGroup) (nodes : list Node) (admitted all_admitted : gmap string Node)
    (nodeSources : gmap string (list NodeSource))
    (latestObs : gmap string (gmap string ProbeObservation)) (asOf : time)
    (gf : list (string * NodeFilterSpec)) (glob : option NodeFilterSpec)
    (rules : list PolicyRule) (out : list ResolvedGroup) (diags : list Diagnostic)
    (counts : gmap string GroupFilterCount) (rg : ResolvedGroup) :
  ValidatePolicyTopology groups [] rules false = Some (Ok tt) →
  (∀ n, n ∈ nodes → is_Some (admitted !! node_LogicalID n)) →
  resolveGroups groups nodes admitted all_admitted nodeSources latestObs asOf gf glob rules =
    Some (out, diags, counts) →
  rg ∈ out →
  NoDup (rg_AllNodeLogicalIDs rg) ∧
  StronglySorted (not_after str_less) (rg_AllNodeLogicalIDs rg) ∧
  ∀ n, n ∈ rg_AllNodeLogicalIDs rg ↔
    ∃ x, rtc (child_edge (resolved_table out)) (rg_ID rg) x ∧ own_node (resolved_table out) x n.
Proof.
  intros Hv Hn Hres Hrg. pose proof (λ x, validated_acyclic groups rules false x Hv) as Hac.
  destruct (resolveGroups_spec groups nodes admitted all_admitted nodeSources latestObs asOf Hn Hac
    gf glob rules) as (st & counts' & derived & out' & Hres' & Hd & HF).
  rewrite Hres in Hres'. injection Hres' as <- _ _.
  apply list_elem_of_lookup in Hrg as [i Hi].
  destruct (Forall2_lookup_r _ _ _ _ _ HF Hi) as (rg0 & Hi0 & Hc).
  destruct (cp_all _ _ _ Hc) as (Hnd & Hs & Hall). split; [done|]. split; [done|].
  destruct (child_edge_agree _ _ _ HF) as [He Ho]. rewrite (cp_id _ _ _ Hc).
  intros n. rewrite Hall. setoid_rewrite Ho.
  split; intros (x & Hx & Hxn); exists x; (split; [|done]); revert Hx; apply rtc_subrel; intros a b;
    apply He.
Qed.

(** The memo table is the unique solution of the group equations. For a
    validated policy the first loop ends with an entry for every group, each
    equal to the value of that group's pipeline when the results of the groups
    it refers to are read from the same table; and any other assignment of
    results that satisfies these equations agrees with it. So the results do
    not depend on the order in which groups are visited, and the guard against
    re-entering a group never changes one. *)
Theorem group_results_unique `{GoText} `{RegexEngine} `{Sha256} (groups : list NodeGroup)
    (nodes : list Node) (admitted all_admitted : gmap string Node)
    (nodeSources : gmap string (list NodeSource))
    (latestObs : gmap string (gmap string ProbeObservation)) (asOf : time)
    (rules : list PolicyRule) (child : string → groupMemo) :
  let table := group_table groups in
  let body := group_prog table (sort_nodes nodes) admitted all_admitted nodeSources latestObs asOf in
  ValidatePolicyTopology groups [] rules false = Some (Ok tt) →
  (∀ n, n ∈ nodes → is_Some (admitted !! node_LogicalID n)) →
  (∀ gid g, table !! gid = Some g → child gid = eval child (body g)) →
  (∀ gid, table !! gid = None → child gid = empty_memo) →
  ∃ st counts,
    resolve_each groups nodes admitted all_admitted nodeSources latestObs asOf (sort_groups groups)
      initial_state ∅ = Some (st, counts) ∧
    (∀ gid g, table !! gid = Some g →
       st_memo st !! gid = Some (eval (answer (st_memo st)) (body g))) ∧
    ∀ gid, answer (st_memo st) gid = child gid.
Proof.
  intros table body Hv Hn Hchild Hnone.
  pose proof (λ x, validated_acyclic groups rules false x Hv) as Hac.
  destruct (resolve_each_all groups nodes admitted all_admitted nodeSources latestObs asOf Hn Hac)
    as (st & counts & He & Hsol & _ & Hdom).
  exists st, counts. split; [done|].
  assert (∀ gid g, table !! gid = Some g →
    st_memo st !! gid = Some (eval (answer (st_memo st)) (body g))) as Heq.
  { intros gid g Hg. destruct (proj1 (Hdom gid)) as [m Hm]; [by eexists|].
    destruct (Hsol _ _ Hm) as (g' & Hg' & Hmm & _).
    assert (g' = g) as -> by (unfold table in Hg; congruence). by rewrite Hm, Hmm at 1. }
  split; [done|].
  assert (∀ x, Acc (child_of groups []) x → answer (st_memo st) x = child x) as Hacc.
  { induction 1 as [x _ IH]. destruct (table !! x) as [g|] eqn:Hg.
    - unfold answer at 1. rewrite (Heq _ _ Hg). simpl. rewrite (Hchild _ _ Hg).
      apply eval_agree. intros c Hc. apply IH. eapply validated_depends; [done|].
      exists g. split; [done|].
      assert (Forall (calls_for g) (calls (answer (st_memo st)) (body g))) as HF.
      { refine (proj2 (eval_wp (memo_ok table admitted) _ _ _ _ _
          (group_prog_wp _ _ _ _ _ _ _ _ g))).
        - intros c'. by eapply solved_good.
        - by apply sorted_nodes_admitted. }
      rewrite Forall_forall in HF. by apply HF.
    - rewrite (Hnone _ Hg). unfold answer. destruct (st_memo st !! x) as [m|] eqn:Hm; [|done].
      destruct (proj2 (Hdom x)) as [? Hx]; [by eexists|]. unfold table in Hg. congruence. }
  intros gid. apply validated_topology in Hv as (adj & _ & Hgacc & _).
  destruct (table !! gid) as [g|] eqn:Hg.
  - apply group_table_in in Hg as [Hg <-]. by apply Hacc, Hgacc.
  - rewrite (Hnone _ Hg). unfold answer. destruct (st_memo st !! gid) as [m|] eqn:Hm; [|done].
    destruct (proj2 (Hdom gid)) as [? Hx]; [by eexists|]. unfold table in Hg. congruence.
Qed.

Lemma routed_table_some rules r :
  r ∈ rules → is_Some (routed_table rules !! rule_TargetGroupID r).
Proof.
  unfold routed_table. generalize (∅ : gmap string PolicyRule) as m.
  assert (∀ rs (m : gmap string PolicyRule), is_Some (m !! rule_TargetGroupID r) →
    is_Some (fold_left (λ m r, <[rule_TargetGroupID r := r]> m) rs m !! rule_TargetGroupID r)) as Hk.
  { induction rs as [|r' rs IH]; intros m Hm; simpl; [done|]. apply IH.
    rewrite lookup_insert. by case_decide. }
  induction rules as [|r' rules IH]; intros m; simpl; [by intros ?%elem_of_nil|].
  intros [->|Hr]%elem_of_cons; [|by apply IH]. apply Hk. by rewrite lookup_insert_eq.
Qed.

(** Traffic is never silently sent nowhere: whenever resolution produces a
    group that a rule routes to, that has no node and no builtin behind it and
    that does not fall back to PASS, the diagnostics contain an
    [empty_routed_group] error for that group. *)
Theorem empty_routed_group_reported `{GoText} `{RegexEngine} `{Sha256} (groups : list NodeGroup)
    (nodes : list Node) (admitted all_admitted : gmap string Node)
    (nodeSources : gmap string (list NodeSource))
    (latestObs : gmap string (gmap string ProbeObservation)) (asOf : time)
    (gf : list (string * NodeFilterSpec)) (glob : option NodeFilterSpec)
    (rules : list PolicyRule) (out : list ResolvedGroup) (diags : list Diagnostic)
    (counts : gmap string GroupFilterCount) (rg : ResolvedGroup) (r : PolicyRule) :
  resolveGroups groups nodes admitted all_admitted nodeSources latestObs asOf gf glob rules =
    Some (out, diags, counts) →
  rg ∈ out → r ∈ rules → rule_TargetGroupID r = rg_ID rg →
  rg_AllNodeLogicalIDs rg = [] → has_builtin rg = false → UsesEmptyPass rg = false →
  ∃ d, d ∈ diags ∧ diag_Severity d = DiagnosticSeverityError ∧
    diag_Code d = "empty_routed_group" ∧ diag_Target d = rg_ID rg.
Proof.
  unfold resolveGroups. intros Hres Hrg Hr Ht Hall Hb Hp.
  destruct (resolve_each _ _ _ _ _ _ _ _ _ _) as [[st c]|]; [|done]. simpl in Hres.
  destruct (derive_groups _ _ _ _ _ _ _ _ _ _) as [[st' dg]|]; [|done]. simpl in Hres.
  destruct (mapM _ _) as [final|]; [|done]. simpl in Hres. injection Hres as <- <- _.
  destruct (routed_table_some _ _ Hr) as [rule Hrule]. rewrite Ht in Hrule.
  assert (group_without_destination rg = true) as Hg.
  { unfold group_without_destination. rewrite Hp, Hall, Hb. simpl. by rewrite orb_true_r. }
  eexists. split.
  - apply elem_of_app. right. apply list_elem_of_In, in_flat_map.
    exists rg. split; [by apply list_elem_of_In|]. unfold empty_group_diagnostic.
    rewrite Hg, Hrule. by left.
  - done.
Qed.

(** The identifier of a derived group is a well-formed UUIDv7, a function of
    the parent and child IDs alone. *)
Theorem derived_id_valid `{Sha256} (parentID childID : string) :
  IsValidUUIDv7 (deterministicDerivedUUID parentID childID) = true.
Proof.
  unfold deterministicDerivedUUID. set (s := "derived-group:" +:+ parentID +:+ ":" +:+ childID).
  pose proof (sha256_length s) as Hlen. pose proof (sha256_bytes s) as HF.
  destruct (sha256_Sum256 s) as [|r0 l]; [done|].
  do 15 (destruct l as [|? l]; [done|]). cbn [take].
  apply uuid_format_valid. rewrite !Forall_cons in HF |- *. rewrite Forall_nil. tauto.
Qed.

(** Rules keep their order and nothing is lost: the resolved rules are the
    rules in order of position with the MATCH/FINAL rules moved behind all
    others, numbered 0, 1, 2, ...; in particular no ordinary rule comes after a
    terminal one, so no ordinary rule is shadowed. *)
Theorem resolve_rules_normalized `{GoText} (rules : list PolicyRule) (groups : list NodeGroup) :
  let out := resolveRules rules groups in
  map rr_ID out = map rule_ID (filter (λ r, ¬ is_match r) (sort_rules rules) ++
                               filter is_match (sort_rules rules)) ∧
  map rr_ID out ≡ₚ map rule_ID rules ∧
  (∀ i r, out !! i = Some r → rr_Position r = Z.of_nat i) ∧
  ∀ i j ri rj, out !! i = Some ri → out !! j = Some rj →
    rr_IsTerminal ri = true → rr_IsTerminal rj = false → j < i.
Proof.
  intros out. subst out. unfold resolveRules.
  set (names := fold_left _ groups _). set (rs := sort_rules rules).
  assert (∀ l, List.filter (λ r, negb (rr_IsTerminal r)) (map (resolve_rule names) l) =
    map (resolve_rule names) (filter (λ r, ¬ is_match r) l)) as Hstd.
  { induction l as [|r l IH]; simpl; [done|]. rewrite filter_cons.
    destruct (decide (¬ is_match r)) as [Hm|Hm]; unfold is_match in Hm.
    - rewrite (not_true_is_false _ Hm). simpl. by rewrite IH.
    - apply dec_stable in Hm. by rewrite Hm. }
  assert (∀ l, List.filter rr_IsTerminal (map (resolve_rule names) l) =
    map (resolve_rule names) (filter is_match l)) as Hterm.
  { induction l as [|r l IH]; simpl; [done|]. rewrite filter_cons.
    destruct (decide (is_match r)) as [Hm|Hm]; unfold is_match in Hm.
    - rewrite Hm. simpl. by rewrite IH.
    - rewrite (not_true_is_false _ Hm). done. }
  rewrite Hstd, Hterm, <- map_app.
  assert (∀ l n, map rr_ID (imap (λ k, place_rule (n + k)) (map (resolve_rule names) l)) =
    map rule_ID l) as Hids.
  { induction l as [|r l IH]; intros n; simpl; [done|]. f_equal.
    rewrite <- (IH (S n)). f_equal. apply imap_ext. intros k x _. simpl. by rewrite Nat.add_succ_r. }
  pose proof (Hids (filter (λ r, ¬ is_match r) rs ++ filter is_match rs) 0) as Hid. simpl in Hid.
  change (λ k, place_rule k) with place_rule in Hid.
  split; [done|]. split; [|split].
  - rewrite Hid. apply fmap_Permutation. rewrite Permutation_app_comm.
    rewrite (filter_app_complement is_match rs). apply sort_stable_perm.
  - intros i r. rewrite list_lookup_imap. by intros (x & Hx & ->)%fmap_Some.
  - intros i j ri rj. rewrite !list_lookup_imap.
    intros (x & Hx & ->)%fmap_Some (y & Hy & ->)%fmap_Some. simpl.
    rewrite !list_lookup_fmap in Hx, Hy.
    apply fmap_Some in Hx as (x' & Hx & ->). apply fmap_Some in Hy as (y' & Hy & ->). simpl.
    intros Hxm Hym. apply lookup_app_Some in Hx as [Hx|[Hx _]].
    + apply list_elem_of_lookup_2, list_elem_of_filter in Hx as [Hx _]. by destruct Hx.
    + apply lookup_app_Some in Hy as [Hy|[_ Hy]].
      * apply lookup_lt_Some in Hy. lia.
      * apply list_elem_of_lookup_2, list_elem_of_filter in Hy as [Hy _].
        unfold is_match in Hy. congruence.
Qed.

(** ** A concrete policy *)


Definition sample_named_node (id name : string) : Node :=
  {| node_LogicalID := id; node_Protocol := "ss"; node_DisplayName := name; node_Server := "h";
     node_Port := 443; node_Credentials := no_credentials; node_Active := true;
     node_ConnectionRevision := 1 |}%Z.
Definition node_hk := sample_named_node "node_aaaaaaaaaaaaaaaa" "HK 01".
Definition node_us := sample_named_node "node_bbbbbbbbbbbbbbbb" "US 01".
Definition sample_nodes := [node_hk; node_us].
Definition sample_admitted : gmap string Node :=
  {[node_LogicalID node_hk := node_hk; node_LogicalID node_us := node_us]}.

Definition manual_source (gid node : string) (pos : Z) : MemberSource :=
  {| src_ID := "m"; src_GroupID := gid; src_Operation := "add"; src_Kind := "manual_node";
     src_Position := pos; src_NodeLogicalID := Some node; src_TargetGroupID := None;
     src_Pattern := None; src_FilterSpec := None; src_BuiltinName := None |}.
Definition hk_filter : NodeFilterSpec :=
  {| spec_Conditions := [{| cond_Field := "display_name"; cond_Op := "contains";
       cond_Value := "HK"; cond_ProbeKind := None; cond_FreshnessSeconds := None |}] |}.

(** A refers to B through a filter that keeps only one of B's two nodes. *)
Definition sample_groups : list NodeGroup :=
  [sample_group gid_a [with_filter (Some hk_filter)
     (sample_source gid_a "add" "group_ref" (Some gid_b))];
   sample_group gid_b [manual_source gid_b (node_LogicalID node_hk) 0%Z;
                       manual_source gid_b (node_LogicalID node_us) 1%Z]].
Definition sample_rules : list PolicyRule :=
  [{| rule_ID := "r"; rule_TargetGroupID := gid_a; rule_Expression := "MATCH";
      rule_Position := 0 |}%Z].

Definition sample_result :=
  @resolveGroups ascii_text witness_engine sample_sha sample_groups sample_nodes sample_admitted
    sample_admitted ∅ ∅ 0%Z [] None sample_rules.

(** The reference is replaced by a derived group with the one node that passes. *)
Example sample_derivation :
  match sample_result with
  | Some (out, _, _) => map (λ rg, (rg_Name rg, rg_AllNodeLogicalIDs rg)) out
  | None => []
  end =
  [("g" +:+ gid_a, [node_LogicalID node_hk]);
   ("g" +:+ gid_b, [node_LogicalID node_hk; node_LogicalID node_us]);
   ("g" +:+ gid_b +:+ " [g" +:+ gid_a +:+ "]", [node_LogicalID node_hk])].
Proof. vm_compute. reflexivity. Qed.

(** It has a first and a second group. *)
Lemma sample_result_some :
  match sample_result with Some (_ :: _ :: _, _, _) => true | _ => false end = true.
Proof. vm_compute. reflexivity. Qed.

Lemma sample_nodes_admitted n :
  n ∈ sample_nodes → is_Some (sample_admitted !! node_LogicalID n).
Proof.
  unfold sample_nodes. rewrite !elem_of_cons, elem_of_nil.
  intros [->|[->|[]]]; vm_compute; by eexists.
Qed.

Lemma sample_topology :
  @ValidatePolicyTopology ascii_text witness_engine sample_groups [] sample_rules false =
    Some (Ok tt).
Proof. vm_compute. reflexivity. Qed.

Lemma resolved_groups_closed_witness :
  ∃ out diags counts, sample_result = Some (out, diags, counts) ∧
    ∀ g, g ∈ sample_groups → grp_ID g ∈ map rg_ID out.
Proof.
  destruct (@resolved_groups_closed ascii_text witness_engine sample_sha sample_groups sample_nodes
    sample_admitted sample_admitted ∅ ∅ 0%Z [] None sample_rules sample_topology
    sample_nodes_admitted) as (out & diags & counts & Hres & Hids & _).
  exists out, diags, counts. split; [exact Hres|exact Hids].
Defined.

Lemma resolved_groups_admitted_only_witness :
  match sample_result with
  | Some (rg :: _, _, _) => ∀ n, n ∈ rg_NodeLogicalIDs rg ++ rg_AllNodeLogicalIDs rg →
      is_Some (sample_admitted !! n)
  | _ => False
  end.
Proof.
  pose proof sample_result_some as Hsome.
  destruct sample_result as [[[[|rg out] diags] counts]|] eqn:Hres; [done| |done].
  intros n. apply (@resolved_groups_admitted_only ascii_text witness_engine sample_sha sample_groups
    sample_nodes sample_admitted sample_admitted ∅ ∅ 0%Z [] None sample_rules (rg :: out) diags
    counts rg n sample_topology sample_nodes_admitted Hres).
  apply list_elem_of_here.
Defined.

Lemma all_nodes_are_reachable_nodes_witness :
  match sample_result with
  | Some (rg :: out, _, _) => ∀ n, n ∈ rg_AllNodeLogicalIDs rg ↔
      ∃ x, rtc (child_edge (resolved_table (rg :: out))) (rg_ID rg) x ∧
           own_node (resolved_table (rg :: out)) x n
  | _ => False
  end.
Proof.
  pose proof sample_result_some as Hsome.
  destruct sample_result as [[[[|rg out] diags] counts]|] eqn:Hres; [done| |done].
  apply (@all_nodes_are_reachable_nodes ascii_text witness_engine sample_sha sample_groups
    sample_nodes sample_admitted sample_admitted ∅ ∅ 0%Z [] None sample_rules (rg :: out) diags
    counts rg sample_topology sample_nodes_admitted Hres).
  apply list_elem_of_here.
Defined.

Definition empty_result :=
  @resolveGroups ascii_text witness_engine sample_sha [sample_group gid_a []] [] ∅ ∅ ∅ ∅ 0%Z [] None
    sample_rules.

Lemma empty_result_head :
  match empty_result with
  | Some (rg :: _, _, _) => String.eqb gid_a (rg_ID rg) &&
      (length (rg_AllNodeLogicalIDs rg) =? 0) && negb (has_builtin rg) && negb (UsesEmptyPass rg)
  | _ => false
  end = true.
Proof. vm_compute. reflexivity. Qed.

Lemma empty_routed_group_reported_witness :
  match empty_result with
  | Some (_, diags, _) => ∃ d, d ∈ diags ∧ diag_Code d = "empty_routed_group"
  | None => False
  end.
Proof.
  pose proof empty_result_head as Hhead.
  destruct empty_result as [[[[|rg out] diags] counts]|] eqn:Hres; [done| |done].
  rewrite !andb_true_iff, String.eqb_eq, Nat.eqb_eq, !negb_true_iff in Hhead.
  destruct Hhead as [[[Hid Hall] Hb] Hp].
  destruct (@empty_routed_group_reported ascii_text witness_engine sample_sha
    [sample_group gid_a []] [] ∅ ∅ ∅ ∅ 0%Z [] None sample_rules (rg :: out) diags counts rg
    {| rule_ID := "r"; rule_TargetGroupID := gid_a; rule_Expression := "MATCH";
       rule_Position := 0%Z |} Hres (list_elem_of_here _ _) (list_elem_of_here _ _) Hid
    (nil_length_inv _ Hall) Hb Hp) as (d & Hd & _ & Hc & _).
  exists d. split; [exact Hd|exact Hc].
Defined.

Lemma group_results_unique_witness :
  let gs := [sample_group gid_a []] in
  let child := λ gid : string, if String.eqb gid gid_a
    then finish_group (sample_group gid_a [])
           {| pipe_items := []; pipe_seen := ∅; pipe_count := 0 |} empty_memo
    else empty_memo in
  ∃ st counts, @resolve_each ascii_text witness_engine gs [] ∅ ∅ ∅ ∅ 0%Z
      (sort_groups gs) initial_state ∅ = Some (st, counts) ∧
    ∀ gid, answer (st_memo st) gid = child gid.
Proof.
  intros gs child.
  destruct (@group_results_unique ascii_text witness_engine sample_sha gs [] ∅ ∅ ∅ ∅ 0%Z [] child)
    as (st & counts & He & _ & Hall).
  - vm_compute. reflexivity.
  - by intros n ?%elem_of_nil.
  - intros gid g [Hg <-]%group_table_in. apply list_elem_of_singleton in Hg as ->.
    vm_compute. reflexivity.
  - intros gid Hnone. unfold child. destruct (String.eqb_spec gid gid_a) as [->|]; [|reflexivity].
    vm_compute in Hnone. discriminate.
  - exists st, counts. split; [exact He|exact Hall].
Defined.

(** The groups of the policy itself (the first ones of the result, in order of
    name) list each of their direct nodes once, whatever combination of manual,
    pattern, filter and group sources added it. *)
Theorem policy_groups_list_nodes_once `{GoText} `{RegexEngine} `{Sha256}
    (groups : list NodeGroup) (nodes : list Node) (admitted all_admitted : gmap string Node)
    (nodeSources : gmap string (list NodeSource))
    (latestObs : gmap string (gmap string ProbeObservation)) (asOf : time)
    (gf : list (string * NodeFilterSpec)) (glob : option NodeFilterSpec)
    (rules : list PolicyRule) (out : list ResolvedGroup) (diags : list Diagnostic)
    (counts : gmap string GroupFilterCount) (i : nat) (g : NodeGroup) :
  ValidatePolicyTopology groups [] rules false = Some (Ok tt) →
  (∀ n, n ∈ nodes → is_Some (admitted !! node_LogicalID n)) →
  resolveGroups groups nodes admitted all_admitted nodeSources latestObs asOf gf glob rules =
    Some (out, diags, counts) →
  sort_groups groups !! i = Some g →
  ∃ rg, out !! i = Some rg ∧ rg_ID rg = grp_ID g ∧ NoDup (rg_NodeLogicalIDs rg).
Proof.
  intros Hv Hn Hres Hi. pose proof (λ x, validated_acyclic groups rules false x Hv) as Hac.
  destruct (resolveGroups_spec groups nodes admitted all_admitted nodeSources latestObs asOf Hn Hac
    gf glob rules) as (st & counts' & derived & out' & Hres' & Hd & HF).
  rewrite Hres in Hres'. injection Hres' as <- _ _.
  assert ((imap (base_group groups st) (sort_groups groups) ++ derived) !! i =
    Some (base_group groups st i g)) as Hb.
  { apply lookup_app_l_Some. by rewrite list_lookup_imap, Hi. }
  destruct (Forall2_lookup_l _ _ _ _ _ HF Hb) as (rg & Hrg & Hc).
  exists rg. split; [done|]. split; [by rewrite (cp_id _ _ _ Hc)|].
  rewrite (cp_nodes _ _ _ Hc). simpl.
  apply list_elem_of_lookup_2 in Hi. unfold sort_groups in Hi. rewrite elem_of_sort_stable in Hi.
  destruct (dv_memo _ _ _ _ Hd _ (group_table_some _ _ Hi)) as [m Hm].
  unfold memo_entry, answer. rewrite Hm. apply (dv_entries _ _ _ _ Hd _ _ Hm).
Qed.

Lemma policy_groups_list_nodes_once_witness :
  match sample_result with
  | Some (out, _, _) => ∃ rg, out !! 1 = Some rg ∧ NoDup (rg_NodeLogicalIDs rg)
  | None => False
  end.
Proof.
  pose proof sample_result_some as Hsome.
  destruct sample_result as [[[out diags] counts]|] eqn:Hres; [|done].
  destruct (@policy_groups_list_nodes_once ascii_text witness_engine sample_sha sample_groups
    sample_nodes sample_admitted sample_admitted ∅ ∅ 0%Z [] None sample_rules out diags
    counts 1 (sample_group gid_b [manual_source gid_b (node_LogicalID node_hk) 0%Z;
      manual_source gid_b (node_LogicalID node_us) 1%Z]) sample_topology sample_nodes_admitted Hres
    ltac:(vm_compute; reflexivity)) as (rg & Hrg & _ & Hnd).
  exists rg. split; [exact Hrg|exact Hnd].
Defined.

Definition gid_c := "01890a5d-ac96-774b-bcce-b302099a8059".

(** A refers to B through a filter; B has two nodes of its own and refers to C,
    which has one of them too. *)
Definition overlapping_groups : list NodeGroup :=
  [sample_group gid_a [with_filter (Some hk_filter)
     (sample_source gid_a "add" "group_ref" (Some gid_b))];
   sample_group gid_b [manual_source gid_b (node_LogicalID node_hk) 0%Z;
                       manual_source gid_b (node_LogicalID node_us) 1%Z;
                       sample_source gid_b "add" "group_ref" (Some gid_c)];
   sample_group gid_c [manual_source gid_c (node_LogicalID node_hk) 0%Z]].

(** A group derived for a filtered reference does not keep that discipline: on
    this validated policy the derived group lists the same node twice, because
    it copies the flattened leaves of the child without the duplicate check the
    ordinary pipeline applies. *)
Theorem derived_group_repeats_node :
  @ValidatePolicyTopology ascii_text witness_engine overlapping_groups [] sample_rules false =
    Some (Ok tt) ∧
  match @resolveGroups ascii_text witness_engine sample_sha overlapping_groups sample_nodes
          sample_admitted sample_admitted ∅ ∅ 0%Z [] None sample_rules with
  | Some (out, _, _) =>
      map rg_NodeLogicalIDs (drop 3 out) = [[node_LogicalID node_hk; node_LogicalID node_hk]]
  | None => False
  end.
Proof. split; vm_compute; reflexivity. Qed.
