(* ===== verification/Resolver.v ===== *)
(** * The resolver

    [internal/resolver/resolver.go]: [Resolve] composes topology validation, risk
    and rule admission, the global filter, group resolution and rule
    normalisation into one snapshot.  The two digests ([digest.go]: canonical
    JSON and SHA-256) enter as operations of the class [Digests]; the clock and
    the state of the context are arguments. *)

From S2P Require Import Prelude.
From S2P Require Import GoStrings.
From S2P Require Import Domain.
From S2P Require Import Lifecycle.
From S2P Require Import NodeFilter.
From S2P Require Import Policy.
From S2P Require Import Risk.
From S2P Require Import Admission.
From S2P Require Import Groups.
From S2P Require Import ResolveGroups.

(** ** Data *)

Record DNSConfig : Type := {
  dns_Enabled : bool; dns_Nameservers : list string; dns_Fallback : list string
}.

Record ResolvedNode : Type := {
  rn_LogicalID : string;
  rn_DisplayName : string;
  rn_Protocol : string;
  rn_Server : string;
  rn_Port : Z;
  rn_Credentials : InboundProtocolCredential;
  rn_Active : bool;
  rn_ConnectionRevision : Z;
  rn_Position : nat
}.

Record FilterLayerCounts : Type := {
  flc_RawTotal : nat;
  flc_AdmittedTotal : nat;
  flc_GlobalFilteredTotal : nat;
  flc_GroupFilteredTotal : nat;
  flc_GroupCounts : gmap string GroupFilterCount
}.

Record ResolvedPolicySnapshot : Type := {
  snap_InputDigest : string;
  snap_SnapshotDigest : string;
  snap_RevisionID : string;
  snap_InventoryWatermark : string;
  snap_CompilerVersion : string;
  snap_Nodes : list ResolvedNode;
  snap_NodeLogicalIDs : list string;
  snap_Groups : list ResolvedGroup;
  snap_Rules : list ResolvedRule;
  snap_DNS : DNSConfig;
  snap_Diagnostics : list Diagnostic;
  snap_RiskPolicyRevision : string;
  snap_RiskDecisionDigest : string;
  snap_RiskEvaluatedAt : option time;
  snap_AdmittedNodeIDs : list string;
  snap_ExcludedNodeIDs : list string;
  snap_FilterCounts : FilterLayerCounts;
  snap_ResolvedAt : time
}.

Record ResolveInput : Type := {
  in_RevisionID : string;
  in_InventoryWatermark : string;
  in_CompilerVersion : string;
  in_Nodes : list Node;
  in_Groups : list NodeGroup;
  in_GroupSources : option (gmap string (list MemberSource));
  in_Edges : list (string * list GroupEdge);
  in_PolicyRules : list PolicyRule;
  in_AdmissionRules : list AdmissionRule;
  in_DNS : DNSConfig;
  in_RiskPolicyRevision : string;
  in_RiskDecisionDigest : string;
  in_RiskEvaluatedAt : option time;
  in_RiskReviewAction : string;
  in_RiskDecisions : list RiskDecision;
  in_ExcludedNodeIDs : list string;
  in_GlobalFilter : option NodeFilterSpec;
  in_GroupFilters : list (string * NodeFilterSpec);
  in_NodeSources : gmap string (list NodeSource);
  in_LatestObservations : gmap string (gmap string ProbeObservation);
  in_AsOf : time
}.

Class Digests := {
  computeInputDigest : ResolveInput → result string string;
  computeSnapshotDigest : ResolvedPolicySnapshot → result string string
}.

Inductive resolve_error : Type :=
  | context_done
  | invalid_input (e : DomainError)
  | digest_failed (message : string).

(** ** Steps *)

(** Sources are the only graph input: the group's own or those of the map, and
    never the legacy filter. *)
Definition own_sources (sources : option (gmap string (list MemberSource))) (g : NodeGroup)
    : NodeGroup :=
  {| grp_EmptyFallbackPass := grp_EmptyFallbackPass g; grp_ID := grp_ID g;
     grp_Name := grp_Name g; grp_GroupType := grp_GroupType g;
     grp_Sources := match sources with
                    | Some m => default [] (m !! grp_ID g)
                    | None => grp_Sources g
                    end;
     grp_NodeFilter := None |}.

Definition normalize_input (input : ResolveInput) : ResolveInput :=
  {| in_RevisionID := in_RevisionID input;
     in_InventoryWatermark := in_InventoryWatermark input;
     in_CompilerVersion := if String.eqb (in_CompilerVersion input) "" then "1.0.0"
                           else in_CompilerVersion input;
     in_Nodes := in_Nodes input;
     in_Groups := map (own_sources (in_GroupSources input)) (in_Groups input);
     in_GroupSources := in_GroupSources input; in_Edges := [];
     in_PolicyRules := in_PolicyRules input; in_AdmissionRules := in_AdmissionRules input;
     in_DNS := in_DNS input; in_RiskPolicyRevision := in_RiskPolicyRevision input;
     in_RiskDecisionDigest := in_RiskDecisionDigest input;
     in_RiskEvaluatedAt := in_RiskEvaluatedAt input;
     in_RiskReviewAction := in_RiskReviewAction input;
     in_RiskDecisions := in_RiskDecisions input;
     in_ExcludedNodeIDs := in_ExcludedNodeIDs input; in_GlobalFilter := in_GlobalFilter input;
     in_GroupFilters := []; in_NodeSources := in_NodeSources input;
     in_LatestObservations := in_LatestObservations input; in_AsOf := in_AsOf input |}.

Record global_result : Type := {
  gl_Nodes : list Node;
  gl_Map : gmap string Node;
  gl_Excluded : list string;
  gl_Diagnostics : list Diagnostic
}.

Definition lift_domain {A} (r : result DomainError A) : result resolve_error A :=
  match r with Ok a => Ok a | Err e => Err (invalid_input e) end.

Section Resolve.
Context `{GoText} `{RegexEngine} `{Sha256} `{Digests}.

Definition global_verdict (input : ResolveInput) (asOf : time) (node : Node)
    : bool * string :=
  if NodeFilterSpec_IsEmpty (in_GlobalFilter input) then (true, "")
  else filter_node (in_NodeSources input) (in_LatestObservations input) asOf
         (in_GlobalFilter input) node (node_LogicalID node).

Definition global_step (input : ResolveInput) (asOf : time) (acc : global_result)
    (node : Node) : global_result :=
  let '(matched, reason) := global_verdict input asOf node in
  if matched then
    {| gl_Nodes := gl_Nodes acc ++ [node];
       gl_Map := <[node_LogicalID node := node]> (gl_Map acc);
       gl_Excluded := gl_Excluded acc; gl_Diagnostics := gl_Diagnostics acc |}
  else
    {| gl_Nodes := gl_Nodes acc; gl_Map := gl_Map acc;
       gl_Excluded := gl_Excluded acc ++ [node_LogicalID node];
       gl_Diagnostics := gl_Diagnostics acc ++
         [{| diag_Severity := DiagnosticSeverityInfo; diag_Code := "global_filter_excluded";
             diag_Message := "node " +:+ Quote (node_DisplayName node) +:+
               " excluded by global filter: " +:+ reason;
             diag_Target := node_LogicalID node; diag_Reason := reason |}] |}.

Definition global_filter (input : ResolveInput) (asOf : time) (admitted : list Node)
    : global_result :=
  fold_left (global_step input asOf) admitted
    {| gl_Nodes := []; gl_Map := ∅; gl_Excluded := []; gl_Diagnostics := [] |}.

Definition resolved_node (i : nat) (n : Node) : ResolvedNode :=
  {| rn_LogicalID := node_LogicalID n; rn_DisplayName := node_DisplayName n;
     rn_Protocol := node_Protocol n; rn_Server := node_Server n; rn_Port := node_Port n;
     rn_Credentials := node_Credentials n; rn_Active := node_Active n;
     rn_ConnectionRevision := node_ConnectionRevision n; rn_Position := i |}.

Definition place_node (i : nat) (n : ResolvedNode) : ResolvedNode :=
  {| rn_LogicalID := rn_LogicalID n; rn_DisplayName := rn_DisplayName n;
     rn_Protocol := rn_Protocol n; rn_Server := rn_Server n; rn_Port := rn_Port n;
     rn_Credentials := rn_Credentials n; rn_Active := rn_Active n;
     rn_ConnectionRevision := rn_ConnectionRevision n; rn_Position := i |}.

Definition sort_resolved_nodes (nodes : list Node) : list ResolvedNode :=
  imap place_node
    (sort_stable (less_then rn_DisplayName (less_str rn_LogicalID)) (imap resolved_node nodes)).

Definition diag_less : Diagnostic → Diagnostic → bool :=
  less_then diag_Code (less_then diag_Target (less_str diag_Message)).

(** The checks before anything is resolved. *)
Definition validate_input (input : ResolveInput) : option (result DomainError unit) :=
  r ← ValidatePolicyTopology (in_Groups input) [] (in_PolicyRules input) false;
  Some (r ;;? NodeFilterSpec_Validate (in_GlobalFilter input)).

(** [now] and [later] are the two readings of the clock; [None] only if a
    recursion runs out of fuel. *)
Definition Resolve (done_ : bool) (now later : time) (raw : ResolveInput)
    : option (result resolve_error ResolvedPolicySnapshot) :=
  if done_ then Some (Err context_done)
  else
    let input := normalize_input raw in
    v ← validate_input input;
    match v with
    | Err e => Some (Err (invalid_input e))
    | Ok _ =>
        let asOf := if IsZero (in_AsOf input) then now else in_AsOf input in
        let '(riskExcludedIDs, riskDiagnostics) :=
          evaluateRiskAdmission (in_Nodes input) (in_RiskPolicyRevision input)
            (in_RiskDecisions input) (in_RiskReviewAction input) in
        let admissionRes :=
          evaluateNodeAdmission (in_Nodes input) (in_AdmissionRules input)
            (in_ExcludedNodeIDs input ++ riskExcludedIDs) in
        let gl := global_filter input asOf (res_AdmittedNodes admissionRes) in
        let sortedNodes := sort_resolved_nodes (gl_Nodes gl) in
        let finalExcludedIDs :=
          uniqueStrings (sort_strings (res_ExcludedNodeIDs admissionRes ++ gl_Excluded gl)) in
        '(resolvedGroups, groupDiagnostics, groupCounts) ←
          resolveGroups (in_Groups input) (gl_Nodes gl) (gl_Map gl)
            (res_AdmittedNodeMap admissionRes) (in_NodeSources input)
            (in_LatestObservations input) asOf (in_GroupFilters input)
            (in_GlobalFilter input) (in_PolicyRules input);
        let allDiagnostics := sort_stable diag_less
          (res_Diagnostics admissionRes ++ riskDiagnostics ++ gl_Diagnostics gl ++
           groupDiagnostics) in
        Some
          (let? inputDigest := match computeInputDigest input with
                               | Ok d => Ok d | Err m => Err (digest_failed m) end in
           let snap digest :=
             {| snap_InputDigest := inputDigest; snap_SnapshotDigest := digest;
                snap_RevisionID := in_RevisionID input;
                snap_InventoryWatermark := in_InventoryWatermark input;
                snap_CompilerVersion := in_CompilerVersion input;
                snap_Nodes := sortedNodes;
                snap_NodeLogicalIDs := map rn_LogicalID sortedNodes;
                snap_Groups := resolvedGroups;
                snap_Rules := resolveRules (in_PolicyRules input) (in_Groups input);
                snap_DNS := in_DNS input; snap_Diagnostics := allDiagnostics;
                snap_RiskPolicyRevision := in_RiskPolicyRevision input;
                snap_RiskDecisionDigest := in_RiskDecisionDigest input;
                snap_RiskEvaluatedAt := in_RiskEvaluatedAt input;
                snap_AdmittedNodeIDs := sort_strings (map node_LogicalID (gl_Nodes gl));
                snap_ExcludedNodeIDs := finalExcludedIDs;
                snap_FilterCounts :=
                  {| flc_RawTotal := length (in_Nodes input);
                     flc_AdmittedTotal := length (res_AdmittedNodes admissionRes);
                     flc_GlobalFilteredTotal := length (gl_Nodes gl);
                     flc_GroupFilteredTotal :=
                       size (list_to_set (flat_map rg_AllNodeLogicalIDs resolvedGroups)
                             : gset string);
                     flc_GroupCounts := groupCounts |};
                snap_ResolvedAt := later |} in
           match computeSnapshotDigest (snap "") with
           | Ok d => Ok (snap d)
           | Err m => Err (digest_failed m)
           end)
    end.
End Resolve.

(** ** Properties *)

Section ResolveLemmas.
Context `{GoText} `{RegexEngine} `{Sha256} `{Digests}.

Definition passes_global (input : ResolveInput) (asOf : time) (n : Node) : Prop :=
  fst (global_verdict input asOf n) = true.
#[global] Instance passes_global_dec input asOf n : Decision (passes_global input asOf n).
Proof. unfold passes_global. apply _. Defined.

Lemma global_filter_spec input asOf l :
  let gl := global_filter input asOf l in
  gl_Nodes gl = filter (passes_global input asOf) l ∧
  (∀ n, n ∈ gl_Nodes gl → is_Some (gl_Map gl !! node_LogicalID n)) ∧
  (∀ id n, gl_Map gl !! id = Some n → n ∈ gl_Nodes gl ∧ node_LogicalID n = id) ∧
  gl_Excluded gl = map node_LogicalID (filter (λ n, ¬ passes_global input asOf n) l).
Proof.
  unfold global_filter. induction l as [|n l IH] using rev_ind.
  { simpl. split; [done|]. split; [by intros ? ?%elem_of_nil|].
    split; [by intros ? ? ?%lookup_empty_Some|done]. }
  rewrite fold_left_app. cbn [fold_left]. set (acc := fold_left _ l _) in *.
  destruct IH as (Hn & Hm & Hm' & He). rewrite !filter_app, !filter_cons, !filter_nil.
  unfold global_step.
  destruct (decide (passes_global input asOf n)) as [Hp|Hp]; pose proof Hp as Hp'; unfold passes_global in Hp';
    destruct (global_verdict input asOf n) as [[] reason]; try done; clear Hp'; simpl.
  - rewrite decide_False by auto.
    rewrite app_nil_r, Hn. split; [done|]. split; [|split; [|done]].
    + intros n' Hn'. rewrite lookup_insert. case_decide; [done|]. apply Hm. rewrite Hn. set_solver.
    + intros id n'. rewrite lookup_insert. case_decide as Hid.
      * intros [= <-]. split; [set_solver|done].
      * intros Hl%Hm'. rewrite <- Hn. set_solver.
  - rewrite decide_True by done.
    rewrite app_nil_r, map_app, He. auto.
Qed.

(** The checks always reach a verdict. *)
Lemma validate_input_some input : is_Some (validate_input input).
Proof.
  unfold validate_input, ValidatePolicyTopology.
  destruct (build_adjacency _ _) as [adj|e] eqn:Hb; [|done].
  by destruct (search_outcome _ _ _ Hb) as [(st & -> & _)|(e & -> & _)].
Qed.

Lemma validate_input_ok input :
  validate_input input = Some (Ok tt) →
  ValidatePolicyTopology (in_Groups input) [] (in_PolicyRules input) false = Some (Ok tt).
Proof.
  unfold validate_input. destruct (ValidatePolicyTopology _ _ _ _) as [[[]|]|]; [done..|].
  done.
Qed.

Lemma sort_resolved_ids nodes :
  map rn_LogicalID (sort_resolved_nodes nodes) ≡ₚ map node_LogicalID nodes.
Proof.
  unfold sort_resolved_nodes.
  assert (∀ l k, map rn_LogicalID (imap (λ i, place_node (k + i)) l) = map rn_LogicalID l) as Hp.
  { induction l as [|x l IH]; intros k; simpl; [done|]. f_equal. rewrite <- (IH (S k)). f_equal.
    apply imap_ext. intros i y _. simpl. by rewrite Nat.add_succ_r. }
  pose proof (Hp (sort_stable (less_then rn_DisplayName (less_str rn_LogicalID))
    (imap resolved_node nodes)) 0) as Hp0. simpl in Hp0.
  change (λ i, place_node i) with place_node in Hp0. rewrite Hp0.
  rewrite sort_stable_perm.
  assert (∀ l k, map rn_LogicalID (imap (λ i, resolved_node (k + i)) l) = map node_LogicalID l) as Hr.
  { induction l as [|x l IH]; intros k; simpl; [done|]. f_equal. rewrite <- (IH (S k)). f_equal.
    apply imap_ext. intros i y _. simpl. by rewrite Nat.add_succ_r. }
  pose proof (Hr nodes 0) as Hr0. simpl in Hr0.
  change (λ i, resolved_node i) with resolved_node in Hr0. by rewrite Hr0.
Qed.

(** The node of a snapshot, without its position. *)
Definition node_of (r : ResolvedNode) : Node :=
  {| node_LogicalID := rn_LogicalID r; node_Protocol := rn_Protocol r;
     node_DisplayName := rn_DisplayName r; node_Server := rn_Server r; node_Port := rn_Port r;
     node_Credentials := rn_Credentials r; node_Active := rn_Active r;
     node_ConnectionRevision := rn_ConnectionRevision r |}.

Definition node_before : ResolvedNode → ResolvedNode → bool :=
  less_then rn_DisplayName (less_str rn_LogicalID).

(** Sorting keeps the nodes as they are and numbers them in their new order. *)
Lemma sort_resolved_nodes_spec nodes :
  ∃ l, l ≡ₚ nodes ∧ sort_resolved_nodes nodes = imap resolved_node l ∧
    StronglySorted (not_after node_before) (sort_resolved_nodes nodes).
Proof.
  unfold sort_resolved_nodes. fold node_before.
  set (sorted := sort_stable node_before (imap resolved_node nodes)).
  exists (map node_of sorted). split; [|split].
  - subst sorted. rewrite sort_stable_perm.
    change (map node_of (imap resolved_node nodes)) with (node_of <$> imap resolved_node nodes).
    rewrite fmap_imap, (imap_ext _ (λ _ n, n)) by (by intros ? []).
    clear. induction nodes as [|n nodes IH]; [done|]. simpl. by f_equiv.
  - change (map node_of sorted) with (node_of <$> sorted). by rewrite imap_fmap.
  - assert (Hs : StronglySorted (not_after node_before) sorted) by apply sort_stable_sorted, _.
    apply StronglySorted_imap; [done|]. done.
Qed.
End ResolveLemmas.

Section Snapshot.
Context `{GoText} `{RegexEngine} `{Sha256} `{Digests}.
Context (now later : time) (raw : ResolveInput).

Definition effective_asOf : time := if IsZero (in_AsOf raw) then now else in_AsOf raw.

(** Everything the risk and explicit exclusions name. *)
Definition excluded_ids : list string :=
  in_ExcludedNodeIDs raw ++
  (evaluateRiskAdmission (in_Nodes raw) (in_RiskPolicyRevision raw) (in_RiskDecisions raw)
     (in_RiskReviewAction raw)).1.

(** The node passes admission and the global filter. *)
Definition selected (n : Node) : Prop :=
  admissible excluded_ids (sort_admission_rules (in_AdmissionRules raw)) n ∧
  passes_global (normalize_input raw) effective_asOf n.

Definition admission_result : nodeAdmissionResult :=
  evaluateNodeAdmission (in_Nodes raw) (in_AdmissionRules raw) excluded_ids.
Definition global_nodes : global_result :=
  global_filter (normalize_input raw) effective_asOf (res_AdmittedNodes admission_result).

Lemma global_nodes_selected n :
  n ∈ gl_Nodes global_nodes ↔ n ∈ in_Nodes raw ∧ selected n.
Proof.
  unfold global_nodes. destruct (global_filter_spec (normalize_input raw) effective_asOf
    (res_AdmittedNodes admission_result)) as (-> & _).
  unfold admission_result. destruct (evaluateNodeAdmission_spec (in_Nodes raw)
    (in_AdmissionRules raw) excluded_ids) as (-> & _).
  rewrite !list_elem_of_filter. unfold selected. naive_solver.
Qed.

#[global] Instance selected_dec n : Decision (selected n).
Proof. unfold selected. apply _. Defined.

Lemma global_nodes_filter : gl_Nodes global_nodes = filter selected (in_Nodes raw).
Proof.
  unfold global_nodes. destruct (global_filter_spec (normalize_input raw) effective_asOf
    (res_AdmittedNodes admission_result)) as (-> & _).
  unfold admission_result. destruct (evaluateNodeAdmission_spec (in_Nodes raw)
    (in_AdmissionRules raw) excluded_ids) as (-> & _).
  rewrite list_filter_filter. apply list_filter_iff. unfold selected. naive_solver.
Qed.

Lemma global_nodes_mapped n :
  n ∈ gl_Nodes global_nodes → is_Some (gl_Map global_nodes !! node_LogicalID n).
Proof. apply global_filter_spec. Qed.

(** A snapshot is put together from these parts. *)
Lemma resolve_parts snap :
  Resolve false now later raw = Some (Ok snap) →
  ValidatePolicyTopology (in_Groups (normalize_input raw)) [] (in_PolicyRules raw) false =
    Some (Ok tt) ∧
  (snap_Nodes snap = sort_resolved_nodes (gl_Nodes global_nodes) ∧
   snap_NodeLogicalIDs snap = map rn_LogicalID (snap_Nodes snap)) ∧
  snap_AdmittedNodeIDs snap = sort_strings (map node_LogicalID (gl_Nodes global_nodes)) ∧
  snap_ExcludedNodeIDs snap = uniqueStrings (sort_strings
    (res_ExcludedNodeIDs admission_result ++ gl_Excluded global_nodes)) ∧
  snap_Rules snap = resolveRules (in_PolicyRules raw) (in_Groups (normalize_input raw)) ∧
  ∃ diags counts, resolveGroups (in_Groups (normalize_input raw)) (gl_Nodes global_nodes)
    (gl_Map global_nodes) (res_AdmittedNodeMap admission_result) (in_NodeSources raw)
    (in_LatestObservations raw) effective_asOf [] (in_GlobalFilter raw) (in_PolicyRules raw) =
    Some (snap_Groups snap, diags, counts).
Proof.
  unfold Resolve. destruct (validate_input (normalize_input raw)) as [[[]|e]|] eqn:Hv; [|done..].
  apply validate_input_ok in Hv. cbn [mbind option_bind].
  change (in_Nodes (normalize_input raw)) with (in_Nodes raw).
  change (in_RiskPolicyRevision (normalize_input raw)) with (in_RiskPolicyRevision raw).
  change (in_RiskDecisions (normalize_input raw)) with (in_RiskDecisions raw).
  change (in_RiskReviewAction (normalize_input raw)) with (in_RiskReviewAction raw).
  unfold global_nodes, admission_result, excluded_ids.
  destruct (evaluateRiskAdmission _ _ _ _) as [rids rdiags].
  destruct (resolveGroups _ _ _ _ _ _ _ _ _ _) as [[[out diags] counts]|] eqn:Hg;
    cbn [mbind option_bind]; [|done].
  destruct (computeInputDigest _) as [d|]; [|done].
  destruct (computeSnapshotDigest _) as [d'|]; [|done]. intros [= <-]. simpl.
  split; [done|]. split; [done|]. split; [done|]. split; [done|]. split; [done|].
  by exists diags, counts.
Qed.

(** A node of the input that is selected has this ID. *)
Definition selected_id (id : string) : Prop :=
  ∃ n, n ∈ in_Nodes raw ∧ node_LogicalID n = id ∧ selected n.

Lemma mapped_selected id : is_Some (gl_Map global_nodes !! id) → selected_id id.
Proof.
  intros [n Hn]. apply global_filter_spec in Hn as [Hn Hid].
  apply global_nodes_selected in Hn as [? ?]. by exists n.
Qed.

Lemma snapshot_nodes snap :
  Resolve false now later raw = Some (Ok snap) →
  (∃ l, l ≡ₚ filter selected (in_Nodes raw) ∧ snap_Nodes snap = imap resolved_node l) ∧
  StronglySorted (not_after node_before) (snap_Nodes snap) ∧
  snap_NodeLogicalIDs snap = map rn_LogicalID (snap_Nodes snap) ∧
  ∀ id, id ∈ snap_NodeLogicalIDs snap ↔ selected_id id.
Proof.
  intros (_ & [Hn Hids] & _)%resolve_parts.
  destruct (sort_resolved_nodes_spec (gl_Nodes global_nodes)) as (l & Hl & Hi & Hs).
  rewrite Hids, Hn. split; [|split; [done|split; [done|]]].
  - exists l. by rewrite <- global_nodes_filter.
  - intros id. rewrite sort_resolved_ids, list_elem_of_fmap. unfold selected_id.
    setoid_rewrite global_nodes_selected. naive_solver.
Qed.

(** What a group lists, directly, through other groups or as a member, is selected; other members
    are groups of the snapshot or built-in policies. *)
Lemma snapshot_groups snap :
  Resolve false now later raw = Some (Ok snap) →
  ∀ rg, rg ∈ snap_Groups snap →
    (∀ id, id ∈ rg_NodeLogicalIDs rg ++ rg_AllNodeLogicalIDs rg → selected_id id) ∧
    ∀ m, m ∈ rg_Members rg →
      (mem_Kind m = MemberKindNode ∧ selected_id (mem_TargetID m)) ∨
      (mem_Kind m = MemberKindGroup ∧ mem_TargetID m ∈ map rg_ID (snap_Groups snap)) ∨
      mem_Kind m = MemberKindBuiltin.
Proof.
  intros (Hv & _ & _ & _ & _ & diags & counts & Hg)%resolve_parts rg Hrg. split.
  - intros id Hid. apply mapped_selected. by eapply (resolved_nodes_admitted _ _ _ _ _ _ _ _ _ _ _ _ _ _ _ Hv
      global_nodes_mapped Hg Hrg).
  - destruct (resolved_groups_closed _ _ _ (res_AdmittedNodeMap admission_result) (in_NodeSources raw)
      (in_LatestObservations raw) effective_asOf [] (in_GlobalFilter raw) _ Hv global_nodes_mapped)
      as (out & ? & ? & Hg' & _ & Hall).
    rewrite Hg in Hg'. injection Hg' as <- _ _. intros m Hm.
    destruct (proj2 (Hall rg Hrg) m Hm) as [[? ?%mapped_selected]|[?|?]]; auto.
Qed.

(** Where a snapshot refers to a node: its node list, its list of IDs, and the lists and members
    of its groups. *)
Definition shows_node (snap : ResolvedPolicySnapshot) (id : string) : Prop :=
  id ∈ map rn_LogicalID (snap_Nodes snap) ∨ id ∈ snap_NodeLogicalIDs snap ∨
  ∃ rg, rg ∈ snap_Groups snap ∧
    (id ∈ rg_NodeLogicalIDs rg ++ rg_AllNodeLogicalIDs rg ∨
     ∃ m, m ∈ rg_Members rg ∧ mem_Kind m = MemberKindNode ∧ mem_TargetID m = id).

Lemma shown_selected snap id :
  Resolve false now later raw = Some (Ok snap) → shows_node snap id → selected_id id.
Proof.
  intros Hr Hid. destruct (snapshot_nodes snap Hr) as (_ & _ & Hids & Hsel).
  destruct Hid as [Hid|[Hid|(rg & Hrg & Hid)]].
  - rewrite <- Hids in Hid. by apply Hsel.
  - by apply Hsel.
  - destruct (snapshot_groups snap Hr rg Hrg) as [Hl Hm]. destruct Hid as [?|(m & Hin & Hk & <-)]; [auto|].
    destruct (Hm m Hin) as [[_ ?]|[[Hk' _]|Hk']]; [done|..]; by rewrite Hk in Hk'.
Qed.
End Snapshot.

(** An input that passes the checks is resolved, up to the digests. *)
Lemma resolve_accepts `{GoText} `{RegexEngine} `{Sha256} `{Digests} (now later : time)
    (raw : ResolveInput) :
  validate_input (normalize_input raw) = Some (Ok tt) →
  (∃ snap, Resolve false now later raw = Some (Ok snap)) ∨
  (∃ m, Resolve false now later raw = Some (Err (digest_failed m))).
Proof.
  intros Hv. unfold Resolve. rewrite Hv. apply validate_input_ok in Hv. cbn [mbind option_bind].
  destruct (evaluateRiskAdmission _ _ _ _) as [rids rdiags].
  set (gl := global_filter _ _ _).
  destruct (resolveGroups_total (in_Groups (normalize_input raw)) (gl_Nodes gl) (gl_Map gl)
    (res_AdmittedNodeMap (evaluateNodeAdmission (in_Nodes (normalize_input raw))
      (in_AdmissionRules (normalize_input raw))
      (in_ExcludedNodeIDs (normalize_input raw) ++ rids)))
    (in_NodeSources (normalize_input raw)) (in_LatestObservations (normalize_input raw))
    (if IsZero (in_AsOf (normalize_input raw)) then now else in_AsOf (normalize_input raw))
    (in_GroupFilters (normalize_input raw)) (in_GlobalFilter (normalize_input raw))
    (in_PolicyRules (normalize_input raw))) as (out & diags & counts & -> & _);
    [done|apply global_filter_spec|]. cbn [mbind option_bind].
  destruct (computeInputDigest _) as [d|m]; [|right; by exists m].
  destruct (computeSnapshotDigest _) as [d'|m]; [left; by eexists|right; by exists m].
Qed.

Lemma resolve_returns `{GoText} `{RegexEngine} `{Sha256} `{Digests} (done_ : bool)
    (now later : time) (raw : ResolveInput) :
  is_Some (Resolve done_ now later raw).
Proof.
  unfold Resolve. destruct done_; [done|].
  destruct (validate_input_some (normalize_input raw)) as [[[]|e] Hv]; [|by rewrite Hv].
  by destruct (resolve_accepts now later raw Hv) as [[? He]|[? He]]; unfold Resolve in He; rewrite He.
Qed.

(** C4. Resolution always returns: for every input it produces a snapshot or one of
    its errors; none of its recursions, which the model bounds by the number of
    groups, runs out. *)
Theorem resolve_total `{GoText} `{RegexEngine} `{Sha256} `{Digests} (done_ : bool)
    (now later : time) (raw : ResolveInput) :
  is_Some (Resolve done_ now later raw).
Proof. apply resolve_returns. Qed.

(** The target of a rule is checked against the groups, where there are groups. *)
Lemma snapshot_rules `{GoText} `{RegexEngine} `{Sha256} `{Digests} (now later : time)
    (raw : ResolveInput) (snap : ResolvedPolicySnapshot) :
  Resolve false now later raw = Some (Ok snap) → in_Groups raw ≠ [] →
  ∀ r, r ∈ snap_Rules snap → rr_TargetGroupID r ∈ map rg_ID (snap_Groups snap).
Proof.
  intros (Hv & _ & _ & _ & Hrules & diags & counts & Hg)%resolve_parts Hne r Hr. destruct (resolveGroups_total _ _ _ (res_AdmittedNodeMap (admission_result raw))
    (in_NodeSources raw) (in_LatestObservations raw) (effective_asOf now raw) []
    (in_GlobalFilter raw) _ Hv (global_nodes_mapped now raw)) as (out & ? & ? & Hg' & Hall).
  rewrite Hg in Hg'. injection Hg' as <- _ _.
  pose proof Hv as (adj & _ & _ & _ & Hrv)%validated_topology.
  assert (∀ r, r ∈ in_PolicyRules raw →
    rule_TargetGroupID r ∈ group_set (in_Groups (normalize_input raw))) as Htarget.
  { intros r' Hr'. unfold ValidatePolicyRules in Hrv.
    destruct (Nat.eqb_spec (length (in_PolicyRules raw)) 0) as [Hz|].
    { apply nil_length_inv in Hz. rewrite Hz in Hr'. by apply elem_of_nil in Hr'. }
    destruct (for_each _ _) as [[]|] eqn:Hfe; [|done].
    rewrite for_each_ok in Hfe. specialize (Hfe r').
    unfold sort_rules in Hfe. rewrite elem_of_sort_stable in Hfe.
    apply Hfe, validate_rule_ok in Hr' as (_ & _ & Ht). apply Ht.
    unfold group_set. simpl. destruct (in_Groups raw); [done|]. set_solver. }
  rewrite Hrules in Hr. unfold resolveRules in Hr.
  apply elem_of_lookup_imap in Hr as (i & r' & -> & Hr'). simpl.
  assert (∃ r0, r0 ∈ in_PolicyRules raw ∧ rule_TargetGroupID r0 = rr_TargetGroupID r')
    as (r0 & Hr0 & <-).
  { apply list_elem_of_lookup_2 in Hr'. rewrite elem_of_app, !list_elem_of_In, !filter_In in Hr'.
    assert (In r' (map (resolve_rule (fold_left (λ m g, <[grp_ID g := grp_Name g]> m)
      (in_Groups (normalize_input raw)) ∅)) (sort_rules (in_PolicyRules raw)))) as Hin
      by naive_solver.
    apply in_map_iff in Hin as (r0 & <- & Hin). apply list_elem_of_In in Hin.
    unfold sort_rules in Hin. rewrite elem_of_sort_stable in Hin. by exists r0. }
  apply Htarget in Hr0. unfold group_set in Hr0.
  apply elem_of_list_to_set, list_elem_of_fmap in Hr0 as (g & -> & Hin). by apply Hall.
Qed.

(** C1. A snapshot contains what it should and nothing else.  Its nodes are the nodes of the
    inventory that are active, not excluded by risk or by request, not rejected by the first
    matching admission rule and not filtered out globally, each as often as there, with all
    their fields, sorted by name and ID and numbered in that order; its list of IDs is theirs.
    Every node ID that a group lists, directly or through other groups, is one of these IDs;
    every member of a group is such a node, a group of the snapshot or a built-in policy; and,
    when the input has any group, every rule points to a group of the snapshot (a policy
    without groups is not checked for the targets of its rules). *)
Theorem snapshot_sound `{GoText} `{RegexEngine} `{Sha256} `{Digests} (now later : time)
    (raw : ResolveInput) (snap : ResolvedPolicySnapshot) :
  Resolve false now later raw = Some (Ok snap) →
  (∃ l, l ≡ₚ filter (selected now raw) (in_Nodes raw) ∧ snap_Nodes snap = imap resolved_node l) ∧
  StronglySorted (not_after node_before) (snap_Nodes snap) ∧
  snap_NodeLogicalIDs snap = map rn_LogicalID (snap_Nodes snap) ∧
  (∀ rg, rg ∈ snap_Groups snap →
     (∀ id, id ∈ rg_NodeLogicalIDs rg ++ rg_AllNodeLogicalIDs rg → id ∈ snap_NodeLogicalIDs snap) ∧
     ∀ m, m ∈ rg_Members rg →
       (mem_Kind m = MemberKindNode ∧ mem_TargetID m ∈ snap_NodeLogicalIDs snap) ∨
       (mem_Kind m = MemberKindGroup ∧ mem_TargetID m ∈ map rg_ID (snap_Groups snap)) ∨
       mem_Kind m = MemberKindBuiltin) ∧
  (in_Groups raw ≠ [] →
   ∀ r, r ∈ snap_Rules snap → rr_TargetGroupID r ∈ map rg_ID (snap_Groups snap)).
Proof.
  intros Hr. destruct (snapshot_nodes now later raw snap Hr) as (Hn & Hs & Hids & Hsel).
  split; [done|]. split; [done|]. split; [done|].
  split; [|by apply (snapshot_rules now later)]. setoid_rewrite Hsel. by apply snapshot_groups with later.
Qed.

(** A node that the risk policy in force excludes is in no snapshot. *)
Lemma excluded_not_published `{GoText} `{RegexEngine} `{Sha256} `{Digests}
    (now later : time) (raw : ResolveInput) (snap : ResolvedPolicySnapshot) (d : RiskDecision) :
  in_RiskPolicyRevision raw ≠ "" → d ∈ in_RiskDecisions raw →
  dec_PolicyRevisionID d = in_RiskPolicyRevision raw →
  dec_Decision d = RiskActionBlock ∨ dec_Decision d = RiskActionUnknown ∨
    (dec_Decision d = RiskActionReview ∧ in_RiskReviewAction raw ≠ RiskActionAllow) →
  Resolve false now later raw = Some (Ok snap) → ¬ shows_node snap (dec_NodeLogicalID d).
Proof.
  intros Hrev Hd Hdr Hdec Hr Href.
  destruct (shown_selected now later raw snap _ Hr Href) as (n & Hin & Heq & (_ & Hnot & _) & _).
  destruct (risk_admission_spec (in_Nodes raw) (in_RiskPolicyRevision raw) (in_RiskDecisions raw)
    (in_RiskReviewAction raw) Hrev) as [Hex _].
  apply Hnot. unfold excluded_ids. apply elem_of_app. right. apply Hex. exists d.
  split; [done|]. split; [done|]. split; [done|]. split; [apply list_elem_of_fmap; by exists n|]. done.
Qed.

(** C2. A blocked node is not published: if a decision of the risk policy revision in force
    blocks a node, leaves it unknown, or asks for a review that the policy does not waive, no
    snapshot of that input refers to the node: not in the list of nodes that is rendered, not in
    its list of IDs, not in the direct or recursive node list of a group, and not as a member of
    one. *)
Theorem blocked_node_not_published `{GoText} `{RegexEngine} `{Sha256} `{Digests}
    (now later : time) (raw : ResolveInput) (snap : ResolvedPolicySnapshot) (d : RiskDecision) :
  in_RiskPolicyRevision raw ≠ "" → d ∈ in_RiskDecisions raw →
  dec_PolicyRevisionID d = in_RiskPolicyRevision raw →
  dec_Decision d = RiskActionBlock ∨ dec_Decision d = RiskActionUnknown ∨
    (dec_Decision d = RiskActionReview ∧ in_RiskReviewAction raw ≠ RiskActionAllow) →
  Resolve false now later raw = Some (Ok snap) →
  dec_NodeLogicalID d ∉ map rn_LogicalID (snap_Nodes snap) ∧
  dec_NodeLogicalID d ∉ snap_NodeLogicalIDs snap ∧
  ∀ rg, rg ∈ snap_Groups snap →
    dec_NodeLogicalID d ∉ rg_NodeLogicalIDs rg ++ rg_AllNodeLogicalIDs rg ∧
    ∀ m, m ∈ rg_Members rg → mem_Kind m = MemberKindNode → mem_TargetID m ≠ dec_NodeLogicalID d.
Proof.
  intros Hrev Hd Hdr Hdec Hr.
  pose proof (excluded_not_published now later raw snap d Hrev Hd Hdr Hdec Hr) as Hno.
  unfold shows_node in Hno. naive_solver.
Qed.

(** C3. Every node of the inventory is accounted for: a node ID is in the
    snapshot's sorted list of admitted IDs, which are the IDs of its nodes, if and only if a
    node with that ID was selected, and in its sorted, duplicate-free list of excluded IDs if
    and only if a node with that ID was not. *)
Theorem snapshot_accounts_for_every_node `{GoText} `{RegexEngine} `{Sha256} `{Digests}
    (now later : time) (raw : ResolveInput) (snap : ResolvedPolicySnapshot) :
  Resolve false now later raw = Some (Ok snap) →
  (∀ id, id ∈ snap_AdmittedNodeIDs snap ↔
     ∃ n, n ∈ in_Nodes raw ∧ node_LogicalID n = id ∧ selected now raw n) ∧
  (∀ id, id ∈ snap_ExcludedNodeIDs snap ↔
     ∃ n, n ∈ in_Nodes raw ∧ node_LogicalID n = id ∧ ¬ selected now raw n) ∧
  snap_AdmittedNodeIDs snap ≡ₚ map rn_LogicalID (snap_Nodes snap) ∧
  StronglySorted (not_after str_less) (snap_AdmittedNodeIDs snap) ∧
  StronglySorted (not_after str_less) (snap_ExcludedNodeIDs snap) ∧
  NoDup (snap_ExcludedNodeIDs snap).
Proof.
  intros (Hv & [-> _] & -> & -> & _)%resolve_parts.
  assert (∀ l, uniqueStrings (sort_strings l) = unique_adjacent (sort_strings l)) as Hu.
  { intros l. unfold uniqueStrings.
    destruct (Nat.ltb_spec (length (sort_strings l)) 2) as [Hlt|]; [|done].
    by destruct (sort_strings l) as [|? [|? ?]]; [..|simpl in Hlt; lia]. }
  rewrite Hu. split; [|split; [|split; [|split; [|split]]]].
  - intros id. rewrite elem_of_sort_strings, list_elem_of_fmap.
    setoid_rewrite global_nodes_selected. naive_solver.
  - intros id. rewrite elem_of_unique_adjacent, elem_of_sort_strings, elem_of_app.
    unfold global_nodes. destruct (global_filter_spec (normalize_input raw)
      (effective_asOf now raw) (res_AdmittedNodes (admission_result raw))) as (_ & _ & _ & ->).
    unfold admission_result. destruct (evaluateNodeAdmission_spec (in_Nodes raw)
      (in_AdmissionRules raw) (excluded_ids raw)) as (-> & _ & _ & _ & -> & _).
    rewrite list_elem_of_fmap. setoid_rewrite list_elem_of_filter.
    setoid_rewrite list_elem_of_filter. unfold selected.
    split.
    + intros [(n & ? & ? & ?)|(n & ? & ? & ? & ?)]; exists n; naive_solver.
    + intros (n & Hin & Hid & Hns).
      destruct (decide (admissible (excluded_ids raw)
        (sort_admission_rules (in_AdmissionRules raw)) n)); [right|left]; exists n; naive_solver.
  - by rewrite sort_strings_perm, sort_resolved_ids.
  - apply sort_strings_sorted.
  - apply unique_adjacent_sorted, sort_strings_sorted.
  - apply unique_adjacent_nodup, sort_strings_sorted.
Qed.

(** ** A concrete input *)

Definition sample_digests : Digests :=
  {| computeInputDigest := λ _, Ok "sha256:in"; computeSnapshotDigest := λ _, Ok "sha256:snap" |}.

Definition block_decision : RiskDecision :=
  {| dec_NodeLogicalID := node_LogicalID node_us; dec_PolicyRevisionID := "rev";
     dec_Decision := "block"; dec_ReasonCode := "score_band_high";
     dec_ObservationDigestSet := []; dec_EvaluatedAt := 1 |}%Z.

Definition sample_input : ResolveInput :=
  {| in_RevisionID := "r"; in_InventoryWatermark := ""; in_CompilerVersion := "";
     in_Nodes := sample_nodes; in_Groups := sample_groups; in_GroupSources := None;
     in_Edges := []; in_PolicyRules := sample_rules; in_AdmissionRules := [];
     in_DNS := {| dns_Enabled := false; dns_Nameservers := []; dns_Fallback := [] |};
     in_RiskPolicyRevision := "rev"; in_RiskDecisionDigest := ""; in_RiskEvaluatedAt := None;
     in_RiskReviewAction := ""; in_RiskDecisions := [block_decision];
     in_ExcludedNodeIDs := []; in_GlobalFilter := None; in_GroupFilters := [];
     in_NodeSources := ∅; in_LatestObservations := ∅; in_AsOf := 5 |}%Z.

Definition sample_snapshot :=
  @Resolve ascii_text witness_engine sample_sha sample_digests false 7%Z 8%Z sample_input.

Lemma sample_snapshot_nodes :
  match sample_snapshot with Some (Ok s) => Some (snap_NodeLogicalIDs s) | _ => None end =
  Some [node_LogicalID node_hk].
Proof. vm_compute. reflexivity. Qed.

Lemma snapshot_sound_witness :
  match sample_snapshot with
  | Some (Ok snap) => snap_NodeLogicalIDs snap = map rn_LogicalID (snap_Nodes snap)
  | _ => False
  end.
Proof.
  pose proof sample_snapshot_nodes as Hs.
  destruct sample_snapshot as [[snap|]|] eqn:Hres; [|done..].
  exact (proj1 (proj2 (proj2 (@snapshot_sound ascii_text witness_engine sample_sha sample_digests 7%Z 8%Z
    sample_input snap Hres)))).
Defined.

Lemma blocked_node_not_published_witness :
  match sample_snapshot with
  | Some (Ok snap) => node_LogicalID node_us ∉ map rn_LogicalID (snap_Nodes snap)
  | _ => False
  end.
Proof.
  pose proof sample_snapshot_nodes as Hs.
  destruct sample_snapshot as [[snap|]|] eqn:Hres; [|done..].
  assert (in_RiskPolicyRevision sample_input ≠ "") as Hrev by discriminate.
  exact (proj1 (@blocked_node_not_published ascii_text witness_engine sample_sha sample_digests 7%Z
    8%Z sample_input snap block_decision Hrev (list_elem_of_here _ _) eq_refl (or_introl eq_refl)
    Hres)).
Defined.

Lemma snapshot_accounts_for_every_node_witness :
  match sample_snapshot with
  | Some (Ok snap) => NoDup (snap_ExcludedNodeIDs snap)
  | _ => False
  end.
Proof.
  pose proof sample_snapshot_nodes as Hs.
  destruct sample_snapshot as [[snap|]|] eqn:Hres; [|done..].
  exact (proj2 (proj2 (proj2 (proj2 (proj2 (@snapshot_accounts_for_every_node ascii_text witness_engine sample_sha
    sample_digests 7%Z 8%Z sample_input snap Hres)))))).
Defined.
