(* ===== verification/Prune.v ===== *)
(** * Pruning of empty optional groups

    [internal/compiler/prune.go].  A Go map that is only looked up is a function
    of its key here; the sorted list of its keys is the sorted list of the set. *)

From S2P Require Import Prelude.
From S2P Require Import GoStrings.
From S2P Require Import Domain.
From S2P Require Import Lifecycle.
From S2P Require Import NodeFilter.
From S2P Require Import Policy.
From S2P Require Import Risk.
From S2P Require Import Admission.
From S2P Require Import Groups.
From S2P Require Import ResolveGroups.
From S2P Require Import Resolver.

Definition with_groups (snap : ResolvedPolicySnapshot) (groups : list ResolvedGroup)
    (diags : list Diagnostic) : ResolvedPolicySnapshot :=
  {| snap_InputDigest := snap_InputDigest snap; snap_SnapshotDigest := snap_SnapshotDigest snap;
     snap_RevisionID := snap_RevisionID snap;
     snap_InventoryWatermark := snap_InventoryWatermark snap;
     snap_CompilerVersion := snap_CompilerVersion snap; snap_Nodes := snap_Nodes snap;
     snap_NodeLogicalIDs := snap_NodeLogicalIDs snap; snap_Groups := groups;
     snap_Rules := snap_Rules snap; snap_DNS := snap_DNS snap; snap_Diagnostics := diags;
     snap_RiskPolicyRevision := snap_RiskPolicyRevision snap;
     snap_RiskDecisionDigest := snap_RiskDecisionDigest snap;
     snap_RiskEvaluatedAt := snap_RiskEvaluatedAt snap;
     snap_AdmittedNodeIDs := snap_AdmittedNodeIDs snap;
     snap_ExcludedNodeIDs := snap_ExcludedNodeIDs snap;
     snap_FilterCounts := snap_FilterCounts snap; snap_ResolvedAt := snap_ResolvedAt snap |}.

Definition with_members (g : ResolvedGroup) (ms : list ResolvedGroupMember) : ResolvedGroup :=
  {| rg_EmptyFallbackPass := rg_EmptyFallbackPass g;
     rg_EffectiveEmptyPass := rg_EffectiveEmptyPass g; rg_ID := rg_ID g; rg_Name := rg_Name g;
     rg_GroupType := rg_GroupType g; rg_Members := ms; rg_ChildGroupIDs := rg_ChildGroupIDs g;
     rg_NodeLogicalIDs := rg_NodeLogicalIDs g; rg_AllNodeLogicalIDs := rg_AllNodeLogicalIDs g;
     rg_ExpandedNodeIDs := rg_ExpandedNodeIDs g; rg_Sources := rg_Sources g;
     rg_Position := rg_Position g |}.

(** ** One pass *)

(** The trimmed text, if it is not empty, equals [key]. *)
Definition names (text key : string) : bool :=
  let t := TrimSpace text in negb (String.eqb t "") && String.eqb t key.

Definition ruleTargetGroupIDs (snap : ResolvedPolicySnapshot) (id : string) : bool :=
  existsb (λ r, names (rr_TargetGroupID r) id) (snap_Rules snap).
Definition ruleTargetGroupNames (snap : ResolvedPolicySnapshot) (name : string) : bool :=
  existsb (λ r, names (rr_TargetGroupName r) name) (snap_Rules snap).

Definition is_group_member (m : ResolvedGroupMember) : bool :=
  String.eqb (mem_Kind m) MemberKindGroup || String.eqb (mem_Kind m) "".

(** [parentRefs[key]]: the groups with a member of that ID or name, once per
    mention. *)
Definition parentRefs (groups : list ResolvedGroup) (key : string) : list ResolvedGroup :=
  flat_map (λ g,
    flat_map (λ m,
      if is_group_member m then
        (if names (mem_TargetID m) key then [g] else []) ++
        (if names (mem_DisplayName m) key then [g] else [])
      else []) (rg_Members g)) groups.

Definition all_parents (groups : list ResolvedGroup) (g : ResolvedGroup) : list ResolvedGroup :=
  fold_left (λ acc p, if existsb (λ ep, String.eqb (rg_ID ep) (rg_ID p)) acc then acc
                      else acc ++ [p])
    (parentRefs groups (rg_Name g)) (parentRefs groups (rg_ID g)).

Definition refers_to (m : ResolvedGroupMember) (g : ResolvedGroup) : bool :=
  names (mem_TargetID m) (rg_ID g) || names (mem_DisplayName m) (rg_Name g).

Definition remainingMembers (parent g : ResolvedGroup) : nat :=
  length (List.filter (λ m, negb (refers_to m g)) (rg_Members parent)).

(** The parent can do without [g]. *)
Definition parent_allows (g parent : ResolvedGroup) : bool :=
  String.eqb (rg_GroupType parent) GroupTypeSelect && negb (remainingMembers parent g =? 0).

Definition can_prune (snap : ResolvedPolicySnapshot) (g : ResolvedGroup) : bool :=
  negb (UsesEmptyPass g || (0 <? length (rg_Members g))) &&
  negb (ruleTargetGroupIDs snap (rg_ID g) || ruleTargetGroupNames snap (rg_Name g)) &&
  forallb (parent_allows g) (all_parents (snap_Groups snap) g).

Definition join (sep : string) (l : list string) : string :=
  match l with
  | [] => ""
  | s :: l => fold_left (λ acc x, acc +:+ sep +:+ x) l s
  end.

Definition prune_message (snap : ResolvedPolicySnapshot) (g : ResolvedGroup) : string :=
  let parentNames := sort_strings (elements
    (list_to_set (map rg_Name (all_parents (snap_Groups snap) g)) : gset string)) in
  if 0 <? length parentNames then
    "WARP暂不可用，本次备选移除，用户设置保留 (group " +:+ rg_Name g +:+ " pruned from " +:+
    itoa (Z.of_nat (length parentNames)) +:+ " selector references: " +:+
    join ", " parentNames +:+ "; reason: disabled-source)"
  else
    "group " +:+ rg_Name g +:+ " is unused and has 0 active members; safely omitted from " +:+
    "rendered configuration (reason: unused-empty)".

Definition prune_diagnostic (snap : ResolvedPolicySnapshot) (g : ResolvedGroup) : Diagnostic :=
  {| diag_Severity := DiagnosticSeverityWarning; diag_Code := "optional_group_pruned";
     diag_Message := prune_message snap g; diag_Target := rg_Name g;
     diag_Reason := "disabled-source" |}.

Definition prunable (snap : ResolvedPolicySnapshot) : list ResolvedGroup :=
  List.filter (can_prune snap) (snap_Groups snap).
Definition pruneGroupIDs (snap : ResolvedPolicySnapshot) : list string :=
  List.filter (λ s, negb (String.eqb s "")) (map rg_ID (prunable snap)).
Definition pruneGroupNames (snap : ResolvedPolicySnapshot) : list string :=
  List.filter (λ s, negb (String.eqb s "")) (map rg_Name (prunable snap)).

Definition group_pruned (ids names : list string) (g : ResolvedGroup) : bool :=
  mem_str (rg_ID g) ids || mem_str (rg_Name g) names.

Definition member_pruned (ids nms : list string) (m : ResolvedGroupMember) : bool :=
  let mID := TrimSpace (mem_TargetID m) in
  let mName := TrimSpace (mem_DisplayName m) in
  (negb (String.eqb mID "") && mem_str mID ids) ||
  (negb (String.eqb mName "") && mem_str mName nms).

Definition kept_groups (ids nms : list string) (groups : list ResolvedGroup)
    : list ResolvedGroup :=
  map (λ g, with_members g (List.filter (λ m, negb (member_pruned ids nms m)) (rg_Members g)))
    (List.filter (λ g, negb (group_pruned ids nms g)) groups).

Definition pruneOnePass (snap : ResolvedPolicySnapshot)
    : ResolvedPolicySnapshot * list Diagnostic * bool :=
  let ids := pruneGroupIDs snap in
  let nms := pruneGroupNames snap in
  let diagnostics := map (prune_diagnostic snap) (prunable snap) in
  if (length ids =? 0) && (length nms =? 0) then (snap, [], false)
  else (with_groups snap (kept_groups ids nms (snap_Groups snap))
          (snap_Diagnostics snap ++ diagnostics), diagnostics, true).

(** ** All passes *)

Fixpoint prune_rounds (rounds : nat) (snap : ResolvedPolicySnapshot) (all : list Diagnostic)
    : ResolvedPolicySnapshot * list Diagnostic :=
  match rounds with
  | O => (snap, all)
  | S rounds =>
      let '(pruned, diags, changed) := pruneOnePass snap in
      if negb changed then (snap, all) else prune_rounds rounds pruned (all ++ diags)
  end.

Definition PruneUnavailableOptionalGroups (snap : ResolvedPolicySnapshot)
    : ResolvedPolicySnapshot * list Diagnostic :=
  let '(curr, all) := prune_rounds (length (snap_Groups snap) + 1) snap [] in
  if length all =? 0 then (snap, []) else (curr, all).

(** ** Properties *)

Section PruneLemmas.
Lemma filter_length_lt {A} (f : A → bool) l x :
  x ∈ l → f x = false → length (List.filter f l) < length l.
Proof.
  intros Hx Hf. induction l as [|y l IH]; [by apply elem_of_nil in Hx|]. simpl.
  apply elem_of_cons in Hx as [<-|Hx].
  - rewrite Hf. pose proof (List.filter_length_le f l). lia.
  - specialize (IH Hx). destruct (f y); simpl; lia.
Qed.

Lemma elem_of_list_filter {A} (f : A → bool) l x :
  x ∈ List.filter f l ↔ f x = true ∧ x ∈ l.
Proof. rewrite !list_elem_of_In, filter_In. tauto. Qed.

Lemma pruned_id snap x :
  x ∈ pruneGroupIDs snap ↔ x ≠ "" ∧ ∃ g, g ∈ snap_Groups snap ∧ can_prune snap g = true ∧ rg_ID g = x.
Proof.
  unfold pruneGroupIDs, prunable. rewrite elem_of_list_filter, negb_true_iff, String.eqb_neq.
  rewrite list_elem_of_fmap. setoid_rewrite elem_of_list_filter. naive_solver.
Qed.

Lemma pruned_name snap x :
  x ∈ pruneGroupNames snap ↔
  x ≠ "" ∧ ∃ g, g ∈ snap_Groups snap ∧ can_prune snap g = true ∧ rg_Name g = x.
Proof.
  unfold pruneGroupNames, prunable. rewrite elem_of_list_filter, negb_true_iff, String.eqb_neq.
  rewrite list_elem_of_fmap. setoid_rewrite elem_of_list_filter. naive_solver.
Qed.

Lemma group_pruned_true ids nms g :
  group_pruned ids nms g = true ↔ rg_ID g ∈ ids ∨ rg_Name g ∈ nms.
Proof. unfold group_pruned. by rewrite orb_true_iff, !mem_str_spec. Qed.

(** A pass that changes something removes a group and says so. *)
Lemma pass_progress snap pruned diags :
  pruneOnePass snap = (pruned, diags, true) →
  length (snap_Groups pruned) < length (snap_Groups snap) ∧ diags ≠ [].
Proof.
  unfold pruneOnePass. destruct (_ && _) eqn:Hlen; [done|]. intros [= <- <-]. simpl.
  assert (∃ g, g ∈ snap_Groups snap ∧ can_prune snap g = true ∧
    group_pruned (pruneGroupIDs snap) (pruneGroupNames snap) g = true) as (g & Hg & Hc & Hp).
  { apply andb_false_iff in Hlen as [Hlen|Hlen]; apply Nat.eqb_neq in Hlen.
    - destruct (pruneGroupIDs snap) as [|x l] eqn:Hids; [done|].
      assert (x ∈ pruneGroupIDs snap) as Hx by (rewrite Hids; set_solver).
      pose proof Hx as (_ & g & Hg & Hc & <-)%pruned_id. exists g. split; [done|]. split; [done|].
      apply group_pruned_true. left. by rewrite <- Hids.
    - destruct (pruneGroupNames snap) as [|x l] eqn:Hids; [done|].
      assert (x ∈ pruneGroupNames snap) as Hx by (rewrite Hids; set_solver).
      pose proof Hx as (_ & g & Hg & Hc & <-)%pruned_name. exists g. split; [done|]. split; [done|].
      apply group_pruned_true. right. by rewrite <- Hids. }
  split.
  - unfold kept_groups. rewrite length_map. eapply filter_length_lt; [done|]. by rewrite Hp.
  - assert (g ∈ prunable snap) as Hin by (by apply elem_of_list_filter).
    by destruct (prunable snap); [apply elem_of_nil in Hin|].
Qed.

Lemma pass_unchanged snap pruned diags :
  pruneOnePass snap = (pruned, diags, false) → pruned = snap ∧ diags = [].
Proof. unfold pruneOnePass. destruct (_ && _); [|done]. by intros [= <- <-]. Qed.

(** An invariant of passes is one of all rounds. *)
Lemma prune_rounds_ind (P : ResolvedPolicySnapshot → Prop) n snap all :
  (∀ s s' d, P s → pruneOnePass s = (s', d, true) → P s') →
  P snap → P (fst (prune_rounds n snap all)).
Proof.
  intros Hstep. revert snap all. induction n as [|n IH]; intros snap all HP; simpl; [done|].
  destruct (pruneOnePass snap) as [[s' d] [|]] eqn:Hp; simpl; [|done]. apply IH. by eapply Hstep.
Qed.

Lemma prune_rounds_done n snap all :
  length (snap_Groups snap) < n →
  snd (pruneOnePass (fst (prune_rounds n snap all))) = false ∧
  (snd (prune_rounds n snap all) = [] → all = [] ∧ snd (pruneOnePass snap) = false).
Proof.
  revert snap all. induction n as [|n IH]; intros snap all Hn; [lia|]. simpl.
  destruct (pruneOnePass snap) as [[s' d] [|]] eqn:Hp; simpl.
  - apply pass_progress in Hp as [Hlt Hd]. destruct (IH s' (all ++ d)) as [H1 H2]; [lia|].
    split; [done|]. intros Hnil. destruct (H2 Hnil) as [Happ _].
    by apply app_nil in Happ as [_ ?].
  - rewrite Hp. by split.
Qed.

Lemma prune_ind (P : ResolvedPolicySnapshot → Prop) snap :
  (∀ s s' d, P s → pruneOnePass s = (s', d, true) → P s') →
  P snap → P (fst (PruneUnavailableOptionalGroups snap)).
Proof.
  intros Hstep HP. unfold PruneUnavailableOptionalGroups.
  pose proof (prune_rounds_ind P (length (snap_Groups snap) + 1) snap [] Hstep HP) as Hr.
  destruct (prune_rounds _ _ _) as [curr all]. by destruct (length all =? 0).
Qed.

(** What a pass leaves of the groups. *)
Lemma pass_groups s s' d :
  pruneOnePass s = (s', d, true) →
  snap_Rules s' = snap_Rules s ∧
  ∀ g', g' ∈ snap_Groups s' ↔ ∃ g, g ∈ snap_Groups s ∧
    group_pruned (pruneGroupIDs s) (pruneGroupNames s) g = false ∧
    g' = with_members g (List.filter
      (λ m, negb (member_pruned (pruneGroupIDs s) (pruneGroupNames s) m)) (rg_Members g)).
Proof.
  unfold pruneOnePass. destruct (_ && _); [done|]. intros [= <- _]. simpl. split; [done|].
  intros g'. unfold kept_groups. rewrite list_elem_of_fmap. setoid_rewrite elem_of_list_filter.
  setoid_rewrite negb_true_iff. naive_solver.
Qed.
End PruneLemmas.

(** Pruning runs to a fixed point: the bound on the number of passes is always
    enough, so that nothing that a further pass would prune is left. *)
Theorem prune_reaches_fixpoint (snap : ResolvedPolicySnapshot) :
  pruneOnePass (fst (PruneUnavailableOptionalGroups snap)) =
    (fst (PruneUnavailableOptionalGroups snap), [], false).
Proof.
  assert (snd (pruneOnePass (fst (PruneUnavailableOptionalGroups snap))) = false) as Hd.
  { unfold PruneUnavailableOptionalGroups.
    destruct (prune_rounds_done (length (snap_Groups snap) + 1) snap []) as [H1 H2]; [lia|].
    destruct (prune_rounds _ _ _) as [curr all]. simpl in *.
    destruct (Nat.eqb_spec (length all) 0) as [Hz|]; simpl; [|done].
    apply nil_length_inv in Hz. by apply H2. }
  set (s := fst _) in *. destruct (pruneOnePass s) as [[s' d] c] eqn:Hp. simpl in Hd. subst c.
  by apply pass_unchanged in Hp as [-> ->].
Qed.

(** A group that a rule routes to (by the ID and the name the rule carries) is
    never pruned, even when it is empty: it is in the result under the same ID
    and name, so that validation can still reject it. *)
Theorem prune_keeps_rule_targets (snap : ResolvedPolicySnapshot) (g : ResolvedGroup) :
  g ∈ snap_Groups snap → ruleTargetGroupIDs snap (rg_ID g) = true →
  ruleTargetGroupNames snap (rg_Name g) = true →
  ∃ g', g' ∈ snap_Groups (fst (PruneUnavailableOptionalGroups snap)) ∧
    rg_ID g' = rg_ID g ∧ rg_Name g' = rg_Name g ∧ rg_GroupType g' = rg_GroupType g.
Proof.
  intros Hg Hid Hname.
  set (P := λ s, snap_Rules s = snap_Rules snap ∧
    ∃ g', g' ∈ snap_Groups s ∧ rg_ID g' = rg_ID g ∧ rg_Name g' = rg_Name g ∧
      rg_GroupType g' = rg_GroupType g).
  assert (P (fst (PruneUnavailableOptionalGroups snap))) as [_ HP]; [|done].
  apply prune_ind; [|by split; [|exists g]].
  intros s s' d (Hr & g' & Hg' & Hid' & Hn' & Ht') Hp. apply pass_groups in Hp as [Hr' Hgs].
  split; [congruence|].
  assert (∀ x, can_prune s x = true → rg_ID x ≠ rg_ID g ∧ rg_Name x ≠ rg_Name g) as Hnot.
  { intros x Hx. unfold can_prune in Hx. rewrite !andb_true_iff, !negb_true_iff, orb_false_iff in Hx.
    destruct Hx as [[_ Hx] _]. apply orb_false_iff in Hx as [Hx1 Hx2].
    unfold ruleTargetGroupIDs, ruleTargetGroupNames in *. rewrite Hr in Hx1, Hx2.
    split; intros Heq; [rewrite Heq in Hx1|rewrite Heq in Hx2]; congruence. }
  eexists. split; [apply Hgs; exists g'; split; [done|]; split; [|done]|done].
  apply not_true_is_false. rewrite group_pruned_true, pruned_id, pruned_name.
  intros [(_ & x & _ & Hx & Hxid)|(_ & x & _ & Hx & Hxn)]; apply Hnot in Hx as [? ?]; congruence.
Qed.

(** The groups of a snapshot have clean, non-empty IDs and names. *)
Definition tidy (snap : ResolvedPolicySnapshot) : Prop :=
  ∀ g, g ∈ snap_Groups snap → rg_ID g ≠ "" ∧ rg_Name g ≠ "" ∧
    TrimSpace (rg_ID g) = rg_ID g ∧ TrimSpace (rg_Name g) = rg_Name g.

(** Every group member names a group of the snapshot by its ID and name. *)
Definition references_closed (snap : ResolvedPolicySnapshot) : Prop :=
  ∀ g m, g ∈ snap_Groups snap → m ∈ rg_Members g → mem_Kind m = MemberKindGroup →
    ∃ t, t ∈ snap_Groups snap ∧ rg_ID t = mem_TargetID m ∧ rg_Name t = mem_DisplayName m.

(** Pruning leaves no dangling references: if every group member of the
    snapshot names an existing group, the same holds after pruning, because a
    reference disappears together with the group it names. *)
Theorem prune_keeps_references_closed (snap : ResolvedPolicySnapshot) :
  tidy snap → references_closed snap →
  references_closed (fst (PruneUnavailableOptionalGroups snap)).
Proof.
  intros Ht Hc.
  assert ((λ s, tidy s ∧ references_closed s) (fst (PruneUnavailableOptionalGroups snap))) as [_ ?];
    [|done].
  apply prune_ind; [|done]. clear. intros s s' d [Ht Hc] Hp. apply pass_groups in Hp as [_ Hgs].
  split.
  - intros g' (g & Hg & _ & ->)%Hgs. exact (Ht g Hg).
  - intros g' m (g & Hg & _ & ->)%Hgs Hm Hk. simpl in Hm.
    apply elem_of_list_filter in Hm as [Hmp Hm]. apply negb_true_iff in Hmp.
    destruct (Hc g m Hg Hm Hk) as (t & Htin & Hid & Hname).
    destruct (Ht t Htin) as (Hid0 & Hn0 & Htid & Htn).
    unfold member_pruned in Hmp. rewrite <- Hid, <- Hname, Htid, Htn in Hmp.
    rewrite (proj2 (String.eqb_neq _ _) Hid0), (proj2 (String.eqb_neq _ _) Hn0) in Hmp. simpl in Hmp.
    eexists. split; [apply Hgs; exists t; split; [done|]; split; [exact Hmp|done]|]. by split.
Qed.

(** ** Concrete snapshots *)

Definition plain_group (id name type : string) (members : list ResolvedGroupMember)
    : ResolvedGroup :=
  {| rg_EmptyFallbackPass := false; rg_EffectiveEmptyPass := false; rg_ID := id; rg_Name := name;
     rg_GroupType := type; rg_Members := members; rg_ChildGroupIDs := map mem_TargetID members;
     rg_NodeLogicalIDs := []; rg_AllNodeLogicalIDs := []; rg_ExpandedNodeIDs := [];
     rg_Sources := []; rg_Position := 0 |}.
Definition group_member (id name : string) (pos : nat) : ResolvedGroupMember :=
  {| mem_Kind := "group"; mem_TargetID := id; mem_DisplayName := name; mem_Position := pos |}.
Definition snapshot_of (groups : list ResolvedGroup) (rules : list ResolvedRule)
    : ResolvedPolicySnapshot :=
  {| snap_InputDigest := ""; snap_SnapshotDigest := ""; snap_RevisionID := "";
     snap_InventoryWatermark := ""; snap_CompilerVersion := ""; snap_Nodes := [];
     snap_NodeLogicalIDs := []; snap_Groups := groups; snap_Rules := rules;
     snap_DNS := {| dns_Enabled := false; dns_Nameservers := []; dns_Fallback := [] |};
     snap_Diagnostics := []; snap_RiskPolicyRevision := ""; snap_RiskDecisionDigest := "";
     snap_RiskEvaluatedAt := None; snap_AdmittedNodeIDs := []; snap_ExcludedNodeIDs := [];
     snap_FilterCounts := {| flc_RawTotal := 0; flc_AdmittedTotal := 0;
       flc_GlobalFilteredTotal := 0; flc_GroupFilteredTotal := 0; flc_GroupCounts := ∅ |};
     snap_ResolvedAt := 0%Z |}.

(** A selector with two empty groups as its only members, targeted by a rule. *)
Definition siblings : ResolvedPolicySnapshot :=
  snapshot_of
    [plain_group "p" "Proxy" "select" [group_member "a" "A" 0; group_member "b" "B" 1];
     plain_group "a" "A" "select" []; plain_group "b" "B" "select" []]
    [{| rr_ID := "r"; rr_TargetGroupID := "p"; rr_TargetGroupName := "Proxy";
        rr_Expression := "MATCH"; rr_Position := 0%Z; rr_IsTerminal := true |}].

(** Removing a group can leave its parent empty after all: the check looks at
    one empty group at a time, so when all members of a selector are empty
    groups they are pruned together and the selector is left with no members. *)
Theorem prune_can_empty_a_parent :
  map (λ g, (rg_Name g, rg_Members g))
    (snap_Groups (fst (PruneUnavailableOptionalGroups siblings))) = [("Proxy", [])].
Proof. vm_compute. reflexivity. Qed.

Lemma prune_keeps_rule_targets_witness :
  ∃ g', g' ∈ snap_Groups (fst (PruneUnavailableOptionalGroups siblings)) ∧ rg_ID g' = "p".
Proof.
  destruct (prune_keeps_rule_targets siblings
    (plain_group "p" "Proxy" "select" [group_member "a" "A" 0; group_member "b" "B" 1])
    ltac:(apply list_elem_of_here) ltac:(vm_compute; reflexivity) ltac:(vm_compute; reflexivity))
    as (g' & Hg' & Hid & _).
  exists g'. split; [exact Hg'|exact Hid].
Defined.

Lemma prune_keeps_references_closed_witness :
  references_closed (fst (PruneUnavailableOptionalGroups siblings)).
Proof.
  apply (prune_keeps_references_closed siblings).
  - intros g Hg. unfold siblings, snapshot_of in Hg. simpl in Hg.
    rewrite !elem_of_cons, elem_of_nil in Hg. destruct Hg as [->|[->|[->|[]]]]; repeat split; done.
  - intros g m Hg Hm _. unfold siblings, snapshot_of in *. simpl in *.
    rewrite !elem_of_cons, elem_of_nil in Hg. destruct Hg as [->|[->|[->|[]]]]; simpl in Hm;
      rewrite ?elem_of_cons, ?elem_of_nil in Hm; [|done..].
    destruct Hm as [->|[->|[]]]; eexists.
    + split; [apply list_elem_of_further, list_elem_of_here|]. repeat split.
    + split; [apply list_elem_of_further, list_elem_of_further, list_elem_of_here|]. repeat split.
Defined.
