(* ===== verification/MihomoDocument.v ===== *)
(** * The document of the Mihomo target

    The structs of [internal/compiler/mihomo.go] that [yaml.Marshal] turns into text.  A
    field that is left out when empty holds the empty value; a nil map is an empty one; a
    decoded JSON object has the text of each value. *)

From S2P Require Import Prelude.

Record mihomoWSOpts : Type := { ws_Path : string; ws_Headers : gmap string string }.
Record mihomoGRPCOpts : Type := { gr_GRPCServiceName : string }.
Record mihomoRealityOpts : Type := { re_PublicKey : string; re_ShortID : string }.
Record mihomoXHTTPOpts : Type := {
  xh_Path : string; xh_Host : string; xh_Mode : string; xh_Headers : gmap string string
}.

Record mihomoHysteria2Proxy : Type := {
  hy_Name : string; hy_Type : string; hy_Server : string; hy_Port : Z; hy_Ports : string;
  hy_Password : string; hy_SNI : string; hy_SkipCertVerify : bool; hy_ALPN : list string;
  hy_Up : string; hy_Down : string; hy_Obfs : string; hy_ObfsPassword : string
}.
Record mihomoSSProxy : Type := {
  ss_Name : string; ss_Type : string; ss_Server : string; ss_Port : Z; ss_Cipher : string;
  ss_Password : string; ss_Plugin : string; ss_PluginOpts : gmap string string
}.
Record mihomoVMessProxy : Type := {
  vm_Name : string; vm_Type : string; vm_Server : string; vm_Port : Z; vm_UUID : string;
  vm_AlterID : Z; vm_Cipher : string; vm_Network : string; vm_TLS : bool; vm_Servername : string;
  vm_SkipCertVerify : bool; vm_ALPN : list string; vm_ClientFingerprint : string;
  vm_WSOpts : option mihomoWSOpts; vm_GRPCOpts : option mihomoGRPCOpts
}.
(** [XHTTPOpts any]: nothing, a decoded object, or the struct. *)
Inductive xhttp_opts : Type :=
  | XHTTPNone
  | XHTTPObject (m : gmap string string)
  | XHTTPStruct (o : mihomoXHTTPOpts).
Record mihomoVLESSProxy : Type := {
  vl_Name : string; vl_Type : string; vl_Server : string; vl_Port : Z; vl_UUID : string;
  vl_Network : string; vl_TLS : bool; vl_Servername : string; vl_SkipCertVerify : bool;
  vl_ALPN : list string; vl_Flow : string; vl_ClientFingerprint : string;
  vl_RealityOpts : option mihomoRealityOpts; vl_ECHOpts : gmap string string;
  vl_WSOpts : option mihomoWSOpts; vl_GRPCOpts : option mihomoGRPCOpts; vl_XHTTPOpts : xhttp_opts
}.
Record mihomoHTTPProxy : Type := {
  ht_Name : string; ht_Type : string; ht_Server : string; ht_Port : Z; ht_Username : string;
  ht_Password : string; ht_TLS : bool; ht_SNI : string; ht_SkipCertVerify : bool;
  ht_Headers : gmap string string
}.
Record mihomoSocks5Proxy : Type := {
  sk_Name : string; sk_Type : string; sk_Server : string; sk_Port : Z; sk_Username : string;
  sk_Password : string; sk_TLS : bool; sk_SNI : string; sk_SkipCertVerify : bool; sk_UDP : bool
}.
Record mihomoAnyTLSProxy : Type := {
  at_Name : string; at_Type : string; at_Server : string; at_Port : Z; at_Password : string;
  at_SNI : string; at_ALPN : list string; at_ClientFingerprint : string; at_SkipCertVerify : bool;
  at_UDP : bool; at_ECHOpts : gmap string string; at_IdleSessionCheckInterval : Z;
  at_IdleSessionTimeout : Z; at_MinIdleSession : Z; at_DisableReuse : bool
}.
Record mihomoTrojanProxy : Type := {
  tr_Name : string; tr_Type : string; tr_Server : string; tr_Port : Z; tr_Password : string;
  tr_Network : string; tr_SNI : string; tr_SkipCertVerify : bool; tr_ALPN : list string;
  tr_ClientFingerprint : string; tr_WSOpts : option mihomoWSOpts; tr_GRPCOpts : option mihomoGRPCOpts
}.
Record mihomoWireGuardProxy : Type := {
  wg_Name : string; wg_Type : string; wg_Server : string; wg_Port : Z; wg_IP : string;
  wg_IPv6 : string; wg_PrivateKey : string; wg_PublicKey : string; wg_PreSharedKey : string;
  wg_Reserved : list Z; wg_MTU : Z; wg_DNS : list string; wg_RemoteDNSResolve : bool; wg_UDP : bool
}.
Record mihomoTUICProxy : Type := {
  tu_Name : string; tu_Type : string; tu_Server : string; tu_Port : Z; tu_UUID : string;
  tu_Password : string; tu_CongestionController : string; tu_UDPRelayMode : string;
  tu_ALPN : list string; tu_SNI : string; tu_DisableSNI : bool; tu_SkipCertVerify : bool
}.

(** An element of [Proxies []any]. *)
Inductive mihomoProxy : Type :=
  | Hysteria2Proxy (p : mihomoHysteria2Proxy)
  | SSProxy (p : mihomoSSProxy)
  | VMessProxy (p : mihomoVMessProxy)
  | VLESSProxy (p : mihomoVLESSProxy)
  | HTTPProxy (p : mihomoHTTPProxy)
  | Socks5Proxy (p : mihomoSocks5Proxy)
  | AnyTLSProxy (p : mihomoAnyTLSProxy)
  | TrojanProxy (p : mihomoTrojanProxy)
  | WireGuardProxy (p : mihomoWireGuardProxy)
  | TUICProxy (p : mihomoTUICProxy).

(** The fields [name], [type], [server] and [port] that every proxy has. *)
Definition proxy_head (p : mihomoProxy) : string * string * string * Z :=
  match p with
  | Hysteria2Proxy p => (hy_Name p, hy_Type p, hy_Server p, hy_Port p)
  | SSProxy p => (ss_Name p, ss_Type p, ss_Server p, ss_Port p)
  | VMessProxy p => (vm_Name p, vm_Type p, vm_Server p, vm_Port p)
  | VLESSProxy p => (vl_Name p, vl_Type p, vl_Server p, vl_Port p)
  | HTTPProxy p => (ht_Name p, ht_Type p, ht_Server p, ht_Port p)
  | Socks5Proxy p => (sk_Name p, sk_Type p, sk_Server p, sk_Port p)
  | AnyTLSProxy p => (at_Name p, at_Type p, at_Server p, at_Port p)
  | TrojanProxy p => (tr_Name p, tr_Type p, tr_Server p, tr_Port p)
  | WireGuardProxy p => (wg_Name p, wg_Type p, wg_Server p, wg_Port p)
  | TUICProxy p => (tu_Name p, tu_Type p, tu_Server p, tu_Port p)
  end.
Definition proxy_name (p : mihomoProxy) : string := (proxy_head p).1.1.1.

Record mihomoGroup : Type := {
  mg_EmptyFallback : string;
  mg_Name : string;
  mg_Type : string;
  mg_Proxies : list string;
  mg_URL : string;
  mg_Interval : Z;
  mg_Tolerance : Z;
  mg_Strategy : string
}.

Record mihomoRuleProvider : Type := {
  mp_Type : string; mp_Behavior : string; mp_URL : string; mp_Interval : Z
}.

Record mihomoConfig : Type := {
  mc_Proxies : list mihomoProxy;
  mc_ProxyGroups : list mihomoGroup;
  mc_RuleProviders : gmap string mihomoRuleProvider;
  mc_Rules : list string
}.
