(* ===== verification/SingBoxDocument.v ===== *)
(** * The options of sing-box

    What [internal/probe/singbox] and [internal/compiler/singbox.go] write of the option types
    of [github.com/sagernet/sing-box/option]: the fields that the source sets, a constructor
    for each type of outbound, endpoint and transport, and [None] for a nil pointer. *)

From S2P Require Import Prelude.

(** [netip.Prefix]: the text of it, its address and its family. *)
Record Prefix : Type := { pfx_Is4 : bool; pfx_Addr : string; pfx_String : string }.

Record OutboundUTLSOptions : Type := { utls_Enabled : bool; utls_Fingerprint : string }.
Record OutboundRealityOptions : Type := {
  rlt_Enabled : bool; rlt_PublicKey : string; rlt_ShortID : string
}.
Record OutboundTLSOptions : Type := {
  tls_Enabled : bool;
  tls_DisableSNI : bool;
  tls_ServerName : string;
  tls_Insecure : bool;
  tls_ALPN : list string;
  tls_UTLS : option OutboundUTLSOptions;
  tls_Reality : option OutboundRealityOptions
}.

(** [badoption.HTTPHeader] *)
Definition HTTPHeader : Type := gmap string (list string).

Inductive V2RayTransportOptions : Type :=
  | V2RayHTTP (host : list string) (path : string) (headers : HTTPHeader)
  | V2RayHTTPUpgrade (host path : string) (headers : HTTPHeader)
  | V2RayWebsocket (path : string) (headers : HTTPHeader)
  | V2RayGRPC (serviceName : string).

Record ServerOptions : Type := { so_Server : string; so_ServerPort : Z }.

Record ShadowsocksOutboundOptions : Type := {
  sso_Server : ServerOptions; sso_Method : string; sso_Password : string; sso_Network : string
}.
Record VMessOutboundOptions : Type := {
  vmo_Server : ServerOptions; vmo_UUID : string; vmo_Security : string; vmo_AlterId : Z;
  vmo_Network : string; vmo_TLS : option OutboundTLSOptions;
  vmo_Transport : option V2RayTransportOptions
}.
Record VLESSOutboundOptions : Type := {
  vlo_Server : ServerOptions; vlo_UUID : string; vlo_Flow : string; vlo_Network : string;
  vlo_TLS : option OutboundTLSOptions; vlo_Transport : option V2RayTransportOptions
}.
Record TrojanOutboundOptions : Type := {
  tro_Server : ServerOptions; tro_Password : string; tro_Network : string;
  tro_TLS : option OutboundTLSOptions; tro_Transport : option V2RayTransportOptions
}.
Record Hysteria2Obfs : Type := { obf_Type : string; obf_Password : string }.
Record Hysteria2OutboundOptions : Type := {
  hyo_Server : ServerOptions; hyo_ServerPorts : list string; hyo_UpMbps : Z; hyo_DownMbps : Z;
  hyo_Obfs : option Hysteria2Obfs; hyo_Password : string; hyo_Network : string;
  hyo_TLS : option OutboundTLSOptions
}.
Record TUICOutboundOptions : Type := {
  tuo_Server : ServerOptions; tuo_UUID : string; tuo_Password : string;
  tuo_CongestionControl : string; tuo_UDPRelayMode : string; tuo_Network : string;
  tuo_TLS : option OutboundTLSOptions
}.
Record SOCKSOutboundOptions : Type := {
  sko_Server : ServerOptions; sko_Version : string; sko_Username : string; sko_Password : string;
  sko_Network : string
}.
Record HTTPOutboundOptions : Type := {
  hto_Server : ServerOptions; hto_Username : string; hto_Password : string
}.

(** [Type] and [Options] of an [option.Outbound]. *)
Inductive OutboundOptions : Type :=
  | ShadowsocksOutbound (o : ShadowsocksOutboundOptions)
  | VMessOutbound (o : VMessOutboundOptions)
  | VLESSOutbound (o : VLESSOutboundOptions)
  | TrojanOutbound (o : TrojanOutboundOptions)
  | Hysteria2Outbound (o : Hysteria2OutboundOptions)
  | TUICOutbound (o : TUICOutboundOptions)
  | SOCKSOutbound (o : SOCKSOutboundOptions)
  | HTTPOutbound (o : HTTPOutboundOptions).
Record Outbound : Type := { ob_Tag : string; ob_Options : OutboundOptions }.

Record WireGuardPeer : Type := {
  wp_Address : string; wp_Port : Z; wp_PublicKey : string; wp_PreSharedKey : string;
  wp_AllowedIPs : list Prefix; wp_Reserved : list Z
}.
Record WireGuardEndpointOptions : Type := {
  we_PrivateKey : string; we_Address : list Prefix; we_MTU : Z; we_Peers : list WireGuardPeer
}.
(** [option.Endpoint], always of the WireGuard type here. *)
Record Endpoint : Type := { ep_Tag : string; ep_Options : WireGuardEndpointOptions }.

(** [op_Log] is [Disabled] of the log options, [op_Route] is [Final] of the route options. *)
Record Options : Type := {
  op_Log : option bool;
  op_Route : option string;
  op_Endpoints : list Endpoint;
  op_Outbounds : list Outbound
}.

(** ** What every outbound has *)

Definition outbound_server (o : OutboundOptions) : ServerOptions :=
  match o with
  | ShadowsocksOutbound o => sso_Server o
  | VMessOutbound o => vmo_Server o
  | VLESSOutbound o => vlo_Server o
  | TrojanOutbound o => tro_Server o
  | Hysteria2Outbound o => hyo_Server o
  | TUICOutbound o => tuo_Server o
  | SOCKSOutbound o => sko_Server o
  | HTTPOutbound o => hto_Server o
  end.

Definition outbound_tls (o : OutboundOptions) : option OutboundTLSOptions :=
  match o with
  | VMessOutbound o => vmo_TLS o
  | VLESSOutbound o => vlo_TLS o
  | TrojanOutbound o => tro_TLS o
  | Hysteria2Outbound o => hyo_TLS o
  | TUICOutbound o => tuo_TLS o
  | ShadowsocksOutbound _ | SOCKSOutbound _ | HTTPOutbound _ => None
  end.
