(* ===== verification/Capabilities.v ===== *)
(** * What a target can render

    [internal/compiler/compiler.go] (the checks in front of the renderers) and the
    capability tables of the four targets.  Third-party code enters as operations
    of the class [Backend]: [netip.ParsePrefix] and [ParseAddr], [net/url], the order of a
    Go map, [encoding/json], [yaml.Marshal], the encoder of sing-box options, and the
    replacements by regular expressions of [domain.RedactSensitiveInfo]. *)

From S2P Require Import Prelude.
From S2P Require Import GoStrings.
From S2P Require Import Domain.
From S2P Require Import Lifecycle.
From S2P Require Import NodeFilter.
From S2P Require Import Policy.
From S2P Require Import Risk.
From S2P Require Import Admission.
From S2P Require Import Groups.
From S2P Require Import ResolveGroups.
From S2P Require Import Resolver.
From S2P Require Import Prune.
From S2P Require Import MihomoDocument.
From S2P Require Import SingBoxDocument.

(** ** Errors *)

Record CapabilityError : Type := {
  ce_Target : string;
  ce_Location : string;
  ce_Feature : string;
  ce_Reason : string
}.

Definition CapabilityError_Error (e : CapabilityError) : string :=
  "target " +:+ ce_Target e +:+ " cannot render " +:+ ce_Feature e +:+ " at " +:+
  ce_Location e +:+ ": " +:+ ce_Reason e.

Inductive compile_error : Type :=
  | compile_cancelled
  | capability_error (e : CapabilityError)
  | render_error (message : string).

(** What is used of a [*url.URL]; [ul_Tail] is what follows the path. *)
Record WebURL : Type := {
  ul_Scheme : string;
  ul_Opaque : string;
  ul_User : bool;
  ul_Host : string;
  ul_Hostname : string;
  ul_Port : string;
  ul_Path : string;
  ul_Tail : string
}.
Definition is_addr_byte (c : Ascii.ascii) : bool :=
  is_hex c || is_char 46 c || is_char 58 c.

Class Backend := {
  ParsePrefix : string → option Prefix;
  ParsePrefix_addr : ∀ s p, ParsePrefix s = Some p → all_bytes is_addr_byte (pfx_Addr p) = true;
  ParseAddr_ok : string → bool;
  ParseURL : string → option WebURL;
  FormatURL : WebURL → string;
  transport_order : gmap string string → list (string * string);
  transport_order_perm : ∀ m, transport_order m ≡ₚ map_to_list m;
  json_object : string → option (gmap string string);
  json_headers : string → gmap string string * bool;
  yaml_Marshal : mihomoConfig → result compile_error string;
  (** [netip.MustParsePrefix], which panics where there is no prefix *)
  MustParsePrefix : string → Prefix;
  MustParsePrefix_parsed : ∀ s p, ParsePrefix s = Some p → MustParsePrefix s = p;
  ParseIP_ok : string → bool;
  RedactSensitiveInfo : string → string;
  Hysteria2ObfsTypeSalamander : string;
  singjson_Encode : Options → result compile_error string
}.

(** Scheme and host of a URL. *)
Definition url_Parse `{Backend} (s : string) : option (string * string) :=
  (λ u, (ul_Scheme u, ul_Host u)) <$> ParseURL s.

(** ** Capabilities *)

Record Capability : Type := {
  cap_Protocols : list string;
  cap_GroupTypes : list string;
  cap_RuleKinds : list string
}.

Definition mihomoCapability : Capability :=
  {| cap_Protocols := [ProtocolSS; ProtocolVMess; ProtocolVLESS; ProtocolTrojan;
       ProtocolHysteria2; ProtocolWireGuard; ProtocolTUIC; ProtocolHTTP; ProtocolSocks5;
       ProtocolAnyTLS];
     cap_GroupTypes := [GroupTypeSelect; GroupTypeURLTest; GroupTypeFallback;
       GroupTypeLoadBalance];
     cap_RuleKinds := ["DOMAIN"; "DOMAIN-SUFFIX"; "DOMAIN-KEYWORD"; "IP-CIDR"; "IP-CIDR6";
       "GEOIP"; "GEOSITE"; "RULE-SET"; "SRC-IP-CIDR"; "SRC-PORT"; "DST-PORT"; "PORT";
       "PROCESS-NAME"; "MATCH"] |}.
Definition singBoxCapability : Capability :=
  {| cap_Protocols := [ProtocolSS; ProtocolVMess; ProtocolVLESS; ProtocolTrojan;
       ProtocolHysteria2; ProtocolWireGuard; ProtocolTUIC];
     cap_GroupTypes := []; cap_RuleKinds := [] |}.
Definition surgeCapability : Capability :=
  {| cap_Protocols := [ProtocolSS; ProtocolVMess; ProtocolTrojan; ProtocolHysteria2;
       ProtocolTUIC; ProtocolWireGuard];
     cap_GroupTypes := []; cap_RuleKinds := [] |}.
Definition quantumultXCapability : Capability :=
  {| cap_Protocols := [ProtocolSS; ProtocolVMess; ProtocolTrojan];
     cap_GroupTypes := []; cap_RuleKinds := [] |}.

Definition Targets : list string := [TargetMihomo; TargetSingBox; TargetSurge; TargetQuantumultX].

Definition capabilityForTarget (target : string) : option Capability :=
  if String.eqb target TargetMihomo then Some mihomoCapability
  else if String.eqb target TargetSingBox then Some singBoxCapability
  else if String.eqb target TargetSurge then Some surgeCapability
  else if String.eqb target TargetQuantumultX then Some quantumultXCapability
  else None.

Definition fail_if (b : bool) (target loc feature reason : string)
    : result CapabilityError unit :=
  reject_if b {| ce_Target := target; ce_Location := loc; ce_Feature := feature;
                 ce_Reason := reason |}.

Lemma fail_if_ok b t l f r : fail_if b t l f r = Ok tt ↔ b = false.
Proof. unfold fail_if. apply reject_if_ok. Qed.

Definition enumerate {A} (l : list A) : list (nat * A) := imap pair l.
Definition indexed (what : string) (i : nat) : string :=
  what +:+ "[" +:+ itoa (Z.of_nat i) +:+ "]".
Definition blank (s : string) : bool := String.eqb (TrimSpace s) "".

Section Checks.
Context `{GoText} `{Backend}.

Definition isBuiltInPolicyTarget (name : string) : bool :=
  mem_str (ToUpper (TrimSpace name)) ["DIRECT"; "REJECT"; "REJECT-DROP"; "PASS"; "COMPATIBLE"].

Definition before (sep s : string) : string :=
  match cut sep s with Some (a, _) => a | None => s end.

Definition ruleKind (expression : string) : string :=
  before " " (before "," (ToUpper (TrimSpace expression))).

(** [parts[1]] of [Split(expr, ",")], if there is one. *)
Definition rule_value (expr : string) : option string :=
  match cut "," expr with Some (_, rest) => Some (before "," rest) | None => None end.

(** ** Validation *)

Definition validate_node (target : string) (cap : Capability) (entry : nat * ResolvedNode)
    : result CapabilityError unit :=
  let '(i, node) := entry in
  let loc := indexed "nodes" i in
  fail_if (negb (mem_str (rn_Protocol node) (cap_Protocols cap))) target loc
    (rn_Protocol node) "protocol is not supported" ;;?
  fail_if (blank (rn_LogicalID node)) target loc (rn_Protocol node)
    "node logical ID is required" ;;?
  fail_if (blank (rn_DisplayName node)) target loc (rn_Protocol node)
    "node display name is required" ;;?
  Ok tt.

Definition validate_group_header (target : string) (cap : Capability)
    (entry : nat * ResolvedGroup) : result CapabilityError unit :=
  let '(i, group) := entry in
  let loc := indexed "groups" i in
  fail_if (negb (mem_str (rg_GroupType group) (cap_GroupTypes cap))) target loc
    (rg_GroupType group) "policy group type is not supported" ;;?
  fail_if (blank (rg_Name group)) target loc (rg_GroupType group)
    "policy group name is required" ;;?
  Ok tt.

(** The name tables of the snapshot. *)
Definition nodeIDs (snap : ResolvedPolicySnapshot) := map rn_LogicalID (snap_Nodes snap).
Definition nodeNames (snap : ResolvedPolicySnapshot) := map rn_DisplayName (snap_Nodes snap).
Definition groupIDs (snap : ResolvedPolicySnapshot) :=
  map rg_ID (List.filter (λ g, negb (blank (rg_ID g))) (snap_Groups snap)).
Definition groupNames (snap : ResolvedPolicySnapshot) := map rg_Name (snap_Groups snap).

Definition validate_member (target : string) (snap : ResolvedPolicySnapshot) (loc : string)
    (group : ResolvedGroup) (m : ResolvedGroupMember) : result CapabilityError unit :=
  let memberName := TrimSpace (mem_DisplayName m) in
  fail_if (String.eqb memberName "") target loc (rg_Name group)
    "group member display name is required" ;;?
  if String.eqb (mem_Kind m) MemberKindNode then
    fail_if ((negb (blank (mem_TargetID m)) && negb (mem_str (mem_TargetID m) (nodeIDs snap))) ||
             negb (mem_str memberName (nodeNames snap))) target loc memberName
      "group member references unknown node"
  else if String.eqb (mem_Kind m) MemberKindGroup then
    fail_if ((negb (blank (mem_TargetID m)) && negb (mem_str (mem_TargetID m) (groupIDs snap))) ||
             negb (mem_str memberName (groupNames snap))) target loc memberName
      "group member references unknown policy group"
  else if String.eqb (mem_Kind m) MemberKindBuiltin then
    fail_if (negb (isBuiltInPolicyTarget memberName)) target loc memberName
      ("unsupported builtin policy target " +:+ Quote memberName)
  else if String.eqb (mem_Kind m) "" then
    fail_if (negb (mem_str memberName (nodeNames snap)) &&
             negb (mem_str memberName (groupNames snap)) &&
             negb (isBuiltInPolicyTarget memberName)) target loc memberName
      "group member references unknown target"
  else fail_if true target loc (mem_Kind m) "unsupported group member kind".

Definition validate_members (target : string) (snap : ResolvedPolicySnapshot)
    (entry : nat * ResolvedGroup) : result CapabilityError unit :=
  for_each (validate_member target snap (indexed "groups" entry.1) entry.2)
    (rg_Members entry.2).

Definition validate_rule_entry (target : string) (cap : Capability)
    (snap : ResolvedPolicySnapshot) (entry : nat * ResolvedRule)
    : result CapabilityError unit :=
  let '(i, rule) := entry in
  let loc := indexed "rules" i in
  let expr := TrimSpace (rr_Expression rule) in
  let kind := ruleKind expr in
  fail_if (String.eqb kind "") target loc "rule" "routing rule expression is required" ;;?
  fail_if (negb (mem_str kind (cap_RuleKinds cap))) target loc kind
    "routing rule kind is not supported" ;;?
  fail_if (negb (IsMatchRule expr) &&
           match rule_value expr with None => true | Some v => blank v end) target loc kind
    "routing rule value is required" ;;?
  let targetName := TrimSpace (rr_TargetGroupName rule) in
  fail_if (String.eqb targetName "") target loc kind "routing rule target group is required" ;;?
  if negb (isBuiltInPolicyTarget targetName) then
    fail_if ((length (snap_Groups snap) =? 0) || negb (mem_str targetName (groupNames snap)))
      target loc targetName "routing rule references unknown target group" ;;?
    fail_if (negb (blank (rr_TargetGroupID rule)) && (0 <? length (groupIDs snap)) &&
             negb (mem_str (rr_TargetGroupID rule) (groupIDs snap))) target loc targetName
      "routing rule target group ID mismatch"
  else Ok tt.

Definition validate (snap : ResolvedPolicySnapshot) (target : string) (cap : Capability)
    : result CapabilityError unit :=
  for_each (validate_node target cap) (enumerate (snap_Nodes snap)) ;;?
  if negb (String.eqb target TargetMihomo) then Ok tt
  else
    for_each (validate_group_header target cap) (enumerate (snap_Groups snap)) ;;?
    for_each (validate_members target snap) (enumerate (snap_Groups snap)) ;;?
    for_each (validate_rule_entry target cap snap) (enumerate (snap_Rules snap)).

(** ** Credential envelopes *)

Definition check_wireguard (target loc feature : string) (c : InboundProtocolCredential)
    : result CapabilityError unit :=
  fail_if (blank (cred_PrivateKey c)) target loc feature
    "missing required private_key in wireguard credentials" ;;?
  fail_if (blank (cred_PublicKey c)) target loc feature
    "missing required public_key in wireguard credentials" ;;?
  fail_if (length (cred_LocalAddress c) =? 0) target loc feature
    "missing required local_address in wireguard credentials" ;;?
  for_each (λ rawAddr,
    let addr := TrimSpace rawAddr in
    fail_if (String.eqb addr "" || is_nil (ParsePrefix addr)) target loc feature
      "invalid local_address CIDR in wireguard credentials") (cred_LocalAddress c) ;;?
  fail_if ((0 <? length (cred_Reserved c)) && negb (length (cred_Reserved c) =? 3)) target loc
    feature "invalid reserved bytes in wireguard credentials" ;;?
  fail_if ((cred_MTU c <? 0) || (65535 <? cred_MTU c))%Z target loc feature
    "invalid mtu in wireguard credentials".

(** The switch on the protocol. *)
Definition check_credentials (target loc feature protocol : string)
    (c : InboundProtocolCredential) : result CapabilityError unit :=
  let require b reason := fail_if b target loc feature reason in
  if String.eqb protocol ProtocolSS then
    require (blank (cred_Method c) || blank (cred_Password c))
      "missing required cipher or password in shadowsocks credentials"
  else if String.eqb protocol ProtocolVMess then
    require (blank (cred_UUID c)) "missing required uuid in vmess credentials" ;;?
    require (cred_AlterID c <? 0)%Z "invalid alterId in vmess credentials"
  else if String.eqb protocol ProtocolVLESS then
    require (blank (cred_UUID c)) "missing required uuid in vless credentials" ;;?
    require (negb (blank (map_get (cred_Transport c) "sid")) &&
             blank (map_get (cred_Transport c) "pbk"))
      "missing required reality public key in vless credentials"
  else if String.eqb protocol ProtocolTrojan then
    require (blank (cred_Password c)) "missing required password in trojan credentials"
  else if String.eqb protocol ProtocolHysteria2 then
    require (blank (cred_Password c)) "missing required password in hysteria2 credentials"
  else if String.eqb protocol ProtocolWireGuard then check_wireguard target loc feature c
  else if String.eqb protocol ProtocolTUIC then
    require (blank (cred_UUID c)) "missing required uuid in tuic credentials" ;;?
    require (blank (cred_Password c)) "missing required password in tuic credentials"
  else if String.eqb protocol ProtocolHTTP || String.eqb protocol ProtocolSocks5 then Ok tt
  else if String.eqb protocol ProtocolAnyTLS then
    require (blank (cred_Password c)) "missing required password in anytls credentials"
  else require true "protocol is not supported".

Definition validateCredentialEnvelope (target : string) (index : nat) (node : ResolvedNode)
    : result CapabilityError unit :=
  let loc := indexed "nodes" index in
  let feature := rn_Protocol node in
  let c := rn_Credentials node in
  fail_if (blank (rn_LogicalID node)) target loc feature "node logical ID is required" ;;?
  fail_if (negb (enum_valid validProtocols (rn_Protocol node))) target loc feature
    "protocol is not supported" ;;?
  fail_if (blank (rn_Server node)) target loc feature
    "missing server address in credential payload" ;;?
  fail_if ((rn_Port node <=? 0) || (65535 <? rn_Port node))%Z target loc feature
    "invalid port in credential payload" ;;?
  fail_if (String.eqb target TargetSingBox &&
           match cred_Transport c with
           | Some _ => String.eqb (ToLower (map_get (cred_Transport c) "network")) "xhttp"
           | None => false
           end) TargetSingBox (loc +:+ ".transport.network") "xhttp"
    "sing-box does not support xhttp transport protocol" ;;?
  check_credentials target loc feature (rn_Protocol node) c.
End Checks.

(** ** Line documents

    The two line-oriented formats, Surge and Quantumult X. *)

(** One rendered line per entry, in order. *)
Fixpoint render_lines {A} (line : nat → A → result CapabilityError string) (i : nat) (l : list A)
    : result CapabilityError (list string) :=
  match l with
  | [] => Ok []
  | x :: l => let? t := line i x in let? ts := render_lines line (S i) l in Ok (t :: ts)
  end.
(** Each line ends in a newline; an empty document is one newline. *)
Definition document (lines : list string) : string :=
  let nl := bytes [10]%N in
  match lines with
  | [] => nl
  | _ => String.concat "" (map (λ t, t +:+ nl) lines)
  end.

(** A line of fields none of which holds a comma or a line break. *)
Definition joined (t : string) : Prop :=
  ∃ x l, t = Join ", " (x :: l) ∧ Forall clean (x :: l).

Lemma render_lines_lookup {A} (line : nat → A → result CapabilityError string) i l ts :
  render_lines line i l = Ok ts →
  length ts = length l ∧
  ∀ k x, l !! k = Some x → ∃ t, ts !! k = Some t ∧ line (i + k) x = Ok t.
Proof.
  revert i ts. induction l as [|x l IH]; intros i ts; simpl.
  { intros [= <-]. split; [done|]. intros k x. by rewrite lookup_nil. }
  intros Hr. split_ok Hr. injection Hr as <-. destruct (IH _ _ H0) as [Hlen Hl]. simpl.
  split; [lia|]. intros [|k] y; simpl.
  - intros [= <-]. exists x0. by rewrite Nat.add_0_r.
  - intros Hy. rewrite Nat.add_succ_r. by apply (Hl k y).
Qed.

Lemma joined_fields x l :
  Forall clean (x :: l) →
  Split (byte_of 44) (Join ", " (x :: l)) = x :: map (λ y, " " +:+ y) l.
Proof.
  intros Hf. apply (Split_Join (byte_of 44) " "); [done|].
  eapply Forall_impl; [done|]. intros y Hy. by apply clean_lacks.
Qed.

Lemma joined_clean t : joined t → lacks (byte_of 10) t.
Proof.
  intros (x & l & -> & Hf). revert x Hf. induction l as [|y l IH]; intros x [Hx Hf]%Forall_cons.
  { by apply clean_lacks. }
  change (lacks (byte_of 10) (x +:+ (", " +:+ Join ", " (y :: l)))).
  apply lacks_app. split; [by apply clean_lacks|]. apply lacks_app. split; [done|]. by apply IH.
Qed.

Lemma concat_lines lines :
  Forall (lacks (byte_of 10)) lines →
  Split (byte_of 10) (String.concat "" (map (λ t, t +:+ bytes [10]%N) lines)) = lines ++ [""].
Proof.
  induction lines as [|t lines IH]; intros Hf; [done|]. apply Forall_cons in Hf as [Ht Hf].
  assert (String.concat "" (map (λ t, t +:+ bytes [10]%N) (t :: lines)) =
          t +:+ String (byte_of 10) (String.concat "" (map (λ t, t +:+ bytes [10]%N) lines))) as ->.
  { simpl. destruct lines; simpl; [done|]. by rewrite str_app_assoc. }
  by rewrite Split_app, IH.
Qed.

(** The lines of a document are the rendered ones. *)
Lemma document_lines {A} (line : nat → A → result CapabilityError string) i l ts :
  (∀ i x t, line i x = Ok t → joined t) → l ≠ [] → render_lines line i l = Ok ts →
  Split (byte_of 10) (document ts) = ts ++ [""].
Proof.
  intros Hj Hne Hr. destruct (render_lines_lookup _ _ _ _ Hr) as [Hlen Hl].
  assert (Forall (lacks (byte_of 10)) ts) as Hf.
  { apply Forall_lookup. intros k t Ht.
    destruct (lookup_lt_is_Some_2 l k) as [x Hx].
    { rewrite <- Hlen. by eapply lookup_lt_Some. }
    destruct (Hl k x Hx) as (t' & Ht' & Hline). simplify_eq. by eapply joined_clean, Hj. }
  rewrite <- (concat_lines ts Hf). destruct ts; [|done]. by destruct l.
Qed.

(** ** Instances *)

(** Dotted and coloured addresses with a mask, and renderers that only count. *)
Definition sample_prefix (s : string) : option Prefix :=
  match cut "/" s with
  | Some (addr, _) =>
      if all_bytes is_addr_byte addr
      then Some {| pfx_Is4 := negb (ContainsAny addr [58]%N); pfx_Addr := addr; pfx_String := s |} else None
  | None => None
  end.
Lemma sample_prefix_addr s p :
  sample_prefix s = Some p → all_bytes is_addr_byte (pfx_Addr p) = true.
Proof.
  unfold sample_prefix. destruct (cut "/" s) as [[addr ?]|]; [|done].
  destruct (all_bytes is_addr_byte addr) eqn:Ha; [|done]. by intros [= <-].
Qed.

(** A URL in pieces: scheme, host, path. *)
Definition sample_url (s : string) : option WebURL :=
  match cut "://" s with
  | Some (scheme, rest) =>
      let '(host, path) := match cut "/" rest with Some (h, p) => (h, "/" +:+ p) | None => (rest, "") end in
      Some {| ul_Scheme := scheme; ul_Opaque := ""; ul_User := false; ul_Host := host;
              ul_Hostname := host; ul_Port := ""; ul_Path := path; ul_Tail := "" |}
  | None => None
  end.

(** JSON is not decoded; a document is its counts. *)
Definition sample_backend : Backend.
Proof.
  refine {| ParsePrefix := sample_prefix; ParsePrefix_addr := sample_prefix_addr;
     ParseAddr_ok := all_bytes is_addr_byte; ParseURL := sample_url;
     FormatURL := λ u, ul_Scheme u +:+ "://" +:+ ul_Host u +:+ ul_Path u;
     transport_order := map_to_list; json_object := λ _, None; json_headers := λ _, (∅, false);
     yaml_Marshal := λ c, Ok ("mihomo" +:+ itoa (Z.of_nat (length (mc_Proxies c))));
     MustParsePrefix := λ s, default {| pfx_Is4 := true; pfx_Addr := ""; pfx_String := "" |} (sample_prefix s);
     ParseIP_ok := all_bytes is_addr_byte; RedactSensitiveInfo := λ s, s;
     Hysteria2ObfsTypeSalamander := "salamander";
     singjson_Encode := λ o, Ok ("sing-box" +:+
       itoa (Z.of_nat (length (op_Outbounds o) + length (op_Endpoints o)))) |}.
  - done.
  - by intros s p ->.
Defined.

Definition trojan_node (id name password : string) : ResolvedNode :=
  {| rn_LogicalID := id; rn_DisplayName := name; rn_Protocol := ProtocolTrojan;
     rn_Server := "example.org"; rn_Port := 443;
     rn_Credentials :=
       {| cred_Password := password; cred_UUID := ""; cred_Method := ""; cred_AlterID := 0;
          cred_PrivateKey := ""; cred_PublicKey := ""; cred_PresharedKey := "";
          cred_PreSharedKey := ""; cred_LocalAddress := []; cred_Reserved := [];
          cred_MTU := 0; cred_DNS := []; cred_CongestionControl := ""; cred_UDPRelayMode := "";
          cred_ALPN := []; cred_SNI := ""; cred_DisableSNI := false; cred_Username := "";
          cred_Transport := None |};
     rn_Active := true; rn_ConnectionRevision := 1; rn_Position := 0 |}%Z.

Definition with_nodes (nodes : list ResolvedNode) (snap : ResolvedPolicySnapshot)
    : ResolvedPolicySnapshot :=
  {| snap_InputDigest := snap_InputDigest snap; snap_SnapshotDigest := snap_SnapshotDigest snap;
     snap_RevisionID := snap_RevisionID snap;
     snap_InventoryWatermark := snap_InventoryWatermark snap;
     snap_CompilerVersion := snap_CompilerVersion snap; snap_Nodes := nodes;
     snap_NodeLogicalIDs := map rn_LogicalID nodes; snap_Groups := snap_Groups snap;
     snap_Rules := snap_Rules snap; snap_DNS := snap_DNS snap;
     snap_Diagnostics := snap_Diagnostics snap;
     snap_RiskPolicyRevision := snap_RiskPolicyRevision snap;
     snap_RiskDecisionDigest := snap_RiskDecisionDigest snap;
     snap_RiskEvaluatedAt := snap_RiskEvaluatedAt snap;
     snap_AdmittedNodeIDs := snap_AdmittedNodeIDs snap;
     snap_ExcludedNodeIDs := snap_ExcludedNodeIDs snap;
     snap_FilterCounts := snap_FilterCounts snap; snap_ResolvedAt := snap_ResolvedAt snap |}.
