(* ===== verification/Mihomo.v ===== *)
(** * The Mihomo renderer

    [internal/compiler/mihomo.go]: a snapshot becomes a [mihomoConfig], one proxy per node,
    one proxy group per group, one line per rule; [yaml.Marshal] writes it.  Parsing of
    addresses and URLs, decoding of JSON and the order of a Go map are operations of
    [Backend].  A node is checked before it is rendered, so that a branch of the source which
    renders nothing for an unknown protocol is not reached. *)

From S2P Require Import Prelude.
From S2P Require Import GoStrings.
From S2P Require Import Domain.
From S2P Require Import Lifecycle.
From S2P Require Import NodeFilter.
From S2P Require Import Policy.
From S2P Require Import Groups.
From S2P Require Import ResolveGroups.
From S2P Require Import Resolver.
From S2P Require Import Prune.
From S2P Require Import MihomoDocument.
From S2P Require Import SingBoxDocument.
From S2P Require Import Capabilities.

(** ** Tables *)

Definition defaultMihomoProbeURL := "https://www.gstatic.com/generate_204".
Definition defaultMihomoProbeInterval : Z := 300.
Definition defaultMihomoURLTestTolerance : Z := 50.
Definition defaultMihomoLoadBalancePolicy := "consistent-hashing".
Definition defaultMihomoRuleSetInterval : Z := 86400.

Definition allowedMihomoTransportKeys : list (string * list string) :=
  [
      (ProtocolSS, ["network"; "plugin"; "plugin-opts"; "plugin_opts"]);
      (ProtocolVMess, ["network"; "tls"; "sni"; "servername"; "serverName"; "peer";
     "skip_cert_verify"; "skip-cert-verify"; "skipcert"; "insecure"; "allowInsecure"; "alpn"; "fp";
     "fingerprint"; "client-fingerprint"; "client_fingerprint"; "path"; "host"; "service_name";
     "serviceName"; "grpc-service-name"]);
      (ProtocolVLESS, ["network"; "tls"; "sni"; "servername"; "serverName"; "peer";
     "skip_cert_verify"; "skip-cert-verify"; "skipcert"; "insecure"; "allowInsecure"; "alpn";
     "flow"; "fp"; "fingerprint"; "client-fingerprint"; "client_fingerprint"; "pbk"; "public-key";
     "public_key"; "reality-public-key"; "reality_public_key"; "sid"; "short-id"; "short_id";
     "reality-short-id"; "reality_short_id"; "path"; "host"; "service_name"; "serviceName";
     "grpc-service-name"; "mode"; "headers"; "xhttp-opts"; "xhttp_opts"; "ech-opts"; "ech_opts";
     "udp"; "encryption"; "extra"]);
      (ProtocolTrojan, ["network"; "tls"; "sni"; "servername"; "serverName"; "peer";
     "skip_cert_verify"; "skip-cert-verify"; "skipcert"; "insecure"; "allowInsecure"; "alpn"; "fp";
     "fingerprint"; "client-fingerprint"; "client_fingerprint"; "path"; "host"; "service_name";
     "serviceName"; "grpc-service-name"]);
      (ProtocolHysteria2, ["network"; "tls"; "sni"; "servername"; "serverName"; "peer";
     "skip_cert_verify"; "skip-cert-verify"; "skipcert"; "insecure"; "allowInsecure"; "alpn"; "up";
     "down"; "obfs"; "obfs-password"; "obfs_password"; "ports"; "server_ports"; "hy2_ports";
     "mport"]);
      (ProtocolWireGuard, ["network"]);
      (ProtocolTUIC, ["network"; "tls"; "sni"; "servername"; "serverName"; "peer";
     "skip_cert_verify"; "skip-cert-verify"; "skipcert"; "insecure"; "allowInsecure"; "alpn";
     "disable_sni"; "disable-sni"; "tuic_disable_sni"; "congestion_control"; "congestion-control";
     "congestion_controller"; "congestion-controller"; "udp_relay_mode"; "udp-relay-mode"; "ports";
     "server_ports"; "hy2_ports"; "mport"]);
      (ProtocolHTTP, ["network"; "tls"; "sni"; "servername"; "serverName"; "peer";
     "skip_cert_verify"; "skip-cert-verify"; "skipcert"; "insecure"; "allowInsecure"; "headers"]);
      (ProtocolSocks5, ["network"; "tls"; "sni"; "servername"; "serverName"; "peer";
     "skip_cert_verify"; "skip-cert-verify"; "skipcert"; "insecure"; "allowInsecure"; "udp"]);
      (ProtocolAnyTLS, ["network"; "tls"; "sni"; "servername"; "serverName"; "peer";
     "skip_cert_verify"; "skip-cert-verify"; "skipcert"; "insecure"; "allowInsecure"; "alpn"; "fp";
     "fingerprint"; "client-fingerprint"; "client_fingerprint"; "udp"; "ech-opts"; "ech_opts";
     "idle-session-check-interval"; "idle_session_check_interval"; "idle-session-timeout";
     "idle_session_timeout"; "min-idle-session"; "min_idle_session"; "disable-reuse";
     "disable_reuse"])].

Definition assoc {A} (k : string) (l : list (string * A)) : option A :=
  snd <$> List.find (λ kv, String.eqb kv.1 k) l.

Section Mihomo.
Context `{GoText} `{Backend}.

Definition mihomo_check (b : bool) (loc feature reason : string) : result CapabilityError unit :=
  fail_if b TargetMihomo loc feature reason.
Definition mihomoError {A} (loc feature reason : string) : result CapabilityError A :=
  Err {| ce_Target := TargetMihomo; ce_Location := loc; ce_Feature := feature; ce_Reason := reason |}.

(** ** Transport parameters *)

(** The field of the credentials that stands in for a transport key. *)
Definition field_value (c : InboundProtocolCredential) (key : string) : string :=
  if mem_str key ["sni"; "servername"; "serverName"; "peer"] then TrimSpace (cred_SNI c)
  else if mem_str key ["disable_sni"; "disable-sni"; "tuic_disable_sni"] then
    if cred_DisableSNI c then "true" else ""
  else if mem_str key ["congestion_control"; "congestion-control"; "congestion_controller";
                       "congestion-controller"] then TrimSpace (cred_CongestionControl c)
  else if mem_str key ["udp_relay_mode"; "udp-relay-mode"] then TrimSpace (cred_UDPRelayMode c)
  else "".

Fixpoint transportValue (c : InboundProtocolCredential) (keys : list string) : string :=
  match keys with
  | [] => ""
  | key :: keys =>
      or_else (TrimSpace (map_get (cred_Transport c) key))
        (or_else (field_value c key) (transportValue c keys))
  end.

Definition extractMihomoALPN (c : InboundProtocolCredential) : list string :=
  match trimmed (cred_ALPN c) with
  | [] => trimmed (Split (byte_of 44) (TrimSpace (map_get (cred_Transport c) "alpn")))
  | out => out
  end.

Definition validateMihomoTransportKeys (loc proto : string) (transport : option (gmap string string))
    : result CapabilityError unit :=
  for_each (λ kv,
    let key := TrimSpace kv.1 in
    if blank kv.2 || HasPrefix key "extra" || HasPrefix key "unknown" then Ok tt
    else mihomo_check (negb (mem_str key (default [] (assoc proto allowedMihomoTransportKeys)))) loc proto
           ("unsupported transport parameter " +:+ Quote key +:+ " for " +:+ proto))
    (transport_order (default ∅ transport)).

(** The two addresses of a WireGuard interface. *)
Fixpoint wireguard_addresses (loc : string) (addrs : list string) (ipv4 ipv6 : string)
    : result CapabilityError (string * string) :=
  match addrs with
  | [] => Ok (ipv4, ipv6)
  | raw :: addrs =>
      match ParsePrefix (TrimSpace raw) with
      | None => mihomoError loc "wireguard" "invalid local_address CIDR in wireguard credentials"
      | Some p =>
          let clash old := negb (String.eqb old "") && negb (String.eqb old (pfx_String p)) in
          if pfx_Is4 p then
            mihomo_check (clash ipv4) loc "wireguard"
              "multiple IPv4 local_address CIDRs cannot be represented in mihomo wireguard" ;;?
            wireguard_addresses loc addrs (pfx_String p) ipv6
          else
            mihomo_check (clash ipv6) loc "wireguard"
              "multiple IPv6 local_address CIDRs cannot be represented in mihomo wireguard" ;;?
            wireguard_addresses loc addrs ipv4 (pfx_String p)
      end
  end.
Definition splitMihomoWireGuardAddresses (loc : string) (addrs : list string)
    : result CapabilityError (string * string) :=
  let? ips := wireguard_addresses loc addrs "" "" in
  mihomo_check (String.eqb ips.1 "" && String.eqb ips.2 "") loc "wireguard"
    "missing required local_address in wireguard credentials" ;;?
  Ok ips.

Definition sni_keys : list string := ["sni"; "servername"; "serverName"; "peer"].
Definition fingerprint_keys : list string := ["fp"; "fingerprint"; "client-fingerprint"; "client_fingerprint"].
Definition reality_keys : list string :=
  ["pbk"; "public-key"; "public_key"; "reality-public-key"; "reality_public_key"].
Definition short_id_keys : list string := ["sid"; "short-id"; "short_id"; "reality-short-id"; "reality_short_id"].
Definition congestion_keys : list string :=
  ["congestion_control"; "congestion-control"; "congestion_controller"; "congestion-controller"].
Definition mihomo_network (c : InboundProtocolCredential) : string := ToLower (transportValue c ["network"]).

(** ** Validation of a node *)

(** [if v != "" && v is none of allowed { return err }] *)
Definition among (loc feature what v : string) (allowed : list string) : result CapabilityError unit :=
  mihomo_check (negb (String.eqb v "") && negb (mem_str v allowed)) loc feature
    ("unsupported " +:+ what +:+ " " +:+ Quote v +:+ " in " +:+ feature +:+
     (if mem_str what ["congestion controller"; "udp relay mode"] then " credentials" else " transport")).

Definition check_hysteria2 (loc : string) (c : InboundProtocolCredential) : result CapabilityError unit :=
  let obfs := transportValue c ["obfs"] in
  let obfsPw := transportValue c ["obfs-password"; "obfs_password"] in
  among loc "hysteria2" "network" (mihomo_network c) ["quic"; "udp"; "tcp"] ;;?
  among loc "hysteria2" "obfs mode" obfs ["salamander"] ;;?
  mihomo_check (String.eqb obfs "salamander" && String.eqb obfsPw "") loc "hysteria2"
    "missing required obfs-password for hysteria2 salamander obfs" ;;?
  mihomo_check (String.eqb obfs "" && negb (String.eqb obfsPw "")) loc "hysteria2"
    "obfs-password requires obfs mode in hysteria2 transport".

Definition check_protocol (loc protocol : string) (c : InboundProtocolCredential)
    : result CapabilityError unit :=
  let net := mihomo_network c in
  if String.eqb protocol ProtocolSS then among loc "ss" "network" net ["tcp"; "udp"]
  else if String.eqb protocol ProtocolVMess then among loc "vmess" "network" net ["tcp"; "ws"; "grpc"]
  else if String.eqb protocol ProtocolVLESS then
    among loc "vless" "network" net ["tcp"; "ws"; "grpc"; "xhttp"] ;;?
    mihomo_check (negb (String.eqb (transportValue c short_id_keys) "") &&
                  String.eqb (transportValue c reality_keys) "") loc "vless"
      "missing required reality public key in vless credentials" ;;?
    among loc "vless" "flow" (transportValue c ["flow"]) ["xtls-rprx-vision"; "xtls-rprx-vision-udp443"]
  else if String.eqb protocol ProtocolTrojan then among loc "trojan" "network" net ["tcp"; "ws"; "grpc"]
  else if String.eqb protocol ProtocolHysteria2 then check_hysteria2 loc c
  else if String.eqb protocol ProtocolWireGuard then
    among loc "wireguard" "network" net ["wireguard"; "udp"] ;;?
    let? _ := splitMihomoWireGuardAddresses loc (cred_LocalAddress c) in Ok tt
  else if String.eqb protocol ProtocolTUIC then
    among loc "tuic" "network" net ["quic"; "udp"; "tcp"] ;;?
    among loc "tuic" "congestion controller" (ToLower (transportValue c congestion_keys))
      ["cubic"; "new_reno"; "bbr"] ;;?
    among loc "tuic" "udp relay mode" (ToLower (transportValue c ["udp_relay_mode"; "udp-relay-mode"]))
      ["native"; "quic"]
  else if String.eqb protocol ProtocolAnyTLS then
    mihomo_check (blank (cred_Password c)) loc "anytls" "missing required password in anytls credentials"
  else Ok tt.

Definition validateMihomoCredentials (snap : ResolvedPolicySnapshot) : result CapabilityError unit :=
  for_each (λ '(i, node),
    let loc := indexed "nodes" i in
    let c := rn_Credentials node in
    validateCredentialEnvelope TargetMihomo i node ;;?
    validateMihomoTransportKeys loc (rn_Protocol node) (cred_Transport c) ;;?
    check_protocol loc (rn_Protocol node) c) (enumerate (snap_Nodes snap)).

(** ** Proxies *)

Definition mihomo_sni (c : InboundProtocolCredential) : string := transportValue c sni_keys.

Definition ws_opts (c : InboundProtocolCredential) : mihomoWSOpts :=
  let host := transportValue c ["host"] in
  {| ws_Path := transportValue c ["path"];
     ws_Headers := if String.eqb host "" then ∅ else {["Host" := host]} |}.
Definition grpc_opts (c : InboundProtocolCredential) : option mihomoGRPCOpts :=
  let svc := transportValue c ["service_name"; "serviceName"; "grpc-service-name"] in
  if String.eqb svc "" then None else Some {| gr_GRPCServiceName := svc |}.
(** The options of the network that is in use. *)
Definition ws_if (net : string) (c : InboundProtocolCredential) : option mihomoWSOpts :=
  if String.eqb net "ws" then Some (ws_opts c) else None.
Definition grpc_if (net : string) (c : InboundProtocolCredential) : option mihomoGRPCOpts :=
  if String.eqb net "grpc" then grpc_opts c else None.

(** [unmarshalJSONMap] of a parameter, where it decodes; an empty object is none. *)
Definition object_value (c : InboundProtocolCredential) (keys : list string) : gmap string string :=
  let v := transportValue c keys in
  if String.eqb v "" then ∅ else default ∅ (json_object v).

Definition xhttp_of (net : string) (c : InboundProtocolCredential) : xhttp_opts :=
  if negb (String.eqb net "xhttp") then XHTTPNone
  else
    let object := object_value c ["xhttp-opts"; "xhttp_opts"] in
    if bool_decide (object = ∅) then
      let hJSON := transportValue c ["headers"] in
      XHTTPStruct {| xh_Path := transportValue c ["path"]; xh_Host := transportValue c ["host"];
                     xh_Mode := transportValue c ["mode"];
                     xh_Headers := if String.eqb hJSON "" then ∅
                                   else let '(m, ok) := json_headers hJSON in if ok then m else ∅ |}
    else XHTTPObject object.

Definition hysteria2_proxy (node : ResolvedNode) : mihomoHysteria2Proxy :=
  let c := rn_Credentials node in
  {| hy_Name := rn_DisplayName node; hy_Type := "hysteria2"; hy_Server := rn_Server node;
     hy_Port := rn_Port node;
     hy_Ports := or_else (ExtractHy2Ports (cred_Transport c)) (transportValue c ["mport"]);
     hy_Password := cred_Password c; hy_SNI := mihomo_sni c;
     hy_SkipCertVerify := HasInsecureTransport (cred_Transport c); hy_ALPN := extractMihomoALPN c;
     hy_Up := transportValue c ["up"]; hy_Down := transportValue c ["down"];
     hy_Obfs := transportValue c ["obfs"];
     hy_ObfsPassword := transportValue c ["obfs-password"; "obfs_password"] |}.

Definition ss_proxy (node : ResolvedNode) : mihomoSSProxy :=
  let c := rn_Credentials node in
  {| ss_Name := rn_DisplayName node; ss_Type := "ss"; ss_Server := rn_Server node;
     ss_Port := rn_Port node; ss_Cipher := cred_Method c; ss_Password := cred_Password c;
     ss_Plugin := transportValue c ["plugin"]; ss_PluginOpts := ∅ |}.

Definition vmess_proxy (node : ResolvedNode) : mihomoVMessProxy :=
  let c := rn_Credentials node in
  let net := mihomo_network c in
  {| vm_Name := rn_DisplayName node; vm_Type := "vmess"; vm_Server := rn_Server node;
     vm_Port := rn_Port node; vm_UUID := TrimSpace (cred_UUID c); vm_AlterID := cred_AlterID c;
     vm_Cipher := or_else (TrimSpace (cred_Method c)) "auto"; vm_Network := net;
     vm_TLS := IsTruthy (transportValue c ["tls"]); vm_Servername := mihomo_sni c;
     vm_SkipCertVerify := HasInsecureTransport (cred_Transport c); vm_ALPN := extractMihomoALPN c;
     vm_ClientFingerprint := transportValue c fingerprint_keys;
     vm_WSOpts := ws_if net c; vm_GRPCOpts := grpc_if net c |}.

Definition reality_of (c : InboundProtocolCredential) : option mihomoRealityOpts :=
  let pbk := transportValue c reality_keys in
  if String.eqb pbk "" then None
  else Some {| re_PublicKey := pbk; re_ShortID := transportValue c short_id_keys |}.

Definition vless_proxy (node : ResolvedNode) : mihomoVLESSProxy :=
  let c := rn_Credentials node in
  let net := mihomo_network c in
  let reality := reality_of c in
  {| vl_Name := rn_DisplayName node; vl_Type := "vless"; vl_Server := rn_Server node;
     vl_Port := rn_Port node; vl_UUID := TrimSpace (cred_UUID c); vl_Network := net;
     vl_TLS := IsTruthy (transportValue c ["tls"]) || match reality with Some _ => true | None => false end;
     vl_Servername := mihomo_sni c; vl_SkipCertVerify := HasInsecureTransport (cred_Transport c);
     vl_ALPN := extractMihomoALPN c; vl_Flow := transportValue c ["flow"];
     vl_ClientFingerprint := transportValue c fingerprint_keys; vl_RealityOpts := reality;
     vl_ECHOpts := object_value c ["ech-opts"; "ech_opts"]; vl_WSOpts := ws_if net c;
     vl_GRPCOpts := grpc_if net c; vl_XHTTPOpts := xhttp_of net c |}.

Definition trojan_proxy (node : ResolvedNode) : mihomoTrojanProxy :=
  let c := rn_Credentials node in
  let net := mihomo_network c in
  {| tr_Name := rn_DisplayName node; tr_Type := "trojan"; tr_Server := rn_Server node;
     tr_Port := rn_Port node; tr_Password := cred_Password c; tr_Network := net; tr_SNI := mihomo_sni c;
     tr_SkipCertVerify := HasInsecureTransport (cred_Transport c); tr_ALPN := extractMihomoALPN c;
     tr_ClientFingerprint := transportValue c fingerprint_keys;
     tr_WSOpts := ws_if net c; tr_GRPCOpts := grpc_if net c |}.

Definition wireguard_proxy (node : ResolvedNode) (ips : string * string) : mihomoWireGuardProxy :=
  let c := rn_Credentials node in
  let dns := trimmed (cred_DNS c) in
  {| wg_Name := rn_DisplayName node; wg_Type := "wireguard"; wg_Server := rn_Server node;
     wg_Port := rn_Port node; wg_IP := ips.1; wg_IPv6 := ips.2;
     wg_PrivateKey := TrimSpace (cred_PrivateKey c); wg_PublicKey := TrimSpace (cred_PublicKey c);
     wg_PreSharedKey := EffectivePreSharedKey c; wg_Reserved := cred_Reserved c; wg_MTU := cred_MTU c;
     wg_DNS := dns; wg_RemoteDNSResolve := 0 <? length dns; wg_UDP := true |}.

Definition tuic_proxy (node : ResolvedNode) : mihomoTUICProxy :=
  let c := rn_Credentials node in
  {| tu_Name := rn_DisplayName node; tu_Type := "tuic"; tu_Server := rn_Server node;
     tu_Port := rn_Port node; tu_UUID := TrimSpace (cred_UUID c); tu_Password := cred_Password c;
     tu_CongestionController := ToLower (transportValue c congestion_keys);
     tu_UDPRelayMode := ToLower (transportValue c ["udp_relay_mode"; "udp-relay-mode"]);
     tu_ALPN := extractMihomoALPN c; tu_SNI := mihomo_sni c;
     tu_DisableSNI := cred_DisableSNI c || HasTUICDisableSNI (cred_Transport c);
     tu_SkipCertVerify := HasInsecureTransport (cred_Transport c) |}.

(** What [json.Unmarshal] stored is used whether or not it succeeded. *)
Definition http_proxy (node : ResolvedNode) : mihomoHTTPProxy :=
  let c := rn_Credentials node in
  let hJSON := transportValue c ["headers"] in
  {| ht_Name := rn_DisplayName node; ht_Type := "http"; ht_Server := rn_Server node;
     ht_Port := rn_Port node; ht_Username := cred_Username c; ht_Password := cred_Password c;
     ht_TLS := IsTruthy (transportValue c ["tls"]); ht_SNI := mihomo_sni c;
     ht_SkipCertVerify := HasInsecureTransport (cred_Transport c);
     ht_Headers := if String.eqb hJSON "" then ∅ else (json_headers hJSON).1 |}.

Definition socks5_proxy (node : ResolvedNode) : mihomoSocks5Proxy :=
  let c := rn_Credentials node in
  {| sk_Name := rn_DisplayName node; sk_Type := "socks5"; sk_Server := rn_Server node;
     sk_Port := rn_Port node; sk_Username := cred_Username c; sk_Password := cred_Password c;
     sk_TLS := IsTruthy (transportValue c ["tls"]); sk_SNI := mihomo_sni c;
     sk_SkipCertVerify := HasInsecureTransport (cred_Transport c);
     sk_UDP := IsTruthy (transportValue c ["udp"]) |}.

Definition anytls_proxy (node : ResolvedNode) : mihomoAnyTLSProxy :=
  let c := rn_Credentials node in
  {| at_Name := rn_DisplayName node; at_Type := "anytls"; at_Server := rn_Server node;
     at_Port := rn_Port node; at_Password := cred_Password c; at_SNI := mihomo_sni c;
     at_ALPN := extractMihomoALPN c; at_ClientFingerprint := transportValue c fingerprint_keys;
     at_SkipCertVerify := HasInsecureTransport (cred_Transport c);
     at_UDP := IsTruthy (transportValue c ["udp"]);
     at_ECHOpts := object_value c ["ech-opts"; "ech_opts"];
     at_IdleSessionCheckInterval :=
       Atoi_value (transportValue c ["idle-session-check-interval"; "idle_session_check_interval"]);
     at_IdleSessionTimeout := Atoi_value (transportValue c ["idle-session-timeout"; "idle_session_timeout"]);
     at_MinIdleSession := Atoi_value (transportValue c ["min-idle-session"; "min_idle_session"]);
     at_DisableReuse := IsTruthy (transportValue c ["disable-reuse"; "disable_reuse"]) |}.

(** The switch on the protocol; no proxy for a protocol that it does not name. *)
Definition mihomo_proxy (i : nat) (node : ResolvedNode) : result CapabilityError (option mihomoProxy) :=
  let protocol := rn_Protocol node in
  if String.eqb protocol ProtocolHysteria2 then Ok (Some (Hysteria2Proxy (hysteria2_proxy node)))
  else if String.eqb protocol ProtocolSS then Ok (Some (SSProxy (ss_proxy node)))
  else if String.eqb protocol ProtocolVMess then Ok (Some (VMessProxy (vmess_proxy node)))
  else if String.eqb protocol ProtocolVLESS then Ok (Some (VLESSProxy (vless_proxy node)))
  else if String.eqb protocol ProtocolTrojan then Ok (Some (TrojanProxy (trojan_proxy node)))
  else if String.eqb protocol ProtocolWireGuard then
    let? ips := splitMihomoWireGuardAddresses (indexed "nodes" i) (cred_LocalAddress (rn_Credentials node)) in
    Ok (Some (WireGuardProxy (wireguard_proxy node ips)))
  else if String.eqb protocol ProtocolTUIC then Ok (Some (TUICProxy (tuic_proxy node)))
  else if String.eqb protocol ProtocolHTTP then Ok (Some (HTTPProxy (http_proxy node)))
  else if String.eqb protocol ProtocolSocks5 then Ok (Some (Socks5Proxy (socks5_proxy node)))
  else if String.eqb protocol ProtocolAnyTLS then Ok (Some (AnyTLSProxy (anytls_proxy node)))
  else Ok None.

Fixpoint mihomo_proxies (i : nat) (nodes : list ResolvedNode) : result CapabilityError (list mihomoProxy) :=
  match nodes with
  | [] => Ok []
  | node :: nodes =>
      let? p := mihomo_proxy i node in
      let? ps := mihomo_proxies (S i) nodes in
      Ok (option_list p ++ ps)
  end.

(** ** Groups *)

Definition groupNameSet (snap : ResolvedPolicySnapshot) : list string :=
  List.filter (λ s, negb (String.eqb s "")) (flat_map (λ g, [rg_Name g; rg_ID g]) (snap_Groups snap)).

Definition buildMihomoGroup (loc : string) (group : ResolvedGroup) (members : list string)
    : result CapabilityError mihomoGroup :=
  let build type url interval tolerance strategy :=
    Ok {| mg_EmptyFallback := ""; mg_Name := rg_Name group; mg_Type := type; mg_Proxies := members;
          mg_URL := url; mg_Interval := interval; mg_Tolerance := tolerance; mg_Strategy := strategy |} in
  if String.eqb (rg_GroupType group) GroupTypeSelect then build "select" "" 0%Z 0%Z ""
  else if String.eqb (rg_GroupType group) GroupTypeURLTest then
    build "url-test" defaultMihomoProbeURL defaultMihomoProbeInterval defaultMihomoURLTestTolerance ""
  else if String.eqb (rg_GroupType group) GroupTypeFallback then
    build "fallback" defaultMihomoProbeURL defaultMihomoProbeInterval 0%Z ""
  else if String.eqb (rg_GroupType group) GroupTypeLoadBalance then
    build "load-balance" defaultMihomoProbeURL defaultMihomoProbeInterval 0%Z defaultMihomoLoadBalancePolicy
  else mihomoError loc (rg_GroupType group) "policy group type is not supported".

Definition with_fallback (fallback : string) (g : mihomoGroup) : mihomoGroup :=
  {| mg_EmptyFallback := fallback; mg_Name := mg_Name g; mg_Type := mg_Type g;
     mg_Proxies := mg_Proxies g; mg_URL := mg_URL g; mg_Interval := mg_Interval g;
     mg_Tolerance := mg_Tolerance g; mg_Strategy := mg_Strategy g |}.

Definition check_child (names : list string) (loc : string) (group : ResolvedGroup)
    (m : ResolvedGroupMember) : result CapabilityError unit :=
  let unknown s := negb (String.eqb s "") && negb (mem_str s names) in
  let tName := TrimSpace (mem_DisplayName m) in
  mihomo_check (String.eqb (mem_Kind m) MemberKindGroup && unknown (TrimSpace (mem_TargetID m)) &&
                unknown tName) loc (rg_Name group)
    ("group " +:+ Quote (rg_Name group) +:+ " references non-existent child group " +:+ Quote tName).

Definition mihomo_group (names : list string) (entry : nat * ResolvedGroup)
    : result CapabilityError mihomoGroup :=
  let '(i, group) := entry in
  let loc := indexed "groups" i in
  let hasProxies := (0 <? length (rg_AllNodeLogicalIDs group)) ||
                    existsb (λ m, String.eqb (mem_Kind m) MemberKindBuiltin) (rg_Members group) in
  mihomo_check (negb (UsesEmptyPass group) &&
                ((length (rg_Members group) =? 0) || (rg_EmptyFallbackPass group && negb hasProxies)))
    loc (rg_Name group)
    ("proxy group " +:+ Quote (rg_Name group) +:+ " has no proxies (required_nonempty)") ;;?
  for_each (check_child names loc group) (rg_Members group) ;;?
  let? mg := buildMihomoGroup loc group
               (if UsesEmptyPass group then ["PASS"] else map mem_DisplayName (rg_Members group)) in
  let mg := if rg_EmptyFallbackPass group then with_fallback "REJECT" mg else mg in
  Ok (if UsesEmptyPass group then with_fallback "PASS" mg else mg).

Fixpoint mihomo_groups (names : list string) (l : list (nat * ResolvedGroup))
    : result CapabilityError (list mihomoGroup) :=
  match l with
  | [] => Ok []
  | entry :: l => let? g := mihomo_group names entry in let? gs := mihomo_groups names l in Ok (g :: gs)
  end.

Definition check_rule_target (names : list string) (entry : nat * ResolvedRule)
    : result CapabilityError unit :=
  let '(i, rule) := entry in
  let tName := TrimSpace (rr_TargetGroupName rule) in
  mihomo_check (negb (mem_str tName [""; "DIRECT"; "REJECT"; "REJECT-DROP"; "PASS"]) &&
                negb (mem_str tName names) && negb (mem_str (TrimSpace (rr_TargetGroupID rule)) names))
    (indexed "rules" i) tName
    ("rule " +:+ Quote (rr_Expression rule) +:+ " targets non-existent group " +:+ Quote tName).

(** ** Rules *)

Definition parseOptionalNoResolve (loc kind : string) (extra : list string) : result CapabilityError bool :=
  match extra with
  | [] => Ok false
  | [opt] =>
      mihomo_check (negb (String.eqb (ToLower (TrimSpace opt)) "no-resolve")) loc kind
        ("unsupported parameter " +:+ Quote (TrimSpace opt) +:+ " in " +:+ kind +:+ " rule") ;;?
      Ok true
  | _ => mihomoError loc kind ("too many parameters in " +:+ kind +:+ " rule")
  end.

Definition port_ok (z : Z) : bool := ((1 <=? z) && (z <=? 65535))%Z.

Definition check_port_segment (loc kind seg : string) : result CapabilityError unit :=
  let seg := TrimSpace seg in
  mihomo_check (String.eqb seg "") loc kind "invalid port expression in routing rule" ;;?
  if Contains seg "-" then
    match Split (byte_of 45) seg with
    | [a; b] =>
        match ParseInt (TrimSpace a), ParseInt (TrimSpace b) with
        | Some start, Some stop =>
            mihomo_check (negb (port_ok start && port_ok stop && (start <=? stop)%Z)) loc kind
              "port range out of bounds in routing rule"
        | _, _ => mihomoError loc kind "port range out of bounds in routing rule"
        end
    | _ => mihomoError loc kind "invalid port range in routing rule"
    end
  else
    match ParseInt seg with
    | Some port => mihomo_check (negb (port_ok port)) loc kind "port number out of bounds in routing rule"
    | None => mihomoError loc kind "port number out of bounds in routing rule"
    end.
Definition validateMihomoPortExpr (loc kind val : string) : result CapabilityError unit :=
  for_each (check_port_segment loc kind) (Split (byte_of 47) val).

Definition isRuleSetURLCandidate (s : string) : bool :=
  let lower := ToLower s in
  HasPrefix lower "http://" || HasPrefix lower "https://" || Contains lower "://".

Definition isRuleSetSecondArgURLOrPath (s : string) : bool :=
  let lower := ToLower s in
  Contains lower "://" || Contains lower "/" || HasPrefix lower "." ||
  existsb (HasSuffix lower) [".invalid"; ".yaml"; ".yml"; ".txt"; ".mrs"; ".list"].

Definition white : list N := [32; 9; 13; 10]%N.

Definition with_https (u : WebURL) : WebURL :=
  {| ul_Scheme := "https"; ul_Opaque := ul_Opaque u; ul_User := ul_User u;
     ul_Host := ToLower (TrimSpace (ul_Host u)); ul_Hostname := ul_Hostname u; ul_Port := ul_Port u;
     ul_Path := ul_Path u; ul_Tail := ul_Tail u |}.

Definition bad_host (u : WebURL) : bool :=
  let host := ToLower (TrimSpace (ul_Hostname u)) in
  blank (ul_Host u) || String.eqb host "" || String.eqb host "invalid" || HasSuffix host ".invalid" ||
  HasPrefix host "." || HasSuffix host "." || Contains host "..".
Definition bad_port (u : WebURL) : bool :=
  negb (String.eqb (ul_Port u) "") &&
  match ParseInt (ul_Port u) with Some port => negb (port_ok port) | None => true end.
Definition bad_path (path : string) : bool :=
  String.eqb path "" || String.eqb path "/" || negb (HasPrefix path "/") || HasSuffix path "/".

Definition validateRuleSetURL (loc raw : string) : result CapabilityError string :=
  let bad {A} why : result CapabilityError A :=
    mihomoError loc "RULE-SET" ("invalid RULE-SET URL " +:+ Quote raw +:+ why) in
  let trimmed := TrimSpace raw in
  if String.eqb trimmed "" || ContainsAny trimmed white then bad ""
  else match ParseURL trimmed with
  | None => bad ": explicit https:// URL is required"
  | Some u =>
      let cleanPath := TrimSpace (ul_Path u) in
      if negb (EqualFold (ul_Scheme u) "https") || negb (String.eqb (ul_Opaque u) "") || ul_User u
      then bad ": explicit https:// URL is required"
      else if bad_host u then bad ": valid non-.invalid host is required"
      else if bad_port u then bad ": invalid port"
      else if bad_path cleanPath then bad ": explicit resource path is required"
      else if existsb (λ seg, mem_str seg [""; "."; ".."])
                (Split (byte_of 47) (default "" (strip_prefix "/" cleanPath)))
      then bad ": relative or empty path segment is forbidden"
      else Ok (FormatURL (with_https u))
  end.

Definition is_name_byte (c : Ascii.ascii) : bool :=
  in_range 97 122 c || in_range 65 90 c || in_range 48 57 c || is_char 45 c || is_char 95 c.
Definition isValidRuleSetIdentifier (s : string) : bool :=
  let lower := ToLower s in
  negb (String.eqb s "" || Contains s ".." || HasPrefix s "." || HasSuffix s "." ||
        String.eqb lower "invalid" || HasSuffix lower ".invalid") &&
  all_bytes (λ c, is_name_byte c || is_char 46 c) s.

(** Each rune that is no name byte becomes an underscore; [skip] bytes belong to one. *)
Fixpoint clean_runes (skip : nat) (s : string) : string :=
  match s with
  | "" => ""
  | String c rest =>
      match skip with
      | S skip => clean_runes skip rest
      | O => String (if is_name_byte c then c else byte_of 95) (clean_runes (rune_width s - 1) rest)
      end
  end.

Definition drop_extension (base : string) : string :=
  match List.find (HasSuffix (ToLower base)) [".yaml"; ".yml"; ".txt"; ".mrs"; ".list"] with
  | Some ext => String.substring 0 (String.length base - String.length ext) base
  | None => base
  end.

Definition sanitizeRuleSetProviderName (rawURL : string) : string :=
  match ParseURL rawURL with
  | Some u =>
      if String.eqb (ul_Path u) "" then "ruleset"
      else
        let base := List.last (Split (byte_of 47) (Trim (ul_Path u) [47]%N)) "" in
        or_else (Trim (clean_runes 0 (drop_extension base)) [95; 45]%N) "ruleset"
  | None => "ruleset"
  end.

(** Name, URL and option of a [RULE-SET] rule. *)
Definition parseMihomoRuleSetExpr (loc : string) (args : list string)
    (existing : gmap string mihomoRuleProvider) : result CapabilityError (string * string * bool) :=
  match args with
  | [] => mihomoError loc "RULE-SET" "routing rule value is required"
  | arg :: rest =>
      let first := TrimSpace arg in
      if String.eqb first "" then mihomoError loc "RULE-SET" "routing rule value is required"
      else if isRuleSetURLCandidate first then
        let? validURL := validateRuleSetURL loc first in
        let? noResolve := parseOptionalNoResolve loc "RULE-SET" rest in
        Ok (sanitizeRuleSetProviderName validURL, validURL, noResolve)
      else if negb (isValidRuleSetIdentifier first) then
        mihomoError loc "RULE-SET" ("invalid RULE-SET provider name " +:+ Quote first)
      else if match rest with second :: _ => isRuleSetSecondArgURLOrPath (TrimSpace second) | [] => false end
      then
        let? validURL := validateRuleSetURL loc (TrimSpace (List.hd "" rest)) in
        let? noResolve := parseOptionalNoResolve loc "RULE-SET" (List.tl rest) in
        Ok (first, validURL, noResolve)
      else
        let? noResolve := parseOptionalNoResolve loc "RULE-SET" rest in
        match existing !! first with
        | Some p => if String.eqb (mp_URL p) "" then
                      mihomoError loc "RULE-SET"
                        ("missing explicit https:// URL for RULE-SET provider " +:+ Quote first)
                    else Ok (first, mp_URL p, noResolve)
        | None => mihomoError loc "RULE-SET"
                    ("missing explicit https:// URL for RULE-SET provider " +:+ Quote first)
        end
  end.

Definition rule_line (kind val target : string) (noResolve : bool) : string :=
  kind +:+ "," +:+ val +:+ "," +:+ target +:+ (if noResolve then ",no-resolve" else "").

(** The address family that a CIDR rule asks for. *)
Definition check_cidr (loc kind val : string) : result CapabilityError unit :=
  match ParsePrefix val with
  | None => mihomoError loc kind ("invalid CIDR " +:+ Quote val +:+ " in " +:+ kind +:+ " rule")
  | Some p =>
      mihomo_check (String.eqb kind "IP-CIDR6" && pfx_Is4 p) loc kind
        "IP-CIDR6 rule requires an IPv6 CIDR prefix" ;;?
      mihomo_check (String.eqb kind "IP-CIDR" && negb (pfx_Is4 p)) loc kind
        "IP-CIDR rule requires an IPv4 CIDR prefix"
  end.

Definition no_parameters (loc kind : string) (extra : list string) : result CapabilityError unit :=
  match extra with
  | [] => Ok tt
  | p :: _ => mihomoError loc kind
                ("unsupported parameter " +:+ Quote (TrimSpace p) +:+ " in " +:+ kind +:+ " rule")
  end.

(** One rule with a value [val] and the parts behind it. *)
Definition mihomo_rule (loc kind arg val : string) (extra : list string) (target : string)
    (providers : gmap string mihomoRuleProvider)
    : result CapabilityError (string * gmap string mihomoRuleProvider) :=
  if mem_str kind ["DOMAIN"; "DOMAIN-SUFFIX"; "DOMAIN-KEYWORD"; "GEOSITE"; "PROCESS-NAME"] then
    no_parameters loc kind extra ;;? Ok (rule_line kind val target false, providers)
  else if String.eqb kind "GEOIP" then
    let? noResolve := parseOptionalNoResolve loc kind extra in
    Ok (rule_line "GEOIP" val target noResolve, providers)
  else if mem_str kind ["IP-CIDR"; "IP-CIDR6"; "SRC-IP-CIDR"] then
    check_cidr loc kind val ;;?
    let? noResolve := parseOptionalNoResolve loc kind extra in
    Ok (rule_line kind val target noResolve, providers)
  else if mem_str kind ["SRC-PORT"; "DST-PORT"; "PORT"] then
    no_parameters loc kind extra ;;?
    validateMihomoPortExpr loc kind val ;;?
    Ok (rule_line (if String.eqb kind "PORT" then "DST-PORT" else kind) val target false, providers)
  else if String.eqb kind "RULE-SET" then
    let? spec := parseMihomoRuleSetExpr loc (arg :: extra) providers in
    let '(name, url, noResolve) := spec in
    mihomo_check match providers !! name with
                 | Some p => negb (String.eqb (mp_URL p) url)
                 | None => false
                 end loc kind ("conflicting URLs for RULE-SET provider " +:+ Quote name) ;;?
    Ok (rule_line "RULE-SET" name target noResolve,
        <[name := {| mp_Type := "http"; mp_Behavior := "classical"; mp_URL := url;
                     mp_Interval := defaultMihomoRuleSetInterval |}]> providers)
  else mihomoError loc kind "routing rule kind is not supported".

Definition render_rule (i : nat) (rule : ResolvedRule) (providers : gmap string mihomoRuleProvider)
    : result CapabilityError (string * gmap string mihomoRuleProvider) :=
  let loc := indexed "rules" i in
  let expr := TrimSpace (rr_Expression rule) in
  let kind := ruleKind expr in
  let target := TrimSpace (rr_TargetGroupName rule) in
  let parts := Split (byte_of 44) expr in
  if IsMatchRule expr then
    mihomo_check (1 <? length parts) loc kind "MATCH rule does not accept parameters" ;;?
    Ok ("MATCH," +:+ target, providers)
  else
    match parts with
    | _ :: arg :: extra =>
        let val := TrimSpace arg in
        mihomo_check (String.eqb val "") loc kind "routing rule value is required" ;;?
        mihomo_check (ContainsAny val white) loc kind ("invalid whitespace in " +:+ kind +:+ " rule value") ;;?
        mihomo_rule loc kind arg val extra target providers
    | _ => mihomoError loc kind "routing rule value is required"
    end.

Fixpoint renderMihomoRules (i : nat) (rules : list ResolvedRule) (providers : gmap string mihomoRuleProvider)
    : result CapabilityError (list string * gmap string mihomoRuleProvider) :=
  match rules with
  | [] => Ok ([], providers)
  | rule :: rules =>
      let? lp := render_rule i rule providers in
      let? rest := renderMihomoRules (S i) rules lp.2 in
      Ok (lp.1 :: rest.1, rest.2)
  end.

(** ** The document *)

Definition mihomo_config (snap : ResolvedPolicySnapshot) : result CapabilityError mihomoConfig :=
  validateMihomoCredentials snap ;;?
  let? proxies := mihomo_proxies 0 (snap_Nodes snap) in
  let names := groupNameSet snap in
  let? groups := mihomo_groups names (enumerate (snap_Groups snap)) in
  for_each (check_rule_target names) (enumerate (snap_Rules snap)) ;;?
  let? rules := renderMihomoRules 0 (snap_Rules snap) ∅ in
  Ok {| mc_Proxies := proxies; mc_ProxyGroups := groups; mc_RuleProviders := rules.2; mc_Rules := rules.1 |}.

Definition renderMihomo (snap : ResolvedPolicySnapshot) : result compile_error string :=
  match mihomo_config snap with
  | Ok config => yaml_Marshal config
  | Err e => Err (capability_error e)
  end.
End Mihomo.
