(* ===== verification/Base64.v ===== *)
(** * Base64

    The four encodings of Go's [encoding/base64] that [internal/probe/singbox/builder.go]
    tries: the standard and the URL alphabet, each with and without padding.  Line breaks in
    the input are skipped, and bits that a last group leaves over are not looked at. *)

From S2P Require Import Prelude.
From S2P Require Import GoStrings.
From S2P Require Import Domain.

Definition sextet (url : bool) (c : Ascii.ascii) : option Z :=
  let n := Z.of_N (Ascii.N_of_ascii c) in
  if in_range 65 90 c then Some (n - 65)%Z
  else if in_range 97 122 c then Some (n - 71)%Z
  else if in_range 48 57 c then Some (n + 4)%Z
  else if is_char (if url then 45 else 43) c then Some 62%Z
  else if is_char (if url then 95 else 47) c then Some 63%Z
  else None.

Definition one_byte (a b : Z) : list Z := [a * 4 + b / 16]%Z.
Definition two_bytes (a b c : Z) : list Z := [a * 4 + b / 16; b `mod` 16 * 16 + c / 4]%Z.
Definition three_bytes (a b c d : Z) : list Z :=
  [a * 4 + b / 16; b `mod` 16 * 16 + c / 4; c `mod` 4 * 64 + d]%Z.

Definition is_pad (c : Ascii.ascii) : bool := is_char 61 c.

(** Groups of four; [padded] tells whether the last one is filled with [=]. *)
Fixpoint base64_groups (url padded : bool) (s : string) : option (list Z) :=
  match s with
  | "" => Some []
  | String a (String b "") =>
      match sextet url a, sextet url b with
      | Some a, Some b => if padded then None else Some (one_byte a b)
      | _, _ => None
      end
  | String a (String b (String c "")) =>
      match sextet url a, sextet url b, sextet url c with
      | Some a, Some b, Some c => if padded then None else Some (two_bytes a b c)
      | _, _, _ => None
      end
  | String a (String b (String c (String d rest))) =>
      match sextet url a, sextet url b, sextet url c, sextet url d with
      | Some a, Some b, Some c, Some d => app (three_bytes a b c d) <$> base64_groups url padded rest
      | Some a, Some b, Some c, None =>
          if padded && is_pad d && String.eqb rest "" then Some (two_bytes a b c) else None
      | Some a, Some b, None, None =>
          if padded && is_pad c && is_pad d && String.eqb rest "" then Some (one_byte a b) else None
      | _, _, _, _ => None
      end
  | _ => None
  end.

Fixpoint without_breaks (s : string) : string :=
  match s with
  | "" => ""
  | String c s => if is_char 10 c || is_char 13 c then without_breaks s else String c (without_breaks s)
  end.

Definition DecodeString (url padded : bool) (s : string) : option (list Z) :=
  base64_groups url padded (without_breaks s).

Definition base64_letters : string := "ABCDEFGHIJKLMNOPQRSTUVWXYZabcdefghijklmnopqrstuvwxyz0123456789-_".
Definition base64_letter (z : Z) : Ascii.ascii := default (byte_of 65) (String.get (Z.to_nat z) base64_letters).

(** [base64.RawURLEncoding.EncodeToString] *)
Fixpoint EncodeToString (l : list Z) : string :=
  match l with
  | [] => ""
  | [a] => String (base64_letter (a / 4)) (String (base64_letter (a `mod` 4 * 16)) "")
  | [a; b] =>
      String (base64_letter (a / 4)) (String (base64_letter (a `mod` 4 * 16 + b / 16))
        (String (base64_letter (b `mod` 16 * 4)) ""))
  | a :: b :: c :: l =>
      String (base64_letter (a / 4)) (String (base64_letter (a `mod` 4 * 16 + b / 16))
        (String (base64_letter (b `mod` 16 * 4 + c / 64)) (String (base64_letter (c `mod` 64))
          (EncodeToString l))))
  end%Z.

(** ** What was encoded is decoded again *)

Lemma letter_cases (P : Z → Prop) :
  Forall P (map Z.of_nat (seq 0 64)) → ∀ z, (0 ≤ z < 64)%Z → P z.
Proof.
  intros Hall z Hz. rewrite Forall_forall in Hall. apply Hall.
  rewrite list_elem_of_In, in_map_iff. exists (Z.to_nat z). rewrite in_seq. lia.
Qed.

Lemma sextet_letter z : (0 ≤ z < 64)%Z → sextet true (base64_letter z) = Some z.
Proof. revert z. apply letter_cases. vm_compute. repeat constructor. Qed.

Lemma letter_unbroken z :
  (0 ≤ z < 64)%Z → is_char 10 (base64_letter z) || is_char 13 (base64_letter z) = false.
Proof. revert z. apply letter_cases. vm_compute. repeat constructor. Qed.

(** Induction in steps of three bytes. *)
Lemma list_ind3 {A} (P : list A → Prop) :
  P [] → (∀ a, P [a]) → (∀ a b, P [a; b]) → (∀ a b c l, P l → P (a :: b :: c :: l)) → ∀ l, P l.
Proof.
  intros H0 H1 H2 H3. fix IH 1. intros [|a [|b [|c l]]]; [done|done|done|apply H3, IH].
Qed.

Ltac byte_bounds :=
  repeat match goal with E : Forall is_byte (_ :: _) |- _ => inversion_clear E end;
  unfold is_byte in *.

Lemma encoded_unbroken l : Forall is_byte l → without_breaks (EncodeToString l) = EncodeToString l.
Proof.
  induction l as [|a|a b|a b c l IH] using list_ind3; intros Hl; byte_bounds; [done|..];
    cbn [EncodeToString without_breaks];
    repeat (rewrite letter_unbroken by (Z.div_mod_to_equations; lia)); [done|done|].
  by rewrite IH.
Qed.

Lemma EncodeToString_decode l : Forall is_byte l → DecodeString true false (EncodeToString l) = Some l.
Proof.
  intros Hl. unfold DecodeString. rewrite encoded_unbroken by done.
  induction l as [|a|a b|a b c l IH] using list_ind3; byte_bounds; [done|..];
    cbn [EncodeToString base64_groups]; rewrite !sextet_letter by (Z.div_mod_to_equations; lia).
  - unfold one_byte. do 2 f_equal. Z.div_mod_to_equations; lia.
  - unfold two_bytes. do 2 f_equal; [|f_equal]; Z.div_mod_to_equations; lia.
  - rewrite IH by done. unfold three_bytes. simpl. do 2 f_equal; [|f_equal; [|f_equal]];
      Z.div_mod_to_equations; lia.
Qed.

(** ** What is decoded is a list of bytes *)

Lemma sextet_range url c z : sextet url c = Some z → (0 ≤ z < 64)%Z.
Proof.
  unfold sextet, in_range. set (n := Ascii.N_of_ascii c).
  repeat case_match; intros [= <-]; repeat match goal with
  | E : (_ && _) = true |- _ => apply andb_true_iff in E as [?%N.leb_le ?%N.leb_le]
  end; lia.
Qed.

Lemma base64_bytes url padded s : ∀ l, base64_groups url padded s = Some l → Forall is_byte l.
Proof.
  assert (Hgroup : ∀ n s l, String.length s ≤ n → base64_groups url padded s = Some l → Forall is_byte l).
  { intros n. induction n as [|n IH]; intros t l Hlen Hd.
    { destruct t; [injection Hd as <-; constructor|simpl in Hlen; lia]. }
    destruct t as [|a [|b [|c [|d rest]]]]; cbn [base64_groups] in Hd; [injection Hd as <-; constructor|discriminate|..];
      repeat match type of Hd with context [sextet url ?x] =>
        let E := fresh "Hx" in destruct (sextet url x) eqn:E; [apply sextet_range in E|] end;
      try done; try (destruct (_ && _); [|done]); try (destruct padded; [done|]).
    all: match type of Hd with
    | _ <$> ?g = _ => destruct g as [l'|] eqn:Hrest; [|done]; apply IH in Hrest; [|simpl in Hlen; lia]
    | _ => idtac
    end.
    all: injection Hd as <-; repeat constructor; try done; unfold is_byte; Z.div_mod_to_equations; lia. }
  intros l. by apply (Hgroup (String.length s)).
Qed.

Lemma DecodeString_bytes url padded s l : DecodeString url padded s = Some l → Forall is_byte l.
Proof. apply base64_bytes. Qed.
