(* ===== verification/SingBox.v ===== *)
(** * sing-box options of a node

    [internal/probe/singbox]: [payload_config.go] flattens a node into a [NodeConfig],
    [builder.go] turns that into the options of an outbound or endpoint, [BuildOptions] of the
    same file does so for a probe and [compiler_export.go] for a published file, which
    [renderSingBox] of [internal/compiler/singbox.go] assembles.  An error is its text. *)

From S2P Require Import Prelude.
From S2P Require Import GoStrings.
From S2P Require Import Domain.
From S2P Require Import Lifecycle.
From S2P Require Import NodeFilter.
From S2P Require Import Policy.
From S2P Require Import Groups.
From S2P Require Import ResolveGroups.
From S2P Require Import Resolver.
From S2P Require Import Prune.
From S2P Require Import SingBoxDocument.
From S2P Require Import Capabilities.
From S2P Require Import Base64.

(** ** Configuration of a node *)

Record NodeConfig : Type := {
  nc_LogicalID : string;
  nc_DisplayName : string;
  nc_Protocol : string;
  nc_Server : string;
  nc_Port : Z;
  nc_Method : string;
  nc_Password : string;
  nc_UUID : string;
  nc_AlterID : Z;
  nc_PrivateKey : string;
  nc_PublicKey : string;
  nc_PresharedKey : string;
  nc_Network : string;
  nc_TLS : bool;
  nc_SNI : string;
  nc_ALPN : list string;
  nc_SkipCertVerify : bool;
  nc_ClientFingerprint : string;
  nc_Transport : option (gmap string string);
  nc_Path : string;
  nc_Headers : option (gmap string string);
  nc_ServiceName : string;
  nc_RealityPublicKey : string;
  nc_RealityShortID : string;
  nc_Hy2Ports : string;
  nc_Hy2Obfs : string;
  nc_Hy2ObfsPassword : string;
  nc_TUICCongestionControl : string;
  nc_TUICUDPRelayMode : string;
  nc_TUICDisableSNI : bool;
  nc_LocalAddress : list string;
  nc_Reserved : list Z;
  nc_MTU : Z;
  nc_Username : string
}.

(** [parser.NormalizedNode] *)
Record NormalizedNode : Type := {
  nn_Node : Node;
  nn_Server : string;
  nn_Port : Z;
  nn_Transport : option (gmap string string);
  nn_Credentials : InboundProtocolCredential
}.

Definition new_config (n : Node) (server : string) (port : Z) (transport : option (gmap string string))
    : NodeConfig :=
  {| nc_LogicalID := node_LogicalID n; nc_DisplayName := node_DisplayName n;
     nc_Protocol := node_Protocol n; nc_Server := server; nc_Port := port; nc_Transport := transport;
     nc_Method := ""; nc_Password := ""; nc_UUID := ""; nc_AlterID := 0; nc_PrivateKey := "";
     nc_PublicKey := ""; nc_PresharedKey := ""; nc_Network := ""; nc_TLS := false; nc_SNI := "";
     nc_ALPN := []; nc_SkipCertVerify := false; nc_ClientFingerprint := ""; nc_Path := "";
     nc_Headers := None; nc_ServiceName := ""; nc_RealityPublicKey := ""; nc_RealityShortID := "";
     nc_Hy2Ports := ""; nc_Hy2Obfs := ""; nc_Hy2ObfsPassword := ""; nc_TUICCongestionControl := "";
     nc_TUICUDPRelayMode := ""; nc_TUICDisableSNI := false; nc_LocalAddress := []; nc_Reserved := [];
     nc_MTU := 0; nc_Username := "" |}.

Section SingBox.
Context `{GoText} `{Backend}.

Definition first_trimmed (m : option (gmap string string)) (keys : list string) : string :=
  first_nonempty (map (λ k, TrimSpace (map_get m k)) keys).

Definition applyTransportFields (cfg : NodeConfig) (m : option (gmap string string)) : NodeConfig :=
  match m with
  | None => cfg
  | Some _ =>
      {| nc_LogicalID := nc_LogicalID cfg; nc_DisplayName := nc_DisplayName cfg;
         nc_Protocol := nc_Protocol cfg; nc_Server := nc_Server cfg; nc_Port := nc_Port cfg;
         nc_Method := nc_Method cfg; nc_Password := nc_Password cfg; nc_UUID := nc_UUID cfg;
         nc_AlterID := nc_AlterID cfg; nc_PrivateKey := nc_PrivateKey cfg;
         nc_PublicKey := nc_PublicKey cfg; nc_PresharedKey := nc_PresharedKey cfg;
         nc_Network := or_else (nc_Network cfg) (map_get m "network");
         nc_TLS := nc_TLS cfg || IsTruthy (map_get m "tls");
         nc_SNI := or_else (nc_SNI cfg) (map_get m "sni");
         nc_ALPN := match nc_ALPN cfg with
                    | [] => trimmed (Split (byte_of 44) (TrimSpace (map_get m "alpn")))
                    | l => l
                    end;
         nc_SkipCertVerify := nc_SkipCertVerify cfg || HasInsecureTransport m;
         nc_ClientFingerprint :=
           or_else (nc_ClientFingerprint cfg) (first_trimmed m ["fp"; "client_fingerprint"]);
         nc_Transport := nc_Transport cfg;
         nc_Path := or_else (nc_Path cfg) (map_get m "path");
         nc_Headers := match nc_Headers cfg with
                       | None => if String.eqb (map_get m "host") "" then None
                                 else Some {["Host" := map_get m "host"]}
                       | h => h
                       end;
         nc_ServiceName := or_else (nc_ServiceName cfg) (map_get m "service_name");
         nc_RealityPublicKey :=
           or_else (nc_RealityPublicKey cfg) (first_trimmed m ["pbk"; "reality_public_key"]);
         nc_RealityShortID :=
           or_else (nc_RealityShortID cfg) (first_trimmed m ["sid"; "reality_short_id"]);
         nc_Hy2Ports := or_else (nc_Hy2Ports cfg) (ExtractHy2Ports m);
         nc_Hy2Obfs := or_else (nc_Hy2Obfs cfg) (TrimSpace (map_get m "obfs"));
         nc_Hy2ObfsPassword :=
           or_else (nc_Hy2ObfsPassword cfg) (first_trimmed m ["obfs-password"; "obfs_password"]);
         nc_TUICCongestionControl := nc_TUICCongestionControl cfg;
         nc_TUICUDPRelayMode := nc_TUICUDPRelayMode cfg;
         nc_TUICDisableSNI := nc_TUICDisableSNI cfg || HasTUICDisableSNI m;
         nc_LocalAddress := nc_LocalAddress cfg; nc_Reserved := nc_Reserved cfg;
         nc_MTU := nc_MTU cfg; nc_Username := nc_Username cfg |}
  end.

(** The credentials of [NodeConfigFromPayload]. *)
Definition apply_credentials (cfg : NodeConfig) (c : InboundProtocolCredential) : NodeConfig :=
  {| nc_LogicalID := nc_LogicalID cfg; nc_DisplayName := nc_DisplayName cfg;
     nc_Protocol := nc_Protocol cfg; nc_Server := nc_Server cfg; nc_Port := nc_Port cfg;
     nc_Method := cred_Method c; nc_Password := cred_Password c; nc_UUID := cred_UUID c;
     nc_AlterID := cred_AlterID c; nc_PrivateKey := cred_PrivateKey c; nc_PublicKey := cred_PublicKey c;
     nc_PresharedKey := EffectivePreSharedKey c; nc_Network := nc_Network cfg; nc_TLS := nc_TLS cfg;
     nc_SNI := or_else (nc_SNI cfg) (cred_SNI c);
     nc_ALPN := match nc_ALPN cfg with [] => cred_ALPN c | l => l end;
     nc_SkipCertVerify := nc_SkipCertVerify cfg; nc_ClientFingerprint := nc_ClientFingerprint cfg;
     nc_Transport := nc_Transport cfg; nc_Path := nc_Path cfg; nc_Headers := nc_Headers cfg;
     nc_ServiceName := nc_ServiceName cfg; nc_RealityPublicKey := nc_RealityPublicKey cfg;
     nc_RealityShortID := nc_RealityShortID cfg; nc_Hy2Ports := nc_Hy2Ports cfg;
     nc_Hy2Obfs := nc_Hy2Obfs cfg; nc_Hy2ObfsPassword := nc_Hy2ObfsPassword cfg;
     nc_TUICCongestionControl := or_else (cred_CongestionControl c) (nc_TUICCongestionControl cfg);
     nc_TUICUDPRelayMode := or_else (cred_UDPRelayMode c) (nc_TUICUDPRelayMode cfg);
     nc_TUICDisableSNI := cred_DisableSNI c || nc_TUICDisableSNI cfg;
     nc_LocalAddress := match cred_LocalAddress c with [] => nc_LocalAddress cfg | l => l end;
     nc_Reserved := match cred_Reserved c with [] => nc_Reserved cfg | l => l end;
     nc_MTU := if (0 <? cred_MTU c)%Z then (cred_MTU c `mod` 2 ^ 32)%Z else nc_MTU cfg;
     nc_Username := cred_Username c |}.

(** The same configuration with another TLS identity, HTTP headers, method and TUIC options. *)
Definition with_identity (cfg : NodeConfig) (tls : bool) (sni : string)
    (headers : option (gmap string string)) : NodeConfig :=
  {| nc_LogicalID := nc_LogicalID cfg; nc_DisplayName := nc_DisplayName cfg;
     nc_Protocol := nc_Protocol cfg; nc_Server := nc_Server cfg; nc_Port := nc_Port cfg;
     nc_Method := nc_Method cfg; nc_Password := nc_Password cfg; nc_UUID := nc_UUID cfg;
     nc_AlterID := nc_AlterID cfg; nc_PrivateKey := nc_PrivateKey cfg; nc_PublicKey := nc_PublicKey cfg;
     nc_PresharedKey := nc_PresharedKey cfg; nc_Network := nc_Network cfg; nc_TLS := tls; nc_SNI := sni;
     nc_ALPN := nc_ALPN cfg; nc_SkipCertVerify := nc_SkipCertVerify cfg;
     nc_ClientFingerprint := nc_ClientFingerprint cfg; nc_Transport := nc_Transport cfg;
     nc_Path := nc_Path cfg; nc_Headers := headers; nc_ServiceName := nc_ServiceName cfg;
     nc_RealityPublicKey := nc_RealityPublicKey cfg; nc_RealityShortID := nc_RealityShortID cfg;
     nc_Hy2Ports := nc_Hy2Ports cfg; nc_Hy2Obfs := nc_Hy2Obfs cfg;
     nc_Hy2ObfsPassword := nc_Hy2ObfsPassword cfg;
     nc_TUICCongestionControl := nc_TUICCongestionControl cfg;
     nc_TUICUDPRelayMode := nc_TUICUDPRelayMode cfg; nc_TUICDisableSNI := nc_TUICDisableSNI cfg;
     nc_LocalAddress := nc_LocalAddress cfg; nc_Reserved := nc_Reserved cfg; nc_MTU := nc_MTU cfg;
     nc_Username := nc_Username cfg |}.
Definition with_options (cfg : NodeConfig) (method congestion relay : string) : NodeConfig :=
  {| nc_LogicalID := nc_LogicalID cfg; nc_DisplayName := nc_DisplayName cfg;
     nc_Protocol := nc_Protocol cfg; nc_Server := nc_Server cfg; nc_Port := nc_Port cfg;
     nc_Method := method; nc_Password := nc_Password cfg; nc_UUID := nc_UUID cfg;
     nc_AlterID := nc_AlterID cfg; nc_PrivateKey := nc_PrivateKey cfg; nc_PublicKey := nc_PublicKey cfg;
     nc_PresharedKey := nc_PresharedKey cfg; nc_Network := nc_Network cfg; nc_TLS := nc_TLS cfg;
     nc_SNI := nc_SNI cfg; nc_ALPN := nc_ALPN cfg; nc_SkipCertVerify := nc_SkipCertVerify cfg;
     nc_ClientFingerprint := nc_ClientFingerprint cfg; nc_Transport := nc_Transport cfg;
     nc_Path := nc_Path cfg; nc_Headers := nc_Headers cfg; nc_ServiceName := nc_ServiceName cfg;
     nc_RealityPublicKey := nc_RealityPublicKey cfg; nc_RealityShortID := nc_RealityShortID cfg;
     nc_Hy2Ports := nc_Hy2Ports cfg; nc_Hy2Obfs := nc_Hy2Obfs cfg;
     nc_Hy2ObfsPassword := nc_Hy2ObfsPassword cfg; nc_TUICCongestionControl := congestion;
     nc_TUICUDPRelayMode := relay; nc_TUICDisableSNI := nc_TUICDisableSNI cfg;
     nc_LocalAddress := nc_LocalAddress cfg; nc_Reserved := nc_Reserved cfg; nc_MTU := nc_MTU cfg;
     nc_Username := nc_Username cfg |}.
Definition with_method (cfg : NodeConfig) (method : string) : NodeConfig :=
  with_options cfg method (nc_TUICCongestionControl cfg) (nc_TUICUDPRelayMode cfg).
Definition with_TLS (cfg : NodeConfig) (tls : bool) : NodeConfig :=
  with_identity cfg tls (nc_SNI cfg) (nc_Headers cfg).

(** The name of the server stands in for a missing TLS name and [Host] header. *)
Definition server_identity (cfg : NodeConfig) : NodeConfig :=
  if negb (String.eqb (nc_Server cfg) "") && negb (ParseIP_ok (Trim (nc_Server cfg) [91; 93]%N)) then
    let usesTLS := nc_TLS cfg || mem_str (nc_Protocol cfg) [ProtocolTrojan; ProtocolHysteria2; ProtocolTUIC] in
    let sni := if usesTLS then or_else (nc_SNI cfg) (nc_Server cfg) else nc_SNI cfg in
    let headers :=
      if mem_str (nc_Network cfg) ["ws"; "http"; "httpupgrade"; "grpc"] then
        let old := default ∅ (nc_Headers cfg) in
        Some match old !! "Host" with
             | Some _ => old
             | None => <["Host" := if String.eqb (nc_Network cfg) "grpc" && negb (String.eqb sni "")
                                   then sni else nc_Server cfg]> old
             end
      else nc_Headers cfg in
    with_identity cfg (nc_TLS cfg) sni headers
  else cfg.

Definition or_transport (a b : option (gmap string string)) : option (gmap string string) :=
  match a with Some _ => a | None => b end.

(** [payload] is the [Credentials] of the payload, where there is one. *)
Definition NodeConfigFromPayload (norm : NormalizedNode) (payload : option InboundProtocolCredential)
    : NodeConfig :=
  let node := nn_Node norm in
  let server := or_else (nn_Server norm) (node_Server node) in
  let port := if Z.eqb (nn_Port norm) 0 then node_Port node else nn_Port norm in
  let transport := or_transport (nn_Transport norm)
    (or_transport (cred_Transport (nn_Credentials norm)) (cred_Transport (node_Credentials node))) in
  let creds := match payload with
    | Some c => c
    | None =>
        let c := nn_Credentials norm in
        if String.eqb (cred_Password c) "" && String.eqb (cred_UUID c) "" && String.eqb (cred_PrivateKey c) ""
        then node_Credentials node else c
    end in
  let cfg := applyTransportFields (new_config node server port transport) transport in
  let cfg := applyTransportFields (apply_credentials cfg creds) (cred_Transport creds) in
  let cfg := if String.eqb (nc_Protocol cfg) ProtocolVLESS &&
                (negb (blank (map_get (nc_Transport cfg) "flow")) ||
                 negb (String.eqb (nc_RealityPublicKey cfg) ""))
             then with_TLS cfg true else cfg in
  server_identity cfg.

Definition NodeConfigFromNode (node : Node) : NodeConfig :=
  NodeConfigFromPayload
    {| nn_Node := node; nn_Server := node_Server node; nn_Port := node_Port node;
       nn_Transport := cred_Transport (node_Credentials node); nn_Credentials := node_Credentials node |}
    (Some (node_Credentials node)).

(** ** Outbounds and endpoints *)

(** [domain.NewValidationError(code, message).Error()] *)
Definition validation_error (code message : string) : string :=
  "[validation/" +:+ code +:+ "] " +:+ RedactSensitiveInfo message.
Definition refuse_if (b : bool) (code message : string) : result string unit :=
  reject_if b (validation_error code message).

Definition ErrInvalidPort : string := validation_error "invalid_port" "node port must be between 1 and 65535".
Definition ErrMissingServer : string := validation_error "missing_server" "node server address is required".
Definition ErrUnsupportedProto : string :=
  validation_error "unsupported_protocol" "unsupported protocol for sing-box runtime".

Definition serverOptions (config : NodeConfig) : ServerOptions :=
  {| so_Server := nc_Server config; so_ServerPort := (nc_Port config `mod` 2 ^ 16)%Z |}.

Definition determineTransportType (config : NodeConfig) : string :=
  let raw := or_else (map_get (nc_Transport config) "type") (map_get (nc_Transport config) "network") in
  let lower := ToLower (TrimSpace (nc_Network config)) in
  let raw := if String.eqb raw "" && negb (String.eqb (nc_Network config) "") &&
                mem_str lower ["ws"; "websocket"; "grpc"; "http"; "httpupgrade"; "quic"; "xhttp"]
             then lower else raw in
  let raw := ToLower (TrimSpace raw) in
  if String.eqb raw "websocket" then "ws" else raw.

Definition networkName (config : NodeConfig) : string :=
  let t := determineTransportType config in
  if negb (String.eqb t "") then t
  else if negb (String.eqb (nc_Network config) "") then ToLower (TrimSpace (nc_Network config))
  else if negb (String.eqb (map_get (nc_Transport config) "network") "")
  then ToLower (TrimSpace (map_get (nc_Transport config) "network"))
  else "tcp".

Definition tcp_and_udp : string := "tcp" +:+ bytes [10]%N +:+ "udp".
Definition determineL4Network (config : NodeConfig) : string :=
  if mem_str (nc_Protocol config) [ProtocolHysteria2; ProtocolTUIC] then "udp"
  else
    let netStr := ToLower (TrimSpace (nc_Network config)) in
    if String.eqb netStr "udp" then "udp"
    else if String.eqb netStr "tcp" then "tcp"
    else if mem_str netStr ["tcp,udp"; "tcp/udp"; "all"; "both"] then tcp_and_udp
    else if IsTruthy (map_get (nc_Transport config) "udp") then tcp_and_udp
    else if String.eqb (nc_Protocol config) ProtocolSS then tcp_and_udp
    else "tcp".

Definition buildV2RayTransport (config : NodeConfig) (tlsEnabled : bool)
    : result string (option V2RayTransportOptions) :=
  let headers : HTTPHeader := (λ v, [v]) <$> default ∅ (nc_Headers config) in
  let path := or_else (nc_Path config) (map_get (nc_Transport config) "path") in
  let host := or_else (map_get (nc_Headers config) "Host") (map_get (nc_Transport config) "host") in
  let type := determineTransportType config in
  if String.eqb type "xhttp" then
    Err (validation_error "unsupported_transport"
           "xhttp transport is not supported by underlying sing-box library")
  else if String.eqb type "http" then
    Ok (Some (V2RayHTTP (if String.eqb host "" then [] else [host]) path headers))
  else if String.eqb type "httpupgrade" then Ok (Some (V2RayHTTPUpgrade host path headers))
  else if String.eqb type "ws" then Ok (Some (V2RayWebsocket path headers))
  else if String.eqb type "grpc" then
    refuse_if (negb (String.eqb host "") &&
               (negb tlsEnabled || String.eqb (nc_SNI config) "" || negb (EqualFold host (nc_SNI config))))
      "unsupported_grpc_host"
      "grpc transport cannot override Host/authority independently of TLS SNI in sing-box" ;;?
    Ok (Some (V2RayGRPC (or_else (nc_ServiceName config) (map_get (nc_Transport config) "service_name"))))
  else Ok None.

(** [option.OutboundTLSOptions] with the name, the certificate check and the ALPN of a node. *)
Definition tls_options (config : NodeConfig) (disableSNI : bool) : OutboundTLSOptions :=
  {| tls_Enabled := true; tls_DisableSNI := disableSNI; tls_ServerName := nc_SNI config;
     tls_Insecure := nc_SkipCertVerify config; tls_ALPN := nc_ALPN config; tls_UTLS := None;
     tls_Reality := None |}.
Definition with_utls (fingerprint : string) (o : OutboundTLSOptions) : OutboundTLSOptions :=
  {| tls_Enabled := tls_Enabled o; tls_DisableSNI := tls_DisableSNI o; tls_ServerName := tls_ServerName o;
     tls_Insecure := tls_Insecure o; tls_ALPN := tls_ALPN o;
     tls_UTLS := Some {| utls_Enabled := true; utls_Fingerprint := fingerprint |};
     tls_Reality := tls_Reality o |}.
Definition with_reality (key shortID : string) (o : OutboundTLSOptions) : OutboundTLSOptions :=
  {| tls_Enabled := tls_Enabled o; tls_DisableSNI := tls_DisableSNI o; tls_ServerName := tls_ServerName o;
     tls_Insecure := tls_Insecure o; tls_ALPN := tls_ALPN o; tls_UTLS := tls_UTLS o;
     tls_Reality := Some {| rlt_Enabled := true; rlt_PublicKey := key; rlt_ShortID := shortID |} |}.

Definition buildShadowsocksOutbound (config : NodeConfig) : ShadowsocksOutboundOptions :=
  {| sso_Server := serverOptions config; sso_Method := or_else (nc_Method config) "aes-256-gcm";
     sso_Password := nc_Password config; sso_Network := determineL4Network config |}.

Definition transport_tls (config : NodeConfig) : bool :=
  nc_TLS config || String.eqb (map_get (nc_Transport config) "tls") "true".

Definition buildVMessOutbound (config : NodeConfig) : result string VMessOutboundOptions :=
  let tls := if transport_tls config then Some (tls_options config false) else None in
  let? transport := buildV2RayTransport config match tls with Some o => tls_Enabled o | None => false end in
  Ok {| vmo_Server := serverOptions config; vmo_UUID := nc_UUID config;
        vmo_Security := or_else (nc_Method config) "auto"; vmo_AlterId := nc_AlterID config;
        vmo_Network := determineL4Network config; vmo_TLS := tls; vmo_Transport := transport |}.

(** The four decodings of a REALITY public key, in the order they are tried. *)
Definition decode_key (s : string) : option (list Z) :=
  let try (d : option (list Z)) (k : option (list Z)) := match d with Some _ => d | None => k end in
  try (DecodeString true false s) (try (DecodeString true true s)
    (try (DecodeString false false s) (DecodeString false true s))).

Definition check_short_id (sid : string) : result string unit :=
  if String.eqb sid "" then Ok tt
  else
    let bad := "invalid_reality_short_id" in
    refuse_if (negb (Nat.even (String.length sid))) bad "Reality short ID must be an even-length hex string" ;;?
    refuse_if (16 <? String.length sid) bad
      "Reality short ID must not exceed 8 bytes (16 hex characters)" ;;?
    refuse_if (negb (all_bytes is_hex sid)) bad
      "Reality short ID must contain only valid hex characters".

Definition reality_options (config : NodeConfig) (tls : OutboundTLSOptions)
    : result string OutboundTLSOptions :=
  if String.eqb (nc_RealityPublicKey config) "" then Ok tls
  else
    let bad := Err (validation_error "invalid_reality_public_key"
                      "Reality public key must decode to exactly 32 bytes") in
    match decode_key (TrimSpace (nc_RealityPublicKey config)) with
    | Some decoded =>
        if negb (length decoded =? 32) then bad
        else
          let sidRaw := TrimSpace (nc_RealityShortID config) in
          check_short_id sidRaw ;;?
          let tls := with_reality (EncodeToString decoded) sidRaw tls in
          Ok (match tls_UTLS tls with Some _ => tls | None => with_utls "chrome" tls end)
    | None => bad
    end.

Definition buildVLESSOutbound (config : NodeConfig) : result string VLESSOutboundOptions :=
  let flow := TrimSpace (map_get (nc_Transport config) "flow") in
  refuse_if (negb (String.eqb flow "") && negb (String.eqb flow "xtls-rprx-vision"))
    "unsupported_vless_flow" "unsupported vless flow" ;;?
  let? tls :=
    if negb (String.eqb flow "") || transport_tls config || negb (String.eqb (nc_RealityPublicKey config) "")
    then
      let o := tls_options config false in
      let o := if String.eqb (nc_ClientFingerprint config) "" then o
               else with_utls (nc_ClientFingerprint config) o in
      let? o := reality_options config o in Ok (Some o)
    else Ok None in
  let? transport := buildV2RayTransport config match tls with Some o => tls_Enabled o | None => false end in
  Ok {| vlo_Server := serverOptions config; vlo_UUID := nc_UUID config; vlo_Flow := flow;
        vlo_Network := determineL4Network config; vlo_TLS := tls; vlo_Transport := transport |}.

Definition buildTrojanOutbound (config : NodeConfig) : result string TrojanOutboundOptions :=
  let? transport := buildV2RayTransport config true in
  Ok {| tro_Server := serverOptions config; tro_Password := nc_Password config;
        tro_Network := determineL4Network config; tro_TLS := Some (tls_options config false);
        tro_Transport := transport |}.

Definition buildHysteria2Outbound (config : NodeConfig) : Hysteria2OutboundOptions :=
  {| hyo_Server := serverOptions config;
     hyo_ServerPorts := if String.eqb (nc_Hy2Ports config) "" then [] else [nc_Hy2Ports config];
     hyo_UpMbps := 0; hyo_DownMbps := 0;
     hyo_Obfs := if String.eqb (nc_Hy2Obfs config) "" then None
                 else Some {| obf_Type := nc_Hy2Obfs config; obf_Password := nc_Hy2ObfsPassword config |};
     hyo_Password := nc_Password config; hyo_Network := determineL4Network config;
     hyo_TLS := Some (tls_options config false) |}.

Definition buildTUICOutbound (config : NodeConfig) : TUICOutboundOptions :=
  {| tuo_Server := serverOptions config; tuo_UUID := nc_UUID config; tuo_Password := nc_Password config;
     tuo_CongestionControl := nc_TUICCongestionControl config;
     tuo_UDPRelayMode := nc_TUICUDPRelayMode config; tuo_Network := determineL4Network config;
     tuo_TLS := Some (tls_options config (nc_TUICDisableSNI config)) |}.

Definition local_prefix (raw : string) : option Prefix :=
  let raw := TrimSpace raw in
  if String.eqb raw "" then None
  else ParsePrefix (if Contains raw "/" then raw
                    else raw +:+ (if Contains raw ":" then "/128" else "/32")).

Definition buildWireGuardEndpoint (config : NodeConfig) (tag : string) : result string Endpoint :=
  refuse_if (String.eqb (nc_PrivateKey config) "") "missing_private_key" "wireguard private key is required" ;;?
  let addrList := match omap local_prefix (nc_LocalAddress config) with
                  | [] => [MustParsePrefix "10.0.0.2/32"]
                  | l => l
                  end in
  let peer := {| wp_Address := nc_Server config; wp_Port := (nc_Port config `mod` 2 ^ 16)%Z;
                 wp_PublicKey := nc_PublicKey config; wp_PreSharedKey := nc_PresharedKey config;
                 wp_AllowedIPs := [MustParsePrefix "0.0.0.0/0"]; wp_Reserved := nc_Reserved config |} in
  Ok {| ep_Tag := tag;
        ep_Options := {| we_PrivateKey := nc_PrivateKey config; we_Address := addrList;
                         we_MTU := if Z.eqb (nc_MTU config) 0 then 1420 else nc_MTU config;
                         we_Peers := [peer] |} |}.

Definition buildSOCKSOutbound (config : NodeConfig) : SOCKSOutboundOptions :=
  {| sko_Server := serverOptions config; sko_Version := "5"; sko_Username := nc_Username config;
     sko_Password := nc_Password config; sko_Network := determineL4Network config |}.
Definition buildHTTPOutbound (config : NodeConfig) : HTTPOutboundOptions :=
  {| hto_Server := serverOptions config; hto_Username := nc_Username config;
     hto_Password := nc_Password config |}.

Definition BuildOutbound (config : NodeConfig) (tag : string) : result string Outbound :=
  let tag := or_else tag (or_else (nc_LogicalID config) "node-probe") in
  let outbound o := Ok {| ob_Tag := tag; ob_Options := o |} in
  let protocol := nc_Protocol config in
  if String.eqb protocol ProtocolSS then outbound (ShadowsocksOutbound (buildShadowsocksOutbound config))
  else if String.eqb protocol ProtocolVMess then
    let? o := buildVMessOutbound config in outbound (VMessOutbound o)
  else if String.eqb protocol ProtocolVLESS then
    let? o := buildVLESSOutbound config in outbound (VLESSOutbound o)
  else if String.eqb protocol ProtocolTrojan then
    let? o := buildTrojanOutbound config in outbound (TrojanOutbound o)
  else if String.eqb protocol ProtocolHysteria2 then outbound (Hysteria2Outbound (buildHysteria2Outbound config))
  else if String.eqb protocol ProtocolTUIC then outbound (TUICOutbound (buildTUICOutbound config))
  else if mem_str protocol ["socks"; "socks5"] then outbound (SOCKSOutbound (buildSOCKSOutbound config))
  else if String.eqb protocol "http" then outbound (HTTPOutbound (buildHTTPOutbound config))
  else Err (ErrUnsupportedProto +:+ ": " +:+ protocol).

(** The options of a probe and the tag its traffic leaves by. *)
Definition BuildOptions (config : NodeConfig) : result string (Options * string) :=
  reject_if (String.eqb (nc_Server config) "") ErrMissingServer ;;?
  reject_if ((nc_Port config <? 1) || (65535 <? nc_Port config))%Z ErrInvalidPort ;;?
  refuse_if (nc_SkipCertVerify config || HasInsecureTransport (nc_Transport config)) "insecure_tls"
    "certificate verification bypass (skip-cert-verify/insecure) is prohibited" ;;?
  refuse_if (String.eqb (nc_Protocol config) ProtocolHysteria2 &&
             (negb (blank (nc_Hy2Ports config)) || negb (String.eqb (ExtractHy2Ports (nc_Transport config)) "")))
    "unsupported_hy2_ports" "hysteria2 port hopping is prohibited" ;;?
  refuse_if (String.eqb (nc_Protocol config) ProtocolTUIC &&
             (nc_TUICDisableSNI config || HasTUICDisableSNI (nc_Transport config)))
    "unsupported_tuic_disable_sni" "tuic disable_sni is prohibited" ;;?
  let tag := or_else (nc_LogicalID config) "node-probe" in
  let options endpoints outbounds :=
    {| op_Log := Some true; op_Route := Some tag; op_Endpoints := endpoints; op_Outbounds := outbounds |} in
  if String.eqb (nc_Protocol config) ProtocolWireGuard then
    let? ep := buildWireGuardEndpoint config tag in Ok (options [ep] [], tag)
  else let? out := BuildOutbound config tag in Ok (options [] [out], tag).

(** ** Export *)

Definition validShadowsocksMethods : list string :=
  ["none"; "aes-128-gcm"; "aes-192-gcm"; "aes-256-gcm"; "chacha20-ietf-poly1305"; "xchacha20-ietf-poly1305";
   "2022-blake3-aes-128-gcm"; "2022-blake3-aes-256-gcm"; "2022-blake3-chacha20-poly1305"; "aes-128-ctr";
   "aes-192-ctr"; "aes-256-ctr"; "aes-128-cfb"; "aes-192-cfb"; "aes-256-cfb"; "rc4-md5"; "chacha20-ietf";
   "xchacha20"].
Definition validVMessSecurities : list string :=
  [""; "auto"; "none"; "zero"; "aes-128-cfb"; "aes-128-gcm"; "chacha20-poly1305"].

Definition unsupported_network (proto netName : string) : string :=
  "unsupported network " +:+ Quote netName +:+ " in " +:+ proto +:+ " transport".
Definition validateV2RayNetworkName (proto netName : string) (allowV2RayTransports : bool) : result string unit :=
  refuse_if (negb (mem_str netName [""; "tcp"; "udp"] ||
                   (mem_str netName ["ws"; "grpc"; "http"; "httpupgrade"] && allowV2RayTransports)))
    "unsupported_transport_network" (unsupported_network proto netName).
Definition validateQuicTransportNetwork (proto netName : string) : result string unit :=
  refuse_if (negb (mem_str netName [""; "quic"; "udp"; "tcp"]))
    "unsupported_transport_network" (unsupported_network proto netName).

Definition parseBandwidthMbps (m : option (gmap string string)) (key : string) : result string Z :=
  let raw := TrimSpace (map_get m key) in
  if String.eqb raw "" then Ok 0%Z
  else
    let normalized := ToLower raw in
    let normalized := match List.find (HasSuffix normalized) ["mbps"; "m"] with
                      | Some suffix => TrimSpace (TrimSuffix normalized suffix)
                      | None => normalized
                      end in
    match ParseInt normalized with
    | Some val => if (0 <? val)%Z then Ok val
                  else Err (validation_error "invalid_hy2_bandwidth"
                         ("invalid hysteria2 " +:+ key +:+ " bandwidth " +:+ Quote raw))
    | None => Err (validation_error "invalid_hy2_bandwidth"
                         ("invalid hysteria2 " +:+ key +:+ " bandwidth " +:+ Quote raw))
    end.

Definition export_shadowsocks (cfg : NodeConfig) : result string ShadowsocksOutboundOptions :=
  let method := ToLower (TrimSpace (nc_Method cfg)) in
  refuse_if (negb (mem_str method validShadowsocksMethods)) "unsupported_ss_cipher"
    ("unsupported shadowsocks cipher " +:+ Quote (nc_Method cfg) +:+ " in sing-box") ;;?
  let cfg := with_method cfg method in
  validateV2RayNetworkName (nc_Protocol cfg) (networkName cfg) false ;;?
  let o := buildShadowsocksOutbound cfg in
  Ok {| sso_Server := sso_Server o; sso_Method := sso_Method o; sso_Password := sso_Password o;
        sso_Network := "" |}.

Definition export_vmess (cfg : NodeConfig) : result string VMessOutboundOptions :=
  let sec := ToLower (TrimSpace (nc_Method cfg)) in
  refuse_if (negb (mem_str sec validVMessSecurities)) "unsupported_vmess_security"
    ("unsupported vmess security " +:+ Quote (nc_Method cfg) +:+ " in sing-box") ;;?
  let cfg := with_method cfg sec in
  validateV2RayNetworkName (nc_Protocol cfg) (networkName cfg) true ;;?
  let? o := buildVMessOutbound cfg in
  let? tls :=
    if String.eqb (nc_ClientFingerprint cfg) "" then Ok (vmo_TLS o)
    else match vmo_TLS o with
         | None => Err (validation_error "utls_without_tls" "client fingerprint requires TLS in vmess outbound")
         | Some tls => Ok (Some (with_utls (nc_ClientFingerprint cfg) tls))
         end in
  Ok {| vmo_Server := vmo_Server o; vmo_UUID := vmo_UUID o; vmo_Security := vmo_Security o;
        vmo_AlterId := vmo_AlterId o; vmo_Network := ""; vmo_TLS := tls; vmo_Transport := vmo_Transport o |}.

Definition export_vless (cfg : NodeConfig) (m : option (gmap string string)) : result string VLESSOutboundOptions :=
  validateV2RayNetworkName (nc_Protocol cfg) (networkName cfg) true ;;?
  let flow := TrimSpace (map_get m "flow") in
  refuse_if (negb (String.eqb flow "") && negb (String.eqb flow "xtls-rprx-vision")) "unsupported_vless_flow"
    ("unsupported vless flow " +:+ Quote flow +:+ " in sing-box") ;;?
  let? o := buildVLESSOutbound (if String.eqb flow "" then cfg else with_TLS cfg true) in
  Ok {| vlo_Server := vlo_Server o; vlo_UUID := vlo_UUID o; vlo_Flow := flow; vlo_Network := "";
        vlo_TLS := vlo_TLS o; vlo_Transport := vlo_Transport o |}.

Definition export_trojan (cfg : NodeConfig) : result string TrojanOutboundOptions :=
  validateV2RayNetworkName (nc_Protocol cfg) (networkName cfg) true ;;?
  let? o := buildTrojanOutbound cfg in
  Ok {| tro_Server := tro_Server o; tro_Password := tro_Password o; tro_Network := "";
        tro_TLS := if String.eqb (nc_ClientFingerprint cfg) "" then tro_TLS o
                   else with_utls (nc_ClientFingerprint cfg) <$> tro_TLS o;
        tro_Transport := tro_Transport o |}.

Definition export_hysteria2 (cfg : NodeConfig) (m : option (gmap string string))
    : result string Hysteria2OutboundOptions :=
  validateQuicTransportNetwork (nc_Protocol cfg) (networkName cfg) ;;?
  let obfs := negb (String.eqb (nc_Hy2Obfs cfg) "") in
  let password := negb (String.eqb (nc_Hy2ObfsPassword cfg) "") in
  refuse_if (obfs && negb (String.eqb (nc_Hy2Obfs cfg) Hysteria2ObfsTypeSalamander)) "unsupported_hy2_obfs"
    ("unsupported hysteria2 obfs type " +:+ Quote (nc_Hy2Obfs cfg) +:+ " in sing-box") ;;?
  refuse_if (obfs && negb password) "missing_hy2_obfs_password"
    "missing required obfs-password for hysteria2 obfs" ;;?
  refuse_if (negb obfs && password) "missing_hy2_obfs_type"
    "missing required obfs type for hysteria2 obfs-password" ;;?
  let? upMbps := parseBandwidthMbps m "up" in
  let? downMbps := parseBandwidthMbps m "down" in
  let o := buildHysteria2Outbound cfg in
  Ok {| hyo_Server := hyo_Server o; hyo_ServerPorts := hyo_ServerPorts o; hyo_UpMbps := upMbps;
        hyo_DownMbps := downMbps; hyo_Obfs := hyo_Obfs o; hyo_Password := hyo_Password o;
        hyo_Network := ""; hyo_TLS := hyo_TLS o |}.

Definition export_tuic (cfg : NodeConfig) : result string TUICOutboundOptions :=
  validateQuicTransportNetwork (nc_Protocol cfg) (networkName cfg) ;;?
  let cc := ToLower (TrimSpace (nc_TUICCongestionControl cfg)) in
  refuse_if (negb (mem_str cc [""; "cubic"; "new_reno"; "bbr"])) "unsupported_tuic_congestion_control"
    ("unsupported tuic congestion_control " +:+ Quote (nc_TUICCongestionControl cfg) +:+ " in sing-box") ;;?
  let mode := ToLower (TrimSpace (nc_TUICUDPRelayMode cfg)) in
  refuse_if (negb (mem_str mode [""; "native"; "quic"])) "unsupported_tuic_udp_relay_mode"
    ("unsupported tuic udp_relay_mode " +:+ Quote (nc_TUICUDPRelayMode cfg) +:+ " in sing-box") ;;?
  let o := buildTUICOutbound (with_options cfg (nc_Method cfg) cc mode) in
  Ok {| tuo_Server := tuo_Server o; tuo_UUID := tuo_UUID o; tuo_Password := tuo_Password o;
        tuo_CongestionControl := tuo_CongestionControl o; tuo_UDPRelayMode := tuo_UDPRelayMode o;
        tuo_Network := ""; tuo_TLS := tuo_TLS o |}.

(** Both address families are routed where the interface has an IPv6 address. *)
Definition route_families (o : WireGuardEndpointOptions) : WireGuardEndpointOptions :=
  if existsb (λ p, negb (pfx_Is4 p)) (we_Address o) then
    {| we_PrivateKey := we_PrivateKey o; we_Address := we_Address o; we_MTU := we_MTU o;
       we_Peers := match we_Peers o with
                   | peer :: peers =>
                       {| wp_Address := wp_Address peer; wp_Port := wp_Port peer;
                          wp_PublicKey := wp_PublicKey peer; wp_PreSharedKey := wp_PreSharedKey peer;
                          wp_AllowedIPs := [MustParsePrefix "0.0.0.0/0"; MustParsePrefix "::/0"];
                          wp_Reserved := wp_Reserved peer |} :: peers
                   | [] => []
                   end |}
  else o.
Definition export_wireguard (cfg : NodeConfig) (tag : string) : result string Endpoint :=
  let? ep := buildWireGuardEndpoint cfg tag in
  Ok {| ep_Tag := ep_Tag ep; ep_Options := route_families (ep_Options ep) |}.

Definition renamed (node : Node) (name server : string) : Node :=
  {| node_LogicalID := node_LogicalID node; node_Protocol := node_Protocol node;
     node_DisplayName := name; node_Server := server; node_Port := node_Port node;
     node_Credentials := node_Credentials node; node_Active := node_Active node;
     node_ConnectionRevision := node_ConnectionRevision node |}.

(** An outbound, or an endpoint. *)
Definition BuildExportNodeOption (tag : string) (node : Node) : result string (Outbound + Endpoint) :=
  let server := TrimSpace (node_Server node) in
  reject_if (String.eqb server "") ErrMissingServer ;;?
  reject_if ((node_Port node <? 1) || (65535 <? node_Port node))%Z ErrInvalidPort ;;?
  let cfg := NodeConfigFromNode (renamed node tag server) in
  let m := cred_Transport (node_Credentials node) in
  let outbound o := Ok (inl {| ob_Tag := tag; ob_Options := o |}) in
  let protocol := node_Protocol node in
  if String.eqb protocol ProtocolSS then let? o := export_shadowsocks cfg in outbound (ShadowsocksOutbound o)
  else if String.eqb protocol ProtocolVMess then let? o := export_vmess cfg in outbound (VMessOutbound o)
  else if String.eqb protocol ProtocolVLESS then let? o := export_vless cfg m in outbound (VLESSOutbound o)
  else if String.eqb protocol ProtocolTrojan then let? o := export_trojan cfg in outbound (TrojanOutbound o)
  else if String.eqb protocol ProtocolHysteria2 then
    let? o := export_hysteria2 cfg m in outbound (Hysteria2Outbound o)
  else if String.eqb protocol ProtocolTUIC then let? o := export_tuic cfg in outbound (TUICOutbound o)
  else if String.eqb protocol ProtocolWireGuard then let? ep := export_wireguard cfg tag in Ok (inr ep)
  else Err (ErrUnsupportedProto +:+ ": " +:+ protocol).

(** ** The document *)

Definition singbox_error {A} (loc feature reason : string) : result CapabilityError A :=
  Err {| ce_Target := TargetSingBox; ce_Location := loc; ce_Feature := feature; ce_Reason := reason |}.

(** The node that [renderSingBox] hands to the builder; the other fields are zero. *)
Definition plain_node (node : ResolvedNode) (tag : string) : Node :=
  {| node_LogicalID := rn_LogicalID node; node_DisplayName := tag; node_Protocol := rn_Protocol node;
     node_Server := rn_Server node; node_Port := rn_Port node; node_Credentials := rn_Credentials node;
     node_Active := false; node_ConnectionRevision := 0 |}.

Definition singbox_node (seenTags : list string) (i : nat) (node : ResolvedNode)
    : result CapabilityError (Outbound + Endpoint) :=
  let loc := indexed "nodes" i in
  let tag := TrimSpace (rn_DisplayName node) in
  fail_if (String.eqb (ToLower (map_get (cred_Transport (rn_Credentials node)) "network")) "xhttp")
    TargetSingBox (loc +:+ ".transport.network") "xhttp" "sing-box does not support xhttp transport protocol" ;;?
  validateCredentialEnvelope TargetSingBox i node ;;?
  fail_if (mem_str tag seenTags) TargetSingBox loc tag
    "duplicate outbound/endpoint tag in sing-box configuration" ;;?
  match BuildExportNodeOption tag (plain_node node tag) with
  | Ok out => Ok out
  | Err e => singbox_error loc (rn_Protocol node) e
  end.

Fixpoint singbox_nodes (seenTags : list string) (i : nat) (nodes : list ResolvedNode)
    : result CapabilityError (list Outbound * list Endpoint) :=
  match nodes with
  | [] => Ok ([], [])
  | node :: nodes =>
      let? out := singbox_node seenTags i node in
      let? rest := singbox_nodes (TrimSpace (rn_DisplayName node) :: seenTags) (S i) nodes in
      Ok match out with
         | inl o => (o :: rest.1, rest.2)
         | inr e => (rest.1, e :: rest.2)
         end
  end.

Definition renderSingBox (snap : ResolvedPolicySnapshot) : result compile_error string :=
  match singbox_nodes [] 0 (snap_Nodes snap) with
  | Err e => Err (capability_error e)
  | Ok outs => singjson_Encode {| op_Log := None; op_Route := None; op_Endpoints := outs.2;
                                  op_Outbounds := outs.1 |}
  end.
End SingBox.
