(* ===== verification/Surge.v ===== *)
(** * The Surge renderer

    [internal/compiler/surge.go]: one line of the [Proxy] section per node, and the
    lines of groups and rules.  A byte of user data that could end a line or start
    another parameter is refused before the line is built.  The functions that
    build a proxy line are split in two: the list of its parameters, and the line
    itself, which joins them. *)

From S2P Require Import Prelude.
From S2P Require Import GoStrings.
From S2P Require Import Domain.
From S2P Require Import Lifecycle.
From S2P Require Import NodeFilter.
From S2P Require Import Policy.
From S2P Require Import Groups.
From S2P Require Import ResolveGroups.
From S2P Require Import Resolver.
From S2P Require Import Prune.
From S2P Require Import SingBoxDocument.
From S2P Require Import Capabilities.

(** ** Tables and predicates *)

Definition surgeSupportedSSCiphers : list string :=
  ["aes-128-gcm"; "aes-192-gcm"; "aes-256-gcm"; "chacha20-ietf-poly1305";
   "xchacha20-ietf-poly1305"; "2022-blake3-aes-128-gcm"; "2022-blake3-aes-256-gcm"; "rc4-md5";
   "aes-128-cfb"; "aes-192-cfb"; "aes-256-cfb"; "aes-128-ctr"; "aes-192-ctr"; "aes-256-ctr";
   "bf-cfb"; "camellia-128-cfb"; "camellia-192-cfb"; "camellia-256-cfb"; "salsa20"; "chacha20";
   "chacha20-ietf"; "none"].
Definition surgeSupportedVMessCiphers : list string :=
  [""; "auto"; "aes-128-gcm"; "chacha20-poly1305"; "chacha20-ietf-poly1305"; "none"; "zero"].

(** CR, LF, NUL, comma; with [=]; with space and tab. *)
Definition value_breaks : list N := [13; 10; 0; 44]%N.
Definition isSurgeSafeIdentifier (s : string) : bool :=
  negb (String.eqb s "") && negb (ContainsAny s (value_breaks ++ [61]%N)).
Definition isSurgeSafeToken (s : string) : bool :=
  negb (String.eqb s "") && negb (ContainsAny s (value_breaks ++ [61; 32; 9]%N)).
Definition isSurgeSafeValue (s : string) : bool :=
  negb (String.eqb s "") && negb (ContainsAny s value_breaks).

Definition isASCIIAlphaCode (s : string) : bool :=
  (2 <=? String.length s) && (String.length s <=? 8) &&
  all_bytes (λ c, in_range 65 90 c || in_range 97 122 c) s.

Definition valid_port (z : Z) : bool := ((1 <=? z) && (z <=? 65535))%Z.
Definition isValidSurgePortSpec (s : string) : bool :=
  match cut "-" s with
  | Some (before, after) =>
      match ParseInt (TrimSpace before), ParseInt (TrimSpace after) with
      | Some start, Some stop => ((1 <=? start) && (start <=? stop) && (stop <=? 65535))%Z
      | _, _ => false
      end
  | None => match ParseInt s with Some port => valid_port port | None => false end
  end.

Definition surgeFirstNonEmpty (values : list string) : string :=
  match List.find (λ v, negb (blank v)) values with Some v => TrimSpace v | None => "" end.

Section Surge.
Context `{GoText} `{Backend}.

Definition surge_fail {A} (loc feature reason : string) : result CapabilityError A :=
  Err {| ce_Target := TargetSurge; ce_Location := loc; ce_Feature := feature;
         ce_Reason := reason |}.
Definition surge_check (b : bool) (loc feature reason : string) : result CapabilityError unit :=
  fail_if b TargetSurge loc feature reason.

Definition hasSurgeUnsupportedRealityOrFlow (transport : option (gmap string string)) : bool :=
  match transport with
  | None => false
  | Some _ => existsb (λ k, negb (blank (map_get transport k))) ["pbk"; "sid"; "flow"] ||
              EqualFold (TrimSpace (map_get transport "security")) "reality"
  end.

Definition isValidSurgeRuleSetSource (s : string) : bool :=
  let upper := ToUpper (TrimSpace s) in
  String.eqb upper "SYSTEM" || String.eqb upper "LAN" ||
  match url_Parse s with
  | Some (scheme, host) =>
      negb (String.eqb host "") &&
      (String.eqb (ToLower scheme) "http" || String.eqb (ToLower scheme) "https")
  | None => false
  end.

Definition parseSurgeBandwidthMbps (raw : string) : option Z :=
  let normalized := ToLower (TrimSpace raw) in
  let trim_suffix suf s := str_rev (match strip_prefix (str_rev suf) (str_rev s) with
                                    | Some r => r | None => str_rev s end) in
  let normalized :=
    if HasSuffix normalized "mbps" then TrimSpace (trim_suffix "mbps" normalized)
    else if HasSuffix normalized "m" then TrimSpace (trim_suffix "m" normalized)
    else normalized in
  match ParseInt normalized with
  | Some v => if (v <=? 0)%Z then None else Some v
  | None => None
  end.

(** ** Parameters *)

(** [if v != "" { if !safe { return err }; params = append(params, key+v) }] *)
Definition optional_param (loc feature reason key v : string)
    : result CapabilityError (list string) :=
  if String.eqb v "" then Ok []
  else surge_check (negb (isSurgeSafeValue v)) loc feature reason ;;? Ok [key +:+ v].

Definition network (c : InboundProtocolCredential) : string :=
  ToLower (TrimSpace (map_get (cred_Transport c) "network")).
Definition has_tls (c : InboundProtocolCredential) : bool :=
  IsTruthy (map_get (cred_Transport c) "tls") ||
  EqualFold (TrimSpace (map_get (cred_Transport c) "security")) "tls".
Definition skip_verify (c : InboundProtocolCredential) : list string :=
  if HasInsecureTransport (cred_Transport c) then ["skip-cert-verify=true"] else [].

(** The first three fields of every line. *)
Definition line_head (name kind server : string) (port : Z) : list string :=
  [name +:+ " = " +:+ kind; server; itoa port].

Definition surgeHysteria2Params (loc : string) (c : InboundProtocolCredential)
    : result CapabilityError (list string) :=
  let t := map_get (cred_Transport c) in
  let password := TrimSpace (cred_Password c) in
  surge_check (negb (isSurgeSafeValue password)) loc ProtocolHysteria2
    "hysteria2 password contains characters invalid in Surge [Proxy] line" ;;?
  surge_check (negb (mem_str (network c) [""; "quic"; "udp"; "tcp"])) loc ProtocolHysteria2
    ("unsupported network " +:+ Quote (network c) +:+ " in hysteria2 transport") ;;?
  let? down :=
    (let downRaw := TrimSpace (t "down") in
     if String.eqb downRaw "" then Ok []
     else match parseSurgeBandwidthMbps downRaw with
          | None => surge_fail loc ProtocolHysteria2
                      ("invalid hysteria2 bandwidth " +:+ Quote downRaw)
          | Some v => Ok ["download-bandwidth=" +:+ itoa v]
          end) in
  let? sni := optional_param loc ProtocolHysteria2 "invalid sni in hysteria2 transport" "sni="
    (surgeFirstNonEmpty [cred_SNI c; t "sni"; t "servername"; t "serverName"; t "peer"]) in
  Ok (["password=" +:+ password] ++ down ++ sni ++ skip_verify c).

(** The ALPN values of the credential, or else of the transport. *)
Definition nonblank (l : list string) : list string :=
  map TrimSpace (List.filter (λ a, negb (blank a)) l).
Definition alpn_list (c : InboundProtocolCredential) : list string :=
  let own := nonblank (cred_ALPN c) in
  match own, cred_Transport c with
  | [], Some _ => nonblank (Split (byte_of 44) (map_get (cred_Transport c) "alpn"))
  | _, _ => own
  end.

Definition surgeTUICParams (loc : string) (c : InboundProtocolCredential)
    : result CapabilityError (list string) :=
  let t := map_get (cred_Transport c) in
  let uuid := TrimSpace (cred_UUID c) in
  let password := TrimSpace (cred_Password c) in
  surge_check (negb (isSurgeSafeValue uuid) || negb (isSurgeSafeValue password)) loc ProtocolTUIC
    "tuic credentials contain characters invalid in Surge [Proxy] line" ;;?
  surge_check (negb (mem_str (network c) [""; "quic"; "udp"; "tcp"])) loc ProtocolTUIC
    ("unsupported network " +:+ Quote (network c) +:+ " in tuic transport") ;;?
  let? sni := optional_param loc ProtocolTUIC "invalid sni in tuic transport" "sni="
    (surgeFirstNonEmpty [cred_SNI c; t "sni"; t "servername"]) in
  let? alpn :=
    (if length (alpn_list c) =? 0 then Ok []
     else
       let joined := Join ":" (alpn_list c) in
       surge_check (negb (isSurgeSafeValue joined)) loc ProtocolTUIC
         "invalid alpn in tuic transport" ;;? Ok ["alpn=" +:+ joined]) in
  Ok (["uuid=" +:+ uuid; "password=" +:+ password] ++ sni ++ alpn ++ skip_verify c).

(** The first IPv4 and the first IPv6 address. *)
Fixpoint self_addresses (loc : string) (addrs : list string) (ip ip6 : string)
    : result CapabilityError (string * string) :=
  match addrs with
  | [] => Ok (ip, ip6)
  | raw :: addrs =>
      match ParsePrefix (TrimSpace raw) with
      | None => surge_fail loc ProtocolWireGuard
                  "invalid local_address CIDR in wireguard credentials"
      | Some pfx =>
          if pfx_Is4 pfx && String.eqb ip "" then self_addresses loc addrs (pfx_Addr pfx) ip6
          else if negb (pfx_Is4 pfx) && String.eqb ip6 ""
          then self_addresses loc addrs ip (pfx_Addr pfx)
          else self_addresses loc addrs ip ip6
      end
  end.

Definition surgeWireGuardParams (loc : string) (c : InboundProtocolCredential)
    : result CapabilityError (list string) :=
  let privateKey := TrimSpace (cred_PrivateKey c) in
  let publicKey := TrimSpace (cred_PublicKey c) in
  surge_check (negb (isSurgeSafeValue privateKey) || negb (isSurgeSafeValue publicKey)) loc
    ProtocolWireGuard "wireguard keys contain characters invalid in Surge [Proxy] line" ;;?
  let? ips := self_addresses loc (cred_LocalAddress c) "" "" in
  let? psk := optional_param loc ProtocolWireGuard
    "wireguard pre-shared-key contains characters invalid in Surge [Proxy] line"
    "preshared-key=" (TrimSpace (cred_PreSharedKey c)) in
  Ok ((if String.eqb ips.1 "" then [] else ["self-ip=" +:+ ips.1]) ++
      (if String.eqb ips.2 "" then [] else ["self-ip-v6=" +:+ ips.2]) ++
      ["private-key=" +:+ privateKey; "peer-public-key=" +:+ publicKey] ++ psk ++
      match cred_Reserved c with
      | [a; b; d] => ["client-id=" +:+ itoa a +:+ "/" +:+ itoa b +:+ "/" +:+ itoa d]
      | _ => []
      end ++
      (if (0 <? cred_MTU c)%Z then ["mtu=" +:+ itoa (cred_MTU c)] else [])).

Definition surgeSSParams (loc : string) (c : InboundProtocolCredential)
    : result CapabilityError (list string) :=
  let t := map_get (cred_Transport c) in
  let check b reason := surge_check b loc ProtocolSS reason in
  let cipher := ToLower (TrimSpace (cred_Method c)) in
  check (negb (mem_str cipher surgeSupportedSSCiphers))
    "unsupported shadowsocks encrypt-method for surge" ;;?
  let password := TrimSpace (cred_Password c) in
  check (negb (isSurgeSafeValue password))
    "shadowsocks password contains characters invalid in Surge [Proxy] line" ;;?
  check (negb (mem_str (network c) [""; "tcp"]))
    ("unsupported network " +:+ Quote (network c) +:+ " in shadowsocks transport") ;;?
  check (negb (blank (t "service_name"))) "grpc transport is not supported in shadowsocks for surge" ;;?
  check (has_tls c) "standalone tls wrapper is not supported in shadowsocks for surge" ;;?
  let obfs := ToLower (TrimSpace (t "obfs")) in
  let? plugin :=
    (if negb (String.eqb obfs "") then
       check (negb (mem_str obfs ["http"; "tls"]))
         ("unsupported shadowsocks obfs mode " +:+ Quote obfs +:+ " for surge") ;;?
       let? host := optional_param loc ProtocolSS "invalid obfs-host in shadowsocks transport"
         "obfs-host=" (TrimSpace (t "host")) in
       let? path := optional_param loc ProtocolSS "invalid obfs-uri in shadowsocks transport"
         "obfs-uri=" (TrimSpace (t "path")) in
       Ok (["obfs=" +:+ obfs] ++ host ++ path)
     else
       check (negb (blank (t "path")) || negb (blank (t "host")))
         "transport host or path on shadowsocks requires obfs mode for surge" ;;? Ok []) in
  Ok (["encrypt-method=" +:+ cipher; "password=" +:+ password] ++ plugin).

Definition buildSurgeWSParams (loc feature netMode : string)
    (transport : option (gmap string string)) : result CapabilityError (list string) :=
  let path := TrimSpace (map_get transport "path") in
  let host := TrimSpace (map_get transport "host") in
  if negb (String.eqb netMode "ws") then
    surge_check (negb (String.eqb path "") || negb (String.eqb host "")) loc feature
      "transport path or host requires ws network for surge" ;;? Ok []
  else
    let? p := optional_param loc feature "invalid ws-path in transport" "ws-path=" path in
    let? h :=
      (if String.eqb host "" then Ok []
       else surge_check (negb (isSurgeSafeValue host) || ContainsAny host [58; 32]%N) loc feature
              "invalid ws-headers host in transport" ;;? Ok ["ws-headers=Host:" +:+ host]) in
    Ok (["ws=true"] ++ p ++ h).

(** The checks VMess and Trojan share. *)
Definition surge_stream_checks (loc feature proto : string) (c : InboundProtocolCredential)
    : result CapabilityError unit :=
  surge_check (negb (mem_str (network c) [""; "tcp"; "ws"])) loc feature
    ("unsupported network " +:+ Quote (network c) +:+ " in " +:+ proto +:+ " transport") ;;?
  surge_check (negb (blank (map_get (cred_Transport c) "service_name"))) loc feature
    ("grpc service_name is not supported in " +:+ proto +:+ " transport for surge").

Definition surgeVMessParams (loc : string) (c : InboundProtocolCredential)
    : result CapabilityError (list string) :=
  let t := map_get (cred_Transport c) in
  let uuid := TrimSpace (cred_UUID c) in
  surge_check (negb (isSurgeSafeValue uuid)) loc ProtocolVMess
    "vmess uuid contains characters invalid in Surge [Proxy] line" ;;?
  surge_check (negb (mem_str (ToLower (TrimSpace (cred_Method c))) surgeSupportedVMessCiphers)) loc
    ProtocolVMess "unsupported vmess cipher for surge" ;;?
  surge_stream_checks loc ProtocolVMess "vmess" c ;;?
  let? ws := buildSurgeWSParams loc ProtocolVMess (network c) (cred_Transport c) in
  let? sni := optional_param loc ProtocolVMess "invalid sni in vmess transport" "sni="
    (surgeFirstNonEmpty [cred_SNI c; t "sni"; t "servername"]) in
  Ok (["username=" +:+ uuid;
       "vmess-aead=" +:+ if (0 <? cred_AlterID c)%Z then "false" else "true"] ++
      ws ++ (if has_tls c then ["tls=true"] else []) ++ sni ++ skip_verify c).

Definition surgeTrojanParams (loc : string) (c : InboundProtocolCredential)
    : result CapabilityError (list string) :=
  let t := map_get (cred_Transport c) in
  let password := TrimSpace (cred_Password c) in
  surge_check (negb (isSurgeSafeValue password)) loc ProtocolTrojan
    "trojan password contains characters invalid in Surge [Proxy] line" ;;?
  surge_stream_checks loc ProtocolTrojan "trojan" c ;;?
  let? ws := buildSurgeWSParams loc ProtocolTrojan (network c) (cred_Transport c) in
  let? sni := optional_param loc ProtocolTrojan "invalid sni in trojan transport" "sni="
    (surgeFirstNonEmpty [cred_SNI c; t "sni"; t "servername"]) in
  Ok (["password=" +:+ password] ++ ws ++ sni ++ skip_verify c).

(** ** Lines *)

(** The keyword and the parameters of a node's protocol. *)
Definition surge_protocol (loc : string) (node : ResolvedNode)
    : result CapabilityError (string * list string) :=
  let c := rn_Credentials node in
  let p := rn_Protocol node in
  let with_kind kind params := let? l := params in Ok (kind, l) in
  if String.eqb p ProtocolSS then with_kind "ss" (surgeSSParams loc c)
  else if String.eqb p ProtocolVMess then with_kind "vmess" (surgeVMessParams loc c)
  else if String.eqb p ProtocolTrojan then with_kind "trojan" (surgeTrojanParams loc c)
  else if String.eqb p ProtocolHysteria2 then with_kind "hysteria2" (surgeHysteria2Params loc c)
  else if String.eqb p ProtocolTUIC then with_kind "tuic" (surgeTUICParams loc c)
  else if String.eqb p ProtocolWireGuard then with_kind "wireguard" (surgeWireGuardParams loc c)
  else surge_fail loc p "protocol is not supported".

Definition renderSurgeProxyLine (index : nat) (node : ResolvedNode)
    : result CapabilityError string :=
  let loc := indexed "nodes" index in
  let feature := rn_Protocol node in
  validateCredentialEnvelope TargetSurge index node ;;?
  let name := TrimSpace (rn_DisplayName node) in
  surge_check (negb (isSurgeSafeIdentifier name)) loc feature
    "node display name contains characters invalid in Surge [Proxy] line" ;;?
  let server := TrimSpace (rn_Server node) in
  surge_check (negb (isSurgeSafeToken server)) loc feature
    "server address contains characters invalid in Surge [Proxy] line" ;;?
  surge_check (hasSurgeUnsupportedRealityOrFlow (cred_Transport (rn_Credentials node))) loc feature
    "reality or xtls flow transport is not supported by surge" ;;?
  let? kp := surge_protocol loc node in
  Ok (Join ", " (line_head name kp.1 server (rn_Port node) ++ kp.2)).

Definition renderSurge (snap : ResolvedPolicySnapshot) : result CapabilityError string :=
  let? lines := render_lines renderSurgeProxyLine 0 (snap_Nodes snap) in Ok (document lines).

Definition surge_member_name (loc : string) (m : ResolvedGroupMember)
    : result CapabilityError unit :=
  let name := TrimSpace (mem_DisplayName m) in
  surge_check (negb (isSurgeSafeIdentifier name)) loc name
    "group member name contains characters invalid in Surge [Proxy Group] line".

Definition RenderSurgeGroupLine (index : nat) (group : ResolvedGroup)
    : result CapabilityError string :=
  let loc := indexed "groups" index in
  let name := TrimSpace (rg_Name group) in
  surge_check (negb (isSurgeSafeIdentifier name)) loc (rg_GroupType group)
    "policy group name contains characters invalid in Surge [Proxy Group] line" ;;?
  for_each (surge_member_name loc) (rg_Members group) ;;?
  let members := map (λ m, TrimSpace (mem_DisplayName m)) (rg_Members group) in
  surge_check (length members =? 0) loc name
    "empty_group_not_allowed: policy group has no available members" ;;?
  let probe := ["url=http://www.gstatic.com/generate_204"; "interval=300"; "timeout=5"] in
  if String.eqb (rg_GroupType group) GroupTypeSelect then
    Ok (Join ", " ((name +:+ " = select") :: members))
  else if String.eqb (rg_GroupType group) GroupTypeURLTest then
    Ok (Join ", " ((name +:+ " = url-test") :: members ++ probe ++ ["tolerance=50"]))
  else if String.eqb (rg_GroupType group) GroupTypeFallback then
    Ok (Join ", " ((name +:+ " = fallback") :: members ++ probe))
  else surge_fail loc (rg_GroupType group) "policy group type is not supported".

Definition formatSurgeRuleWithOptionalNoResolve (loc kind val targetGroup : string)
    (extra : list string) : result CapabilityError string :=
  match extra with
  | [] => Ok (kind +:+ "," +:+ val +:+ ", " +:+ targetGroup)
  | [e] =>
      if EqualFold (TrimSpace e) "no-resolve"
      then Ok (kind +:+ "," +:+ val +:+ ", " +:+ targetGroup +:+ ", no-resolve")
      else surge_fail loc kind ("unsupported option in " +:+ kind +:+ " rule for surge")
  | _ => surge_fail loc kind ("unsupported option in " +:+ kind +:+ " rule for surge")
  end.

(** The switch on the kind of a rule with a value. *)
Definition surge_rule_value (loc kind val targetGroup : string) (extra : list string)
    : result CapabilityError string :=
  let kind_is k := String.eqb kind k in
  let plain := Ok (kind +:+ "," +:+ val +:+ ", " +:+ targetGroup) in
  let extra_error := "unsupported extra option in " +:+ kind +:+ " rule for surge" in
  if kind_is "DOMAIN" || kind_is "DOMAIN-SUFFIX" || kind_is "DOMAIN-KEYWORD" then
    surge_check (ContainsAny val [32; 9]%N) loc kind "domain rule value must not contain whitespace" ;;?
    match extra with
    | [] => plain
    | [e] => if EqualFold (TrimSpace e) "extended-matching"
             then Ok (kind +:+ "," +:+ val +:+ ", " +:+ targetGroup +:+ ", extended-matching")
             else surge_fail loc kind "unsupported domain rule option for surge"
    | _ => surge_fail loc kind "unsupported domain rule option for surge"
    end
  else if kind_is "IP-CIDR" then
    surge_check (match ParsePrefix val with Some p => negb (pfx_Is4 p) | None => true end) loc kind
      "invalid IPv4 CIDR in IP-CIDR rule for surge" ;;?
    formatSurgeRuleWithOptionalNoResolve loc kind val targetGroup extra
  else if kind_is "IP-CIDR6" then
    surge_check (match ParsePrefix val with Some p => pfx_Is4 p | None => true end) loc kind
      "invalid IPv6 CIDR in IP-CIDR6 rule for surge" ;;?
    formatSurgeRuleWithOptionalNoResolve loc kind val targetGroup extra
  else if kind_is "GEOIP" then
    surge_check (negb (isASCIIAlphaCode val)) loc kind "invalid country code in GEOIP rule for surge" ;;?
    formatSurgeRuleWithOptionalNoResolve loc kind (ToUpper val) targetGroup extra
  else if kind_is "PROCESS-NAME" || kind_is "USER-AGENT" || kind_is "URL-REGEX" then
    surge_check (0 <? length extra) loc kind extra_error ;;? plain
  else if kind_is "SRC-IP" then
    surge_check (0 <? length extra) loc kind "unsupported extra option in SRC-IP rule for surge" ;;?
    surge_check (negb (ParseAddr_ok val) && is_nil (ParsePrefix val)) loc kind
      "invalid IP or CIDR in SRC-IP rule for surge" ;;?
    plain
  else if kind_is "DEST-PORT" || kind_is "IN-PORT" then
    surge_check (0 <? length extra) loc kind extra_error ;;?
    surge_check (negb (isValidSurgePortSpec val)) loc kind
      ("invalid port specification in " +:+ kind +:+ " rule for surge") ;;?
    plain
  else if kind_is "RULE-SET" then
    surge_check (negb (isValidSurgeRuleSetSource val)) loc kind
      "Surge RULE-SET requires an http/https URL or built-in SYSTEM/LAN source" ;;?
    formatSurgeRuleWithOptionalNoResolve loc kind val targetGroup extra
  else surge_fail loc kind "routing rule kind is not supported".

Definition renderSurgeRuleLine (index totalRules : nat) (rule : ResolvedRule)
    : result CapabilityError string :=
  let loc := indexed "rules" index in
  let expr := TrimSpace (rr_Expression rule) in
  let kind := ruleKind expr in
  let targetGroup := TrimSpace (rr_TargetGroupName rule) in
  surge_check (negb (isSurgeSafeIdentifier targetGroup)) loc kind
    "routing rule target group contains characters invalid in Surge [Rule] line" ;;?
  let parts := Split (byte_of 44) expr in
  if IsMatchRule expr then
    surge_check (negb (index + 1 =? totalRules)) loc kind
      "terminal MATCH/FINAL rule must be positioned last in Surge [Rule]" ;;?
    match parts with
    | [_] => Ok ("FINAL, " +:+ targetGroup)
    | [_; o] => if EqualFold (TrimSpace o) "dns-failed"
                then Ok ("FINAL, " +:+ targetGroup +:+ ", dns-failed")
                else surge_fail loc kind "unsupported option on FINAL/MATCH rule for surge"
    | _ => surge_fail loc kind "unsupported option on FINAL/MATCH rule for surge"
    end
  else
    match parts with
    | _ :: raw :: extra =>
        let val := TrimSpace raw in
        surge_check (String.eqb val "" || negb (isSurgeSafeValue val)) loc kind
          "routing rule value is invalid for surge" ;;?
        surge_rule_value loc kind val targetGroup extra
    | _ => surge_fail loc kind "routing rule value is required"
    end.
End Surge.

(** ** What a line contains *)

Section Clean.
Context `{GoText} `{Backend}.

Lemma safe_value_clean s : isSurgeSafeValue s = true → clean s.
Proof.
  intros [_ Hs%negb_true_iff]%andb_true_iff. revert Hs. apply clean_contains. set_solver.
Qed.
Lemma safe_identifier_clean s : isSurgeSafeIdentifier s = true → clean s.
Proof.
  intros [_ Hs%negb_true_iff]%andb_true_iff. revert Hs. apply clean_contains. set_solver.
Qed.
Lemma safe_token_clean s : isSurgeSafeToken s = true → clean s.
Proof.
  intros [_ Hs%negb_true_iff]%andb_true_iff. revert Hs. apply clean_contains. set_solver.
Qed.

Lemma surge_check_ok b loc feature reason :
  surge_check b loc feature reason = Ok tt ↔ b = false.
Proof. apply fail_if_ok. Qed.

(** What passed checks say about the values. *)
Ltac checks :=
  repeat match goal with
  | Hc : surge_check _ _ _ _ = Ok _ |- _ => apply surge_check_ok in Hc
  | Hc : _ || _ = false |- _ => apply orb_false_iff in Hc as [? ?]
  | Hc : negb _ = false |- _ => apply negb_false_iff in Hc
  | Hc : isSurgeSafeValue _ = true |- _ => apply safe_value_clean in Hc
  end.

Lemma optional_param_clean loc feature reason key v l :
  optional_param loc feature reason key v = Ok l → clean key → Forall clean l.
Proof.
  unfold optional_param. destruct (String.eqb v ""); [by intros [= <-]|].
  intros Hl Hk. split_ok Hl. injection Hl as <-. checks. constructor; [|done]. by apply clean_app.
Qed.

Lemma skip_verify_clean c : Forall clean (skip_verify c).
Proof. unfold skip_verify. destruct (HasInsecureTransport _); by repeat constructor. Qed.

Lemma addr_clean s p : ParsePrefix s = Some p → clean (pfx_Addr p).
Proof.
  intros Hp%ParsePrefix_addr. revert Hp. apply all_bytes_mono.
  intros c. by destruct c as [[] [] [] [] [] [] [] []].
Qed.

Lemma self_addresses_clean loc addrs ip ip6 r :
  clean ip → clean ip6 → self_addresses loc addrs ip ip6 = Ok r → clean r.1 ∧ clean r.2.
Proof.
  revert ip ip6. induction addrs as [|raw addrs IH]; intros ip ip6 H1 H2; simpl; [by intros [= <-]|].
  destruct (ParsePrefix _) as [p|] eqn:Hp; [|done]. pose proof (addr_clean _ _ Hp).
  destruct (_ && _); [by apply IH|]. destruct (_ && _); by apply IH.
Qed.

Lemma ws_params_clean loc feature net transport l :
  buildSurgeWSParams loc feature net transport = Ok l → Forall clean l.
Proof.
  unfold buildSurgeWSParams. destruct (negb _).
  { intros Hl. split_ok Hl. by injection Hl as <-. }
  intros Hl. apply let_ok in Hl as (p & Hp & Hl). apply let_ok in Hl as (h & Hh & [= <-]).
  apply optional_param_clean in Hp; [|done]. constructor; [done|]. apply Forall_app. split; [done|].
  destruct (String.eqb _ ""); [by injection Hh as <-|]. split_ok Hh. injection Hh as <-.
  checks. constructor; [|done]. by apply clean_app.
Qed.

(** A list of parameters, piece by piece. *)
Ltac pieces :=
  repeat first [apply Forall_app; split | apply Forall_cons; split | apply Forall_nil; done];
  eauto using optional_param_clean, ws_params_clean, skip_verify_clean with clean.

Lemma clean_cipher s l : mem_str s l = true → forallb (all_bytes (λ c, negb (one_of breaks c))) l = true →
  clean s.
Proof.
  intros Hs Hl. apply (clean_mem _ _ Hs), Forall_forall. intros x Hx.
  rewrite forallb_forall in Hl. by apply Hl, list_elem_of_In.
Qed.

Lemma ss_params_clean loc c l : surgeSSParams loc c = Ok l → Forall clean l.
Proof.
  unfold surgeSSParams. intros Hl. split_ok Hl. injection Hl as <-. checks.
  assert (clean (ToLower (TrimSpace (cred_Method c)))) by (by eapply clean_cipher).
  destruct (negb (String.eqb _ _)); split_ok H6; injection H6 as <-; checks; pieces.
  apply clean_app; [done|]. by eapply clean_cipher.
Qed.

Lemma vmess_params_clean loc c l : surgeVMessParams loc c = Ok l → Forall clean l.
Proof.
  unfold surgeVMessParams. intros Hl. split_ok Hl. injection Hl as <-. checks. pieces.
  - destruct (0 <? _)%Z; done.
  - destruct (has_tls c); repeat constructor.
Qed.

Lemma trojan_params_clean loc c l : surgeTrojanParams loc c = Ok l → Forall clean l.
Proof. unfold surgeTrojanParams. intros Hl. split_ok Hl. injection Hl as <-. checks. pieces. Qed.

Lemma hysteria2_params_clean loc c l : surgeHysteria2Params loc c = Ok l → Forall clean l.
Proof.
  unfold surgeHysteria2Params. intros Hl. split_ok Hl. injection Hl as <-. checks. pieces.
  destruct (String.eqb _ ""); [by injection H3 as <-|].
  destruct (parseSurgeBandwidthMbps _); [|done]. injection H3 as <-. pieces.
Qed.

Lemma tuic_params_clean loc c l : surgeTUICParams loc c = Ok l → Forall clean l.
Proof.
  unfold surgeTUICParams. intros Hl. split_ok Hl. injection Hl as <-. checks. pieces.
  destruct (length _ =? 0); [by injection H4 as <-|]. split_ok H4. injection H4 as <-. checks. pieces.
Qed.

Lemma wireguard_params_clean loc c l : surgeWireGuardParams loc c = Ok l → Forall clean l.
Proof.
  unfold surgeWireGuardParams. intros Hl. split_ok Hl. injection Hl as <-. checks.
  apply self_addresses_clean in H2 as [? ?]; [|done..]. pieces.
  - destruct (String.eqb _ ""); pieces.
  - destruct (String.eqb _ ""); pieces.
  - destruct (cred_Reserved c) as [|? [|? [|? [|]]]]; pieces. repeat apply clean_app; try apply clean_itoa; done.
  - destruct (0 <? _)%Z; pieces.
Qed.

Lemma surge_protocol_clean loc node kp :
  surge_protocol loc node = Ok kp → clean kp.1 ∧ Forall clean kp.2.
Proof.
  unfold surge_protocol.
  repeat (destruct (String.eqb _ _);
    [intros Hl; split_ok Hl; injection Hl as <-; split; [done|];
     eauto using ss_params_clean, vmess_params_clean, trojan_params_clean,
       hysteria2_params_clean, tuic_params_clean, wireguard_params_clean|]). done.
Qed.

(** A proxy line: its fields are the head and the parameters, each free of commas
    and line breaks. *)
Lemma surge_line_fields index node line :
  renderSurgeProxyLine index node = Ok line →
  ∃ kind params,
    let fields := line_head (TrimSpace (rn_DisplayName node)) kind
                    (TrimSpace (rn_Server node)) (rn_Port node) ++ params in
    surge_protocol (indexed "nodes" index) node = Ok (kind, params) ∧
    line = Join ", " fields ∧ Forall clean fields.
Proof.
  unfold renderSurgeProxyLine. intros Hl. split_ok Hl. injection Hl as <-.
  destruct x as [kind params]. exists kind, params. split; [done|]. split; [done|].
  apply surge_protocol_clean in H5 as [? ?]. checks.
  apply safe_identifier_clean in H2. apply safe_token_clean in H3.
  apply Forall_app. split; [|done]. repeat constructor; eauto with clean.
Qed.

(** C39. What Surge reads back.  The document the renderer returns for a snapshot with
    nodes splits at its line breaks into exactly one line per node, in order, and
    each line splits at its commas into the trimmed name with the protocol keyword,
    the server, the port and the parameters of the protocol: no name, address,
    credential or transport option of a node adds a line, a node or a parameter. *)
Theorem surge_export_no_injection snap content :
  snap_Nodes snap ≠ [] → renderSurge snap = Ok content →
  ∃ lines, Split (byte_of 10) content = lines ++ [""] ∧
    length lines = length (snap_Nodes snap) ∧
    ∀ i node, snap_Nodes snap !! i = Some node →
      ∃ line kind params,
        lines !! i = Some line ∧
        surge_protocol (indexed "nodes" i) node = Ok (kind, params) ∧
        Split (byte_of 44) line =
          (TrimSpace (rn_DisplayName node) +:+ " = " +:+ kind)
          :: map (λ f, " " +:+ f)
               ([TrimSpace (rn_Server node); itoa (rn_Port node)] ++ params).
Proof.
  intros Hne Hr. apply let_ok in Hr as (lines & Hl & [= <-]). exists lines.
  assert (∀ i x t, renderSurgeProxyLine i x = Ok t → joined t) as Hj.
  { intros i x t (kind & params & _ & -> & Hf)%surge_line_fields. by eexists _, _. }
  split; [by eapply document_lines|]. apply render_lines_lookup in Hl as [Hlen Hl].
  split; [done|]. intros i node Hi. destruct (Hl i node Hi) as (t & Ht & Hline).
  apply surge_line_fields in Hline as (kind & params & Hp & -> & Hf).
  eexists _, kind, params. split; [done|]. split; [done|]. exact (joined_fields _ _ Hf).
Qed.
End Clean.

(** ** Instances *)

Definition surge_sample : ResolvedPolicySnapshot :=
  with_nodes [trojan_node "n1" " HK " "secret"; trojan_node "n2" "JP" "s=1"] (snapshot_of [] []).
Definition surge_sample_content : string :=
  "HK = trojan, example.org, 443, password=secret" +:+ bytes [10]%N +:+
  "JP = trojan, example.org, 443, password=s=1" +:+ bytes [10]%N.

Lemma surge_export_no_injection_witness :
  renderSurge (H := ascii_text) (H0 := sample_backend) surge_sample = Ok surge_sample_content ∧
  ∃ lines, Split (byte_of 10) surge_sample_content = lines ++ [""] ∧ length lines = 2.
Proof.
  assert (renderSurge (H := ascii_text) (H0 := sample_backend) surge_sample =
    Ok surge_sample_content) as Hr by (vm_compute; reflexivity).
  split; [exact Hr|].
  destruct (surge_export_no_injection (H := ascii_text) (H0 := sample_backend) surge_sample _
    ltac:(discriminate) Hr) as (lines & Hs & Hlen & _).
  exists lines. split; [exact Hs | exact Hlen].
Defined.
