(* ===== verification/QuantumultX.v ===== *)
(** * The Quantumult X renderer

    [internal/compiler/qx.go]: one server line per node and the line of a rule.  As
    in [Surge], the functions of a protocol give the parameters of a line, and the
    line joins them between the endpoint and the tag. *)

From S2P Require Import Prelude.
From S2P Require Import GoStrings.
From S2P Require Import Domain.
From S2P Require Import Lifecycle.
From S2P Require Import NodeFilter.
From S2P Require Import Policy.
From S2P Require Import Groups.
From S2P Require Import ResolveGroups.
From S2P Require Import Resolver.
From S2P Require Import Prune.
From S2P Require Import SingBoxDocument.
From S2P Require Import Capabilities.

(** ** Tables *)

Definition validQXSSCiphers : list string :=
  ["none"; "rc4"; "rc4-md5"; "aes-128-cfb"; "aes-192-cfb"; "aes-256-cfb"; "aes-128-ctr";
   "aes-192-ctr"; "aes-256-ctr"; "bf-cfb"; "camellia-128-cfb"; "camellia-192-cfb";
   "camellia-256-cfb"; "salsa20"; "chacha20"; "chacha20-ietf"; "aes-128-gcm"; "aes-192-gcm";
   "aes-256-gcm"; "chacha20-ietf-poly1305"; "chacha20-poly1305"; "xchacha20-ietf-poly1305";
   "2022-blake3-aes-128-gcm"; "2022-blake3-aes-256-gcm"; "2022-blake3-chacha20-poly1305"].
Definition validQXVMessMethods : list string :=
  ["auto"; "none"; "zero"; "aes-128-cfb"; "aes-128-gcm"; "chacha20-poly1305";
   "chacha20-ietf-poly1305"].

(** Comma, CR and LF. *)
Definition hasUnsafeQXChars (s : string) : bool := ContainsAny s [44; 13; 10]%N.

(** [net.JoinHostPort] *)
Definition JoinHostPort (host port : string) : string :=
  if ContainsAny host [58]%N then "[" +:+ host +:+ "]:" +:+ port else host +:+ ":" +:+ port.

Section QuantumultX.
Context `{GoText} `{Backend}.

Definition isQuantumultXBuiltInPolicy (name : string) : bool :=
  mem_str (ToUpper (TrimSpace name)) ["DIRECT"; "REJECT"].

Definition qx_fail {A} (loc feature reason : string) : result CapabilityError A :=
  Err {| ce_Target := TargetQuantumultX; ce_Location := loc; ce_Feature := feature;
         ce_Reason := reason |}.
Definition qx_check (b : bool) (loc feature reason : string) : result CapabilityError unit :=
  fail_if b TargetQuantumultX loc feature reason.

(** ** Transport options *)

Record qx_options : Type := {
  qx_netType : string; qx_rawTLS : string; qx_tlsEnabled : bool; qx_obfs : string;
  qx_host : string; qx_sni : string; qx_path : string; qx_insecure : bool
}.

Definition qx_transport (transport : option (gmap string string)) : qx_options :=
  let t k := TrimSpace (map_get transport k) in
  let rawTLS := ToLower (t "tls") in
  {| qx_netType := ToLower (t "network"); qx_rawTLS := rawTLS;
     qx_tlsEnabled := IsTruthy rawTLS || String.eqb rawTLS "tls";
     qx_obfs := ToLower (t "obfs"); qx_host := t "host"; qx_sni := t "sni";
     qx_path := t "path"; qx_insecure := HasInsecureTransport transport |}.

(** [if v != "" { parts = append(parts, key+v) }] *)
Definition qx_part (key v : string) : list string :=
  if String.eqb v "" then [] else [key +:+ v].
Definition first_of (a b : string) : string := if String.eqb a "" then b else a.
Definition verification_off (b : bool) : list string :=
  if b then ["tls-verification=false"] else [].

(** The websocket case Shadowsocks and VMess share. *)
Definition qx_ws (loc feature reason : string) (o : qx_options)
    : result CapabilityError (list string) :=
  qx_check (negb (mem_str (qx_obfs o) [""; "ws"; "wss"])) loc feature reason ;;?
  let mode := if qx_tlsEnabled o || String.eqb (qx_obfs o) "wss" then "wss" else "ws" in
  Ok (["obfs=" +:+ mode] ++ qx_part "obfs-host=" (qx_host o) ++ qx_part "obfs-uri=" (qx_path o) ++
      if String.eqb mode "wss" then
        qx_part "tls-host=" (first_of (qx_sni o) (qx_host o)) ++ verification_off (qx_insecure o)
      else []).

(** ** Shadowsocks *)

Definition qx_ss_plain (loc : string) (o : qx_options) : result CapabilityError (list string) :=
  qx_check (negb (mem_str (qx_obfs o) [""; "http"; "tls"; "ws"; "wss"])) loc ProtocolSS
    "unsupported obfs mode in shadowsocks transport" ;;?
  let obfs := if String.eqb (qx_obfs o) "" && qx_tlsEnabled o then "tls" else qx_obfs o in
  if String.eqb obfs "" then Ok []
  else Ok (["obfs=" +:+ obfs] ++ qx_part "obfs-host=" (first_of (qx_host o) (qx_sni o)) ++
           (if mem_str obfs ["http"; "ws"; "wss"] then qx_part "obfs-uri=" (qx_path o) else []) ++
           verification_off (mem_str obfs ["tls"; "wss"] && qx_insecure o)).

Definition qxSSParams (loc : string) (c : InboundProtocolCredential) (o : qx_options)
    : result CapabilityError (list string) :=
  let method := ToLower (TrimSpace (cred_Method c)) in
  let password := TrimSpace (cred_Password c) in
  qx_check (hasUnsafeQXChars method || hasUnsafeQXChars password) loc ProtocolSS
    "invalid characters in shadowsocks credentials" ;;?
  qx_check (negb (mem_str method validQXSSCiphers)) loc ProtocolSS
    "unsupported cipher in shadowsocks credentials" ;;?
  let? options :=
    (if mem_str (qx_netType o) [""; "tcp"] then qx_ss_plain loc o
     else if String.eqb (qx_netType o) "ws" then
       qx_ws loc ProtocolSS "unsupported obfs mode in shadowsocks ws transport" o
     else qx_fail loc ProtocolSS "unsupported network in shadowsocks transport") in
  Ok (["method=" +:+ method; "password=" +:+ password] ++ options).

(** ** VMess *)

Definition qx_vmess_http (loc reason : string) (o : qx_options)
    : result CapabilityError (list string) :=
  qx_check (qx_tlsEnabled o) loc ProtocolVMess reason ;;?
  Ok (["obfs=http"] ++ qx_part "obfs-host=" (qx_host o) ++ qx_part "obfs-uri=" (qx_path o)).

Definition qx_vmess_plain (loc : string) (o : qx_options) : result CapabilityError (list string) :=
  if String.eqb (qx_obfs o) "http" then
    qx_vmess_http loc "unsupported http obfs with tls in vmess transport" o
  else if negb (mem_str (qx_obfs o) [""; "over-tls"]) then
    qx_fail loc ProtocolVMess "unsupported obfs mode in vmess transport"
  else if qx_tlsEnabled o || String.eqb (qx_obfs o) "over-tls" then
    Ok (["obfs=over-tls"] ++ qx_part "tls-host=" (first_of (qx_sni o) (qx_host o)) ++
        verification_off (qx_insecure o))
  else Ok [].

Definition qxVMessParams (loc : string) (c : InboundProtocolCredential) (o : qx_options)
    : result CapabilityError (list string) :=
  let uuid := TrimSpace (cred_UUID c) in
  let method := first_of (ToLower (TrimSpace (cred_Method c))) "auto" in
  qx_check (hasUnsafeQXChars uuid || hasUnsafeQXChars method) loc ProtocolVMess
    "invalid characters in vmess credentials" ;;?
  qx_check (negb (mem_str method validQXVMessMethods)) loc ProtocolVMess
    "unsupported cipher in vmess credentials" ;;?
  let? options :=
    (if mem_str (qx_netType o) [""; "tcp"] then qx_vmess_plain loc o
     else if String.eqb (qx_netType o) "http" then
       qx_vmess_http loc "unsupported http network with tls in vmess transport" o
     else if String.eqb (qx_netType o) "ws" then
       qx_ws loc ProtocolVMess "unsupported obfs mode in vmess ws transport" o
     else qx_fail loc ProtocolVMess "unsupported network in vmess transport") in
  Ok (["method=" +:+ method; "password=" +:+ uuid] ++ options).

(** ** Trojan *)

Definition qxTrojanParams (loc : string) (c : InboundProtocolCredential) (o : qx_options)
    : result CapabilityError (list string) :=
  let password := TrimSpace (cred_Password c) in
  qx_check (hasUnsafeQXChars password) loc ProtocolTrojan
    "invalid characters in trojan credentials" ;;?
  qx_check (mem_str (qx_rawTLS o) ["false"; "0"; "no"; "off"]) loc ProtocolTrojan
    "trojan requires tls in Quantumult X" ;;?
  let tls :=
    qx_part "tls-host=" (first_of (qx_sni o) (qx_host o)) ++
    ["tls-verification=" +:+ if qx_insecure o then "false" else "true"] in
  let? options :=
    (if mem_str (qx_netType o) [""; "tcp"] then
       qx_check (negb (mem_str (qx_obfs o) [""; "over-tls"])) loc ProtocolTrojan
         "unsupported obfs mode in trojan transport" ;;?
       Ok (["over-tls=true"] ++ tls)
     else if String.eqb (qx_netType o) "ws" then
       qx_check (negb (mem_str (qx_obfs o) [""; "ws"; "wss"])) loc ProtocolTrojan
         "unsupported obfs mode in trojan ws transport" ;;?
       Ok (["obfs=wss"] ++ qx_part "obfs-host=" (qx_host o) ++ qx_part "obfs-uri=" (qx_path o) ++ tls)
     else qx_fail loc ProtocolTrojan "unsupported network in trojan transport") in
  Ok (["password=" +:+ password] ++ options).

(** ** Lines *)

(** The keyword and the parameters of a node's protocol. *)
Definition qx_protocol (loc : string) (node : ResolvedNode)
    : result CapabilityError (string * list string) :=
  let c := rn_Credentials node in
  let o := qx_transport (cred_Transport c) in
  let p := rn_Protocol node in
  let with_kind kind params := let? l := params in Ok (kind, l) in
  if String.eqb p ProtocolSS then with_kind "shadowsocks" (qxSSParams loc c o)
  else if String.eqb p ProtocolVMess then with_kind "vmess" (qxVMessParams loc c o)
  else if String.eqb p ProtocolTrojan then with_kind "trojan" (qxTrojanParams loc c o)
  else qx_fail loc p "protocol is not supported".

Definition renderQuantumultXServerLine (index : nat) (node : ResolvedNode)
    : result CapabilityError string :=
  let loc := indexed "nodes" index in
  let check b reason := qx_check b loc (rn_Protocol node) reason in
  let t := map_get (cred_Transport (rn_Credentials node)) in
  let o := qx_transport (cred_Transport (rn_Credentials node)) in
  let tag := TrimSpace (rn_DisplayName node) in
  let server := TrimSpace (rn_Server node) in
  check (String.eqb tag "" || String.eqb server "" || hasUnsafeQXChars tag ||
         hasUnsafeQXChars server) "invalid characters in node display name or server address" ;;?
  check (String.eqb server (TrimSpace (rn_LogicalID node)))
    "placeholder logical ID server address is not allowed" ;;?
  let endpoint := JoinHostPort server (itoa (rn_Port node)) in
  check (negb (blank (t "pbk")) || negb (blank (t "sid")))
    "reality transport is not supported by Quantumult X" ;;?
  check (negb (blank (t "flow"))) "xtls flow is not supported by Quantumult X" ;;?
  check (negb (blank (t "service_name"))) "grpc service_name is not supported by Quantumult X" ;;?
  check (hasUnsafeQXChars (qx_host o) || hasUnsafeQXChars (qx_sni o) ||
         hasUnsafeQXChars (qx_path o) || hasUnsafeQXChars (qx_obfs o))
    "invalid characters in transport options" ;;?
  let? kp := qx_protocol loc node in
  Ok (Join ", " ((kp.1 +:+ " = " +:+ endpoint) :: kp.2 ++ ["tag=" +:+ tag])).

(** The body of the loop over the nodes. *)
Definition qx_line (index : nat) (node : ResolvedNode) : result CapabilityError string :=
  validateCredentialEnvelope TargetQuantumultX index node ;;?
  renderQuantumultXServerLine index node.

Definition renderQuantumultX (snap : ResolvedPolicySnapshot) : result CapabilityError string :=
  let? lines := render_lines qx_line 0 (snap_Nodes snap) in Ok (document lines).

Definition renderQuantumultXRuleLine (index : nat) (rule : ResolvedRule)
    : result CapabilityError string :=
  let loc := indexed "rules" index in
  let expr := TrimSpace (rr_Expression rule) in
  let kind := ruleKind expr in
  qx_check (String.eqb kind "") loc "rule" "routing rule expression is required" ;;?
  let name := TrimSpace (rr_TargetGroupName rule) in
  qx_check (String.eqb name "" || hasUnsafeQXChars name) loc kind
    "invalid routing rule target group" ;;?
  qx_check (isBuiltInPolicyTarget name && negb (isQuantumultXBuiltInPolicy name)) loc name
    "built-in policy target is not supported by Quantumult X" ;;?
  let targetName := if isBuiltInPolicyTarget name then ToUpper name else name in
  let parts := Split (byte_of 44) expr in
  if String.eqb kind "MATCH" then
    qx_check (match parts with _ :: v :: _ => negb (blank v) | _ => false end ||
              hasUnsafeQXChars expr) loc "MATCH" "MATCH rule does not accept parameters" ;;?
    Ok ("final, " +:+ targetName)
  else
    match parts with
    | [_; raw] =>
        let val := TrimSpace raw in
        let line k := Ok (k +:+ ", " +:+ val +:+ ", " +:+ targetName) in
        qx_check (String.eqb val "" || hasUnsafeQXChars val) loc kind "invalid routing rule value" ;;?
        if String.eqb kind "DOMAIN" then line "host"
        else if String.eqb kind "DOMAIN-SUFFIX" then line "host-suffix"
        else if String.eqb kind "DOMAIN-KEYWORD" then line "host-keyword"
        else if String.eqb kind "IP-CIDR" then
          match ParsePrefix val with
          | Some p => if pfx_Is4 p then line "ip-cidr"
                      else qx_fail loc kind "invalid IPv4 CIDR in IP-CIDR rule"
          | None => qx_fail loc kind "invalid IPv4 CIDR in IP-CIDR rule"
          end
        else if String.eqb kind "IP-CIDR6" then
          match ParsePrefix val with
          | Some p => if pfx_Is4 p then qx_fail loc kind "invalid IPv6 CIDR in IP-CIDR6 rule"
                      else line "ip6-cidr"
          | None => qx_fail loc kind "invalid IPv6 CIDR in IP-CIDR6 rule"
          end
        else if String.eqb kind "GEOIP" then line "geoip"
        else qx_fail loc kind "routing rule kind is not supported"
    | _ => qx_fail loc kind "routing rule expression must have exactly one value"
    end.
End QuantumultX.

(** ** What a line contains *)

Section Clean.
Context `{GoText} `{Backend}.

Lemma safe_chars_clean s : hasUnsafeQXChars s = false → clean s.
Proof. apply clean_contains. set_solver. Qed.

Lemma qx_check_ok b loc feature reason : qx_check b loc feature reason = Ok tt ↔ b = false.
Proof. apply fail_if_ok. Qed.

Ltac checks :=
  repeat match goal with
  | Hc : qx_check _ _ _ _ = Ok _ |- _ => apply qx_check_ok in Hc
  | Hc : _ || _ = false |- _ => apply orb_false_iff in Hc as [? ?]
  | Hc : negb _ = false |- _ => apply negb_false_iff in Hc
  | Hc : hasUnsafeQXChars _ = false |- _ => apply safe_chars_clean in Hc
  end.

(** The four free options of the transport. *)
Definition clean_options (o : qx_options) : Prop :=
  clean (qx_host o) ∧ clean (qx_sni o) ∧ clean (qx_path o) ∧ clean (qx_obfs o).

Lemma qx_part_clean key v : clean key → clean v → Forall clean (qx_part key v).
Proof. intros. unfold qx_part. destruct (String.eqb v ""); repeat constructor. by apply clean_app. Qed.

Lemma first_of_clean a b : clean a → clean b → clean (first_of a b).
Proof. unfold first_of. by destruct (String.eqb a ""). Qed.

Lemma verification_off_clean b : Forall clean (verification_off b).
Proof. destruct b; by repeat constructor. Qed.

Ltac pieces :=
  repeat first [assumption | apply Forall_app; split | apply Forall_cons; split | apply Forall_nil; done
               | apply verification_off_clean | apply qx_part_clean; [done|] | apply first_of_clean
               | match goal with |- Forall clean (if ?b then _ else _) => destruct b end];
  eauto with clean.

Lemma qx_ws_clean loc feature reason o l :
  clean_options o → qx_ws loc feature reason o = Ok l → Forall clean l.
Proof.
  intros (? & ? & ? & ?) Hl. unfold qx_ws in Hl. split_ok Hl. injection Hl as <-. pieces.
  by destruct (_ || _).
Qed.

Lemma qx_ss_plain_clean loc o l :
  clean_options o → qx_ss_plain loc o = Ok l → Forall clean l.
Proof.
  intros (? & ? & ? & ?) Hl. unfold qx_ss_plain in Hl. split_ok Hl.
  destruct (String.eqb _ ""); injection Hl as <-; [done|]. pieces.
  apply clean_app; [done|]. by destruct (_ && _).
Qed.

Lemma qx_vmess_http_clean loc reason o l :
  clean_options o → qx_vmess_http loc reason o = Ok l → Forall clean l.
Proof.
  intros (? & ? & ? & ?) Hl. unfold qx_vmess_http in Hl. split_ok Hl. injection Hl as <-. pieces.
Qed.

Lemma qx_vmess_plain_clean loc o l :
  clean_options o → qx_vmess_plain loc o = Ok l → Forall clean l.
Proof.
  intros Ho. unfold qx_vmess_plain. destruct (String.eqb _ "http"); [by apply qx_vmess_http_clean|].
  destruct (negb _); [done|]. destruct Ho as (? & ? & ? & ?).
  destruct (_ || _); intros [= <-]; [pieces|done].
Qed.

Lemma qx_protocol_clean loc node kp :
  clean_options (qx_transport (cred_Transport (rn_Credentials node))) →
  qx_protocol loc node = Ok kp → clean kp.1 ∧ Forall clean kp.2.
Proof.
  intros Ho. unfold qx_protocol, qxSSParams, qxVMessParams, qxTrojanParams.
  generalize dependent (qx_transport (cred_Transport (rn_Credentials node))). intros o Ho.
  pose proof Ho as (? & ? & ? & ?).
  repeat (destruct (String.eqb (rn_Protocol node) _);
    [intros Hl; split_ok Hl; injection Hl as <-; split; [done|];
     match goal with Hp : _ = Ok ?x |- Forall clean (_, ?x).2 => split_ok Hp; injection Hp as <- end;
     checks|]); [| | |done].
  all: simpl; pieces.
  all: repeat match goal with
       | Hl : (if ?b then _ else _) = Ok _ |- _ => destruct b
       end; eauto using qx_ws_clean, qx_ss_plain_clean, qx_vmess_http_clean, qx_vmess_plain_clean.
  all: try done.
  all: match goal with Hl : _ = Ok _ |- _ => split_ok Hl; injection Hl as <- end.
  all: pieces; by destruct (qx_insecure o).
Qed.

Lemma endpoint_clean host port : clean host → clean port → clean (JoinHostPort host port).
Proof.
  intros. unfold JoinHostPort. destruct (ContainsAny host [58]%N); repeat apply clean_app; done.
Qed.

(** A server line: the endpoint, the parameters and the tag, each free of commas and
    line breaks. *)
Lemma qx_line_fields index node line :
  qx_line index node = Ok line →
  ∃ kind params,
    let head := kind +:+ " = " +:+
                JoinHostPort (TrimSpace (rn_Server node)) (itoa (rn_Port node)) in
    let rest := params ++ ["tag=" +:+ TrimSpace (rn_DisplayName node)] in
    qx_protocol (indexed "nodes" index) node = Ok (kind, params) ∧
    line = Join ", " (head :: rest) ∧ Forall clean (head :: rest).
Proof.
  unfold qx_line, renderQuantumultXServerLine. intros Hl. split_ok Hl. injection Hl as <-.
  destruct x as [kind params]. exists kind, params. split; [done|]. split; [done|]. checks.
  match goal with Hp : qx_protocol _ _ = _ |- _ =>
    apply qx_protocol_clean in Hp as [? ?]; [|by repeat split] end.
  constructor.
  - repeat apply clean_app; try done. apply endpoint_clean; auto with clean.
  - pieces.
Qed.

(** What Quantumult X reads back.  The document the renderer returns for a
    snapshot with nodes splits at its line breaks into exactly one line per node, in
    order, and each line splits at its commas into the protocol keyword with the
    endpoint, the parameters of the protocol, and the trimmed name as the tag. *)
Theorem quantumultx_export_no_injection snap content :
  snap_Nodes snap ≠ [] → renderQuantumultX snap = Ok content →
  ∃ lines, Split (byte_of 10) content = lines ++ [""] ∧
    length lines = length (snap_Nodes snap) ∧
    ∀ i node, snap_Nodes snap !! i = Some node →
      ∃ line kind params,
        lines !! i = Some line ∧
        qx_protocol (indexed "nodes" i) node = Ok (kind, params) ∧
        Split (byte_of 44) line =
          (kind +:+ " = " +:+ JoinHostPort (TrimSpace (rn_Server node)) (itoa (rn_Port node)))
          :: map (λ f, " " +:+ f) (params ++ ["tag=" +:+ TrimSpace (rn_DisplayName node)]).
Proof.
  intros Hne Hr. apply let_ok in Hr as (lines & Hl & [= <-]). exists lines.
  assert (∀ i x t, qx_line i x = Ok t → joined t) as Hj.
  { intros i x t (kind & params & _ & -> & Hf)%qx_line_fields. by eexists _, _. }
  split; [by eapply document_lines|]. apply render_lines_lookup in Hl as [Hlen Hl].
  split; [done|]. intros i node Hi. destruct (Hl i node Hi) as (t & Ht & Hline).
  apply qx_line_fields in Hline as (kind & params & Hp & -> & Hf).
  eexists _, kind, params. split; [done|]. split; [done|]. exact (joined_fields _ _ Hf).
Qed.
End Clean.

(** ** Instances *)

Definition qx_sample : ResolvedPolicySnapshot :=
  with_nodes [trojan_node "n1" " HK " "secret"; trojan_node "n2" "JP" "s=1"] (snapshot_of [] []).

Definition qx_sample_content : string :=
  "trojan = example.org:443, password=secret, over-tls=true, tls-verification=true, tag=HK" +:+
  bytes [10]%N +:+
  "trojan = example.org:443, password=s=1, over-tls=true, tls-verification=true, tag=JP" +:+
  bytes [10]%N.

Lemma quantumultx_export_no_injection_witness :
  renderQuantumultX (H := ascii_text) (H0 := sample_backend) qx_sample = Ok qx_sample_content ∧
  ∃ lines, Split (byte_of 10) qx_sample_content = lines ++ [""] ∧ length lines = 2.
Proof.
  assert (renderQuantumultX (H := ascii_text) (H0 := sample_backend) qx_sample =
    Ok qx_sample_content) as Hr by (vm_compute; reflexivity).
  split; [exact Hr|].
  destruct (quantumultx_export_no_injection (H := ascii_text) (H0 := sample_backend) qx_sample _
    ltac:(discriminate) Hr) as (lines & Hs & Hlen & _).
  exists lines. split; [exact Hs | exact Hlen].
Defined.
