(* ===== verification/Compiler.v ===== *)
(** * The compiler front end

    [internal/compiler/compiler.go]: compilation of a snapshot, the filter that drops
    what a target cannot render, and the capability report. *)

From S2P Require Import Prelude.
From S2P Require Import GoStrings.
From S2P Require Import Domain.
From S2P Require Import Lifecycle.
From S2P Require Import NodeFilter.
From S2P Require Import Policy.
From S2P Require Import Risk.
From S2P Require Import Admission.
From S2P Require Import Groups.
From S2P Require Import ResolveGroups.
From S2P Require Import Resolver.
From S2P Require Import Prune.

From S2P Require Import Capabilities.
From S2P Require Import Surge.
From S2P Require Import QuantumultX.
From S2P Require Import MihomoDocument.
From S2P Require Import Mihomo.
From S2P Require Import SingBox.

Section Compiler.
Context `{GoText} `{Backend}.

(** ** Compilation *)

Definition lift_capability {A} (r : result CapabilityError A) : result compile_error A :=
  match r with Ok a => Ok a | Err e => Err (capability_error e) end.

Record rendered : Type := { rd_Content : string; rd_ContentType : string; rd_Filename : string }.
Record Result : Type := {
  res_Content : string; res_ContentType : string; res_Filename : string;
  res_Target : string; res_SnapshotDigest : string; res_ContentDigest : string
}.

Definition render (snap : ResolvedPolicySnapshot) (target : string)
    : result compile_error rendered :=
  let text content kind file :=
    let? c := content in
    Ok {| rd_Content := c; rd_ContentType := kind; rd_Filename := file |} in
  if String.eqb target TargetMihomo then
    text (renderMihomo snap) "application/yaml" "mihomo.yaml"
  else if String.eqb target TargetSingBox then
    text (renderSingBox snap) "application/json" "sing-box.json"
  else if String.eqb target TargetSurge then
    text (lift_capability (renderSurge snap)) "text/plain; charset=utf-8" "surge.conf"
  else if String.eqb target TargetQuantumultX then
    text (lift_capability (renderQuantumultX snap)) "text/plain; charset=utf-8" "quantumult-x.conf"
  else Err (render_error ("unknown compiler target " +:+ target)).

(** The digest of the rendered bytes, in hexadecimal. *)
Definition content_digest `{Sha256} (content : string) : string :=
  hex_bytes (sha256_Sum256 content).

(** What [Compile] checks before it renders. *)
Definition compile_checks (snap : ResolvedPolicySnapshot) (target : string)
    : result CapabilityError unit :=
  match capabilityForTarget target with
  | None => fail_if true target "target" target "unknown compiler target"
  | Some cap =>
      validate snap target cap ;;?
      for_each (λ '(i, node), validateCredentialEnvelope target i node)
        (enumerate (snap_Nodes snap))
  end.

Definition compiled `{Sha256} (snap : ResolvedPolicySnapshot) (target : string)
    (r : result compile_error rendered) : result compile_error Result :=
  let? c := r in
  Ok {| res_Content := rd_Content c; res_ContentType := rd_ContentType c;
        res_Filename := rd_Filename c; res_Target := target;
        res_SnapshotDigest := snap_SnapshotDigest snap;
        res_ContentDigest := content_digest (rd_Content c) |}.

Definition Compile `{Sha256} (cancelled : bool) (snap : ResolvedPolicySnapshot) (target : string)
    : result compile_error Result :=
  reject_if cancelled compile_cancelled ;;?
  lift_capability (compile_checks snap target) ;;?
  compiled snap target (render snap target).

(** ** The compatible part of a snapshot *)

Record ManifestExcludedNode : Type := {
  exn_NodeID : string; exn_Code : string; exn_Reason : string
}.

(** Why the target cannot take the node; [""] when it can. *)
Definition incompatibility (target : string) (cap : Capability) (entry : nat * ResolvedNode)
    : string :=
  let '(i, node) := entry in
  if negb (mem_str (rn_Protocol node) (cap_Protocols cap)) then
    "target " +:+ target +:+ " does not support protocol " +:+ rn_Protocol node
  else match validateCredentialEnvelope target i node with
       | Err e => CapabilityError_Error e
       | Ok _ => ""
       end.

Definition filter_members (admittedSet : list string) (g : ResolvedGroup)
    : list ResolvedGroupMember :=
  List.filter (λ m,
    if String.eqb (mem_Kind m) MemberKindNode
    then mem_str (mem_TargetID m) admittedSet || mem_str (mem_DisplayName m) admittedSet
    else true) (rg_Members g).

Definition FilterCompatibleSnapshot (snap : ResolvedPolicySnapshot) (target : string)
    : ResolvedPolicySnapshot * list ManifestExcludedNode :=
  match capabilityForTarget target with
  | None => (snap, [])
  | Some cap =>
      let entries := enumerate (snap_Nodes snap) in
      let ok entry := String.eqb (incompatibility target cap entry) "" in
      let admittedNodes := map snd (List.filter ok entries) in
      let excludedNodes :=
        map (λ entry, {| exn_NodeID := rn_LogicalID entry.2;
                         exn_Code := "unsupported_target_capability";
                         exn_Reason := incompatibility target cap entry |})
          (List.filter (λ entry, negb (ok entry)) entries) in
      let admittedSet := map rn_LogicalID admittedNodes ++ map rn_DisplayName admittedNodes in
      ({| snap_InputDigest := snap_InputDigest snap;
          snap_SnapshotDigest := snap_SnapshotDigest snap;
          snap_RevisionID := snap_RevisionID snap;
          snap_InventoryWatermark := snap_InventoryWatermark snap;
          snap_CompilerVersion := snap_CompilerVersion snap; snap_Nodes := admittedNodes;
          snap_NodeLogicalIDs := snap_NodeLogicalIDs snap;
          snap_Groups := map (λ g,
            {| rg_EmptyFallbackPass := rg_EmptyFallbackPass g;
               rg_EffectiveEmptyPass := rg_EffectiveEmptyPass g; rg_ID := rg_ID g;
               rg_Name := rg_Name g; rg_GroupType := rg_GroupType g;
               rg_Members := filter_members admittedSet g;
               rg_ChildGroupIDs := rg_ChildGroupIDs g;
               rg_NodeLogicalIDs := rg_NodeLogicalIDs g;
               rg_AllNodeLogicalIDs := rg_AllNodeLogicalIDs g;
               rg_ExpandedNodeIDs := rg_ExpandedNodeIDs g; rg_Sources := rg_Sources g;
               rg_Position := rg_Position g |}) (snap_Groups snap);
          snap_Rules := snap_Rules snap; snap_DNS := snap_DNS snap;
          snap_Diagnostics := snap_Diagnostics snap;
          snap_RiskPolicyRevision := snap_RiskPolicyRevision snap;
          snap_RiskDecisionDigest := snap_RiskDecisionDigest snap;
          snap_RiskEvaluatedAt := snap_RiskEvaluatedAt snap;
          snap_AdmittedNodeIDs := snap_AdmittedNodeIDs snap;
          snap_ExcludedNodeIDs := snap_ExcludedNodeIDs snap;
          snap_FilterCounts := snap_FilterCounts snap;
          snap_ResolvedAt := snap_ResolvedAt snap |}, excludedNodes)
  end.

(** ** The capability report of a target *)

Record CapabilityDiagnostic : Type := {
  cd_NodeID : string; cd_Code : string; cd_Message : string; cd_Target : string
}.

Definition node_diagnostic (target : string) (cap : Capability) (entry : nat * ResolvedNode)
    : list CapabilityDiagnostic :=
  let '(i, node) := entry in
  let diag message := {| cd_NodeID := rn_LogicalID node;
                         cd_Code := "unsupported_target_capability";
                         cd_Message := message; cd_Target := target |} in
  if negb (mem_str (rn_Protocol node) (cap_Protocols cap)) then
    [diag ("target " +:+ target +:+ " does not support protocol " +:+ rn_Protocol node +:+
           " (protocol is not supported)")]
  else match validateCredentialEnvelope target i node with
       | Err e => [diag (CapabilityError_Error e)]
       | Ok _ => []
       end.

Definition groupNameSet (snap : ResolvedPolicySnapshot) : list string :=
  List.filter (λ s, negb (String.eqb s ""))
    (map rg_Name (snap_Groups snap) ++ map rg_ID (snap_Groups snap)).

Definition group_diagnostics (target : string) (snap : ResolvedPolicySnapshot)
    (g : ResolvedGroup) : list CapabilityDiagnostic :=
  let hasProxies :=
    (0 <? length (rg_AllNodeLogicalIDs g)) ||
    existsb (λ m, String.eqb (mem_Kind m) MemberKindBuiltin) (rg_Members g) in
  (if negb (UsesEmptyPass g) &&
      ((length (rg_Members g) =? 0) || (rg_EmptyFallbackPass g && negb hasProxies))
   then [{| cd_NodeID := ""; cd_Code := "required_nonempty";
            cd_Message := "proxy group " +:+ Quote (rg_Name g) +:+
              " has no proxies (required_nonempty)"; cd_Target := target |}]
   else []) ++
  flat_map (λ m,
    let tID := TrimSpace (mem_TargetID m) in
    let tName := TrimSpace (mem_DisplayName m) in
    if String.eqb (mem_Kind m) MemberKindGroup &&
       (negb (String.eqb tID "") && negb (mem_str tID (groupNameSet snap)) &&
        (negb (String.eqb tName "") && negb (mem_str tName (groupNameSet snap))))
    then [{| cd_NodeID := ""; cd_Code := "dangling_group_reference";
             cd_Message := "group " +:+ Quote (rg_Name g) +:+
               " references non-existent child group " +:+ Quote tName;
             cd_Target := target |}]
    else []) (rg_Members g).

Definition rule_diagnostics (target : string) (snap : ResolvedPolicySnapshot)
    (r : ResolvedRule) : list CapabilityDiagnostic :=
  let tName := TrimSpace (rr_TargetGroupName r) in
  let tID := TrimSpace (rr_TargetGroupID r) in
  if negb (mem_str tName [""; "DIRECT"; "REJECT"; "REJECT-DROP"; "PASS"]) &&
     (negb (mem_str tName (groupNameSet snap)) && negb (mem_str tID (groupNameSet snap)))
  then [{| cd_NodeID := ""; cd_Code := "dangling_rule_target";
           cd_Message := "rule " +:+ Quote (rr_Expression r) +:+
             " targets non-existent group " +:+ Quote tName; cd_Target := target |}]
  else [].

Definition ValidateTargetCapabilities (snap : ResolvedPolicySnapshot) (target : string)
    : list CapabilityDiagnostic :=
  match capabilityForTarget target with
  | None => [{| cd_NodeID := ""; cd_Code := "unsupported_target";
                cd_Message := "unknown compiler target: " +:+ target; cd_Target := target |}]
  | Some cap =>
      flat_map (node_diagnostic target cap) (enumerate (snap_Nodes snap)) ++
      if String.eqb target TargetMihomo then
        flat_map (group_diagnostics target snap) (snap_Groups snap) ++
        flat_map (rule_diagnostics target snap) (snap_Rules snap)
      else []
  end.
End Compiler.

(** ** What the checks establish *)

Section Verdicts.
Context `{GoText} `{Backend}.

(** Two checks with the same outcome, up to the error they report. *)
Definition same_verdict (a b : result CapabilityError unit) : Prop :=
  a = Ok tt ↔ b = Ok tt.

Lemma same_verdict_refl a : same_verdict a a.
Proof. done. Qed.

Lemma same_verdict_fail b t l f r t' l' f' r' :
  same_verdict (fail_if b t l f r) (fail_if b t' l' f' r').
Proof. by destruct b. Qed.

Lemma same_verdict_seq a a' b b' :
  same_verdict a a' → same_verdict b b' → same_verdict (a ;;? b) (a' ;;? b').
Proof.
  unfold same_verdict. destruct a as [[]|], a' as [[]|]; simpl; naive_solver.
Qed.

Lemma same_verdict_for_each {A} (f g : A → result CapabilityError unit) l :
  (∀ x, same_verdict (f x) (g x)) → same_verdict (for_each f l) (for_each g l).
Proof. intros Hfg. unfold same_verdict. rewrite !for_each_ok. firstorder. Qed.

Ltac same_verdict :=
  repeat first
    [ apply same_verdict_seq | apply same_verdict_fail | apply same_verdict_for_each; intros
    | apply same_verdict_refl | case_match ].

(** The position of a node only appears in the message. *)
Lemma envelope_index target i j node :
  same_verdict (validateCredentialEnvelope target i node)
               (validateCredentialEnvelope target j node).
Proof.
  unfold validateCredentialEnvelope, check_credentials, check_wireguard. same_verdict.
Qed.

(** The target can render the node. *)
Definition compatible (target : string) (cap : Capability) (n : ResolvedNode) : Prop :=
  rn_Protocol n ∈ cap_Protocols cap ∧ validateCredentialEnvelope target 0 n = Ok tt.

Lemma incompatibility_none target cap i n :
  incompatibility target cap (i, n) = "" ↔ compatible target cap n.
Proof.
  unfold incompatibility, compatible. pose proof (envelope_index target i 0 n) as Hidx.
  destruct (mem_str _ _) eqn:Hm; simpl; autorewrite with csp in Hm.
  - destruct (validateCredentialEnvelope target i n) as [[]|e] eqn:Hv.
    + unfold same_verdict in Hidx. naive_solver.
    + unfold same_verdict in Hidx. split; [done|]. intros [_ Hok]. naive_solver.
  - split; [done|]. by intros [? _].
Qed.

Lemma node_diagnostic_none target cap i n :
  node_diagnostic target cap (i, n) = [] ↔ compatible target cap n.
Proof.
  rewrite <- (incompatibility_none target cap i n).
  unfold node_diagnostic, incompatibility. destruct (negb _); [done|].
  by destruct (validateCredentialEnvelope target i n).
Qed.

Lemma elem_of_enumerate {A} (l : list A) i x : (i, x) ∈ enumerate l ↔ l !! i = Some x.
Proof.
  unfold enumerate. rewrite elem_of_lookup_imap. naive_solver.
Qed.

Lemma enumerate_forall {A} (l : list A) (P : A → Prop) :
  (∀ i x, (i, x) ∈ enumerate l → P x) ↔ ∀ x, x ∈ l → P x.
Proof.
  setoid_rewrite elem_of_enumerate. setoid_rewrite list_elem_of_lookup. naive_solver.
Qed.

(** The node checks of [validate] and of the envelope loop, together. *)
Definition node_checks (snap : ResolvedPolicySnapshot) (target : string) (cap : Capability)
    : Prop :=
  ∀ n, n ∈ snap_Nodes snap → compatible target cap n ∧ blank (rn_DisplayName n) = false.

Lemma validate_node_ok target cap i n :
  validate_node target cap (i, n) = Ok tt ↔
  rn_Protocol n ∈ cap_Protocols cap ∧ blank (rn_LogicalID n) = false ∧
  blank (rn_DisplayName n) = false.
Proof.
  unfold validate_node, fail_if, reject_if. rewrite <- mem_str_spec.
  destruct (mem_str _ _), (blank (rn_LogicalID n)), (blank (rn_DisplayName n)); naive_solver.
Qed.

Lemma envelope_id target i n :
  validateCredentialEnvelope target i n = Ok tt → blank (rn_LogicalID n) = false.
Proof.
  unfold validateCredentialEnvelope, fail_if at 1, reject_if. by destruct (blank _).
Qed.

Lemma node_checks_ok snap target cap :
  for_each (validate_node target cap) (enumerate (snap_Nodes snap)) = Ok tt ∧
  for_each (λ '(i, node), validateCredentialEnvelope target i node)
    (enumerate (snap_Nodes snap)) = Ok tt ↔ node_checks snap target cap.
Proof.
  rewrite !for_each_ok. unfold node_checks, compatible.
  setoid_rewrite <- (enumerate_forall (snap_Nodes snap)). split.
  - intros [Hv He] i n Hin. pose proof (Hv _ Hin) as [? [? ?]]%validate_node_ok.
    specialize (He _ Hin). simpl in He. by apply (envelope_index target i 0 n) in He.
  - intros Hall. split; intros [i n] Hin; destruct (Hall i n Hin) as [[Hp He] Hb].
    + apply validate_node_ok. by apply envelope_id in He.
    + by apply (envelope_index target i 0 n).
Qed.

(** The checks of a target that only takes nodes. *)
Lemma checks_nodes_only snap target cap :
  capabilityForTarget target = Some cap → target ≠ TargetMihomo →
  node_checks snap target cap → compile_checks snap target = Ok tt.
Proof.
  intros Hcap Ht [Hv He]%node_checks_ok. unfold compile_checks, validate.
  rewrite Hcap, Hv. apply String.eqb_neq in Ht. rewrite Ht. simpl. by rewrite He.
Qed.

Lemma Compile_rendered `{Sha256} snap target :
  compile_checks snap target = Ok tt →
  Compile false snap target = compiled snap target (render snap target).
Proof. unfold Compile. by intros ->. Qed.

Lemma Compile_checked `{Sha256} snap target content :
  Compile false snap target = Ok content → compile_checks snap target = Ok tt.
Proof. unfold Compile. simpl. by destruct (compile_checks snap target) as [[]|]. Qed.

Lemma Compile_result `{Sha256} cancelled snap target res :
  Compile cancelled snap target = Ok res →
  res_SnapshotDigest res = snap_SnapshotDigest snap ∧
  res_ContentDigest res = content_digest (res_Content res).
Proof.
  unfold Compile, compiled. intros Hc. split_ok Hc. by injection Hc as <-.
Qed.

Lemma checks_ok snap target :
  compile_checks snap target = Ok tt →
  ∃ cap, capabilityForTarget target = Some cap ∧ validate snap target cap = Ok tt ∧
    node_checks snap target cap.
Proof.
  unfold compile_checks. destruct (capabilityForTarget target) as [cap|]; [|done].
  intros [Hv He]%seq_ok. exists cap. split; [done|]. split; [done|].
  apply node_checks_ok. split; [|done].
  unfold validate in Hv. by destruct (for_each (validate_node _ _) _) as [[]|].
Qed.

(** ** The filtered snapshot *)

Lemma capability_for_target target cap :
  capabilityForTarget target = Some cap → target ∈ Targets.
Proof.
  unfold capabilityForTarget, Targets.
  repeat (case_match; simplify_eq;
          [repeat match goal with E : String.eqb _ _ = true |- _ =>
             apply String.eqb_eq in E end; subst; set_solver|]). done.
Qed.

#[export] Instance compatible_dec target cap n : Decision (compatible target cap n).
Proof.
  unfold compatible. apply and_dec; [apply _|].
  destruct (validateCredentialEnvelope target 0 n) as [[]|]; [by left|by right].
Defined.

Lemma filter_as_stdpp {A} (f : A → bool) (P : A → Prop) `{∀ x, Decision (P x)} l :
  (∀ x, f x = true ↔ P x) → List.filter f l = filter P l.
Proof.
  intros Hf. induction l as [|x l IH]; [done|]. simpl. rewrite filter_cons, IH.
  specialize (Hf x). destruct (f x), (decide (P x)); naive_solver.
Qed.

(** Numbering the elements does not change what a filter on them keeps. *)
Lemma filter_enumerate {A} (P : A → Prop) `{∀ x, Decision (P x)} l :
  map snd (filter (λ e : nat * A, P e.2) (enumerate l)) = filter P l.
Proof.
  rewrite <- (imap_pair_snd l) at 2. fold (enumerate l).
  induction (enumerate l) as [|[i x] k IH]; [done|]. simpl.
  rewrite !filter_cons. simpl. destruct (decide (P x)); simpl; by rewrite IH.
Qed.

(** The kept nodes are the compatible ones, in order. *)
Lemma filter_kept snap target cap :
  capabilityForTarget target = Some cap →
  snap_Nodes (FilterCompatibleSnapshot snap target).1 =
  filter (compatible target cap) (snap_Nodes snap).
Proof.
  intros Hcap. unfold FilterCompatibleSnapshot. rewrite Hcap. simpl.
  rewrite <- (filter_enumerate (compatible target cap)). f_equal.
  apply filter_as_stdpp. intros [i n]. rewrite String.eqb_eq. apply incompatibility_none.
Qed.

(** An entry of the exclusion list, for the node it reports. *)
Definition reports (n : ResolvedNode) (x : ManifestExcludedNode) : Prop :=
  exn_NodeID x = rn_LogicalID n ∧ exn_Code x = "unsupported_target_capability" ∧
  exn_Reason x ≠ "".

(** The excluded nodes are reported one by one, in order. *)
Lemma filter_excluded snap target cap :
  capabilityForTarget target = Some cap →
  Forall2 reports (filter (λ n, ¬ compatible target cap n) (snap_Nodes snap))
    (FilterCompatibleSnapshot snap target).2.
Proof.
  intros Hcap. unfold FilterCompatibleSnapshot. rewrite Hcap. simpl.
  rewrite <- (filter_enumerate (λ n, ¬ compatible target cap n)).
  rewrite (filter_as_stdpp _ (λ e : nat * ResolvedNode, ¬ compatible target cap e.2)).
  - apply Forall2_fmap, Forall_Forall2_diag, Forall_forall. intros [i n] [Hc _]%list_elem_of_filter.
    repeat split. simpl. by intros ?%incompatibility_none.
  - intros [i n]. simpl. rewrite negb_true_iff, String.eqb_neq.
    by rewrite (incompatibility_none target cap i n).
Qed.
End Verdicts.

(** C40. What [FilterCompatibleSnapshot] leaves compiles: for the targets that take
    nodes only (sing-box, Surge, Quantumult X), when every node has a display
    name, [Compile] of the filtered snapshot is the renderer's result, with every
    check in front of the renderer passed.  For every known target the kept nodes are
    exactly the nodes the target supports with a complete credential envelope, in
    the order of the snapshot, and the exclusion list reports exactly the other
    nodes, one entry per node and in the same order, each under the node's own
    logical ID with the code of a missing capability and a nonempty reason. *)
Theorem filtered_snapshot_compiles `{GoText} `{Backend} `{Sha256}
    (snap : ResolvedPolicySnapshot) (target : string) (cap : Capability) :
  capabilityForTarget target = Some cap →
  let '(kept, excluded) := FilterCompatibleSnapshot snap target in
  (target ≠ TargetMihomo →
   (∀ n, n ∈ snap_Nodes snap → blank (rn_DisplayName n) = false) →
   Compile false kept target = compiled kept target (render kept target)) ∧
  snap_Nodes kept = filter (compatible target cap) (snap_Nodes snap) ∧
  Forall2 reports (filter (λ n, ¬ compatible target cap n) (snap_Nodes snap)) excluded.
Proof.
  intros Hcap. pose proof (filter_kept snap target cap Hcap) as Hin.
  pose proof (filter_excluded snap target cap Hcap) as Hex.
  destruct (FilterCompatibleSnapshot snap target) as [kept excluded]. simpl in *.
  split; [|done]. intros Ht Hblank. apply Compile_rendered, (checks_nodes_only _ _ cap); [done..|].
  intros n Hn. rewrite Hin in Hn. apply list_elem_of_filter in Hn as [Hc Hn]. auto.
Qed.

(** ** Mihomo: every name resolves *)

Section Mihomo.
Context `{GoText} `{Backend}.

Definition names_node (snap : ResolvedPolicySnapshot) (name : string) : Prop :=
  ∃ n, n ∈ snap_Nodes snap ∧ rn_DisplayName n = name.
Definition names_group (snap : ResolvedPolicySnapshot) (name : string) : Prop :=
  ∃ g, g ∈ snap_Groups snap ∧ rg_Name g = name.

(** What a rendered member must point at. *)
Definition member_resolves (snap : ResolvedPolicySnapshot) (m : ResolvedGroupMember) : Prop :=
  let name := TrimSpace (mem_DisplayName m) in
  name ≠ "" ∧
  ((mem_Kind m = MemberKindNode ∧ names_node snap name ∧
      (blank (mem_TargetID m) = true ∨
       ∃ n, n ∈ snap_Nodes snap ∧ rn_LogicalID n = mem_TargetID m)) ∨
   (mem_Kind m = MemberKindGroup ∧ names_group snap name ∧
      (blank (mem_TargetID m) = true ∨
       ∃ g, g ∈ snap_Groups snap ∧ rg_ID g = mem_TargetID m)) ∨
   (mem_Kind m = MemberKindBuiltin ∧ isBuiltInPolicyTarget name = true) ∨
   (mem_Kind m = "" ∧
      (names_node snap name ∨ names_group snap name ∨ isBuiltInPolicyTarget name = true))).

Definition rule_resolves (snap : ResolvedPolicySnapshot) (r : ResolvedRule) : Prop :=
  let name := TrimSpace (rr_TargetGroupName r) in
  name ≠ "" ∧ ruleKind (TrimSpace (rr_Expression r)) ∈ cap_RuleKinds mihomoCapability ∧
  (isBuiltInPolicyTarget name = true ∨ names_group snap name).

Lemma names_node_spec snap name : mem_str name (nodeNames snap) = true ↔ names_node snap name.
Proof.
  rewrite mem_str_spec. unfold nodeNames, names_node.
  rewrite list_elem_of_In, in_map_iff. setoid_rewrite list_elem_of_In. naive_solver.
Qed.

Lemma names_group_spec snap name :
  mem_str name (groupNames snap) = true ↔ names_group snap name.
Proof.
  rewrite mem_str_spec. unfold groupNames, names_group.
  rewrite list_elem_of_In, in_map_iff. setoid_rewrite list_elem_of_In. naive_solver.
Qed.

Lemma node_id_spec snap id :
  mem_str id (nodeIDs snap) = true → ∃ n, n ∈ snap_Nodes snap ∧ rn_LogicalID n = id.
Proof.
  rewrite mem_str_spec. unfold nodeIDs.
  rewrite list_elem_of_In, in_map_iff. setoid_rewrite list_elem_of_In. naive_solver.
Qed.

Lemma group_id_spec snap id :
  mem_str id (groupIDs snap) = true → ∃ g, g ∈ snap_Groups snap ∧ rg_ID g = id.
Proof.
  rewrite mem_str_spec. unfold groupIDs.
  rewrite list_elem_of_In, in_map_iff. setoid_rewrite filter_In.
  setoid_rewrite list_elem_of_In. naive_solver.
Qed.

(** A reference that is not rejected: its ID, when it has one, and its name
    are both in the tables. *)
Lemma reference_ok id ids b :
  (negb (blank id) && negb (mem_str id ids)) || negb b = false →
  b = true ∧ (blank id = true ∨ mem_str id ids = true).
Proof. destruct (blank id), (mem_str id ids), b; simpl; naive_solver. Qed.

Lemma validate_member_resolves target snap loc g m :
  validate_member target snap loc g m = Ok tt → member_resolves snap m.
Proof.
  unfold validate_member, member_resolves. rewrite seq_ok, fail_if_ok, String.eqb_neq.
  intros [Hname Hkind]. split; [done|].
  destruct (String.eqb_spec (mem_Kind m) MemberKindNode) as [?|_].
  { left. apply fail_if_ok, reference_ok in Hkind as [?%names_node_spec Hid].
    destruct Hid as [?|?%node_id_spec]; auto. }
  destruct (String.eqb_spec (mem_Kind m) MemberKindGroup) as [?|_].
  { right; left. apply fail_if_ok, reference_ok in Hkind as [?%names_group_spec Hid].
    destruct Hid as [?|?%group_id_spec]; auto. }
  destruct (String.eqb_spec (mem_Kind m) MemberKindBuiltin) as [?|_].
  { right; right; left. rewrite fail_if_ok in Hkind. by destruct (isBuiltInPolicyTarget _). }
  destruct (String.eqb_spec (mem_Kind m) "") as [?|_]; [|by apply fail_if_ok in Hkind].
  right; right; right. split; [done|]. rewrite fail_if_ok in Hkind.
  rewrite <- names_node_spec, <- names_group_spec.
  destruct (mem_str _ (nodeNames snap)), (mem_str _ (groupNames snap)),
    (isBuiltInPolicyTarget _); simpl in *; auto.
Qed.

Lemma validate_rule_resolves snap i r :
  validate_rule_entry TargetMihomo mihomoCapability snap (i, r) = Ok tt → rule_resolves snap r.
Proof.
  unfold validate_rule_entry, rule_resolves. rewrite !seq_ok, !fail_if_ok.
  intros (_ & Hk & _ & Hn & Ht). rewrite String.eqb_neq in Hn. split; [done|].
  apply negb_false_iff in Hk. rewrite mem_str_spec in Hk. split; [done|].
  destruct (isBuiltInPolicyTarget _); [by left|]. right. simpl in Ht.
  rewrite seq_ok, !fail_if_ok in Ht. destruct Ht as [[_ Ht%negb_false_iff]%orb_false_iff _].
  by apply names_group_spec.
Qed.

Lemma validate_mihomo snap :
  validate snap TargetMihomo mihomoCapability = Ok tt →
  (∀ g, g ∈ snap_Groups snap →
     rg_GroupType g ∈ cap_GroupTypes mihomoCapability ∧ blank (rg_Name g) = false ∧
     ∀ m, m ∈ rg_Members g → member_resolves snap m) ∧
  (∀ r, r ∈ snap_Rules snap → rule_resolves snap r).
Proof.
  unfold validate. rewrite String.eqb_refl. cbn [negb].
  rewrite !seq_ok, !for_each_ok. intros (_ & Hhead & Hmem & Hrules). split.
  - apply enumerate_forall. intros i g Hin. specialize (Hhead _ Hin). specialize (Hmem _ Hin).
    unfold validate_group_header in Hhead. rewrite !seq_ok, !fail_if_ok in Hhead.
    destruct Hhead as [Ht%negb_false_iff [Hb _]]. rewrite mem_str_spec in Ht.
    split; [done|]. split; [done|]. unfold validate_members in Hmem.
    rewrite for_each_ok in Hmem. intros m Hm. by eapply validate_member_resolves, Hmem.
  - apply enumerate_forall. intros i r Hin. by eapply validate_rule_resolves, Hrules.
Qed.
End Mihomo.

(** Nothing [Compile] renders for Mihomo refers to a name the file does not
    define: when it returns a document, every group has a
    known type and a name, every member of every group names an existing node,
    an existing group or a built-in policy (and its ID, when present, is the ID
    of one), every rule has a supported kind and a target that is an existing
    group or a built-in policy, and every node is supported with a complete
    credential envelope. *)
Theorem mihomo_references_resolve `{GoText} `{Backend} `{Sha256}
    (snap : ResolvedPolicySnapshot) (res : Result) :
  Compile false snap TargetMihomo = Ok res →
  node_checks snap TargetMihomo mihomoCapability ∧
  (∀ g, g ∈ snap_Groups snap →
     rg_GroupType g ∈ cap_GroupTypes mihomoCapability ∧ blank (rg_Name g) = false ∧
     ∀ m, m ∈ rg_Members g → member_resolves snap m) ∧
  (∀ r, r ∈ snap_Rules snap → rule_resolves snap r).
Proof.
  intros (cap & [= <-] & Hv & Hn)%Compile_checked%checks_ok. split; [done|].
  by apply validate_mihomo.
Qed.

Section Report.
Context `{GoText} `{Backend}.

Lemma filter_none {A} (f : A → bool) l :
  List.filter f l = [] ↔ ∀ x, x ∈ l → f x = false.
Proof.
  induction l as [|x l IH]; simpl; [split; [by intros _ x ?%elem_of_nil|done]|].
  setoid_rewrite elem_of_cons. destruct (f x) eqn:Hx.
  - split; [done|]. intros Hall. specialize (Hall x (or_introl eq_refl)). congruence.
  - rewrite IH. split; [intros ? y [->|]|]; auto.
Qed.

Lemma map_none {A B} (f : A → B) l : map f l = [] ↔ l = [].
Proof. by destruct l. Qed.

Lemma flat_map_none {A B} (f : A → list B) l :
  flat_map f l = [] ↔ ∀ x, x ∈ l → f x = [].
Proof.
  induction l as [|x l IH]; simpl; [split; [by intros _ x ?%elem_of_nil|done]|].
  rewrite app_nil, IH. setoid_rewrite elem_of_cons. naive_solver.
Qed.

(** The three places that look at each node, against one predicate. *)
Lemma excluded_none snap target cap :
  capabilityForTarget target = Some cap →
  (FilterCompatibleSnapshot snap target).2 = [] ↔
  ∀ n, n ∈ snap_Nodes snap → compatible target cap n.
Proof.
  intros Hcap. unfold FilterCompatibleSnapshot. rewrite Hcap. simpl.
  setoid_rewrite <- (enumerate_forall (snap_Nodes snap)).
  setoid_rewrite <- (incompatibility_none target cap). rewrite map_none, filter_none.
  setoid_rewrite negb_false_iff. setoid_rewrite String.eqb_eq. split; [naive_solver|].
  intros Hall [i n]. apply Hall.
Qed.

Lemma report_none snap target cap :
  capabilityForTarget target = Some cap → target ≠ TargetMihomo →
  ValidateTargetCapabilities snap target = [] ↔
  ∀ n, n ∈ snap_Nodes snap → compatible target cap n.
Proof.
  intros Hcap Ht. unfold ValidateTargetCapabilities. rewrite Hcap.
  rewrite (proj2 (String.eqb_neq _ _) Ht), app_nil_r, flat_map_none.
  setoid_rewrite <- (enumerate_forall (snap_Nodes snap)).
  setoid_rewrite <- (node_diagnostic_none target cap). split; [naive_solver|].
  intros Hall [i n]. apply Hall.
Qed.

Lemma compiles_iff_compatible snap target cap :
  capabilityForTarget target = Some cap → target ≠ TargetMihomo →
  (∀ n, n ∈ snap_Nodes snap → blank (rn_DisplayName n) = false) →
  compile_checks snap target = Ok tt ↔ ∀ n, n ∈ snap_Nodes snap → compatible target cap n.
Proof.
  intros Hcap Ht Hblank. split.
  - intros (cap' & Hcap' & _ & Hn)%checks_ok n Hin. rewrite Hcap in Hcap'.
    injection Hcap' as <-. by apply Hn.
  - intros Hall. apply (checks_nodes_only _ _ cap); [done..|]. intros n Hn. auto.
Qed.
End Report.

(** The capability report agrees with the compiler: for sing-box, Surge and
    Quantumult X, on a snapshot whose nodes have display names,
    [ValidateTargetCapabilities] is empty exactly when [Compile] reaches the
    renderer, and exactly when [FilterCompatibleSnapshot] excludes nothing. *)
Theorem capability_report_agrees `{GoText} `{Backend}
    (snap : ResolvedPolicySnapshot) (target : string) (cap : Capability) :
  capabilityForTarget target = Some cap → target ≠ TargetMihomo →
  (∀ n, n ∈ snap_Nodes snap → blank (rn_DisplayName n) = false) →
  (ValidateTargetCapabilities snap target = [] ↔ compile_checks snap target = Ok tt) ∧
  (ValidateTargetCapabilities snap target = [] ↔
     (FilterCompatibleSnapshot snap target).2 = []).
Proof.
  intros Hcap Ht Hblank. rewrite (report_none _ _ cap), (compiles_iff_compatible _ _ cap),
    (excluded_none _ _ cap) by done. done.
Qed.

(** ** Instances *)

Definition node_member (id name : string) (pos : nat) : ResolvedGroupMember :=
  {| mem_Kind := MemberKindNode; mem_TargetID := id; mem_DisplayName := name;
     mem_Position := pos |}.

Definition rule_to (expression id name : string) : ResolvedRule :=
  {| rr_ID := "r"; rr_Position := 0; rr_Expression := expression; rr_TargetGroupID := id;
     rr_TargetGroupName := name; rr_IsTerminal := true |}.

(** Two nodes with the same display name, one of them without a password, both
    members of one selector. *)
Definition twins : ResolvedPolicySnapshot :=
  with_nodes [trojan_node "n1" "HK" "secret"; trojan_node "n2" "HK" ""]
    (snapshot_of
      [plain_group "p" "Proxy" "select" [node_member "n1" "HK" 0; node_member "n2" "HK" 1]]
      [rule_to "MATCH" "p" "Proxy"]).

Definition one_node (rules : list ResolvedRule) : ResolvedPolicySnapshot :=
  with_nodes [trojan_node "n1" "HK" "secret"]
    (snapshot_of [plain_group "p" "Proxy" "select" [node_member "n1" "HK" 0]] rules).

Lemma twins_named :
  ∀ n, n ∈ snap_Nodes twins → blank (rn_DisplayName n) = false.
Proof. apply Forall_forall. repeat constructor. Defined.

Lemma filtered_snapshot_compiles_witness :
  capabilityForTarget TargetSurge = Some surgeCapability ∧
  (let? r := Compile (H := ascii_text) (H0 := sample_backend) (H1 := sample_sha) false
     (FilterCompatibleSnapshot (H := ascii_text) (H0 := sample_backend) twins TargetSurge).1
     TargetSurge in Ok (res_Content r)) =
  Ok ("HK = trojan, example.org, 443, password=secret" +:+ bytes [10]%N).
Proof.
  split; [reflexivity|].
  destruct (filtered_snapshot_compiles (H := ascii_text) (H0 := sample_backend) (H1 := sample_sha) twins
    TargetSurge surgeCapability eq_refl) as [Hc _].
  refine (eq_trans (f_equal (λ x, let? r := x in Ok (res_Content r))
    (Hc ltac:(discriminate) twins_named)) _). vm_compute. reflexivity.
Defined.

Definition mihomo_sample : result compile_error Result :=
  Compile (H := ascii_text) (H0 := sample_backend) (H1 := sample_sha) false
    (one_node [rule_to "MATCH" "p" "Proxy"]) TargetMihomo.

Lemma mihomo_references_resolve_witness :
  mihomo_sample = Ok {| res_Content := "mihomo1"; res_ContentType := "application/yaml";
    res_Filename := "mihomo.yaml"; res_Target := TargetMihomo;
    res_SnapshotDigest := snap_SnapshotDigest (one_node []);
    res_ContentDigest := content_digest (H1 := sample_sha) "mihomo1" |} ∧
  rule_resolves (H := ascii_text) (one_node [rule_to "MATCH" "p" "Proxy"])
    (rule_to "MATCH" "p" "Proxy").
Proof.
  split; [vm_compute; reflexivity|].
  refine (proj2 (proj2 (mihomo_references_resolve (H := ascii_text) (H0 := sample_backend)
    (H1 := sample_sha) (one_node [rule_to "MATCH" "p" "Proxy"]) _ _)) _ _).
  - vm_compute. reflexivity.
  - left.
Defined.

Lemma capability_report_agrees_witness :
  map cd_NodeID (ValidateTargetCapabilities (H := ascii_text) (H0 := sample_backend) twins
    TargetSurge) = ["n2"] ∧
  (FilterCompatibleSnapshot (H := ascii_text) (H0 := sample_backend) twins TargetSurge).2 ≠ [].
Proof.
  split; [vm_compute; reflexivity|]. intros Hnil.
  apply (capability_report_agrees (H := ascii_text) (H0 := sample_backend) twins TargetSurge
    surgeCapability eq_refl) in Hnil; [vm_compute in Hnil; discriminate|discriminate|
    apply twins_named].
Defined.

(** Filtering by display name leaves a dangling member: in [twins] the node
    without a password is excluded, but its group member stays because an
    admitted node has the same display name; compiling the filtered snapshot for
    Mihomo then stops with an unknown node reference, although dropping that
    member as well gives a snapshot that compiles. *)
Theorem filter_keeps_member_of_excluded_node `{Backend} `{Sha256} :
  let filtered := FilterCompatibleSnapshot (H := ascii_text) twins TargetMihomo in
  map exn_NodeID filtered.2 = ["n2"] ∧
  map (λ g, map mem_TargetID (rg_Members g)) (snap_Groups filtered.1) = [["n1"; "n2"]] ∧
  Compile (H := ascii_text) false filtered.1 TargetMihomo =
    Err (capability_error {| ce_Target := TargetMihomo; ce_Location := "groups[0]";
           ce_Feature := "HK"; ce_Reason := "group member references unknown node" |}) ∧
  Compile (H := ascii_text) false (one_node [rule_to "MATCH" "p" "Proxy"]) TargetMihomo =
    (let snap := one_node [rule_to "MATCH" "p" "Proxy"] in
     compiled snap TargetMihomo (render (H := ascii_text) snap TargetMihomo)).
Proof. split; [|split; [|split]]; vm_compute; reflexivity. Qed.

(** The capability report of Mihomo rejects rule targets the compiler takes:
    a rule to the built-in policy [COMPATIBLE], or to [direct] in lower case, is
    reported as [dangling_rule_target], while [Compile] accepts it and goes on
    to render. *)
Theorem report_rejects_builtin_target `{Backend} `{Sha256} (name : string) :
  name ∈ ["COMPATIBLE"; "direct"] →
  map cd_Code (ValidateTargetCapabilities (H := ascii_text)
    (one_node [rule_to "MATCH" "" name]) TargetMihomo) = ["dangling_rule_target"] ∧
  Compile (H := ascii_text) false (one_node [rule_to "MATCH" "" name]) TargetMihomo =
    (let snap := one_node [rule_to "MATCH" "" name] in
     compiled snap TargetMihomo (render (H := ascii_text) snap TargetMihomo)).
Proof.
  intros Hn. rewrite !elem_of_cons, elem_of_nil in Hn. destruct Hn as [->|[->|[]]];
    split; vm_compute; reflexivity.
Qed.

(** The filter asks the credential envelope and not the renderer: a Shadowsocks
    node with a cipher Surge does not know is kept, and one such node makes the
    compilation of the filtered snapshot fail, although the other node renders. *)
Definition shadowsocks_node (id name method : string) : ResolvedNode :=
  let n := trojan_node id name "secret" in
  {| rn_LogicalID := id; rn_DisplayName := name; rn_Protocol := ProtocolSS;
     rn_Server := rn_Server n; rn_Port := rn_Port n;
     rn_Credentials :=
       {| cred_Password := "secret"; cred_UUID := ""; cred_Method := method; cred_AlterID := 0;
          cred_PrivateKey := ""; cred_PublicKey := ""; cred_PresharedKey := "";
          cred_PreSharedKey := ""; cred_LocalAddress := []; cred_Reserved := [];
          cred_MTU := 0; cred_DNS := []; cred_CongestionControl := ""; cred_UDPRelayMode := "";
          cred_ALPN := []; cred_SNI := ""; cred_DisableSNI := false; cred_Username := "";
          cred_Transport := None |};
     rn_Active := true; rn_ConnectionRevision := 1; rn_Position := 0 |}%Z.
Definition mixed_ciphers : ResolvedPolicySnapshot :=
  with_nodes [trojan_node "n1" "HK" "secret"; shadowsocks_node "n2" "JP" "rc4"]
    (snapshot_of [] []).

Theorem filter_keeps_unrenderable_node `{Backend} `{Sha256} :
  let filtered := FilterCompatibleSnapshot (H := ascii_text) mixed_ciphers TargetSurge in
  filtered.2 = [] ∧
  ValidateTargetCapabilities (H := ascii_text) mixed_ciphers TargetSurge = [] ∧
  Compile (H := ascii_text) false filtered.1 TargetSurge =
    Err (capability_error {| ce_Target := TargetSurge; ce_Location := "nodes[1]";
           ce_Feature := ProtocolSS;
           ce_Reason := "unsupported shadowsocks encrypt-method for surge" |}).
Proof. split; [|split]; vm_compute; reflexivity. Qed.
