(* ===== verification/MihomoProperties.v ===== *)
(** * The Mihomo document

    What a document of [internal/compiler/mihomo.go] says about the snapshot it was rendered
    from: the proxies are the nodes, the groups are the groups, every name that a group or a
    rule writes is defined by the document, and every rule is a line of its own with its
    provider, if it needs one, fetched over HTTPS. *)

From S2P Require Import Prelude.
From S2P Require Import GoStrings.
From S2P Require Import Domain.
From S2P Require Import NodeFilter.
From S2P Require Import Policy.
From S2P Require Import Groups.
From S2P Require Import ResolveGroups.
From S2P Require Import Resolver.
From S2P Require Import Prune.
From S2P Require Import MihomoDocument.
From S2P Require Import Capabilities.
From S2P Require Import Mihomo.
From S2P Require Import Compiler.

Section Document.
Context `{GoText} `{Backend}.

(** ** What a document promises *)

(** A proxy has the name, type, server and port of its node. *)
Definition proxy_of (n : ResolvedNode) (p : mihomoProxy) : Prop :=
  proxy_head p = (rn_DisplayName n, rn_Protocol n, rn_Server n, rn_Port n).

(** The names that a group of the document may list. *)
Definition defined_in (cfg : mihomoConfig) (name : string) : Prop :=
  name ∈ map proxy_name (mc_Proxies cfg) ∨ name ∈ map mg_Name (mc_ProxyGroups cfg) ∨
  isBuiltInPolicyTarget name = true.

(** A URL that [validateRuleSetURL] returns. *)
Definition https_resource (url : string) : Prop :=
  ∃ raw u, ParseURL raw = Some u ∧ url = FormatURL (with_https u) ∧ EqualFold (ul_Scheme u) "https" = true ∧
    ul_User u = false ∧ bad_host u = false ∧ bad_port u = false ∧ bad_path (TrimSpace (ul_Path u)) = false.

Definition rule_provider (url : string) : mihomoRuleProvider :=
  {| mp_Type := "http"; mp_Behavior := "classical"; mp_URL := url; mp_Interval := 86400 |}.

Definition written_kind (kind : string) : string := if String.eqb kind "PORT" then "DST-PORT" else kind.

(** The parts of a rule behind its value: nothing, or the one option [no-resolve]. *)
Definition rule_options (extra : list string) (noResolve : bool) : Prop :=
  (extra = [] ∧ noResolve = false) ∨
  ∃ opt, extra = [opt] ∧ ToLower (TrimSpace opt) = "no-resolve" ∧ noResolve = true.

(** The rule set that the parts of a rule name: by its URL, which gives its name; by a name
    and a URL; or by a name alone. *)
Inductive rule_set_named (arg : string) (rest : list string) (name url : string) (noResolve : bool) : Prop :=
  | named_by_url loc :
      validateRuleSetURL loc (TrimSpace arg) = Ok url → name = sanitizeRuleSetProviderName url →
      rule_options rest noResolve → rule_set_named arg rest name url noResolve
  | named_with_url loc second opts :
      name = TrimSpace arg → rest = second :: opts →
      validateRuleSetURL loc (TrimSpace second) = Ok url →
      rule_options opts noResolve → rule_set_named arg rest name url noResolve
  | named_before :
      name = TrimSpace arg → rule_options rest noResolve → rule_set_named arg rest name url noResolve.

(** The line of a rule: its kind, its value and its target, or, for a rule set and only for
    one, the name of a provider of the document. *)
Inductive rule_written (providers : gmap string mihomoRuleProvider) (r : ResolvedRule) (line : string) : Prop :=
  | written_match :
      IsMatchRule (TrimSpace (rr_Expression r)) = true →
      line = "MATCH," +:+ TrimSpace (rr_TargetGroupName r) → rule_written providers r line
  | written_value head arg extra noResolve :
      ruleKind (TrimSpace (rr_Expression r)) ≠ "RULE-SET" →
      IsMatchRule (TrimSpace (rr_Expression r)) = false →
      Split (byte_of 44) (TrimSpace (rr_Expression r)) = head :: arg :: extra →
      TrimSpace arg ≠ "" → rule_options extra noResolve →
      line = rule_line (written_kind (ruleKind (TrimSpace (rr_Expression r)))) (TrimSpace arg)
               (TrimSpace (rr_TargetGroupName r)) noResolve → rule_written providers r line
  | written_set head arg extra name url noResolve :
      ruleKind (TrimSpace (rr_Expression r)) = "RULE-SET" →
      Split (byte_of 44) (TrimSpace (rr_Expression r)) = head :: arg :: extra →
      rule_set_named arg extra name url noResolve →
      providers !! name = Some (rule_provider url) →
      line = rule_line "RULE-SET" name (TrimSpace (rr_TargetGroupName r)) noResolve →
      rule_written providers r line.

(** A group has the name and the type of its group, spelt the way Mihomo spells it, and lists
    the names of its members, or [PASS] when the group is empty and falls back to it. *)
Definition written_types : list (string * string) :=
  [(GroupTypeSelect, "select"); (GroupTypeURLTest, "url-test"); (GroupTypeFallback, "fallback");
   (GroupTypeLoadBalance, "load-balance")].

Definition group_of (group : ResolvedGroup) (g : mihomoGroup) : Prop :=
  mg_Name g = rg_Name group ∧ (rg_GroupType group, mg_Type g) ∈ written_types ∧
  mg_Proxies g = (if UsesEmptyPass group then ["PASS"] else map mem_DisplayName (rg_Members group)) ∧
  mg_Proxies g ≠ [].

Definition target_defined (cfg : mihomoConfig) (r : ResolvedRule) : Prop :=
  let target := TrimSpace (rr_TargetGroupName r) in
  target ∈ map mg_Name (mc_ProxyGroups cfg) ∨ isBuiltInPolicyTarget target = true.

(** ** Proxies *)

Lemma mihomo_proxy_of i n :
  rn_Protocol n ∈ cap_Protocols mihomoCapability →
  ∀ o, mihomo_proxy i n = Ok o → ∃ p, o = Some p ∧ proxy_of n p.
Proof.
  unfold mihomo_proxy, proxy_of. intros Hp o Ho.
  repeat match type of Ho with
  | (if String.eqb ?a ?b then _ else _) = _ =>
      destruct (String.eqb_spec a b) as [E|?];
      [split_ok Ho; injection Ho as <-; eexists; split; [reflexivity|by rewrite E]|]
  end.
  exfalso. simpl in Hp. set_solver.
Qed.

Lemma mihomo_proxies_of nodes : ∀ i ps,
  (∀ n, n ∈ nodes → rn_Protocol n ∈ cap_Protocols mihomoCapability) →
  mihomo_proxies i nodes = Ok ps → Forall2 proxy_of nodes ps.
Proof.
  induction nodes as [|n nodes IH]; intros i ps Hp Hr.
  { injection Hr as <-. constructor. }
  cbn [mihomo_proxies] in Hr. split_ok Hr. injection Hr as <-.
  destruct (mihomo_proxy_of i n (Hp n ltac:(left)) _ ltac:(eassumption)) as (p & -> & Hpn).
  constructor; [done|]. eapply IH; [|eassumption]. intros m Hm. apply Hp. by right.
Qed.

Lemma proxy_names nodes ps name :
  Forall2 proxy_of nodes ps → (∃ n, n ∈ nodes ∧ rn_DisplayName n = name) → name ∈ map proxy_name ps.
Proof.
  induction 1 as [|n p nodes ps Hh _ IH]; intros (m & Hm & <-); [by apply not_elem_of_nil in Hm|].
  apply elem_of_cons in Hm as [->|Hm]; simpl.
  - apply elem_of_cons. left. unfold proxy_name. by rewrite Hh.
  - apply elem_of_cons. right. eauto.
Qed.

(** ** Groups *)

Lemma buildMihomoGroup_fields loc group members g :
  buildMihomoGroup loc group members = Ok g →
  mg_Name g = rg_Name group ∧ (rg_GroupType group, mg_Type g) ∈ written_types ∧ mg_Proxies g = members.
Proof.
  unfold buildMihomoGroup. cbv zeta.
  repeat match goal with |- (if String.eqb ?a ?b then _ else _) = _ → _ =>
    destruct (String.eqb_spec a b) as [->|_]; [intros [= <-]; simpl; split; [done|]; split; [set_solver|done]|] end; done.
Qed.

Lemma mihomo_group_of names i group g : mihomo_group names (i, group) = Ok g → group_of group g.
Proof.
  unfold mihomo_group, mihomo_check, group_of. intros Hg. split_ok Hg. injection Hg as <-.
  match goal with E : buildMihomoGroup _ _ _ = Ok ?x |- _ =>
    apply buildMihomoGroup_fields in E as (Hn & Ht & Hm) end.
  match goal with E : fail_if _ _ _ _ _ = Ok tt |- _ => apply fail_if_ok in E end.
  destruct (UsesEmptyPass group), (rg_EmptyFallbackPass group); simpl in *; rewrite ?Hm;
    do 3 (split; [done|]); try done;
    match goal with E : context [length (rg_Members group) =? 0] |- _ => by intros Hnil%map_none; rewrite Hnil in E end.
Qed.

Lemma mihomo_groups_members names l : ∀ gs,
  mihomo_groups names l = Ok gs → Forall2 (λ e g, mihomo_group names e = Ok g) l gs.
Proof.
  induction l as [|e l IH]; intros gs Hr; [injection Hr as <-; constructor|].
  cbn [mihomo_groups] in Hr. split_ok Hr. injection Hr as <-. constructor; auto.
Qed.

(** ** Rules *)

(** Every provider of a document is one that its URL determines. *)
Definition providers_safe (ps : gmap string mihomoRuleProvider) : Prop :=
  ∀ name p, ps !! name = Some p → ∃ url, p = rule_provider url ∧ https_resource url.

Lemma validateRuleSetURL_safe loc raw url :
  validateRuleSetURL loc raw = Ok url → https_resource url.
Proof.
  unfold validateRuleSetURL. cbv zeta. destruct (_ || _); [done|].
  destruct (ParseURL (TrimSpace raw)) as [u|] eqn:Hu; [|done].
  destruct (negb (EqualFold (ul_Scheme u) "https") || _ || _) eqn:Hs; [done|].
  apply orb_false_iff in Hs as [[Hs%negb_false_iff _]%orb_false_iff Huser].
  destruct (bad_host u) eqn:Hh; [done|]. destruct (bad_port u) eqn:Hp; [done|].
  destruct (bad_path _) eqn:Hb; [done|]. destruct (existsb _ _); [done|].
  intros [= <-]. by exists (TrimSpace raw), u.
Qed.

Lemma parseOptionalNoResolve_options loc kind extra nr :
  parseOptionalNoResolve loc kind extra = Ok nr → rule_options extra nr.
Proof.
  unfold parseOptionalNoResolve. destruct extra as [|opt [|]]; [intros [= <-]; by left| |done].
  intros Hr. split_ok Hr. injection Hr as <-. right. exists opt.
  match goal with E : mihomo_check _ _ _ _ = Ok tt |- _ =>
    apply fail_if_ok, negb_false_iff, String.eqb_eq in E end. done.
Qed.

Lemma no_parameters_options loc kind extra u : no_parameters loc kind extra = Ok u → rule_options extra false.
Proof. destruct extra; [by left|done]. Qed.

Lemma parseMihomoRuleSetExpr_named loc arg rest ps name url nr :
  parseMihomoRuleSetExpr loc (arg :: rest) ps = Ok (name, url, nr) → rule_set_named arg rest name url nr.
Proof.
  unfold parseMihomoRuleSetExpr. cbv zeta.
  destruct (String.eqb (TrimSpace arg) ""); [done|].
  destruct (isRuleSetURLCandidate _).
  { intros Hr. split_ok Hr. injection Hr as <- <- <-.
    eapply named_by_url; [done..|]. by eapply parseOptionalNoResolve_options. }
  destruct (negb _); [done|]. destruct rest as [|second opts].
  { intros Hr. split_ok Hr. case_match; [|done]. case_match; [done|]. injection Hr as <- <- <-.
    apply named_before; [done|]. by eapply parseOptionalNoResolve_options. }
  destruct (isRuleSetSecondArgURLOrPath _); intros Hr; split_ok Hr.
  - injection Hr as <- <- <-. eapply named_with_url; [done..|].
    by eapply parseOptionalNoResolve_options.
  - case_match; [|done]. case_match; [done|]. injection Hr as <- <- <-.
    apply named_before; [done|]. by eapply parseOptionalNoResolve_options.
Qed.

Lemma parseMihomoRuleSetExpr_safe loc args ps name url nr :
  providers_safe ps → parseMihomoRuleSetExpr loc args ps = Ok (name, url, nr) → https_resource url.
Proof.
  intros Hps. unfold parseMihomoRuleSetExpr. destruct args as [|arg rest]; [done|]. cbv zeta.
  destruct (String.eqb (TrimSpace arg) ""); [done|].
  destruct (isRuleSetURLCandidate _).
  { intros Hr. split_ok Hr. injection Hr as <- <- <-. by eapply validateRuleSetURL_safe. }
  destruct (negb _); [done|]. destruct (match rest with [] => _ | _ => _ end).
  { intros Hr. split_ok Hr. injection Hr as <- <- <-. by eapply validateRuleSetURL_safe. }
  intros Hr. split_ok Hr. destruct (ps !! TrimSpace arg) as [p|] eqn:Hp; [|done].
  destruct (String.eqb (mp_URL p) ""); [done|]. injection Hr as <- <- <-.
  by apply Hps in Hp as (url & -> & ?).
Qed.

(** A line keeps its reading when providers are added. *)
Lemma rule_written_mono ps ps' r line :
  ps ⊆ ps' → rule_written ps r line → rule_written ps' r line.
Proof.
  intros Hsub [?|?|? ? ? ? ? ? ? ? ? Hl ?]; [by apply written_match|by eapply written_value|].
  eapply written_set; [done..|by eapply lookup_weaken|done].
Qed.

Lemma add_provider ps name url :
  providers_safe ps → https_resource url →
  match ps !! name with Some p => negb (String.eqb (mp_URL p) url) | None => false end = false →
  ps ⊆ <[name := rule_provider url]> ps ∧ providers_safe (<[name := rule_provider url]> ps).
Proof.
  intros Hps Hurl Hsame. split.
  - destruct (ps !! name) as [p|] eqn:Hp; [|by apply insert_subseteq].
    destruct (Hps _ _ Hp) as (u & -> & _).
    apply negb_false_iff, String.eqb_eq in Hsame. simpl in Hsame. subst u.
    by rewrite insert_id.
  - intros n p. destruct (decide (n = name)) as [->|Hne].
    + rewrite lookup_insert_eq. intros [= <-]. eauto.
    + rewrite lookup_insert_ne by done. apply Hps.
Qed.

Definition rule_step (ps ps' : gmap string mihomoRuleProvider) (r : ResolvedRule) (line : string) : Prop :=
  ps ⊆ ps' ∧ providers_safe ps' ∧ rule_written ps' r line.

Lemma mihomo_rule_step loc kind arg extra head r ps line ps' :
  providers_safe ps → kind = ruleKind (TrimSpace (rr_Expression r)) →
  IsMatchRule (TrimSpace (rr_Expression r)) = false →
  Split (byte_of 44) (TrimSpace (rr_Expression r)) = head :: arg :: extra → TrimSpace arg ≠ "" →
  mihomo_rule loc kind arg (TrimSpace arg) extra (TrimSpace (rr_TargetGroupName r)) ps = Ok (line, ps') →
  rule_step ps ps' r line.
Proof.
  intros Hps Hk Hmatch Hparts Harg. unfold mihomo_rule.
  assert (Hval : ∀ k nr, k = written_kind kind → kind ≠ "RULE-SET" → rule_options extra nr →
    rule_step ps ps r (rule_line k (TrimSpace arg) (TrimSpace (rr_TargetGroupName r)) nr)).
  { intros k nr -> Hset Hopt. split; [done|]. split; [done|]. subst kind. by eapply written_value. }
  assert (Hkinds : ∀ l, mem_str kind l = true → mem_str "PORT" l = false → mem_str "RULE-SET" l = false →
    kind = written_kind kind ∧ kind ≠ "RULE-SET").
  { intros l Hl Hp Hs. unfold written_kind.
    destruct (String.eqb_spec kind "PORT"); split; congruence. }
  destruct (mem_str kind _) eqn:Hk1.
  { intros Hr. split_ok Hr. injection Hr as <- <-. destruct (Hkinds _ Hk1) as [? ?]; [done..|].
    apply Hval; [done..|]. by eapply no_parameters_options. }
  destruct (String.eqb_spec kind "GEOIP") as [->|_].
  { intros Hr. split_ok Hr. injection Hr as <- <-. apply Hval; [done..|].
    by eapply parseOptionalNoResolve_options. }
  destruct (mem_str kind ["IP-CIDR"; _; _]) eqn:Hk2.
  { intros Hr. split_ok Hr. injection Hr as <- <-. destruct (Hkinds _ Hk2) as [? ?]; [done..|].
    apply Hval; [done..|]. by eapply parseOptionalNoResolve_options. }
  destruct (mem_str kind ["SRC-PORT"; _; _]) eqn:Hk3.
  { intros Hr. split_ok Hr. injection Hr as <- <-. apply Hval; [done| |by eapply no_parameters_options].
    by intros ->. }
  destruct (String.eqb_spec kind "RULE-SET") as [Hset|_]; [|done].
  intros Hr. split_ok Hr. destruct x as [[name url] nr]. split_ok Hr. injection Hr as <- <-.
  match goal with E : mihomo_check _ _ _ _ = Ok tt |- _ => apply fail_if_ok in E; rename E into Hsame end.
  match goal with E : parseMihomoRuleSetExpr _ _ _ = _ |- _ =>
    pose proof (parseMihomoRuleSetExpr_named _ _ _ _ _ _ _ E) as Hnamed;
    apply (parseMihomoRuleSetExpr_safe _ _ _ _ _ _ Hps) in E; rename E into Hurl end.
  destruct (add_provider ps name url Hps Hurl Hsame) as [? ?].
  split; [done|]. split; [done|]. eapply written_set; [by rewrite <- Hk|done|done| |done].
  apply lookup_insert_eq.
Qed.

Lemma render_rule_step i r ps line ps' :
  providers_safe ps → render_rule i r ps = Ok (line, ps') → rule_step ps ps' r line.
Proof.
  intros Hps. unfold render_rule. cbv zeta. destruct (IsMatchRule _) eqn:Hmatch.
  { intros Hr. split_ok Hr. injection Hr as <- <-. split; [done|]. split; [done|]. by apply written_match. }
  destruct (Split _ _) as [|head [|arg extra]] eqn:Hparts; [done|done|].
  intros Hr. split_ok Hr.
  match goal with E : mihomo_check (String.eqb _ _) _ _ _ = Ok tt |- _ =>
    apply fail_if_ok, String.eqb_neq in E end.
  by eapply mihomo_rule_step.
Qed.

Lemma renderMihomoRules_written rules : ∀ i ps lines ps',
  providers_safe ps → renderMihomoRules i rules ps = Ok (lines, ps') →
  ps ⊆ ps' ∧ providers_safe ps' ∧ Forall2 (rule_written ps') rules lines.
Proof.
  induction rules as [|r rules IH]; intros i ps lines ps' Hps Hr.
  { injection Hr as <- <-. by repeat split. }
  cbn [renderMihomoRules] in Hr. split_ok Hr. destruct x as [line mid], x0 as [rest last].
  injection Hr as <- <-.
  match goal with E : render_rule _ _ _ = _ |- _ =>
    destruct (render_rule_step _ _ _ _ _ Hps E) as (Hsub & Hmid & Hw) end.
  match goal with E : renderMihomoRules _ _ _ = _ |- _ =>
    destruct (IH _ _ _ _ Hmid E) as (Hsub' & Hlast & Hrest) end.
  simpl. split; [by etrans|]. split; [done|]. constructor; [|done]. by eapply rule_written_mono.
Qed.

(** ** The document *)

(** The names of the members of a snapshot have no blanks around them. *)
Definition members_trimmed (snap : ResolvedPolicySnapshot) : Prop :=
  ∀ g m, g ∈ snap_Groups snap → m ∈ rg_Members g → TrimSpace (mem_DisplayName m) = mem_DisplayName m.

Lemma groups_match names groups gs :
  mihomo_groups names (enumerate groups) = Ok gs → Forall2 group_of groups gs.
Proof.
  intros Hg%mihomo_groups_members. apply Forall2_same_length_lookup in Hg as [Hlen Hg].
  unfold enumerate in *. rewrite length_imap in Hlen.
  apply Forall2_same_length_lookup. split; [done|]. intros i group g Hi Hj.
  apply (mihomo_group_of names i). eapply Hg; [|done]. by rewrite list_lookup_imap, Hi.
Qed.

Lemma groups_named groups gs :
  Forall2 group_of groups gs → map mg_Name gs = map rg_Name groups.
Proof.
  induction 1 as [|group g groups gs [Hn _] _ IH]; [done|].
  simpl. by rewrite Hn, IH.
Qed.

Lemma member_defined snap cfg m :
  Forall2 proxy_of (snap_Nodes snap) (mc_Proxies cfg) →
  map mg_Name (mc_ProxyGroups cfg) = map rg_Name (snap_Groups snap) →
  TrimSpace (mem_DisplayName m) = mem_DisplayName m →
  member_resolves snap m → defined_in cfg (mem_DisplayName m).
Proof.
  intros Hp Hg Htrim [_ Hm]. rewrite Htrim in Hm. unfold defined_in. rewrite Hg.
  assert (Hnode : names_node snap (mem_DisplayName m) → mem_DisplayName m ∈ map proxy_name (mc_Proxies cfg))
    by apply (proxy_names _ _ _ Hp).
  assert (Hgroup : names_group snap (mem_DisplayName m) → mem_DisplayName m ∈ map rg_Name (snap_Groups snap)).
  { intros (g & Hin & <-). by apply list_elem_of_fmap_2. }
  destruct Hm as [(_ & ? & _)|[(_ & ? & _)|[(_ & ?)|(_ & [?|[?|?]])]]]; auto.
Qed.

Lemma pass_built_in : isBuiltInPolicyTarget "PASS" = true.
Proof. unfold isBuiltInPolicyTarget. by rewrite ToUpper_ascii. Qed.

Lemma group_defined snap cfg :
  Forall2 group_of (snap_Groups snap) (mc_ProxyGroups cfg) →
  (∀ g m, g ∈ snap_Groups snap → m ∈ rg_Members g → defined_in cfg (mem_DisplayName m)) →
  ∀ g name, g ∈ mc_ProxyGroups cfg → name ∈ mg_Proxies g → defined_in cfg name.
Proof.
  intros Hg Hall g name (i & Hi)%list_elem_of_lookup.
  destruct (Forall2_lookup_r _ _ _ _ _ Hg Hi) as (group & Hgr & _ & _ & -> & _).
  apply list_elem_of_lookup_2 in Hgr. destruct (UsesEmptyPass group).
  - intros ->%list_elem_of_singleton. right; right. apply pass_built_in.
  - intros (m & -> & Hin)%list_elem_of_fmap. by eapply Hall.
Qed.

Lemma mihomo_config_parts snap cfg :
  mihomo_config snap = Ok cfg →
  mihomo_proxies 0 (snap_Nodes snap) = Ok (mc_Proxies cfg) ∧
  mihomo_groups (Mihomo.groupNameSet snap) (enumerate (snap_Groups snap)) = Ok (mc_ProxyGroups cfg) ∧
  renderMihomoRules 0 (snap_Rules snap) ∅ = Ok (mc_Rules cfg, mc_RuleProviders cfg).
Proof.
  unfold mihomo_config. intros Hc. split_ok Hc. destruct x1 as [lines ps]. by injection Hc as <-.
Qed.

Lemma Compile_mihomo `{Sha256} snap res :
  Compile false snap TargetMihomo = Ok res →
  ∃ cfg, mihomo_config snap = Ok cfg ∧ yaml_Marshal cfg = Ok (res_Content res).
Proof.
  unfold Compile, compiled, render. intros Hc. split_ok Hc. rewrite String.eqb_refl in *.
  unfold renderMihomo in *. destruct (mihomo_config snap) as [cfg|]; [|done].
  exists cfg. split; [done|]. destruct (yaml_Marshal cfg); [|done]. simplify_eq/=. done.
Qed.
End Document.

(** C36. A Mihomo file says what the snapshot says and is closed.  When [Compile] returns one
    and the members' names have no blanks around them, it is the YAML of a document with one
    proxy per node, in order, of the node's name, protocol, server and port; one group per
    group, in order, of the group's name and type, that lists the names of the group's members
    (or [PASS] for an empty group that falls back to it), at least one, each of them a proxy
    or a group of the document or a built-in policy; and one line per rule, in order, that is
    the rule's kind and value followed by its target, which is a group of the document or a
    built-in policy, and by [no-resolve] exactly when the rule asks for it.  The line of a
    rule of kind RULE-SET, and of no other, carries instead of a value the name of a provider
    of the document, the one the rule names, with the URL it gives; and every
    provider is fetched from an HTTPS URL without credentials, with a host and a path. *)
Theorem mihomo_document_sound `{GoText} `{Backend} `{Sha256} (snap : ResolvedPolicySnapshot) (res : Result) :
  Compile false snap TargetMihomo = Ok res → members_trimmed snap →
  ∃ cfg, yaml_Marshal cfg = Ok (res_Content res) ∧
    Forall2 proxy_of (snap_Nodes snap) (mc_Proxies cfg) ∧
    Forall2 group_of (snap_Groups snap) (mc_ProxyGroups cfg) ∧
    (∀ g name, g ∈ mc_ProxyGroups cfg → name ∈ mg_Proxies g → defined_in cfg name) ∧
    Forall2 (rule_written (mc_RuleProviders cfg)) (snap_Rules snap) (mc_Rules cfg) ∧
    (∀ r, r ∈ snap_Rules snap → target_defined cfg r) ∧
    providers_safe (mc_RuleProviders cfg).
Proof.
  intros Hc Htrim. destruct (Compile_mihomo snap res Hc) as (cfg & Hcfg & Hy).
  apply Compile_checked, checks_ok in Hc as (cap & [= <-] & Hv & Hn).
  apply validate_mihomo in Hv as [Hgroups Hrules].
  apply mihomo_config_parts in Hcfg as (Hp & Hg%groups_match & Hr).
  assert (Hproxies : Forall2 proxy_of (snap_Nodes snap) (mc_Proxies cfg)).
  { eapply mihomo_proxies_of, Hp. intros n Hin. by destruct (Hn n Hin) as [[? _] _]. }
  pose proof (groups_named _ _ Hg) as Hnames.
  apply renderMihomoRules_written in Hr as (_ & Hsafe & Hlines); [|by intros ? ? ?%lookup_empty_Some].
  exists cfg. split; [done|]. split; [done|]. split; [done|]. split; [|split; [done|split; [|done]]].
  - apply (group_defined snap cfg Hg). intros g m Hin Hm.
    eapply member_defined; eauto. by eapply Hgroups.
  - intros r Hin. destruct (Hrules r Hin) as (_ & _ & [?|(g & Hg' & Hname)]); [by right|].
    left. rewrite Hnames, <- Hname. by apply list_elem_of_fmap_2.
Qed.

(** ** Instances *)

(** One node, one selector of it, a rule set and a catch-all. *)
Definition with_rule_set : ResolvedPolicySnapshot :=
  one_node [rule_to "RULE-SET,https://example.org/rules/ads.yaml" "p" "Proxy"; rule_to "MATCH" "p" "Proxy"].

Lemma with_rule_set_trimmed : members_trimmed with_rule_set.
Proof.
  intros g m Hg Hm. apply list_elem_of_singleton in Hg as ->.
  by apply list_elem_of_singleton in Hm as ->.
Qed.

Lemma mihomo_document_sound_witness :
  ∃ cfg, yaml_Marshal (Backend := sample_backend) cfg = Ok "mihomo1" ∧
    Forall2 proxy_of (snap_Nodes with_rule_set) (mc_Proxies cfg) ∧
    Forall2 group_of (snap_Groups with_rule_set) (mc_ProxyGroups cfg).
Proof.
  destruct (mihomo_document_sound (H := ascii_text) (H0 := sample_backend) (H1 := sample_sha) with_rule_set
    {| res_Content := "mihomo1"; res_ContentType := "application/yaml"; res_Filename := "mihomo.yaml";
       res_Target := TargetMihomo; res_SnapshotDigest := snap_SnapshotDigest with_rule_set;
       res_ContentDigest := content_digest (H1 := sample_sha) "mihomo1" |}) as (cfg & Hy & Hp & Hg & _).
  - vm_compute. reflexivity.
  - exact with_rule_set_trimmed.
  - exists cfg. split; [exact Hy|]. split; [exact Hp|exact Hg].
Defined.

Definition sample_document (snap : ResolvedPolicySnapshot) : result CapabilityError mihomoConfig :=
  mihomo_config (H := ascii_text) (H0 := sample_backend) snap.

(** The rules and the provider of that document. *)
Lemma with_rule_set_lines :
  (let? cfg := sample_document with_rule_set in Ok (mc_Rules cfg, mp_URL <$> mc_RuleProviders cfg !! "ads")) =
  Ok (["RULE-SET,ads,Proxy"; "MATCH,Proxy"], Some "https://example.org/rules/ads.yaml").
Proof. vm_compute. reflexivity. Qed.

(** The name of a target is written as it is: a group whose name has a comma gives the line of
    another rule, here of one that sends the same traffic to the built-in [DIRECT]. *)
Lemma comma_in_group_name :
  (let? cfg := sample_document (with_nodes [trojan_node "n1" "HK" "secret"]
     (snapshot_of [plain_group "p" "DIRECT,no-resolve" "select" [node_member "n1" "HK" 0]]
        [rule_to "GEOIP,CN" "p" "DIRECT,no-resolve"])) in Ok (mc_Rules cfg)) =
  Ok ["GEOIP,CN,DIRECT,no-resolve"] ∧
  (let? cfg := sample_document (one_node [rule_to "GEOIP,CN,no-resolve" "" "DIRECT"]) in Ok (mc_Rules cfg)) =
  Ok ["GEOIP,CN,DIRECT,no-resolve"].
Proof. split; vm_compute; reflexivity. Qed.
