(* ===== verification/SingBoxProperties.v ===== *)
(** * The sing-box options

    What the options of [internal/probe/singbox] say about the node they were built from: a
    published file has one outbound or endpoint per node, with the node's own address and
    credentials, and a probe leaves by the node under test and by nothing else. *)

From S2P Require Import Prelude.
From S2P Require Import GoStrings.
From S2P Require Import Domain.
From S2P Require Import NodeFilter.
From S2P Require Import Policy.
From S2P Require Import Groups.
From S2P Require Import ResolveGroups.
From S2P Require Import Resolver.
From S2P Require Import Prune.
From S2P Require Import SingBoxDocument.
From S2P Require Import Capabilities.
From S2P Require Import Base64.
From S2P Require Import SingBox.
From S2P Require Import Compiler.

Section Options.
Context `{GoText} `{Backend}.

(** ** The configuration of a node *)

Lemma or_else_same s : or_else s s = s.
Proof. unfold or_else. by destruct (String.eqb_spec s ""). Qed.

Lemma or_else_empty s : or_else s "" = s.
Proof. unfold or_else. by destruct (String.eqb_spec s ""). Qed.

Definition reality_key (m : option (gmap string string)) : string :=
  first_trimmed m ["pbk"; "reality_public_key"].
Definition reality_short_id (m : option (gmap string string)) : string :=
  first_trimmed m ["sid"; "reality_short_id"].

(** What a configuration keeps of its node: the address and every credential. *)
Record config_of (n : Node) (cfg : NodeConfig) : Prop := {
  cf_server : nc_Server cfg = node_Server n;
  cf_port : nc_Port cfg = node_Port n;
  cf_protocol : nc_Protocol cfg = node_Protocol n;
  cf_insecure : nc_SkipCertVerify cfg = HasInsecureTransport (cred_Transport (node_Credentials n));
  cf_transport : nc_Transport cfg = cred_Transport (node_Credentials n);
  cf_method : nc_Method cfg = cred_Method (node_Credentials n);
  cf_password : nc_Password cfg = cred_Password (node_Credentials n);
  cf_uuid : nc_UUID cfg = cred_UUID (node_Credentials n);
  cf_alter : nc_AlterID cfg = cred_AlterID (node_Credentials n);
  cf_private : nc_PrivateKey cfg = cred_PrivateKey (node_Credentials n);
  cf_public : nc_PublicKey cfg = cred_PublicKey (node_Credentials n);
  cf_shared : nc_PresharedKey cfg = EffectivePreSharedKey (node_Credentials n);
  cf_local : nc_LocalAddress cfg = cred_LocalAddress (node_Credentials n);
  cf_reserved : nc_Reserved cfg = cred_Reserved (node_Credentials n);
  cf_reality : nc_RealityPublicKey cfg = reality_key (cred_Transport (node_Credentials n));
  cf_short_id : nc_RealityShortID cfg = reality_short_id (cred_Transport (node_Credentials n));
  cf_obfs : nc_Hy2Obfs cfg = TrimSpace (map_get (cred_Transport (node_Credentials n)) "obfs");
  cf_obfs_password : nc_Hy2ObfsPassword cfg =
    first_trimmed (cred_Transport (node_Credentials n)) ["obfs-password"; "obfs_password"];
  cf_congestion : nc_TUICCongestionControl cfg = cred_CongestionControl (node_Credentials n);
  cf_relay : nc_TUICUDPRelayMode cfg = cred_UDPRelayMode (node_Credentials n)
}.

Lemma config_of_identity n cfg tls sni headers :
  config_of n cfg → config_of n (with_identity cfg tls sni headers).
Proof. intros []. by split. Qed.

Lemma NodeConfigFromNode_fields n : config_of n (NodeConfigFromNode n).
Proof.
  unfold NodeConfigFromNode, NodeConfigFromPayload. cbv zeta.
  set (pre := applyTransportFields _ (cred_Transport _)). cbn [node_Credentials] in pre.
  assert (Hpre : config_of n pre).
  { subst pre. cbn [nn_Node nn_Server nn_Port nn_Transport nn_Credentials]. unfold or_transport.
    destruct n as [? ? ? server port c ? ?]. cbn. destruct (cred_Transport c) as [m|] eqn:Hm; split; cbn;
      rewrite ?Hm, ?or_else_empty; try done;
      try (by destruct (cred_LocalAddress c)); try (by destruct (cred_Reserved c));
      try apply or_else_same; try (by destruct (Z.eqb_spec port 0)).
    apply orb_diag. }
  unfold server_identity. destruct (_ && _) in |- *; destruct (_ && _) in |- *;
    repeat apply config_of_identity; done.
Qed.

(** ** Outbounds *)

Definition outbound_protocol (o : OutboundOptions) : string :=
  match o with
  | ShadowsocksOutbound _ => ProtocolSS
  | VMessOutbound _ => ProtocolVMess
  | VLESSOutbound _ => ProtocolVLESS
  | TrojanOutbound _ => ProtocolTrojan
  | Hysteria2Outbound _ => ProtocolHysteria2
  | TUICOutbound _ => ProtocolTUIC
  | SOCKSOutbound _ => ProtocolSocks5
  | HTTPOutbound _ => ProtocolHTTP
  end.

(** The obfuscation of a Hysteria2 node. *)
Definition obfs_of (m : option (gmap string string)) : option Hysteria2Obfs :=
  let type := TrimSpace (map_get m "obfs") in
  if String.eqb type "" then None
  else Some {| obf_Type := type; obf_Password := first_trimmed m ["obfs-password"; "obfs_password"] |}.

(** REALITY, where the node has a key for it: the key that is written names the same 32 bytes. *)
Definition reality_written (m : option (gmap string string)) (tls : option OutboundTLSOptions) : Prop :=
  reality_key m ≠ "" →
  ∃ t r key, tls = Some t ∧ tls_Reality t = Some r ∧
    decode_key (TrimSpace (reality_key m)) = Some key ∧ length key = 32 ∧
    DecodeString true false (rlt_PublicKey r) = Some key ∧
    rlt_ShortID r = TrimSpace (reality_short_id m).

(** The outbound carries every credential that its protocol has. *)
Definition authenticates (c : InboundProtocolCredential) (o : OutboundOptions) : Prop :=
  let lower s := ToLower (TrimSpace s) in
  match o with
  | ShadowsocksOutbound o => sso_Method o = lower (cred_Method c) ∧ sso_Password o = cred_Password c
  | VMessOutbound o => vmo_UUID o = cred_UUID c ∧ vmo_Security o = or_else (lower (cred_Method c)) "auto" ∧
                       vmo_AlterId o = cred_AlterID c
  | VLESSOutbound o => vlo_UUID o = cred_UUID c ∧
                       vlo_Flow o = TrimSpace (map_get (cred_Transport c) "flow") ∧
                       reality_written (cred_Transport c) (vlo_TLS o)
  | TrojanOutbound o => tro_Password o = cred_Password c
  | Hysteria2Outbound o => hyo_Password o = cred_Password c ∧ hyo_Obfs o = obfs_of (cred_Transport c)
  | TUICOutbound o => tuo_UUID o = cred_UUID c ∧ tuo_Password o = cred_Password c ∧
                      tuo_CongestionControl o = lower (cred_CongestionControl c) ∧
                      tuo_UDPRelayMode o = lower (cred_UDPRelayMode c)
  | SOCKSOutbound o => sko_Username o = cred_Username c ∧ sko_Password o = cred_Password c
  | HTTPOutbound o => hto_Username o = cred_Username c ∧ hto_Password o = cred_Password c
  end.

Definition always_tls (protocol : string) : bool :=
  mem_str protocol [ProtocolTrojan; ProtocolHysteria2; ProtocolTUIC].

(** TLS is on, and checks certificates unless the node asks for no check. *)
Definition tls_of (cfg : NodeConfig) (t : OutboundTLSOptions) : Prop :=
  tls_Enabled t = true ∧ tls_Insecure t = nc_SkipCertVerify cfg ∧
  (tls_DisableSNI t = true → nc_Protocol cfg = ProtocolTUIC ∧ nc_TUICDisableSNI cfg = true).

Record built (cfg : NodeConfig) (o : OutboundOptions) : Prop := {
  built_server : outbound_server o = serverOptions cfg;
  built_tls : ∀ t, outbound_tls o = Some t → tls_of cfg t;
  built_always : always_tls (outbound_protocol o) = true → outbound_tls o ≠ None;
  built_ports : ∀ h p, o = Hysteria2Outbound h → p ∈ hyo_ServerPorts h →
    nc_Protocol cfg = ProtocolHysteria2 ∧ p = nc_Hy2Ports cfg
}.

Lemma tls_options_of cfg b :
  (b = true → nc_Protocol cfg = ProtocolTUIC ∧ nc_TUICDisableSNI cfg = true) → tls_of cfg (tls_options cfg b).
Proof. intros Hb. by split; [|split]. Qed.

Lemma tls_plain_of cfg : tls_of cfg (tls_options cfg false).
Proof. by apply tls_options_of. Qed.

Lemma with_utls_of cfg f t : tls_of cfg t → tls_of cfg (with_utls f t).
Proof. done. Qed.

Lemma reality_options_of cfg t t' : tls_of cfg t → reality_options cfg t = Ok t' → tls_of cfg t'.
Proof.
  intros Ht. unfold reality_options. destruct (String.eqb _ ""); [by intros [= <-]|]. cbv zeta.
  destruct (decode_key _); [|done]. destruct (negb _); [done|]. intros Hr. split_ok Hr.
  injection Hr as <-. by destruct (tls_UTLS _).
Qed.

Lemma vmess_built cfg o : buildVMessOutbound cfg = Ok o → built cfg (VMessOutbound o).
Proof.
  unfold buildVMessOutbound. intros Hb. split_ok Hb. injection Hb as <-. split; try done.
  simpl. destruct (transport_tls cfg); [|done]. intros t [= <-]. apply tls_plain_of.
Qed.

Lemma vless_built cfg o : buildVLESSOutbound cfg = Ok o → built cfg (VLESSOutbound o).
Proof.
  unfold buildVLESSOutbound. intros Hb. split_ok Hb. injection Hb as <-. split; try done.
  simpl. intros t ->. match goal with E : (if ?b then _ else _) = Ok (Some t) |- _ =>
    destruct b; [|done]; split_ok E; injection E as <- end.
  eapply reality_options_of; [|eassumption].
  destruct (String.eqb (nc_ClientFingerprint cfg) ""); [|apply with_utls_of]; apply tls_plain_of.
Qed.

Lemma trojan_built cfg o : buildTrojanOutbound cfg = Ok o → built cfg (TrojanOutbound o).
Proof.
  unfold buildTrojanOutbound. intros Hb. split_ok Hb. injection Hb as <-. split; try done.
  simpl. intros t [= <-]. apply tls_plain_of.
Qed.

Lemma hysteria2_built cfg :
  nc_Protocol cfg = ProtocolHysteria2 → built cfg (Hysteria2Outbound (buildHysteria2Outbound cfg)).
Proof.
  intros Hprot. split; try done; simpl.
  - intros t [= <-]. apply tls_plain_of.
  - intros h p [= <-]. simpl. destruct (String.eqb _ ""); set_solver.
Qed.

Lemma tuic_built cfg :
  nc_Protocol cfg = ProtocolTUIC → built cfg (TUICOutbound (buildTUICOutbound cfg)).
Proof. split; try done; simpl. intros t [= <-]. by apply tls_options_of. Qed.

Lemma BuildOutbound_built cfg tag out :
  BuildOutbound cfg tag = Ok out → built cfg (ob_Options out) ∧ (tag ≠ "" → ob_Tag out = tag).
Proof.
  unfold BuildOutbound. cbv zeta. intros Hb.
  assert (Htag : tag ≠ "" → or_else tag (or_else (nc_LogicalID cfg) "node-probe") = tag).
  { intros Ht. unfold or_else at 1. by apply String.eqb_neq in Ht as ->. }
  repeat match type of Hb with
  | (if ?b then _ else _) = _ => destruct b eqn:?; [split_ok Hb; injection Hb as <-; split; [cbn|done]|]
  end; [..|done]; try (by apply vmess_built || by apply vless_built || by apply trojan_built).
  - done.
  - apply hysteria2_built. by apply String.eqb_eq.
  - apply tuic_built. by apply String.eqb_eq.
  - done.
  - done.
Qed.

(** ** REALITY keys *)

Lemma decode_key_bytes s l : decode_key s = Some l → Forall is_byte l.
Proof.
  unfold decode_key. cbv beta zeta.
  assert (Htry : ∀ url padded (k : option (list Z)),
    (k = Some l → Forall is_byte l) →
    match DecodeString url padded s with Some _ => DecodeString url padded s | None => k end = Some l →
    Forall is_byte l).
  { intros url padded k Hk. destruct (DecodeString url padded s) eqn:Hd; [|done].
    intros [= <-]. by eapply DecodeString_bytes. }
  do 3 apply Htry. apply DecodeString_bytes.
Qed.

(** A key that is written names the bytes that the node's key names, in any of its spellings. *)
Lemma reality_key_kept cfg t t' :
  reality_options cfg t = Ok t' → nc_RealityPublicKey cfg ≠ "" →
  ∃ key r, decode_key (TrimSpace (nc_RealityPublicKey cfg)) = Some key ∧ length key = 32 ∧
    tls_Reality t' = Some r ∧ DecodeString true false (rlt_PublicKey r) = Some key ∧
    rlt_ShortID r = TrimSpace (nc_RealityShortID cfg) ∧ tls_UTLS t' ≠ None.
Proof.
  unfold reality_options. intros Hr Hne. apply String.eqb_neq in Hne. rewrite Hne in Hr. cbv zeta in Hr.
  destruct (decode_key _) as [key|] eqn:Hkey; [|done]. destruct (length key =? 32) eqn:Hlen; [apply Nat.eqb_eq in Hlen|done].
  split_ok Hr. injection Hr as <-. exists key.
  assert (Hd : DecodeString true false (EncodeToString key) = Some key)
    by (eapply EncodeToString_decode, decode_key_bytes, Hkey).
  simpl. destruct (tls_UTLS t) eqn:Hu; eexists; repeat split; try done. simpl. by rewrite Hu.
Qed.

(** ** Credentials *)

Section Credentials.
Context (n : Node) (cfg : NodeConfig) (Hcfg : config_of n cfg).
#[local] Notation c := (node_Credentials n).

Lemma shadowsocks_secret o : export_shadowsocks cfg = Ok o → authenticates c (ShadowsocksOutbound o).
Proof.
  destruct Hcfg. unfold export_shadowsocks. intros He. split_ok He. injection He as <-.
  match goal with E : refuse_if _ _ _ = Ok tt |- _ => apply reject_if_ok, negb_false_iff in E; rename E into Hm end.
  simpl. rewrite cf_method0 in *. split; [|done]. unfold or_else.
  destruct (String.eqb_spec (ToLower (TrimSpace (cred_Method c))) "") as [E|]; [|done].
  by rewrite E in Hm.
Qed.

Lemma vmess_secret o : export_vmess cfg = Ok o → authenticates c (VMessOutbound o).
Proof.
  destruct Hcfg. unfold export_vmess. intros He. split_ok He. injection He as <-.
  match goal with E : buildVMessOutbound _ = Ok _ |- _ => split_ok E; injection E as <- end.
  simpl. by rewrite cf_method0.
Qed.

Lemma vless_reality cfg' o :
  nc_RealityPublicKey cfg' = reality_key (cred_Transport c) →
  nc_RealityShortID cfg' = reality_short_id (cred_Transport c) →
  buildVLESSOutbound cfg' = Ok o →
  vlo_UUID o = nc_UUID cfg' ∧ reality_written (cred_Transport c) (vlo_TLS o).
Proof.
  intros Hkey Hsid. unfold buildVLESSOutbound. intros Hb. split_ok Hb. injection Hb as <-.
  split; [done|]. simpl. intros Hne. rewrite <- Hkey in Hne.
  match goal with E : (if ?b then _ else _) = Ok _ |- _ => destruct b eqn:Hon; [split_ok E; injection E as <-|] end.
  - match goal with E : reality_options _ _ = Ok _ |- _ =>
      destruct (reality_key_kept _ _ _ E Hne) as (key & r & ? & ? & ? & ? & ? & _) end.
    rewrite <- Hkey, <- Hsid. by eexists _, r, key.
  - apply String.eqb_neq in Hne. rewrite Hne in Hon. simpl in Hon. by rewrite !orb_true_r in Hon.
Qed.

Lemma vless_secret o : export_vless cfg (cred_Transport c) = Ok o → authenticates c (VLESSOutbound o).
Proof.
  destruct Hcfg. unfold export_vless. intros He. split_ok He. injection He as <-.
  match goal with E : buildVLESSOutbound _ = Ok _ |- _ => apply vless_reality in E as [Hid Hr] end;
    [|by case_match..].
  split; [|done]. simpl. rewrite Hid. by case_match.
Qed.

Lemma trojan_secret o : export_trojan cfg = Ok o → authenticates c (TrojanOutbound o).
Proof.
  destruct Hcfg. unfold export_trojan. intros He. split_ok He. injection He as <-.
  by match goal with E : buildTrojanOutbound _ = Ok _ |- _ => split_ok E; injection E as <- end.
Qed.

Lemma hysteria2_secret m o : export_hysteria2 cfg m = Ok o → authenticates c (Hysteria2Outbound o).
Proof.
  destruct Hcfg. unfold export_hysteria2. intros He. split_ok He. injection He as <-. split; [done|].
  simpl. unfold obfs_of. by rewrite cf_obfs0, cf_obfs_password0.
Qed.

Lemma tuic_secret o : export_tuic cfg = Ok o → authenticates c (TUICOutbound o).
Proof.
  destruct Hcfg. unfold export_tuic. intros He. split_ok He. injection He as <-.
  simpl. by rewrite cf_congestion0, cf_relay0.
Qed.
End Credentials.

(** ** Exported outbounds *)

Lemma export_shadowsocks_built cfg o : export_shadowsocks cfg = Ok o → built cfg (ShadowsocksOutbound o).
Proof. unfold export_shadowsocks. intros He. split_ok He. by injection He as <-. Qed.

Lemma export_vmess_built cfg o : export_vmess cfg = Ok o → built cfg (VMessOutbound o).
Proof.
  unfold export_vmess. intros He. split_ok He. injection He as <-.
  match goal with E : buildVMessOutbound _ = Ok ?b |- _ => apply vmess_built in E as [? Htls ? _] end.
  split; try done. simpl in *. intros t ->.
  match goal with E : (if ?b then _ else _) = _ |- _ => destruct b; [by injection E; intros Ht; apply Htls|] end.
  destruct (vmo_TLS _) as [t'|]; [|done].
  match goal with E : Ok _ = Ok _ |- _ => injection E as <- end. by apply with_utls_of, Htls.
Qed.

Lemma export_vless_built cfg m o : export_vless cfg m = Ok o → built cfg (VLESSOutbound o).
Proof.
  unfold export_vless. intros He. split_ok He. injection He as <-.
  match goal with E : buildVLESSOutbound _ = Ok ?b |- _ => apply vless_built in E as [Hs Htls ? _] end.
  destruct (String.eqb _ ""); by split.
Qed.

Lemma export_trojan_built cfg o : export_trojan cfg = Ok o → built cfg (TrojanOutbound o).
Proof.
  unfold export_trojan. intros He. split_ok He. injection He as <-.
  match goal with E : buildTrojanOutbound _ = Ok ?b |- _ => apply trojan_built in E as [? Htls Hon _] end.
  split; try done; simpl in *; destruct (String.eqb _ ""); try done.
  - destruct (tro_TLS _); [|done]. intros t [= <-]. by apply with_utls_of, Htls.
  - by destruct (tro_TLS _).
Qed.

Lemma export_hysteria2_built cfg m o :
  nc_Protocol cfg = ProtocolHysteria2 → export_hysteria2 cfg m = Ok o → built cfg (Hysteria2Outbound o).
Proof.
  unfold export_hysteria2. intros Hprot He. split_ok He. injection He as <-.
  destruct (hysteria2_built cfg Hprot) as [? ? ? Hports]. split; try done.
  intros h p [= <-]. by apply (Hports _ p eq_refl).
Qed.

Lemma export_tuic_built cfg o :
  nc_Protocol cfg = ProtocolTUIC → export_tuic cfg = Ok o → built cfg (TUICOutbound o).
Proof.
  unfold export_tuic. intros Hp He. split_ok He. injection He as <-.
  split; try done. simpl. intros t [= <-]. by apply (tls_options_of cfg).
Qed.

(** What an endpoint is built from. *)
Definition endpoint_addresses (l : list string) : list Prefix :=
  match omap local_prefix l with [] => [MustParsePrefix "10.0.0.2/32"] | l => l end.

Record endpoint_built (cfg : NodeConfig) (tag : string) (ep : Endpoint) : Prop := {
  eb_tag : ep_Tag ep = tag;
  eb_key : we_PrivateKey (ep_Options ep) = nc_PrivateKey cfg ∧ nc_PrivateKey cfg ≠ "";
  eb_addresses : we_Address (ep_Options ep) = endpoint_addresses (nc_LocalAddress cfg);
  eb_peer : ∃ peer, we_Peers (ep_Options ep) = [peer] ∧ wp_Address peer = nc_Server cfg ∧
    wp_Port peer = (nc_Port cfg `mod` 2 ^ 16)%Z ∧ wp_PublicKey peer = nc_PublicKey cfg ∧
    wp_PreSharedKey peer = nc_PresharedKey cfg ∧ wp_Reserved peer = nc_Reserved cfg
}.

Lemma wireguard_built cfg tag ep :
  buildWireGuardEndpoint cfg tag = Ok ep → endpoint_built cfg tag ep.
Proof.
  unfold buildWireGuardEndpoint. intros He. split_ok He. injection He as <-.
  match goal with E : refuse_if _ _ _ = Ok tt |- _ => apply reject_if_ok, String.eqb_neq in E end.
  split; [done|done|done|by eexists].
Qed.

Lemma export_wireguard_built cfg tag ep :
  export_wireguard cfg tag = Ok ep → endpoint_built cfg tag ep ∧
  ∃ peer, we_Peers (ep_Options ep) = [peer] ∧
    (∀ p, p ∈ we_Address (ep_Options ep) → pfx_Is4 p = false → MustParsePrefix "::/0" ∈ wp_AllowedIPs peer).
Proof.
  unfold export_wireguard. intros He. split_ok He. injection He as <-.
  match goal with E : buildWireGuardEndpoint _ _ = Ok ?b |- _ =>
    apply wireguard_built in E as [Ht Hk Ha (peer & Hp & Hs & Hport & Hkey & Hpsk & Hres)] end.
  unfold route_families. destruct (existsb _ _) eqn:Hv6; simpl.
  - rewrite Hp. split; [split; simpl; try done; by eexists|]. eexists; split; [done|].
    intros p _ _. simpl. set_solver.
  - split; [split; try done; by exists peer|]. exists peer. split; [done|]. intros p Hin Hfam.
    exfalso. apply Bool.not_true_iff_false in Hv6. apply Hv6, existsb_exists. exists p.
    rewrite <- list_elem_of_In. by rewrite Hfam.
Qed.

Definition export_config (tag : string) (node : Node) : NodeConfig :=
  NodeConfigFromNode (renamed node tag (TrimSpace (node_Server node))).

Lemma export_config_fields tag n :
  config_of (renamed n tag (TrimSpace (node_Server n))) (export_config tag n).
Proof. apply NodeConfigFromNode_fields. Qed.

Lemma BuildExportNodeOption_built tag node out :
  BuildExportNodeOption tag node = Ok out →
  (1 ≤ node_Port node ≤ 65535)%Z ∧
  match out with
  | inl o => ob_Tag o = tag ∧ outbound_protocol (ob_Options o) = node_Protocol node ∧
             built (export_config tag node) (ob_Options o) ∧
             authenticates (node_Credentials node) (ob_Options o)
  | inr ep => node_Protocol node = ProtocolWireGuard ∧ endpoint_built (export_config tag node) tag ep
  end.
Proof.
  unfold BuildExportNodeOption. cbv zeta. fold (export_config tag node). intros Hb. split_ok Hb.
  pose proof (export_config_fields tag node) as Hcfg.
  pose proof (cf_protocol _ _ Hcfg) as Hprot. cbn [renamed node_Protocol] in Hprot.
  split. { match goal with E : reject_if _ ErrInvalidPort = _ |- _ => apply reject_if_ok in E end.
           apply orb_false_iff in H2 as [?%Z.ltb_ge ?%Z.ltb_ge]. lia. }
  change (node_Credentials node) with
    (node_Credentials (renamed node tag (TrimSpace (node_Server node)))) in *.
  repeat match type of Hb with
  | (if String.eqb ?a ?b then _ else _) = _ =>
      destruct (String.eqb_spec a b) as [E|_];
      [split_ok Hb; injection Hb as <-; rewrite E in Hprot; cbn [ob_Tag ob_Options outbound_protocol]; rewrite E|]
  end; [..|done].
  - eauto 6 using export_shadowsocks_built, shadowsocks_secret.
  - eauto 6 using export_vmess_built, vmess_secret.
  - eauto 6 using export_vless_built, vless_secret.
  - eauto 6 using export_trojan_built, trojan_secret.
  - eauto 6 using export_hysteria2_built, hysteria2_secret.
  - eauto 6 using export_tuic_built, tuic_secret.
  - by eapply export_wireguard_built in H3 as [? _].
Qed.

(** ** Probes *)

Definition probe_tag (cfg : NodeConfig) : string := or_else (nc_LogicalID cfg) "node-probe".

Lemma probe_tag_named cfg : probe_tag cfg ≠ "".
Proof. unfold probe_tag, or_else. by destruct (String.eqb_spec (nc_LogicalID cfg) ""). Qed.

(** Certificates are checked and the name of the server is sent. *)
Definition tls_verified (o : OutboundOptions) : Prop :=
  ∀ t, outbound_tls o = Some t → tls_Enabled t = true ∧ tls_Insecure t = false ∧ tls_DisableSNI t = false.

(** One server, no list of ports to hop between. *)
Definition single_port (o : OutboundOptions) : Prop :=
  ∀ h p, o = Hysteria2Outbound h → p ∈ hyo_ServerPorts h → blank p = true.

Lemma small_port z : (1 ≤ z ≤ 65535)%Z → (z `mod` 2 ^ 16)%Z = z.
Proof. intros Hz. apply Z.mod_small. lia. Qed.

(** ** The published file *)

Definition node_tag (n : ResolvedNode) : string := TrimSpace (rn_DisplayName n).
Definition is_wireguard (n : ResolvedNode) : bool := String.eqb (rn_Protocol n) ProtocolWireGuard.

Record outbound_of (n : ResolvedNode) (o : Outbound) : Prop := {
  of_tag : ob_Tag o = node_tag n;
  of_protocol : outbound_protocol (ob_Options o) = rn_Protocol n;
  of_server : outbound_server (ob_Options o) =
    {| so_Server := TrimSpace (rn_Server n); so_ServerPort := rn_Port n |};
  of_secret : authenticates (rn_Credentials n) (ob_Options o);
  of_tls : ∀ t, outbound_tls (ob_Options o) = Some t →
    tls_Enabled t = true ∧ tls_Insecure t = HasInsecureTransport (cred_Transport (rn_Credentials n));
  of_always : always_tls (rn_Protocol n) = true → outbound_tls (ob_Options o) ≠ None
}.

Record endpoint_of (n : ResolvedNode) (ep : Endpoint) : Prop := {
  oe_tag : ep_Tag ep = node_tag n;
  oe_key : we_PrivateKey (ep_Options ep) = cred_PrivateKey (rn_Credentials n);
  oe_addresses : we_Address (ep_Options ep) = endpoint_addresses (cred_LocalAddress (rn_Credentials n));
  oe_peer : ∃ peer, we_Peers (ep_Options ep) = [peer] ∧ wp_Address peer = TrimSpace (rn_Server n) ∧
    wp_Port peer = rn_Port n ∧ wp_PublicKey peer = cred_PublicKey (rn_Credentials n) ∧
    wp_PreSharedKey peer = EffectivePreSharedKey (rn_Credentials n) ∧
    wp_Reserved peer = cred_Reserved (rn_Credentials n)
}.

Lemma singbox_node_of seen i n out :
  singbox_node seen i n = Ok out →
  node_tag n ∉ seen ∧
  match out with
  | inl o => is_wireguard n = false ∧ outbound_of n o
  | inr ep => is_wireguard n = true ∧ endpoint_of n ep
  end.
Proof.
  unfold singbox_node. cbv zeta. fold (node_tag n). intros Hn. split_ok Hn.
  match goal with E : fail_if (mem_str _ _) _ _ _ _ = _ |- _ =>
    apply fail_if_ok in E; rewrite <- not_true_iff_false, mem_str_spec in E end.
  split; [done|].
  destruct (BuildExportNodeOption _ _) as [out'|] eqn:Hb; [|done]. injection Hn as <-.
  apply BuildExportNodeOption_built in Hb as [Hport%small_port Hb].
  pose proof (export_config_fields (node_tag n) (plain_node n (node_tag n))) as [].
  cbn [renamed plain_node node_Server node_Port node_Credentials node_Protocol] in *.
  destruct out' as [o|ep].
  - destruct Hb as (Htag & Hprot & [Hsrv Htls Hon _] & Hsec). split.
    { unfold is_wireguard. rewrite <- Hprot. by destruct (ob_Options o). }
    split; try done.
    + rewrite Hsrv. unfold serverOptions. by rewrite cf_server0, cf_port0, Hport.
    + intros t (? & Hins & _)%Htls. by rewrite Hins, cf_insecure0.
    + by rewrite <- Hprot.
  - destruct Hb as (Hprot & [Htag [Hkey _] Haddr (peer & ? & ? & ? & ? & ? & ?)]). split.
    { unfold is_wireguard. by rewrite Hprot. }
    split; [done|congruence|congruence|]. exists peer. split; [done|]. repeat split; congruence.
Qed.

Lemma singbox_nodes_of nodes : ∀ seen i outs eps,
  singbox_nodes seen i nodes = Ok (outs, eps) →
  Forall2 outbound_of (List.filter (λ n, negb (is_wireguard n)) nodes) outs ∧
  Forall2 endpoint_of (List.filter is_wireguard nodes) eps ∧
  map ob_Tag outs ++ map ep_Tag eps ≡ₚ map node_tag nodes ∧
  NoDup (map node_tag nodes) ∧ ∀ n, n ∈ nodes → node_tag n ∉ seen.
Proof.
  induction nodes as [|n nodes IH]; intros seen i outs eps Hr.
  { injection Hr as <- <-. split; [constructor|]. split; [constructor|]. split; [done|].
    split; [constructor|]. by intros n ?%not_elem_of_nil. }
  cbn [singbox_nodes] in Hr. split_ok Hr. destruct x0 as [outs' eps'].
  match goal with E : singbox_nodes _ _ _ = _ |- _ => apply IH in E as (Ho & He & Hperm & Hnd & Hfresh) end.
  match goal with E : singbox_node _ _ _ = _ |- _ => apply singbox_node_of in E as [Hseen Hn] end.
  assert (Htags : NoDup (map node_tag (n :: nodes)) ∧ ∀ m, m ∈ n :: nodes → node_tag m ∉ seen).
  { split.
    - simpl. constructor; [|done]. intros (m & Htag & Hm)%list_elem_of_fmap.
      apply Hfresh in Hm. rewrite <- Htag in Hm. apply Hm. unfold node_tag. set_solver.
    - intros m [->|Hm]%elem_of_cons; [done|]. apply Hfresh in Hm. set_solver. }
  destruct Htags as [Hnd' Hseen']. destruct x as [o|ep]; injection Hr as <- <-; simpl; destruct Hn as [-> Hn]; simpl.
  - split; [by constructor|]. split; [done|]. rewrite (of_tag _ _ Hn), Hperm. done.
  - split; [done|]. split; [by constructor|]. rewrite (oe_tag _ _ Hn).
    rewrite <- Permutation_middle, Hperm. done.
Qed.

Lemma Compile_singbox `{Sha256} snap res :
  Compile false snap TargetSingBox = Ok res →
  ∃ outs eps, singbox_nodes [] 0 (snap_Nodes snap) = Ok (outs, eps) ∧
    singjson_Encode {| op_Log := None; op_Route := None; op_Endpoints := eps; op_Outbounds := outs |} =
      Ok (res_Content res).
Proof.
  unfold Compile, compiled, render. intros Hc. split_ok Hc. cbn [String.eqb] in *.
  change (String.eqb TargetSingBox TargetMihomo) with false in *. rewrite String.eqb_refl in *.
  unfold renderSingBox in *. destruct (singbox_nodes [] 0 (snap_Nodes snap)) as [[outs eps]|]; [|done].
  exists outs, eps. split; [done|]. destruct (singjson_Encode _); [|done]. by simplify_eq/=.
Qed.
End Options.

(** C38. A probe of a node goes through that node and through nothing else.  The options that
    [BuildOptions] returns have the tag of the node as their default route and, under that
    tag, the only outbound or endpoint there is, with the server and the port of the node;
    TLS, where the node uses it, checks certificates and sends the server name, and the port
    is the configured one. *)
Theorem probe_leaves_by_node `{GoText} `{Backend} (cfg : NodeConfig) (opts : Options) (tag : string) :
  BuildOptions cfg = Ok (opts, tag) →
  op_Route opts = Some tag ∧ tag ≠ "" ∧
  ((∃ out, op_Outbounds opts = [out] ∧ op_Endpoints opts = [] ∧ ob_Tag out = tag ∧
      outbound_server (ob_Options out) = {| so_Server := nc_Server cfg; so_ServerPort := nc_Port cfg |} ∧
      tls_verified (ob_Options out) ∧ single_port (ob_Options out)) ∨
   (∃ ep peer, op_Outbounds opts = [] ∧ op_Endpoints opts = [ep] ∧ ep_Tag ep = tag ∧
      we_Peers (ep_Options ep) = [peer] ∧ wp_Address peer = nc_Server cfg ∧ wp_Port peer = nc_Port cfg)).
Proof.
  unfold BuildOptions, refuse_if. rewrite !seq_ok, !reject_if_ok.
  intros (_ & [?%Z.ltb_ge ?%Z.ltb_ge]%orb_false_iff & [Hskip _]%orb_false_iff & Hhop & Hsni & Hb).
  assert (Hport : (nc_Port cfg `mod` 2 ^ 16)%Z = nc_Port cfg) by (apply small_port; lia).
  fold (probe_tag cfg) in Hb. destruct (String.eqb (nc_Protocol cfg) ProtocolWireGuard); split_ok Hb;
    injection Hb as <- <-; (split; [done|]); (split; [apply probe_tag_named|]).
  - right. match goal with E : buildWireGuardEndpoint _ _ = _ |- _ =>
      apply wireguard_built in E as [Ht _ _ (peer & ? & ? & Hp & _)] end.
    eexists _, peer. by rewrite Hp, Hport.
  - left. match goal with E : BuildOutbound _ _ = _ |- _ => apply BuildOutbound_built in E as [[Hs Ht _ Hp] Htag] end.
    eexists. split; [done|]. split; [done|]. split; [by apply Htag, probe_tag_named|].
    split; [rewrite Hs; unfold serverOptions; by rewrite Hport|]. split.
    + intros t (He & Hi & Hd)%Ht. rewrite Hi, Hskip. split; [done|]. split; [done|].
      destruct (tls_DisableSNI t); [|done]. destruct Hd as [Hprot Hdis]; [done|].
      by rewrite Hprot, Hdis in Hsni.
    + intros h p Hh [Hprot ->]%(Hp h p Hh). rewrite Hprot in Hhop. simpl in Hhop.
      by apply orb_false_iff in Hhop as [?%negb_false_iff _].
Qed.

(** C37. A sing-box file has one entry per node and no other.  When [Compile] returns one, it is
    the JSON of options whose outbounds are the nodes that are not WireGuard nodes, in order,
    and whose endpoints are the WireGuard nodes, in order; each has the trimmed name of its
    node as its tag, the protocol, server and port of the node, and no two have the same tag.
    Each carries every credential of its node: the Shadowsocks password and cipher, the VMess
    identifier, security and alterId, the VLESS identifier, flow and REALITY key and short ID,
    the Trojan password, the Hysteria2 password and obfuscation, the TUIC identifier, password
    and modes, and the WireGuard private key, addresses, peer key, pre-shared key and reserved
    bytes.  Trojan, Hysteria2 and TUIC always use TLS, and certificates go unchecked exactly
    where the node asks for it. *)
Theorem singbox_document_sound `{GoText} `{Backend} `{Sha256} (snap : ResolvedPolicySnapshot) (res : Result) :
  Compile false snap TargetSingBox = Ok res →
  ∃ opts, singjson_Encode opts = Ok (res_Content res) ∧ op_Route opts = None ∧
    Forall2 outbound_of (List.filter (λ n, negb (is_wireguard n)) (snap_Nodes snap)) (op_Outbounds opts) ∧
    Forall2 endpoint_of (List.filter is_wireguard (snap_Nodes snap)) (op_Endpoints opts) ∧
    NoDup (map ob_Tag (op_Outbounds opts) ++ map ep_Tag (op_Endpoints opts)).
Proof.
  intros (outs & eps & Hn & Hj)%Compile_singbox.
  apply singbox_nodes_of in Hn as (Ho & He & Hperm & Hnd & _).
  eexists. split; [exact Hj|]. split; [done|]. split; [done|]. split; [done|]. simpl. by rewrite Hperm.
Qed.

(** ** Instances *)

Definition probed_node : Node := plain_node (trojan_node "n1" "HK" "secret") "HK".

Lemma probe_leaves_by_node_witness :
  ∃ opts, BuildOptions (H := ascii_text) (H0 := sample_backend)
            (NodeConfigFromNode (H := ascii_text) (H0 := sample_backend) probed_node) = Ok (opts, "n1") ∧
    op_Route opts = Some "n1".
Proof.
  eexists. split; [vm_compute; reflexivity|].
  refine (proj1 (probe_leaves_by_node (H := ascii_text) (H0 := sample_backend)
    (NodeConfigFromNode (H := ascii_text) (H0 := sample_backend) probed_node) _ "n1" _)).
  vm_compute. reflexivity.
Defined.

Lemma singbox_document_sound_witness :
  ∃ opts, singjson_Encode (Backend := sample_backend) opts = Ok "sing-box1" ∧
    map ob_Tag (op_Outbounds opts) = ["HK"].
Proof.
  destruct (singbox_document_sound (H := ascii_text) (H0 := sample_backend) (H1 := sample_sha) (one_node [])
    {| res_Content := "sing-box1"; res_ContentType := "application/json"; res_Filename := "sing-box.json";
       res_Target := TargetSingBox; res_SnapshotDigest := snap_SnapshotDigest (one_node []);
       res_ContentDigest := content_digest (H1 := sample_sha) "sing-box1" |}) as (opts & Hj & _ & Ho & _).
  - vm_compute. reflexivity.
  - exists opts. split; [exact Hj|]. inversion Ho as [|n o ns os Hno Hrest]. inversion Hrest. simpl.
    by rewrite (of_tag _ _ Hno).
Defined.

(** A VMess node that uses gRPC without TLS and names no host. *)
Definition plain_grpc (server : string) : Node :=
  {| node_LogicalID := "n1"; node_DisplayName := "HK"; node_Protocol := ProtocolVMess; node_Server := server;
     node_Port := 443;
     node_Credentials := {| cred_Password := ""; cred_UUID := "u"; cred_Method := ""; cred_AlterID := 0;
       cred_PrivateKey := ""; cred_PublicKey := ""; cred_PresharedKey := ""; cred_PreSharedKey := "";
       cred_LocalAddress := []; cred_Reserved := []; cred_MTU := 0; cred_DNS := [];
       cred_CongestionControl := ""; cred_UDPRelayMode := ""; cred_ALPN := []; cred_SNI := "";
       cred_DisableSNI := false; cred_Username := ""; cred_Transport := Some {["network" := "grpc"]} |};
     node_Active := true; node_ConnectionRevision := 1 |}.

Definition export_sample (n : Node) : result string (Outbound + Endpoint) :=
  BuildExportNodeOption (H := ascii_text) (H0 := sample_backend) "HK" n.

(** The [Host] that the configuration takes from the server is then refused as an override: the
    node can be exported when its server is an address and not when it is a name. *)
Lemma grpc_without_tls_refused :
  export_sample (plain_grpc "example.org") =
    Err ("[validation/unsupported_grpc_host] " +:+
         "grpc transport cannot override Host/authority independently of TLS SNI in sing-box") ∧
  ∃ out, export_sample (plain_grpc "192.0.2.1") = Ok out.
Proof. split; [vm_compute; reflexivity|]. eexists. vm_compute. reflexivity. Qed.
