(* ===== verification/Preflight.v ===== *)
(** * From the repositories to a snapshot, and the preflight of a publication

    [internal/application/publication/service.go]: [assembleResolveInput],
    [resolveTargetSnapshot], [filterDependencies] and [evaluatePreflight].  The
    repositories are interfaces of [internal/domain/ports.go]; what they answer to
    one request is a record of operations, [SnapshotRepos], and what the risk
    service answers is [RiskService].  [risk_service] is the implementation of the
    latter by the risk service of [RiskPolicies] and [RiskEval]. *)

From S2P Require Import Prelude.
From S2P Require Import GoStrings.
From S2P Require Import Domain.
From S2P Require Import Lifecycle.
From S2P Require Import NodeFilter.
From S2P Require Import Policy.
From S2P Require Import Risk.
From S2P Require Import RiskEval.
From S2P Require Import Services.
From S2P Require Import RiskPolicies.
From S2P Require Import Admission.
From S2P Require Import Groups.
From S2P Require Import ResolveGroups.
From S2P Require Import Resolver.
From S2P Require Import Prune.
From S2P Require Import Capabilities.
From S2P Require Import Compiler.

(** ** Interfaces *)

Record RiskBatch : Type := {
  rb_Decisions : list RiskDecision; rb_DecisionDigest : string; rb_EvaluatedAt : time
}.

Record RiskService : Type := {
  rs_GetPolicy : string → result error RiskPolicyRevision;
  rs_GetActivePolicy : result error RiskPolicyRevision;
  rs_EvaluateBatch : list string → RiskPolicyRevision → time → result error RiskBatch
}.

Record ConfigurationRevision : Type := { cr_ID : string; cr_State : string }.
Definition RevisionStateActive := "active".

(** [None] for a repository that was not configured, and for a revision
    repository without policy snapshots. *)
Record SnapshotRepos : Type := {
  sr_configured : bool;
  sr_GetRevision : string → result error (option ConfigurationRevision);
  sr_GetActiveRevision : result error (option ConfigurationRevision);
  sr_ListGroups : result error (list NodeGroup);
  sr_GetPolicySnapshot : option (string → result error (list NodeGroup));
  sr_ListPolicyRules : string → result error (list PolicyRule);
  sr_ListAdmissionRules : string → result error (list AdmissionRule);
  sr_ListNodes : result error (list Node);
  sr_GetGlobalFilter : option (result error (option NodeFilterSpec));
  sr_ListSources : option (list string → result error (gmap string (list NodeSource)));
  sr_ListLatest : option (list string → result error (gmap string (gmap string ProbeObservation)));
  sr_Risk : option RiskService
}.

(** ** What the filters need *)

Definition spec_fields (spec : option NodeFilterSpec) : list string :=
  match spec with Some s => map cond_Field (spec_Conditions s) | None => [] end.

(** Do the filters need node sources, do they need probe observations? *)
Definition filterDependencies (global : option NodeFilterSpec)
    (groupFilters : list (string * NodeFilterSpec)) (groups : list NodeGroup) : bool * bool :=
  let fields :=
    spec_fields global ++ flat_map (λ gf, spec_fields (Some gf.2)) groupFilters ++
    flat_map (λ g, spec_fields (grp_NodeFilter g) ++
                   flat_map (λ src, spec_fields (src_FilterSpec src)) (grp_Sources g)) groups in
  (existsb (String.eqb FilterFieldSourceSubscriptions) fields,
   existsb (λ f, String.eqb f FilterFieldProbeVerdict || String.eqb f FilterFieldProbeLatencyMS)
     fields).

(** ** Assembling the input of the resolver *)

Section Assemble.
Context (repos : SnapshotRepos) (now : time).

Definition of_domain {A} (e : DomainError) : result error A := Err (domain_error e).

(** The selected revision, or the active one. *)
Definition select_revision (revisionID : string)
    : result error (string * option ConfigurationRevision) :=
  if negb (String.eqb revisionID "") then
    match sr_GetRevision repos revisionID with
    | Ok (Some rev) => Ok (cr_ID rev, Some rev)
    | Ok None => of_domain (NewNotFoundError "revision_not_found")
    | Err e => if is_not_found e then of_domain (NewNotFoundError "revision_not_found") else Err e
    end
  else
    match sr_GetActiveRevision repos with
    | Ok (Some rev) => Ok (cr_ID rev, None)
    | Ok None => of_domain (NewConflictError "no_active_revision")
    | Err e => if is_not_found e then of_domain (NewConflictError "no_active_revision") else Err e
    end.

(** The groups of the policy, or of the revision's own snapshot. *)
Definition select_groups (includeGraph : bool) (revID : string)
    (selected : option ConfigurationRevision) : result error (list NodeGroup) :=
  if negb includeGraph then Ok []
  else
    let? groups := sr_ListGroups repos in
    match selected, sr_GetPolicySnapshot repos with
    | Some rev, Some get =>
        if String.eqb (cr_State rev) RevisionStateActive then Ok groups else get revID
    | _, _ => Ok groups
    end.

Definition configured_filter : result error (option NodeFilterSpec) :=
  match sr_GetGlobalFilter repos with
  | None => Ok None
  | Some (Err _) => of_domain (NewInternalError "global_filter_unavailable")
  | Some (Ok spec) => Ok (if NodeFilterSpec_IsEmpty spec then None else spec)
  end.

(** A listing that a filter needs. *)
Definition needed {K} (needs : bool) (lister : option (list string → result error (gmap string K)))
    (code : string) (ids : list string) : result error (gmap string K) :=
  if negb needs then Ok ∅
  else match lister with
       | None => of_domain (NewInternalError code)
       | Some f =>
           if length ids =? 0 then Ok ∅
           else match f ids with Ok m => Ok m | Err _ => of_domain (NewInternalError code) end
       end.

(** The decisions of the active risk policy, if there is one. *)
Definition risk_input (ids : list string)
    : result error (option (RiskPolicyRevision * RiskBatch)) :=
  match sr_Risk repos with
  | None => Ok None
  | Some risk =>
      match rs_GetActivePolicy risk with
      | Err e => if is_not_found e then Ok None
                 else of_domain (NewInternalError "risk_policy_unavailable")
      | Ok policy =>
          if negb (rev_Active policy) then Ok None
          else match rs_EvaluateBatch risk ids policy now with
               | Err _ => of_domain (NewInternalError "risk_evaluation_unavailable")
               | Ok batch => Ok (Some (policy, batch))
               end
      end
  end.

Definition index_groups {B} (f : NodeGroup → B) (groups : list NodeGroup) : gmap string B :=
  fold_left (λ m g, <[grp_ID g := f g]> m) groups ∅.

Definition assembleResolveInput (revisionID : string) (includeGraph : bool)
    : result error ResolveInput :=
  if negb (sr_configured repos) then of_domain (NewInternalError "missing_dependencies")
  else
    let? sel := select_revision revisionID in
    let? groups := select_groups includeGraph sel.1 sel.2 in
    let? policyRules := (if includeGraph then sr_ListPolicyRules repos sel.1 else Ok []) in
    let? admissionRules := sr_ListAdmissionRules repos sel.1 in
    let? nodes := sr_ListNodes repos in
    let? globalFilter := configured_filter in
    let ids := map node_LogicalID nodes in
    let '(needsSources, needsObservations) := filterDependencies globalFilter [] groups in
    let? nodeSources := needed needsSources (sr_ListSources repos) "node_sources_unavailable" ids in
    let? latest := needed needsObservations (sr_ListLatest repos)
                     "probe_observations_unavailable" ids in
    let? risk := risk_input ids in
    Ok {| in_RevisionID := sel.1; in_InventoryWatermark := "v1"; in_CompilerVersion := "1.0.0";
          in_Nodes := nodes; in_Groups := groups;
          in_GroupSources := Some (index_groups grp_Sources groups);
          in_Edges := map_to_list (index_groups (λ g, ProjectSourceEdges (grp_Sources g)) groups);
          in_PolicyRules := policyRules; in_AdmissionRules := admissionRules;
          in_DNS := {| dns_Enabled := true; dns_Nameservers := ["1.1.1.1"; "8.8.8.8"];
                       dns_Fallback := [] |};
          in_RiskPolicyRevision :=
            match risk with Some (p, _) => pol_RevisionID (rev_Policy p) | None => "" end;
          in_RiskDecisionDigest :=
            match risk with Some (_, b) => rb_DecisionDigest b | None => "" end;
          in_RiskEvaluatedAt :=
            match risk with Some (_, b) => Some (rb_EvaluatedAt b) | None => None end;
          in_RiskReviewAction :=
            match risk with Some (p, _) => EffectiveReviewAction (rev_Policy p) | None => "" end;
          in_RiskDecisions := match risk with Some (_, b) => rb_Decisions b | None => [] end;
          in_ExcludedNodeIDs := []; in_GlobalFilter := globalFilter; in_GroupFilters := [];
          in_NodeSources := nodeSources; in_LatestObservations := latest; in_AsOf := now |}.
End Assemble.

(** ** Resolving for a target *)

(** Formats without a policy graph get none. *)
Definition without_graph (input : ResolveInput) : ResolveInput :=
  {| in_RevisionID := in_RevisionID input; in_InventoryWatermark := in_InventoryWatermark input;
     in_CompilerVersion := in_CompilerVersion input; in_Nodes := in_Nodes input; in_Groups := [];
     in_GroupSources := None; in_Edges := []; in_PolicyRules := [];
     in_AdmissionRules := in_AdmissionRules input; in_DNS := in_DNS input;
     in_RiskPolicyRevision := in_RiskPolicyRevision input;
     in_RiskDecisionDigest := in_RiskDecisionDigest input;
     in_RiskEvaluatedAt := in_RiskEvaluatedAt input;
     in_RiskReviewAction := in_RiskReviewAction input; in_RiskDecisions := in_RiskDecisions input;
     in_ExcludedNodeIDs := in_ExcludedNodeIDs input; in_GlobalFilter := in_GlobalFilter input;
     in_GroupFilters := []; in_NodeSources := in_NodeSources input;
     in_LatestObservations := in_LatestObservations input; in_AsOf := in_AsOf input |}.

Definition with_diagnostics (snap : ResolvedPolicySnapshot) (diags : list Diagnostic)
    : ResolvedPolicySnapshot :=
  {| snap_InputDigest := snap_InputDigest snap; snap_SnapshotDigest := snap_SnapshotDigest snap;
     snap_RevisionID := snap_RevisionID snap;
     snap_InventoryWatermark := snap_InventoryWatermark snap;
     snap_CompilerVersion := snap_CompilerVersion snap; snap_Nodes := snap_Nodes snap;
     snap_NodeLogicalIDs := snap_NodeLogicalIDs snap; snap_Groups := snap_Groups snap;
     snap_Rules := snap_Rules snap; snap_DNS := snap_DNS snap; snap_Diagnostics := diags;
     snap_RiskPolicyRevision := snap_RiskPolicyRevision snap;
     snap_RiskDecisionDigest := snap_RiskDecisionDigest snap;
     snap_RiskEvaluatedAt := snap_RiskEvaluatedAt snap;
     snap_AdmittedNodeIDs := snap_AdmittedNodeIDs snap;
     snap_ExcludedNodeIDs := snap_ExcludedNodeIDs snap;
     snap_FilterCounts := snap_FilterCounts snap; snap_ResolvedAt := snap_ResolvedAt snap |}.

(** Did the configured filters leave nothing to export? *)
Definition filters_left_nothing (input : ResolveInput) (counts : FilterLayerCounts) : bool :=
  (0 <? flc_AdmittedTotal counts) &&
  (let globallyEmpty := negb (NodeFilterSpec_IsEmpty (in_GlobalFilter input)) &&
                        (flc_GlobalFilteredTotal counts =? 0) in
   let groupEmpty :=
     negb globallyEmpty && (flc_GroupFilteredTotal counts =? 0) &&
     existsb (λ g,
       existsb (λ src, negb (NodeFilterSpec_IsEmpty (src_FilterSpec src))) (grp_Sources g) &&
       match flc_GroupCounts counts !! grp_ID g with
       | Some c => (0 <? gfc_Candidate c) && (0 <? gfc_Excluded c)
       | None => false
       end) (in_Groups input) in
   globallyEmpty || groupEmpty).

Definition filtered_nodes_empty : Diagnostic :=
  mk_diag DiagnosticSeverityError "filtered_nodes_empty"
    "configured node filters left no exportable nodes; check probe observations, freshness and filter conditions"
    "".

Definition resolver_failure (e : resolve_error) : error :=
  match e with
  | context_done => driver_error "context canceled"
  | invalid_input d => domain_error d
  | digest_failed m => driver_error m
  end.

Section Snapshot.
Context `{GoText} `{RegexEngine} `{Sha256} `{Digests}.

(** [done_] tells whether the request's context has ended, [later] is the second
    reading of the clock.  The resolver always returns ([resolve_returns]). *)
Definition resolveTargetSnapshot (repos : SnapshotRepos) (done_ : bool) (now later : time)
    (revisionID target : string) : result error ResolvedPolicySnapshot :=
  let? input := assembleResolveInput repos now revisionID (String.eqb target TargetMihomo) in
  match Resolve done_ now later
          (if String.eqb target TargetMihomo then input else without_graph input) with
  | None => Err (driver_error "unreachable")
  | Some (Err e) => Err (resolver_failure e)
  | Some (Ok snap) =>
      if filters_left_nothing input (snap_FilterCounts snap)
      then Ok (with_diagnostics snap (snap_Diagnostics snap ++ [filtered_nodes_empty]))
      else Ok snap
  end.
End Snapshot.

(** ** Preflight *)

Record PreflightDiagnostic : Type := {
  pd_Severity : string; pd_Code : string; pd_Message : string; pd_Target : string
}.

Record PreflightResult : Type := {
  pf_Allowed : bool;
  pf_Diagnostics : list PreflightDiagnostic;
  pf_PolicyRevision : string;
  pf_SnapshotDigest : string
}.

(** A finding forbids the publication; the first one per code and target is listed. *)
Definition add_finding (seen : list string) (d : PreflightDiagnostic) : list string :=
  (pd_Code d +:+ ":" +:+ pd_Target d) :: seen.
Fixpoint distinct_findings (seen : list string) (l : list PreflightDiagnostic)
    : list PreflightDiagnostic :=
  match l with
  | [] => []
  | d :: l =>
      if mem_str (pd_Code d +:+ ":" +:+ pd_Target d) seen then distinct_findings seen l
      else d :: distinct_findings (add_finding seen d) l
  end.

Definition risk_codes : list string := ["risk_blocked"; "risk_review"; "risk_unknown"].

(** Step 1: the diagnostics of the snapshot. *)
Definition diagnostic_forbids (target : string) (d : Diagnostic) : bool :=
  let code := diag_Code d in
  if negb (String.eqb target TargetMihomo) && negb (String.eqb code "filtered_nodes_empty") &&
     negb (mem_str code risk_codes) then false
  else mem_str code risk_codes || String.eqb (diag_Severity d) DiagnosticSeverityError ||
       mem_str code ["empty_routed_group"; "required_nonempty"].

Definition snapshot_findings (target : string) (snap : ResolvedPolicySnapshot)
    : list PreflightDiagnostic :=
  map (λ d, {| pd_Severity := diag_Severity d; pd_Code := diag_Code d;
               pd_Message := diag_Message d; pd_Target := diag_Target d |})
    (List.filter (diagnostic_forbids target) (snap_Diagnostics snap)).

(** The policy the members are evaluated under: the snapshot's, if it is still
    active, or else the active one. *)
Definition current_policy (risk : RiskService) (snap : ResolvedPolicySnapshot)
    : option RiskPolicyRevision :=
  let ok r := match r with Ok p => Some p | Err _ => None end in
  let own := if String.eqb (snap_RiskPolicyRevision snap) "" then None
             else ok (rs_GetPolicy risk (snap_RiskPolicyRevision snap)) in
  let candidate := match own with
                   | Some p => if rev_Active p then Some p else ok (rs_GetActivePolicy risk)
                   | None => ok (rs_GetActivePolicy risk)
                   end in
  match candidate with
  | Some p => if rev_Active p then Some p else None
  | None => None
  end.

(** The nodes that are evaluated, sorted and without duplicates. *)
Definition evaluated_nodes (target : string) (snap : ResolvedPolicySnapshot) : list string :=
  let ids :=
    map rn_LogicalID (snap_Nodes snap) ++
    (if String.eqb target TargetMihomo then
       flat_map (λ g, rg_NodeLogicalIDs g ++ rg_AllNodeLogicalIDs g) (snap_Groups snap)
     else []) in
  sort_strings (elements (list_to_set (List.filter IsValidLogicalID ids) : gset string)).

Definition decision_finding (p : RiskPolicy) (d : RiskDecision) : list PreflightDiagnostic :=
  let node := dec_NodeLogicalID d in
  let finding severity code text :=
    [{| pd_Severity := severity; pd_Code := code;
        pd_Message := "node " +:+ node +:+ text +:+ dec_ReasonCode d; pd_Target := node |}] in
  if String.eqb (dec_Decision d) RiskActionBlock then
    finding DiagnosticSeverityError "risk_blocked" " was blocked by risk policy: "
  else if String.eqb (dec_Decision d) RiskActionReview then
    if String.eqb (EffectiveReviewAction p) RiskActionAllow then []
    else finding DiagnosticSeverityWarning "risk_review"
           " requires risk review and cannot be published: "
  else if String.eqb (dec_Decision d) RiskActionUnknown then
    if String.eqb (EffectiveUnknownAction p) RiskActionAllow then []
    else finding DiagnosticSeverityWarning "risk_unknown"
           " has unknown risk and cannot be published: "
  else [].

(** Step 2: the decisions of today; an evaluation that fails finds nothing. *)
Definition risk_findings (risk : option RiskService) (now : time) (target : string)
    (snap : ResolvedPolicySnapshot) : list PreflightDiagnostic :=
  match risk with
  | None => []
  | Some risk =>
      match current_policy risk snap with
      | None => []
      | Some policy =>
          let ids := evaluated_nodes target snap in
          if length ids =? 0 then []
          else match rs_EvaluateBatch risk ids policy now with
               | Ok batch => flat_map (decision_finding (rev_Policy policy)) (rb_Decisions batch)
               | Err _ => []
               end
      end
  end.

Section Preflight.
Context `{GoText} `{Backend}.

Definition capability_findings (target : string) (snap : ResolvedPolicySnapshot)
    : list PreflightDiagnostic :=
  if String.eqb target TargetMihomo then
    map (λ cd, {| pd_Severity := DiagnosticSeverityError; pd_Code := cd_Code cd;
                  pd_Message := cd_Message cd; pd_Target := cd_Target cd |})
      (ValidateTargetCapabilities snap target)
  else [].

Definition evaluatePreflight (risk : option RiskService) (now : time)
    (snap : ResolvedPolicySnapshot) (target : string) : PreflightResult :=
  let findings := snapshot_findings target snap ++ capability_findings target snap ++
                  risk_findings risk now target snap in
  {| pf_Allowed := length findings =? 0;
     pf_Diagnostics := distinct_findings [] findings;
     pf_PolicyRevision :=
       if String.eqb (snap_RiskPolicyRevision snap) "" then
         match risk with
         | Some r => match current_policy r snap with
                     | Some p => pol_RevisionID (rev_Policy p) | None => "" end
         | None => ""
         end
       else snap_RiskPolicyRevision snap;
     pf_SnapshotDigest := snap_SnapshotDigest snap |}.
End Preflight.

(** ** What the risk service promises *)

(** An evaluated batch decides every requested node, under the policy asked for. *)
Class RiskPromise (risk : RiskService) : Prop := {
  promise_decided : ∀ ids p at_ batch x,
    rs_EvaluateBatch risk ids p at_ = Ok batch → x ∈ ids →
    ∃ d, d ∈ rb_Decisions batch ∧ dec_NodeLogicalID d = x;
  promise_revision : ∀ ids p at_ batch d,
    rs_EvaluateBatch risk ids p at_ = Ok batch → d ∈ rb_Decisions batch →
    dec_PolicyRevisionID d = pol_RevisionID (rev_Policy p)
}.

Section Implementation.
Context `{GoText} `{TextScanner} `{Sha256} `{RowOrder}.
Context (sort_bands : list ScoreBand → list ScoreBand) (cfg : RiskServiceConfig).
Context (decision_digest : BatchResult → string).

(** The risk service over its tables.  [EvaluateBatch] does not panic
    ([batch_returns]). *)
Definition risk_service (env : Env) (tables : RiskTables) (repos : RiskRepositories)
    : RiskService :=
  {| rs_GetPolicy := λ id, (GetPolicy cfg env id tables).1;
     rs_GetActivePolicy := (GetActivePolicy cfg env tables).1;
     rs_EvaluateBatch := λ ids p at_,
       match EvaluateBatch (env_now env) sort_bands repos ids ∅ (Some (rev_Policy p))
               (pol_RevisionID (rev_Policy p)) at_ [] with
       | None => Err (driver_error "unreachable")
       | Some (Err e) => Err (domain_error e)
       | Some (Ok b) => Ok {| rb_Decisions := batch_Decisions b;
                              rb_DecisionDigest := decision_digest b;
                              rb_EvaluatedAt := if IsZero at_ then env_now env else at_ |}
       end |}.

#[global] Instance risk_service_promise env tables repos :
  RiskPromise (risk_service env tables repos).
Proof.
  split; intros ids p at_ batch; simpl.
  - intros x. destruct (EvaluateBatch _ _ _ _ _ _ _ _ _) as [[b|]|] eqn:Hb; [|done..].
    intros [= <-] Hx. apply batch_decides in Hb as [Hd _]. by apply Hd.
  - intros d. destruct (EvaluateBatch _ _ _ _ _ _ _ _ _) as [[b|]|] eqn:Hb; [|done..].
    intros [= <-]. apply batch_decides in Hb as [_ Hd]. apply Hd.
Qed.
End Implementation.

(** ** What is exported has passed the risk policy *)

Section Exported.
Context `{GoText} `{RegexEngine} `{Sha256} `{Digests}.

(** The resolver's input, whatever the target. *)
Lemma resolved_input repos now later revisionID target snap :
  resolveTargetSnapshot repos false now later revisionID target = Ok snap →
  ∃ input input' snap0, assembleResolveInput repos now revisionID (String.eqb target TargetMihomo)
      = Ok input ∧
    Resolve false now later input' = Some (Ok snap0) ∧
    in_Nodes input' = in_Nodes input ∧
    in_RiskPolicyRevision input' = in_RiskPolicyRevision input ∧
    in_RiskDecisions input' = in_RiskDecisions input ∧
    in_RiskReviewAction input' = in_RiskReviewAction input ∧
    ∀ id, shows_node snap id ↔ shows_node snap0 id.
Proof.
  unfold resolveTargetSnapshot. intros (input & Hi & Hr)%let_ok. exists input.
  set (input' := if String.eqb target TargetMihomo then input else without_graph input) in *.
  exists input'. destruct (Resolve false now later input') as [[snap0|]|] eqn:Hres; [|done..].
  exists snap0. split; [done|]. split; [done|].
  do 4 (split; [by subst input'; destruct (String.eqb target TargetMihomo)|]).
  destruct (filters_left_nothing _ _); injection Hr as <-; done.
Qed.

(** What assembling puts into the input when a risk policy is active. *)
Lemma assembled_risk repos risk policy now revisionID graph input :
  assembleResolveInput repos now revisionID graph = Ok input →
  sr_Risk repos = Some risk → rs_GetActivePolicy risk = Ok policy → rev_Active policy = true →
  ∃ nodes batch, sr_ListNodes repos = Ok nodes ∧ in_Nodes input = nodes ∧
    rs_EvaluateBatch risk (map node_LogicalID nodes) policy now = Ok batch ∧
    in_RiskPolicyRevision input = pol_RevisionID (rev_Policy policy) ∧
    in_RiskDecisions input = rb_Decisions batch ∧
    in_RiskReviewAction input = EffectiveReviewAction (rev_Policy policy).
Proof.
  intros Ha Hrisk Hp Hact. unfold assembleResolveInput in Ha. destruct (negb _); [done|].
  split_ok Ha. injection Ha as <-. unfold risk_input in *.
  match goal with Hr : match sr_Risk repos with _ => _ end = Ok _ |- _ =>
    rewrite Hrisk, Hp, Hact in Hr; simpl in Hr;
    destruct (rs_EvaluateBatch risk _ policy now) as [batch|] eqn:Hb; [|done];
    injection Hr as <- end.
  by eexists _, batch.
Qed.

Lemma referred_in_inventory now later raw snap id :
  Resolve false now later raw = Some (Ok snap) → shows_node snap id →
  id ∈ map node_LogicalID (in_Nodes raw).
Proof.
  intros Hr (n & Hin & <- & _)%(shown_selected now later raw snap id Hr).
  apply list_elem_of_fmap. by exists n.
Qed.

(** C5. Nothing is exported against the active risk policy: when a snapshot is
    resolved for any target while a policy revision is active, the risk service has
    evaluated the whole inventory under that revision, and every node the snapshot
    refers to, in the node list that renderers read, in its list of IDs, in the node
    lists of a group or as a member of one, has a decision, and no decision about it
    blocks it, is unknown, or asks for a review the policy does not waive.  (If
    the policy or the evaluation cannot be read there is no snapshot at all.) *)
Theorem exported_nodes_pass_risk_policy repos risk policy now later revisionID target snap :
  RiskPromise risk →
  resolveTargetSnapshot repos false now later revisionID target = Ok snap →
  sr_Risk repos = Some risk → rs_GetActivePolicy risk = Ok policy → rev_Active policy = true →
  pol_RevisionID (rev_Policy policy) ≠ "" →
  ∃ nodes batch, sr_ListNodes repos = Ok nodes ∧
    rs_EvaluateBatch risk (map node_LogicalID nodes) policy now = Ok batch ∧
    ∀ id, shows_node snap id →
      (∃ d, d ∈ rb_Decisions batch ∧ dec_NodeLogicalID d = id) ∧
      ∀ d, d ∈ rb_Decisions batch → dec_NodeLogicalID d = id →
        risk_excludes (dec_Decision d) (EffectiveReviewAction (rev_Policy policy)) = false.
Proof.
  intros Hpromise Hres Hrisk Hp Hact Hrev.
  apply resolved_input in Hres as
    (input & input' & snap0 & Ha & Hr & Hn & Hrr & Hd & Hra & Hrefs).
  destruct (assembled_risk _ _ _ _ _ _ _ Ha Hrisk Hp Hact)
    as (nodes & batch & Hl & Hin & Hb & Hir & Hid & Hia).
  exists nodes, batch. split; [done|]. split; [done|]. intros id Hex.
  apply Hrefs in Hex. split.
  - eapply promise_decided; [done|]. rewrite <- Hin, <- Hn.
    by eapply referred_in_inventory.
  - intros d Hdin <-. apply not_true_is_false. unfold risk_excludes.
    rewrite !orb_true_iff, andb_true_iff, negb_true_iff, !String.eqb_eq, String.eqb_neq. intros Hexc.
    revert Hex. apply (excluded_not_published now later input'); [| | |by rewrite Hra, Hia; naive_solver|done].
    + by rewrite Hrr, Hir.
    + by rewrite Hd, Hid.
    + rewrite Hrr, Hir. by eapply promise_revision.
Qed.
End Exported.

(** ** What an allowed preflight means *)

(** The decision does not stand in the way of a publication under the policy. *)
Definition publishable (p : RiskPolicy) (d : RiskDecision) : Prop :=
  dec_Decision d ≠ RiskActionBlock ∧
  (dec_Decision d = RiskActionReview → EffectiveReviewAction p = RiskActionAllow) ∧
  (dec_Decision d = RiskActionUnknown → EffectiveUnknownAction p = RiskActionAllow).

Lemma decision_finding_nil p d : decision_finding p d = [] ↔ publishable p d.
Proof.
  unfold decision_finding, publishable.
  destruct (String.eqb_spec (dec_Decision d) RiskActionBlock) as [Hb|Hb]; [naive_solver|].
  destruct (String.eqb_spec (dec_Decision d) RiskActionReview) as [Hr|Hr].
  { assert (dec_Decision d ≠ RiskActionUnknown) by (by rewrite Hr).
    destruct (String.eqb_spec (EffectiveReviewAction p) RiskActionAllow); naive_solver. }
  destruct (String.eqb_spec (dec_Decision d) RiskActionUnknown) as [Hu|Hu]; [|naive_solver].
  destruct (String.eqb_spec (EffectiveUnknownAction p) RiskActionAllow); naive_solver.
Qed.

Lemma distinct_findings_nil l : distinct_findings [] l = [] ↔ l = [].
Proof. by destruct l. Qed.

Lemma evaluated_nodes_elem target snap id :
  id ∈ map rn_LogicalID (snap_Nodes snap) → IsValidLogicalID id = true →
  id ∈ evaluated_nodes target snap.
Proof.
  intros Hin Hv. unfold evaluated_nodes. apply elem_of_sort_strings, elem_of_elements,
    elem_of_list_to_set, list_elem_of_In, filter_In. split; [|done].
  apply in_app_iff. left. by apply list_elem_of_In.
Qed.

Lemma risk_findings_nil risk rs policy batch now target snap :
  risk = Some rs → current_policy rs snap = Some policy →
  rs_EvaluateBatch rs (evaluated_nodes target snap) policy now = Ok batch →
  evaluated_nodes target snap ≠ [] → risk_findings risk now target snap = [] →
  ∀ d, d ∈ rb_Decisions batch → publishable (rev_Policy policy) d.
Proof.
  intros -> Hp Hb Hne. unfold risk_findings. rewrite Hp, Hb.
  destruct (evaluated_nodes target snap); [done|]. simpl. rewrite flat_map_none.
  intros Hall d Hd. apply decision_finding_nil. by apply Hall.
Qed.

(** C11. An allowed preflight is free of findings, and a rejected one names its reason.
    When it is allowed, no diagnostic of the snapshot forbids publication, the
    Mihomo target has no capability finding, and, when the risk service evaluates
    the snapshot's members under the policy in force, every node of the snapshot
    whose logical ID is well-formed has a decision, and no decision about it blocks
    it, or leaves it to a review or unknown without the policy allowing that.  (A
    node whose ID is not well-formed is not sent to the risk service.) *)
Theorem preflight_verdict `{GoText} `{Backend} (risk : option RiskService) (now : time)
    (snap : ResolvedPolicySnapshot) (target : string) :
  let r := evaluatePreflight risk now snap target in
  (pf_Allowed r = true ↔ pf_Diagnostics r = []) ∧
  (pf_Allowed r = true →
   (∀ d, d ∈ snap_Diagnostics snap → diagnostic_forbids target d = false) ∧
   (target = TargetMihomo → ValidateTargetCapabilities snap target = []) ∧
   ∀ rs policy batch id, risk = Some rs → RiskPromise rs →
     current_policy rs snap = Some policy →
     rs_EvaluateBatch rs (evaluated_nodes target snap) policy now = Ok batch →
     id ∈ map rn_LogicalID (snap_Nodes snap) → IsValidLogicalID id = true →
     (∃ d, d ∈ rb_Decisions batch ∧ dec_NodeLogicalID d = id) ∧
     ∀ d, d ∈ rb_Decisions batch → dec_NodeLogicalID d = id → publishable (rev_Policy policy) d).
Proof.
  intros r. subst r. unfold evaluatePreflight. cbn [pf_Allowed pf_Diagnostics].
  rewrite distinct_findings_nil, Nat.eqb_eq, <- length_zero_iff_nil. split; [done|].
  rewrite length_zero_iff_nil, !app_nil. intros (Hs & Hc & Hr). split; [|split].
  - unfold snapshot_findings in Hs. rewrite map_none, filter_none in Hs. done.
  - intros ->. unfold capability_findings in Hc. by rewrite String.eqb_refl, map_none in Hc.
  - intros rs policy batch id Hrisk Hpr Hp Hb Hid Hv.
    pose proof (evaluated_nodes_elem target snap id Hid Hv) as Hin. split.
    + by eapply promise_decided.
    + intros d Hd _. eapply risk_findings_nil; [done..| |done|done].
      intros Hnil. rewrite Hnil in Hin. by apply elem_of_nil in Hin.
Qed.

(** The preflight does not notice that it could not evaluate: when the batch
    fails, or no policy can be read, it finds nothing, so a node the policy blocks
    passes.  [resolveTargetSnapshot] refuses in the same situation. *)
Theorem preflight_ignores_failed_evaluation `{GoText} `{Backend} (rs : RiskService) (now : time)
    (snap : ResolvedPolicySnapshot) (target : string) :
  (∀ ids p at_, is_ok (rs_EvaluateBatch rs ids p at_) = false) →
  evaluatePreflight (Some rs) now snap target =
  {| pf_Allowed := pf_Allowed (evaluatePreflight None now snap target);
     pf_Diagnostics := pf_Diagnostics (evaluatePreflight None now snap target);
     pf_PolicyRevision := pf_PolicyRevision (evaluatePreflight (Some rs) now snap target);
     pf_SnapshotDigest := snap_SnapshotDigest snap |}.
Proof.
  intros Hfail. unfold evaluatePreflight. cbn [pf_Allowed pf_Diagnostics pf_PolicyRevision].
  assert (risk_findings (Some rs) now target snap = risk_findings None now target snap) as ->; [|done].
  simpl. destruct (current_policy rs snap) as [p|]; [|done].
  destruct (length _ =? 0); [done|]. specialize (Hfail (evaluated_nodes target snap) p now).
  by destruct (rs_EvaluateBatch _ _ _ _).
Qed.

(** ** Instances *)

Definition audited_risk : RiskService :=
  risk_service (H := ascii_text) (H0 := sample_scanner) (H2 := stored_order)
    (sort_stable (less_Z band_Min)) sample_service (λ _, "sha256:d") sample_env bound_and_active
    {| repo_List := Some (λ node, Ok (if String.eqb node sample_node
         then [sample_risk_observation "a" (env_now sample_env - 10)%Z 77%Z] else []));
       repo_Policies := None |}.

(** An inventory of two nodes: the first is blocked for its score, the second has
    no evidence, which the policy leaves to a review it waives. *)
Definition two_node_repos : SnapshotRepos :=
  {| sr_configured := true;
     sr_GetRevision := λ id, Ok (Some {| cr_ID := id; cr_State := "active" |});
     sr_GetActiveRevision := Ok (Some {| cr_ID := "r1"; cr_State := "active" |});
     sr_ListGroups := Ok []; sr_GetPolicySnapshot := None;
     sr_ListPolicyRules := λ _, Ok []; sr_ListAdmissionRules := λ _, Ok [];
     sr_ListNodes := Ok [sample_named_node sample_node "SG 01"; node_us];
     sr_GetGlobalFilter := None; sr_ListSources := None; sr_ListLatest := None;
     sr_Risk := Some audited_risk |}.

Definition two_node_snapshot : result error ResolvedPolicySnapshot :=
  resolveTargetSnapshot (H := ascii_text) (H0 := witness_engine) (H1 := sample_sha)
    (H2 := sample_digests) two_node_repos false (env_now sample_env) (env_now sample_env) ""
    TargetSurge.

Definition active_revision : option RiskPolicyRevision :=
  match rs_GetActivePolicy audited_risk with Ok p => Some p | Err _ => None end.

Lemma two_node_snapshot_nodes :
  match two_node_snapshot, active_revision with
  | Ok s, Some p => (snap_NodeLogicalIDs s, rev_Active p, pol_RevisionID (rev_Policy p))
  | _, _ => ([], false, "")
  end = ([node_LogicalID node_us], true, "01890a5d-ac96-774b-bcce-b302099a8057").
Proof. vm_compute. reflexivity. Qed.

Lemma exported_nodes_pass_risk_policy_witness :
  match two_node_snapshot with
  | Ok snap => snap_NodeLogicalIDs snap = [node_LogicalID node_us] ∧
      ∃ batch d, rs_EvaluateBatch audited_risk [sample_node; node_LogicalID node_us] (default
          {| rev_Policy := sample_risk_policy "" "" []; rev_RulesDigest := "";
             rev_Active := false; rev_CreatedAt := 0; rev_ActivatedAt := None;
             rev_DeactivatedAt := None |} active_revision) (env_now sample_env) = Ok batch ∧
        d ∈ rb_Decisions batch ∧ dec_NodeLogicalID d = node_LogicalID node_us
  | Err _ => False
  end.
Proof.
  pose proof two_node_snapshot_nodes as Hs. unfold active_revision in *.
  destruct two_node_snapshot as [snap|] eqn:Hres; [|discriminate].
  destruct (rs_GetActivePolicy audited_risk) as [p|] eqn:Hp; [|discriminate].
  injection Hs as Hn Ha Hr. split; [exact Hn|].
  destruct (exported_nodes_pass_risk_policy (H := ascii_text) (H0 := witness_engine)
    (H1 := sample_sha) (H2 := sample_digests) two_node_repos audited_risk p _ _ "" TargetSurge snap
    (risk_service_promise _ _ _ _ _ _) Hres eq_refl Hp Ha) as (nodes & batch & [= <-] & Hb & Hall).
  { rewrite Hr. discriminate. }
  destruct (Hall (node_LogicalID node_us)) as [(d & Hd & Hid) _].
  { right; left. rewrite Hn. apply list_elem_of_here. }
  exists batch, d. split; [exact Hb|]. split; [exact Hd | exact Hid].
Defined.
