(* ===== verification/PolicyResolution.v ===== *)
(** * What is administered can be resolved

    The preflight reads the policy through [SnapshotRepos]; here that interface is
    implemented by the tables that the policy service and the revision service write.
    Whatever requests ran, one after the other, the resolver accepts the active policy.
    The mutexes of the two services do not exclude each other, and a rollback that
    overtakes an edit of edges can leave a policy that the resolver rejects. *)

From S2P Require Import Prelude.
From S2P Require Import GoStrings.
From S2P Require Import Domain.
From S2P Require Import Lifecycle.
From S2P Require Import NodeFilter.
From S2P Require Import Policy.
From S2P Require Import Risk.
From S2P Require Import RiskEval.
From S2P Require Import Admission.
From S2P Require Import Groups.
From S2P Require Import ResolveGroups.
From S2P Require Import Resolver.
From S2P Require Import Preflight.
From S2P Require Import Services.
From S2P Require Import Requests.
From S2P Require Import PolicyStore.
From S2P Require Import PolicyService.
From S2P Require Import PolicySamples.
From S2P Require Import PolicyInvariant.
From S2P Require Import PolicyGraphProperties.

#[local] Existing Instance no_history.

(** ** The repositories over the tables *)

Section Repos.
Context `{GoText} `{RegexEngine} `{Sha256} `{ConfigJSON} `{TableOrder} `{Digests}.

Definition answer {A B} (f : A → B) (c : M PolicyTables A) (s : PolicyTables) : result error B :=
  match (c s).1 with Ok a => Ok (f a) | Err e => Err e end.

Definition revision_view (r : RevisionRow) : option ConfigurationRevision :=
  Some {| cr_ID := rv_ID r; cr_State := rv_State r |}.

(** Nodes, observations and risk come from [base]; the policy from the tables. *)
Definition policy_repos (base : SnapshotRepos) (env : PolEnv) (s : PolicyTables) : SnapshotRepos :=
  {| sr_configured := sr_configured base;
     sr_GetRevision id := answer revision_view (revision_GetByID env id) s;
     sr_GetActiveRevision := answer revision_view (revision_GetActive env) s;
     sr_ListGroups := answer (map sg_Group) (run (policies_ListGroups env)) s;
     sr_GetPolicySnapshot := Some (λ id, answer (map sg_Group) (revision_GetPolicySnapshot env id) s);
     sr_ListPolicyRules rev := answer id (policies_ListPolicyRules env rev) s;
     sr_ListAdmissionRules rev := answer id (policies_ListAdmissionRules env rev) s;
     sr_ListNodes := sr_ListNodes base;
     sr_GetGlobalFilter := Some (answer Some (filters_GetGlobalFilter env) s);
     sr_ListSources := sr_ListSources base; sr_ListLatest := sr_ListLatest base;
     sr_Risk := sr_Risk base |}.

Lemma answer_ok {A B} (f : A → B) c s b : answer f c s = Ok b ↔ ∃ a, (c s).1 = Ok a ∧ b = f a.
Proof. unfold answer. destruct (c s).1 as [a|e]; naive_solver. Qed.

Lemma answer_query {A B} (f : A → B) env label (g : PolicyTables → result error A) s b :
  answer f (query env label g) s = Ok b ↔ env_io env label = None ∧ ∃ a, g s = Ok a ∧ b = f a.
Proof. rewrite answer_ok. unfold query. destruct (env_io env label); naive_solver. Qed.

Lemma answer_list env s gs :
  keyed s → answer (map sg_Group) (run (policies_ListGroups env)) s = Ok gs → gs = map sg_Group (list_groups s).
Proof.
  intros Hk (l & Hl & ->)%answer_ok. f_equal. pose proof (quiet_list env s s Hk ltac:(done)) as Hq.
  unfold quiet, wp in Hq. destruct (run (policies_ListGroups env) s) as [r s']. simpl in *. subst r. apply Hq.
Qed.

(** ** The groups as the resolver gets them *)

Lemma index_lookup {B} (f : NodeGroup → B) groups (m : gmap string B) g :
  NoDup (map grp_ID groups) → g ∈ groups →
  fold_left (λ m g, <[grp_ID g := f g]> m) groups m !! grp_ID g = Some (f g).
Proof.
  revert m. induction groups as [|x l IH]; intros m; simpl; [by intros _ []%elem_of_nil|].
  intros [Hx Hnd]%NoDup_cons [->|Hg]%elem_of_cons; [|by apply IH].
  assert (∀ m' : gmap string B, m' !! grp_ID x = Some (f x) →
    fold_left (λ m g, <[grp_ID g := f g]> m) l m' !! grp_ID x = Some (f x)) as Hkeep.
  { clear IH Hnd m. revert Hx. induction l as [|y l IH]; simpl; [done|].
    intros [Hne Hx]%not_elem_of_cons m' Hm. apply IH; [done|]. by rewrite lookup_insert_ne. }
  apply Hkeep, lookup_insert_eq.
Qed.

Lemma index_own groups :
  NoDup (map grp_ID groups) → (∀ g, g ∈ groups → grp_NodeFilter g = None) →
  map (Resolver.own_sources (Some (index_groups grp_Sources groups))) groups = groups.
Proof.
  intros Hnd Hf. rewrite <- (map_id groups) at 3. apply map_ext_in. intros g Hg%list_elem_of_In.
  unfold Resolver.own_sources, index_groups. rewrite index_lookup by done. specialize (Hf g Hg).
  destruct g. simpl in *. by subst.
Qed.

Lemma listed_groups s :
  policy_inv s → NoDup (map grp_ID (map sg_Group (list_groups s))) ∧
  ∀ g, g ∈ map sg_Group (list_groups s) → grp_NodeFilter g = None.
Proof.
  intros Hi. split.
  - rewrite map_map. change (λ x, grp_ID (sg_Group x)) with group_id. unfold list_groups.
    rewrite sort_stable_perm, listed_ids by done. apply NoDup_fst_map_to_list.
  - intros g (x & -> & [id Hx]%elem_list_groups)%list_elem_of_fmap.
    by destruct (inv_rows _ Hi _ _ Hx) as (_ & [_ Hf _] & _).
Qed.

(** The parts of the input that come from the tables, for an active revision. *)
Lemma assembled_policy base env s now revisionID input :
  policy_inv s →
  (revisionID = "" ∨ ∃ r, pl_revisions s !! revisionID = Some r ∧ is_active r = true) →
  assembleResolveInput (policy_repos base env s) now revisionID true = Ok input →
  ∃ rev, in_Groups input = map sg_Group (list_groups s) ∧ in_PolicyRules input = rules_of s rev ∧
    in_GroupSources input = Some (index_groups grp_Sources (map sg_Group (list_groups s))) ∧
    (in_GlobalFilter input = None ∨ in_GlobalFilter input = Some (pl_filter s)).
Proof.
  intros Hi Hrev. unfold assembleResolveInput. destruct (negb _); [done|].
  destruct (select_revision _ revisionID) as [[rev sel]|] eqn:Hsel; [|done]. cbn [fst snd].
  destruct (select_groups _ true rev sel) as [groups|] eqn:Hg; [|done].
  destruct (sr_ListPolicyRules _ rev) as [rules|] eqn:Hr; [|done].
  destruct (sr_ListAdmissionRules _ rev); [|done]. destruct (sr_ListNodes _); [|done].
  destruct (configured_filter _) as [f|] eqn:Hf; [|done].
  destruct (filterDependencies f [] groups) as [b1 b2].
  destruct (needed _ _ "node_sources_unavailable" _); [|done].
  destruct (needed _ _ "probe_observations_unavailable" _); [|done].
  destruct (risk_input _ _ _); [|done]. intros [= <-]. exists rev. simpl.
  assert (groups = map sg_Group (list_groups s)) as ->.
  { revert Hg. unfold select_groups. cbn [negb].
    destruct (sr_ListGroups _) as [gs|] eqn:Hl; [|done].
    apply answer_list in Hl as ->; [|by apply inv_keyed].
    destruct sel as [row|]; [|by intros [= <-]]. cbn [sr_GetPolicySnapshot policy_repos].
    destruct (String.eqb_spec (cr_State row) RevisionStateActive) as [|Hne]; [by intros [= <-]|].
    exfalso. apply Hne. clear Hne. destruct Hrev as [->|(r & Hl & Ha)].
    - unfold select_revision in Hsel. simpl in Hsel. repeat case_match; simplify_eq.
    - unfold select_revision in Hsel. destruct (String.eqb revisionID ""); simpl in Hsel.
      { repeat case_match; simplify_eq. }
      unfold answer, revision_GetByID, query in Hsel. destruct (env_io _ _); simpl in Hsel.
      { repeat case_match; simplify_eq. }
      rewrite Hl in Hsel. simpl in Hsel. injection Hsel as <- <-. simpl.
      by apply String.eqb_eq in Ha. }
  split; [done|]. split.
  { apply answer_query in Hr as (_ & ? & [= <-] & ->). done. }
  split; [done|]. unfold configured_filter in Hf. simpl in Hf.
  destruct (answer Some _ s) as [spec|] eqn:Hs; [|done]. apply answer_query in Hs as (_ & ? & [= <-] & ->).
  destruct (NodeFilterSpec_IsEmpty (Some (pl_filter s))); injection Hf as <-; [by left|by right].
Qed.

(** C12. Whatever was administered can be resolved.  After any sequence of requests of
    the policy service and the revision service, served one after the other, the
    resolver rejects no input that is assembled from the stored policy for the active
    revision: it returns a snapshot, or fails to encode a digest.  The graph has no
    cycles, all references and rules have their targets, at most one rule is a MATCH
    rule and the global filter is valid. *)
Theorem administered_policy_resolves s base env now later revisionID input :
  policy_served s →
  (revisionID = "" ∨ ∃ r, pl_revisions s !! revisionID = Some r ∧ is_active r = true) →
  assembleResolveInput (policy_repos base env s) now revisionID true = Ok input →
  (∃ snap, Resolve false now later input = Some (Ok snap)) ∨
  (∃ m, Resolve false now later input = Some (Err (digest_failed m))).
Proof.
  intros Hs Hrev Ha. destruct (served_ok s Hs) as [Hi (_ & _ & Hf)].
  destruct (assembled_policy _ _ _ _ _ _ Hi Hrev Ha) as (rev & Hg & Hr & Hsrc & Hfilter).
  destruct (listed_groups s Hi) as [Hnd Hnf]. apply resolve_accepts. unfold validate_input. simpl.
  rewrite Hsrc, Hg, Hr, index_own by done. rewrite (served_topology s rev Hs). simpl.
  by destruct Hfilter as [->| ->]; [|rewrite Hf].
Qed.
End Repos.

(** ** Two requests at once *)

Section Race.
#[local] Existing Instance ascii_text.
#[local] Existing Instance witness_engine.
#[local] Existing Instance sample_sha.
#[local] Existing Instance sample_json.
#[local] Existing Instance sample_order.

(** The second group was a member of the first when the revision was made, and is
    none any more. *)
Definition race_history : list (policy_request + revision_request) :=
  [inl (PCreateGroup (group_command gid_a "A" [])); inl (PCreateGroup (group_command gid_b "B" []));
   inl (PSetGroupEdges gid_a [member gid_b]); inr (VCreate None "draft");
   inl (PSetGroupEdges gid_a [])].
Definition handle_either (env : PolEnv) (r : policy_request + revision_request) : proc PolicyTables unit :=
  match r with inl r => policy_handle env r | inr r => revision_handle env r end.
Fixpoint serve_all (i : nat) (l : list (policy_request + revision_request)) (s : PolicyTables) : PolicyTables :=
  match l with
  | [] => s
  | r :: l => serve_all (S i) l (run (handle_either (sample_env (pretty i) 0) r) s).2
  end.

Lemma served_history i l s : policy_served s → policy_served (serve_all i l s).
Proof.
  revert i s. induction l as [|[r|r] l IH]; intros i s Hs; [done|..]; apply IH; by constructor.
Qed.

Definition race_start : system PolicyTables unit :=
  {| store := serve_all 0 race_history empty_policy;
     threads := [policy_handle (sample_env "x" 0) (PSetGroupEdges gid_b [member gid_a]);
                 revision_handle (sample_env "y" 0) (VRollback "3revision0"
                   (Some (<[gid_a := 3%Z]> {[gid_b := 1%Z]})))] |}.

Definition race_end : system PolicyTables unit :=
  schedule (replicate 5 0 ++ replicate 8 1 ++ replicate 16 0) race_start.

(** C16. The mutexes of the two services do not protect the graph.  From tables that a
    sequence of requests left, an edit of edges and a rollback run at once, one request
    of each service: the edit is validated, the rollback runs, and the edit is written
    over the restored graph, since [SetEdgesForGroup] reads the revision again.  Both
    succeed, and the stored groups refer to each other in a cycle: the check with which
    every resolution starts rejects them from then on. *)
Theorem racing_rollback_stores_cycle :
  policy_served (store race_start) ∧ sys_steps policy_started race_start race_end ∧
  threads race_end = [Done (Ok tt); Done (Ok tt)] ∧
  (∃ e, ValidatePolicyTopology (map sg_Group (list_groups (store race_end))) [] [] false = Some (Err e) ∧
     err_Code e = "cycle_detected" ∧ err_CyclePath e = [gid_a; gid_b; gid_a]).
Proof.
  split; [apply served_history, served_none|]. split; [apply schedule_steps|].
  split; [vm_compute; reflexivity|]. eexists. vm_compute. done.
Qed.

(** ** The sample policy *)

#[local] Existing Instance sample_digests.

Definition bare_repos : SnapshotRepos :=
  {| sr_configured := true; sr_GetRevision := λ _, Ok None; sr_GetActiveRevision := Ok None;
     sr_ListGroups := Ok []; sr_GetPolicySnapshot := None; sr_ListPolicyRules := λ _, Ok [];
     sr_ListAdmissionRules := λ _, Ok []; sr_ListNodes := Ok []; sr_GetGlobalFilter := None;
     sr_ListSources := None; sr_ListLatest := None; sr_Risk := None |}.
Definition sample_active : PolicyTables :=
  serve_all 0 (take 4 race_history ++ [inr (VActivate "3revision0")]) empty_policy.

Lemma administered_policy_resolves_witness :
  ∃ input, assembleResolveInput (policy_repos bare_repos (sample_env "z" 0) sample_active) 0 "" true = Ok input ∧
    length (in_Groups input) = 2 ∧
    ((∃ snap, Resolve false 0 0 input = Some (Ok snap)) ∨
     (∃ m, Resolve false 0 0 input = Some (Err (digest_failed m)))).
Proof.
  eexists. split; [vm_compute; reflexivity|]. split; [vm_compute; reflexivity|].
  apply (administered_policy_resolves sample_active bare_repos (sample_env "z" 0) 0 0 "").
  - apply served_history, served_none.
  - left. reflexivity.
  - vm_compute. reflexivity.
Defined.
End Race.
