(* ===== verification/Publication.v ===== *)
(** * Publications

    [internal/application/publication/service.go] and [types.go] over the tables of
    [internal/repository/sqlite/revisions.go] (publications) and [dataflow.go]
    (payload references), with [internal/domain/publication.go].

    Each call of a repository is one statement, and requests interleave between
    statements ([Requests]); the service itself takes no lock.  What a request reads
    from the other tables is part of its [PubEnv].  Errors are kept up to what
    [errors.As] sees: a [PreflightError] unwraps to its conflict error, a
    [StrictCapabilityError] to its validation error, and the sentinel errors of
    [types.go] are their messages.  A panic of [MustNewUUIDv7] ends the request. *)

From S2P Require Import Prelude.
From S2P Require Import GoStrings.
From S2P Require Import Domain.
From S2P Require Import Lifecycle.
From S2P Require Import NodeFilter.
From S2P Require Import Policy.
From S2P Require Import Risk.
From S2P Require Import Services.
From S2P Require Import Requests.
From S2P Require Import Admission.
From S2P Require Import Groups.
From S2P Require Import ResolveGroups.
From S2P Require Import Resolver.
From S2P Require Import Prune.
From S2P Require Import Capabilities.
From S2P Require Import Compiler.
From S2P Require Import Preflight.

(** ** Data *)

Definition PublicationStateActive := "active".
Definition PublicationStateRevoked := "revoked".
Definition PublicationStateDraft := "draft".

Record Publication : Type := {
  pub_ID : string;
  pub_RevisionID : string;
  pub_Target : string;
  pub_SnapshotDigest : string;
  pub_ContentDigest : string;
  pub_ContentType : string;
  pub_Filename : string;
  pub_Content : string;
  pub_CompilerVersion : string;
  pub_TokenHash : string;
  pub_State : string;
  pub_CreatedAt : time;
  pub_RevokedAt : option time
}.

Definition with_state (state token : string) (revoked : option time) (p : Publication)
    : Publication :=
  {| pub_ID := pub_ID p; pub_RevisionID := pub_RevisionID p; pub_Target := pub_Target p;
     pub_SnapshotDigest := pub_SnapshotDigest p; pub_ContentDigest := pub_ContentDigest p;
     pub_ContentType := pub_ContentType p; pub_Filename := pub_Filename p;
     pub_Content := pub_Content p; pub_CompilerVersion := pub_CompilerVersion p;
     pub_TokenHash := token; pub_State := state; pub_CreatedAt := pub_CreatedAt p;
     pub_RevokedAt := revoked |}.

Definition Publication_IsActive (p : Publication) : bool :=
  String.eqb (pub_State p) PublicationStateActive.
Definition Publication_Revoke (p : Publication) (now : time) : result DomainError Publication :=
  reject_if (String.eqb (pub_State p) PublicationStateRevoked) (NewConflictError "already_revoked") ;;?
  Ok (with_state PublicationStateRevoked (pub_TokenHash p) (Some now) p).

(** ** Tables *)

Record PubTables : Type := {
  pt_rows : gmap string Publication;
  pt_refs : gset (string * string);
  pt_trail : list AuditEvent
}.
Definition with_rows (rows : gmap string Publication) (s : PubTables) : PubTables :=
  {| pt_rows := rows; pt_refs := pt_refs s; pt_trail := pt_trail s |}.

#[export] Instance pub_audited : Audited PubTables := {
  trail := pt_trail;
  with_trail t s := {| pt_rows := pt_rows s; pt_refs := pt_refs s; pt_trail := t |}
}.

Definition publication_not_found : error := domain_error (NewNotFoundError "publication_not_found").
Definition unique_violation : error := driver_error "UNIQUE constraint failed".

(** The rows with a token hash; the column is unique. *)
Definition with_token (hash : string) (s : PubTables) : list (string * Publication) :=
  List.filter (λ kv, String.eqb (pub_TokenHash kv.2) hash) (map_to_list (pt_rows s)).

Section Repository.
Context (env : Env).

Definition publications_GetByID (id : string) : M PubTables Publication :=
  query env "publications.GetByID" (λ s,
    match pt_rows s !! id with Some p => Ok p | None => Err publication_not_found end).

Definition publications_GetByTokenHash (hash : string) : M PubTables Publication :=
  query env "publications.GetByTokenHash" (λ s,
    match with_token hash s with (_, p) :: _ => Ok p | [] => Err publication_not_found end).

(** Times are stored in whole seconds. *)
Definition stored (p : Publication) : Publication :=
  {| pub_ID := pub_ID p; pub_RevisionID := pub_RevisionID p; pub_Target := pub_Target p;
     pub_SnapshotDigest := pub_SnapshotDigest p; pub_ContentDigest := pub_ContentDigest p;
     pub_ContentType := pub_ContentType p; pub_Filename := pub_Filename p;
     pub_Content := pub_Content p; pub_CompilerVersion := pub_CompilerVersion p;
     pub_TokenHash := pub_TokenHash p; pub_State := pub_State p;
     pub_CreatedAt := rfc3339 (if IsZero (pub_CreatedAt p) then env_now env else pub_CreatedAt p);
     pub_RevokedAt := match pub_RevokedAt p with
                      | Some t => if IsZero t then None else Some (rfc3339 t)
                      | None => None
                      end |}.

Definition publications_Create (p : Publication) : M PubTables unit :=
  statement env "publications.Create" (λ s,
    if bool_decide (is_Some (pt_rows s !! pub_ID p)) ||
       negb (length (with_token (pub_TokenHash p) s) =? 0)
    then Err unique_violation
    else Ok (tt, with_rows (<[pub_ID p := stored p]> (pt_rows s)) s)).

Definition publications_Revoke (id : string) (at_ : time) : M PubTables unit :=
  statement env "publications.Revoke" (λ s,
    match pt_rows s !! id with
    | None => Err publication_not_found
    | Some p =>
        let p' := with_state PublicationStateRevoked (pub_TokenHash p) (Some (rfc3339 at_)) p in
        Ok (tt, with_rows (<[id := p']> (pt_rows s)) s)
    end).

Definition publications_Activate (id hash : string) : M PubTables unit :=
  statement env "publications.Activate" (λ s,
    match pt_rows s !! id with
    | None => Err publication_not_found
    | Some p =>
        if existsb (λ kv, negb (String.eqb kv.1 id)) (with_token hash s)
        then Err unique_violation
        else
          let p' := with_state PublicationStateActive hash (pub_RevokedAt p) p in
          Ok (tt, with_rows (<[id := p']> (pt_rows s)) s)
    end).

Definition payload_refs_AddRefs (id : string) (payloads : list string) : M PubTables unit :=
  if length payloads =? 0 then ret tt
  else statement env "payload_refs.AddRefs" (λ s,
    let new := map (λ p, (id, TrimSpace p)) (List.filter (λ p, negb (blank p)) payloads) in
    Ok (tt, {| pt_rows := pt_rows s; pt_refs := list_to_set new ∪ pt_refs s;
               pt_trail := pt_trail s |})).
End Repository.

(** ** Requests *)

(** What a request takes from outside, besides [Env]: whether its context has ended,
    a second reading of the clock, 32 random bytes ([None]: no entropy), the other
    repositories, and the payloads of nodes ([None]: not configured). *)
Record PubEnv : Type := {
  pe_env : Env;
  pe_done : bool;
  pe_later : time;
  pe_random : option (list Z);
  pe_repos : SnapshotRepos;
  pe_payloads : option (list (string * Z) → result error (list string))
}.

Record PreviewQuery : Type := {
  pq_Target : string;
  pq_RevisionID : string;
  pq_CompatMode : string;
  pq_Prune : bool;
  pq_Omit : bool;
  pq_Snapshot : option ResolvedPolicySnapshot
}.

Record PublishCommand : Type := {
  pc_Target : string;
  pc_SnapshotID : string;
  pc_RevisionID : string;
  pc_Prune : bool;
  pc_Omit : bool;
  pc_Snapshot : option ResolvedPolicySnapshot
}.

Record PublicationManifest : Type := {
  man_NodeCount : nat;
  man_ExcludedCount : nat;
  man_PayloadIDs : list string;
  man_ConfigurationRevision : string;
  man_RulesDigest : string;
  man_Included : list (string * Z);
  man_Excluded : list ManifestExcludedNode
}.

Record PreviewResult : Type := {
  pr_SnapshotID : string;
  pr_Target : string;
  pr_SnapshotDigest : string;
  pr_ContentDigest : string;
  pr_Content : string;
  pr_ContentType : string;
  pr_Filename : string;
  pr_Manifest : PublicationManifest;
  pr_Diagnostics : list Diagnostic;
  pr_FilterCounts : FilterLayerCounts
}.

(** The other fields of the Go structs repeat those of the publication. *)
Record PublishResult : Type := {
  pub_Publication : Publication; pub_RawToken : string; pub_ExportURL : string
}.

Record Artifact : Type := {
  art_PublicationID : string;
  art_Target : string;
  art_Content : string;
  art_ContentType : string;
  art_Filename : string;
  art_ContentDigest : string;
  art_SnapshotDigest : string
}.

Record PublicationDetail : Type := { det_Publication : Publication; det_ExportURL : string }.

Definition ErrNotFound : error := driver_error "publication not found".
Definition ErrRevoked : error := driver_error "publication has been revoked".
Definition ErrUnauthorized : error := driver_error "invalid or missing publication token".
Definition ErrUnsupportedTarget : error := driver_error "unsupported compiler target".
Definition preflight_rejected : DomainError := NewConflictError "publication_preflight_rejected".

Definition isValidTarget (target : string) : bool := mem_str target Targets.

(** ** Content checks *)

(** The part of a Mihomo document that is checked, as the YAML decoder gives it:
    the names of its groups with their members and providers, and its rules. *)
Record MihomoDoc : Type := {
  doc_Groups : list (string * list string * list string);
  doc_Rules : list string
}.
Class Documents := {
  yaml_Unmarshal : string → option MihomoDoc;
  json_Unmarshal_ok : string → bool
}.

Section Content.
Context `{GoText} `{Documents}.

Definition extractMihomoRuleTarget (rule : string) : string :=
  let parts := Split (byte_of 44) rule in
  match parts with
  | kind :: second :: _ =>
      if String.eqb (ToUpper (TrimSpace kind)) "MATCH" then TrimSpace second
      else
        let last := TrimSpace (List.last parts "") in
        if EqualFold last "no-resolve" then
          if 3 <=? length parts then TrimSpace (List.nth (length parts - 2) parts "") else ""
        else last
  | _ => ""
  end.

Definition rule_dangles (names : list string) (rule : string) : bool :=
  let target := extractMihomoRuleTarget rule in
  negb (mem_str target [""; "DIRECT"; "REJECT"; "REJECT-DROP"; "PASS"]) &&
  negb (mem_str target names).

Definition ValidatePublicationContent (content target : string) : result DomainError unit :=
  reject_if (String.eqb content "") (NewValidationError "snapshot_not_publishable") ;;?
  if String.eqb target TargetMihomo then
    match yaml_Unmarshal content with
    | None => Err (NewValidationError "invalid_publication_content")
    | Some doc =>
        let names := List.filter (λ n, negb (String.eqb n "")) (map (λ g, g.1.1) (doc_Groups doc)) in
        reject_if (existsb (λ g, (length g.1.2 =? 0) && (length g.2 =? 0)) (doc_Groups doc))
          (NewValidationError "required_nonempty") ;;?
        reject_if (existsb (rule_dangles names) (doc_Rules doc))
          (NewValidationError "dangling_rule_target")
    end
  else if String.eqb target TargetSingBox then
    reject_if (negb (json_Unmarshal_ok content)) (NewValidationError "invalid_publication_content")
  else Ok tt.
End Content.

(** ** The service *)

Section Service.
Context `{GoText} `{RegexEngine} `{Sha256} `{Digests} `{Backend} `{Documents}.

Definition hashToken (token : string) : string := hex_bytes (sha256_Sum256 token).

(** The raw token and its hash. *)
Definition generateExportToken (env : PubEnv) : result error (string * string) :=
  match pe_random env with
  | None => Err (driver_error "failed to generate crypto random bytes")
  | Some b => let raw := "pub_" +:+ hex_bytes b in Ok (raw, hashToken raw)
  end.

Definition compile_failure (e : compile_error) : error :=
  match e with
  | compile_cancelled => driver_error "context canceled"
  | capability_error c => domain_error (NewValidationError "unsupported_target_capability")
  | render_error m => driver_error m
  end.

(** The error itself, without the conversion. *)
Definition raw_failure (e : compile_error) : error :=
  match e with capability_error c => driver_error (CapabilityError_Error c) | _ => compile_failure e end.

Definition resolve_for (env : PubEnv) (given : option ResolvedPolicySnapshot)
    (revisionID target : string) : result error ResolvedPolicySnapshot :=
  match given with
  | Some snap => Ok snap
  | None => resolveTargetSnapshot (pe_repos env) (pe_done env) (env_now (pe_env env))
              (pe_later env) revisionID target
  end.

Definition prune_if (b : bool) (snap : ResolvedPolicySnapshot) : ResolvedPolicySnapshot :=
  if b then (PruneUnavailableOptionalGroups snap).1 else snap.

Definition preflight (env : PubEnv) (snap : ResolvedPolicySnapshot) (target : string)
    : PreflightResult :=
  evaluatePreflight (sr_Risk (pe_repos env)) (env_now (pe_env env)) snap target.

Definition recordAudit_create (env : PubEnv) (ok : bool) : proc PubTables unit :=
  step (recordAudit (pe_env env) "publication.create" ok).
(** [s.recordAudit(..., AuditResultFailure, ...); return nil, err] *)
Definition create_failed {A} (env : PubEnv) (e : error) : proc PubTables A :=
  recordAudit_create env false ;;@ stop e.

(** [Preflight] *)
Definition Preflight_request (env : PubEnv) (q : PreviewQuery) : proc PubTables PreflightResult :=
  refuse_if (negb (isValidTarget (pq_Target q))) (NewValidationError "unsupported_target") ;;@
  let@ snap := Done (resolve_for env (pq_Snapshot q) (pq_RevisionID q) (pq_Target q)) in
  let snap := prune_if (pq_Prune q || pq_Omit q) snap in
  let r := preflight env snap (pq_Target q) in
  if pf_Allowed r then
    match Compile (pe_done env) snap (pq_Target q) with
    | Ok _ => give r
    | Err e => stop (compile_failure e)
    end
  else give r.

Definition included_nodes (snap : ResolvedPolicySnapshot) : list (string * Z) :=
  map (λ n, (rn_LogicalID n, rn_ConnectionRevision n)) (snap_Nodes snap).
Definition payloads_of (env : PubEnv) (included : list (string * Z)) : list string :=
  match pe_payloads env with
  | Some f => if length included =? 0 then []
              else match f included with Ok l => l | Err _ => [] end
  | None => []
  end.

Definition new_snapshot_id (env : PubEnv) : proc PubTables string :=
  match env_uuid (pe_env env) with
  | Some u => give ("snapshot_" +:+ u)
  | None => stop (driver_error "panic: failed to read random bytes")
  end.

(** The draft row of a snapshot; [res] is [None] when it could not be compiled. *)
Definition draft (env : PubEnv) (id prefix revID target : string) (snap : ResolvedPolicySnapshot)
    (res : option Result) : Publication :=
  let field f := match res with Some r => f r | None => "" end in
  {| pub_ID := id; pub_RevisionID := revID; pub_Target := target;
     pub_SnapshotDigest := snap_SnapshotDigest snap; pub_ContentDigest := field res_ContentDigest;
     pub_ContentType := field res_ContentType; pub_Filename := field res_Filename;
     pub_Content := field res_Content;
     pub_CompilerVersion := if String.eqb (snap_CompilerVersion snap) "" then "1.0.0"
                            else snap_CompilerVersion snap;
     pub_TokenHash := prefix +:+ id; pub_State := PublicationStateDraft;
     pub_CreatedAt := env_now (pe_env env); pub_RevokedAt := None |}.

Definition legacy_warning : Diagnostic :=
  mk_diag DiagnosticSeverityWarning "legacy_payload_unreferenced"
    "included nodes have no raw subscription payload reference (legacy or synthetic nodes)" "".

Definition preview_result (id revID target : string) (snap : ResolvedPolicySnapshot)
    (excludedCount : nat) (excluded : list ManifestExcludedNode) (payloads : list string)
    (res : Result) : PreviewResult :=
  {| pr_SnapshotID := id; pr_Target := target; pr_SnapshotDigest := res_SnapshotDigest res;
     pr_ContentDigest := res_ContentDigest res; pr_Content := res_Content res;
     pr_ContentType := res_ContentType res; pr_Filename := res_Filename res;
     pr_Manifest := {| man_NodeCount := length (snap_Nodes snap);
                       man_ExcludedCount := excludedCount; man_PayloadIDs := payloads;
                       man_ConfigurationRevision := revID;
                       man_RulesDigest := snap_RiskDecisionDigest snap;
                       man_Included := included_nodes snap; man_Excluded := excluded |};
     pr_Diagnostics := snap_Diagnostics snap ++
       if (0 <? length (included_nodes snap)) && (length payloads =? 0)
       then [legacy_warning] else [];
     pr_FilterCounts := snap_FilterCounts snap |}.

(** Persist the draft, note its payloads, and answer. *)
Definition persist_draft (env : PubEnv) (revID target : string) (snap : ResolvedPolicySnapshot)
    (excludedCount : nat) (excluded : list ManifestExcludedNode) (res : Result)
    : proc PubTables PreviewResult :=
  let@ id := new_snapshot_id env in
  step (publications_Create (pe_env env) (draft env id "draft:" revID target snap (Some res))) ;;@
  let payloads := payloads_of env (included_nodes snap) in
  (if length payloads =? 0 then give tt
   else attempt (step (payload_refs_AddRefs (pe_env env) id payloads)) ;;@ give tt) ;;@
  give (preview_result id revID target snap excludedCount excluded payloads res).

Definition revision_of (q : PreviewQuery) (snap : ResolvedPolicySnapshot) : string :=
  let id := TrimSpace (pq_RevisionID q) in
  if String.eqb id "" then TrimSpace (snap_RevisionID snap) else id.

(** A snapshot the target cannot take leaves a draft without content behind. *)
Definition preview_strict (env : PubEnv) (q : PreviewQuery) (snap : ResolvedPolicySnapshot)
    : proc PubTables PreviewResult :=
  let target := pq_Target q in
  let revID := revision_of q snap in
  if negb (length (ValidateTargetCapabilities snap target) =? 0) then
    let@ id := new_snapshot_id env in
    attempt (step (publications_Create (pe_env env)
      (draft env id "draft_failed:" revID target snap None))) ;;@
    reject (NewValidationError "unsupported_target_capability")
  else if negb (pf_Allowed (preflight env snap target)) then reject preflight_rejected
  else
    match Compile (pe_done env) snap target with
    | Err e => stop (compile_failure e)
    | Ok res => persist_draft env revID target snap (length (snap_ExcludedNodeIDs snap)) [] res
    end.

Definition preview_compatible (env : PubEnv) (q : PreviewQuery) (snap : ResolvedPolicySnapshot)
    : proc PubTables PreviewResult :=
  let target := pq_Target q in
  let '(kept, excluded) := FilterCompatibleSnapshot snap target in
  refuse_if (String.eqb target TargetMihomo &&
             existsb (λ g, negb (UsesEmptyPass g) && (length (rg_Members g) =? 0)) (snap_Groups kept))
    (NewValidationError "empty_group_not_allowed") ;;@
  match Compile (pe_done env) kept target with
  | Err e => stop (raw_failure e)
  | Ok res => persist_draft env (revision_of q snap) target kept (length excluded) excluded res
  end.

Definition Preview (env : PubEnv) (q : PreviewQuery) : proc PubTables PreviewResult :=
  refuse_if (negb (isValidTarget (pq_Target q))) (NewValidationError "unsupported_target") ;;@
  let mode := ToLower (TrimSpace (pq_CompatMode q)) in
  let@ snap := Done (resolve_for env (pq_Snapshot q) (pq_RevisionID q) (pq_Target q)) in
  let snap := prune_if (pq_Prune q || pq_Omit q) snap in
  if existsb (λ d, String.eqb (diag_Code d) "filtered_nodes_empty") (snap_Diagnostics snap)
  then reject preflight_rejected
  else if String.eqb mode "" || String.eqb mode "strict" then preview_strict env q snap
  else preview_compatible env q snap.

Definition publish_result (p : Publication) (raw : string) : PublishResult :=
  {| pub_Publication := p; pub_RawToken := raw;
     pub_ExportURL := "/publish/v1/" +:+ pub_ID p +:+ "?token=" +:+ raw |}.

(** The snapshot to publish: the one named, or a new one. *)
Definition snapshot_to_publish (env : PubEnv) (cmd : PublishCommand) : proc PubTables string :=
  let id := TrimSpace (pc_SnapshotID cmd) in
  if negb (String.eqb id "") then give id
  else
    let@ snap := Done (resolve_for env (pc_Snapshot cmd) (pc_RevisionID cmd) (pc_Target cmd)) in
    if negb (pf_Allowed (preflight env snap (pc_Target cmd)))
    then create_failed env (domain_error preflight_rejected)
    else
      let@ res := Preview env
        {| pq_Target := pc_Target cmd; pq_RevisionID := pc_RevisionID cmd; pq_CompatMode := "";
           pq_Prune := pc_Prune cmd; pq_Omit := pc_Omit cmd; pq_Snapshot := Some snap |} in
      give (pr_SnapshotID res).

(** The checks of a loaded row, and its activation. *)
Definition activate_row (env : PubEnv) (cmd : PublishCommand) (p : Publication)
    : proc PubTables PublishResult :=
  refuse_if (negb (String.eqb (pub_Target p) (pc_Target cmd)))
    (NewValidationError "snapshot_target_mismatch") ;;@
  refuse_if (negb (mem_str (pub_State p) [PublicationStateDraft; PublicationStateActive]))
    (NewValidationError "snapshot_not_publishable") ;;@
  refuse_if (String.eqb (pub_Content p) "") (NewValidationError "snapshot_not_publishable") ;;@
  match ValidatePublicationContent (pub_Content p) (pub_Target p) with
  | Err e => create_failed env (domain_error e)
  | Ok _ =>
      if Publication_IsActive p then give (publish_result p "active")
      else
        match generateExportToken env with
        | Err e => create_failed env e
        | Ok (raw, hash) =>
            let@ r := attempt (step (publications_Activate (pe_env env) (pub_ID p) hash)) in
            match r with
            | Err e => create_failed env e
            | Ok _ =>
                recordAudit_create env true ;;@
                give (publish_result
                  (with_state PublicationStateActive hash (pub_RevokedAt p) p) raw)
            end
        end
  end.

Definition Publish (env : PubEnv) (cmd : PublishCommand) : proc PubTables PublishResult :=
  refuse_if (negb (isValidTarget (pc_Target cmd))) (NewValidationError "unsupported_target") ;;@
  let@ id := snapshot_to_publish env cmd in
  let@ r := attempt (step (publications_GetByID (pe_env env) id)) in
  match r with
  | Err e => create_failed env e
  | Ok p => activate_row env cmd p
  end.

Definition Revoke (env : PubEnv) (id : string) : proc PubTables Publication :=
  let audit ok := step (recordAudit (pe_env env) "publication.revoke" ok) in
  let@ p := step (publications_GetByID (pe_env env) id) in
  let now := env_now (pe_env env) in
  match Publication_Revoke p now with
  | Err e => audit false ;;@ reject e
  | Ok revoked =>
      let@ r := attempt (step (publications_Revoke (pe_env env) id now)) in
      match r with
      | Err e => audit false ;;@ stop e
      | Ok _ => audit true ;;@ give revoked
      end
  end.

(** ** Export *)

Definition artifact_of (p : Publication) : Artifact :=
  {| art_PublicationID := pub_ID p; art_Target := pub_Target p; art_Content := pub_Content p;
     art_ContentType := pub_ContentType p; art_Filename := pub_Filename p;
     art_ContentDigest := pub_ContentDigest p; art_SnapshotDigest := pub_SnapshotDigest p |}.

(** A row without content that matches its digest is compiled again. *)
Definition recompile (env : PubEnv) (p : Publication) : result error Artifact :=
  let? snap := resolveTargetSnapshot (pe_repos env) (pe_done env) (env_now (pe_env env))
                 (pe_later env) (pub_RevisionID p) (pub_Target p) in
  match Compile (pe_done env) snap (pub_Target p) with
  | Err e => Err (compile_failure e)
  | Ok res =>
      Ok {| art_PublicationID := pub_ID p; art_Target := pub_Target p;
            art_Content := res_Content res; art_ContentType := res_ContentType res;
            art_Filename := res_Filename res; art_ContentDigest := res_ContentDigest res;
            art_SnapshotDigest := res_SnapshotDigest res |}
  end.

Definition serve_row (env : PubEnv) (authorized : string → bool) (p : Publication)
    : result error Artifact :=
  if negb (Publication_IsActive p) then Err ErrRevoked
  else if negb (authorized (pub_TokenHash p)) then Err ErrUnauthorized
  else if negb (enum_valid validCompilerTargets (pub_Target p)) || negb (isValidTarget (pub_Target p))
  then Err ErrUnsupportedTarget
  else if negb (String.eqb (pub_Content p) "") &&
          String.eqb (content_digest (pub_Content p)) (TrimSpace (pub_ContentDigest p))
  then Ok (artifact_of p)
  else recompile env p.

Definition ResolveAndServeAuthorized (env : PubEnv) (id : string) (authorized : string → bool)
    : proc PubTables Artifact :=
  if blank id then stop ErrNotFound
  else
    let@ r := attempt (step (publications_GetByID (pe_env env) id)) in
    match r with
    | Err _ => stop ErrNotFound
    | Ok p => Done (serve_row env authorized p)
    end.

Definition token_matches (token hash : string) : bool :=
  negb (blank token) && String.eqb hash (hashToken token).

Definition ResolveAndServe (env : PubEnv) (id token : string) : proc PubTables Artifact :=
  ResolveAndServeAuthorized env id (token_matches token).

Definition IsPublicationToken (env : PubEnv) (token : string) : proc PubTables bool :=
  if blank token then give false
  else
    let@ r := attempt (step (publications_GetByTokenHash (pe_env env) (hashToken token))) in
    give (is_ok r).

Definition ValidateToken (env : PubEnv) (id token : string) : proc PubTables bool :=
  if blank token then give false
  else if negb (String.eqb id "") then
    let@ r := attempt (step (publications_GetByID (pe_env env) id)) in
    give (match r with
          | Ok p => Publication_IsActive p && String.eqb (pub_TokenHash p) (hashToken token)
          | Err _ => false
          end)
  else
    let@ r := attempt (step (publications_GetByTokenHash (pe_env env) (hashToken token))) in
    give (match r with Ok p => Publication_IsActive p | Err _ => false end).

Definition Get (env : PubEnv) (id : string) : proc PubTables PublicationDetail :=
  let@ p := step (publications_GetByID (pe_env env) id) in
  give {| det_Publication := p; det_ExportURL := "/publish/v1/" +:+ pub_ID p |}.
End Service.

(** ** The invariant *)

(** The rows that were in the table before the content of a publication was stored with it. *)
Class Legacy := legacy_ids : gset string.

Section Invariant.
Context `{GoText} `{RegexEngine} `{Sha256} `{Digests} `{Backend} `{Documents} `{Legacy}.

(** Everything but the state, the token and the time of revocation. *)
Definition frozen (p : Publication) : Publication := with_state "" "" None p.

Record row_ok (id : string) (p : Publication) : Prop := {
  row_id : pub_ID p = id;
  row_target : pub_Content p ≠ "" → pub_Target p ∈ Targets;
  row_digest : pub_Content p ≠ "" → pub_ContentDigest p = content_digest (pub_Content p);
  row_active : pub_State p = PublicationStateActive → pub_Content p ≠ "" →
    ValidatePublicationContent (pub_Content p) (pub_Target p) = Ok tt ∧
    ∃ raw, pub_TokenHash p = hashToken raw;
  row_legacy : pub_State p = PublicationStateActive → pub_Content p = "" → id ∈ legacy_ids
}.
Definition pub_inv (s : PubTables) : Prop := map_Forall row_ok (pt_rows s).

(** Rows stay, with their frozen part, and never become drafts again. *)
Definition evolves (s s' : PubTables) : Prop :=
  ∀ id p, pt_rows s !! id = Some p →
    ∃ p', pt_rows s' !! id = Some p' ∧ frozen p' = frozen p ∧
      (pub_State p' = PublicationStateDraft → pub_State p = PublicationStateDraft).

#[global] Instance evolves_preorder : PreOrder evolves.
Proof.
  split.
  - intros s id p Hp. by exists p.
  - intros s1 s2 s3 H12 H23 id p Hp. destruct (H12 id p Hp) as (p2 & Hp2 & Hf2 & Hd2).
    destruct (H23 id p2 Hp2) as (p3 & Hp3 & Hf3 & Hd3). exists p3. split; [done|].
    split; [by rewrite Hf3|]. auto.
Qed.

Lemma evolves_trans s1 s2 s3 : evolves s1 s2 → evolves s2 s3 → evolves s1 s3.
Proof. apply evolves_preorder. Qed.
Lemma evolves_refl s : evolves s s.
Proof. apply evolves_preorder. Qed.

(** A chain of steps. *)
Ltac chain := solve [eauto 6 using evolves_trans, evolves_refl].

Lemma frozen_fields p q :
  frozen p = frozen q → pub_ID p = pub_ID q ∧ pub_Target p = pub_Target q ∧
  pub_Content p = pub_Content q ∧ pub_ContentDigest p = pub_ContentDigest q.
Proof. by intros [=]. Qed.

Lemma evolves_rows s s' : pt_rows s' = pt_rows s → evolves s s'.
Proof. intros Hr id p Hp. exists p. by rewrite Hr. Qed.

Lemma inv_rows s s' : pt_rows s' = pt_rows s → pub_inv s → pub_inv s'.
Proof. unfold pub_inv. by intros ->. Qed.

(** The table still has a row with this frozen part. *)
Definition known (p : Publication) (s : PubTables) : Prop :=
  ∃ p', pt_rows s !! pub_ID p = Some p' ∧ frozen p' = frozen p.

Lemma known_later p s s' : known p s → evolves s s' → known p s'.
Proof.
  intros (q & Hq & Hf) Hev. destruct (Hev _ _ Hq) as (q' & Hq' & Hf' & _).
  exists q'. split; [done|]. by rewrite Hf'.
Qed.

(** Replacing the mutable part of a row. *)
Lemma update_ok s id p p' :
  pub_inv s → pt_rows s !! id = Some p → frozen p' = frozen p →
  pub_State p' ≠ PublicationStateDraft → row_ok id p' →
  let s' := with_rows (<[id := p']> (pt_rows s)) s in pub_inv s' ∧ evolves s s'.
Proof.
  intros Hi Hp Hf Hd Hok s'. split.
  - by apply map_Forall_insert_2.
  - intros id' q Hq. simpl. destruct (decide (id' = id)) as [->|Hne].
    + exists p'. rewrite lookup_insert_eq. split; [done|]. rewrite Hp in Hq. injection Hq as <-. by split.
    + exists q. by rewrite lookup_insert_ne.
Qed.

(** ** Statements *)

Notation Safe := (safe pub_inv evolves).

Definition keeps_rows {A} (c : M PubTables A) : Prop := ∀ s, pt_rows (c s).2 = pt_rows s.

Lemma safe_keeps {A} (c : M PubTables A) (Q : result error A → PubTables → Prop) s :
  keeps_rows c →
  (∀ s1 s2, evolves s s1 → pub_inv s1 → evolves s1 s2 → pub_inv s2 → Q (c s1).1 s2) →
  Safe (step c) Q s.
Proof.
  intros Hk Hq. apply safe_step. intros s1 Hs1 Hi. split; [eapply inv_rows; [apply Hk|done]|].
  split; [by apply evolves_rows|]. intros s2 Hs2 Hi2. apply (Hq s1); try done.
  eapply evolves_trans; [by apply evolves_rows, Hk|done].
Qed.

Lemma query_keeps {A} env label (f : PubTables → result error A) : keeps_rows (query env label f).
Proof. intros s. by rewrite query_state. Qed.

Lemma record_keeps env op ok : keeps_rows (recordAudit (S := PubTables) env op ok).
Proof. intros s. unfold recordAudit. by destruct (env_io env "audit"). Qed.

Lemma addrefs_keeps env id l : keeps_rows (payload_refs_AddRefs env id l).
Proof.
  intros s. unfold payload_refs_AddRefs. destruct (length l =? 0); [done|].
  unfold statement. by destruct (env_io _ _).
Qed.

Lemma safe_record env op ok (Q : result error unit → PubTables → Prop) s :
  (∀ s', evolves s s' → pub_inv s' → Q (Ok tt) s') → Safe (step (recordAudit env op ok)) Q s.
Proof.
  intros Hq. apply safe_keeps; [apply record_keeps|]. intros s1 s2 Hs1 _ Hs2 Hi2.
  unfold recordAudit. destruct (env_io env "audit"); apply Hq; try done; chain.
Qed.

(** A loaded row satisfies the invariant, and its frozen part stays in the table. *)
Lemma safe_get env id (Q : result error Publication → PubTables → Prop) s :
  (∀ p s', evolves s s' → pub_inv s' → row_ok id p → known p s' → Q (Ok p) s') →
  (∀ e s', evolves s s' → pub_inv s' → Q (Err e) s') →
  Safe (step (publications_GetByID env id)) Q s.
Proof.
  intros Hok Herr. apply safe_keeps; [apply query_keeps|]. intros s1 s2 Hs1 Hi1 Hs2 Hi2.
  assert (evolves s s2) by chain. unfold publications_GetByID, query.
  destruct (env_io env _); simpl; [by apply Herr|].
  destruct (pt_rows s1 !! id) as [p|] eqn:Hp; [|by apply Herr].
  pose proof (Hi1 _ _ Hp) as Hrow. apply Hok; try done. apply (known_later p s1); [|done].
  exists p. by rewrite (row_id _ _ Hrow).
Qed.

Lemma safe_create env p (Q : result error unit → PubTables → Prop) s :
  row_ok (pub_ID p) (stored env p) →
  (∀ s', evolves s s' → pub_inv s' → known (stored env p) s' → Q (Ok tt) s') →
  (∀ e s', evolves s s' → pub_inv s' → Q (Err e) s') →
  Safe (step (publications_Create env p)) Q s.
Proof.
  intros Hrow Hok Herr. apply safe_step. intros s1 Hs1 Hi1.
  destruct (publications_Create env p s1) as [[[]|e] s2] eqn:Hc; simpl.
  - apply statement_ok in Hc as [_ Hc]. destruct (bool_decide _) eqn:Hb; [done|]. simpl in Hc.
    destruct (negb _); [done|]. injection Hc as <-.
    apply bool_decide_eq_false, eq_None_not_Some in Hb.
    assert (evolves s1 (with_rows (<[pub_ID p := stored env p]> (pt_rows s1)) s1)) as Hev.
    { intros id q Hq. exists q. simpl. rewrite lookup_insert_ne by congruence. done. }
    split; [by apply map_Forall_insert_2|]. split; [done|]. intros s' Hs2 Hi2.
    apply Hok; [chain|done|]. eapply known_later; [|exact Hs2].
    exists (stored env p). simpl. by rewrite lookup_insert_eq.
  - apply statement_err in Hc as ->. split; [done|]. split; [done|]. intros s' Hs2 Hi2.
    apply Herr; [chain|done].
Qed.

(** Activating a row that was loaded with checked content. *)
Lemma safe_activate env p raw (Q : result error unit → PubTables → Prop) s :
  known p s → pub_Content p ≠ "" →
  ValidatePublicationContent (pub_Content p) (pub_Target p) = Ok tt →
  (∀ s', evolves s s' → pub_inv s' → Q (Ok tt) s') →
  (∀ e s', evolves s s' → pub_inv s' → Q (Err e) s') →
  Safe (step (publications_Activate env (pub_ID p) (hashToken raw))) Q s.
Proof.
  intros Hk Hc Hv Hok Herr. apply safe_step. intros s1 Hs1 Hi1.
  destruct (known_later _ _ _ Hk Hs1) as (q & Hq & Hf). pose proof (Hi1 _ _ Hq) as Hrow.
  destruct (publications_Activate _ _ _ s1) as [[[]|e] s2] eqn:Ha; simpl.
  - apply statement_ok in Ha as [_ Ha]. rewrite Hq in Ha. destruct (existsb _ _); [done|].
    injection Ha as <-. destruct (frozen_fields _ _ Hf) as (Hid & Ht & Hco & Hdi).
    destruct (update_ok s1 (pub_ID p) q
      (with_state PublicationStateActive (hashToken raw) (pub_RevokedAt q) q)) as [Hi2 Hev]; try done.
    { split; simpl; [done|apply Hrow|apply Hrow| |by rewrite Hco]. intros _ _. rewrite Hco, Ht.
      split; [done|]. by exists raw. }
    split; [done|]. split; [done|]. intros s' Hs2 Hi'. apply Hok; [chain|done].
  - apply statement_err in Ha as ->. split; [done|]. split; [done|]. intros s' Hs2 Hi2.
    apply Herr; [chain|done].
Qed.

Lemma safe_revoke env id at_ (Q : result error unit → PubTables → Prop) s :
  (∀ r s', evolves s s' → pub_inv s' → Q r s') →
  Safe (step (publications_Revoke env id at_)) Q s.
Proof.
  intros Hq. apply safe_step. intros s1 Hs1 Hi1.
  destruct (publications_Revoke _ _ _ s1) as [[[]|e] s2] eqn:Hr; simpl.
  - apply statement_ok in Hr as [_ Hr]. destruct (pt_rows s1 !! id) as [p|] eqn:Hp; [|done].
    injection Hr as <-. pose proof (Hi1 _ _ Hp) as Hrow.
    destruct (update_ok s1 id p
      (with_state PublicationStateRevoked (pub_TokenHash p) (Some (rfc3339 at_)) p)) as [Hi2 Hev];
      try done.
    { split; simpl; [apply Hrow..|done|done]. }
    split; [done|]. split; [done|]. intros s' Hs2 Hi'. apply Hq; [chain|done].
  - apply statement_err in Hr as ->. split; [done|]. split; [done|]. intros s' Hs2 Hi2.
    apply Hq; [chain|done].
Qed.

(** ** Requests *)

(** Run [p], then go on with the rest in the state it leaves. *)
Lemma safe_seq {A B} (p : proc PubTables A) (k : A → proc PubTables B)
    (Q : result error B → PubTables → Prop) s :
  pub_inv s →
  Safe p (λ r s', match r with Ok a => Safe (k a) Q s' | Err e => Q (Err e) s' end) s →
  Safe (pbind p k) Q s.
Proof. intros Hi Hp. eapply safe_bind; [apply _|done|exact Hp|by intros|by intros]. Qed.

Lemma safe_try {A} (p : proc PubTables A) (Q : result error (result error A) → PubTables → Prop) s :
  Safe p (λ r s', Q (Ok r) s') s → Safe (attempt p) Q s.
Proof. intros Hp. eapply safe_attempt; [apply _|exact Hp|by intros]. Qed.

Lemma safe_refuse (b : bool) e (Q : result error unit → PubTables → Prop) s :
  (∀ s', evolves s s' → pub_inv s' → if b then Q (Err (domain_error e)) s' else Q (Ok tt) s') →
  Safe (refuse_if b e) Q s.
Proof. unfold refuse_if. destruct b; intros Hq; apply safe_done; auto. Qed.

(** A postcondition on success only. *)
Definition if_ok {A} (P : A → PubTables → Prop) (r : result error A) (s : PubTables) : Prop :=
  match r with Ok a => P a s | Err _ => True end.

Lemma safe_stop {A} e (P : A → PubTables → Prop) s : Safe (stop (A := A) e) (if_ok P) s.
Proof. by apply safe_done. Qed.

Lemma safe_failed {A} env e (P : A → PubTables → Prop) s :
  pub_inv s → Safe (create_failed env e) (if_ok P) s.
Proof. intros Hi. apply safe_seq; [done|]. apply safe_record. intros. apply safe_stop. Qed.

(** What a preview leaves in the table. *)
Definition preview_artifact (res : PreviewResult) : Artifact :=
  {| art_PublicationID := pr_SnapshotID res; art_Target := pr_Target res;
     art_Content := pr_Content res; art_ContentType := pr_ContentType res;
     art_Filename := pr_Filename res; art_ContentDigest := pr_ContentDigest res;
     art_SnapshotDigest := pr_SnapshotDigest res |}.
Definition previewed (res : PreviewResult) (s : PubTables) : Prop :=
  ∃ p, pt_rows s !! pr_SnapshotID res = Some p ∧ artifact_of p = preview_artifact res.

Lemma frozen_artifact p q : frozen p = frozen q → artifact_of p = artifact_of q.
Proof. intros [=]. unfold artifact_of. congruence. Qed.

Lemma draft_ok env id prefix revID target snap res :
  target ∈ Targets →
  (∀ r, res = Some r → res_ContentDigest r = content_digest (res_Content r)) →
  row_ok id (stored (pe_env env) (draft env id prefix revID target snap res)).
Proof.
  intros Ht Hr. split; simpl; [done|done| |done|done]. destruct res as [r|]; [|done].
  intros _. by apply Hr.
Qed.

Lemma safe_new_id env (Q : result error string → PubTables → Prop) s :
  (∀ u s', evolves s s' → pub_inv s' → Q (Ok ("snapshot_" +:+ u)) s') →
  (∀ e s', evolves s s' → pub_inv s' → Q (Err e) s') →
  Safe (new_snapshot_id env) Q s.
Proof. unfold new_snapshot_id. destruct (env_uuid _); intros; apply safe_done; auto. Qed.

Lemma safe_persist env revID target snap n excluded cancelled res s :
  pub_inv s → target ∈ Targets → Compile cancelled snap target = Ok res →
  Safe (persist_draft env revID target snap n excluded res) (if_ok previewed) s.
Proof.
  intros Hi Ht [Hsd Hcd]%Compile_result. unfold persist_draft. apply safe_seq; [done|].
  apply safe_new_id; [|done]. intros u s1 _ Hi1. apply safe_seq; [done|].
  apply safe_create; [apply draft_ok; [done|by intros r [= <-]]| |done].
  intros s2 _ Hi2 Hk. apply safe_seq; [done|].
  set (template := stored _ _) in Hk.
  assert (∀ s', evolves s2 s' → previewed (preview_result ("snapshot_" +:+ u) revID target snap n
    excluded (payloads_of env (included_nodes snap)) res) s') as Hpost.
  { intros s' Hev. destruct (known_later _ _ _ Hk Hev) as (p & Hp & Hf). exists p.
    split; [done|]. rewrite (frozen_artifact _ _ Hf). unfold artifact_of, preview_artifact. simpl.
    by rewrite Hsd. }
  destruct (length _ =? 0).
  - apply safe_done. intros s3 Hs3 _. apply safe_done. intros s4 Hs4 _. apply Hpost. chain.
  - apply safe_seq; [done|]. apply safe_try, safe_keeps; [apply addrefs_keeps|].
    intros s3 s4 Hs3 _ Hs4 _. apply safe_done. intros s5 Hs5 _. apply safe_done.
    intros s6 Hs6 _. apply Hpost. chain.
Qed.

Lemma valid_target target : isValidTarget target = true → target ∈ Targets.
Proof. apply mem_str_spec. Qed.

Lemma safe_preview env q s :
  pub_inv s → Safe (Preview env q) (if_ok previewed) s.
Proof.
  intros Hi. unfold Preview. apply safe_seq; [done|]. apply safe_refuse. intros s1 _ Hi1.
  destruct (isValidTarget (pq_Target q)) eqn:Ht; [|done]. apply valid_target in Ht. simpl negb.
  apply safe_seq; [done|]. apply safe_done. intros s2 _ Hi2.
  destruct (resolve_for env _ _ _) as [snap|]; [|done].
  destruct (existsb _ _); [apply safe_stop|]. destruct (_ || _).
  - unfold preview_strict. destruct (negb (_ =? 0)).
    { apply safe_seq; [done|]. apply safe_new_id; [|done]. intros u s3 _ Hi3.
      apply safe_seq; [done|]. apply safe_try, safe_create; [by apply draft_ok| |];
        intros; apply safe_stop. }
    destruct (negb _); [apply safe_stop|].
    destruct (Compile _ _ _) as [res|] eqn:Hc; [|apply safe_stop]. by eapply safe_persist.
  - unfold preview_compatible. destruct (FilterCompatibleSnapshot _ _) as [kept excluded].
    apply safe_seq; [done|]. apply safe_refuse. intros s3 _ Hi3. destruct (_ && _); [done|].
    destruct (Compile _ _ _) as [res|] eqn:Hc; [|apply safe_stop]. by eapply safe_persist.
Qed.

Definition anything {A} : A → PubTables → Prop := λ _ _, True.

Lemma safe_to_publish env cmd s :
  pub_inv s → Safe (snapshot_to_publish env cmd) (if_ok anything) s.
Proof.
  intros Hi. unfold snapshot_to_publish. destruct (negb _); [by apply safe_done|].
  apply safe_seq; [done|]. apply safe_done. intros s1 _ Hi1.
  destruct (resolve_for env _ _ _) as [snap|]; [|done].
  destruct (negb _); [by apply safe_failed|]. apply safe_seq; [done|].
  eapply safe_impl; [by apply safe_preview|]. intros [res|e] s' _ _; [by apply safe_done|done].
Qed.

Lemma safe_activate_row env cmd id p s :
  pub_inv s → row_ok id p → known p s → Safe (activate_row env cmd p) (if_ok anything) s.
Proof.
  intros Hi Hrow Hk. unfold activate_row.
  do 2 (apply safe_seq; [done|]; apply safe_refuse; intros ? ? ?;
        match goal with |- context [if ?b then _ else _] => destruct b; [done|] end).
  apply safe_seq; [done|]. apply safe_refuse. intros s3 Hs3 Hi3.
  destruct (String.eqb_spec (pub_Content p) "") as [|Hne]; [done|].
  destruct (ValidatePublicationContent _ _) as [[]|] eqn:Hv; [|by apply safe_failed].
  destruct (Publication_IsActive p); [by apply safe_done|].
  unfold generateExportToken. destruct (pe_random env) as [b|]; [|by apply safe_failed].
  apply safe_seq; [done|]. apply safe_try, safe_activate; [|done..| |].
  - eapply known_later; [done|]. chain.
  - intros s4 _ Hi4. apply safe_seq; [done|]. apply safe_record. intros. by apply safe_done.
  - intros e s4 _ Hi4. by apply safe_failed.
Qed.

Lemma safe_publish env cmd s : pub_inv s → Safe (Publish env cmd) (if_ok anything) s.
Proof.
  intros Hi. unfold Publish. apply safe_seq; [done|]. apply safe_refuse. intros s1 _ Hi1.
  destruct (negb _); [done|]. apply safe_seq; [done|].
  eapply safe_impl; [by apply safe_to_publish|]. intros [id|e] s2 Hi2 _; [|done].
  apply safe_seq; [done|]. apply safe_try, safe_get.
  - intros p s3 _ Hi3 Hrow Hk. by eapply safe_activate_row.
  - intros e s3 _ Hi3. by apply safe_failed.
Qed.

Lemma safe_revocation env id s : pub_inv s → Safe (Revoke env id) (if_ok anything) s.
Proof.
  intros Hi. unfold Revoke. apply safe_seq; [done|]. apply safe_get; [|done].
  intros p s1 _ Hi1 _ _. destruct (Publication_Revoke p _) as [q|e].
  - apply safe_seq; [done|]. apply safe_try, safe_revoke. intros [[]|e] s2 _ Hi2;
      (apply safe_seq; [done|]; apply safe_record; intros; by apply safe_done).
  - apply safe_seq; [done|]. apply safe_record. intros. apply safe_stop.
Qed.

(** Requests that only read. *)
Lemma safe_reads {A B} (c : M PubTables A) (k : result error A → proc PubTables B) s :
  pub_inv s → keeps_rows c → (∀ r, ∃ b, k r = Done b) →
  Safe (let@ r := attempt (step c) in k r) (if_ok anything) s.
Proof.
  intros Hi Hk Hd. apply safe_seq; [done|]. apply safe_try, safe_keeps; [done|].
  intros s1 s2 _ _ _ _. destruct (Hd (c s1).1) as [[b|e] ->]; by apply safe_done.
Qed.

Lemma safe_serve env id authorized s :
  pub_inv s → Safe (ResolveAndServeAuthorized env id authorized) (if_ok anything) s.
Proof.
  intros Hi. unfold ResolveAndServeAuthorized. destruct (blank id); [apply safe_stop|].
  apply safe_reads; [done|apply query_keeps|]. intros [p|e]; by eexists.
Qed.

Lemma safe_is_token env token s :
  pub_inv s → Safe (IsPublicationToken env token) (if_ok anything) s.
Proof.
  intros Hi. unfold IsPublicationToken. destruct (blank token); [by apply safe_done|].
  apply safe_reads; [done|apply query_keeps|]. intros r. by eexists.
Qed.

Lemma safe_validate_token env id token s :
  pub_inv s → Safe (ValidateToken env id token) (if_ok anything) s.
Proof.
  intros Hi. unfold ValidateToken. destruct (blank token); [by apply safe_done|].
  destruct (negb _); apply safe_reads; try done; try apply query_keeps; intros r; by eexists.
Qed.

Lemma safe_preflight env q s : pub_inv s → Safe (Preflight_request env q) (if_ok anything) s.
Proof.
  intros Hi. unfold Preflight_request. apply safe_seq; [done|]. apply safe_refuse. intros s1 _ Hi1.
  destruct (negb _); [done|]. apply safe_seq; [done|]. apply safe_done. intros s2 _ Hi2.
  destruct (resolve_for _ _ _ _); [|done]. destruct (pf_Allowed _); [|by apply safe_done].
  destruct (Compile _ _ _); by apply safe_done.
Qed.

Lemma safe_show env id s : pub_inv s → Safe (Get env id) (if_ok anything) s.
Proof.
  intros Hi. apply safe_seq; [done|]. apply safe_keeps; [apply query_keeps|]. intros s1 s2 _ _ _ _.
  destruct (publications_GetByID _ _ _).1; [by apply safe_done|done].
Qed.

(** ** The system *)

Inductive request : Type :=
  | RPreflight (q : PreviewQuery)
  | RPreview (q : PreviewQuery)
  | RPublish (cmd : PublishCommand)
  | RRevoke (id : string)
  | RExport (id : string) (authorized : string → bool)
  | RIsToken (token : string)
  | RValidateToken (id token : string)
  | RGet (id : string).

Inductive response : Type :=
  | Preflighted (r : PreflightResult)
  | Previewed (r : PreviewResult)
  | Published (r : PublishResult)
  | Revoked (p : Publication)
  | Exported (a : Artifact)
  | Answered (b : bool)
  | Shown (d : PublicationDetail).

Definition handle (env : PubEnv) (r : request) : proc PubTables response :=
  match r with
  | RPreflight q => let@ x := Preflight_request env q in give (Preflighted x)
  | RPreview q => let@ x := Preview env q in give (Previewed x)
  | RPublish cmd => let@ x := Publish env cmd in give (Published x)
  | RRevoke id => let@ x := Revoke env id in give (Revoked x)
  | RExport id authorized =>
      let@ x := ResolveAndServeAuthorized env id authorized in give (Exported x)
  | RIsToken token => let@ x := IsPublicationToken env token in give (Answered x)
  | RValidateToken id token => let@ x := ValidateToken env id token in give (Answered x)
  | RGet id => let@ x := Get env id in give (Shown x)
  end.
Definition started (p : proc PubTables response) : Prop := ∃ env r, p = handle env r.

(** A service that starts on these tables. *)
Definition start_system (s : PubTables) : system PubTables response := {| store := s; threads := [] |}.
Definition empty_tables : PubTables := {| pt_rows := ∅; pt_refs := ∅; pt_trail := [] |}.

(** Tables with the legacy rows and no other: rows of any state, token and target, without content. *)
Definition legacy_tables (s : PubTables) : Prop :=
  ∀ id p, pt_rows s !! id = Some p → id ∈ legacy_ids ∧ pub_ID p = id ∧ pub_Content p = "".
Definition reachable (σ : system PubTables response) : Prop :=
  ∃ s, legacy_tables s ∧ sys_steps started (start_system s) σ.

Lemma legacy_tables_inv s : legacy_tables s → pub_inv s.
Proof. intros Hs id p (Hl & Hid & Hc)%Hs. by split. Qed.

Lemma safe_answer {A} (p : proc PubTables A) (f : A → response) s :
  pub_inv s → Safe p (if_ok anything) s →
  Safe (let@ x := p in give (f x)) (if_ok anything) s.
Proof.
  intros Hi Hp. apply safe_seq; [done|]. eapply safe_impl; [exact Hp|].
  intros [a|e] s' _ _; [by apply safe_done|done].
Qed.

Lemma safe_handle p s : started p → pub_inv s → Safe p (if_ok anything) s.
Proof.
  intros (env & r & ->) Hi. destruct r; cbn [handle]; apply safe_answer; try done.
  - by apply safe_preflight.
  - eapply safe_impl; [by apply safe_preview|]. by intros [] ? ? ?.
  - by apply safe_publish.
  - by apply safe_revocation.
  - by apply safe_serve.
  - by apply safe_is_token.
  - by apply safe_validate_token.
  - by apply safe_show.
Qed.

Lemma reachable_inv σ :
  reachable σ → system_ok pub_inv evolves (if_ok anything) σ.
Proof.
  intros (s & Hl & Hr).
  eapply (system_safe pub_inv evolves started); [by intros; apply safe_handle|exact Hr|].
  split; [|constructor]. by apply legacy_tables_inv.
Qed.

Lemma later_inv σ σ' :
  system_ok pub_inv evolves (if_ok anything) σ → sys_steps started σ σ' →
  system_ok pub_inv evolves (if_ok anything) σ' ∧ evolves (store σ) (store σ').
Proof.
  intros Hok Hs. eapply (system_safe pub_inv evolves started); [|done|done].
  intros. by apply safe_handle.
Qed.
End Invariant.
