(* ===== verification/PublicationProperties.v ===== *)
(** * What publications guarantee

    For any number of concurrent requests: rows are immutable but for their state,
    token and time of revocation, and what is exported is what was previewed.  For
    requests that run one after the other: a revocation is final; the last section
    shows that it is not when a publication races it. *)

From S2P Require Import Prelude.
From S2P Require Import GoStrings.
From S2P Require Import Domain.
From S2P Require Import NodeFilter.
From S2P Require Import Services.
From S2P Require Import Requests.
From S2P Require Import Admission.
From S2P Require Import ResolveGroups.
From S2P Require Import Resolver.
From S2P Require Import Prune.
From S2P Require Import Capabilities.
From S2P Require Import Surge.
From S2P Require Import Compiler.
From S2P Require Import Preflight.
From S2P Require Import Publication.

Section Concurrent.
Context `{GoText} `{RegexEngine} `{Sha256} `{Digests} `{Backend} `{Documents} `{Legacy}.

(** C8. A publication is immutable: whatever requests run, in whatever interleaving,
    a row once written stays, and its identifier, revision, target, digests,
    content, content type, file name, compiler version and creation time never
    change; a row that has left the draft state never becomes a draft again. *)
Theorem publications_immutable σ σ' id p :
  reachable σ → sys_steps started σ σ' → pt_rows (store σ) !! id = Some p →
  ∃ p', pt_rows (store σ') !! id = Some p' ∧ frozen p' = frozen p ∧
    (pub_State p' = PublicationStateDraft → pub_State p = PublicationStateDraft).
Proof.
  intros Hr Hs Hp. apply reachable_inv in Hr as Hok. destruct (later_inv _ _ Hok Hs) as [_ Hev].
  by apply Hev.
Qed.

Lemma digest_trimmed content : TrimSpace (content_digest content) = content_digest content.
Proof.
  apply TrimSpace_graphic. unfold content_digest.
  eapply all_bytes_mono; [apply is_hex_graphic|]. apply hex_bytes_hex, sha256_bytes.
Qed.

(** Serving a row of the table: its content, or, for a row without content, what its revision
    compiles to now. *)
Lemma serve_row_ok env authorized id p art :
  row_ok id p → serve_row env authorized p = Ok art →
  pub_State p = PublicationStateActive ∧ authorized (pub_TokenHash p) = true ∧
  ((pub_Content p ≠ "" ∧ art = artifact_of p) ∨
   (pub_Content p = "" ∧ id ∈ legacy_ids ∧ recompile env p = Ok art)).
Proof.
  intros Hrow. unfold serve_row, Publication_IsActive.
  destruct (String.eqb_spec (pub_State p) PublicationStateActive) as [Ha|]; [|done]. simpl.
  destruct (authorized _) eqn:Hau; [|done]. simpl. destruct (_ || _); [done|].
  destruct (String.eqb_spec (pub_Content p) "") as [He|Hne]; simpl.
  - intros Hre. split; [done|]. split; [done|]. right. split; [done|].
    split; [by apply (row_legacy _ _ Hrow)|done].
  - rewrite (row_digest _ _ Hrow Hne), digest_trimmed, String.eqb_refl.
    intros [= <-]. split; [done|]. split; [done|]. by left.
Qed.

Lemma serve_stored env authorized id p art :
  row_ok id p → pub_Content p ≠ "" → serve_row env authorized p = Ok art → art = artifact_of p.
Proof. intros Hrow Hne (_ & _ & [[_ ?]|[? _]])%(serve_row_ok _ _ _ _ _ Hrow); done. Qed.

Lemma recompile_digest env p art :
  recompile env p = Ok art →
  art_PublicationID art = pub_ID p ∧ art_Target art = pub_Target p ∧
  art_ContentDigest art = content_digest (art_Content art).
Proof.
  unfold recompile. intros (snap & _ & Hr)%let_ok.
  destruct (Compile _ _ _) as [res|] eqn:Hc; [|done]. injection Hr as <-.
  by apply Compile_result in Hc as [_ ?].
Qed.

Lemma run_export env id authorized s r s' :
  run (ResolveAndServeAuthorized env id authorized) s = (r, s') →
  s' = s ∧ ∀ art, r = Ok art →
    ∃ p, pt_rows s !! id = Some p ∧ serve_row env authorized p = Ok art.
Proof.
  unfold ResolveAndServeAuthorized. destruct (blank id); [by intros [= <- <-]|].
  rewrite run_bind, run_attempt, run_step. unfold publications_GetByID, query.
  destruct (env_io _ _); simpl; [by intros [= <- <-]|].
  destruct (pt_rows s !! id) as [p|] eqn:Hp; simpl; intros [= <- <-]; [|done].
  split; [done|]. intros art Hart. by exists p.
Qed.

(** C6. Only published bytes are exported, and only to those authorised.  In every state that is
    reached from a table whose rows, of any state and token, were written before content was
    stored, an export that answers with an artifact found an active row under that identifier
    whose token hash the caller's check accepted, and changes nothing; the digest in the artifact
    is the SHA-256 of its bytes.  A row with content is answered with that content and its
    metadata, and the bytes passed the content check of their target.  Only a row without
    content, which is one of those that the table started with, is compiled again, from its
    revision and for its target. *)
Theorem export_serves_published_bytes σ env id authorized art s' :
  reachable σ →
  run (ResolveAndServeAuthorized env id authorized) (store σ) = (Ok art, s') →
  s' = store σ ∧ art_ContentDigest art = content_digest (art_Content art) ∧
  ∃ p, pt_rows (store σ) !! id = Some p ∧ pub_State p = PublicationStateActive ∧
    authorized (pub_TokenHash p) = true ∧
    ((pub_Content p ≠ "" ∧ art = artifact_of p ∧
      ValidatePublicationContent (art_Content art) (art_Target art) = Ok tt) ∨
     (pub_Content p = "" ∧ id ∈ legacy_ids ∧ recompile env p = Ok art)).
Proof.
  intros Hr Hrun. destruct (reachable_inv σ Hr) as [Hi _].
  apply run_export in Hrun as [-> Hart]. destruct (Hart art eq_refl) as (p & Hp & Hs).
  pose proof (Hi _ _ Hp) as Hrow. split; [done|].
  destruct (serve_row_ok _ _ _ _ _ Hrow Hs) as (Ha & Hau & [[Hne ->]|(He & Hl & Hre)]).
  - split; [by apply (row_digest id p)|]. exists p. destruct (row_active _ _ Hrow Ha Hne) as (Hv & _).
    split; [done|]. split; [done|]. split; [done|]. by left.
  - split; [by apply (recompile_digest _ _ _ Hre)|]. exists p. by repeat split; [..|right].
Qed.

(** ** From the preview to the export *)

Lemma snapshot_id_trimmed u :
  IsValidUUIDv7 u = true →
  TrimSpace ("snapshot_" +:+ u) = "snapshot_" +:+ u ∧ "snapshot_" +:+ u ≠ "".
Proof.
  intros Hu. split; [|done]. apply TrimSpace_graphic. rewrite all_bytes_app.
  by rewrite (valid_uuid_graphic u Hu).
Qed.

Lemma token_not_blank b : Forall is_byte b → blank ("pub_" +:+ hex_bytes b) = false.
Proof.
  intros Hb. unfold blank. rewrite TrimSpace_graphic; [done|]. rewrite all_bytes_app. simpl.
  eapply all_bytes_mono; [apply is_hex_graphic|]. by apply hex_bytes_hex.
Qed.

(** The identifier of a preview. *)
Lemma persist_id env revID target snap n excluded res s r s' :
  run (persist_draft env revID target snap n excluded res) s = (Ok r, s') →
  ∃ u, env_uuid (pe_env env) = Some u ∧ pr_SnapshotID r = "snapshot_" +:+ u.
Proof.
  unfold persist_draft, new_snapshot_id. intros (id & s1 & Hid & Hrun)%run_bind_ok.
  destruct (env_uuid _) as [u|]; [|done]. injection Hid as <- <-. exists u. split; [done|].
  apply run_bind_ok in Hrun as (? & ? & _ & Hrun). apply run_bind_ok in Hrun as (? & ? & _ & Hrun).
  by injection Hrun as <- _.
Qed.

Lemma preview_id env q s r s' :
  run (Preview env q) s = (Ok r, s') →
  ∃ u, env_uuid (pe_env env) = Some u ∧ pr_SnapshotID r = "snapshot_" +:+ u.
Proof.
  unfold Preview. intros (u0 & s1 & _ & Hrun)%run_bind_ok.
  apply run_bind_ok in Hrun as (snap & s2 & _ & Hrun).
  destruct (existsb _ _); [done|]. destruct (_ || _).
  - unfold preview_strict in Hrun. destruct (negb _).
    { apply run_bind_ok in Hrun as (? & ? & _ & Hrun).
      by apply run_bind_ok in Hrun as (? & ? & _ & [=]). }
    destruct (negb _); [done|]. destruct (Compile _ _ _); [|done]. by eapply persist_id.
  - unfold preview_compatible in Hrun. destruct (FilterCompatibleSnapshot _ _).
    apply run_bind_ok in Hrun as (? & ? & _ & Hrun). destruct (Compile _ _ _); [|done].
    by eapply persist_id.
Qed.

Lemma create_failed_run {A} env e s (r : result error A) s' :
  run (create_failed env e) s = (r, s') → r = Err e.
Proof.
  unfold create_failed, recordAudit_create. rewrite run_bind, run_step. unfold recordAudit.
  destruct (env_io _ _); by intros [= <- _].
Qed.

(** A publication of a named snapshot that hands out a new token. *)
Lemma publish_named env cmd id s pr s' :
  TrimSpace (pc_SnapshotID cmd) = id → id ≠ "" → pub_inv s →
  run (Publish env cmd) s = (Ok pr, s') → pub_RawToken pr ≠ "active" →
  ∃ p b, pt_rows s !! id = Some p ∧ pub_Content p ≠ "" ∧ pe_random env = Some b ∧
    pub_RawToken pr = "pub_" +:+ hex_bytes b ∧
    pt_rows s' !! id =
      Some (with_state PublicationStateActive (hashToken (pub_RawToken pr)) (pub_RevokedAt p) p).
Proof.
  intros Hid Hne Hi Hrun Htok. unfold Publish in Hrun.
  apply run_bind_ok in Hrun as (? & s1 & [-> _]%run_refuse & Hrun).
  unfold snapshot_to_publish in Hrun. rewrite Hid in Hrun. apply String.eqb_neq in Hne.
  rewrite Hne in Hrun. cbn [negb give pbind] in Hrun.
  rewrite run_bind, run_attempt, run_step in Hrun. unfold publications_GetByID, query in Hrun.
  destruct (env_io _ _); simpl in Hrun; [by apply create_failed_run in Hrun|].
  destruct (pt_rows s !! id) as [p|] eqn:Hp; [|by apply create_failed_run in Hrun].
  exists p. unfold activate_row in Hrun.
  do 2 apply run_bind_ok in Hrun as (? & ? & [-> _]%run_refuse & Hrun).
  apply run_bind_ok in Hrun as (? & ? & [-> Hne']%run_refuse & Hrun).
  apply String.eqb_neq in Hne'.
  destruct (ValidatePublicationContent _ _); [|by apply create_failed_run in Hrun].
  destruct (Publication_IsActive p); [by injection Hrun as <- _|].
  unfold generateExportToken in Hrun. destruct (pe_random env) as [b|];
    [|by apply create_failed_run in Hrun].
  rewrite run_bind, run_attempt, run_step in Hrun.
  destruct (publications_Activate _ _ _ s) as [[[]|e] s2] eqn:Ha; cbn [fst snd] in Hrun;
    [|by apply create_failed_run in Hrun].
  unfold recordAudit_create in Hrun. rewrite run_bind, run_step in Hrun.
  pose proof (record_keeps (pe_env env) "publication.create" true s2) as Hk.
  destruct (recordAudit _ _ _ s2) as [[[]|] s3]; [|done]. simpl in Hrun, Hk.
  injection Hrun as <- <-. exists b. simpl.
  split; [done|]. split; [done|]. split; [done|]. split; [done|].
  apply statement_ok in Ha as [_ Ha]. pose proof (Hi _ _ Hp) as Hrow.
  rewrite (row_id _ _ Hrow), Hp in Ha. destruct (existsb _ _); [done|]. injection Ha as <-.
  rewrite Hk. simpl. by rewrite lookup_insert_eq.
Qed.

Lemma targets_valid target :
  target ∈ Targets → enum_valid validCompilerTargets target = true ∧ isValidTarget target = true.
Proof.
  intros Ht. split; [|by apply mem_str_spec]. unfold Targets in Ht.
  rewrite !elem_of_cons, elem_of_nil in Ht. by destruct Ht as [->|[->|[->|[->|[]]]]].
Qed.

(** Exporting an active row with its own token. *)
Lemma export_active env id token p s :
  pub_inv s → pt_rows s !! id = Some p → pub_State p = PublicationStateActive → pub_Content p ≠ "" →
  pub_TokenHash p = hashToken token → blank id = false → blank token = false →
  env_io (pe_env env) "publications.GetByID" = None →
  run (ResolveAndServe env id token) s = (Ok (artifact_of p), s).
Proof.
  intros Hi Hp Ha Hne Ht Hid Htok Hio. pose proof (Hi _ _ Hp) as Hrow.
  unfold ResolveAndServe, ResolveAndServeAuthorized. rewrite Hid.
  rewrite run_bind, run_attempt, run_step. unfold publications_GetByID, query. rewrite Hio. simpl.
  rewrite Hp. simpl. f_equal. unfold serve_row, Publication_IsActive, token_matches.
  rewrite Ha, Ht, Htok, !String.eqb_refl. simpl.
  destruct (targets_valid _ (row_target _ _ Hrow Hne)) as [-> ->]. simpl.
  rewrite (row_digest _ _ Hrow Hne), digest_trimmed, String.eqb_refl.
  apply String.eqb_neq in Hne. by rewrite Hne.
Qed.

Lemma previewed_later res s s' : previewed res s → evolves s s' → previewed res s'.
Proof.
  intros (p & Hp & Ha) Hev. destruct (Hev _ _ Hp) as (p' & Hp' & Hf & _). exists p'.
  split; [done|]. by rewrite (frozen_artifact _ _ Hf).
Qed.

(** A request that ran alone, in the middle of the others. *)
Lemma run_in_system {A} (σ : system PubTables response) (p : proc PubTables A) P :
  system_ok pub_inv evolves (if_ok anything) σ →
  (∀ s, pub_inv s → safe pub_inv evolves p (if_ok P) s) →
  let '(r, s') := run p (store σ) in
  system_ok pub_inv evolves (if_ok anything) {| store := s'; threads := threads σ |} ∧
  evolves (store σ) s' ∧ if_ok P r s'.
Proof.
  intros [Hi Hts] Hp.
  destruct (safe_run pub_inv evolves p (if_ok P) (store σ) Hi (Hp _ Hi)) as (Hi' & Hev & HQ).
  destruct (run p (store σ)) as [r s']. split; [|done]. split; [done|]. simpl in *.
  eapply Forall_impl; [exact Hts|]. intros t Ht. exact (safe_later pub_inv evolves t _ _ _ Ht Hev).
Qed.

(** C7. What is previewed is what clients get.  Take a preview in any reachable state,
    any activity of other requests, then a publication of that snapshot that hands
    out a new token: an export with that token answers with exactly the bytes and
    metadata of the preview, and any later export of that identifier, after any
    further activity and under any authorisation, answers with these bytes or with
    an error. *)
Theorem preview_publish_export_roundtrip σ σ' env q res s1 env' cmd pr s2 :
  reachable σ →
  (∀ u, env_uuid (pe_env env) = Some u → IsValidUUIDv7 u = true) →
  (∀ b, pe_random env' = Some b → Forall is_byte b) →
  run (Preview env q) (store σ) = (Ok res, s1) →
  sys_steps started {| store := s1; threads := threads σ |} σ' →
  pc_SnapshotID cmd = pr_SnapshotID res →
  run (Publish env' cmd) (store σ') = (Ok pr, s2) → pub_RawToken pr ≠ "active" →
  (∀ env'', env_io (pe_env env'') "publications.GetByID" = None →
     run (ResolveAndServe env'' (pr_SnapshotID res) (pub_RawToken pr)) s2 =
       (Ok (preview_artifact res), s2)) ∧
  ∀ σ'' env'' authorized art s3,
    sys_steps started {| store := s2; threads := threads σ' |} σ'' →
    run (ResolveAndServeAuthorized env'' (pr_SnapshotID res) authorized) (store σ'') = (Ok art, s3) →
    art = preview_artifact res.
Proof.
  intros Hr Huuid Hrand Hprev Hbetween Hcmd Hpub Htok.
  destruct (preview_id _ _ _ _ _ Hprev) as (u & Hu & Hid).
  destruct (snapshot_id_trimmed u (Huuid u Hu)) as [Htrim Hne]. rewrite <- Hid in Htrim, Hne.
  pose proof (run_in_system σ (Preview env q) previewed (reachable_inv σ Hr)
    (safe_preview env q)) as Hp1. rewrite Hprev in Hp1. destruct Hp1 as (Hok1 & _ & Hseen).
  destruct (later_inv _ _ Hok1 Hbetween) as [Hok2 Hev2].
  pose proof (run_in_system σ' (Publish env' cmd) anything Hok2 (safe_publish env' cmd)) as Hp2.
  rewrite Hpub in Hp2. destruct Hp2 as (Hok3 & Hev3 & _).
  pose proof (previewed_later _ _ _ (previewed_later _ _ _ Hseen Hev2) Hev3) as Hseen3.
  destruct (publish_named env' cmd (pr_SnapshotID res) (store σ') pr s2)
    as (p & b & Hp & Hfull & Hb & Hraw & Hrow); [by rewrite Hcmd|done|apply Hok2|done..|].
  split.
  - intros env'' Hio. destruct Hseen3 as (p3 & Hp3 & <-). rewrite Hrow in Hp3. injection Hp3 as <-.
    apply export_active; try done; [apply Hok3| |].
    + unfold blank. rewrite Htrim. by apply String.eqb_neq.
    + rewrite Hraw. apply token_not_blank. by apply Hrand.
  - intros σ'' env'' authorized art s3 Hlater Hserve.
    destruct (later_inv _ _ Hok3 Hlater) as [Hok4 Hev4].
    apply run_export in Hserve as [-> Hart]. destruct (Hart art eq_refl) as (row & Hq & Hs).
    destruct (previewed_later _ _ _ Hseen3 Hev4) as (p4 & Hp4 & <-).
    rewrite Hq in Hp4. injection Hp4 as <-.
    destruct (Hev4 _ _ Hrow) as (q' & Hq' & Hf & _). rewrite Hq in Hq'. injection Hq' as <-.
    apply (serve_stored _ _ _ _ _ (proj1 Hok4 _ _ Hq)) in Hs; [done|].
    by destruct (frozen_fields _ _ Hf) as (_ & _ & -> & _).
Qed.
End Concurrent.

(** ** Revocation, one request after the other *)

Section Serial.
Context `{GoText} `{RegexEngine} `{Sha256} `{Digests} `{Backend} `{Documents} `{Legacy}.

Definition serially (l : list (PubEnv * request)) (s : PubTables) : PubTables :=
  fold_left (λ s er, (run (handle er.1 er.2) s).2) l s.

Definition revoked_row (id : string) (s : PubTables) : Prop :=
  ∃ p, pt_rows s !! id = Some p ∧ pub_State p = PublicationStateRevoked.

(** The request leaves the revoked row [id] revoked. *)
Definition keeps_revoked {A} (id : string) (p : proc PubTables A) : Prop :=
  ∀ s, revoked_row id s → revoked_row id (run p s).2.

Lemma revoked_done {A} id (r : result error A) : keeps_revoked id (Done r).
Proof. intros s Hs. exact Hs. Qed.

Lemma revoked_bind {A B} id (p : proc PubTables A) (k : A → proc PubTables B) :
  keeps_revoked id p → (∀ a, keeps_revoked id (k a)) → keeps_revoked id (pbind p k).
Proof.
  intros Hp Hk s Hs. rewrite run_bind. specialize (Hp s Hs).
  destruct (run p s) as [[a|e] s']; [by apply Hk|done].
Qed.

Lemma revoked_attempt {A} id (p : proc PubTables A) :
  keeps_revoked id p → keeps_revoked id (attempt p).
Proof. intros Hp s Hs. rewrite run_attempt. by apply Hp. Qed.

Lemma revoked_rows {A} id (c : M PubTables A) : keeps_rows c → keeps_revoked id (step c).
Proof. intros Hc s (p & Hp & Hs). exists p. rewrite run_step, Hc. by split. Qed.

Lemma revoked_refuse id b e : keeps_revoked id (refuse_if b e).
Proof. unfold refuse_if. destruct b; apply revoked_done. Qed.

Lemma revoked_record id env op ok : keeps_revoked id (step (recordAudit env op ok)).
Proof. apply revoked_rows, record_keeps. Qed.

Lemma revoked_create id env p : keeps_revoked id (step (publications_Create env p)).
Proof.
  intros s (q & Hq & Hs). rewrite run_step.
  destruct (publications_Create env p s) as [[[]|e] s'] eqn:Hc; simpl.
  - apply statement_ok in Hc as [_ Hc]. destruct (bool_decide _) eqn:Hb; [done|]. simpl in Hc.
    destruct (negb _); [done|]. injection Hc as <-.
    apply bool_decide_eq_false, eq_None_not_Some in Hb. exists q. simpl.
    rewrite lookup_insert_ne by congruence. done.
  - apply statement_err in Hc as ->. by exists q.
Qed.

Lemma revoked_revoke id env id' at_ : keeps_revoked id (step (publications_Revoke env id' at_)).
Proof.
  intros s (q & Hq & Hs). rewrite run_step.
  destruct (publications_Revoke env id' at_ s) as [[[]|e] s'] eqn:Hc; simpl.
  - apply statement_ok in Hc as [_ Hc]. destruct (pt_rows s !! id') as [p|]; [|done].
    injection Hc as <-. unfold revoked_row. simpl. destruct (decide (id = id')) as [->|Hne].
    + rewrite lookup_insert_eq. by eexists.
    + rewrite lookup_insert_ne by done. by exists q.
  - apply statement_err in Hc as ->. by exists q.
Qed.

(** The structure of a request, and a tactic for its parts. *)
Ltac keeps_with part :=
  repeat first
    [ match goal with |- ∀ _, _ => intro end | part | apply revoked_bind | apply revoked_attempt
    | apply revoked_refuse | apply revoked_record | apply revoked_create | apply revoked_revoke
    | apply revoked_done | apply revoked_rows, query_keeps | apply revoked_rows, addrefs_keeps
    | match goal with |- keeps_revoked _ (match ?x with _ => _ end) => destruct x end ].

Lemma revoked_preview id env q : keeps_revoked id (Preview env q).
Proof.
  unfold Preview, preview_strict, preview_compatible, persist_draft, new_snapshot_id, stop, reject,
    give. keeps_with ltac:(fail).
Qed.

Lemma revoked_to_publish id env cmd : keeps_revoked id (snapshot_to_publish env cmd).
Proof.
  unfold snapshot_to_publish, create_failed, recordAudit_create, stop, give.
  keeps_with ltac:(apply revoked_preview).
Qed.

(** Activating the row another identifier names. *)
Lemma revoked_activate id env p hash :
  pub_ID p ≠ id → keeps_revoked id (step (publications_Activate env (pub_ID p) hash)).
Proof.
  intros Hne s (q & Hq & Hs). rewrite run_step.
  destruct (publications_Activate env _ _ s) as [[[]|e] s'] eqn:Hc; simpl.
  - apply statement_ok in Hc as [_ Hc]. destruct (pt_rows s !! pub_ID p); [|done].
    destruct (existsb _ _); [done|]. injection Hc as <-. exists q. simpl.
    by rewrite lookup_insert_ne.
  - apply statement_err in Hc as ->. by exists q.
Qed.

Lemma revoked_activate_row id env cmd p :
  pub_ID p ≠ id ∨ pub_State p = PublicationStateRevoked → keeps_revoked id (activate_row env cmd p).
Proof.
  intros [Hne|Hrev]; unfold activate_row, create_failed, recordAudit_create, stop, give.
  - keeps_with ltac:(by apply revoked_activate).
  - unfold refuse_if, reject, stop. destruct (negb _); [apply revoked_done|]. rewrite Hrev.
    apply revoked_done.
Qed.

Lemma revoked_failed {A} id env e : keeps_revoked id (create_failed (A := A) env e).
Proof. unfold create_failed, recordAudit_create, stop. keeps_with ltac:(fail). Qed.

Lemma revoked_publish id env cmd s :
  pub_inv s → revoked_row id s → revoked_row id (run (Publish env cmd) s).2.
Proof.
  intros Hi Hs. unfold Publish, refuse_if, reject, stop, give. destruct (negb _); [done|].
  cbn [pbind]. rewrite run_bind. pose proof (revoked_to_publish id env cmd s Hs) as Hs1.
  destruct (safe_run pub_inv evolves (snapshot_to_publish env cmd) _ s Hi
    (safe_to_publish env cmd s Hi)) as (Hi1 & _ & _).
  destruct (run (snapshot_to_publish env cmd) s) as [[id'|e] s1]; [|done]. simpl in Hs1, Hi1.
  rewrite run_bind, run_attempt, run_step. unfold publications_GetByID, query.
  destruct (env_io _ _); cbn [fst snd].
  { by apply revoked_failed. }
  destruct (pt_rows s1 !! id') as [p|] eqn:Hp; cbn [fst snd]; [|by apply revoked_failed].
  apply revoked_activate_row; [|done]. pose proof (row_id _ _ (Hi1 _ _ Hp)) as Hid.
  destruct (decide (id' = id)) as [->|Hne]; [right|left; congruence].
  destruct Hs1 as (q & Hq & Hrev). congruence.
Qed.

(** No request run alone brings a revoked publication back. *)
Lemma revoked_handle id env r s :
  pub_inv s → revoked_row id s → revoked_row id (run (handle env r) s).2.
Proof.
  intros Hi Hs. destruct r; cbn [handle].
  3: { rewrite run_bind. pose proof (revoked_publish id env cmd s Hi Hs).
       by destruct (run (Publish env cmd) s) as [[?|?] ?]. }
  all: revert s Hi Hs; intros s _; apply revoked_bind; [|intros ?; apply revoked_done].
  - unfold Preflight_request. keeps_with ltac:(fail).
  - apply revoked_preview.
  - unfold Revoke. keeps_with ltac:(fail).
  - unfold ResolveAndServeAuthorized. keeps_with ltac:(fail).
  - unfold IsPublicationToken. keeps_with ltac:(fail).
  - unfold ValidateToken. keeps_with ltac:(fail).
  - unfold Get. keeps_with ltac:(fail).
Qed.

Lemma revoked_serially id l s :
  pub_inv s → revoked_row id s → revoked_row id (serially l s).
Proof.
  revert s. induction l as [|[env r] l IH]; intros s Hi Hs; [done|]. simpl. apply IH.
  - apply (safe_run pub_inv evolves (handle env r) (if_ok anything) s); [done|].
    apply safe_handle; [by exists env, r|done].
  - by apply revoked_handle.
Qed.

Lemma revoke_revokes env id s p s' :
  run (Revoke env id) s = (Ok p, s') → revoked_row id s'.
Proof.
  unfold Revoke. intros (q & s1 & Hg & Hrun)%run_bind_ok. rewrite run_step in Hg.
  apply query_ok in Hg as (-> & _ & Hq). destruct (pt_rows s !! id) as [q'|] eqn:Hrow; [|done].
  injection Hq as <-. destruct (Publication_Revoke _ _) as [rv|]; [|by
    apply run_bind_ok in Hrun as (? & ? & _ & [=])].
  rewrite run_bind, run_attempt, run_step in Hrun.
  destruct (publications_Revoke _ _ _ s) as [[[]|e] s2] eqn:Hr; cbn [fst snd] in Hrun;
    [|by apply run_bind_ok in Hrun as (? & ? & _ & [=])].
  apply statement_ok in Hr as [_ Hr]. rewrite Hrow in Hr. injection Hr as <-.
  apply run_bind_ok in Hrun as (? & s3 & Hrec & [= _ <-]).
  enough (revoked_row id (run (step (recordAudit (pe_env env) "publication.revoke" true))
    (with_rows (<[id := with_state PublicationStateRevoked (pub_TokenHash q')
       (Some (rfc3339 (env_now (pe_env env)))) q']> (pt_rows s)) s)).2) as Hx by (by rewrite Hrec in Hx).
  apply revoked_record. unfold revoked_row. simpl. rewrite lookup_insert_eq. by eexists.
Qed.

(** C9. A revocation is final when requests run one after the other: after a
    successful revocation in any reachable state, whatever requests follow, an
    export of that publication is refused, under every authorisation. *)
Theorem revocation_is_final σ env id p s' l env' authorized :
  reachable σ → run (Revoke env id) (store σ) = (Ok p, s') →
  (run (ResolveAndServeAuthorized env' id authorized) (serially l s')).1 ∈
    [Err ErrRevoked; Err ErrNotFound].
Proof.
  intros Hr Hrun. destruct (reachable_inv σ Hr) as [Hi _].
  destruct (safe_run pub_inv evolves (Revoke env id) _ (store σ) Hi (safe_revocation env id _ Hi))
    as (Hi' & _ & _). rewrite Hrun in Hi'. simpl in Hi'.
  destruct (revoked_serially id l s' Hi' (revoke_revokes _ _ _ _ _ Hrun)) as (q & Hq & Hs).
  unfold ResolveAndServeAuthorized. destruct (blank id); [simpl; set_solver|].
  rewrite run_bind, run_attempt, run_step. unfold publications_GetByID, query.
  destruct (env_io _ _); simpl; [set_solver|]. rewrite Hq. simpl.
  unfold serve_row, Publication_IsActive. rewrite Hs. simpl. set_solver.
Qed.
End Serial.

(** ** Instances *)

Definition sample_documents : Documents :=
  {| yaml_Unmarshal := λ _, None; json_Unmarshal_ok := λ _, true |}.
#[local] Existing Instance ascii_text.
#[local] Existing Instance witness_engine.
#[local] Existing Instance sample_sha.
#[local] Existing Instance sample_digests.
#[local] Existing Instance sample_backend.
#[local] Existing Instance sample_documents.

#[local] Instance no_legacy : Legacy := (∅ : gset string).

Definition empty_system : system PubTables response := start_system empty_tables.
Lemma empty_reachable : reachable empty_system.
Proof. exists empty_tables. split; [|apply rtc_refl]. intros id p Hp. simpl in Hp. by apply lookup_empty_Some in Hp. Qed.

Definition sample_uuid := "01890a5d-ac96-774b-bcce-b302099a8057".
Definition pub_env : PubEnv :=
  {| pe_env := {| env_now := 1700000000000000000; env_uuid := Some sample_uuid;
                  env_io := λ _, None |};
     pe_done := false; pe_later := 1700000000000000000; pe_random := Some (replicate 32 7%Z);
     pe_repos := two_node_repos; pe_payloads := None |}%Z.
Definition surge_query : PreviewQuery :=
  {| pq_Target := TargetSurge; pq_RevisionID := "r1"; pq_CompatMode := ""; pq_Prune := false;
     pq_Omit := false; pq_Snapshot := Some surge_sample |}.
Definition surge_id := "snapshot_" +:+ sample_uuid.
Definition surge_publish : PublishCommand :=
  {| pc_Target := TargetSurge; pc_SnapshotID := surge_id; pc_RevisionID := "";
     pc_Prune := false; pc_Omit := false; pc_Snapshot := None |}.
Definition surge_token := "pub_" +:+ hex_bytes (replicate 32 7%Z).

Definition arrive (r : request) (σ : system PubTables response) : system PubTables response :=
  {| store := store σ; threads := threads σ ++ [handle pub_env r] |}.

Lemma arrive_steps σ r : sys_steps started σ (arrive r σ).
Proof. destruct σ as [s ts]. apply rtc_once, sys_spawn. by exists pub_env, r. Qed.
Lemma schedule_reachable l σ : reachable σ → reachable (schedule l σ).
Proof. intros (s & Hl & Hr). exists s. split; [done|]. unfold sys_steps in *. etrans; [exact Hr|apply schedule_steps]. Qed.
Lemma arrive_reachable r σ : reachable σ → reachable (arrive r σ).
Proof. intros (s & Hl & Hr). exists s. split; [done|]. unfold sys_steps in *. etrans; [exact Hr|apply arrive_steps]. Qed.

(** A previewed snapshot, and its publication. *)
Definition drafted : system PubTables response :=
  schedule [0] (arrive (RPreview surge_query) empty_system).
Definition published : system PubTables response :=
  schedule [1; 1; 1] (arrive (RPublish surge_publish) drafted).

Lemma drafted_reachable : reachable drafted.
Proof. apply schedule_reachable, arrive_reachable, empty_reachable. Qed.
Lemma published_reachable : reachable published.
Proof. apply schedule_reachable, arrive_reachable, drafted_reachable. Qed.

Lemma publications_immutable_witness :
  match pt_rows (store drafted) !! surge_id with
  | Some p => pub_State p = PublicationStateDraft ∧
      ∃ p', pt_rows (store published) !! surge_id = Some p' ∧ pub_Content p' = pub_Content p
  | None => False
  end.
Proof.
  assert (∃ p, pt_rows (store drafted) !! surge_id = Some p ∧
    pub_State p = PublicationStateDraft) as (p & Hp & Hs)
    by (eexists; split; [vm_compute; reflexivity|vm_compute; reflexivity]).
  rewrite Hp. split; [exact Hs|].
  destruct (publications_immutable drafted published surge_id p drafted_reachable)
    as (p' & Hp' & Hf & _); [|exact Hp|].
  { etrans; [apply arrive_steps|apply schedule_steps]. }
  exists p'. split; [exact Hp'|]. exact (f_equal pub_Content Hf).
Defined.

Lemma export_serves_published_bytes_witness :
  ∃ art s', run (ResolveAndServe pub_env surge_id surge_token) (store published) = (Ok art, s') ∧
    art_Content art = surge_sample_content ∧
    art_ContentDigest art = content_digest (art_Content art).
Proof.
  eexists _, _. split; [vm_compute; reflexivity|]. split; [vm_compute; reflexivity|].
  destruct (export_serves_published_bytes published pub_env surge_id (token_matches surge_token)
    {| art_PublicationID := surge_id; art_Target := TargetSurge;
       art_Content := surge_sample_content; art_ContentType := "text/plain; charset=utf-8";
       art_Filename := "surge.conf"; art_ContentDigest := content_digest surge_sample_content;
       art_SnapshotDigest := snap_SnapshotDigest surge_sample |} (store published)
    published_reachable) as (_ & Hd & _); [vm_compute; reflexivity|exact Hd].
Defined.

Definition surge_preview : PreviewResult :=
  preview_result surge_id "r1" TargetSurge surge_sample 0 [] []
    {| res_Target := TargetSurge; res_ContentType := "text/plain; charset=utf-8";
       res_Filename := "surge.conf"; res_Content := surge_sample_content;
       res_ContentDigest := content_digest surge_sample_content;
       res_SnapshotDigest := snap_SnapshotDigest surge_sample |}.

Lemma preview_publish_export_roundtrip_witness :
  run (Preview pub_env surge_query) (store empty_system) = (Ok surge_preview, store drafted) ∧
  pr_Content surge_preview = surge_sample_content ∧
  match run (Publish pub_env surge_publish) (store drafted) with
  | (Ok pr, s2) => pub_RawToken pr = surge_token ∧
      run (ResolveAndServe pub_env surge_id surge_token) s2 = (Ok (preview_artifact surge_preview), s2)
  | _ => False
  end.
Proof.
  assert (run (Preview pub_env surge_query) (store empty_system) = (Ok surge_preview, store drafted))
    as Hprev by (vm_compute; reflexivity).
  split; [exact Hprev|]. split; [vm_compute; reflexivity|].
  destruct (run (Publish pub_env surge_publish) (store drafted)) as [[pr|e] s2] eqn:Hpub;
    [|vm_compute in Hpub; discriminate].
  assert (pub_RawToken pr = surge_token) as Htok
    by (vm_compute in Hpub; injection Hpub as <- _; vm_compute; reflexivity).
  split; [exact Htok|]. rewrite <- Htok.
  apply (preview_publish_export_roundtrip empty_system {| store := store drafted; threads := [] |}
    pub_env surge_query surge_preview (store drafted) pub_env surge_publish pr s2).
  - apply empty_reachable.
  - intros u [= <-]. vm_compute. reflexivity.
  - intros b [= <-]. repeat (constructor; [split; [discriminate|reflexivity]|]). constructor.
  - exact Hprev.
  - apply rtc_refl.
  - vm_compute. reflexivity.
  - exact Hpub.
  - rewrite Htok. discriminate.
  - reflexivity.
Defined.

Lemma revocation_is_final_witness :
  match run (Revoke pub_env surge_id) (store published) with
  | (Ok _, s') =>
      (run (ResolveAndServeAuthorized pub_env surge_id (λ _, true))
        (serially [(pub_env, RPublish surge_publish)] s')).1 ∈ [Err ErrRevoked; Err ErrNotFound]
  | _ => False
  end.
Proof.
  destruct (run (Revoke pub_env surge_id) (store published)) as [[p|e] s'] eqn:Hr;
    [|vm_compute in Hr; discriminate].
  exact (revocation_is_final published pub_env surge_id p s' _ pub_env (λ _, true)
    published_reachable Hr).
Defined.

(** ** What the code does not guarantee *)

(** Activation does not look at the state of the row.  Here a publication reads the
    draft, a revocation runs to its end and answers with success, and only then the
    publication activates the row: the revoked snapshot is exported. *)
Definition race : system PubTables response :=
  schedule [1; 2; 2; 2; 1; 1] (arrive (RRevoke surge_id) (arrive (RPublish surge_publish) drafted)).

(** C10. A revocation that races a publication can be lost: in some reachable state the
    revocation of a publication has been answered with success, and an export of it
    with the token that the concurrent publication was answered still succeeds; the
    row is active although it carries its time of revocation. *)
Theorem racing_publish_undoes_revocation :
  reachable race ∧
  (∃ p, threads race !! 2 = Some (Done (Ok (Revoked p))) ∧ pub_ID p = surge_id) ∧
  (∃ pr, threads race !! 1 = Some (Done (Ok (Published pr))) ∧ pub_RawToken pr = surge_token) ∧
  (∃ row, pt_rows (store race) !! surge_id = Some row ∧ is_Some (pub_RevokedAt row)) ∧
  ∃ art, (run (ResolveAndServe pub_env surge_id surge_token) (store race)).1 = Ok art.
Proof.
  split; [by apply schedule_reachable, arrive_reachable, arrive_reachable, drafted_reachable|].
  split; [eexists; split; vm_compute; reflexivity|].
  split; [eexists; split; vm_compute; reflexivity|].
  split; [eexists; split; [vm_compute; reflexivity|by eexists]|].
  eexists. vm_compute. reflexivity.
Qed.

(** Publishing an active snapshot again answers with the word [active] as its token,
    which the export refuses. *)
Theorem republishing_hands_out_no_token :
  ∃ pr s', run (Publish pub_env surge_publish) (store published) = (Ok pr, s') ∧
    pub_RawToken pr = "active" ∧
    (run (ResolveAndServe pub_env surge_id (pub_RawToken pr)) s').1 = Err ErrUnauthorized.
Proof.
  eexists _, _. split; [vm_compute; reflexivity|]. split; vm_compute; reflexivity.
Qed.

(** The token of a revoked publication is still called a publication token. *)
Theorem revoked_token_is_publication_token :
  ∃ p s', run (Revoke pub_env surge_id) (store published) = (Ok p, s') ∧
    (run (IsPublicationToken pub_env surge_token) s').1 = Ok true.
Proof. eexists _, _. split; vm_compute; reflexivity. Qed.
