(* ===== verification/Server.v ===== *)
(** * The HTTP control plane: authentication and its handlers

    [internal/transport/http]: [middleware_auth.go], the auth handlers of [router.go],
    the settings handlers of [settings.go] and the publication handlers of
    [publications.go] and [publications_preflight.go], wired as [cmd/csp/main.go] does.
    A request is decoded already: its JSON body and query are the arguments of the
    operation.  A handler is a sequence of steps on the auth state and the
    publication tables, and requests interleave between steps ([Requests]). *)

From S2P Require Import Prelude.
From S2P Require Import GoStrings.
From S2P Require Import Domain.
From S2P Require Import Lifecycle.
From S2P Require Import NodeFilter.
From S2P Require Import Admission.
From S2P Require Import Groups.
From S2P Require Import ResolveGroups.
From S2P Require Import Resolver.
From S2P Require Import Capabilities.
From S2P Require Import Compiler.
From S2P Require Import Services.
From S2P Require Import Requests.
From S2P Require Import Preflight.
From S2P Require Import Publication.
From S2P Require Import Auth.

(** ** State and steps *)

Record ServerState : Type := { sv_auth : AuthState; sv_pub : PubTables }.
Definition with_auth (a : AuthState) (s : ServerState) : ServerState :=
  {| sv_auth := a; sv_pub := sv_pub s |}.
Definition with_pub (p : PubTables) (s : ServerState) : ServerState :=
  {| sv_auth := sv_auth s; sv_pub := p |}.

Definition on_auth {A} (c : M AuthState A) : proc ServerState A :=
  step (λ s, ((c (sv_auth s)).1, with_auth (c (sv_auth s)).2 s)).
Definition read_auth {A} (f : AuthState → A) : proc ServerState A := on_auth (λ s, (Ok (f s), s)).
Definition write_auth (f : AuthState → AuthState) : proc ServerState unit :=
  on_auth (λ s, (Ok tt, f s)).

(** A request to the publication service. *)
Fixpoint on_pub {A} (p : proc PubTables A) : proc ServerState A :=
  match p with
  | Done r => Done r
  | Atomic next upd => Atomic (λ s, on_pub (next (sv_pub s))) (λ s, with_pub (upd (sv_pub s)) s)
  end.

(** ** Requests and replies *)

Record HttpRequest : Type := {
  rq_Method : string;
  rq_Authorization : string;
  rq_Cookie : option string;
  rq_CSRFHeader : string;
  rq_CSRFForm : string
}.

Inductive auth_method : Type := AuthMethodBearer | AuthMethodCookie | AuthMethodOpenMode.
#[export] Instance auth_method_eq_dec : EqDecision auth_method.
Proof. solve_decision. Defined.

(** The verdict of the middleware: the context of the request, or an error. *)
Inductive gate : Type :=
  | Passed (how : auth_method) (subject : string) (session : option SessionInfo)
  | Refused (status : Z) (code : string).

Record AuthStatusData : Type := {
  asd_Mode : string; asd_AdminMode : string; asd_ExportMode : string;
  asd_Authenticated : bool; asd_Subject : string
}.
Record AuthSettingsResponse : Type := {
  asr_TokenConfigured : bool; asr_AdminAuthEnabled : bool; asr_ExportAuthEnabled : bool;
  asr_AdminMode : string; asr_ExportMode : string
}.

Inductive payload : Type :=
  | Status (d : AuthStatusData)
  | LoggedIn (session : option SessionInfo)
  | LoggedOut
  | AuthSettings (r : AuthSettingsResponse)
  | TokenStatus (mode : string) (configured : bool)
  | PreflightReport (r : PreflightResult)
  | PreviewReport (r : PreviewResult)
  | PublishReport (r : PublishResult)
  | RevokeReport (p : Publication)
  | DetailReport (d : PublicationDetail)
  | File (a : Artifact).

(** [WriteError], [WriteDomainError] and [WriteSuccess]. *)
Inductive reply : Type :=
  | WriteError (status : Z) (code : string)
  | WriteDomainError (e : error)
  | WriteSuccess (status : Z) (data : payload).

Record SrvEnv : Type := { se_auth : AuthEnv; se_pub : PubEnv }.

Section Server.
Context `{GoText} `{RegexEngine} `{Sha256} `{Digests} `{Backend} `{Documents} `{Bcrypt}.

(** ** Authentication *)

(** The token of an [Authorization] header. *)
Definition bearer_token (header : string) : string :=
  match cut " " (TrimSpace header) with
  | Some (scheme, rest) => if EqualFold scheme "bearer" then TrimSpace rest else ""
  | None => ""
  end.

Definition isPublicationToken (env : SrvEnv) (token : string) : proc ServerState bool :=
  let@ yes := on_pub (IsPublicationToken (se_pub env) token) in
  if yes then give true
  else on_pub (ValidateToken (se_pub env) "" token).

(** [SessionValidator], which is the store's [Get], and then the store again. *)
Definition find_session (env : SrvEnv) (id : string) : proc ServerState (option SessionInfo) :=
  let@ first := on_auth (sessions_Get (se_auth env) id) in
  match first with
  | Some info => give (Some info)
  | None => on_auth (sessions_Get (se_auth env) id)
  end.

Definition AdminAuthMiddleware (env : SrvEnv) (r : HttpRequest) : proc ServerState gate :=
  let token := bearer_token (rq_Authorization r) in
  let@ mode := read_auth AdminMode in
  if String.eqb mode SecurityModeOpen then give (Passed AuthMethodOpenMode "admin" None)
  else
    let@ export_only := (if String.eqb token "" then give false else isPublicationToken env token) in
    if export_only then give (Refused 403 "invalid_token_scope")
    else if negb (String.eqb token "") then
      let@ valid := read_auth (λ s, Verify s token) in
      give (if valid then Passed AuthMethodBearer "admin" None else Refused 401 "unauthorized")
    else
      match rq_Cookie r with
      | Some id =>
          if String.eqb id "" then give (Refused 401 "unauthorized")
          else
            let@ found := find_session env id in
            give (match found with
                  | Some info => Passed AuthMethodCookie (se_Subject info) (Some info)
                  | None => Refused 401 "unauthorized"
                  end)
      | None => give (Refused 401 "unauthorized")
      end.

Definition state_changing (verb : string) : bool := mem_str verb ["POST"; "PUT"; "PATCH"; "DELETE"].

(** Only ambient credentials need the token. *)
Definition CSRFMiddleware (r : HttpRequest) (g : gate) : option reply :=
  match g with
  | Refused status code => Some (WriteError status code)
  | Passed how _ session =>
      if state_changing (rq_Method r) && bool_decide (how = AuthMethodCookie) then
        match session with
        | None => Some (WriteError 403 "csrf_validation_failed")
        | Some info =>
            let header := TrimSpace (rq_CSRFHeader r) in
            let token := if String.eqb header "" then TrimSpace (rq_CSRFForm r) else header in
            if String.eqb token "" || negb (String.eqb token (se_CSRFToken info))
            then Some (WriteError 403 "csrf_validation_failed") else None
        end
      else None
  end.

(** ** Public handlers *)

Definition authStatusHandler (env : SrvEnv) (r : HttpRequest) : proc ServerState reply :=
  let status mode export ok subject :=
    WriteSuccess 200 (Status {| asd_Mode := mode; asd_AdminMode := mode; asd_ExportMode := export;
                                asd_Authenticated := ok; asd_Subject := subject |}) in
  let token := bearer_token (rq_Authorization r) in
  let@ mode := read_auth AdminMode in
  let@ export := read_auth ExportMode in
  if String.eqb mode SecurityModeOpen then give (status mode export true "admin")
  else
    let@ valid := (if String.eqb token "" then give false else read_auth (λ s, Verify s token)) in
    if valid then give (status SecurityModeProtected export true "admin")
    else
      let@ found := match rq_Cookie r with
                    | Some id => if String.eqb id "" then give None else find_session env id
                    | None => give None
                    end in
      give (match found with
            | Some info => status SecurityModeProtected export true (se_Subject info)
            | None => status SecurityModeProtected export false ""
            end).

(** [json] is [None] when the body cannot be decoded. *)
Definition authLoginHandler (env : SrvEnv) (json : option string) : proc ServerState reply :=
  let@ mode := read_auth AdminMode in
  if String.eqb mode SecurityModeOpen then give (WriteSuccess 200 (LoggedIn None))
  else
    match json with
    | None => give (WriteError 400 "bad_request")
    | Some token =>
        let trimmed := TrimSpace token in
        let@ valid := read_auth (λ s, Verify s trimmed) in
        if String.eqb trimmed "" || negb valid then give (WriteError 401 "unauthorized")
        else
          let@ session := attempt (on_auth (sessions_Create (se_auth env) "admin")) in
          give (WriteSuccess 200 (LoggedIn (match session with Ok i => Some i | Err _ => None end)))
    end.

Definition authLogoutHandler (r : HttpRequest) : proc ServerState reply :=
  (match rq_Cookie r with
   | Some id => if String.eqb id "" then give tt else write_auth (sessions_Revoke id)
   | None => give tt
   end) ;;@
  give (WriteSuccess 200 LoggedOut).

(** The token of an export request: the query, or else the header. *)
Definition export_token (query header : string) : string :=
  let token := TrimSpace query in
  if negb (String.eqb token "") then token
  else
    let h := TrimSpace header in
    if HasPrefix (ToLower h) "bearer " then TrimSpace (String.substring 7 (String.length h - 7) h) else "".

Definition export_reply (r : result error Artifact) : reply :=
  match r with
  | Ok a => WriteSuccess 200 (File a)
  | Err e =>
      if bool_decide (e = ErrNotFound) then WriteError 404 "publication_not_found"
      else if bool_decide (e = ErrRevoked) then WriteError 403 "publication_revoked"
      else if bool_decide (e = ErrUnauthorized) then WriteError 401 "unauthorized"
      else if bool_decide (e = ErrUnsupportedTarget) then WriteError 422 "unsupported_target"
      else WriteError 500 "internal_error"
  end.

(** The holder is asked in the middle of the export: first the row is loaded, then
    the switches and the verifier of that moment decide. *)
Definition publicationClientHandler (env : SrvEnv) (id query header : string)
    : proc ServerState reply :=
  let pubID := TrimSpace id in
  let token := export_token query header in
  if String.eqb pubID "" then give (WriteError 404 "publication_not_found")
  else
    let@ row := attempt (on_pub (step (publications_GetByID (pe_env (se_pub env)) pubID))) in
    match row with
    | Err _ => give (export_reply (Err ErrNotFound))
    | Ok p =>
        if negb (Publication_IsActive p) then give (export_reply (Err ErrRevoked))
        else
          let@ authorized := read_auth (λ s, VerifyExportToken s token (pub_TokenHash p)) in
          give (export_reply (serve_row (se_pub env) (λ _, authorized) p))
    end.

(** ** The administration API *)

Inductive api_op : Type :=
  | ApiCreate (cmd : PublishCommand)
  | ApiPreview (q : PreviewQuery)
  | ApiPreflight (q : PreviewQuery)
  | ApiGet (id : string)
  | ApiRevoke (id : string)
  | ApiUpdateToken (token : option string)
  | ApiTokenStatus
  | ApiPutAuth (body : option (string * bool * option bool * option bool))
  | ApiGetAuth.

(** The methods a route is registered under. *)
Definition api_methods (op : api_op) : list string :=
  match op with
  | ApiCreate _ | ApiPreview _ | ApiUpdateToken _ => ["POST"]
  | ApiRevoke _ => ["POST"; "DELETE"]
  | ApiPreflight _ => ["POST"; "GET"]
  | ApiPutAuth _ => ["PUT"]
  | ApiGet _ | ApiTokenStatus | ApiGetAuth => ["GET"]
  end.

Definition domain_reply {A} (ok : A → reply) (r : result error A) : reply :=
  match r with Ok a => ok a | Err e => WriteDomainError e end.

Definition handle_create (env : SrvEnv) (cmd : PublishCommand) : proc ServerState reply :=
  let target := TrimSpace (pc_Target cmd) in
  let id := TrimSpace (pc_SnapshotID cmd) in
  if String.eqb target "" then give (WriteError 422 "invalid_target")
  else if negb (enum_valid validCompilerTargets target) then give (WriteError 422 "unsupported_target")
  else if String.eqb id "" then
    let@ r := attempt (on_pub (Preflight_request (se_pub env)
      {| pq_Target := target; pq_RevisionID := TrimSpace (pc_RevisionID cmd); pq_CompatMode := "";
         pq_Prune := pc_Prune cmd; pq_Omit := pc_Omit cmd; pq_Snapshot := None |})) in
    give (domain_reply (λ p, if pf_Allowed p then WriteError 400 "snapshot_required"
                             else WriteDomainError (domain_error preflight_rejected)) r)
  else
    let@ r := attempt (on_pub (Publish (se_pub env)
      {| pc_Target := target; pc_SnapshotID := id; pc_RevisionID := TrimSpace (pc_RevisionID cmd);
         pc_Prune := pc_Prune cmd; pc_Omit := pc_Omit cmd; pc_Snapshot := None |})) in
    give (domain_reply (λ res,
      WriteSuccess (if String.eqb (pub_State (pub_Publication res)) PublicationStateActive &&
                       String.eqb (pub_RawToken res) "active" then 200 else 201)
        (PublishReport res)) r).

Definition handle_preview (env : SrvEnv) (q : PreviewQuery) : proc ServerState reply :=
  let target := TrimSpace (pq_Target q) in
  if String.eqb target "" then give (WriteError 422 "invalid_target")
  else
    let@ r := attempt (on_pub (Preview (se_pub env)
      {| pq_Target := target; pq_RevisionID := TrimSpace (pq_RevisionID q);
         pq_CompatMode := TrimSpace (pq_CompatMode q); pq_Prune := pq_Prune q;
         pq_Omit := pq_Omit q; pq_Snapshot := None |})) in
    give (domain_reply (λ res, WriteSuccess 200 (PreviewReport res)) r).

Definition handle_preflight (env : SrvEnv) (q : PreviewQuery) : proc ServerState reply :=
  let target := TrimSpace (pq_Target q) in
  if String.eqb target "" then give (WriteError 422 "invalid_target")
  else
    let@ r := attempt (on_pub (Preflight_request (se_pub env)
      {| pq_Target := target; pq_RevisionID := TrimSpace (pq_RevisionID q); pq_CompatMode := "";
         pq_Prune := false; pq_Omit := false; pq_Snapshot := None |})) in
    give (domain_reply (λ res, WriteSuccess 200 (PreflightReport res)) r).

Definition handle_get (env : SrvEnv) (id : string) : proc ServerState reply :=
  if blank id then give (WriteError 404 "publication_not_found")
  else
    let@ r := attempt (on_pub (Get (se_pub env) id)) in
    give (domain_reply (λ d, WriteSuccess 200 (DetailReport d)) r).

Definition handle_revoke (env : SrvEnv) (id : string) : proc ServerState reply :=
  if blank id then give (WriteError 404 "publication_not_found")
  else
    let@ r := attempt (on_pub (Revoke (se_pub env) id)) in
    give (domain_reply (λ p, WriteSuccess 200 (RevokeReport p)) r).

Definition settingsAuthResponse (s : AuthState) : AuthSettingsResponse :=
  {| asr_TokenConfigured := negb (String.eqb (au_verifier s) "");
     asr_AdminAuthEnabled := au_admin s; asr_ExportAuthEnabled := au_export s;
     asr_AdminMode := if au_admin s && negb (String.eqb (au_verifier s) "")
                      then SecurityModeProtected else SecurityModeOpen;
     asr_ExportMode := if au_export s then SecurityModeProtected else SecurityModeOpen |}.

Definition audit (env : SrvEnv) (what : string) : proc ServerState unit :=
  on_pub (step (recordAudit (pe_env (se_pub env)) what true)).

(** [body] is [None] when the payload cannot be decoded. *)
Definition settingsUpdateAdminTokenHandler (env : SrvEnv) (body : option string)
    : proc ServerState reply :=
  match body with
  | None => give (WriteError 400 "bad_request")
  | Some token =>
      let@ r := attempt (on_auth (UpdateToken (se_auth env) (TrimSpace token))) in
      match r with
      | Err _ => give (WriteError 500 "internal_error")
      | Ok _ =>
          let@ mode := read_auth AdminMode in
          let@ configured := read_auth (λ s, negb (String.eqb (CurrentVerifier s) "")) in
          audit env (if configured then "settings.admin_token.update"
                     else "settings.admin_token.clear") ;;@
          give (WriteSuccess 200 (TokenStatus mode configured))
      end
  end.

Definition settingsGetAdminTokenStatusHandler : proc ServerState reply :=
  let@ mode := read_auth AdminMode in
  let@ configured := read_auth (λ s, negb (String.eqb (CurrentVerifier s) "")) in
  give (WriteSuccess 200 (TokenStatus mode configured)).

(** The body: the token, whether to clear it, and the two switches. *)
Definition settingsPutAuthHandler (env : SrvEnv)
    (body : option (string * bool * option bool * option bool)) : proc ServerState reply :=
  match body with
  | Some (token, clear, Some admin, Some export) =>
      let trimmed := TrimSpace token in
      if clear && negb (String.eqb trimmed "") then give (WriteError 400 "bad_request")
      else
        let change := if clear then Some ""
                      else if String.eqb trimmed "" then None else Some trimmed in
        let@ r := attempt (on_auth (UpdateAuthSettings (se_auth env) admin export change)) in
        match r with
        | Err _ => give (WriteError 500 "internal_error")
        | Ok _ =>
            audit env "settings.auth.update" ;;@
            let@ resp := read_auth settingsAuthResponse in
            give (WriteSuccess 200 (AuthSettings resp))
        end
  | _ => give (WriteError 400 "bad_request")
  end.

Definition api_handler (env : SrvEnv) (op : api_op) : proc ServerState reply :=
  match op with
  | ApiCreate cmd => handle_create env cmd
  | ApiPreview q => handle_preview env q
  | ApiPreflight q => handle_preflight env q
  | ApiGet id => handle_get env id
  | ApiRevoke id => handle_revoke env id
  | ApiUpdateToken body => settingsUpdateAdminTokenHandler env body
  | ApiTokenStatus => settingsGetAdminTokenStatusHandler
  | ApiPutAuth body => settingsPutAuthHandler env body
  | ApiGetAuth => let@ resp := read_auth settingsAuthResponse in
                  give (WriteSuccess 200 (AuthSettings resp))
  end.

(** [api.Use(AdminAuthMiddleware); api.Use(CSRFMiddleware)]: the middleware of the
    sub-router runs before it looks at the method. *)
Definition api_request (env : SrvEnv) (r : HttpRequest) (op : api_op) : proc ServerState reply :=
  let@ g := AdminAuthMiddleware env r in
  match CSRFMiddleware r g with
  | Some refusal => give refusal
  | None => if mem_str (rq_Method r) (api_methods op) then api_handler env op
            else give (WriteError 405 "method_not_allowed")
  end.

(** ** The router *)

Inductive http_request : Type :=
  | HStatus (r : HttpRequest)
  | HLogin (json : option string)
  | HLogout (r : HttpRequest)
  | HExport (id query header : string)
  | HApi (r : HttpRequest) (op : api_op).

Definition serve (env : SrvEnv) (q : http_request) : proc ServerState reply :=
  match q with
  | HStatus r => authStatusHandler env r
  | HLogin json => authLoginHandler env json
  | HLogout r => authLogoutHandler r
  | HExport id query header => publicationClientHandler env id query header
  | HApi r op => api_request env r op
  end.
End Server.
