(* ===== verification/ServerProperties.v ===== *)
(** * What the control plane guarantees

    For any number of concurrent requests: the auth state in memory is the one a
    restart loads, and the publication tables keep their invariant.  For a request
    that runs alone in any reachable state: what it takes to pass the gate of the
    administration API, and what it takes to get an export. *)

From S2P Require Import Prelude.
From S2P Require Import GoStrings.
From S2P Require Import Domain.
From S2P Require Import Lifecycle.
From S2P Require Import NodeFilter.
From S2P Require Import Admission.
From S2P Require Import Groups.
From S2P Require Import ResolveGroups.
From S2P Require Import Resolver.
From S2P Require Import Capabilities.
From S2P Require Import Surge.
From S2P Require Import Compiler.
From S2P Require Import Services.
From S2P Require Import Requests.
From S2P Require Import Preflight.
From S2P Require Import Publication.
From S2P Require Import PublicationProperties.
From S2P Require Import Auth.
From S2P Require Import Server.

Section Concurrent.
Context `{GoText} `{RegexEngine} `{Sha256} `{Digests} `{Backend} `{Documents} `{Bcrypt} `{Legacy}.

(** ** The invariant of the server *)

Definition srv_inv (s : ServerState) : Prop := auth_inv (sv_auth s) ∧ pub_inv (sv_pub s).
Definition srv_evolves (s s' : ServerState) : Prop := evolves (sv_pub s) (sv_pub s').

#[local] Instance srv_preorder : PreOrder srv_evolves.
Proof.
  split; [intros s; unfold srv_evolves; reflexivity|].
  intros s1 s2 s3. unfold srv_evolves. intros. by etrans.
Qed.

(** Every step of the request keeps the invariant. *)
Definition keeps {A} (p : proc ServerState A) : Prop :=
  ∀ s, srv_inv s → safe srv_inv srv_evolves p (λ _ _, True) s.

Lemma keeps_done {A} (r : result error A) : keeps (Done r).
Proof. done. Qed.

Lemma keeps_bind {A B} (p : proc ServerState A) (k : A → proc ServerState B) :
  keeps p → (∀ a, keeps (k a)) → keeps (pbind p k).
Proof.
  intros Hp Hk s Hi. eapply safe_bind; [apply _|done|by apply Hp| |done].
  intros a s' _ Hi' _. by apply Hk.
Qed.

Lemma keeps_attempt {A} (p : proc ServerState A) : keeps p → keeps (attempt p).
Proof. intros Hp s Hi. eapply safe_attempt; [apply _|by apply Hp|done]. Qed.

Lemma keeps_on_auth {A} (c : M AuthState A) :
  (∀ a, auth_inv a → auth_inv (c a).2) → keeps (on_auth c).
Proof.
  intros Hc s _. apply safe_step. intros s' _ [Ha Hp]. split; [split; [by apply Hc|done]|].
  split; [unfold srv_evolves; reflexivity|done].
Qed.

Lemma keeps_read {A} (f : AuthState → A) : keeps (read_auth f).
Proof. by apply keeps_on_auth. Qed.

Lemma keeps_on_pub {A} (p : proc PubTables A) (P : A → PubTables → Prop) :
  (∀ s, pub_inv s → safe pub_inv evolves p (if_ok P) s) → keeps (on_pub p).
Proof.
  intros Hp s [_ Hi]. specialize (Hp _ Hi). clear Hi. revert s Hp.
  induction p as [r|next IH upd]; intros s Hp; [done|]. intros s' Hev [Ha Hi]. simpl in Hp.
  destruct (Hp (sv_pub s') Hev Hi) as (Hi2 & Hev2 & Hs2). split; [by split|]. split; [done|].
  by apply IH.
Qed.

(** The structure of a handler. *)
Ltac keeps_handler :=
  repeat match goal with
         | |- keeps (pbind _ _) => apply keeps_bind
         | |- keeps (attempt _) => apply keeps_attempt
         | |- keeps (Done _) => apply keeps_done
         | |- keeps (read_auth _) => apply keeps_read
         | |- keeps (match ?x with _ => _ end) => destruct x
         | |- ∀ _, _ => intro
         end.

Lemma keeps_token env token : keeps (isPublicationToken env token).
Proof.
  unfold isPublicationToken, give. keeps_handler.
  - eapply keeps_on_pub. intros. by apply safe_is_token.
  - eapply keeps_on_pub. intros. by apply safe_validate_token.
Qed.

Lemma keeps_find env id : keeps (find_session env id).
Proof. unfold find_session, give. keeps_handler; apply keeps_on_auth, session_get_inv. Qed.

Lemma keeps_gate env r : keeps (AdminAuthMiddleware env r).
Proof.
  unfold AdminAuthMiddleware, give. keeps_handler; try apply keeps_token; apply keeps_find.
Qed.

Lemma keeps_audit env what : keeps (audit env what).
Proof.
  unfold audit. apply (keeps_on_pub _ anything). intros s Hi. apply safe_record. by intros.
Qed.

Lemma keeps_api env op : keeps (api_handler env op).
Proof.
  destruct op; cbn [api_handler];
    unfold handle_create, handle_preview, handle_preflight, handle_get, handle_revoke,
      settingsUpdateAdminTokenHandler, settingsGetAdminTokenStatusHandler, settingsPutAuthHandler, give;
    keeps_handler; try apply keeps_audit;
    try (apply keeps_on_auth; intros; (apply update_token_inv || apply update_settings_inv); done).
  - eapply keeps_on_pub. intros s Hi. apply (safe_preflight _ _ s Hi).
  - eapply keeps_on_pub. intros. by apply safe_publish.
  - eapply keeps_on_pub. intros. by apply safe_preview.
  - eapply keeps_on_pub. intros s Hi. apply (safe_preflight _ _ s Hi).
  - eapply keeps_on_pub. intros s Hi. apply (safe_show _ _ s Hi).
  - eapply keeps_on_pub. intros. by apply safe_revocation.
Qed.

Definition srv_started (p : proc ServerState reply) : Prop := ∃ env q, p = serve env q.

Lemma keeps_serve env q : keeps (serve env q).
Proof.
  destruct q; cbn [serve].
  - unfold authStatusHandler, give. keeps_handler; apply keeps_find.
  - unfold authLoginHandler, give. keeps_handler. apply keeps_on_auth, session_create_inv.
  - unfold authLogoutHandler, give. keeps_handler. apply keeps_on_auth. intros. by apply session_revoke_inv.
  - unfold publicationClientHandler, give. keeps_handler.
    apply (keeps_on_pub _ anything). intros s Hi. apply safe_keeps; [apply query_keeps|].
    intros s1 s2 _ _ _ _. unfold if_ok. by case_match.
  - unfold api_request, give. keeps_handler; [apply keeps_gate|apply keeps_api].
Qed.

(** A server that has just been started on a settings row, and all it can become. *)
Definition booted (row : AuthRow) (σ : system ServerState reply) : Prop :=
  TrimSpace (row_Token row) = row_Token row ∧ threads σ = [] ∧
  sv_auth (store σ) = restarted {| au_verifier := ""; au_admin := true; au_export := true;
                                   au_sessions := ∅; au_row := row |} ∧
  pub_inv (sv_pub (store σ)).
Definition srv_reachable (σ : system ServerState reply) : Prop :=
  ∃ row σ0, booted row σ0 ∧ sys_steps srv_started σ0 σ.

Lemma booted_inv row σ : booted row σ → srv_inv (store σ).
Proof.
  intros (Ht & _ & Hs & Hp). split; [|done]. rewrite Hs.
  unfold restarted, NewDynamicTokenHolder. simpl. rewrite Ht.
  split; simpl; try done; [by destruct (String.eqb_spec (row_Token row) "")|
    by destruct (String.eqb_spec (row_Token row) "")].
Qed.

Lemma srv_reachable_inv σ : srv_reachable σ → srv_inv (store σ).
Proof.
  intros (row & σ0 & Hb & Hs).
  destruct (system_safe srv_inv srv_evolves srv_started (λ _ _, True) σ0 σ) as [[Hi _] _]; [|done| |done].
  - intros p s (env & q & ->). apply keeps_serve.
  - split; [by eapply booted_inv|]. by rewrite (proj1 (proj2 Hb)).
Qed.
End Concurrent.

(** ** The gate *)

Section Gate.
Context `{GoText} `{RegexEngine} `{Sha256} `{Digests} `{Backend} `{Documents} `{Bcrypt} `{Legacy}.

Lemma run_on_auth {A} (c : M AuthState A) s :
  run (on_auth c) s = ((c (sv_auth s)).1, with_auth (c (sv_auth s)).2 s).
Proof. reflexivity. Qed.

Lemma run_give {A} (a : A) (s : ServerState) : run (give a) s = (Ok a, s).
Proof. done. Qed.

Lemma run_read {A} (f : AuthState → A) s : run (read_auth f) s = (Ok (f (sv_auth s)), s).
Proof. unfold read_auth. rewrite run_on_auth. cbn [fst snd]. unfold with_auth. by destruct s. Qed.

Lemma run_on_pub {A} (p : proc PubTables A) s :
  run (on_pub p) s = ((run p (sv_pub s)).1, with_pub (run p (sv_pub s)).2 s).
Proof.
  revert s. induction p as [r|next IH upd]; intros s; simpl; [by destruct s|].
  rewrite IH. by destruct s.
Qed.

Lemma with_same_pub s : with_pub (sv_pub s) s = s.
Proof. by destruct s. Qed.

Lemma run_is_token env token s :
  (run (IsPublicationToken env token) s).2 = s ∧ is_ok (run (IsPublicationToken env token) s).1 = true.
Proof.
  unfold IsPublicationToken. destruct (blank token); [done|].
  rewrite run_bind, run_attempt, run_step. simpl. split; [apply query_state|done].
Qed.

Lemma run_validate env id token s :
  (run (ValidateToken env id token) s).2 = s ∧ is_ok (run (ValidateToken env id token) s).1 = true.
Proof.
  unfold ValidateToken. destruct (blank token); [done|].
  destruct (negb _); rewrite run_bind, run_attempt, run_step; simpl; (split; [apply query_state|done]).
Qed.

Lemma run_pub_token env token s :
  ∃ b, run (isPublicationToken env token) s = (Ok b, s) ∧
    ((run (IsPublicationToken (se_pub env) token) (sv_pub s)).1 = Ok true → b = true).
Proof.
  unfold isPublicationToken. rewrite run_bind, run_on_pub.
  destruct (run_is_token (se_pub env) token (sv_pub s)) as [Ha1 Ha2].
  destruct (run (IsPublicationToken _ _) _) as [[b|e] p']; [|done]. simpl in *. subst p'.
  rewrite with_same_pub. destruct b; [by exists true|]. rewrite run_on_pub.
  destruct (run_validate (se_pub env) "" token (sv_pub s)) as [Hb1 Hb2].
  destruct (run (ValidateToken _ _ _) _) as [[b|e] p']; [|done]. simpl in *. subst p'.
  rewrite with_same_pub. by exists b.
Qed.

(** The CSRF token a request carries. *)
Definition csrf_sent (r : HttpRequest) : string :=
  let header := TrimSpace (rq_CSRFHeader r) in
  if String.eqb header "" then TrimSpace (rq_CSRFForm r) else header.

Definition live_session (env : SrvEnv) (s : AuthState) (id : string) (info : SessionInfo) : Prop :=
  ∃ expires, au_sessions s !! id = Some (info, expires) ∧ (env_now (ae_env (se_auth env)) ≤ expires)%Z.

(** What entitles a request to the administration API. *)
Inductive entitled (env : SrvEnv) (r : HttpRequest) (s : ServerState) : Prop :=
  | entitled_open : AdminMode (sv_auth s) = SecurityModeOpen → entitled env r s
  | entitled_bearer :
      bearer_token (rq_Authorization r) ≠ "" →
      Verify (sv_auth s) (bearer_token (rq_Authorization r)) = true → entitled env r s
  | entitled_session id info :
      bearer_token (rq_Authorization r) = "" → rq_Cookie r = Some id →
      live_session env (sv_auth s) id info →
      (state_changing (rq_Method r) = true →
         csrf_sent r = se_CSRFToken info ∧ csrf_sent r ≠ "") → entitled env r s.

(** Nothing but expired sessions is lost. *)
Definition untouched (s s' : ServerState) : Prop :=
  sv_pub s' = sv_pub s ∧ au_verifier (sv_auth s') = au_verifier (sv_auth s) ∧
  au_admin (sv_auth s') = au_admin (sv_auth s) ∧ au_export (sv_auth s') = au_export (sv_auth s) ∧
  au_row (sv_auth s') = au_row (sv_auth s) ∧ au_sessions (sv_auth s') ⊆ au_sessions (sv_auth s).

#[local] Instance untouched_preorder : PreOrder untouched.
Proof.
  split; [done|]. intros s1 s2 s3 (? & ? & ? & ? & ? & ?) (? & ? & ? & ? & ? & ?).
  repeat split; try congruence. by etrans.
Qed.

Lemma session_get env id s :
  match sessions_Get (se_auth env) id (sv_auth s) with
  | (r, a) => untouched s (with_auth a s) ∧
      match r with
      | Ok (Some info) => live_session env (sv_auth s) id info
      | Ok None => True
      | Err _ => False
      end
  end.
Proof.
  unfold sessions_Get. destruct (String.eqb id ""); [by destruct s|].
  destruct (au_sessions (sv_auth s) !! id) as [[info expires]|] eqn:Hl; [|by destruct s].
  destruct (Z.ltb_spec expires (env_now (ae_env (se_auth env)))) as [Hlt|Hle].
  - split; [|done]. repeat split. simpl. apply delete_subseteq.
  - split; [by destruct s|]. by exists expires.
Qed.

Lemma run_find env id s :
  ∃ r s', run (find_session env id) s = (Ok r, s') ∧ untouched s s' ∧
    ∀ info, r = Some info → live_session env (sv_auth s) id info.
Proof.
  unfold find_session. rewrite run_bind, run_on_auth. pose proof (session_get env id s) as Hg.
  destruct (sessions_Get _ id (sv_auth s)) as [r a] eqn:Hget. destruct Hg as [Hu Hr]. simpl.
  destruct r as [[info|]|]; [| |done].
  - eexists _, _. split; [reflexivity|]. split; [done|]. by intros ? [= <-].
  - rewrite run_on_auth. pose proof (session_get env id (with_auth a s)) as Hg2.
    destruct (sessions_Get _ id (sv_auth (with_auth a s))) as [r2 a2]. destruct Hg2 as [Hu2 Hr2].
    simpl in *. destruct r2 as [[info|]|]; [| |done].
    + eexists _, _. split; [reflexivity|]. split; [by etrans|]. intros ? [= <-].
      destruct Hr2 as (ex & Hl & Hle). exists ex. split; [|done].
      destruct Hu as (_ & _ & _ & _ & _ & Hsub). by eapply lookup_weaken.
    + eexists _, _. split; [reflexivity|]. split; [by etrans|done].
Qed.

(** What the middleware admits. *)
Lemma gate_sound env r s g s' :
  run (AdminAuthMiddleware env r) s = (Ok g, s') →
  untouched s s' ∧
  match g with
  | Refused status _ => status = 401%Z ∨ status = 403%Z
  | Passed AuthMethodOpenMode _ _ => AdminMode (sv_auth s) = SecurityModeOpen
  | Passed AuthMethodBearer _ _ =>
      bearer_token (rq_Authorization r) ≠ "" ∧
      Verify (sv_auth s) (bearer_token (rq_Authorization r)) = true
  | Passed AuthMethodCookie _ session =>
      bearer_token (rq_Authorization r) = "" ∧
      ∃ id info, rq_Cookie r = Some id ∧ session = Some info ∧ live_session env (sv_auth s) id info
  end.
Proof.
  unfold AdminAuthMiddleware. rewrite run_bind, run_read.
  destruct (String.eqb_spec (AdminMode (sv_auth s)) SecurityModeOpen) as [Hm|Hm].
  { by intros [= <- <-]. }
  set (token := bearer_token _). rewrite run_bind.
  destruct (String.eqb_spec token "") as [Ht|Ht].
  - rewrite run_give. cbn [negb]. destruct (rq_Cookie r) as [id|];
      [|intros [= <- <-]; split; [done|by left]].
    destruct (String.eqb id ""); [intros [= <- <-]; split; [done|by left]|].
    rewrite run_bind. destruct (run_find env id s) as (found & s1 & -> & Hu & Hl).
    intros [= <- <-]. split; [done|]. destruct found as [info|]; [|by left].
    split; [done|]. exists id, info. auto.
  - destruct (run_pub_token env token s) as (b & -> & _). destruct b.
    { intros [= <- <-]. split; [done|by right]. }
    cbn [negb]. rewrite run_bind, run_read. intros [= <- <-]. split; [done|].
    destruct (Verify (sv_auth s) token) eqn:Hv; [by split|by left].
Qed.

(** C26. The administration API answers to administrators only: a request to it either
    is entitled (the server is in open mode, or the request carries the admin token,
    or a live session cookie, with the CSRF token of that session if the method
    changes state), or it is answered with 401 or 403 and changes nothing but expired
    sessions. *)
Theorem api_needs_credentials env r op s rep s' :
  run (api_request env r op) s = (Ok rep, s') →
  entitled env r s ∨
  (∃ status code, rep = WriteError status code ∧ (status = 401%Z ∨ status = 403%Z)) ∧ untouched s s'.
Proof.
  unfold api_request. intros (g & s1 & Hg & Hrun)%run_bind_ok. apply gate_sound in Hg as [Hu Hg].
  unfold CSRFMiddleware in Hrun. destruct g as [how subject session|status code].
  - destruct how.
    + left. rewrite bool_decide_eq_false_2, andb_false_r in Hrun by done.
      destruct Hg. by apply entitled_bearer.
    + destruct Hg as (Ht & id & info & Hc & -> & Hl).
      destruct (state_changing (rq_Method r)) eqn:Hsc; simpl in Hrun.
      2: { left. eapply entitled_session; [done..|]. by rewrite Hsc. }
      destruct (_ || _) eqn:Hcsrf; simpl in Hrun.
      * right. injection Hrun as <- <-. split; [|done]. eexists _, _. split; [reflexivity|by right].
      * left. apply orb_false_iff in Hcsrf as [Hne Heq]. apply negb_false_iff, String.eqb_eq in Heq.
        apply String.eqb_neq in Hne. by eapply entitled_session.
    + left. by apply entitled_open.
  - right. injection Hrun as <- <-. split; [|done]. by eexists _, _.
Qed.

(** ** Export tokens *)

Lemma token_found hash (t : PubTables) id p :
  pt_rows t !! id = Some p → pub_TokenHash p = hash → ∃ q l, with_token hash t = q :: l.
Proof.
  intros Hp Hh. destruct (with_token hash t) as [|q l] eqn:Hw; [|by eexists _, _]. exfalso.
  assert (In (id, p) (with_token hash t)) as Hin; [|by rewrite Hw in Hin].
  unfold with_token. apply filter_In. split; [|by apply String.eqb_eq].
  apply list_elem_of_In. by apply elem_of_map_to_list.
Qed.

Lemma publication_token_refused env r op s id p :
  AdminMode (sv_auth s) = SecurityModeProtected →
  pt_rows (sv_pub s) !! id = Some p →
  pub_TokenHash p = hashToken (bearer_token (rq_Authorization r)) →
  blank (bearer_token (rq_Authorization r)) = false →
  env_io (pe_env (se_pub env)) "publications.GetByTokenHash" = None →
  run (api_request env r op) s = (Ok (WriteError 403 "invalid_token_scope"), s).
Proof.
  intros Hm Hp Hh Hb Hio. unfold api_request, AdminAuthMiddleware.
  rewrite run_bind, run_bind, run_read, Hm. simpl.
  set (token := bearer_token _) in *. rewrite run_bind.
  destruct (String.eqb_spec token "") as [He|_]; [by rewrite He in Hb|].
  destruct (run_pub_token env token s) as (b & -> & Htrue).
  assert (b = true) as ->; [|done]. apply Htrue.
  unfold IsPublicationToken. rewrite Hb, run_bind, run_attempt, run_step.
  unfold publications_GetByTokenHash, query. rewrite Hio. simpl.
  destruct (token_found _ _ _ _ Hp Hh) as ([q1 q2] & l & ->). done.
Qed.

(** An export token never opens the administration API.  Take a publication of a
    stored snapshot in any reachable state that hands out a new token: from then on,
    as long as that row holds the token, whatever other requests have run, a request
    with it to the protected administration API is answered with 403 and changes
    nothing. *)
Theorem export_token_never_admin σ σ' pubenv cmd pr tables env r op p :
  srv_reachable σ → TrimSpace (pc_SnapshotID cmd) ≠ "" →
  (∀ b, pe_random pubenv = Some b → Forall is_byte b) →
  run (Publish pubenv cmd) (sv_pub (store σ)) = (Ok pr, tables) → pub_RawToken pr ≠ "active" →
  sys_steps srv_started {| store := with_pub tables (store σ); threads := threads σ |} σ' →
  pt_rows (sv_pub (store σ')) !! TrimSpace (pc_SnapshotID cmd) = Some p →
  pub_TokenHash p = hashToken (pub_RawToken pr) →
  bearer_token (rq_Authorization r) = pub_RawToken pr →
  AdminMode (sv_auth (store σ')) = SecurityModeProtected →
  env_io (pe_env (se_pub env)) "publications.GetByTokenHash" = None →
  run (api_request env r op) (store σ') = (Ok (WriteError 403 "invalid_token_scope"), store σ').
Proof.
  intros Hr Hid Hb Hpub Hraw Hsteps Hp Hh Htok Hm Hio.
  destruct (srv_reachable_inv σ Hr) as [_ Hi].
  destruct (publish_named pubenv cmd _ _ _ _ eq_refl Hid Hi Hpub Hraw) as (_ & b & _ & _ & Hrand & Heq & _).
  eapply publication_token_refused; [done|done|by rewrite Htok|rewrite Htok, Heq|done].
  apply token_not_blank. by apply Hb.
Qed.
End Gate.

(** ** Rotation, restart and export *)

Section Outcomes.
Context `{GoText} `{RegexEngine} `{Sha256} `{Digests} `{Backend} `{Documents} `{Bcrypt} `{Legacy}.

Lemma run_audit env what s : ∃ r, run (audit env what) s = (Ok tt, with_pub r s).
Proof.
  unfold audit. rewrite run_on_pub, run_step. unfold recordAudit.
  destruct (env_io _ _); by eexists.
Qed.

Lemma update_token_ok env token s u a :
  TrimSpace token ≠ "" → UpdateToken env token s = (Ok u, a) →
  au_sessions a = ∅ ∧ Verify a token = true ∧ au_verifier a ≠ "" ∧ au_admin a = au_admin s.
Proof.
  intros Hne. unfold UpdateToken, new_verifier, HashTokenWithCost. apply String.eqb_neq in Hne.
  rewrite Hne. destruct (bcrypt_Generate _ _ _) as [h|] eqn:Hg; [|done].
  unfold statement. destruct (env_io _ _); [done|]. intros [= <- <-]. split; [done|].
  destruct (bcrypt_trimmed _ _ _ _ Hg) as [_ Hh]. split; [|done].
  unfold Verify, VerifyToken. cbn [au_verifier]. apply String.eqb_neq in Hh.
  by rewrite Hh, Hne, (bcrypt_complete _ _ _ _ Hg).
Qed.

Lemma no_session env r op s :
  au_sessions (sv_auth s) = ∅ → AdminMode (sv_auth s) = SecurityModeProtected →
  bearer_token (rq_Authorization r) = "" →
  run (api_request env r op) s = (Ok (WriteError 401 "unauthorized"), s).
Proof.
  intros Hs Hm Ht. unfold api_request, AdminAuthMiddleware. rewrite run_bind, run_bind, run_read, Hm.
  rewrite Ht. change (String.eqb SecurityModeProtected SecurityModeOpen) with false.
  cbv iota. rewrite run_bind. change (String.eqb "" "") with true. cbv iota.
  rewrite run_give. cbn [negb]. destruct (rq_Cookie r) as [id|]; [|done].
  destruct (String.eqb id "") eqn:Hid; [done|]. unfold find_session.
  rewrite run_bind, run_bind, run_on_auth. unfold sessions_Get. rewrite Hid, Hs, lookup_empty.
  cbn [fst snd]. rewrite run_on_auth. cbn [sv_auth with_auth]. rewrite Hs, lookup_empty.
  by destruct s.
Qed.

(** Rotating the admin token takes effect at once: after an update with a token
    that is not blank is answered with success, the new token is accepted; when
    admin authentication is on the API is protected, and a request without bearer
    token is refused whatever cookie it carries, since no session outlives the
    update. *)
Theorem token_rotation_ends_sessions env token s mode configured s' :
  TrimSpace token ≠ "" →
  run (settingsUpdateAdminTokenHandler env (Some token)) s =
    (Ok (WriteSuccess 200 (TokenStatus mode configured)), s') →
  Verify (sv_auth s') (TrimSpace token) = true ∧ configured = true ∧
  mode = AdminMode (sv_auth s') ∧
  (au_admin (sv_auth s) = true →
     mode = SecurityModeProtected ∧
     ∀ env' r op, bearer_token (rq_Authorization r) = "" →
       run (api_request env' r op) s' = (Ok (WriteError 401 "unauthorized"), s')).
Proof.
  intros Hne Hrun. unfold settingsUpdateAdminTokenHandler in Hrun.
  apply run_bind_ok in Hrun as (r & s1 & Hr & Hrun).
  rewrite run_attempt, run_on_auth in Hr. cbn [fst snd] in Hr. injection Hr as <- <-.
  destruct (UpdateToken _ _ _) as [[u|e] a] eqn:Hu; cbn [fst snd] in Hrun; [|done].
  assert (TrimSpace (TrimSpace token) ≠ "") as Hne2 by (by rewrite TrimSpace_idemp).
  destruct (update_token_ok _ _ _ _ _ Hne2 Hu) as (Hs & Hv & Hver & Had).
  rewrite run_bind, run_read, run_bind, run_read in Hrun. cbn [sv_auth with_auth CurrentVerifier] in Hrun.
  apply run_bind_ok in Hrun as (? & s2 & Ha & [= <- <- <-]).
  match type of Ha with run (audit ?e ?w) ?st = _ =>
    destruct (run_audit e w st) as [t Ht]; rewrite Ht in Ha; injection Ha as _ <- end.
  cbn [sv_auth with_pub with_auth]. apply String.eqb_neq in Hver as Hverb.
  split; [done|]. split; [unfold CurrentVerifier; by rewrite Hverb|]. split; [done|].
  intros Hadm. assert (AdminMode a = SecurityModeProtected) as Hm.
  { unfold AdminMode. by rewrite Had, Hadm, Hverb. }
  split; [done|]. intros env' r op Hb. by apply no_session.
Qed.

(** A restart loses nothing but the sessions: in any state the server reaches,
    whatever requests run concurrently, the holder built from the settings row
    accepts exactly the admin tokens and the export tokens the running one accepts,
    and is in the same modes. *)
Theorem restart_keeps_auth σ :
  srv_reachable σ →
  let a := sv_auth (store σ) in
  AdminMode (restarted a) = AdminMode a ∧ ExportMode (restarted a) = ExportMode a ∧
  (∀ token, Verify (restarted a) token = Verify a token) ∧
  (∀ token hash, VerifyExportToken (restarted a) token hash = VerifyExportToken a token hash) ∧
  au_sessions (restarted a) = ∅.
Proof.
  intros Hr. destruct (srv_reachable_inv σ Hr) as [Ha _]. simpl.
  destruct (restarted_same _ Ha) as (Hv & Had & Hex & _).
  unfold AdminMode, ExportMode, IsExportAuthRequired, Verify, VerifyExportToken.
  by rewrite Hv, Had, Hex.
Qed.

(** What a token must be for the export of a publication. *)
Definition may_export (a : AuthState) (token hash : string) : Prop :=
  au_export a = false ∨
  token ≠ "" ∧ (hashToken token = hash ∨ au_verifier a ≠ "" ∧ VerifyToken (au_verifier a) token = true).

Lemma verify_export a token hash : VerifyExportToken a token hash = true → may_export a token hash.
Proof.
  unfold VerifyExportToken, may_export. destruct (au_export a); [|by left]. cbn [negb].
  destruct (String.eqb_spec token ""); [done|]. intros Hv. right. split; [done|].
  destruct (_ && String.eqb _ hash) eqn:Hh.
  - left. by apply andb_true_iff in Hh as [_ Hh%String.eqb_eq].
  - right. apply andb_true_iff in Hv as [Hn%negb_true_iff Hok]. by apply String.eqb_neq in Hn.
Qed.

(** C27. What the export endpoint serves.  Take a server that was started on a table whose
    contents agree with their digests and in which only legacy rows may be active without
    content, and any state it reaches: an answer with a file is for an active publication, its
    digest is the SHA-256 of its bytes, and it is the stored content of the row or, for a legacy
    row without content, what the row's revision compiles to.  Either export authentication is
    off, or the request carries a token, in the query or as a bearer, whose hash that publication
    stores or which is the admin token.  Serving changes nothing. *)
Theorem http_export_authorised σ env id q header status a s' :
  srv_reachable σ →
  run (publicationClientHandler env id q header) (store σ) =
    (Ok (WriteSuccess status (File a)), s') →
  s' = store σ ∧ art_ContentDigest a = content_digest (art_Content a) ∧
  ∃ p, pt_rows (sv_pub (store σ)) !! TrimSpace id = Some p ∧
    pub_State p = PublicationStateActive ∧
    may_export (sv_auth (store σ)) (export_token q header) (pub_TokenHash p) ∧
    ((pub_Content p ≠ "" ∧ a = artifact_of p) ∨
     (pub_Content p = "" ∧ TrimSpace id ∈ legacy_ids ∧ recompile (se_pub env) p = Ok a)).
Proof.
  intros Hr. destruct (srv_reachable_inv σ Hr) as [_ Hi]. unfold publicationClientHandler.
  destruct (String.eqb (TrimSpace id) ""); [done|].
  intros (row & s1 & Hrow & Hrun)%run_bind_ok.
  rewrite run_attempt, run_on_pub, run_step in Hrow. unfold publications_GetByID, query in Hrow.
  destruct (env_io _ _); cbn [fst snd] in Hrow;
    [by injection Hrow as <- <-|]. rewrite with_same_pub in Hrow.
  destruct (pt_rows (sv_pub (store σ)) !! TrimSpace id) as [p|] eqn:Hp; injection Hrow as <- <-; [|done].
  destruct (negb (Publication_IsActive p)); [done|]. rewrite run_bind, run_read in Hrun.
  injection Hrun as Hrep <-. split; [done|]. unfold export_reply in Hrep.
  destruct (serve_row _ _ p) as [art|e] eqn:Hs; [|by repeat case_match].
  injection Hrep as _ ->. pose proof (Hi _ _ Hp) as Hok.
  destruct (serve_row_ok _ _ _ _ _ Hok Hs) as (Ha & Hau%verify_export & Hcase).
  split; [|by exists p]. destruct Hcase as [[Hne ->]|(_ & _ & Hre)].
  - by apply (row_digest (TrimSpace id) p).
  - by apply (recompile_digest _ _ _ Hre).
Qed.
End Outcomes.

(** ** Instances *)

#[local] Existing Instance ascii_text.
#[local] Existing Instance witness_engine.
#[local] Existing Instance sample_sha.
#[local] Existing Instance sample_digests.
#[local] Existing Instance sample_backend.
#[local] Existing Instance sample_documents.
#[local] Existing Instance sample_bcrypt.
#[local] Existing Instance no_legacy.

Definition srv_env : SrvEnv :=
  {| se_auth := {| ae_env := pe_env pub_env; ae_salt := ""; ae_cost := DefaultHashCost;
                   ae_ttl := 86400 * second; ae_session := Some (replicate 32 1%Z);
                   ae_csrf := Some (replicate 32 2%Z) |};
     se_pub := pub_env |}%Z.
Definition secret_row : AuthRow :=
  {| row_Token := "$" +:+ hex_bytes (byte_values (digest_of "secret")); row_Admin := true;
     row_Export := true |}.

(** A server booted on these tables. *)
Definition boot (tables : PubTables) : system ServerState reply :=
  {| store := {| sv_auth := restarted {| au_verifier := ""; au_admin := true; au_export := true;
                                         au_sessions := ∅; au_row := secret_row |};
                 sv_pub := tables |};
     threads := [] |}.
Definition arrives (q : http_request) (σ : system ServerState reply) : system ServerState reply :=
  {| store := store σ; threads := threads σ ++ [serve srv_env q] |}.

Lemma boot_reachable σ : reachable σ → srv_reachable (boot (store σ)).
Proof.
  intros [Hi _]%reachable_inv. exists secret_row, (boot (store σ)). split; [|apply rtc_refl].
  split; [vm_compute; reflexivity|]. split; [done|]. by split.
Qed.
Lemma arrives_steps σ q : sys_steps srv_started σ (arrives q σ).
Proof. destruct σ as [s ts]. apply rtc_once, sys_spawn. by exists srv_env, q. Qed.
Lemma srv_later σ σ' : srv_reachable σ → sys_steps srv_started σ σ' → srv_reachable σ'.
Proof.
  intros (row & σ0 & Hb & Hs) Hs'. exists row, σ0. split; [done|].
  unfold sys_steps in *. by etrans.
Qed.

Definition bearer (verb token : string) : HttpRequest :=
  {| rq_Method := verb; rq_Authorization := "Bearer " +:+ token; rq_Cookie := None;
     rq_CSRFHeader := ""; rq_CSRFForm := "" |}.
Definition with_cookie (verb csrf : string) : HttpRequest :=
  {| rq_Method := verb; rq_Authorization := ""; rq_Cookie := Some (hex_bytes (replicate 32 1%Z));
     rq_CSRFHeader := csrf; rq_CSRFForm := "" |}.

(** A logged-in browser without the CSRF token. *)
Definition logged_in : system ServerState reply :=
  schedule [0; 0; 0] (arrives (HLogin (Some "secret")) (boot (store published))).

Lemma api_needs_credentials_witness :
  run (api_request srv_env (with_cookie "POST" "") (ApiRevoke surge_id)) (store logged_in) =
    (Ok (WriteError 403 "csrf_validation_failed"), store logged_in) ∧
  (entitled srv_env (with_cookie "POST" "") (store logged_in) ∨
   (∃ status code, WriteError 403 "csrf_validation_failed" = WriteError status code ∧
      (status = 401%Z ∨ status = 403%Z)) ∧ untouched (store logged_in) (store logged_in)).
Proof.
  assert (run (api_request srv_env (with_cookie "POST" "") (ApiRevoke surge_id)) (store logged_in) =
    (Ok (WriteError 403 "csrf_validation_failed"), store logged_in)) as Hrun
    by (vm_compute; reflexivity).
  split; [exact Hrun|]. exact (api_needs_credentials _ _ _ _ _ _ Hrun).
Defined.

Lemma export_token_never_admin_witness :
  match run (Publish pub_env surge_publish) (store drafted) with
  | (Ok pr, tables) =>
      run (api_request srv_env (bearer "POST" (pub_RawToken pr)) (ApiUpdateToken (Some "mine")))
          (store (boot tables)) =
        (Ok (WriteError 403 "invalid_token_scope"), store (boot tables))
  | _ => False
  end.
Proof.
  destruct (run (Publish pub_env surge_publish) (store drafted)) as [[pr|e] s2] eqn:Hpub;
    [|vm_compute in Hpub; discriminate].
  assert (pub_RawToken pr = surge_token) as Htok
    by (vm_compute in Hpub; injection Hpub as <- _; vm_compute; reflexivity).
  assert (∃ p, pt_rows s2 !! surge_id = Some p ∧ pub_TokenHash p = hashToken surge_token) as (p & Hp & Hh).
  { vm_compute in Hpub. injection Hpub as _ <-. eexists. split; vm_compute; reflexivity. }
  refine (export_token_never_admin (boot (store drafted)) (boot s2) pub_env surge_publish pr s2 srv_env
    _ _ p (boot_reachable _ drafted_reachable) _ _ Hpub _ (rtc_refl _ _) Hp _ _ _ _).
  - discriminate.
  - intros b [= <-]. repeat (constructor; [split; [discriminate|reflexivity]|]). constructor.
  - rewrite Htok. discriminate.
  - rewrite Htok. exact Hh.
  - rewrite Htok. vm_compute. reflexivity.
  - vm_compute. reflexivity.
  - reflexivity.
Defined.

Lemma token_rotation_ends_sessions_witness :
  match run (settingsUpdateAdminTokenHandler srv_env (Some "fresh-token")) (store logged_in) with
  | (Ok (WriteSuccess 200 (TokenStatus mode _)), s') =>
      mode = SecurityModeProtected ∧
      run (api_request srv_env (with_cookie "GET" "") ApiGetAuth) s' =
        (Ok (WriteError 401 "unauthorized"), s')
  | _ => False
  end.
Proof.
  destruct (run (settingsUpdateAdminTokenHandler _ _) _) as [rep s'] eqn:Hrun.
  assert (rep = Ok (WriteSuccess 200 (TokenStatus SecurityModeProtected true))) as ->
    by (vm_compute in Hrun; injection Hrun as <- _; reflexivity).
  destruct (token_rotation_ends_sessions srv_env "fresh-token" (store logged_in)
    SecurityModeProtected true s') as (_ & _ & _ & Hend); [discriminate|exact Hrun|].
  destruct Hend as [Hm Hr]; [vm_compute; reflexivity|]. split; [exact Hm|].
  apply Hr. vm_compute. reflexivity.
Defined.

Lemma restart_keeps_auth_witness :
  Verify (restarted (sv_auth (store logged_in))) "secret" = true ∧
  Verify (restarted (sv_auth (store logged_in))) "guess" = Verify (sv_auth (store logged_in)) "guess".
Proof.
  destruct (restart_keeps_auth logged_in) as (_ & _ & Hv & _).
  { eapply srv_later; [apply boot_reachable, published_reachable|].
    etrans; [apply arrives_steps|apply schedule_steps]. }
  split; [rewrite Hv; vm_compute; reflexivity|apply Hv].
Defined.

Lemma http_export_authorised_witness :
  match run (publicationClientHandler srv_env surge_id surge_token "") (store (boot (store published))) with
  | (Ok (WriteSuccess 200 (File a)), _) =>
      art_Content a = surge_sample_content ∧ art_ContentDigest a = content_digest (art_Content a)
  | _ => False
  end.
Proof.
  destruct (run (publicationClientHandler _ _ _ _) _) as [rep s'] eqn:Hrun.
  assert (∃ a, rep = Ok (WriteSuccess 200 (File a)) ∧ art_Content a = surge_sample_content)
    as (a & -> & Hc)
    by (vm_compute in Hrun; injection Hrun as <- _; eexists; split; [reflexivity|vm_compute; reflexivity]).
  destruct (http_export_authorised _ _ _ _ _ _ _ _ (boot_reachable _ published_reachable) Hrun)
    as (_ & Hd & _).
  split; [exact Hc|exact Hd].
Defined.

(** ** What the code does not guarantee *)

(** A login verifies the token and creates the session in two steps.  Here the token
    is rotated in between: the session is created after the update has ended all
    sessions, and lives on. *)
Definition late_login : system ServerState reply :=
  schedule [0; 0; 1; 1; 1; 1; 1; 1; 1; 1; 0]
    (arrives (HApi (bearer "POST" "secret") (ApiUpdateToken (Some "fresh-token")))
      (arrives (HLogin (Some "secret")) (boot (store published)))).

Theorem login_survives_rotation :
  srv_reachable late_login ∧
  threads late_login !! 1 = Some (Done (Ok (WriteSuccess 200 (TokenStatus SecurityModeProtected true)))) ∧
  Verify (sv_auth (store late_login)) "secret" = false ∧
  ∃ resp, (run (api_request srv_env (with_cookie "GET" "") ApiGetAuth) (store late_login)).1 =
    Ok (WriteSuccess 200 (AuthSettings resp)).
Proof.
  split.
  { eapply srv_later; [apply boot_reachable, published_reachable|].
    etrans; [apply arrives_steps|]. etrans; [apply arrives_steps|apply schedule_steps]. }
  split; [vm_compute; reflexivity|]. split; [vm_compute; reflexivity|].
  eexists. vm_compute. reflexivity.
Qed.
