(* ===== verification/Scheduler.v ===== *)
(** * The probe scheduler

    [internal/probe/queue/scheduler.go]: the bounded, run-fair probe queue.  The
    scheduler's mutex makes every locked region atomic, so a locked region is a
    function on [Scheduler] and an execution is a sequence of such regions, run by
    the callers, the dispatcher goroutine, one goroutine per dispatched task and
    one per completion callback.  [World] holds the scheduler with these
    goroutines, [exec] performs one region and [reachable] is the set of states
    the regions lead to in any order.

    - The channel [changed] is a generation number: [signalLocked] closes the
      current channel, which is moving to the next generation.
    - The order in which Go ranges over a map is the parameter [MapOrder], which may
      differ from one region to the next.
    - A reading of [cfg.Clock] is an argument of the region that reads it.
    - The fields of the Go struct are grouped: [RunQueues], [Executions] and
      [Cancellation] hold what they hold in the source. *)

From S2P Require Import Prelude.
From S2P Require Import GoStrings.
From S2P Require Import Domain.
From S2P Require Import Lifecycle.

(** ** Configuration *)

Definition DefaultConcurrency : Z := 50.
Definition MinConcurrency : Z := 1.
Definition HardMaxConcurrency : Z := 256.
Definition DefaultQueueSize : Z := 1024.
Definition DefaultNodeTTL : Z := 30 * second.

Record Config : Type := {
  cfg_Concurrency : Z;
  cfg_RunConcurrency : Z;
  cfg_QueueSize : Z;
  cfg_NodeTTL : Z;
  cfg_explicit : bool
}.

Definition EnqueueStrictConflict : Z := 0.
Definition EnqueuePeriodicDedupe : Z := 1.
Definition EnqueueManualPreemptFront : Z := 2.

Record Task : Type := {
  task_ID : string;
  task_RunID : string;
  task_LogicalID : string;
  task_Kind : string;
  task_Mode : Z
}.

Record activeRecord : Type := {
  rec_active : bool;
  rec_count : Z;
  rec_until : time;
  rec_lastRunID : string
}.

Definition zero_record : activeRecord :=
  {| rec_active := false; rec_count := 0; rec_until := 0%Z; rec_lastRunID := "" |}.

(** ** State *)

Record RunQueues : Type := {
  queues : gmap string (list Task);
  runOrder : list string;
  runCursor : nat;
  queued : Z
}.

Record Executions : Type := {
  activeByRun : gmap string Z;
  probingNodes : gmap string Z;
  probingTasks : gmap Z Task;
  nextExecID : Z;
  activeCount : Z;
  peakActive : Z
}.

(** [cancelledCtx] are the sequence numbers whose [cancel] function was called. *)
Record Cancellation : Type := {
  runCancels : gmap string (gset Z);
  cancelledRuns : gset string;
  cancelSequence : Z;
  cancelledCtx : gset Z
}.

Record Scheduler : Type := {
  cfg : Config;
  closed : bool;
  rq : RunQueues;
  ex : Executions;
  activeNodes : gmap string activeRecord;
  cn : Cancellation;
  taskCount : Z;
  callbacks : Z;
  peakQueued : Z;
  changed : nat
}.

Inductive sched_error : Type :=
  | ErrInvalidConcurrency
  | ErrInvalidRunConcurrency
  | ErrCapacityExceeded
  | ErrNodeConflict
  | ErrSchedulerClosed
  | ErrContextCanceled.

Definition empty_queues : RunQueues :=
  {| queues := ∅; runOrder := []; runCursor := 0; queued := 0 |}.

Definition NewScheduler (concurrency runConcurrency queueSize nodeTTL : Z)
    : result sched_error Scheduler :=
  let concurrency := if (concurrency =? 0)%Z then DefaultConcurrency else concurrency in
  reject_if ((concurrency <? MinConcurrency) || (HardMaxConcurrency <? concurrency))%Z
    ErrInvalidConcurrency ;;?
  reject_if ((runConcurrency <? 0) || (concurrency <? runConcurrency))%Z
    ErrInvalidRunConcurrency ;;?
  Ok {| cfg :=
          {| cfg_Concurrency := concurrency;
             cfg_RunConcurrency :=
               if (runConcurrency =? 0)%Z then Z.quot (concurrency + 1) 2 else runConcurrency;
             cfg_QueueSize := if (queueSize <=? 0)%Z then DefaultQueueSize else queueSize;
             cfg_NodeTTL := if (nodeTTL <=? 0)%Z then DefaultNodeTTL else nodeTTL;
             cfg_explicit := (0 <? runConcurrency)%Z |};
        closed := false; rq := empty_queues;
        ex := {| activeByRun := ∅; probingNodes := ∅; probingTasks := ∅; nextExecID := 0;
                 activeCount := 0; peakActive := 0 |};
        activeNodes := ∅;
        cn := {| runCancels := ∅; cancelledRuns := ∅; cancelSequence := 0; cancelledCtx := ∅ |};
        taskCount := 0; callbacks := 0; peakQueued := 0; changed := 0 |}.

Definition makeNodeKey (logicalID kind : string) : string := logicalID +:+ "#" +:+ kind.
Definition task_key (t : Task) : string := makeNodeKey (task_LogicalID t) (task_Kind t).
Definition is_manual (t : Task) : bool := (task_Mode t =? EnqueueManualPreemptFront)%Z.

Definition get {A} (d : A) (m : gmap string A) (k : string) : A := default d (m !! k).

(** ** The dispatcher's choice *)

Definition activeCompetingRuns (q : RunQueues) (x : Executions) : Z :=
  Z.of_nat (size (queues q)) +
  Z.of_nat (size (filter (λ '(r, _), queues q !! r = None) (activeByRun x))).

(** Taking the head [t] of the queue of [run], the [i]-th run of the order; the cursor
    moves to [last] of the new number of runs when the queue is exhausted and to
    [more] otherwise. *)
Definition take_head (q : RunQueues) (i : nat) (run : string) (rest : list Task)
    (last : nat → nat) (more : nat) : RunQueues :=
  match rest with
  | [] =>
      let order := delete i (runOrder q) in
      {| queues := delete run (queues q); runOrder := order;
         runCursor := if 0 <? length order then last (length order) else 0;
         queued := queued q - 1 |}
  | _ =>
      {| queues := <[run := rest]> (queues q); runOrder := runOrder q; runCursor := more;
         queued := queued q - 1 |}
  end.

Definition queue_of (q : RunQueues) (run : string) : list Task := get [] (queues q) run.

Definition head_is_manual (q : RunQueues) (run : string) : bool :=
  match queue_of q run with [] => false | t :: _ => is_manual t end.

Definition run_limit (c : Config) (competing : Z) : Z :=
  if negb (cfg_explicit c) && (competing <=? 1)%Z then cfg_Concurrency c
  else cfg_RunConcurrency c.

Definition run_eligible (c : Config) (q : RunQueues) (x : Executions) (i : nat) : bool :=
  match runOrder q !! i with
  | None => false
  | Some run =>
      (0 <? length (queue_of q run)) &&
      (get 0 (activeByRun x) run <? run_limit c (activeCompetingRuns q x))%Z
  end.

(** The positions the fair pass looks at, from the cursor on. *)
Definition fair_positions (q : RunQueues) : list nat :=
  map (λ n, (runCursor q + n) mod length (runOrder q)) (seq 0 (length (runOrder q))).

Definition nextEligible (c : Config) (q : RunQueues) (x : Executions)
    : option (Task * RunQueues) :=
  match list_find (λ run, head_is_manual q run) (runOrder q) with
  | Some (i, run) =>
      match queue_of q run with
      | [] => None
      | t :: rest => Some (t, take_head q i run rest (λ n, runCursor q mod n) (runCursor q))
      end
  | None =>
      match list_find (λ i, run_eligible c q x i) (fair_positions q) with
      | Some (_, i) =>
          let run := default "" (runOrder q !! i) in
          match queue_of q run with
          | [] => None
          | t :: rest =>
              Some (t, take_head q i run rest (λ n, i mod n) ((i + 1) mod length (runOrder q)))
          end
      | None => None
      end
  end.

(** One turn of the dispatcher loop under the lock; [None] when it goes to sleep. *)
Definition dispatch_turn (s : Scheduler) : option (Task * Z * Scheduler) :=
  if (cfg_Concurrency (cfg s) <=? activeCount (ex s))%Z || (queued (rq s) =? 0)%Z then None
  else match nextEligible (cfg s) (rq s) (ex s) with
       | None => None
       | Some (t, q) =>
           let x := ex s in
           let execID := (nextExecID x + 1)%Z in
           let current := (activeCount x + 1)%Z in
           Some (t, execID,
             {| cfg := cfg s; closed := closed s; rq := q;
                ex := {| activeByRun :=
                           <[task_RunID t := (get 0 (activeByRun x) (task_RunID t) + 1)%Z]>
                             (activeByRun x);
                         probingNodes :=
                           <[task_LogicalID t := (get 0 (probingNodes x) (task_LogicalID t) + 1)%Z]>
                             (probingNodes x);
                         probingTasks := <[execID := t]> (probingTasks x);
                         nextExecID := execID; activeCount := current;
                         peakActive := Z.max (peakActive x) current |};
                activeNodes := activeNodes s; cn := cn s; taskCount := taskCount s;
                callbacks := callbacks s; peakQueued := peakQueued s;
                changed := S (changed s) |})
       end.

(** ** The history of nodes *)

Notation history := (gmap string activeRecord).

Definition live_record (now : time) (r : activeRecord) : bool :=
  rec_active r || Before now (rec_until r).

Definition oldest_step (acc : string * time) (entry : string * activeRecord) : string * time :=
  let '(key, r) := entry in
  if negb (rec_active r) && (String.eqb acc.1 "" || Before (rec_until r) acc.2)
  then (key, rec_until r) else acc.

Definition oldest_inactive `{MapOrder} (m : history) : string :=
  (fold_left oldest_step (range m) ("", 0%Z)).1.

(** The eviction loop; every turn deletes a key, so the size is fuel enough. *)
Fixpoint evict `{MapOrder} (fuel : nat) (limit : Z) (m : history) : history :=
  match fuel with
  | 0 => m
  | S fuel =>
      if (limit <? Z.of_nat (size m))%Z then
        let k := oldest_inactive m in
        if String.eqb k "" then m else evict fuel limit (delete k m)
      else m
  end.

Definition pruneActiveNodes `{MapOrder} (c : Config) (now : time) (m : history) : history :=
  let kept := filter (λ '(_, r), live_record now r = true) m in
  evict (size kept) (cfg_QueueSize c + cfg_Concurrency c) kept.

(** [rec.count++; active; until zero; lastRunID]. *)
Definition hold (m : history) (t : Task) : history :=
  <[task_key t := {| rec_active := true; rec_count := rec_count (get zero_record m (task_key t)) + 1;
                     rec_until := 0%Z; rec_lastRunID := task_RunID t |}]> m.

Definition release_record (until : time) (r : activeRecord) : activeRecord :=
  let n := (rec_count r - 1)%Z in
  if (n <=? 0)%Z
  then {| rec_active := false; rec_count := 0; rec_until := until;
          rec_lastRunID := rec_lastRunID r |}
  else {| rec_active := true; rec_count := n; rec_until := rec_until r;
          rec_lastRunID := rec_lastRunID r |}.

(** A task that leaves the pool starts the retention period of its node
    ([CancelRun] and [Close]: the record is written back in any case). *)
Definition release (until : time) (m : history) (t : Task) : history :=
  <[task_key t := release_record until (get zero_record m (task_key t))]> m.

(** A queued task replaced by a manual one leaves no retention period. *)
Definition forget (m : history) (t : Task) : history :=
  match m !! task_key t with
  | None => m
  | Some r =>
      let n := (rec_count r - 1)%Z in
      if (n <=? 0)%Z then delete (task_key t) m
      else <[task_key t := {| rec_active := true; rec_count := n; rec_until := rec_until r;
                              rec_lastRunID := rec_lastRunID r |}]> m
  end.

(** ** Submission *)

Inductive submit_result : Type :=
  | SubmitAccepted
  | SubmitSkipped
  | SubmitFailed (e : sched_error)
  | SubmitWaits (generation : nat).

Definition int32 (z : Z) : Z := (z + 2^31) `mod` 2^32 - 2^31.

(** The bookkeeping every accepted submission ends with. *)
Definition accept (s : Scheduler) (q : RunQueues) (nodes : history) : Scheduler :=
  {| cfg := cfg s; closed := closed s; rq := q; ex := ex s; activeNodes := nodes; cn := cn s;
     taskCount := taskCount s + 1; callbacks := callbacks s + 1;
     peakQueued := Z.max (peakQueued s) (int32 (queued q)); changed := S (changed s) |}.

Definition with_nodes (s : Scheduler) (nodes : history) : Scheduler :=
  {| cfg := cfg s; closed := closed s; rq := rq s; ex := ex s; activeNodes := nodes; cn := cn s;
     taskCount := taskCount s; callbacks := callbacks s; peakQueued := peakQueued s;
     changed := changed s |}.

Definition append_tail (q : RunQueues) (t : Task) : RunQueues :=
  let run := task_RunID t in
  {| queues := <[run := queue_of q run ++ [t]]> (queues q);
     runOrder := if length (queue_of q run) =? 0 then runOrder q ++ [run] else runOrder q;
     runCursor := runCursor q; queued := queued q + 1 |}.

Definition enqueueTask (s : Scheduler) (t : Task) : Scheduler :=
  accept s (append_tail (rq s) t)
    (<[task_key t := {| rec_active := true; rec_count := 1; rec_until := 0%Z;
                        rec_lastRunID := task_RunID t |}]> (activeNodes s)).

Definition has_room (s : Scheduler) : bool := (queued (rq s) <? cfg_QueueSize (cfg s))%Z.

Definition no_room (wait : bool) (s : Scheduler) : submit_result :=
  if wait then SubmitWaits (changed s) else SubmitFailed ErrCapacityExceeded.

(** The checks every mode starts with. *)
Definition refused (s : Scheduler) (t : Task) : option sched_error :=
  if closed s then Some ErrSchedulerClosed
  else if bool_decide (task_RunID t ∈ cancelledRuns (cn s)) then Some ErrContextCanceled
  else None.

Definition submitStrictConflict `{MapOrder} (now : time) (wait : bool) (s : Scheduler) (t : Task)
    : submit_result * Scheduler * list Task :=
  match refused s t with
  | Some e => (SubmitFailed e, s, [])
  | None =>
      let nodes := pruneActiveNodes (cfg s) now (activeNodes s) in
      match nodes !! task_key t with
      | Some r =>
          if live_record now r then (SubmitFailed ErrNodeConflict, with_nodes s nodes, [])
          else
            let s1 := with_nodes s (delete (task_key t) nodes) in
            if has_room s1 then (SubmitAccepted, enqueueTask s1 t, [])
            else (no_room wait s1, s1, [])
      | None =>
          let s1 := with_nodes s nodes in
          if has_room s1 then (SubmitAccepted, enqueueTask s1 t, [])
          else (no_room wait s1, s1, [])
      end
  end.

Definition clashes (t other : Task) : bool :=
  String.eqb (task_LogicalID other) (task_LogicalID t) &&
  (negb (String.eqb (task_RunID other) (task_RunID t)) || String.eqb (task_RunID t) "" ||
   String.eqb (task_Kind other) (task_Kind t)).

Definition probing (x : Executions) : list Task := map snd (map_to_list (probingTasks x)).
Definition waiting (q : RunQueues) : list Task := concat (map snd (map_to_list (queues q))).

Definition isNodeInPoolForPeriodic (s : Scheduler) (t : Task) : bool :=
  negb (String.eqb (task_LogicalID t) "") &&
  (existsb (clashes t) (probing (ex s)) || existsb (clashes t) (waiting (rq s))).

Definition submitPeriodicDedupe `{MapOrder} (now : time) (wait : bool) (s : Scheduler) (t : Task)
    : submit_result * Scheduler * list Task :=
  match refused s t with
  | Some e => (SubmitFailed e, s, [])
  | None =>
      if isNodeInPoolForPeriodic s t then (SubmitSkipped, s, [])
      else
        let s1 := with_nodes s (pruneActiveNodes (cfg s) now (activeNodes s)) in
        if has_room s1
        then (SubmitAccepted, accept s1 (append_tail (rq s1) t) (hold (activeNodes s1) t), [])
        else (no_room wait s1, s1, [])
  end.

(** *** Manual submissions *)

Fixpoint manual_prefix (q : list Task) : nat :=
  match q with
  | t :: q => if is_manual t then S (manual_prefix q) else 0
  | [] => 0
  end.

Definition insert_manual (t : Task) (q : list Task) : list Task :=
  take (manual_prefix q) q ++ [t] ++ drop (manual_prefix q) q.

Definition promote (t : Task) : Task :=
  {| task_ID := task_ID t; task_RunID := task_RunID t; task_LogicalID := task_LogicalID t;
     task_Kind := task_Kind t; task_Mode := EnqueueManualPreemptFront |}.

Definition same_job (t other : Task) : bool :=
  String.eqb (task_Kind other) (task_Kind t) || String.eqb (task_Kind other) "" ||
  String.eqb (task_Kind t) "".

(** The inner loop over one queue, from index [i] on; every turn moves the index
    closer to the end of the queue by one, so there are [n = len(q) - i] turns. *)
Fixpoint sweep_queue (t : Task) (n i : nat) (q : list Task) (nodes : history)
    (promotedOld : list Task) : list Task * history * list Task :=
  match n with
  | 0 => (q, nodes, promotedOld)
  | S n =>
      match q !! i with
      | None => (q, nodes, promotedOld)
      | Some u =>
          if negb (String.eqb (task_LogicalID u) (task_LogicalID t)) then
            sweep_queue t n (S i) q nodes promotedOld
          else if same_job t u then
            sweep_queue t n i (delete i q) (forget nodes u) (promotedOld ++ [u])
          else if negb (is_manual u) then
            sweep_queue t n (S i) (insert_manual (promote u) (delete i q)) nodes promotedOld
          else sweep_queue t n (S i) q nodes promotedOld
      end
  end.

Definition remove_run (run : string) (order : list string) (cursor : nat) : list string * nat :=
  match list_find (λ r, String.eqb r run) order with
  | None => (order, cursor)
  | Some (j, _) =>
      let order := delete j order in
      (order, if 0 <? length order then cursor mod length order else 0)
  end.

(** [queues], [activeNodes], [taskCount] and [promotedOld] during the outer loop. *)
Record sweep_state : Type := {
  sw_rq : RunQueues;
  sw_nodes : history;
  sw_taskCount : Z;
  sw_old : list Task
}.

Definition sweep_run (t : Task) (st : sweep_state) (entry : string * list Task) : sweep_state :=
  let '(run, q) := entry in
  if String.eqb run (task_RunID t) && negb (String.eqb (task_RunID t) "") then st
  else
    let '(q', nodes, old) := sweep_queue t (length q) 0 q (sw_nodes st) [] in
    let removed := Z.of_nat (length old) in
    {| sw_rq :=
         match q' with
         | [] =>
             let '(order, cursor) := remove_run run (runOrder (sw_rq st)) (runCursor (sw_rq st)) in
             {| queues := delete run (queues (sw_rq st)); runOrder := order; runCursor := cursor;
                queued := queued (sw_rq st) - removed |}
         | _ =>
             {| queues := <[run := q']> (queues (sw_rq st)); runOrder := runOrder (sw_rq st);
                runCursor := runCursor (sw_rq st); queued := queued (sw_rq st) - removed |}
         end;
       sw_nodes := nodes; sw_taskCount := sw_taskCount st - removed;
       sw_old := sw_old st ++ old |}.

Definition move_front (run : string) (order : list string) : list string :=
  match list_find (λ r, String.eqb r run) order with
  | Some (j, _) => if 0 <? j then run :: delete j order else order
  | None => run :: order
  end.

Definition push_manual (q : RunQueues) (t : Task) : RunQueues :=
  let run := task_RunID t in
  {| queues := <[run := insert_manual t (queue_of q run)]> (queues q);
     runOrder := move_front run (runOrder q); runCursor := 0; queued := queued q + 1 |}.

Definition same_target (t u : Task) : bool :=
  String.eqb (task_LogicalID u) (task_LogicalID t) && String.eqb (task_Kind u) (task_Kind t).

(** A duplicate within the same named run. *)
Definition duplicate_in_run (now : time) (s : Scheduler) (nodes : history) (t : Task) : bool :=
  negb (String.eqb (task_RunID t) "") &&
  (match nodes !! task_key t with
   | Some r => String.eqb (rec_lastRunID r) (task_RunID t) && live_record now r
   | None => false
   end ||
   existsb (λ u, String.eqb (task_RunID u) (task_RunID t) && same_target t u) (probing (ex s)) ||
   existsb (same_target t) (queue_of (rq s) (task_RunID t))).

Definition sweep `{MapOrder} (t : Task) (s : Scheduler) (nodes : history) : sweep_state :=
  fold_left (sweep_run t) (range (queues (rq s)))
    {| sw_rq := rq s; sw_nodes := nodes; sw_taskCount := taskCount s; sw_old := [] |}.

Definition swept (s : Scheduler) (st : sweep_state) : Scheduler :=
  {| cfg := cfg s; closed := closed s; rq := sw_rq st; ex := ex s; activeNodes := sw_nodes st;
     cn := cn s; taskCount := sw_taskCount st; callbacks := callbacks s;
     peakQueued := peakQueued s; changed := changed s |}.

Definition submitManualPreemptFront `{MapOrder} (now : time) (wait : bool) (s : Scheduler)
    (t : Task) : submit_result * Scheduler * list Task :=
  match refused s t with
  | Some e => (SubmitFailed e, s, [])
  | None =>
      let nodes := pruneActiveNodes (cfg s) now (activeNodes s) in
      if duplicate_in_run now s nodes t then
        (SubmitFailed ErrNodeConflict, with_nodes s nodes, [])
      else
        let st := sweep t s nodes in
        let s1 := swept s st in
        if has_room s1
        then (SubmitAccepted, accept s1 (push_manual (rq s1) t) (hold (activeNodes s1) t),
              sw_old st)
        else (no_room wait s1, s1, sw_old st)
  end.

(** The dispatch on the mode; [done] tells whether the caller's context is done. *)
Definition submit `{MapOrder} (done : bool) (now : time) (wait : bool) (s : Scheduler) (t : Task)
    : submit_result * Scheduler * list Task :=
  if done then (SubmitFailed ErrContextCanceled, s, [])
  else if (task_Mode t =? EnqueuePeriodicDedupe)%Z then submitPeriodicDedupe now wait s t
  else if (task_Mode t =? EnqueueManualPreemptFront)%Z then submitManualPreemptFront now wait s t
  else submitStrictConflict now wait s t.

(** ** Execution *)

Definition drop_cancel (m : gmap string (gset Z)) (run : string) (seq : Z)
    : gmap string (gset Z) :=
  match m !! run with
  | None => m
  | Some live =>
      if bool_decide (live ∖ {[seq]} = ∅) then delete run m else <[run := live ∖ {[seq]}]> m
  end.

Definition decrement (m : gmap string Z) (k : string) : gmap string Z :=
  let n := (get 0 m k - 1)%Z in
  if (n =? 0)%Z then delete k m else <[k := n]> m.

Definition decrement_node (m : gmap string Z) (k : string) : gmap string Z :=
  if (1 <? get 0 m k)%Z then <[k := (get 0 m k - 1)%Z]> m else delete k m.

Definition finish_record (until : time) (m : history) (t : Task) : history :=
  match m !! task_key t with
  | Some r => <[task_key t := release_record until r]> m
  | None => m
  end.

Definition finishTaskExecution (now : time) (s : Scheduler) (t : Task) (execID : Z)
    (seq : option Z) : Scheduler :=
  let x := ex s in
  {| cfg := cfg s; closed := closed s; rq := rq s;
     ex := {| activeByRun := decrement (activeByRun x) (task_RunID t);
              probingNodes := decrement_node (probingNodes x) (task_LogicalID t);
              probingTasks := delete execID (probingTasks x); nextExecID := nextExecID x;
              activeCount := activeCount x - 1; peakActive := peakActive x |};
     activeNodes := finish_record (now + cfg_NodeTTL (cfg s))%Z (activeNodes s) t;
     cn := match seq with
           | None => cn s
           | Some n =>
               {| runCancels := drop_cancel (runCancels (cn s)) (task_RunID t) n;
                  cancelledRuns := cancelledRuns (cn s); cancelSequence := cancelSequence (cn s);
                  cancelledCtx := {[n]} ∪ cancelledCtx (cn s) |}
           end;
     taskCount := taskCount s - 1; callbacks := callbacks s; peakQueued := peakQueued s;
     changed := S (changed s) |}.

(** The first locked region of [processTask]: the task is finished at once when the
    scheduler or its run was stopped meanwhile, and gets a context otherwise. *)
Definition start_task (now : time) (s : Scheduler) (t : Task) (execID : Z)
    : Scheduler * option Z :=
  if closed s || bool_decide (task_RunID t ∈ cancelledRuns (cn s)) then
    (finishTaskExecution now s t execID None, None)
  else
    let seq := cancelSequence (cn s) in
    ({| cfg := cfg s; closed := closed s; rq := rq s; ex := ex s; activeNodes := activeNodes s;
        cn := {| runCancels :=
                   <[task_RunID t := {[seq]} ∪ get ∅ (runCancels (cn s)) (task_RunID t)]>
                     (runCancels (cn s));
                 cancelledRuns := cancelledRuns (cn s); cancelSequence := (seq + 1)%Z;
                 cancelledCtx := cancelledCtx (cn s) |};
        taskCount := taskCount s; callbacks := callbacks s; peakQueued := peakQueued s;
        changed := changed s |}, Some seq).

Definition callback_done (s : Scheduler) : Scheduler :=
  {| cfg := cfg s; closed := closed s; rq := rq s; ex := ex s; activeNodes := activeNodes s;
     cn := cn s; taskCount := taskCount s; callbacks := callbacks s - 1;
     peakQueued := peakQueued s; changed := S (changed s) |}.

(** ** Stopping *)

(** The queued tasks leave the pool one after the other; [clock i] is the reading
    taken for the [i]-th. *)
Definition release_all (clock : nat → time) (ttl : Z) (m : history) (q : list Task) : history :=
  fold_left (λ m '(i, t), release (clock i + ttl)%Z m t) (imap pair q) m.

Definition CancelRun (clock : nat → time) (s : Scheduler) (run : string) : Scheduler * list Task :=
  let q := queue_of (rq s) run in
  let '(order, cursor) := remove_run run (runOrder (rq s)) (runCursor (rq s)) in
  ({| cfg := cfg s; closed := closed s;
      rq := {| queues := delete run (queues (rq s)); runOrder := order; runCursor := cursor;
               queued := queued (rq s) - Z.of_nat (length q) |};
      ex := ex s;
      activeNodes := release_all clock (cfg_NodeTTL (cfg s)) (activeNodes s) q;
      cn := {| runCancels := runCancels (cn s); cancelledRuns := {[run]} ∪ cancelledRuns (cn s);
               cancelSequence := cancelSequence (cn s);
               cancelledCtx := get ∅ (runCancels (cn s)) run ∪ cancelledCtx (cn s) |};
      taskCount := taskCount s - Z.of_nat (length q); callbacks := callbacks s;
      peakQueued := peakQueued s; changed := S (changed s) |}, q).

Definition Close `{MapOrder} (clock : nat → time) (s : Scheduler) : Scheduler * list Task :=
  if closed s then (s, [])
  else
    let pending := concat (map snd (range (queues (rq s)))) in
    ({| cfg := cfg s; closed := true;
        rq := {| queues := ∅; runOrder := []; runCursor := runCursor (rq s); queued := 0 |};
        ex := ex s;
        activeNodes := release_all clock (cfg_NodeTTL (cfg s)) (activeNodes s) pending;
        cn := {| runCancels := runCancels (cn s); cancelledRuns := cancelledRuns (cn s);
                 cancelSequence := cancelSequence (cn s);
                 cancelledCtx := ⋃ (map snd (map_to_list (runCancels (cn s)))) ∪
                                 cancelledCtx (cn s) |};
        taskCount := taskCount s - Z.of_nat (length pending); callbacks := callbacks s;
        peakQueued := peakQueued s; changed := S (changed s) |}, pending).

(** ** Observers *)

Definition wait_returns (s : Scheduler) : bool := (taskCount s =? 0)%Z.

Definition drain_condition (s : Scheduler) : bool :=
  (callbacks s =? 0)%Z && (activeCount (ex s) =? 0)%Z && (queued (rq s) =? 0)%Z.

Record PoolQueueSnapshot : Type := {
  pool_ProbingNodeIDs : list string;
  pool_QueuedNodeIDs : list string;
  pool_ProbingCount : nat;
  pool_QueuedWaitingCount : nat;
  pool_QueueNodesCount : nat
}.

Definition collect_queued (probingIDs : list string) (acc : list string) (t : Task)
    : list string :=
  let nid := task_LogicalID t in
  if negb (String.eqb nid "") && negb (mem_str nid acc) && negb (mem_str nid probingIDs)
  then acc ++ [nid] else acc.

Definition SnapshotNodePool `{MapOrder} (s : Scheduler) : PoolQueueSnapshot :=
  let probingIDs :=
    sort_strings (map fst (List.filter (λ '(nid, count), (0 <? count)%Z && negb (String.eqb nid ""))
      (range (probingNodes (ex s))))) in
  let ordered := flat_map (queue_of (rq s)) (runOrder (rq s)) in
  let manual := fold_left (collect_queued probingIDs) (List.filter is_manual ordered) [] in
  let queuedOrdered := fold_left (collect_queued probingIDs) ordered manual in
  {| pool_ProbingNodeIDs := probingIDs; pool_QueuedNodeIDs := queuedOrdered;
     pool_ProbingCount := length probingIDs; pool_QueuedWaitingCount := length queuedOrdered;
     pool_QueueNodesCount := length probingIDs + length queuedOrdered |}.

Definition GetNodePoolState (s : Scheduler) (logicalID : string) : string :=
  if (0 <? get 0 (probingNodes (ex s)) logicalID)%Z then "probing"
  else if existsb (λ t, String.eqb (task_LogicalID t) logicalID) (waiting (rq s)) then "queued"
  else "idle".

(** ** Executions of the whole system *)

Inductive dispatcher : Type :=
  | Turning
  | Sleeping (generation : nat)
  | Stopped.

Inductive phase : Type :=
  | Spawned
  | Executing (seq : Z).

(** [owed] are the completion callbacks started or about to start and not yet
    returned; [accepted] and [completed] record the history of the execution. *)
Record World : Type := {
  sched : Scheduler;
  disp : dispatcher;
  workers : gmap Z (Task * phase);
  owed : list (Task * option sched_error);
  ctxDone : bool;
  accepted : list Task;
  completed : list (Task * option sched_error)
}.

Definition start_world (s : Scheduler) : World :=
  {| sched := s; disp := Turning; workers := ∅; owed := []; ctxDone := false; accepted := [];
     completed := [] |}.

Inductive event : Type :=
  | EvSubmit (order : MapOrder) (done : bool) (now : time) (wait : bool) (t : Task)
  | EvDispatch
  | EvWake
  | EvStop
  | EvStart (execID : Z) (now : time)
  | EvFinish (execID : Z) (now : time) (err : option sched_error)
  | EvCallback (i : nat)
  | EvCancelRun (clock : nat → time) (run : string)
  | EvClose (order : MapOrder) (clock : nat → time)
  | EvContextDone.

Definition with_outcome (o : option sched_error) (ts : list Task)
    : list (Task * option sched_error) := map (λ t, (t, o)) ts.

Definition exec (e : event) (w : World) : option World :=
  match e with
  | EvSubmit order done now wait t =>
      let '(r, s, old) := submit (H := order) done now wait (sched w) t in
      Some {| sched := s; disp := disp w; workers := workers w;
              owed := owed w ++ with_outcome None old; ctxDone := ctxDone w;
              accepted := match r with SubmitAccepted => t :: accepted w | _ => accepted w end;
              completed := completed w |}
  | EvDispatch =>
      match disp w with
      | Turning =>
          if closed (sched w) then
            Some {| sched := sched w; disp := Stopped; workers := workers w; owed := owed w;
                    ctxDone := ctxDone w; accepted := accepted w; completed := completed w |}
          else match dispatch_turn (sched w) with
               | None =>
                   Some {| sched := sched w; disp := Sleeping (changed (sched w));
                           workers := workers w; owed := owed w; ctxDone := ctxDone w;
                           accepted := accepted w; completed := completed w |}
               | Some (t, execID, s) =>
                   Some {| sched := s; disp := Turning;
                           workers := <[execID := (t, Spawned)]> (workers w); owed := owed w;
                           ctxDone := ctxDone w; accepted := accepted w;
                           completed := completed w |}
               end
      | _ => None
      end
  | EvWake =>
      match disp w with
      | Sleeping g =>
          if g <? changed (sched w) then
            Some {| sched := sched w; disp := Turning; workers := workers w; owed := owed w;
                    ctxDone := ctxDone w; accepted := accepted w; completed := completed w |}
          else None
      | _ => None
      end
  | EvStop =>
      match disp w with
      | Sleeping _ =>
          if ctxDone w then
            Some {| sched := sched w; disp := Stopped; workers := workers w; owed := owed w;
                    ctxDone := ctxDone w; accepted := accepted w; completed := completed w |}
          else None
      | _ => None
      end
  | EvStart execID now =>
      match workers w !! execID with
      | Some (t, Spawned) =>
          match start_task now (sched w) t execID with
          | (s, None) =>
              Some {| sched := s; disp := disp w; workers := delete execID (workers w);
                      owed := owed w ++ [(t, Some ErrContextCanceled)]; ctxDone := ctxDone w;
                      accepted := accepted w; completed := completed w |}
          | (s, Some seq) =>
              Some {| sched := s; disp := disp w;
                      workers := <[execID := (t, Executing seq)]> (workers w); owed := owed w;
                      ctxDone := ctxDone w; accepted := accepted w; completed := completed w |}
          end
      | _ => None
      end
  | EvFinish execID now err =>
      match workers w !! execID with
      | Some (t, Executing seq) =>
          Some {| sched := finishTaskExecution now (sched w) t execID (Some seq); disp := disp w;
                  workers := delete execID (workers w); owed := owed w ++ [(t, err)];
                  ctxDone := ctxDone w; accepted := accepted w; completed := completed w |}
      | _ => None
      end
  | EvCallback i =>
      match owed w !! i with
      | Some c =>
          Some {| sched := callback_done (sched w); disp := disp w; workers := workers w;
                  owed := delete i (owed w); ctxDone := ctxDone w; accepted := accepted w;
                  completed := c :: completed w |}
      | None => None
      end
  | EvCancelRun clock run =>
      let '(s, q) := CancelRun clock (sched w) run in
      Some {| sched := s; disp := disp w; workers := workers w;
              owed := owed w ++ with_outcome (Some ErrContextCanceled) q; ctxDone := ctxDone w;
              accepted := accepted w; completed := completed w |}
  | EvClose order clock =>
      let '(s, pending) := Close (H := order) clock (sched w) in
      Some {| sched := s; disp := disp w; workers := workers w;
              owed := owed w ++ with_outcome (Some ErrContextCanceled) pending; ctxDone := true;
              accepted := accepted w; completed := completed w |}
  | EvContextDone =>
      Some {| sched := sched w; disp := disp w; workers := workers w; owed := owed w;
              ctxDone := true; accepted := accepted w; completed := completed w |}
  end.

Inductive reachable (s0 : Scheduler) : World → Prop :=
  | reach_start : reachable s0 (start_world s0)
  | reach_step w e w' : reachable s0 w → exec e w = Some w' → reachable s0 w'.
