(* ===== verification/SchedulerInvariant.v ===== *)
(** * The invariant of the probe scheduler

    What every locked region of [Scheduler.v] preserves, and what follows for every
    reachable state: the bounds, the accounting of tasks, the order of dispatch,
    exclusion of conflicting probes and the absence of lost wake-ups. *)

From S2P Require Import Prelude.
From S2P Require Import GoStrings.
From S2P Require Import Domain.
From S2P Require Import Lifecycle.
From S2P Require Import Scheduler.

(** ** Tasks up to their mode

    Promotion changes the mode of a queued task and nothing else, so lists of tasks
    are compared by what promotion keeps, in any order. *)

Definition ident (t : Task) : string * string * string * string :=
  (task_ID t, task_RunID t, task_LogicalID t, task_Kind t).

Definition same_tasks (l1 l2 : list Task) : Prop := map ident l1 ≡ₚ map ident l2.
Infix "≃" := same_tasks (at level 70).

#[export] Instance same_tasks_equiv : Equivalence same_tasks.
Proof.
  unfold same_tasks. split.
  - intros l. reflexivity.
  - intros l1 l2 Hl. by symmetry.
  - intros l1 l2 l3 H1 H2. by transitivity (map ident l2).
Qed.

#[export] Instance permutation_same_tasks : subrelation Permutation same_tasks.
Proof. intros l1 l2 Hp. unfold same_tasks. by apply Permutation_map. Qed.

#[export] Instance app_same_tasks : Proper (same_tasks ==> same_tasks ==> same_tasks) app.
Proof. unfold same_tasks. intros l1 l2 H1 k1 k2 H2. by rewrite !map_app, H1, H2. Qed.

#[export] Instance cons_same_tasks t : Proper (same_tasks ==> same_tasks) (cons t).
Proof. unfold same_tasks. intros l1 l2 Hl. simpl. by rewrite Hl. Qed.

#[export] Instance length_same_tasks : Proper (same_tasks ==> eq) (length (A := Task)).
Proof. unfold same_tasks. intros l1 l2 Hl. by rewrite <- (length_map ident), Hl, length_map. Qed.

Lemma promote_ident t : ident (promote t) = ident t.
Proof. done. Qed.

(** ** Counting *)

Definition cnt (key : Task → string) (k : string) (l : list Task) : Z :=
  Z.of_nat (length (List.filter (λ t, String.eqb (key t) k) l)).

(** A key that promotion does not change. *)
Class TaskKey (key : Task → string) : Prop :=
  key_ident : ∀ t u, ident t = ident u → key t = key u.

#[export] Instance run_key : TaskKey task_RunID.
Proof. by intros t u [= _ -> _ _]. Qed.
#[export] Instance node_key : TaskKey task_LogicalID.
Proof. by intros t u [= _ _ -> _]. Qed.
#[export] Instance pool_key : TaskKey task_key.
Proof. unfold task_key. by intros t u [= _ _ -> ->]. Qed.

Section Counting.
Context (key : Task → string) `{!TaskKey key}.

Lemma cnt_cons k t l :
  cnt key k (t :: l) = ((if String.eqb (key t) k then 1 else 0) + cnt key k l)%Z.
Proof. unfold cnt. simpl. destruct (String.eqb (key t) k); simpl; lia. Qed.

Lemma cnt_app k l1 l2 : cnt key k (l1 ++ l2) = (cnt key k l1 + cnt key k l2)%Z.
Proof. induction l1 as [|t l1 IH]; simpl; [done|]. rewrite !cnt_cons, IH. lia. Qed.

Lemma cnt_nonneg k l : (0 ≤ cnt key k l)%Z.
Proof. unfold cnt. lia. Qed.

Lemma cnt_le k l : (cnt key k l ≤ Z.of_nat (length l))%Z.
Proof.
  induction l as [|t l IH]; [done|]. rewrite cnt_cons. cbn [length].
  destruct (String.eqb _ _); lia.
Qed.

Lemma cnt_pos k l : (0 < cnt key k l)%Z ↔ ∃ t, t ∈ l ∧ key t = k.
Proof.
  induction l as [|t l IH].
  - split; [done|]. intros (? & ?%elem_of_nil & _). done.
  - rewrite cnt_cons. setoid_rewrite elem_of_cons. pose proof (cnt_nonneg k l).
    destruct (String.eqb_spec (key t) k) as [Hk|Hk].
    + split; [|lia]. intros _. exists t. auto.
    + rewrite Z.add_0_l, IH. split; [naive_solver|]. intros (u & [->|?] & ?); [done|eauto].
Qed.

(** Counting by the key of the identity. *)
Lemma cnt_ident k l1 l2 : l1 ≃ l2 → cnt key k l1 = cnt key k l2.
Proof.
  unfold same_tasks. revert l2. induction l1 as [|t l1 IH]; intros l2 Hp; simpl in Hp.
  - apply Permutation_nil in Hp. by destruct l2.
  - assert (∃ u k1 k2, l2 = k1 ++ u :: k2 ∧ ident u = ident t) as (u & k1 & k2 & -> & Hu).
    { assert (ident t ∈ map ident l2) as Hin by (rewrite <- Hp; left).
      rewrite list_elem_of_In, in_map_iff in Hin. destruct Hin as (u & Hu & Hin).
      apply in_split in Hin as (k1 & k2 & ->). eauto 6. }
    rewrite cnt_app, !cnt_cons, (key_ident (key := key) u t Hu).
    rewrite (IH (k1 ++ k2)), cnt_app; [lia|].
    rewrite map_app in *. simpl in Hp. rewrite Hu in Hp.
    by apply Permutation_cons_app_inv in Hp.
Qed.

#[export] Instance cnt_same_tasks k : Proper (same_tasks ==> eq) (cnt key k).
Proof. intros l1 l2. apply cnt_ident. Qed.

(** A table of counters without zero entries. *)
Definition counts (m : gmap string Z) (l : list Task) : Prop :=
  ∀ k, get 0%Z m k = cnt key k l ∧ ∀ n, m !! k = Some n → (0 < n)%Z.

#[export] Instance counts_same_tasks m : Proper (same_tasks ==> iff) (counts m).
Proof. intros l1 l2 Hl. unfold counts. by setoid_rewrite Hl. Qed.

Lemma counts_incr m t l :
  counts m l → counts (<[key t := (get 0 m (key t) + 1)%Z]> m) (t :: l).
Proof.
  intros Hm k. specialize (Hm k) as [Hc Hpos]. rewrite cnt_cons. unfold get in *.
  destruct (String.eqb_spec (key t) k) as [<-|Hne].
  - rewrite lookup_insert_eq. simpl. split; [lia|]. intros n [= <-].
    pose proof (cnt_nonneg (key t) l). lia.
  - rewrite lookup_insert_ne by done. split; [lia|done].
Qed.

Lemma counts_decr m t l : counts m (t :: l) → counts (decrement m (key t)) l.
Proof.
  intros Hm k. specialize (Hm k) as [Hc Hpos]. rewrite cnt_cons in Hc. unfold decrement, get in *.
  pose proof (cnt_nonneg k l) as Hnn.
  destruct (String.eqb_spec (key t) k) as [Heq|Hne]; [subst k|].
  - destruct (Z.eqb_spec (default 0 (m !! key t) - 1) 0)%Z as [Hz|Hz].
    + rewrite lookup_delete_eq. split; [simpl; lia|done].
    + rewrite lookup_insert_eq. split; [simpl; lia|]. intros n [= <-]. lia.
  - split; [|intros n]; destruct (_ =? _)%Z;
      rewrite ?lookup_delete_ne, ?lookup_insert_ne by done; [lia..|apply Hpos|apply Hpos].
Qed.

Lemma decrement_node_eq m t l :
  counts m (t :: l) → decrement_node m (key t) = decrement m (key t).
Proof.
  intros Hm. specialize (Hm (key t)) as [Hc _]. rewrite cnt_cons, String.eqb_refl in Hc.
  pose proof (cnt_nonneg (key t) l). unfold decrement_node, decrement.
  destruct (Z.ltb_spec 1 (get 0%Z m (key t))), (Z.eqb_spec (get 0 m (key t) - 1) 0)%Z; by try lia.
Qed.
End Counting.

(** ** The history of nodes against the pool

    [tracks m l]: the record of a key counts the tasks of the pool [l] with that key
    and is active exactly when there are some; the key is never empty. *)

Definition tracks (m : history) (l : list Task) : Prop :=
  (∀ k, match m !! k with
        | Some r => rec_count r = cnt task_key k l ∧ rec_active r = (0 <? rec_count r)%Z
        | None => cnt task_key k l = 0%Z
        end) ∧ m !! "" = None.

#[export] Instance tracks_same_tasks m : Proper (same_tasks ==> iff) (tracks m).
Proof.
  intros l1 l2 Hl. unfold tracks. split; intros [Hm He]; (split; [|done]); intros k;
    specialize (Hm k); pose proof (cnt_ident task_key k l1 l2 Hl) as Hc; [rewrite <- Hc|rewrite Hc];
    done.
Qed.

Lemma task_key_nonempty t : task_key t ≠ "".
Proof. unfold task_key, makeNodeKey. by destruct (task_LogicalID t). Qed.

Section Tracks.
Implicit Types (m : history) (l : list Task).

Lemma tracks_count m l k : tracks m l → rec_count (get zero_record m k) = cnt task_key k l.
Proof. intros [Hm _]. specialize (Hm k). unfold get. destruct (m !! k); [apply Hm|by rewrite Hm]. Qed.

(** Writing the record of [k]. *)
Lemma tracks_write m l l' k r :
  tracks m l → k ≠ "" → rec_count r = cnt task_key k l' →
  rec_active r = (0 <? rec_count r)%Z →
  (∀ k', k' ≠ k → cnt task_key k' l' = cnt task_key k' l) → tracks (<[k := r]> m) l'.
Proof.
  intros [Hm He] Hk Hr Ha Hother. split; [|by rewrite lookup_insert_ne].
  intros k'. destruct (decide (k' = k)) as [->|Hne]; [by rewrite lookup_insert_eq|].
  rewrite lookup_insert_ne, Hother by done. apply Hm.
Qed.

Lemma tracks_erase m l l' k :
  tracks m l → cnt task_key k l' = 0%Z →
  (∀ k', k' ≠ k → cnt task_key k' l' = cnt task_key k' l) → tracks (delete k m) l'.
Proof.
  intros [Hm He] Hr Hother. split.
  - intros k'. destruct (decide (k' = k)) as [->|Hne]; [by rewrite lookup_delete_eq|].
    rewrite lookup_delete_ne, Hother by done. apply Hm.
  - apply lookup_delete_None. auto.
Qed.

Lemma cnt_other t l k : k ≠ task_key t → cnt task_key k (t :: l) = cnt task_key k l.
Proof. intros Hk. rewrite cnt_cons. destruct (String.eqb_spec (task_key t) k); by subst. Qed.

Lemma cnt_own t l : cnt task_key (task_key t) (t :: l) = (1 + cnt task_key (task_key t) l)%Z.
Proof. by rewrite cnt_cons, String.eqb_refl. Qed.

Lemma tracks_hold m t l : tracks m l → tracks (hold m t) (t :: l).
Proof.
  intros Hm. eapply tracks_write; [done|apply task_key_nonempty| | |apply cnt_other]; simpl.
  - rewrite cnt_own, (tracks_count m l) by done. lia.
  - rewrite (tracks_count m l) by done. pose proof (cnt_nonneg task_key (task_key t) l).
    symmetry. apply Z.ltb_lt. lia.
Qed.

(** The strict mode writes a fresh record, which is right when the key is free. *)
Lemma tracks_fresh m t l r :
  tracks m l → cnt task_key (task_key t) l = 0%Z → rec_count r = 1%Z → rec_active r = true →
  tracks (<[task_key t := r]> m) (t :: l).
Proof.
  intros Hm Hfree Hr Ha. eapply tracks_write; [done|apply task_key_nonempty| | |apply cnt_other].
  - by rewrite cnt_own, Hfree.
  - by rewrite Hr, Ha.
Qed.

Lemma release_record_spec until r n :
  rec_count r = (1 + n)%Z → (0 ≤ n)%Z →
  rec_count (release_record until r) = n ∧
  rec_active (release_record until r) = (0 <? rec_count (release_record until r))%Z.
Proof.
  intros Hr Hn. unfold release_record. destruct (Z.leb_spec (rec_count r - 1) 0)%Z; simpl.
  - split; [lia|done].
  - split; [lia|]. symmetry. apply Z.ltb_lt. lia.
Qed.

Lemma tracks_release until m t l : tracks m (t :: l) → tracks (release until m t) l.
Proof.
  intros Hm. pose proof (tracks_count m _ (task_key t) Hm) as Hc. rewrite cnt_own in Hc.
  apply (release_record_spec until) in Hc as [Hc Ha]; [|apply cnt_nonneg].
  eapply tracks_write; [done|apply task_key_nonempty|done|done|].
  intros k Hk. by rewrite cnt_other.
Qed.

Lemma tracks_present m t l : tracks m (t :: l) → ∃ r, m !! task_key t = Some r.
Proof.
  intros [Hm _]. specialize (Hm (task_key t)). rewrite cnt_own in Hm.
  destruct (m !! task_key t) as [r|]; [eauto|].
  pose proof (cnt_nonneg task_key (task_key t) l). lia.
Qed.

Lemma tracks_finish until m t l : tracks m (t :: l) → tracks (finish_record until m t) l.
Proof.
  intros Hm. apply (tracks_release until) in Hm as Hr. unfold finish_record, release, get in *.
  destruct (tracks_present m t l Hm) as [r Hk]. by rewrite Hk in *.
Qed.

Lemma tracks_forget m t l : tracks m (t :: l) → tracks (forget m t) l.
Proof.
  intros Hm. pose proof (tracks_count m _ (task_key t) Hm) as Hc. rewrite cnt_own in Hc.
  destruct (tracks_present m t l Hm) as [r Hk]. unfold forget, get in *. rewrite Hk in *.
  simpl in Hc. pose proof (cnt_nonneg task_key (task_key t) l) as Hnn.
  destruct (Z.leb_spec (rec_count r - 1) 0)%Z.
  - eapply tracks_erase; [done|lia|]. intros k Hne. by rewrite cnt_other.
  - eapply tracks_write; [done|apply task_key_nonempty|simpl; lia| |].
    + simpl. symmetry. apply Z.ltb_lt. lia.
    + intros k Hne. by rewrite cnt_other.
Qed.

Lemma tracks_release_all clock ttl m q l :
  tracks m (q ++ l) → tracks (release_all clock ttl m q) l.
Proof.
  unfold release_all. rewrite <- (imap_pair_snd q) at 1. generalize (imap pair q). clear q.
  intros iq. revert m. induction iq as [|[i t] iq IH]; intros m Hm; simpl; [done|].
  by apply IH, tracks_release.
Qed.
End Tracks.

(** ** Bounding the history *)

Section History.
Context `{MapOrder}.
Implicit Types (m : history) (l : list Task).

Lemma oldest_fold_in es acc :
  let k := (fold_left oldest_step es acc).1 in
  k = acc.1 ∨ ∃ r, (k, r) ∈ es ∧ rec_active r = false.
Proof.
  revert acc. induction es as [|[k0 r0] es IH]; intros acc; cbv zeta; cbn [fold_left]; [auto|].
  specialize (IH (oldest_step acc (k0, r0))). cbv zeta in IH.
  destruct IH as [Hk|(r & Hin & Hr)].
  - rewrite Hk. unfold oldest_step. destruct (rec_active r0) eqn:Hr0; simpl; [auto|].
    destruct (String.eqb acc.1 "" || _); simpl; [|auto].
    right. exists r0. split; [left|done].
  - right. exists r. split; [by right|done].
Qed.

Lemma oldest_fold_some es acc :
  (∀ k r, (k, r) ∈ es → k ≠ "") → (fold_left oldest_step es acc).1 = "" →
  acc.1 = "" ∧ ∀ k r, (k, r) ∈ es → rec_active r = true.
Proof.
  revert acc. induction es as [|[k0 r0] es IH]; intros acc Hne; cbn [fold_left].
  - intros Ha. split; [done|]. by intros k r ?%elem_of_nil.
  - intros Hf. apply IH in Hf as [Hacc Hact]; [|intros k r Hin; eapply Hne; by right].
    specialize (Hne k0 r0 (list_elem_of_here _ _)). unfold oldest_step in Hacc.
    destruct (rec_active r0) eqn:Hr0; simpl in Hacc.
    + split; [done|]. intros k r [[= -> ->]|Hin]%elem_of_cons; eauto.
    + exfalso. destruct (String.eqb_spec acc.1 "") as [He|He]; simpl in Hacc; [done|].
      by destruct (Before _ _).
Qed.

Lemma elem_of_range {A} (m : gmap string A) k r : (k, r) ∈ range m ↔ m !! k = Some r.
Proof. by rewrite range_perm, elem_of_map_to_list. Qed.

Lemma oldest_inactive_spec m :
  m !! "" = None →
  (oldest_inactive m = "" ∧ ∀ k r, m !! k = Some r → rec_active r = true) ∨
  (∃ r, m !! oldest_inactive m = Some r ∧ rec_active r = false).
Proof.
  intros He. unfold oldest_inactive.
  destruct (oldest_fold_in (range m) ("", 0%Z)) as [Hk|(r & Hin & Hr)]; simpl in *.
  - left. split; [done|]. apply oldest_fold_some in Hk as [_ Hact].
    + intros k r Hin. by eapply Hact, elem_of_range.
    + intros k r Hin ->. apply elem_of_range in Hin. congruence.
  - right. exists r. by rewrite elem_of_range in Hin.
Qed.

Lemma tracks_drop_inactive m l k r :
  tracks m l → m !! k = Some r → rec_active r = false → tracks (delete k m) l.
Proof.
  intros Hm Hk Hr. eapply tracks_erase; [done| |done].
  destruct Hm as [Hm _]. specialize (Hm k). rewrite Hk in Hm. destruct Hm as [Hc Ha].
  rewrite Hr in Ha. symmetry in Ha. apply Z.ltb_ge in Ha.
  pose proof (cnt_nonneg task_key k l). lia.
Qed.

Lemma evict_spec fuel limit m l :
  tracks m l → size m ≤ fuel → (0 ≤ limit)%Z →
  tracks (evict fuel limit m) l ∧
  ((Z.of_nat (size (evict fuel limit m)) ≤ limit)%Z ∨
   ∀ k r, evict fuel limit m !! k = Some r → rec_active r = true).
Proof.
  revert m. induction fuel as [|fuel IH]; intros m Hm Hf Hl; simpl.
  - split; [done|]. left. lia.
  - destruct (Z.ltb_spec limit (Z.of_nat (size m))); [|split; [done|left; lia]].
    destruct (oldest_inactive_spec m (proj2 Hm)) as [[-> Hact]|(r & Hk & Hr)];
      [simpl; auto|].
    destruct (String.eqb_spec (oldest_inactive m) "") as [He|_].
    { rewrite He in Hk. by rewrite (proj2 Hm) in Hk. }
    apply IH; [by eapply tracks_drop_inactive| |done].
    rewrite map_size_delete, Hk. lia.
Qed.

Lemma tracks_filter_live now m l :
  tracks m l → tracks (filter (λ '(_, r), live_record now r = true) m) l.
Proof.
  intros [Hm He]. split.
  - intros k. specialize (Hm k). rewrite map_lookup_filter.
    destruct (m !! k) as [r|] eqn:Hk; simpl; [|done].
    destruct (decide (live_record now r = true)) as [Hl|Hl]; simpl.
    + rewrite option_guard_True by done. done.
    + rewrite option_guard_False by done. simpl. unfold live_record in Hl.
      destruct Hm as [Hc Ha]. destruct (rec_active r); [done|]. symmetry in Ha.
      apply Z.ltb_ge in Ha. pose proof (cnt_nonneg task_key k l). lia.
  - by rewrite map_lookup_filter, He.
Qed.

Lemma active_keys_bound m l :
  tracks m l → (∀ k r, m !! k = Some r → rec_active r = true) → size m ≤ length l.
Proof.
  intros [Hm _] Hact. rewrite <- size_dom, <- (length_map task_key l).
  transitivity (size (list_to_set (map task_key l) : gset string)).
  - apply subseteq_size. intros k [r Hk]%elem_of_dom. specialize (Hm k).
    rewrite Hk in Hm. destruct Hm as [Hc Ha]. rewrite (Hact k r Hk) in Ha. symmetry in Ha.
    apply Z.ltb_lt in Ha. rewrite Hc in Ha. apply cnt_pos in Ha as (t & Hin & Ht).
    apply elem_of_list_to_set, list_elem_of_In, in_map_iff. exists t.
    by rewrite <- list_elem_of_In.
  - unfold size, set_size. simpl. apply submseteq_length, NoDup_submseteq.
    + apply NoDup_elements.
    + intros k. by rewrite elem_of_elements, elem_of_list_to_set.
Qed.

(** Pruning keeps what the pool holds and leaves at most the configured number of
    records, or one per task of the pool. *)
Lemma prune_spec c now m l :
  tracks m l → (0 ≤ cfg_QueueSize c + cfg_Concurrency c)%Z →
  tracks (pruneActiveNodes c now m) l ∧
  (Z.of_nat (size (pruneActiveNodes c now m)) ≤
   Z.max (cfg_QueueSize c + cfg_Concurrency c) (Z.of_nat (length l)))%Z.
Proof.
  intros Hm Hl. unfold pruneActiveNodes.
  apply (tracks_filter_live now) in Hm.
  destruct (evict_spec _ _ _ _ Hm (le_n _) Hl) as [Ht [Hs|Ha]].
  - split; [done|]. lia.
  - split; [done|]. pose proof (active_keys_bound _ _ Ht Ha). lia.
Qed.
End History.

(** ** The run queues *)

Definition manual_first (l : list Task) : Prop :=
  ∃ a b, l = a ++ b ∧ Forall (λ t, is_manual t = true) a ∧ Forall (λ t, is_manual t = false) b.

Definition queue_ok (run : string) (l : list Task) : Prop :=
  l ≠ [] ∧ Forall (λ t, task_RunID t = run) l ∧ manual_first l.

Record queues_ok (q : RunQueues) : Prop := {
  qok_order : NoDup (runOrder q);
  qok_runs : ∀ r, r ∈ runOrder q ↔ is_Some (queues q !! r);
  qok_each : ∀ r l, queues q !! r = Some l → queue_ok r l;
  qok_queued : queued q = Z.of_nat (length (waiting q))
}.

Definition pool_of (m : gmap string (list Task)) : list Task := concat (map snd (map_to_list m)).

Section Pool.
Implicit Types (m : gmap string (list Task)) (l : list Task).

#[local] Instance concat_perm : Proper ((≡ₚ) ==> (≡ₚ)) (concat (A := Task)).
Proof.
  intros l1 l2. induction 1 as [|x l1 l2 _ IH|x y l|l1 l2 l3 _ IH1 _ IH2]; simpl.
  - done.
  - by rewrite IH.
  - by rewrite !app_assoc, (Permutation_app_comm y x).
  - by rewrite IH1.
Qed.

Lemma pool_range `{MapOrder} m : concat (map snd (range m)) ≡ₚ pool_of m.
Proof. unfold pool_of. by rewrite range_perm. Qed.

Lemma pool_insert_new m r l : m !! r = None → pool_of (<[r := l]> m) ≡ₚ l ++ pool_of m.
Proof. intros Hr. unfold pool_of. by rewrite map_to_list_insert. Qed.

Lemma pool_delete m r : pool_of m ≡ₚ get [] m r ++ pool_of (delete r m).
Proof.
  unfold get. destruct (m !! r) as [l|] eqn:Hr; simpl.
  - rewrite <- (insert_delete_id m r l Hr) at 1. apply pool_insert_new, lookup_delete_eq.
  - by rewrite delete_id.
Qed.

Lemma pool_set m r l : get [] m r ++ pool_of (<[r := l]> m) ≡ₚ l ++ pool_of m.
Proof.
  rewrite <- insert_delete_eq, pool_insert_new by apply lookup_delete_eq.
  rewrite (pool_delete m r). by rewrite !app_assoc, (Permutation_app_comm l).
Qed.

Lemma elem_of_pool m t : t ∈ pool_of m ↔ ∃ r l, m !! r = Some l ∧ t ∈ l.
Proof.
  unfold pool_of. rewrite list_elem_of_In, in_concat. setoid_rewrite in_map_iff. split.
  - intros (l & ([r l'] & <- & Hin) & Ht). apply list_elem_of_In in Hin, Ht.
    apply elem_of_map_to_list in Hin. eauto.
  - intros (r & l & Hr & Ht). exists l. split; [|by apply list_elem_of_In].
    exists (r, l). split; [done|]. by apply list_elem_of_In, elem_of_map_to_list.
Qed.
End Pool.

Section Orders.
Implicit Types (l : list string).

Lemma delete_at l i x :
  NoDup l → l !! i = Some x → NoDup (delete i l) ∧ ∀ y, y ∈ delete i l ↔ y ∈ l ∧ y ≠ x.
Proof.
  intros Hnd Hi. pose proof (delete_Permutation _ _ _ Hi) as Hp.
  assert (Hnd' : NoDup (x :: delete i l)) by by rewrite <- Hp.
  apply NoDup_cons in Hnd' as [Hx Hnd']. split; [done|]. intros y.
  assert (Hy : y ∈ l ↔ y ∈ x :: delete i l) by by rewrite <- Hp.
  rewrite Hy, elem_of_cons. split; [intros Hd; split; [by right|congruence]|naive_solver].
Qed.

Lemma remove_run_spec run l cursor :
  NoDup l →
  NoDup (remove_run run l cursor).1 ∧
  ∀ y, y ∈ (remove_run run l cursor).1 ↔ y ∈ l ∧ y ≠ run.
Proof.
  intros Hnd. unfold remove_run. destruct (list_find _ l) as [[j x]|] eqn:Hf.
  - apply list_find_Some in Hf as (Hj & Hx & _). apply Is_true_eq_true, String.eqb_eq in Hx.
    subst x. by apply delete_at.
  - apply list_find_None in Hf. split; [done|]. intros y. split; [|by intros [? _]].
    intros Hy. split; [done|]. intros ->. rewrite Forall_forall in Hf. apply (Hf _ Hy).
    by rewrite String.eqb_refl.
Qed.

Lemma move_front_spec run l :
  NoDup l → NoDup (move_front run l) ∧ ∀ y, y ∈ move_front run l ↔ y = run ∨ y ∈ l.
Proof.
  intros Hnd. unfold move_front. destruct (list_find _ l) as [[j x]|] eqn:Hf.
  - apply list_find_Some in Hf as (Hj & Hx & _). apply Is_true_eq_true, String.eqb_eq in Hx.
    subst x. pose proof (list_elem_of_lookup_2 _ _ _ Hj) as Hin. destruct (Nat.ltb_spec 0 j).
    + apply (delete_at _ _ _ Hnd) in Hj as [Hnd' Hd]. split.
      * constructor; [|done]. rewrite Hd. naive_solver.
      * intros y. rewrite elem_of_cons, Hd. destruct (decide (y = run)); naive_solver.
    + split; [done|]. intros y. split; [by right|]. by intros [->|?].
  - apply list_find_None in Hf. rewrite Forall_forall in Hf.
    assert (run ∉ l). { intros Hin. apply (Hf _ Hin). by rewrite String.eqb_refl. }
    split; [by constructor|]. intros y. apply elem_of_cons.
Qed.
End Orders.

Section ManualFirst.
Implicit Types (l : list Task) (t : Task).

Lemma manual_prefix_spec a b :
  Forall (λ t, is_manual t = true) a → Forall (λ t, is_manual t = false) b →
  manual_prefix (a ++ b) = length a.
Proof.
  intros Ha Hb. induction Ha as [|t a Ht Ha IH]; simpl; [|by rewrite Ht, IH].
  destruct Hb as [|t b Ht]; simpl; [done|]. by rewrite Ht.
Qed.

Lemma insert_manual_perm t l : insert_manual t l ≡ₚ t :: l.
Proof.
  unfold insert_manual. rewrite Permutation_app_comm. simpl. constructor.
  by rewrite Permutation_app_comm, take_drop.
Qed.

Lemma insert_manual_first t l :
  is_manual t = true → manual_first l → manual_first (insert_manual t l).
Proof.
  intros Ht (a & b & -> & Ha & Hb). unfold insert_manual.
  rewrite (manual_prefix_spec a b Ha Hb), take_app_length, drop_app_length.
  exists (a ++ [t]), b. rewrite <- app_assoc. split; [done|].
  split; [apply Forall_app; auto|done].
Qed.

Lemma Forall_sublist (P : Task → Prop) l k : k `sublist_of` l → Forall P l → Forall P k.
Proof.
  induction 1; [done| |]; intros HF; inversion HF; subst; auto.
Qed.

Lemma manual_first_sublist l k : k `sublist_of` l → manual_first l → manual_first k.
Proof.
  intros Hs (a & b & -> & Ha & Hb). apply sublist_app_r in Hs as (k1 & k2 & -> & H1 & H2).
  exists k1, k2. split; [done|].
  split; [by eapply Forall_sublist | by eapply Forall_sublist].
Qed.

Lemma manual_first_snoc l t : is_manual t = false → manual_first l → manual_first (l ++ [t]).
Proof.
  intros Ht (a & b & -> & Ha & Hb). exists a, (b ++ [t]). rewrite app_assoc. split; [done|].
  split; [done|]. apply Forall_app. auto.
Qed.

Lemma manual_first_nil : manual_first [].
Proof. by exists [], []. Qed.

(** Any manual task of the queue puts one at its head. *)
Lemma manual_first_head l t :
  manual_first l → t ∈ l → is_manual t = true →
  ∃ u rest, l = u :: rest ∧ is_manual u = true.
Proof.
  intros (a & b & -> & Ha & Hb) Hin Ht. destruct Ha as [|u a Hu Ha]; [|by exists u, (a ++ b)].
  rewrite Forall_forall in Hb. simpl in Hin. by rewrite (Hb t Hin) in Ht.
Qed.
End ManualFirst.

Section QueueOps.
Implicit Types (q : RunQueues) (t : Task).

Lemma queue_of_some q run l : queues q !! run = Some l → queue_of q run = l.
Proof. unfold queue_of, get. by intros ->. Qed.

Lemma queue_of_cons q run t rest :
  queue_of q run = t :: rest → queues q !! run = Some (t :: rest).
Proof.
  unfold queue_of, get. destruct (queues q !! run) as [l|]; simpl; [by intros ->|done].
Qed.

Lemma queue_of_first q run : queues_ok q → manual_first (queue_of q run).
Proof.
  intros Hq. unfold queue_of, get. destruct (queues q !! run) as [l|] eqn:Hl; simpl.
  - by apply (qok_each _ Hq) in Hl as (_ & _ & ?).
  - apply manual_first_nil.
Qed.

Lemma queue_of_runs q run : queues_ok q → Forall (λ t, task_RunID t = run) (queue_of q run).
Proof.
  intros Hq. unfold queue_of, get. destruct (queues q !! run) as [l|] eqn:Hl; simpl; [|done].
  by apply (qok_each _ Hq) in Hl as (_ & ? & _).
Qed.

Lemma queue_of_nil q run : queues_ok q → queue_of q run = [] ↔ run ∉ runOrder q.
Proof.
  intros Hq. rewrite (qok_runs _ Hq). unfold queue_of, get.
  destruct (queues q !! run) as [l|] eqn:Hl; simpl.
  - apply (qok_each _ Hq) in Hl as (Hne & _). split; [done|]. intros Hn. by destruct Hn.
  - split; [|done]. by intros _ [? ?].
Qed.

(** Replacing the queue of a run by a nonempty one. *)
Lemma queues_ok_set q run l order cursor n :
  queues_ok q → queue_ok run l → NoDup order →
  (∀ r, r ∈ order ↔ r = run ∨ r ∈ runOrder q) →
  (n = queued q + Z.of_nat (length l) - Z.of_nat (length (queue_of q run)))%Z →
  queues_ok {| queues := <[run := l]> (queues q); runOrder := order; runCursor := cursor;
               queued := n |}.
Proof.
  intros Hq Hl Hnd Hord Hn. split; simpl; [done| | |].
  - intros r. rewrite Hord, (qok_runs _ Hq), lookup_insert_is_Some.
    destruct (decide (run = r)) as [->|]; intuition congruence.
  - intros r k. rewrite lookup_insert_Some.
    intros [[<- <-]|[_ Hk]]; [done|by apply (qok_each _ Hq)].
  - pose proof (pool_set (queues q) run l) as Hp%Permutation_length.
    rewrite !length_app in Hp. pose proof (qok_queued _ Hq) as Hqd.
    unfold waiting in *. simpl. fold (pool_of (<[run := l]> (queues q))).
    fold (pool_of (queues q)) in Hqd. unfold queue_of in Hn. lia.
Qed.

Lemma waiting_set q run l order cursor n :
  queue_of q run ++
    waiting {| queues := <[run := l]> (queues q); runOrder := order; runCursor := cursor;
               queued := n |} ≡ₚ l ++ waiting q.
Proof. apply pool_set. Qed.

(** Dropping the queue of a run. *)
Lemma queues_ok_drop q run order cursor n :
  queues_ok q → NoDup order → (∀ r, r ∈ order ↔ r ∈ runOrder q ∧ r ≠ run) →
  (n = queued q - Z.of_nat (length (queue_of q run)))%Z →
  queues_ok {| queues := delete run (queues q); runOrder := order; runCursor := cursor;
               queued := n |}.
Proof.
  intros Hq Hnd Hord Hn. split; simpl; [done| | |].
  - intros r. rewrite Hord, (qok_runs _ Hq), lookup_delete_is_Some. intuition congruence.
  - intros r k [_ Hk]%lookup_delete_Some. by apply (qok_each _ Hq).
  - pose proof (pool_delete (queues q) run) as Hp%Permutation_length.
    rewrite length_app in Hp. pose proof (qok_queued _ Hq) as Hqd.
    unfold waiting in *. simpl. fold (pool_of (delete run (queues q))).
    fold (pool_of (queues q)) in Hqd. unfold queue_of in Hn. lia.
Qed.

Lemma waiting_drop q run order cursor n :
  queue_of q run ++
    waiting {| queues := delete run (queues q); runOrder := order; runCursor := cursor;
               queued := n |} ≡ₚ waiting q.
Proof. symmetry. apply pool_delete. Qed.

Lemma append_tail_ok q t :
  queues_ok q → is_manual t = false →
  queues_ok (append_tail q t) ∧ waiting (append_tail q t) ≡ₚ t :: waiting q.
Proof.
  intros Hq Ht. unfold append_tail. split.
  - apply queues_ok_set; [done| | | |rewrite length_app; simpl; lia].
    + split; [by destruct (queue_of q (task_RunID t))|]. split.
      * apply Forall_app. split; [by apply queue_of_runs|by constructor].
      * by apply manual_first_snoc, queue_of_first.
    + destruct (Nat.eqb_spec (length (queue_of q (task_RunID t))) 0) as [He|He];
        [|apply (qok_order _ Hq)].
      apply nil_length_inv, (queue_of_nil _ _ Hq) in He. apply NoDup_app.
      split; [apply (qok_order _ Hq)|]. split; [|by apply NoDup_singleton].
      intros r Hr ->%list_elem_of_singleton. done.
    + intros r. destruct (Nat.eqb_spec (length (queue_of q (task_RunID t))) 0) as [He|He].
      * rewrite elem_of_app, list_elem_of_singleton. naive_solver.
      * split; [by right|]. intros [->|?]; [|done]. apply dec_stable.
        rewrite <- (queue_of_nil _ _ Hq). intros Hn. by rewrite Hn in He.
  - apply (Permutation_app_inv_l (queue_of q (task_RunID t))). rewrite waiting_set.
    by rewrite <- app_assoc.
Qed.

Lemma push_manual_ok q t :
  queues_ok q → is_manual t = true →
  queues_ok (push_manual q t) ∧ waiting (push_manual q t) ≡ₚ t :: waiting q.
Proof.
  intros Hq Ht. unfold push_manual.
  pose proof (move_front_spec (task_RunID t) _ (qok_order _ Hq)) as [Hnd Hord]. split.
  - apply queues_ok_set; [done| |done|done|rewrite insert_manual_perm; simpl; lia].
    split; [|split].
    + intros Hn. pose proof (insert_manual_perm t (queue_of q (task_RunID t))) as Hp.
      rewrite Hn in Hp. by apply Permutation_nil_cons in Hp.
    + rewrite insert_manual_perm. constructor; [done|]. by apply queue_of_runs.
    + by apply insert_manual_first, queue_of_first.
  - apply (Permutation_app_inv_l (queue_of q (task_RunID t))). rewrite waiting_set.
    rewrite insert_manual_perm. simpl. by rewrite Permutation_middle.
Qed.

Lemma take_head_ok q i run t rest last more :
  queues_ok q → runOrder q !! i = Some run → queue_of q run = t :: rest →
  queues_ok (take_head q i run rest last more) ∧
  t :: waiting (take_head q i run rest last more) ≡ₚ waiting q.
Proof.
  intros Hq Hi Hrun. pose proof (qok_each _ Hq _ _ (queue_of_cons _ _ _ _ Hrun)) as (_ & HF & Hm).
  unfold take_head. destruct rest as [|u rest].
  - pose proof (delete_at _ _ _ (qok_order _ Hq) Hi) as [Hnd Hord]. split.
    + apply queues_ok_drop; [done..|]. rewrite Hrun. simpl. lia.
    + pose proof (waiting_drop q run) as Hw. rewrite Hrun in Hw. apply Hw.
  - pose proof (list_elem_of_lookup_2 _ _ _ Hi) as Hin. split.
    + apply queues_ok_set; [done| |apply (qok_order _ Hq)| |rewrite Hrun; simpl; lia].
      * split; [done|]. split; [by inversion HF|].
        eapply manual_first_sublist; [|done]. apply sublist_cons. done.
      * intros r. split; [by right|]. by intros [->|?].
    + apply (Permutation_app_inv_l (u :: rest)).
      rewrite <- (waiting_set q run (u :: rest) (runOrder q) more (queued q - 1)).
      rewrite Hrun. symmetry. apply (Permutation_middle (u :: rest)).
Qed.
End QueueOps.

(** ** The dispatcher's choice *)

Section Eligible.
Implicit Types (c : Config) (q : RunQueues) (x : Executions) (t : Task).

Lemma fair_positions_all q i : i < length (runOrder q) → i ∈ fair_positions q.
Proof.
  intros Hi. unfold fair_positions. set (n := length (runOrder q)) in *.
  apply list_elem_of_In, in_map_iff. exists ((i + n - runCursor q mod n) mod n). split.
  - pose proof (Nat.mod_upper_bound (runCursor q) n ltac:(lia)) as Hb.
    rewrite (Nat.Div0.add_mod (runCursor q)), Nat.Div0.mod_mod.
    rewrite <- (Nat.Div0.add_mod_idemp_r (runCursor q mod n)).
    rewrite Nat.Div0.mod_mod, Nat.Div0.add_mod_idemp_r.
    replace (runCursor q mod n + (i + n - runCursor q mod n)) with (i + 1 * n) by lia.
    rewrite Nat.Div0.mod_add. by apply Nat.mod_small.
  - apply in_seq. pose proof (Nat.mod_upper_bound (i + n - runCursor q mod n) n ltac:(lia)). lia.
Qed.

Lemma run_eligible_spec c q x i :
  run_eligible c q x i = true →
  ∃ run t rest, runOrder q !! i = Some run ∧ queue_of q run = t :: rest ∧
    (get 0 (activeByRun x) run < run_limit c (activeCompetingRuns q x))%Z.
Proof.
  unfold run_eligible. destruct (runOrder q !! i) as [run|]; [|done].
  intros [Hl Ha]%andb_prop. apply Nat.ltb_lt in Hl. apply Z.ltb_lt in Ha.
  destruct (queue_of q run) as [|t rest] eqn:Hq; simpl in Hl; [lia|].
  exists run, t, rest. by rewrite Hq.
Qed.

Lemma head_is_manual_spec q run :
  head_is_manual q run = true → ∃ t rest, queue_of q run = t :: rest ∧ is_manual t = true.
Proof. unfold head_is_manual. destruct (queue_of q run) as [|t rest]; [done|]. eauto. Qed.

Definition any_manual (q : RunQueues) : Prop := ∃ t, t ∈ waiting q ∧ is_manual t = true.

Lemma any_manual_head q :
  queues_ok q → any_manual q → ∃ run, run ∈ runOrder q ∧ head_is_manual q run = true.
Proof.
  intros Hq (t & Hin & Ht). apply elem_of_pool in Hin as (run & l & Hl & Hin).
  exists run. split; [by apply (qok_runs _ Hq); eauto|].
  pose proof (qok_each _ Hq _ _ Hl) as (_ & _ & Hm).
  destruct (manual_first_head l t Hm Hin Ht) as (u & rest & -> & Hu).
  unfold head_is_manual. by rewrite (queue_of_some _ _ _ Hl).
Qed.

Lemma elem_of_waiting q run t : queues_ok q → t ∈ queue_of q run → t ∈ waiting q.
Proof.
  intros Hq Hin. apply elem_of_pool. unfold queue_of, get in Hin.
  destruct (queues q !! run) as [l|] eqn:Hl; [|by apply elem_of_nil in Hin]. eauto.
Qed.

(** What is taken: a manual task if there is any, and otherwise the head of a run
    below its limit. *)
Lemma nextEligible_some c q x t q' :
  queues_ok q → nextEligible c q x = Some (t, q') →
  queues_ok q' ∧ t :: waiting q' ≡ₚ waiting q ∧
  (is_manual t = true ∨
   (¬ any_manual q ∧
    (get 0 (activeByRun x) (task_RunID t) < run_limit c (activeCompetingRuns q x))%Z)).
Proof.
  intros Hq. unfold nextEligible.
  destruct (list_find _ (runOrder q)) as [[i run]|] eqn:Hf.
  - apply list_find_Some in Hf as (Hi & Hm & _). apply Is_true_eq_true in Hm.
    apply head_is_manual_spec in Hm as (u & rest & Hrun & Hu). rewrite Hrun.
    intros [= <- <-]. split; [|split]; [by eapply take_head_ok..|auto].
  - apply list_find_None in Hf. rewrite Forall_forall in Hf.
    destruct (list_find _ (fair_positions q)) as [[n i]|] eqn:Hg; [|done].
    apply list_find_Some in Hg as (_ & He & _). apply Is_true_eq_true in He.
    apply run_eligible_spec in He as (run & u & rest & Hi & Hrun & Hl).
    rewrite Hi. simpl. rewrite Hrun. intros [= <- <-].
    pose proof (queue_of_runs q run Hq) as HF. rewrite Hrun in HF. inversion HF; subst.
    split; [|split]; [by eapply take_head_ok..|]. right. split; [|done].
    intros Ha%any_manual_head; [|done]. destruct Ha as (r & Hr & Hm).
    apply (Hf r Hr). by rewrite Hm.
Qed.

(** Nothing is taken only when every waiting run is at its limit. *)
Lemma nextEligible_none c q x run :
  queues_ok q → nextEligible c q x = None → run ∈ runOrder q →
  (run_limit c (activeCompetingRuns q x) ≤ get 0 (activeByRun x) run)%Z.
Proof.
  intros Hq. unfold nextEligible.
  destruct (list_find _ (runOrder q)) as [[i r]|] eqn:Hf.
  { apply list_find_Some in Hf as (Hi & Hm & _). apply Is_true_eq_true in Hm.
    apply head_is_manual_spec in Hm as (u & rest & Hrun & Hu). by rewrite Hrun. }
  destruct (list_find _ (fair_positions q)) as [[n i]|] eqn:Hg.
  { apply list_find_Some in Hg as (_ & He & _). apply Is_true_eq_true in He.
    apply run_eligible_spec in He as (r & u & rest & Hi & Hrun & Hl).
    rewrite Hi. simpl. by rewrite Hrun. }
  intros _ Hin. apply list_elem_of_lookup in Hin as Hl. destruct Hl as [i Hi].
  apply list_find_None in Hg. rewrite Forall_forall in Hg.
  apply lookup_lt_Some in Hi as Hlen. specialize (Hg i (fair_positions_all _ _ Hlen)).
  unfold run_eligible in Hg. rewrite Hi in Hg.
  destruct (queue_of q run) as [|t rest] eqn:Hrun.
  { by apply (queue_of_nil _ _ Hq) in Hrun. }
  simpl in Hg. destruct (Z.ltb_spec (get 0 (activeByRun x) run)
    (run_limit c (activeCompetingRuns q x)))%Z; [by destruct Hg|lia].
Qed.
End Eligible.

(** ** The sweep of a manual submission *)

Section Sweep.
Implicit Types (q : list Task) (t u : Task).

Lemma delete_perm q i u : q !! i = Some u → q ≡ₚ u :: delete i q.
Proof. apply delete_Permutation. Qed.

Lemma promote_same q i u : q !! i = Some u → insert_manual (promote u) (delete i q) ≃ q.
Proof.
  intros Hi. rewrite insert_manual_perm. transitivity (u :: delete i q).
  { unfold same_tasks. reflexivity. }
  apply permutation_same_tasks. symmetry. by apply delete_perm.
Qed.

(** One queue: replaced tasks leave it with their hold on the history, promoted ones
    stay, and the manual tasks still come first. *)
Definition sweep_rel (run : string) (L : list Task) (q : list Task) (nodes : history)
    (old : list Task) (res : list Task * history * list Task) : Prop :=
  let '(q', nodes', old') := res in
  manual_first q' ∧ Forall (λ t, task_RunID t = run) q' ∧ tracks nodes' (q' ++ L) ∧
  q' ++ old' ≃ q ++ old.

Lemma sweep_rel_trans run L q1 n1 o1 q2 n2 o2 res :
  q2 ++ o2 ≃ q1 ++ o1 → sweep_rel run L q2 n2 o2 res → sweep_rel run L q1 n1 o1 res.
Proof.
  destruct res as [[q' n'] o']. unfold sweep_rel. intros He (? & ? & ? & Hq).
  split; [done|]. split; [done|]. split; [done|]. by rewrite Hq.
Qed.

Lemma sweep_queue_ok t run L n i q nodes old :
  manual_first q → Forall (λ t, task_RunID t = run) q → tracks nodes (q ++ L) →
  sweep_rel run L q nodes old (sweep_queue t n i q nodes old).
Proof.
  revert i q nodes old. induction n as [|n IH]; intros i q nodes old Hm HF Ht; simpl;
    [by unfold sweep_rel|].
  destruct (q !! i) as [u|] eqn:Hi; [|by unfold sweep_rel].
  destruct (negb (String.eqb (task_LogicalID u) (task_LogicalID t))); [by apply IH|].
  pose proof (delete_perm _ _ _ Hi) as Hp. destruct (same_job t u).
  - eapply sweep_rel_trans; [|apply IH].
    + transitivity ((u :: delete i q) ++ old); apply permutation_same_tasks; [|by rewrite <- Hp].
      rewrite app_assoc. by rewrite (Permutation_app_comm (delete i q ++ old)).
    + eapply manual_first_sublist; [apply sublist_delete|done].
    + rewrite Hp in HF. by inversion HF.
    + apply tracks_forget. by rewrite app_comm_cons, <- Hp.
  - destruct (is_manual u); simpl; [by apply IH|].
    eapply sweep_rel_trans; [|apply IH].
    + by rewrite (promote_same _ _ _ Hi).
    + apply insert_manual_first; [done|].
      eapply manual_first_sublist; [apply sublist_delete|done].
    + rewrite insert_manual_perm. rewrite Hp in HF. inversion HF. by constructor.
    + by rewrite (promote_same _ _ _ Hi).
Qed.

(** The whole loop, for executing tasks [P], from the state [W] and [T]. *)
Record sweep_ok (P W : list Task) (T : Z) (st : sweep_state) : Prop := {
  swok_queues : queues_ok (sw_rq st);
  swok_nodes : tracks (sw_nodes st) (waiting (sw_rq st) ++ P);
  swok_tasks : waiting (sw_rq st) ++ sw_old st ≃ W;
  swok_count : (sw_taskCount st = T - Z.of_nat (length (sw_old st)))%Z
}.

Lemma queue_split (rq : RunQueues) run q :
  queues rq !! run = Some q → waiting rq ≡ₚ q ++ pool_of (delete run (queues rq)).
Proof.
  intros Hq. unfold waiting. fold (pool_of (queues rq)). rewrite (pool_delete _ run) at 1.
  unfold get. by rewrite Hq.
Qed.

(** Storing the new queue of the run, whichever branch is taken. *)
Lemma store_queue_ok (rq : RunQueues) run q q' (removed : list Task) :
  queues_ok rq → queues rq !! run = Some q → manual_first q' →
  Forall (λ t, task_RunID t = run) q' → q' ++ removed ≃ q →
  let rq' :=
    match q' with
    | [] =>
        let '(order, cursor) := remove_run run (runOrder rq) (runCursor rq) in
        {| queues := delete run (queues rq); runOrder := order; runCursor := cursor;
           queued := queued rq - Z.of_nat (length removed) |}
    | _ =>
        {| queues := <[run := q']> (queues rq); runOrder := runOrder rq;
           runCursor := runCursor rq; queued := queued rq - Z.of_nat (length removed) |}
    end in
  queues_ok rq' ∧ waiting rq' ≡ₚ q' ++ pool_of (delete run (queues rq)) ∧
  (∀ r, r ≠ run → queues rq' !! r = queues rq !! r).
Proof.
  intros Hrq Hq Hm HF Hs. assert (Hlen : length q = length q' + length removed).
  { by rewrite <- Hs, length_app. }
  pose proof (queue_of_some _ _ _ Hq) as Hqo. destruct q' as [|u q'].
  - destruct (remove_run _ _ _) as [order cursor] eqn:Hr.
    pose proof (remove_run_spec run _ (runCursor rq) (qok_order _ Hrq)) as [Hnd Hord].
    rewrite Hr in Hnd, Hord. simpl in *. split; [|split].
    + apply queues_ok_drop; [done..|]. rewrite Hqo. lia.
    + done.
    + intros r Hne. by rewrite lookup_delete_ne.
  - simpl. split; [|split].
    + apply queues_ok_set; [done|by repeat split|apply (qok_order _ Hrq)| |
        rewrite Hqo; simpl in *; lia].
      intros r. split; [by right|]. intros [->|?]; [|done]. apply (qok_runs _ Hrq). eauto.
    + unfold waiting. simpl. fold (pool_of (<[run := u :: q']> (queues rq))).
      rewrite <- insert_delete_eq. by rewrite pool_insert_new by apply lookup_delete_eq.
    + intros r Hne. by rewrite lookup_insert_ne.
Qed.

Lemma sweep_run_ok t P W T st run q :
  sweep_ok P W T st → queues (sw_rq st) !! run = Some q →
  sweep_ok P W T (sweep_run t st (run, q)) ∧
  ∀ r, r ≠ run → queues (sw_rq (sweep_run t st (run, q))) !! r = queues (sw_rq st) !! r.
Proof.
  intros [Hrq Ht Hs Hc] Hq. unfold sweep_run. destruct (_ && _); [by split|].
  pose proof (qok_each _ Hrq _ _ Hq) as (_ & HF & Hm). pose proof (queue_split _ _ _ Hq) as Hw.
  rewrite Hw, <- app_assoc in Ht.
  pose proof (sweep_queue_ok t run _ (length q) 0 q (sw_nodes st) [] Hm HF Ht) as Hsw.
  destruct (sweep_queue _ _ _ _ _ _) as [[q' nodes] old].
  destruct Hsw as (Hm' & HF' & Ht' & Hs'). rewrite app_nil_r in Hs'.
  destruct (store_queue_ok (sw_rq st) run q q' old Hrq Hq Hm' HF' Hs') as (Hok & Hw' & Hother).
  split; [|done]. split; simpl.
  - done.
  - by rewrite Hw', <- app_assoc.
  - rewrite Hw', <- Hs, Hw, <- Hs', <- !app_assoc. apply permutation_same_tasks.
    apply Permutation_app_head. rewrite (app_assoc _ (sw_old st)), Permutation_app_comm.
    by rewrite app_assoc.
  - rewrite length_app. lia.
Qed.

Lemma sweep_loop_ok t P W T es st :
  sweep_ok P W T st → NoDup (map fst es) →
  (∀ r l, (r, l) ∈ es → queues (sw_rq st) !! r = Some l) →
  sweep_ok P W T (fold_left (sweep_run t) es st).
Proof.
  revert st. induction es as [|[r l] es IH]; intros st Hst Hnd Hin; simpl; [done|].
  apply NoDup_cons in Hnd as [Hr Hnd].
  destruct (sweep_run_ok t P W T st r l Hst (Hin r l (list_elem_of_here _ _))) as [Hok Hother].
  apply IH; [done..|]. intros r' l' Hin'. rewrite Hother; [by apply Hin; right|].
  intros ->. apply Hr. apply list_elem_of_In, in_map_iff. exists (r, l').
  by rewrite <- list_elem_of_In.
Qed.

Lemma sweep_all_ok `{MapOrder} t P s nodes :
  queues_ok (rq s) → tracks nodes (waiting (rq s) ++ P) →
  sweep_ok P (waiting (rq s)) (taskCount s) (sweep t s nodes).
Proof.
  intros Hrq Ht. apply sweep_loop_ok.
  - split; simpl; [done..| |lia]. by rewrite app_nil_r.
  - rewrite range_perm. apply NoDup_fst_map_to_list.
  - intros r l Hin. by apply elem_of_range in Hin.
Qed.
End Sweep.

(** ** The invariant of the scheduler *)

Definition cfg_ok (c : Config) : Prop :=
  (1 ≤ cfg_RunConcurrency c ≤ cfg_Concurrency c ∧ 1 ≤ cfg_QueueSize c)%Z.

Definition history_limit (c : Config) : Z := (cfg_QueueSize c + cfg_Concurrency c)%Z.

(** Everything the scheduler is responsible for: queued and executing tasks. *)
Definition pool (s : Scheduler) : list Task := waiting (rq s) ++ probing (ex s).

Record execs_ok (c : Config) (x : Executions) : Prop := {
  xok_runs : counts task_RunID (activeByRun x) (probing x);
  xok_nodes : counts task_LogicalID (probingNodes x) (probing x);
  xok_active : activeCount x = Z.of_nat (length (probing x));
  xok_cap : (activeCount x ≤ cfg_Concurrency c)%Z;
  xok_ids : ∀ id t, probingTasks x !! id = Some t → (id ≤ nextExecID x)%Z
}.

Record sched_ok (s : Scheduler) : Prop := {
  ok_cfg : cfg_ok (cfg s);
  ok_queues : queues_ok (rq s);
  ok_room : (queued (rq s) ≤ cfg_QueueSize (cfg s))%Z;
  ok_execs : execs_ok (cfg s) (ex s);
  ok_nodes : tracks (activeNodes s) (pool s);
  ok_history : (Z.of_nat (size (activeNodes s)) ≤ history_limit (cfg s) + 1)%Z;
  ok_tasks : (taskCount s = queued (rq s) + activeCount (ex s))%Z;
  ok_closed : closed s = true → waiting (rq s) = []
}.

Section SchedOk.
Implicit Types (s : Scheduler) (t : Task).

Lemma pool_length s :
  sched_ok s → Z.of_nat (length (pool s)) = (queued (rq s) + activeCount (ex s))%Z.
Proof.
  intros Hs. unfold pool. rewrite length_app, (qok_queued _ (ok_queues _ Hs)).
  rewrite (xok_active _ _ (ok_execs _ Hs)). lia.
Qed.

Lemma pool_bound s : sched_ok s → (Z.of_nat (length (pool s)) ≤ history_limit (cfg s))%Z.
Proof.
  intros Hs. rewrite pool_length by done. unfold history_limit.
  pose proof (ok_room _ Hs). pose proof (xok_cap _ _ (ok_execs _ Hs)). lia.
Qed.

Lemma prune_ok `{MapOrder} now s :
  sched_ok s →
  tracks (pruneActiveNodes (cfg s) now (activeNodes s)) (pool s) ∧
  (Z.of_nat (size (pruneActiveNodes (cfg s) now (activeNodes s))) ≤ history_limit (cfg s))%Z.
Proof.
  intros Hs. pose proof (ok_cfg _ Hs) as Hc. unfold cfg_ok in Hc.
  pose proof (pool_bound _ Hs) as Hb. unfold history_limit in *.
  destruct (prune_spec (cfg s) now _ _ (ok_nodes _ Hs) ltac:(lia)) as [Ht Hsz].
  split; [done|]. lia.
Qed.

Lemma with_nodes_ok s nodes :
  sched_ok s → tracks nodes (pool s) →
  (Z.of_nat (size nodes) ≤ history_limit (cfg s) + 1)%Z → sched_ok (with_nodes s nodes).
Proof. intros []. by split. Qed.

(** Taking in one task. *)
Lemma accept_ok s q nodes t :
  sched_ok s → closed s = false → has_room s = true →
  queues_ok q → waiting q ≡ₚ t :: waiting (rq s) → tracks nodes (t :: pool s) →
  (Z.of_nat (size nodes) ≤ history_limit (cfg s) + 1)%Z → sched_ok (accept s q nodes).
Proof.
  intros [] Hcl Hroom Hq Hw Ht Hsz. unfold has_room in Hroom. apply Z.ltb_lt in Hroom.
  assert (Hn : queued q = (queued (rq s) + 1)%Z).
  { rewrite (qok_queued _ Hq), (qok_queued _ ok_queues0), Hw. simpl. lia. }
  split; simpl; try done.
  - lia.
  - unfold pool. simpl. by rewrite Hw.
  - rewrite Hn, ok_tasks0. lia.
  - congruence.
Qed.

Lemma size_insert_le {A} (m : gmap string A) k a n :
  (Z.of_nat (size m) ≤ n)%Z → (Z.of_nat (size (<[k := a]> m)) ≤ n + 1)%Z.
Proof. intros Hn. rewrite map_size_insert. destruct (m !! k); simpl; lia. Qed.

Lemma size_delete_le {A} (m : gmap string A) k : size (delete k m) ≤ size m.
Proof. rewrite map_size_delete. destruct (m !! k); simpl; lia. Qed.

Lemma forget_size m t : size (forget m t) ≤ size m.
Proof.
  unfold forget. destruct (m !! task_key t) eqn:Hk; [|done].
  destruct (_ <=? _)%Z; [apply size_delete_le|]. by rewrite map_size_insert, Hk.
Qed.

Lemma sweep_queue_size t n i q nodes old :
  size (sweep_queue t n i q nodes old).1.2 ≤ size nodes.
Proof.
  revert i q nodes old. induction n as [|n IH]; intros i q nodes old; simpl; [done|].
  destruct (q !! i); [|done]. destruct (negb _); [apply IH|].
  destruct (same_job _ _); [|by destruct (negb _)].
  etransitivity; [apply IH|apply forget_size].
Qed.

Lemma sweep_size `{MapOrder} t s nodes : size (sw_nodes (sweep t s nodes)) ≤ size nodes.
Proof.
  unfold sweep.
  change (size nodes) with (size (sw_nodes {| sw_rq := rq s; sw_nodes := nodes;
    sw_taskCount := taskCount s; sw_old := [] |})).
  generalize {| sw_rq := rq s; sw_nodes := nodes; sw_taskCount := taskCount s; sw_old := [] |}.
  induction (range (queues (rq s))) as [|[r l] es IH]; intros st; simpl; [done|].
  etransitivity; [apply IH|]. unfold sweep_run. destruct (_ && _); [done|].
  pose proof (sweep_queue_size t (length l) 0 l (sw_nodes st) []) as Hsz.
  by destruct (sweep_queue _ _ _ _ _ _) as [[q' nodes'] old].
Qed.

Lemma swept_ok s st :
  sched_ok s → closed s = false → sweep_ok (probing (ex s)) (waiting (rq s)) (taskCount s) st →
  size (sw_nodes st) ≤ size (activeNodes s) ∨
    (Z.of_nat (size (sw_nodes st)) ≤ history_limit (cfg s))%Z →
  sched_ok (swept s st) ∧
  (queued (sw_rq st) = queued (rq s) - Z.of_nat (length (sw_old st)))%Z.
Proof.
  intros Hs Hcl [Hq Ht Hw Hc] Hsz.
  assert (Hn : (queued (sw_rq st) = queued (rq s) - Z.of_nat (length (sw_old st)))%Z).
  { rewrite (qok_queued _ Hq), (qok_queued _ (ok_queues _ Hs)), <- Hw, length_app. lia. }
  split; [|done]. pose proof (ok_history _ Hs). pose proof (ok_room _ Hs).
  split; simpl; [apply Hs|done|lia|apply Hs|done|lia| |congruence].
  rewrite Hc, Hn, (ok_tasks _ Hs). lia.
Qed.
End SchedOk.

(** ** Submissions *)

Definition is_accepted (r : submit_result) : bool :=
  match r with SubmitAccepted => true | _ => false end.

(** What a submission may change: an accepted task enters the queues, the tasks it
    replaces leave them, and only an accepted one signals. *)
Record submit_effect (s s' : Scheduler) (t : Task) (r : submit_result) (old : list Task)
    : Prop := {
  sub_ok : sched_ok s';
  sub_ex : ex s' = ex s;
  sub_cn : cn s' = cn s;
  sub_cfg : cfg s' = cfg s;
  sub_closed : closed s' = closed s;
  sub_callbacks : callbacks s' = (callbacks s + if is_accepted r then 1 else 0)%Z;
  sub_tasks : waiting (rq s') ++ old ≃ (if is_accepted r then [t] else []) ++ waiting (rq s);
  sub_changed : changed s' = if is_accepted r then S (changed s) else changed s;
  sub_old : is_accepted r = false → old = []
}.

Section Submit.
Context `{MapOrder}.
Implicit Types (s : Scheduler) (t : Task).

Lemma no_room_not_accepted wait s : is_accepted (no_room wait s) = false.
Proof. by destruct wait. Qed.

(** A submission that leaves the queues alone. *)
Lemma effect_unchanged s t r nodes :
  sched_ok s → is_accepted r = false → tracks nodes (pool s) →
  (Z.of_nat (size nodes) ≤ history_limit (cfg s) + 1)%Z →
  submit_effect s (with_nodes s nodes) t r [].
Proof.
  intros Hs Hr Ht Hsz. split; simpl; rewrite ?Hr, ?Z.add_0_r, ?app_nil_r; try done.
  by apply with_nodes_ok.
Qed.

Lemma effect_refused s t e : sched_ok s → submit_effect s s t (SubmitFailed e) [].
Proof. intros Hs. split; simpl; rewrite ?Z.add_0_r, ?app_nil_r; done. Qed.

Lemma effect_accepted s s1 t q nodes old :
  sched_ok s1 → closed s1 = false → has_room s1 = true →
  ex s1 = ex s → cn s1 = cn s → cfg s1 = cfg s → closed s1 = closed s →
  callbacks s1 = callbacks s → changed s1 = changed s → waiting (rq s1) ++ old ≃ waiting (rq s) →
  queues_ok q → waiting q ≡ₚ t :: waiting (rq s1) → tracks nodes (t :: pool s1) →
  (Z.of_nat (size nodes) ≤ history_limit (cfg s1) + 1)%Z →
  submit_effect s (accept s1 q nodes) t SubmitAccepted old.
Proof.
  intros Hs Hcl Hroom ? ? ? ? Hcb Hch Hw Hq Hwq Ht Hsz. split; simpl; try done.
  - by eapply accept_ok.
  - by rewrite Hcb.
  - by rewrite Hwq, <- Hw.
  - by rewrite Hch.
Qed.

Lemma refused_none s t : refused s t = None → closed s = false.
Proof. unfold refused. by destruct (closed s). Qed.

Lemma delete_dead_ok m l k r now :
  tracks m l → m !! k = Some r → live_record now r = false → tracks (delete k m) l.
Proof.
  intros Hm Hk Hl. eapply tracks_drop_inactive; [done..|].
  unfold live_record in Hl. by destruct (rec_active r).
Qed.

Lemma key_free m l k : tracks m l → m !! k = None → cnt task_key k l = 0%Z.
Proof. intros [Hm _] Hk. specialize (Hm k). by rewrite Hk in Hm. Qed.

(** The end of the strict submission, when the key has no record. *)
Lemma strict_end wait s t nodes :
  sched_ok s → closed s = false → is_manual t = false → tracks nodes (pool s) →
  (Z.of_nat (size nodes) ≤ history_limit (cfg s))%Z → nodes !! task_key t = None →
  let '(r, s', old) :=
    if has_room (with_nodes s nodes)
    then (SubmitAccepted, enqueueTask (with_nodes s nodes) t, [])
    else (no_room wait (with_nodes s nodes), with_nodes s nodes, []) in
  submit_effect s s' t r old.
Proof.
  intros Hs Hcl Hm Ht Hsz Hk. destruct (has_room _) eqn:Hroom.
  - pose proof (append_tail_ok _ t (ok_queues _ Hs) Hm) as [Hq Hw].
    eapply (effect_accepted s (with_nodes s nodes)); simpl;
      [apply with_nodes_ok; try done; lia|try done..].
    + by rewrite app_nil_r.
    + apply tracks_fresh; [done| |done..]. by eapply key_free.
    + by apply size_insert_le.
  - apply effect_unchanged; [done|apply no_room_not_accepted|done|lia].
Qed.

Lemma submit_strict_ok now wait s t r s' old :
  sched_ok s → is_manual t = false → submitStrictConflict now wait s t = (r, s', old) →
  submit_effect s s' t r old.
Proof.
  intros Hs Hm. unfold submitStrictConflict. destruct (refused s t) as [e|] eqn:Href.
  { intros [= <- <- <-]. by apply effect_refused. }
  apply refused_none in Href. pose proof (prune_ok now s Hs) as [Ht Hsz].
  destruct (_ !! task_key t) as [rec|] eqn:Hk.
  - destruct (live_record now rec) eqn:Hl.
    { intros [= <- <- <-]. apply effect_unchanged; [done|done|done|lia]. }
    intros Hres. pose proof (strict_end wait s t (delete (task_key t)
      (pruneActiveNodes (cfg s) now (activeNodes s)))) as He.
    rewrite Hres in He. apply He; [done|done|done|by eapply delete_dead_ok| |
      apply lookup_delete_eq].
    pose proof (size_delete_le (pruneActiveNodes (cfg s) now (activeNodes s)) (task_key t)). lia.
  - intros Hres. pose proof (strict_end wait s t _ Hs Href Hm Ht Hsz Hk) as He.
    by rewrite Hres in He.
Qed.

Lemma submit_periodic_ok now wait s t r s' old :
  sched_ok s → is_manual t = false → submitPeriodicDedupe now wait s t = (r, s', old) →
  submit_effect s s' t r old.
Proof.
  intros Hs Hm. unfold submitPeriodicDedupe. destruct (refused s t) as [e|] eqn:Href.
  { intros [= <- <- <-]. by apply effect_refused. }
  apply refused_none in Href. destruct (isNodeInPoolForPeriodic s t).
  { intros [= <- <- <-]. split; simpl; rewrite ?Z.add_0_r, ?app_nil_r; done. }
  pose proof (prune_ok now s Hs) as [Ht Hsz].
  set (nodes := pruneActiveNodes (cfg s) now (activeNodes s)) in *.
  destruct (has_room _) eqn:Hroom; intros [= <- <- <-].
  - pose proof (append_tail_ok _ t (ok_queues _ Hs) Hm) as [Hq Hw].
    eapply (effect_accepted s (with_nodes s nodes)); simpl;
      [apply with_nodes_ok; try done; lia|try done..].
    + by rewrite app_nil_r.
    + by apply tracks_hold.
    + by apply size_insert_le.
  - apply effect_unchanged; [done|apply no_room_not_accepted|done|lia].
Qed.

Lemma submit_manual_ok now wait s t r s' old :
  sched_ok s → is_manual t = true → submitManualPreemptFront now wait s t = (r, s', old) →
  submit_effect s s' t r old.
Proof.
  intros Hs Hm. unfold submitManualPreemptFront. destruct (refused s t) as [e|] eqn:Href.
  { intros [= <- <- <-]. by apply effect_refused. }
  apply refused_none in Href. pose proof (prune_ok now s Hs) as [Ht Hsz].
  set (nodes := pruneActiveNodes (cfg s) now (activeNodes s)) in *.
  destruct (duplicate_in_run _ _ _ _).
  { intros [= <- <- <-]. apply effect_unchanged; [done|done|done|lia]. }
  pose proof (sweep_all_ok t _ s nodes (ok_queues _ Hs) Ht) as Hsw.
  pose proof (sweep_size t s nodes) as Hss.
  destruct (swept_ok s _ Hs Href Hsw) as [Hok Hn]; [right; lia|].
  set (st := sweep t s nodes) in *.
  destruct (has_room (swept s st)) eqn:Hroom; intros [= <- <- <-].
  - pose proof (push_manual_ok _ t (swok_queues _ _ _ _ Hsw) Hm) as [Hq Hw].
    eapply (effect_accepted s (swept s st)); try done.
    + apply Hsw.
    + apply tracks_hold. apply Hsw.
    + apply size_insert_le. simpl. lia.
  - unfold has_room in Hroom. apply Z.ltb_ge in Hroom. simpl in Hroom.
    pose proof (ok_room _ Hs). assert (Hold : sw_old st = []).
    { apply nil_length_inv. lia. }
    pose proof (swok_tasks _ _ _ _ Hsw) as Hw. rewrite Hold in *.
    split; simpl; rewrite ?no_room_not_accepted, ?Z.add_0_r; done.
Qed.

Lemma submit_ok done now wait s t r s' old :
  sched_ok s → submit done now wait s t = (r, s', old) → submit_effect s s' t r old.
Proof.
  intros Hs. unfold submit. destruct done.
  { intros [= <- <- <-]. by apply effect_refused. }
  destruct (Z.eqb_spec (task_Mode t) EnqueuePeriodicDedupe) as [Hp|_].
  - apply submit_periodic_ok; [done|]. unfold is_manual. by rewrite Hp.
  - destruct (Z.eqb_spec (task_Mode t) EnqueueManualPreemptFront) as [Hm|Hm].
    + apply submit_manual_ok; [done|]. unfold is_manual. by rewrite Hm.
    + apply submit_strict_ok; [done|]. unfold is_manual. by apply Z.eqb_neq.
Qed.
End Submit.

(** ** Dispatch, execution and stopping *)

Section Execution.
Implicit Types (s : Scheduler) (x : Executions) (t : Task).

Lemma probing_insert x id t f1 f2 n a p :
  probingTasks x !! id = None →
  probing {| activeByRun := f1; probingNodes := f2; probingTasks := <[id := t]> (probingTasks x);
             nextExecID := n; activeCount := a; peakActive := p |} ≡ₚ t :: probing x.
Proof. intros Hid. unfold probing. simpl. by rewrite map_to_list_insert. Qed.

Lemma probing_delete x id t f1 f2 n a p :
  probingTasks x !! id = Some t →
  probing x ≡ₚ t :: probing {| activeByRun := f1; probingNodes := f2;
    probingTasks := delete id (probingTasks x); nextExecID := n; activeCount := a;
    peakActive := p |}.
Proof. intros Hid. unfold probing. simpl. by rewrite <- (map_to_list_delete _ _ _ Hid). Qed.

Lemma probing_elem x t : t ∈ probing x ↔ ∃ id, probingTasks x !! id = Some t.
Proof.
  unfold probing. rewrite list_elem_of_In, in_map_iff. split.
  - intros ([id u] & <- & Hin). exists id. by apply elem_of_map_to_list, list_elem_of_In.
  - intros [id Hid]. exists (id, t). split; [done|].
    by apply list_elem_of_In, elem_of_map_to_list.
Qed.

(** One task leaves the queues for a free slot. *)
Lemma dispatch_turn_ok s t id s' :
  sched_ok s → dispatch_turn s = Some (t, id, s') →
  sched_ok s' ∧ t :: waiting (rq s') ≡ₚ waiting (rq s) ∧ probing (ex s') ≡ₚ t :: probing (ex s) ∧
  probingTasks (ex s) !! id = None ∧ probingTasks (ex s') = <[id := t]> (probingTasks (ex s)) ∧
  callbacks s' = callbacks s ∧ cfg s' = cfg s ∧ closed s' = closed s ∧ cn s' = cn s ∧
  changed s' = S (changed s).
Proof.
  intros Hs. unfold dispatch_turn.
  destruct (Z.leb_spec (cfg_Concurrency (cfg s)) (activeCount (ex s))) as [|Hcap]; [done|].
  destruct (Z.eqb_spec (queued (rq s)) 0); [done|]. simpl.
  destruct (nextEligible _ _ _) as [[u q]|] eqn:Hne; [|done]. intros [= <- <- <-].
  apply (nextEligible_some _ _ _ _ _ (ok_queues _ Hs)) in Hne as (Hq & Hw & _).
  pose proof (ok_execs _ Hs) as [Hr Hn Ha Hcp Hids].
  assert (Hfresh : probingTasks (ex s) !! (nextExecID (ex s) + 1)%Z = None).
  { destruct (_ !! _) as [v|] eqn:Hv; [|done]. apply Hids in Hv. lia. }
  pose proof (λ f1 f2 n a p, probing_insert (ex s) _ u f1 f2 n a p Hfresh) as Hp. simpl.
  assert (Hcnt : queued q = (queued (rq s) - 1)%Z).
  { rewrite (qok_queued _ Hq), (qok_queued _ (ok_queues _ Hs)), <- Hw. simpl. lia. }
  pose proof (ok_room _ Hs). pose proof (ok_tasks _ Hs).
  split; [|by rewrite Hp]. split; simpl.
  - apply Hs.
  - done.
  - lia.
  - split; simpl; rewrite ?Hp; [by apply counts_incr..|simpl; lia|lia|].
    intros id v. rewrite lookup_insert_Some. intros [[<- <-]|[_ Hv]]; [lia|].
    apply Hids in Hv. lia.
  - unfold pool. simpl. rewrite Hp. rewrite <- Permutation_middle, app_comm_cons, Hw.
    apply Hs.
  - apply Hs.
  - lia.
  - intros Hcl. pose proof (ok_closed _ Hs Hcl) as Hnil. rewrite Hnil in Hw.
    symmetry in Hw. by apply Permutation_nil_cons in Hw.
Qed.

Lemma finish_size until m t l : tracks m (t :: l) → size (finish_record until m t) = size m.
Proof.
  intros Hm. destruct (tracks_present _ _ _ Hm) as [r Hr]. unfold finish_record. rewrite Hr.
  by rewrite map_size_insert, Hr.
Qed.

(** The slot and the hold on the history are given back. *)
Lemma finish_ok now s t id seq :
  sched_ok s → probingTasks (ex s) !! id = Some t →
  let s' := finishTaskExecution now s t id seq in
  sched_ok s' ∧ rq s' = rq s ∧ probing (ex s) ≡ₚ t :: probing (ex s').
Proof.
  intros Hs Hid. pose proof (ok_execs _ Hs) as [Hr Hn Ha Hcp Hids]. simpl.
  pose proof (λ f1 f2 n a p, probing_delete (ex s) id t f1 f2 n a p Hid) as Hp.
  assert (Ht : tracks (activeNodes s) (t :: waiting (rq s) ++ probing
    (ex (finishTaskExecution now s t id seq)))).
  { rewrite Permutation_middle. simpl. rewrite <- Hp. apply Hs. }
  split; [|by rewrite <- Hp]. simpl in *. pose proof (ok_tasks _ Hs).
  split; simpl; [apply Hs..| | | | |apply Hs].
  - assert (Hr' : counts task_RunID (decrement (activeByRun (ex s)) (task_RunID t))
      (probing (ex (finishTaskExecution now s t id seq)))).
    { apply counts_decr. simpl. by rewrite <- Hp. }
    assert (Hn' : counts task_LogicalID (probingNodes (ex s))
      (t :: probing (ex (finishTaskExecution now s t id seq)))).
    { simpl. by rewrite <- Hp. }
    split; simpl; [done| | |lia|].
    + rewrite (decrement_node_eq _ _ _ _ Hn'). by apply counts_decr.
    + assert (Hl : length (probing (ex s)) =
        S (length (probing (ex (finishTaskExecution now s t id seq))))).
      { eapply (Permutation_length (l' := t :: _)), Hp. }
      simpl in Hl. lia.
    + intros id' u [_ Hu]%lookup_delete_Some. by eapply Hids.
  - by apply tracks_finish.
  - rewrite (finish_size _ _ _ _ Ht). apply Hs.
  - lia.
Qed.

Lemma release_all_size clock ttl m q l :
  tracks m (q ++ l) → size (release_all clock ttl m q) = size m.
Proof.
  unfold release_all. rewrite <- (imap_pair_snd q) at 1. generalize (imap pair q). clear q.
  intros iq. revert m. induction iq as [|[i t] iq IH]; intros m Hm; simpl; [done|].
  rewrite IH by by apply tracks_release. destruct (tracks_present m t _ Hm) as [r Hr].
  unfold release. by rewrite map_size_insert, Hr.
Qed.

Lemma CancelRun_ok clock s run :
  sched_ok s →
  let '(s', q) := CancelRun clock s run in
  sched_ok s' ∧ q = queue_of (rq s) run ∧ q ++ waiting (rq s') ≡ₚ waiting (rq s) ∧ ex s' = ex s ∧
  callbacks s' = callbacks s ∧ cfg s' = cfg s ∧ closed s' = closed s ∧
  changed s' = S (changed s) ∧ queues (rq s') !! run = None.
Proof.
  intros Hs. unfold CancelRun.
  pose proof (remove_run_spec run _ (runCursor (rq s)) (qok_order _ (ok_queues _ Hs)))
    as [Hnd Hord].
  destruct (remove_run _ _ _) as [order cursor]. simpl in Hnd, Hord.
  pose proof (waiting_drop (rq s) run order cursor
    (queued (rq s) - Z.of_nat (length (queue_of (rq s) run)))) as Hw.
  assert (Ht : tracks (activeNodes s) (queue_of (rq s) run ++
    waiting {| queues := delete run (queues (rq s)); runOrder := order; runCursor := cursor;
      queued := queued (rq s) - Z.of_nat (length (queue_of (rq s) run)) |} ++ probing (ex s))).
  { rewrite app_assoc, Hw. apply Hs. }
  pose proof (ok_room _ Hs). pose proof (ok_tasks _ Hs).
  pose proof (lookup_delete_eq (queues (rq s)) run) as Hdel.
  split; [|by repeat split]. split; simpl.
  - apply Hs.
  - by apply queues_ok_drop; [apply Hs|..].
  - lia.
  - apply Hs.
  - by apply tracks_release_all.
  - rewrite (release_all_size _ _ _ _ _ Ht). apply Hs.
  - lia.
  - intros Hcl. apply Hs in Hcl. rewrite Hcl in Hw.
    by apply Permutation_nil_r, app_nil in Hw as [_ Hw].
Qed.

Lemma Close_ok `{MapOrder} clock s :
  sched_ok s →
  let '(s', pending) := Close clock s in
  sched_ok s' ∧ pending ++ waiting (rq s') ≡ₚ waiting (rq s) ∧ ex s' = ex s ∧
  callbacks s' = callbacks s ∧ cfg s' = cfg s ∧ closed s' = true ∧ waiting (rq s') = [] ∧
  (closed s = false → changed s' = S (changed s)) ∧ (closed s = true → s' = s).
Proof.
  intros Hs. unfold Close. destruct (closed s) eqn:Hcl.
  { split; [done|]. rewrite (ok_closed _ Hs Hcl). by repeat split. }
  pose proof (pool_range (queues (rq s))) as Hp. fold (waiting (rq s)) in Hp.
  unfold pool_of in Hp. fold (waiting (rq s)) in Hp.
  assert (Ht : tracks (activeNodes s) (concat (map snd (range (queues (rq s)))) ++
    probing (ex s))) by (rewrite Hp; apply Hs).
  pose proof (qok_queued _ (ok_queues _ Hs)) as Hq. pose proof (ok_tasks _ Hs).
  pose proof (ok_cfg _ Hs) as Hc. unfold cfg_ok in Hc.
  split; [|split; [|by repeat split]]; [|by rewrite app_nil_r].
  split; simpl.
  - done.
  - split; simpl; [constructor| |done|done].
    intros r. rewrite lookup_empty. split; [by intros ?%elem_of_nil|by intros [? ?]].
  - lia.
  - apply Hs.
  - by apply tracks_release_all.
  - rewrite (release_all_size _ _ _ _ _ Ht). apply Hs.
  - rewrite Hp. lia.
  - done.
Qed.
End Execution.
