(* ===== verification/SchedulerWorld.v ===== *)
(** * Executions of the probe scheduler

    The invariant of [World], preserved by every event, and what it gives for every
    reachable state: bounds, accounting of the accepted tasks, priority of manual
    probes, exclusion, cancellation and progress. *)

From S2P Require Import Prelude.
From S2P Require Import GoStrings.
From S2P Require Import Domain.
From S2P Require Import Lifecycle.
From S2P Require Import Scheduler.
From S2P Require Import SchedulerInvariant.

(** ** Comparing lists of tasks by counting *)

Definition occ (i : string * string * string * string) (l : list Task) : nat :=
  count_occ (decide_rel eq) (map ident l) i.

Lemma same_tasks_occ l1 l2 : l1 ≃ l2 ↔ ∀ i, occ i l1 = occ i l2.
Proof. unfold same_tasks, occ. apply Permutation_count_occ. Qed.

Lemma occ_app i l1 l2 : occ i (l1 ++ l2) = occ i l1 + occ i l2.
Proof. unfold occ. by rewrite map_app, count_occ_app. Qed.

Lemma occ_cons i t l : occ i (t :: l) = occ i [t] + occ i l.
Proof. apply (occ_app i [t]). Qed.

Lemma occ_nil i : occ i [] = 0.
Proof. done. Qed.

Lemma same_tasks_perm l1 l2 : l1 ≡ₚ l2 → l1 ≃ l2.
Proof. apply permutation_same_tasks. Qed.

(** Closes a goal [_ ≃ _] that follows from such facts by counting. *)
Ltac by_counting :=
  repeat match goal with
         | Hp : @Permutation Task _ _ |- _ => apply same_tasks_perm in Hp
         end;
  rewrite ?same_tasks_occ in *; let i := fresh "i" in intros i;
  repeat match goal with
         | Hs : ∀ i, occ i _ = occ i _ |- _ => specialize (Hs i)
         end;
  rewrite ?map_app in *; cbn [map fst] in *; rewrite ?occ_app in *;
  repeat match goal with
         | Hs : context [occ _ (_ :: ?l)] |- _ =>
             lazymatch l with [] => fail | _ => rewrite (occ_cons _ _ l), ?occ_app in Hs end
         | |- context [occ _ (_ :: ?l)] =>
             lazymatch l with [] => fail | _ => rewrite (occ_cons _ _ l), ?occ_app end
         end;
  rewrite ?occ_nil in *; lia.

(** ** The invariant *)

Definition executing (w : World) (id : Z) (t : Task) (seq : Z) : Prop :=
  workers w !! id = Some (t, Executing seq).

(** Every execution can be reached by its run's cancellation, and has been when the
    run was cancelled or the scheduler closed. *)
Record cancels_ok (w : World) : Prop := {
  can_fresh : ∀ id t n, executing w id t n → (n < cancelSequence (cn (sched w)))%Z;
  can_unique : ∀ id id' t t' n, executing w id t n → executing w id' t' n → id = id';
  can_registered : ∀ id t n, executing w id t n →
    n ∈ get ∅ (runCancels (cn (sched w))) (task_RunID t);
  can_cancelled : ∀ id t n, executing w id t n →
    closed (sched w) = true ∨ task_RunID t ∈ cancelledRuns (cn (sched w)) →
    n ∈ cancelledCtx (cn (sched w))
}.

Definition sleep_ok (w : World) : Prop :=
  ∀ g, disp w = Sleeping g → g ≤ changed (sched w) ∧
    (g = changed (sched w) → (0 < queued (rq (sched w)))%Z → (0 < activeCount (ex (sched w)))%Z).

(** No task of a cancelled run waits. *)
Definition revoked_ok (s : Scheduler) : Prop :=
  ∀ run, run ∈ cancelledRuns (cn s) → cnt task_RunID run (waiting (rq s)) = 0%Z.

Record world_ok (w : World) : Prop := {
  wok_sched : sched_ok (sched w);
  wok_workers : ∀ id, probingTasks (ex (sched w)) !! id = fst <$> workers w !! id;
  wok_callbacks : (callbacks (sched w) = taskCount (sched w) + Z.of_nat (length (owed w)))%Z;
  wok_log : accepted w ≃ pool (sched w) ++ map fst (owed w) ++ map fst (completed w);
  wok_sleep : sleep_ok w;
  wok_stop : disp w = Stopped → closed (sched w) = true ∨ ctxDone w = true;
  wok_cancels : cancels_ok w;
  wok_revoked : revoked_ok (sched w)
}.

Lemma outcome_tasks o ts : map fst (with_outcome o ts) = ts.
Proof. unfold with_outcome. rewrite map_map. simpl. apply map_id. Qed.

Lemma outcome_length o ts : length (with_outcome o ts) = length ts.
Proof. unfold with_outcome. apply length_map. Qed.

(** When the dispatcher finds nothing to do with tasks waiting, some task is
    executing: its end will signal. *)
Lemma dispatch_none_active s :
  sched_ok s → dispatch_turn s = None → (0 < queued (rq s))%Z → (0 < activeCount (ex s))%Z.
Proof.
  intros Hs. unfold dispatch_turn. pose proof (ok_cfg _ Hs) as Hc. unfold cfg_ok in Hc.
  destruct (Z.leb_spec (cfg_Concurrency (cfg s)) (activeCount (ex s))); [lia|].
  destruct (Z.eqb_spec (queued (rq s)) 0); [lia|]. simpl.
  destruct (nextEligible _ _ _) as [[u q]|] eqn:Hne; [done|]. intros _ Hq.
  rewrite (qok_queued _ (ok_queues _ Hs)) in Hq.
  destruct (waiting (rq s)) as [|t l] eqn:Hw; [simpl in Hq; lia|].
  assert (Hin : t ∈ waiting (rq s)) by (rewrite Hw; left).
  apply elem_of_pool in Hin as (run & k & Hk & _).
  assert (Hrun : run ∈ runOrder (rq s)) by (apply (qok_runs _ (ok_queues _ Hs)); eauto).
  pose proof (nextEligible_none _ _ _ _ (ok_queues _ Hs) Hne Hrun) as Hlim.
  destruct (ok_execs _ Hs) as [Hr _ Ha _ _]. specialize (Hr run) as [Hr _].
  pose proof (cnt_le task_RunID run (probing (ex s))).
  unfold run_limit in Hlim. destruct (_ && _); lia.
Qed.

(** ** Every event preserves the invariant *)

Section Events.
Implicit Types (w : World) (s : Scheduler) (t : Task).

(** An event that leaves the executions and their cancellation alone. *)
Lemma cancels_kept w w' :
  workers w' = workers w → cn (sched w') = cn (sched w) → closed (sched w') = closed (sched w) →
  cancels_ok w → cancels_ok w'.
Proof.
  intros Hw Hc Hcl [H1 H2 H3 H4]. unfold executing in *.
  split; unfold executing; rewrite ?Hw, ?Hc, ?Hcl; done.
Qed.

(** An event that moves to a new generation cannot leave the dispatcher asleep. *)
Lemma sleep_signalled w w' :
  disp w' = disp w → changed (sched w') = S (changed (sched w)) → sleep_ok w → sleep_ok w'.
Proof.
  intros Hd Hc Hs g Hg. rewrite Hd in Hg. destruct (Hs g Hg) as [Hle _].
  rewrite Hc. split; [lia|]. intros ->. lia.
Qed.

Lemma sleep_kept w w' :
  disp w' = disp w → changed (sched w') = changed (sched w) →
  queued (rq (sched w')) = queued (rq (sched w)) →
  activeCount (ex (sched w')) = activeCount (ex (sched w)) → sleep_ok w → sleep_ok w'.
Proof. intros Hd Hc Hq Ha Hs g. rewrite Hd, Hc, Hq, Ha. apply Hs. Qed.

Lemma effect_queued s s' t r old :
  sched_ok s → submit_effect s s' t r old → is_accepted r = false →
  queued (rq s') = queued (rq s).
Proof.
  intros Hs He Hr. pose proof (sub_tasks _ _ _ _ _ He) as Ht. rewrite Hr, (sub_old _ _ _ _ _ He Hr),
    app_nil_r in Ht.
  rewrite (qok_queued _ (ok_queues _ (sub_ok _ _ _ _ _ He))), (qok_queued _ (ok_queues _ Hs)).
  by rewrite Ht.
Qed.

Lemma submit_run `{MapOrder} done now wait s t r s' old :
  submit done now wait s t = (r, s', old) → is_accepted r = true →
  task_RunID t ∉ cancelledRuns (cn s).
Proof.
  intros Hsub Hr. destruct (refused s t) as [e|] eqn:Href.
  - exfalso. revert Hsub Hr. unfold submit, submitPeriodicDedupe, submitManualPreemptFront,
      submitStrictConflict. rewrite Href. destruct done; [by intros [= <- <- <-]|].
    repeat destruct (_ =? _)%Z; by intros [= <- <- <-].
  - revert Href. unfold refused. destruct (closed s); [done|]. by case_bool_decide.
Qed.

Lemma submit_event_ok order done now wait t w w' :
  world_ok w → exec (EvSubmit order done now wait t) w = Some w' → world_ok w'.
Proof.
  intros [Hs Hw Hcb Hlog Hsl Hst Hcn Hrv]. unfold exec.
  destruct (submit done now wait (sched w) t) as [[r s'] old] eqn:Hsub. intros [= <-].
  pose proof (submit_ok _ _ _ _ _ _ _ _ Hs Hsub) as He.
  pose proof (effect_queued _ _ _ _ _ Hs He) as Hq.
  destruct He as [Hok Hex Hcn' Hcfg Hcl Hcb' Htasks Hch Hold].
  assert (Hn : taskCount s' = (taskCount (sched w) + (if is_accepted r then 1 else 0) -
    Z.of_nat (length old))%Z).
  { rewrite (ok_tasks _ Hok), (ok_tasks _ Hs), Hex.
    rewrite (qok_queued _ (ok_queues _ Hok)), (qok_queued _ (ok_queues _ Hs)).
    apply length_same_tasks in Htasks. rewrite !length_app in Htasks.
    destruct (is_accepted r); simpl in Htasks; lia. }
  pose proof (submit_run _ _ _ _ _ _ _ _ Hsub) as Hrun.
  split; simpl; [done|by rewrite Hex| | | | | |].
  - rewrite length_app, outcome_length, Hcb', Hcb, Hn. lia.
  - rewrite map_app, outcome_tasks. unfold pool in *. rewrite Hex.
    destruct r; simpl in Htasks; by_counting.
  - destruct (is_accepted r) eqn:Hr; rewrite ?Hr in *.
    + eapply sleep_signalled; [| |exact Hsl]; done.
    + eapply (sleep_kept w); [done|done|by apply Hq|by simpl; rewrite Hex|done].
  - by rewrite Hcl.
  - by apply (cancels_kept w).
  - intros run. rewrite Hcn'. intros Hin. specialize (Hrv run Hin).
    apply (cnt_ident task_RunID run) in Htasks. rewrite !cnt_app, Hrv in Htasks.
    pose proof (cnt_nonneg task_RunID run (waiting (rq s'))).
    pose proof (cnt_nonneg task_RunID run old).
    destruct (is_accepted r); [rewrite cnt_cons in Htasks|];
      change (cnt task_RunID run []) with 0%Z in Htasks; [|lia].
    destruct (String.eqb_spec (task_RunID t) run) as [<-|_]; [by destruct (Hrun eq_refl)|lia].
Qed.

Lemma dispatch_event_ok w w' : world_ok w → exec EvDispatch w = Some w' → world_ok w'.
Proof.
  intros [Hs Hw Hcb Hlog Hsl Hst Hcn Hrv]. unfold exec. destruct (disp w) eqn:Hd; [|done..].
  destruct (closed (sched w)) eqn:Hcl.
  { intros [= <-]. split; simpl; [done..| |by left|by apply (cancels_kept w)|done]. intros g. done. }
  destruct (dispatch_turn (sched w)) as [[[t id] s']|] eqn:Ht.
  - intros [= <-]. pose proof (dispatch_turn_ok _ _ _ _ Hs Ht)
      as (Hok & Hwait & Hprob & Hfresh & Hpt & Hcb' & _ & Hcl' & Hcn' & _).
    assert (Hnone : workers w !! id = None).
    { rewrite Hw in Hfresh. by destruct (workers w !! id). }
    split; simpl; [done| | | |intros g; done|done| |].
    + intros k. rewrite Hpt. destruct (decide (k = id)) as [->|Hne];
        [by rewrite !lookup_insert_eq|by rewrite !lookup_insert_ne].
    + rewrite Hcb', Hcb, (ok_tasks _ Hok), (ok_tasks _ Hs).
      rewrite (xok_active _ _ (ok_execs _ Hok)), (xok_active _ _ (ok_execs _ Hs)).
      rewrite (qok_queued _ (ok_queues _ Hok)), (qok_queued _ (ok_queues _ Hs)).
      apply Permutation_length in Hwait, Hprob. simpl in *. lia.
    + unfold pool in *. by_counting.
    + destruct Hcn as [H1 H2 H3 H4]. unfold executing in *.
      assert (Hex : ∀ k u n, <[id := (t, Spawned)]> (workers w) !! k = Some (u, Executing n) →
        workers w !! k = Some (u, Executing n)).
      { intros k u n. rewrite lookup_insert_Some. by intros [[_ [=]]|[_ ?]]. }
      split; unfold executing; simpl; rewrite ?Hcn', ?Hcl'; eauto.
    + intros run. rewrite Hcn'. intros Hin. specialize (Hrv run Hin).
      rewrite <- Hwait, cnt_cons in Hrv. pose proof (cnt_nonneg task_RunID run (waiting (rq s'))).
      destruct (String.eqb _ _); lia.
  - intros [= <-]. split; simpl; [done..| |done|by apply (cancels_kept w)|done].
    intros g [= <-]. split; [done|]. intros _. by apply dispatch_none_active.
Qed.

Lemma wake_event_ok w w' : world_ok w → exec EvWake w = Some w' → world_ok w'.
Proof.
  intros [Hs Hw Hcb Hlog Hsl Hst Hcn Hrv]. unfold exec. destruct (disp w) eqn:Hd; [done| |done].
  destruct (_ <? _); [|done]. intros [= <-].
  split; simpl; [done..| |done|by apply (cancels_kept w)|done]. intros g. done.
Qed.

Lemma stop_event_ok w w' : world_ok w → exec EvStop w = Some w' → world_ok w'.
Proof.
  intros [Hs Hw Hcb Hlog Hsl Hst Hcn Hrv]. unfold exec. destruct (disp w) eqn:Hd; [done| |done].
  destruct (ctxDone w) eqn:Hc; [|done]. intros [= <-].
  split; simpl; [done..| |by right|by apply (cancels_kept w)|done]. intros g. done.
Qed.

Lemma callback_event_ok i w w' : world_ok w → exec (EvCallback i) w = Some w' → world_ok w'.
Proof.
  intros [Hs Hw Hcb Hlog Hsl Hst Hcn Hrv]. unfold exec. destruct (owed w !! i) as [[t o]|] eqn:Hi; [|done].
  intros [= <-]. pose proof (delete_Permutation _ _ _ Hi) as Hp.
  split; simpl; [|done| | | |done|by apply (cancels_kept w)|done].
  - destruct Hs. by split.
  - rewrite Hcb. apply Permutation_length in Hp. simpl in Hp. lia.
  - assert (Hm : map fst (owed w) ≡ₚ t :: map fst (delete i (owed w))).
    { rewrite Hp at 1. done. }
    unfold pool in *. simpl. by_counting.
  - by apply (sleep_signalled w).
Qed.

Lemma context_event_ok w w' : world_ok w → exec EvContextDone w = Some w' → world_ok w'.
Proof.
  intros [Hs Hw Hcb Hlog Hsl Hst Hcn Hrv]. unfold exec. intros [= <-].
  split; simpl; [done..|by right|by apply (cancels_kept w)|done].
Qed.

(** Finishing the task of worker [id], which then owes its callback. *)
Lemma finish_world_ok now w id t ph seq o :
  world_ok w → workers w !! id = Some (t, ph) →
  let w' := {| sched := finishTaskExecution now (sched w) t id seq; disp := disp w;
               workers := delete id (workers w); owed := owed w ++ [(t, o)];
               ctxDone := ctxDone w; accepted := accepted w; completed := completed w |} in
  cancels_ok w' → world_ok w'.
Proof.
  intros [Hs Hw Hcb Hlog Hsl Hst Hcn Hrv] Hid w' Hcn'. unfold w' in *.
  assert (Hp : probingTasks (ex (sched w)) !! id = Some t) by by rewrite Hw, Hid.
  destruct (finish_ok now (sched w) t id seq Hs Hp) as (Hok & Hrq & Hprob).
  split; simpl; [done| | | | |done|done|by destruct seq].
  - intros k. destruct (decide (k = id)) as [->|Hne];
      [by rewrite !lookup_delete_eq|rewrite !lookup_delete_ne by done; apply Hw].
  - rewrite length_app, Hcb. simpl. lia.
  - unfold pool in *. simpl in *. by_counting.
  - by apply (sleep_signalled w).
Qed.

Lemma drop_cancel_other m run n run' n' :
  n' ≠ n → n' ∈ get ∅ m run' → n' ∈ get ∅ (drop_cancel m run n) run'.
Proof.
  intros Hne. unfold get, drop_cancel. destruct (m !! run) as [live|] eqn:Hr; [|done].
  case_bool_decide as Hempty; destruct (decide (run' = run)) as [->|Hr'];
    rewrite ?lookup_delete_eq, ?lookup_delete_ne, ?lookup_insert_eq, ?lookup_insert_ne by done;
    try done; rewrite Hr; simpl; set_solver.
Qed.

Lemma finish_event_ok id now err w w' :
  world_ok w → exec (EvFinish id now err) w = Some w' → world_ok w'.
Proof.
  intros Hok. unfold exec. destruct (workers w !! id) as [[t [|n]]|] eqn:Hid; [done| |done].
  intros [= <-]. eapply finish_world_ok; [done..|].
  destruct (wok_cancels _ Hok) as [H1 H2 H3 H4]. unfold executing in *.
  assert (Hother : ∀ k u m, delete id (workers w) !! k = Some (u, Executing m) →
    workers w !! k = Some (u, Executing m) ∧ m ≠ n).
  { intros k u m [Hne Hk]%lookup_delete_Some. split; [done|]. intros ->. by eapply Hne, H2. }
  split; unfold executing; simpl.
  - intros k u m [Hk _]%Hother. eauto.
  - intros k k' u u' m [Hk _]%Hother [Hk' _]%Hother. eauto.
  - intros k u m [Hk Hne]%Hother. apply drop_cancel_other; eauto.
  - intros k u m [Hk Hne]%Hother Hc. apply elem_of_union_r. eauto.
Qed.

Lemma start_event_ok id now w w' :
  world_ok w → exec (EvStart id now) w = Some w' → world_ok w'.
Proof.
  intros Hok. unfold exec. destruct (workers w !! id) as [[t [|n]]|] eqn:Hid; [|done..].
  unfold start_task. destruct (closed (sched w)) eqn:Hcl; simpl;
    [|case_bool_decide as Hrun].
  1,2: intros [= <-]; eapply finish_world_ok; [done..|];
    destruct (wok_cancels _ Hok) as [H1 H2 H3 H4]; unfold executing in *;
    (split; unfold executing; simpl; intros *; rewrite ?lookup_delete_Some; naive_solver).
  intros [= <-]. destruct Hok as [Hs Hw Hcb Hlog Hsl Hst [H1 H2 H3 H4] Hrv]. rewrite Hcl in Hst, H4.
  split; simpl; [| |done|done|by apply (sleep_kept w)|done| |done].
  - destruct Hs. by split.
  - intros k. destruct (decide (k = id)) as [->|Hne];
      [by rewrite lookup_insert_eq, Hw, Hid|by rewrite lookup_insert_ne].
  - set (n := cancelSequence (cn (sched w))) in *. unfold executing in *.
    assert (Hcase : ∀ k u m, <[id := (t, Executing n)]> (workers w) !! k = Some (u, Executing m) →
      (k = id ∧ u = t ∧ m = n) ∨ (workers w !! k = Some (u, Executing m) ∧ (m < n)%Z)).
    { intros k u m [[<- [= <- <-]]|[_ Hk]]%lookup_insert_Some; [by left|right; eauto]. }
    split; unfold executing; simpl.
    + intros k u m [(_ & _ & ->)|[_ ?]]%Hcase; lia.
    + intros k k' u u' m [(-> & _ & ->)|[Hk Hm]]%Hcase [(-> & _ & ?)|[Hk' Hm']]%Hcase;
        [done|lia|lia|eauto].
    + intros k u m [(_ & -> & ->)|[Hk Hm]]%Hcase; unfold get in *.
      * rewrite lookup_insert_eq. simpl. by apply elem_of_union_l, elem_of_singleton.
      * specialize (H3 _ _ _ Hk). destruct (decide (task_RunID u = task_RunID t)) as [He|Hne].
        -- rewrite He in *. rewrite lookup_insert_eq. simpl. by apply elem_of_union_r.
        -- by rewrite lookup_insert_ne.
    + intros k u m [(_ & -> & ->)|[Hk Hm]]%Hcase; [|eauto]. by intros [|].
Qed.

Lemma no_queue_no_task q run :
  queues_ok q → queues q !! run = None → cnt task_RunID run (waiting q) = 0%Z.
Proof.
  intros Hq Hnone. pose proof (cnt_nonneg task_RunID run (waiting q)).
  destruct (Z.eq_dec (cnt task_RunID run (waiting q)) 0%Z) as [|Hpos]; [done|exfalso].
  assert (Hp : (0 < cnt task_RunID run (waiting q))%Z) by lia.
  apply cnt_pos in Hp as (t & Hin & Ht). apply elem_of_pool in Hin as (r & l & Hl & Hin).
  pose proof (qok_each _ Hq _ _ Hl) as (_ & HF & _). rewrite Forall_forall in HF.
  specialize (HF t Hin). simpl in HF. congruence.
Qed.

Lemma cancel_event_ok clock run w w' :
  world_ok w → exec (EvCancelRun clock run) w = Some w' → world_ok w'.
Proof.
  intros [Hs Hw Hcb Hlog Hsl Hst [H1 H2 H3 H4] Hrv]. unfold exec.
  pose proof (CancelRun_ok clock (sched w) run Hs) as Hc.
  destruct (CancelRun clock (sched w) run) as [s' q] eqn:Hcr.
  destruct Hc as (Hok & Hq & Hwait & Hex & Hcb' & Hcfg & Hcl & Hch & Hnone). intros [= <-].
  split; simpl; [done|by rewrite Hex| | | |by rewrite Hcl| |].
  - rewrite length_app, outcome_length, Hcb', Hcb, (ok_tasks _ Hok), (ok_tasks _ Hs), Hex.
    rewrite (qok_queued _ (ok_queues _ Hok)), (qok_queued _ (ok_queues _ Hs)).
    apply Permutation_length in Hwait. rewrite length_app in Hwait. lia.
  - rewrite map_app, outcome_tasks. unfold pool in *. rewrite Hex. by_counting.
  - by apply (sleep_signalled w).
  - unfold CancelRun in Hcr. destruct (remove_run _ _ _) as [order cursor].
    injection Hcr as <- _. unfold executing in *. split; unfold executing; simpl; [done..|].
    intros k u m Hk [Hcl'|[He%elem_of_singleton|Hin]%elem_of_union].
    + apply elem_of_union_r. eauto.
    + apply elem_of_union_l. specialize (H3 _ _ _ Hk). by rewrite He in H3.
    + apply elem_of_union_r. eauto.
  - intros r Hr. assert (Hle : (cnt task_RunID r (waiting (rq s')) ≤
      cnt task_RunID r (waiting (rq (sched w))))%Z).
    { rewrite <- Hwait, cnt_app. pose proof (cnt_nonneg task_RunID r q). lia. }
    pose proof (cnt_nonneg task_RunID r (waiting (rq s'))).
    unfold CancelRun in Hcr. destruct (remove_run _ _ _) as [order cursor].
    assert (Hr' : r = run ∨ r ∈ cancelledRuns (cn (sched w))).
    { injection Hcr as <- _. simpl in Hr. apply elem_of_union in Hr as [?%elem_of_singleton|?]; auto. }
    destruct Hr' as [->|Hin]; [by apply no_queue_no_task; [apply Hok|]|]. rewrite (Hrv r Hin) in Hle. lia.
Qed.

Lemma elem_of_all_cancels (m : gmap string (gset Z)) run n :
  n ∈ get ∅ m run → n ∈ ⋃ (map snd (map_to_list m)).
Proof.
  unfold get. destruct (m !! run) as [live|] eqn:Hr; simpl; [|set_solver]. intros Hn.
  apply elem_of_union_list. exists live. split; [|done].
  apply list_elem_of_In, in_map_iff. exists (run, live). split; [done|].
  by apply list_elem_of_In, elem_of_map_to_list.
Qed.

Lemma close_event_ok order clock w w' :
  world_ok w → exec (EvClose order clock) w = Some w' → world_ok w'.
Proof.
  intros [Hs Hw Hcb Hlog Hsl Hst [H1 H2 H3 H4] Hrv]. unfold exec.
  pose proof (Close_ok clock (sched w) Hs) as Hc.
  destruct (Close clock (sched w)) as [s' pending] eqn:Hcr.
  destruct Hc as (Hok & Hwait & Hex & Hcb' & Hcfg & Hcl & Hnil & Hch & Hsame). intros [= <-].
  split; simpl; [done|by rewrite Hex| | | |by left| |by intros run _; rewrite Hnil].
  - rewrite length_app, outcome_length, Hcb', Hcb, (ok_tasks _ Hok), (ok_tasks _ Hs), Hex.
    rewrite (qok_queued _ (ok_queues _ Hok)), (qok_queued _ (ok_queues _ Hs)).
    apply Permutation_length in Hwait. rewrite length_app in Hwait. lia.
  - rewrite map_app, outcome_tasks. unfold pool in *. rewrite Hex. by_counting.
  - destruct (closed (sched w)) eqn:Hc.
    + rewrite Hsame by done. by apply (sleep_kept w).
    + apply (sleep_signalled w); [done| |done]. by apply Hch.
  - unfold Close in Hcr. unfold executing in *. destruct (closed (sched w)) eqn:Hc.
    { injection Hcr as <- _. split; unfold executing; simpl; [done..|]. rewrite Hc. done. }
    injection Hcr as <- _. split; unfold executing; simpl; [done..|].
    intros k u m Hk _. apply elem_of_union_l. by eapply elem_of_all_cancels, H3.
Qed.

Theorem exec_ok e w w' : world_ok w → exec e w = Some w' → world_ok w'.
Proof.
  destruct e; [apply submit_event_ok|apply dispatch_event_ok|apply wake_event_ok|
    apply stop_event_ok|apply start_event_ok|apply finish_event_ok|apply callback_event_ok|
    apply cancel_event_ok|apply close_event_ok|apply context_event_ok].
Qed.
End Events.

(** ** Reachable states *)

Section Reachable.
Implicit Types (w : World) (s : Scheduler) (t : Task).

Lemma new_scheduler_ok c r q ttl s :
  NewScheduler c r q ttl = Ok s → world_ok (start_world s).
Proof.
  unfold NewScheduler. set (c' := if (c =? 0)%Z then DefaultConcurrency else c).
  destruct (Z.ltb_spec c' MinConcurrency) as [|Hmin]; [done|].
  destruct (Z.ltb_spec HardMaxConcurrency c') as [|Hmax]; [done|].
  destruct (Z.ltb_spec r 0) as [|Hr0]; [done|]. destruct (Z.ltb_spec c' r) as [|Hrc]; [done|].
  simpl. intros [= <-]. unfold MinConcurrency, HardMaxConcurrency in *.
  assert (Hcfg : cfg_ok {| cfg_Concurrency := c';
    cfg_RunConcurrency := if (r =? 0)%Z then Z.quot (c' + 1) 2 else r;
    cfg_QueueSize := if (q <=? 0)%Z then DefaultQueueSize else q;
    cfg_NodeTTL := if (ttl <=? 0)%Z then DefaultNodeTTL else ttl;
    cfg_explicit := (0 <? r)%Z |}).
  { unfold cfg_ok. simpl. unfold DefaultQueueSize. destruct (Z.eqb_spec r 0), (Z.leb_spec q 0);
      Z.to_euclidean_division_equations; lia. }
  unfold cfg_ok in Hcfg. simpl in Hcfg.
  split; simpl; [|done|done|done|by intros g|done| |by intros run ?%elem_of_empty].
  - split; simpl; [done| |lia| | | |done|done].
    + split; simpl; [constructor| |done|done].
      intros run. rewrite lookup_empty. split; [by intros ?%elem_of_nil|by intros [? ?]].
    + split; simpl; [done..|lia|done].
    + split; [|done]. intros k. by rewrite lookup_empty.
    + rewrite map_size_empty. unfold history_limit. simpl. lia.
  - split; unfold executing; simpl; done.
Qed.

Lemma exec_cfg e w w' : world_ok w → exec e w = Some w' → cfg (sched w') = cfg (sched w).
Proof.
  intros Hok. pose proof (wok_sched _ Hok) as Hs. destruct e; unfold exec.
  - destruct (submit _ _ _ _ _) as [[r s'] old] eqn:Hsub. intros [= <-].
    by apply submit_ok in Hsub as [].
  - destruct (disp w); [|done..]. destruct (closed (sched w)); [by intros [= <-]|].
    destruct (dispatch_turn (sched w)) as [[[t id] s']|] eqn:Ht; intros [= <-]; [|done].
    by apply dispatch_turn_ok in Ht as (_ & _ & _ & _ & _ & _ & ? & _).
  - destruct (disp w); [done| |done]. destruct (_ <? _); [by intros [= <-]|done].
  - destruct (disp w); [done| |done]. destruct (ctxDone w); [by intros [= <-]|done].
  - destruct (workers w !! execID) as [[t []]|]; [|done..]. unfold start_task.
    destruct (_ || _); by intros [= <-].
  - destruct (workers w !! execID) as [[t []]|]; [done| |done]. by intros [= <-].
  - destruct (owed w !! i); [by intros [= <-]|done].
  - pose proof (CancelRun_ok clock (sched w) run Hs) as Hc.
    destruct (CancelRun _ _ _). intros [= <-]. by destruct Hc as (_ & _ & _ & _ & _ & ? & _).
  - pose proof (Close_ok clock (sched w) Hs) as Hc.
    destruct (Close _ _). intros [= <-]. by destruct Hc as (_ & _ & _ & _ & ? & _).
  - by intros [= <-].
Qed.

Lemma reachable_ok c r q ttl s0 w :
  NewScheduler c r q ttl = Ok s0 → reachable s0 w → world_ok w ∧ cfg (sched w) = cfg s0.
Proof.
  intros Hnew. induction 1 as [|w e w' _ [IH Hc] He].
  - split; [by eapply new_scheduler_ok|done].
  - split; [by eapply exec_ok|]. by rewrite (exec_cfg _ _ _ IH He).
Qed.

Lemma workers_probing w : world_ok w → size (workers w) = length (probing (ex (sched w))).
Proof.
  intros Hok. unfold probing. rewrite length_map, length_map_to_list.
  rewrite <- (map_size_fmap fst (workers w)). f_equal. apply map_eq. intros id.
  by rewrite lookup_fmap, (wok_workers _ Hok).
Qed.
End Reachable.
