(* ===== verification/SchedulerProperties.v ===== *)
(** * What the probe scheduler guarantees

    Theorems about every state a scheduler reaches, for any number of callers and any
    interleaving of submissions, dispatches, executions, callbacks, cancellations and
    the closing of the scheduler. *)

From S2P Require Import Prelude.
From S2P Require Import GoStrings.
From S2P Require Import Domain.
From S2P Require Import Lifecycle.
From S2P Require Import Scheduler.
From S2P Require Import SchedulerInvariant.
From S2P Require Import SchedulerWorld.

(** ** Work left

    A number that every step of the goroutines makes smaller: a waiting task has the
    four steps dispatch, start, finish and callback ahead of it, and a signal may cost
    the dispatcher one more turn. *)

Definition phase_weight (wk : Task * phase) : nat :=
  match wk.2 with Spawned => 9 | Executing _ => 6 end.

Definition workers_weight (m : gmap Z (Task * phase)) : nat :=
  sum_list_with (λ e, phase_weight e.2) (map_to_list m).

Definition alertness (d : dispatcher) (generation : nat) : nat :=
  match d with
  | Turning => 1
  | Sleeping g => if g <? generation then 2 else 0
  | Stopped => 0
  end.

Definition work (w : World) : nat :=
  12 * length (waiting (rq (sched w))) + workers_weight (workers w) + 3 * length (owed w) +
  alertness (disp w) (changed (sched w)).

(** The steps of the scheduler's own goroutines. *)
Definition internal (e : event) : bool :=
  match e with
  | EvDispatch | EvWake | EvStart _ _ | EvFinish _ _ _ | EvCallback _ => true
  | _ => false
  end.

Section Work.
Implicit Types (w : World) (m : gmap Z (Task * phase)).

Lemma weight_insert m id wk :
  m !! id = None → workers_weight (<[id := wk]> m) = phase_weight wk + workers_weight m.
Proof. intros Hid. unfold workers_weight. by rewrite map_to_list_insert. Qed.

Lemma weight_delete m id wk :
  m !! id = Some wk → workers_weight m = phase_weight wk + workers_weight (delete id m).
Proof.
  intros Hid. rewrite <- (insert_delete_id m id wk Hid) at 1.
  by rewrite weight_insert by apply lookup_delete_eq.
Qed.

Lemma alertness_signal d g : alertness d (S g) ≤ 2 + alertness d g.
Proof. destruct d; simpl; [lia| |lia]. destruct (_ <? S g), (_ <? g); lia. Qed.

Lemma internal_decreases e w w' :
  world_ok w → internal e = true → exec e w = Some w' → work w' < work w.
Proof.
  intros Hok He. unfold work. destruct e as [| | | |id now|id now err|i| | |]; try done; unfold exec.
  - destruct (disp w) eqn:Hd; [|done..]. destruct (closed (sched w)); [intros [= <-]; simpl; lia|].
    destruct (dispatch_turn (sched w)) as [[[t id] s']|] eqn:Ht; intros [= <-]; simpl.
    + apply dispatch_turn_ok in Ht as (_ & Hw & _ & Hfresh & _); [|apply Hok].
      rewrite (wok_workers _ Hok) in Hfresh. apply Permutation_length in Hw. simpl in Hw.
      rewrite weight_insert by by destruct (workers w !! id). simpl. lia.
    + rewrite Nat.ltb_irrefl. lia.
  - destruct (disp w) as [|g|] eqn:Hd; [done| |done].
    destruct (g <? changed (sched w)) eqn:Hg; [|done]. intros [= <-]. simpl. rewrite Hg. lia.
  - destruct (workers w !! id) as [[t [|n]]|] eqn:Hid; [|done..].
    rewrite (weight_delete _ _ _ Hid). unfold start_task. destruct (_ || _); intros [= <-]; simpl.
    + rewrite length_app. simpl. pose proof (alertness_signal (disp w) (changed (sched w))). lia.
    + rewrite <- insert_delete_eq, weight_insert by apply lookup_delete_eq. simpl. lia.
  - destruct (workers w !! id) as [[t [|n]]|] eqn:Hid; [done| |done]. intros [= <-].
    rewrite (weight_delete _ _ _ Hid). simpl. rewrite length_app. simpl.
    pose proof (alertness_signal (disp w) (changed (sched w))). lia.
  - destruct (owed w !! i) as [c|] eqn:Hi; [|done]. intros [= <-]. simpl.
    pose proof (Permutation_length (delete_Permutation _ _ _ Hi)) as Hl. simpl in Hl.
    pose proof (alertness_signal (disp w) (changed (sched w))). lia.
Qed.

(** The parent context has not ended under an open scheduler. *)
Definition undisturbed (w : World) : Prop := ctxDone w = true → closed (sched w) = true.

Lemma internal_enabled w :
  world_ok w → undisturbed w → (0 < callbacks (sched w))%Z →
  ∃ e w', internal e = true ∧ exec e w = Some w'.
Proof.
  intros Hok Hu Hcb. rewrite (wok_callbacks _ Hok) in Hcb.
  destruct (owed w) as [|c l] eqn:Ho.
  2: { exists (EvCallback 0). unfold exec. rewrite Ho. simpl. eauto. }
  pose proof (wok_sched _ Hok) as Hs. rewrite (ok_tasks _ Hs) in Hcb. simpl in Hcb.
  destruct (decide (workers w = ∅)) as [Hnone|(id & [t ph] & Hid)%map_choose].
  2: { destruct ph as [|n].
       - exists (EvStart id 0%Z). unfold exec. rewrite Hid. destruct (start_task _ _ _ _) as [s []]; eauto.
       - exists (EvFinish id 0%Z None). unfold exec. rewrite Hid. eauto. }
  assert (Ha : activeCount (ex (sched w)) = 0%Z).
  { rewrite (xok_active _ _ (ok_execs _ Hs)), <- workers_probing, Hnone, map_size_empty by done. done. }
  destruct (disp w) as [|g|] eqn:Hd.
  - exists EvDispatch. unfold exec. rewrite Hd. destruct (closed (sched w)); [eauto|].
    destruct (dispatch_turn (sched w)) as [[[? ?] ?]|]; eauto.
  - destruct (wok_sleep _ Hok g Hd) as [Hle Hact]. exists EvWake. unfold exec. rewrite Hd.
    destruct (Nat.ltb_spec g (changed (sched w))); [eauto|]. assert (g = changed (sched w)) by lia.
    assert (0 < activeCount (ex (sched w)))%Z by (apply Hact; [done|lia]). lia.
  - assert (Hcl : closed (sched w) = true) by (destruct (wok_stop _ Hok Hd); auto).
    apply (ok_closed _ Hs) in Hcl. pose proof (qok_queued _ (ok_queues _ Hs)) as Hq.
    rewrite Hcl in Hq. simpl in Hq. lia.
Qed.

Lemma internal_undisturbed e w w' :
  internal e = true → exec e w = Some w' → world_ok w → undisturbed w → undisturbed w'.
Proof.
  unfold undisturbed. intros He Hx Hok Hu.
  assert (Heq : ctxDone w' = ctxDone w ∧ closed (sched w') = closed (sched w)).
  { destruct e; try done; unfold exec in Hx.
    - destruct (disp w); [|done..]. destruct (closed (sched w)) eqn:Hc; [by injection Hx as <-|].
      destruct (dispatch_turn (sched w)) as [[[t id] s']|] eqn:Ht; injection Hx as <-; [|done].
      apply dispatch_turn_ok in Ht as (_ & _ & _ & _ & _ & _ & _ & Hcl & _); [|apply Hok].
      simpl. by rewrite Hcl, Hc.
    - destruct (disp w); [done| |done]. destruct (_ <? _); [by injection Hx as <-|done].
    - destruct (workers w !! execID) as [[t []]|]; [|done..]. revert Hx. unfold start_task.
      destruct (_ || _); by intros [= <-].
    - destruct (workers w !! execID) as [[t []]|]; [done| |done]. by injection Hx as <-.
    - destruct (owed w !! i); [by injection Hx as <-|done]. }
  destruct Heq as [-> ->]. done.
Qed.
End Work.

(** ** Runs of given events *)

Fixpoint run_events (es : list event) (w : World) : option World :=
  match es with
  | [] => Some w
  | e :: es => match exec e w with Some w' => run_events es w' | None => None end
  end.

Lemma run_events_reachable s0 es w w' :
  reachable s0 w → run_events es w = Some w' → reachable s0 w'.
Proof.
  revert w. induction es as [|e es IH]; intros w Hw; simpl; [by intros [= <-]|].
  destruct (exec e w) as [w1|] eqn:He; [|done]. apply IH. by eapply reach_step.
Qed.

Definition probe_task (id run node : string) (mode : Z) : Task :=
  {| task_ID := id; task_RunID := run; task_LogicalID := node; task_Kind := "baseline";
     task_Mode := mode |}.

Definition submit_now (t : Task) : event := EvSubmit key_order false 1000%Z false t.

Definition small_scheduler : Scheduler :=
  match NewScheduler 2 0 4 0 with Ok s => s | Err _ => {|
    cfg := {| cfg_Concurrency := 0; cfg_RunConcurrency := 0; cfg_QueueSize := 0; cfg_NodeTTL := 0;
              cfg_explicit := false |}; closed := true; rq := empty_queues;
    ex := {| activeByRun := ∅; probingNodes := ∅; probingTasks := ∅; nextExecID := 0;
             activeCount := 0; peakActive := 0 |}; activeNodes := ∅;
    cn := {| runCancels := ∅; cancelledRuns := ∅; cancelSequence := 0; cancelledCtx := ∅ |};
    taskCount := 0; callbacks := 0; peakQueued := 0; changed := 0 |} end.

Lemma small_scheduler_new : NewScheduler 2 0 4 0 = Ok small_scheduler.
Proof. reflexivity. Qed.

(** Three submissions of two runs, the last of them manual, and one dispatch. *)
Definition busy_events : list event :=
  [submit_now (probe_task "t1" "r1" "n1" EnqueueStrictConflict);
   submit_now (probe_task "t2" "r2" "n2" EnqueuePeriodicDedupe); EvDispatch;
   submit_now (probe_task "t3" "r2" "n3" EnqueueManualPreemptFront)].

Definition after (es : list event) : World :=
  default (start_world small_scheduler) (run_events es (start_world small_scheduler)).

Lemma after_reachable es :
  match run_events es (start_world small_scheduler) with Some _ => true | None => false end = true →
  reachable small_scheduler (after es).
Proof.
  unfold after. destruct (run_events es _) as [w|] eqn:He; [|done]. intros _.
  eapply run_events_reachable; [apply reach_start|]. by rewrite He.
Qed.

(** ** Bounds *)

(** C34. In every state a scheduler built by [NewScheduler] reaches, whatever the order of
    submissions, dispatches, executions, cancellations and closing: [activeCount] is
    the number of tasks executing and at most the configured concurrency, [queued] is
    the number of tasks in the run queues and at most the queue size, [taskCount] and
    [callbacks] are what [Wait] and [Drain] take them for, [activeByRun] and
    [probingNodes] count the executing tasks of each run and node, and the node history
    never holds more than [QueueSize + Concurrency + 1] records. *)
Theorem scheduler_counters_exact c r q ttl s0 w :
  NewScheduler c r q ttl = Ok s0 → reachable s0 w →
  let s := sched w in
  activeCount (ex s) = Z.of_nat (size (workers w)) ∧
  (activeCount (ex s) ≤ cfg_Concurrency (cfg s0))%Z ∧
  queued (rq s) = Z.of_nat (length (waiting (rq s))) ∧
  (queued (rq s) ≤ cfg_QueueSize (cfg s0))%Z ∧
  taskCount s = (queued (rq s) + activeCount (ex s))%Z ∧
  callbacks s = (taskCount s + Z.of_nat (length (owed w)))%Z ∧
  (∀ k, get 0%Z (activeByRun (ex s)) k = cnt task_RunID k (probing (ex s))) ∧
  (∀ k, get 0%Z (probingNodes (ex s)) k = cnt task_LogicalID k (probing (ex s))) ∧
  (Z.of_nat (size (activeNodes s)) ≤ cfg_QueueSize (cfg s0) + cfg_Concurrency (cfg s0) + 1)%Z.
Proof.
  intros Hnew [Hok Hcfg]%(reachable_ok _ _ _ _ _ _ Hnew). simpl. rewrite <- Hcfg.
  pose proof (wok_sched _ Hok) as Hs. pose proof (ok_execs _ Hs) as [Hr Hn Ha Hcap _].
  rewrite (workers_probing w Hok).
  split; [done|]. split; [done|]. split; [apply (qok_queued _ (ok_queues _ Hs))|].
  split; [apply (ok_room _ Hs)|]. split; [apply (ok_tasks _ Hs)|].
  split; [apply (wok_callbacks _ Hok)|]. split; [intros k; apply Hr|].
  split; [intros k; apply Hn|]. apply (ok_history _ Hs).
Qed.

Lemma scheduler_counters_exact_witness :
  NewScheduler 2 0 4 0 = Ok small_scheduler ∧
  activeCount (ex (sched (after busy_events))) = 1%Z ∧
  (activeCount (ex (sched (after busy_events))) ≤ cfg_Concurrency (cfg small_scheduler))%Z.
Proof.
  split; [reflexivity|]. split; [vm_compute; reflexivity|].
  apply (scheduler_counters_exact 2 0 4 0 small_scheduler (after busy_events) eq_refl).
  apply after_reachable. vm_compute. reflexivity.
Defined.

(** ** Every accepted task is accounted for *)

(** C32. No accepted task is lost or completed twice: at any time the accepted tasks are,
    one for one, the tasks waiting, executing, owed their completion callback or
    completed.  When the condition [Drain] waits for holds, every accepted task has had
    its callback exactly once and nothing waits or executes; when [Wait] returns, no
    task waits or executes. *)
Theorem accepted_tasks_accounted c r q ttl s0 w :
  NewScheduler c r q ttl = Ok s0 → reachable s0 w →
  accepted w ≃ waiting (rq (sched w)) ++ probing (ex (sched w)) ++ map fst (owed w) ++
    map fst (completed w) ∧
  (drain_condition (sched w) = true →
     accepted w ≃ map fst (completed w) ∧ workers w = ∅ ∧ waiting (rq (sched w)) = []) ∧
  (wait_returns (sched w) = true → workers w = ∅ ∧ waiting (rq (sched w)) = []).
Proof.
  intros Hnew [Hok _]%(reachable_ok _ _ _ _ _ _ Hnew).
  pose proof (wok_sched _ Hok) as Hs. pose proof (wok_log _ Hok) as Hlog. unfold pool in Hlog.
  rewrite <- app_assoc in Hlog. split; [done|].
  pose proof (qok_queued _ (ok_queues _ Hs)) as Hq.
  pose proof (xok_active _ _ (ok_execs _ Hs)) as Ha. pose proof (workers_probing w Hok) as Hw.
  pose proof (ok_tasks _ Hs) as Ht. pose proof (wok_callbacks _ Hok) as Hcb.
  assert (Hidle : taskCount (sched w) = 0%Z → workers w = ∅ ∧ waiting (rq (sched w)) = [] ∧
    probing (ex (sched w)) = []).
  { intros H0. split; [apply map_size_empty_inv; lia|]. split; apply nil_length_inv; lia. }
  split.
  - unfold drain_condition. intros [[H1%Z.eqb_eq H2%Z.eqb_eq]%andb_prop H3%Z.eqb_eq]%andb_prop.
    destruct Hidle as (Hwk & Hwt & Hp); [lia|].
    assert (Ho : owed w = []) by (apply nil_length_inv; lia).
    rewrite Hwt, Hp, Ho in Hlog. done.
  - unfold wait_returns. intros H0%Z.eqb_eq. destruct (Hidle H0) as (? & ? & _). done.
Qed.

(** One task submitted, dispatched, executed and called back. *)
Definition one_life : list event :=
  [submit_now (probe_task "t1" "r1" "n1" EnqueueStrictConflict); EvDispatch; EvStart 1 1000%Z;
   EvFinish 1 2000%Z None; EvCallback 0].

Lemma accepted_tasks_accounted_witness :
  drain_condition (sched (after one_life)) = true ∧
  accepted (after one_life) ≃ map fst (completed (after one_life)) ∧
  length (completed (after one_life)) = 1.
Proof.
  split; [vm_compute; reflexivity|]. split; [|vm_compute; reflexivity].
  destruct (accepted_tasks_accounted 2 0 4 0 small_scheduler (after one_life) eq_refl
    ltac:(apply after_reachable; vm_compute; reflexivity)) as (_ & Hdrain & _).
  apply Hdrain. vm_compute. reflexivity.
Defined.

(** ** The order of dispatch *)

(** Manual probes go first and no waiting run is starved for no reason: in every
    reachable state the task the dispatcher takes was waiting, is a manual one whenever
    any manual task waits in any run, and otherwise belongs to a run below its
    concurrency limit; and when the dispatcher goes to sleep with tasks waiting and a
    free slot, every waiting run is at its limit. *)
Theorem dispatch_order c r q ttl s0 w :
  NewScheduler c r q ttl = Ok s0 → reachable s0 w →
  let s := sched w in
  let limit := run_limit (cfg s0) (activeCompetingRuns (rq s) (ex s)) in
  (∀ t id s', dispatch_turn s = Some (t, id, s') →
     t ∈ waiting (rq s) ∧ waiting (rq s) ≡ₚ t :: waiting (rq s') ∧
     (any_manual (rq s) → is_manual t = true) ∧
     (is_manual t = false → (get 0 (activeByRun (ex s)) (task_RunID t) < limit)%Z)) ∧
  (dispatch_turn s = None → (activeCount (ex s) < cfg_Concurrency (cfg s0))%Z →
     ∀ t, t ∈ waiting (rq s) → (limit ≤ get 0 (activeByRun (ex s)) (task_RunID t))%Z).
Proof.
  intros Hnew [Hok Hcfg]%(reachable_ok _ _ _ _ _ _ Hnew). simpl. rewrite <- Hcfg.
  pose proof (wok_sched _ Hok) as Hs. pose proof (ok_queues _ Hs) as Hq. split.
  - intros t id s' Ht. apply (dispatch_turn_ok _ _ _ _ Hs) in Ht as Hd.
    destruct Hd as (_ & Hw & _). unfold dispatch_turn in Ht.
    destruct (_ || _); [done|]. destruct (nextEligible _ _ _) as [[u q']|] eqn:Hn; [|done].
    injection Ht as -> <- <-. apply (nextEligible_some _ _ _ _ _ Hq) in Hn as (_ & _ & Hcase).
    simpl in Hw. split; [rewrite <- Hw; left|]. split; [done|].
    destruct Hcase as [Hm|[Hnm Hl]]; [by rewrite Hm|]. done.
  - unfold dispatch_turn. intros Hn Hcap t Hin.
    destruct (Z.leb_spec (cfg_Concurrency (cfg (sched w))) (activeCount (ex (sched w)))); [lia|].
    destruct (Z.eqb_spec (queued (rq (sched w))) 0) as [H0|H0].
    { rewrite (qok_queued _ Hq) in H0. destruct (waiting (rq (sched w))); [by apply elem_of_nil in Hin|done]. }
    simpl in Hn. destruct (nextEligible _ _ _) as [[u q']|] eqn:Hne; [done|].
    apply elem_of_pool in Hin as (run & l & Hl & Hin). pose proof (qok_each _ Hq _ _ Hl) as (_ & HF & _).
    rewrite Forall_forall in HF. specialize (HF t Hin). simpl in HF. rewrite HF.
    eapply nextEligible_none; [done..|]. apply (qok_runs _ Hq). eauto.
Qed.

Lemma dispatch_order_witness :
  any_manual (rq (sched (after busy_events))) ∧
  ∃ t id s', dispatch_turn (sched (after busy_events)) = Some (t, id, s') ∧
    task_ID t = "t3" ∧ is_manual t = true.
Proof.
  assert (Hm : any_manual (rq (sched (after busy_events)))).
  { exists (probe_task "t3" "r2" "n3" EnqueueManualPreemptFront). split; [|reflexivity].
    apply list_elem_of_In. vm_compute. auto. }
  split; [exact Hm|].
  destruct (dispatch_order 2 0 4 0 small_scheduler (after busy_events) eq_refl
    ltac:(apply after_reachable; vm_compute; reflexivity)) as [Hd _].
  destruct (dispatch_turn (sched (after busy_events))) as [[[t id] s']|] eqn:Ht.
  - exists t, id, s'. split; [reflexivity|]. split; [|apply (Hd t id s' eq_refl); exact Hm].
    assert (Hid : (λ o, match o with Some (t, _, _) => task_ID t | None => "" end)
      (dispatch_turn (sched (after busy_events))) = "t3") by (vm_compute; reflexivity).
    rewrite Ht in Hid. exact Hid.
  - assert (Hid : (λ o : option (Task * Z * Scheduler), match o with Some _ => true | None => false end)
      (dispatch_turn (sched (after busy_events))) = true) by (vm_compute; reflexivity).
    rewrite Ht in Hid. discriminate.
Defined.

(** ** Exclusion *)

Section Exclusion.
Context `{MapOrder}.

Lemma pruned_record c now (m : history) l k r :
  tracks m l → (0 ≤ cfg_QueueSize c + cfg_Concurrency c)%Z → rec_active r = true →
  m !! k = Some r → ∃ r', pruneActiveNodes c now m !! k = Some r' ∧ rec_active r' = true.
Proof.
  intros Hm Hl Ha Hk. destruct (prune_spec c now m l Hm Hl) as [[Hp _] _].
  destruct Hm as [Hm _]. specialize (Hm k). specialize (Hp k). rewrite Hk in Hm.
  destruct Hm as [Hc Hact]. rewrite Ha in Hact. symmetry in Hact. apply Z.ltb_lt in Hact.
  destruct (pruneActiveNodes c now m !! k) as [r'|]; [|lia].
  exists r'. split; [done|]. destruct Hp as [Hc' ->]. apply Z.ltb_lt. lia.
Qed.

(** The strict mode accepts a key exactly when no task of the pool has it and its
    retention period is over. *)
Lemma strict_conflict now wait s t r s' old :
  sched_ok s → refused s t = None → submitStrictConflict now wait s t = (r, s', old) →
  (∃ u, u ∈ pool s ∧ task_key u = task_key t) → r = SubmitFailed ErrNodeConflict.
Proof.
  intros Hs Href Hsub [u [Hin Hk]]. unfold submitStrictConflict in Hsub. rewrite Href in Hsub.
  assert (Hpos : (0 < cnt task_key (task_key t) (pool s))%Z) by (apply cnt_pos; eauto).
  pose proof (ok_nodes _ Hs) as Ht. pose proof (proj1 Ht (task_key t)) as Hrec.
  destruct (activeNodes s !! task_key t) as [rec|] eqn:Hkey; [|lia].
  destruct Hrec as [Hc Ha]. pose proof (ok_cfg _ Hs) as Hcfg. unfold cfg_ok in Hcfg.
  destruct (pruned_record (cfg s) now _ _ _ rec Ht ltac:(lia) ltac:(rewrite Ha; apply Z.ltb_lt; lia) Hkey)
    as (r' & Hr' & Ha').
  rewrite Hr' in Hsub. unfold live_record in Hsub. rewrite Ha' in Hsub. by injection Hsub as <- _ _.
Qed.
End Exclusion.

(** Strict submissions exclude each other: in every reachable state, a strict-mode
    submission is refused with [ErrNodeConflict] while any task with the same node and
    kind waits or executes, in whichever run and mode it was submitted; so an accepted
    one finds the node and kind free. *)
Theorem strict_submission_exclusive c r q ttl s0 w order now wait t res s' old :
  NewScheduler c r q ttl = Ok s0 → reachable s0 w → task_Mode t = EnqueueStrictConflict →
  submit (H := order) false now wait (sched w) t = (res, s', old) →
  (∀ u, u ∈ pool (sched w) → task_key u = task_key t →
     closed (sched w) = false → task_RunID t ∉ cancelledRuns (cn (sched w)) →
     res = SubmitFailed ErrNodeConflict) ∧
  (res = SubmitAccepted → ∀ u, u ∈ pool (sched w) → task_key u ≠ task_key t).
Proof.
  intros Hnew [Hok _]%(reachable_ok _ _ _ _ _ _ Hnew) Hmode Hsub.
  pose proof (wok_sched _ Hok) as Hs. unfold submit in Hsub. rewrite Hmode in Hsub. simpl in Hsub.
  split.
  - intros u Hin Hk Hcl Hrun. eapply strict_conflict; [done| |done|eauto].
    unfold refused. rewrite Hcl. by rewrite bool_decide_eq_false_2.
  - intros -> u Hin Hk. destruct (refused (sched w) t) eqn:Href.
    + unfold submitStrictConflict in Hsub. by rewrite Href in Hsub.
    + by apply (strict_conflict _ _ _ _ _ _ _ Hs Href) in Hsub; [|eauto].
Qed.

Lemma strict_submission_exclusive_witness :
  (submit (H := key_order) false 1000%Z false (sched (after busy_events))
    (probe_task "t4" "r9" "n2" EnqueueStrictConflict)).1.1 = SubmitFailed ErrNodeConflict.
Proof.
  destruct (submit (H := key_order) false 1000%Z false (sched (after busy_events))
    (probe_task "t4" "r9" "n2" EnqueueStrictConflict)) as [[res s'] old] eqn:Hsub.
  destruct (strict_submission_exclusive 2 0 4 0 small_scheduler (after busy_events) key_order
    1000%Z false (probe_task "t4" "r9" "n2" EnqueueStrictConflict) res s' old eq_refl
    ltac:(apply after_reachable; vm_compute; reflexivity) eq_refl Hsub) as [Hconf _].
  simpl. apply (Hconf (probe_task "t2" "r2" "n2" EnqueuePeriodicDedupe)).
  - apply list_elem_of_In. vm_compute. auto.
  - reflexivity.
  - vm_compute. reflexivity.
  - apply (bool_decide_eq_false_1 (_ ∈ _)). vm_compute. reflexivity.
Defined.

(** ** Cancellation *)

(** Cancelling a run or closing the scheduler reaches everything it should: in
    every reachable state the context of each executing task whose run was cancelled,
    or of any executing task once the scheduler is closed, has been cancelled; no task
    of a cancelled run waits, and nothing waits in a closed scheduler. *)
Theorem cancellation_complete c r q ttl s0 w :
  NewScheduler c r q ttl = Ok s0 → reachable s0 w →
  (∀ id t n, executing w id t n →
     closed (sched w) = true ∨ task_RunID t ∈ cancelledRuns (cn (sched w)) →
     n ∈ cancelledCtx (cn (sched w))) ∧
  (∀ t, t ∈ waiting (rq (sched w)) → task_RunID t ∉ cancelledRuns (cn (sched w))) ∧
  (closed (sched w) = true → waiting (rq (sched w)) = []).
Proof.
  intros Hnew [Hok _]%(reachable_ok _ _ _ _ _ _ Hnew).
  split; [apply (can_cancelled _ (wok_cancels _ Hok))|].
  split; [|apply (ok_closed _ (wok_sched _ Hok))].
  intros t Hin Hrun. pose proof (wok_revoked _ Hok _ Hrun) as Hz.
  assert (0 < cnt task_RunID (task_RunID t) (waiting (rq (sched w))))%Z by (apply cnt_pos; eauto).
  lia.
Qed.

(** A task executing when its run is cancelled. *)
Definition cancelled_midway : list event :=
  [submit_now (probe_task "t1" "r1" "n1" EnqueueStrictConflict); EvDispatch; EvStart 1 1000%Z;
   EvCancelRun (λ _, 2000%Z) "r1"].

Lemma cancellation_complete_witness :
  executing (after cancelled_midway) 1 (probe_task "t1" "r1" "n1" EnqueueStrictConflict) 0 ∧
  0%Z ∈ cancelledCtx (cn (sched (after cancelled_midway))).
Proof.
  assert (He : executing (after cancelled_midway) 1
    (probe_task "t1" "r1" "n1" EnqueueStrictConflict) 0) by (vm_compute; reflexivity).
  split; [exact He|].
  destruct (cancellation_complete 2 0 4 0 small_scheduler (after cancelled_midway) eq_refl
    ltac:(apply after_reachable; vm_compute; reflexivity)) as (Hc & _).
  apply (Hc _ _ _ He). right. apply (bool_decide_eq_true_1 (_ ∈ _)). vm_compute. reflexivity.
Defined.

(** ** Progress *)

Lemma drains_from w :
  world_ok w → undisturbed w →
  ∃ es w', Forall (λ e, internal e = true) es ∧ run_events es w = Some w' ∧
    callbacks (sched w') = 0%Z ∧ world_ok w' ∧ accepted w' = accepted w.
Proof.
  remember (work w) as n eqn:Hn. revert w Hn.
  induction (lt_wf n) as [n _ IH]; intros w Hn Hok Hu.
  destruct (Z.eq_dec (callbacks (sched w)) 0%Z) as [H0|Hne].
  { exists [], w. split; [constructor|]. by split. }
  assert (Hpos : (0 < callbacks (sched w))%Z).
  { rewrite (wok_callbacks _ Hok), (ok_tasks _ (wok_sched _ Hok)) in *.
    pose proof (qok_queued _ (ok_queues _ (wok_sched _ Hok))).
    pose proof (xok_active _ _ (ok_execs _ (wok_sched _ Hok))). lia. }
  destruct (internal_enabled w Hok Hu Hpos) as (e & w1 & He & Hx).
  pose proof (internal_decreases e w w1 Hok He Hx) as Hlt. subst n.
  destruct (IH (work w1) Hlt w1 eq_refl (exec_ok _ _ _ Hok Hx)
    (internal_undisturbed _ _ _ He Hx Hok Hu)) as (es & w' & Hes & Hrun & Hcb & Hok' & Hacc).
  exists (e :: es), w'. split; [by constructor|]. simpl. rewrite Hx. split; [done|].
  split; [done|]. split; [done|]. rewrite Hacc.
  destruct e; try done; unfold exec in Hx;
    repeat (case_match; try done); by injection Hx as <-.
Qed.

(** C33. The scheduler drains.  As long as the parent context does not end under an open
    scheduler: while any callback is outstanding one of the scheduler's own goroutines
    can take a step (the dispatcher never sleeps through the signal it needs), every
    such step decreases the work left, so no sequence of them goes on for ever, and
    there is a sequence of them after which every accepted task has been completed
    exactly once. *)
Theorem scheduler_drains c r q ttl s0 w :
  NewScheduler c r q ttl = Ok s0 → reachable s0 w → undisturbed w →
  ((0 < callbacks (sched w))%Z → ∃ e w', internal e = true ∧ exec e w = Some w') ∧
  (∀ e w', internal e = true → exec e w = Some w' → work w' < work w) ∧
  (∃ es w', Forall (λ e, internal e = true) es ∧ run_events es w = Some w' ∧
     drain_condition (sched w') = true ∧ accepted w ≃ map fst (completed w')).
Proof.
  intros Hnew [Hok _]%(reachable_ok _ _ _ _ _ _ Hnew) Hu.
  split; [by apply internal_enabled|]. split; [by intros e w'; apply internal_decreases|].
  destruct (drains_from w Hok Hu) as (es & w' & Hes & Hrun & Hcb & Hok' & Hacc).
  exists es, w'. split; [done|]. split; [done|].
  pose proof (wok_sched _ Hok') as Hs. pose proof (qok_queued _ (ok_queues _ Hs)) as Hq.
  pose proof (xok_active _ _ (ok_execs _ Hs)) as Ha. pose proof (ok_tasks _ Hs) as Ht.
  pose proof (wok_callbacks _ Hok') as Hc. split.
  - unfold drain_condition. rewrite Hcb. simpl. apply andb_true_iff.
    split; apply Z.eqb_eq; lia.
  - pose proof (wok_log _ Hok') as Hlog. rewrite Hacc in Hlog. unfold pool in Hlog.
    rewrite (nil_length_inv (waiting _)), (nil_length_inv (probing _)), (nil_length_inv (owed w'))
      in Hlog by lia. done.
Qed.

Lemma scheduler_drains_witness :
  callbacks (sched (after busy_events)) = 3%Z ∧
  ∃ es w', run_events es (after busy_events) = Some w' ∧ drain_condition (sched w') = true.
Proof.
  split; [vm_compute; reflexivity|].
  destruct (scheduler_drains 2 0 4 0 small_scheduler (after busy_events) eq_refl
    ltac:(apply after_reachable; vm_compute; reflexivity)) as (_ & _ & es & w' & _ & Hrun & Hd & _).
  - intros Hc. vm_compute in Hc. discriminate.
  - exists es, w'. split; [exact Hrun|exact Hd].
Defined.

(** ** A parent context that ends first *)

Definition stranded_events : list event :=
  [EvDispatch; EvContextDone; EvStop;
   submit_now (probe_task "t1" "r1" "n1" EnqueueStrictConflict)].

(** A scheduler whose parent context ends stops dispatching but stays open: after the
    dispatcher has left on [ctx.Done], a submission is still accepted, and then no
    goroutine of the scheduler can take a step while the task is outstanding, so [Wait]
    does not return unless someone calls [CancelRun] or [Close]. *)
Theorem ended_context_strands_tasks :
  let w := after stranded_events in
  reachable small_scheduler w ∧ closed (sched w) = false ∧ map task_ID (accepted w) = ["t1"] ∧
  wait_returns (sched w) = false ∧ ∀ e, internal e = true → exec e w = None.
Proof.
  simpl. split; [apply after_reachable; vm_compute; reflexivity|].
  split; [vm_compute; reflexivity|]. split; [vm_compute; reflexivity|].
  split; [vm_compute; reflexivity|]. intros e He.
  assert (Hd : disp (after stranded_events) = Stopped) by (vm_compute; reflexivity).
  assert (Hw : workers (after stranded_events) = ∅) by (vm_compute; reflexivity).
  assert (Ho : owed (after stranded_events) = []) by (vm_compute; reflexivity).
  destruct e; try done; unfold exec; rewrite ?Hd, ?Hw, ?Ho, ?lookup_empty, ?lookup_nil; done.
Qed.
